(* ===== verification/_CoqProject ===== *)
-Q . S2P
Prelude.v
Text.v
HyperCopy.v
Backend.v
Frontend.v
HyperTypes.v
SqlClassify.v
SqlEscape.v
Calendar.v
Connection.v
SqlTypes.v
Decimal.v
Rows.v
Client.v
Api.v
Rowsets.v
Params.v
Auth.v
Session.v
TableDef.v
Catalog.v
Inserter.v
Mapped.v
Sender.v
Pool.v
KvStore.v
Daemon.v
McpErrors.v
Engine.v
CopyQuery.v
TableCatalog.v
Keeps.v
Reconcile.v
Attach.v
Server.v
Schema.v
Ingest.v
Specs.v
Merge.v
Execute.v
