(* ===== verification/Prelude.v ===== *)
(** * Verification of the Hyper API for Rust

    The repository is a client of the Hyper database in four crates:
    [hyperdb-api-core] (the wire protocol, the value types and the client),
    [hyperdb-api] (connections, inserters, pools, stores), [hyperdb-mcp] (a
    server that runs SQL on behalf of a language model) and
    [hyperdb-api-salesforce] (tokens). A program writes rows with the bulk
    inserter or asks for them with a query; both become frontend messages of the
    PostgreSQL wire protocol, their payload in Hyper's binary COPY format, and
    what the server answers is framed and parsed as backend messages. The MCP
    server lets a text through to the read-only tools only if its classifier
    accepts it.

    ** The files

    Every file opens with what it models. A definition keeps the name it has in
    the source; the correspondence of each with its lines is the manifest's.

    - [Prelude]: Rust results and panics ([result], [outcome]), machine integers,
      byte orders, list lemmas; this file.
    - [Text]: [char], [str], UTF-8, [trim], integer parsing and formatting: what
      the code uses of the standard library on text.
    - [HyperCopy]: [hyperdb-api-core/src/protocol/copy.rs], the binary COPY
      format: its writers, its readers, [CopyDataBuilder].
    - [Backend]: [protocol/message/backend.rs], the messages of the server:
      [Buffer], [Message::parse], the bodies and their iterators, [DataRow].
    - [Frontend]: [protocol/message/frontend.rs], the messages of the client.
    - [HyperTypes]: [types/traits.rs], [types/types.rs], [protocol/types.rs]: the
      traits [ToHyperBinary] and [FromHyperBinary] as records of operations,
      their implementations as values of them.
    - [Calendar]: the dates and times of [types/special.rs].
    - [SqlClassify]: [hyperdb-mcp/src/sql_classify.rs], its lexer and classifier.
    - [SqlEscape]: [protocol/escape.rs] and [hyperdb-api/src/names.rs].
    - [Connection]: [client/connection.rs], with [client/error.rs] and
      [client/statement.rs]: [RawConnection] over a transport.
    - [SqlTypes]: [types/oid.rs] and [types/sql_type.rs]: object identifiers,
      modifiers, [SqlType].
    - [Decimal]: [Numeric] of [types/special.rs] and [rescale_numeric].
    - [Rows]: [client/row.rs], the columns of [client/statement.rs], the rows and
      schemas of [hyperdb-api/src/result.rs] and [row_accessor.rs].
    - [Client]: [client/client.rs], [client/prepare.rs], [client/prepared_stream.rs]
      and [client/notice.rs]: commands, result streams, prepared statements.
    - [Api]: [client/error.rs] and [hyperdb-api/src/error.rs], the errors and what becomes
      of them on their way to the caller.
    - [Rowsets]: the rowsets of [hyperdb-api/src/result.rs], the queries of
      [connection.rs] that return rows, [prepared.rs].
    - [Params]: [hyperdb-api/src/params.rs], the encodings of query parameters.
    - [Auth]: [client/auth.rs] and [RawConnection::startup], the password responses and the
      SCRAM exchange; the other side as RFC 5802 has it.
    - [Session]: the rest of [hyperdb-api/src/connection.rs] and [transaction.rs]:
      databases, batches, transactions, closing.
    - [TableDef]: [hyperdb-api/src/table_definition.rs], definitions and their SQL.
    - [Catalog]: [hyperdb-api/src/catalog.rs] and [table_copy.rs]: schemas, tables and
      constraints read from [pg_catalog], and the copy of a table with its definition.
    - [Inserter]: [hyperdb-api/src/inserter.rs] and [CopyInWriter] of
      [client/client.rs].
    - [Mapped]: [MappedInserter] of [hyperdb-api/src/inserter.rs], rows through a staging
      table and SQL expressions.
    - [Sender]: [ChunkSender] of [hyperdb-api/src/inserter.rs], the chunks of many
      threads in one COPY.
    - [Pool]: the synchronous [ConnectionPool] of [hyperdb-api/src/pool.rs]: threads
      that take turns at the mutex and the condition variable, as a step function
      on events.
    - [KvStore]: [hyperdb-api/src/kv_store.rs], a map kept in a SQL table.
    - [Daemon]: [hyperdb-mcp/src/daemon/health.rs], the shutdown of the daemon as a step
      function of its threads under two memory orders, and its control protocol.
    - [McpErrors]: [hyperdb-mcp/src/error.rs], the codes of tool errors and how the errors
      of the API are classified.
    - [Engine]: [hyperdb-mcp/src/engine.rs], the connection of a tool and its two databases,
      the search path, transactions; the monad [Tool] of fallible code with state.
    - [CopyQuery]: [perform_copy] of [hyperdb-mcp/src/server.rs] and the staging tables of
      [scratch.rs].
    - [TableCatalog]: [hyperdb-mcp/src/table_catalog.rs], the table [_table_catalog] of
      every database a tool loads into; [Keeps]: what its operations leave alone;
      [Reconcile]: its comparison with the tables that exist.
    - [Attach]: [hyperdb-mcp/src/attach.rs], the registry of attached databases and its
      replay.
    - [Server]: the engine slot of [hyperdb-mcp/src/server.rs], the routing of a tool to its
      database, sequences of tool calls.
    - [Schema]: [hyperdb-mcp/src/schema.rs], names of types and the inference of schemas
      from JSON and CSV.
    - [Ingest]: [hyperdb-mcp/src/ingest.rs] and the table operations of [engine.rs]: loads
      of JSON and CSV, the merge; [Specs]: Hoare rules for tools; [Merge]: what a merge
      does to its target.
    - [Execute]: the [query] and [execute] tools of [hyperdb-mcp/src/server.rs].

    [Connection] calls [Frontend] to write and [Backend] to parse. [Client] runs its
    requests on the connection of [Connection] and hands out the rows of [Rows], whose
    cells are what [HyperTypes], [Calendar] and [Decimal] encode. [Auth] is what comes
    before: it runs on the connection of [Connection], and sees hashes, [base64] and the
    random generator through the class [Crypto], with the laws [CryptoLaws]. [Inserter]
    encodes with [HyperCopy] and [HyperTypes] and sees its connection through the
    interface [CopyWriter], whose contract [CopyWriterSpec] the connection of
    [Connection] discharges; its tables are those of [TableDef] and its decimals
    those of [Decimal]. [SqlEscape] and [TableDef] are proved against the lexer of
    [SqlClassify]. [Rowsets] pulls the streams of [Client] and turns its errors into those of
    [Api]. [Session] sees its client through the interface [SqlClient], which the
    connection of [Client] implements; what transactions mean to a server is the
    contract [TxServer]. [KvStore] sees its connection through the interface
    [SqlConnection]; its contract [KvServer] says what SQL means to the server for
    the statements the store sends, and how they may fail. The contract is about
    the server, which is not in the repository: a table in memory shows that it
    can be kept. The engine of the MCP server sees its connection through
    [McpConnection], a [SqlClient] whose queries return rows. What its statements mean
    to a server is stated where they are used: [TableServer] for a copy,
    [CatalogServer] for the catalog, [AttachServer] for ATTACH and DETACH, each with a
    server in memory that keeps it. [Server] composes [Engine], [Attach] and
    [TableCatalog] the way a tool call does, and [Execute] runs its tools on it. [Catalog]
    adds queries of rows to [SqlClient] ([CatalogClient]), with the contract
    [CopyServer]; [Ingest] calls it and [Schema] over [IngestConnection], with the
    contract [MergeServer]; a batch of [Execute] asks [BatchServer], which is [TxServer]
    for what the classifier takes for DML.

    ** Modelling

    A [u8] is a [Z] from 0 to 255 and a byte string the list of them; a [str] is
    the list of its chars where the code iterates over chars, and of its UTF-8
    bytes where it copies bytes. A machine integer is a [Z] in its range; its
    operations wrap or panic by the build's [overflow_checks], a parameter of
    the definitions that compute with it, and the theorems hold for both values.
    A fallible function returns [result]; one that can panic returns [outcome], and
    [Panic] is a panic of the source (an [expect], an index out of range, a failed
    [assert!]). State is passed and returned. The behaviour of a socket is a list
    of what its reads and writes will do, which is any behaviour it can have
    during one run.

    ** Fuel

    Loops that are not structural have fuel. The UTF-8 decoder and the lexer have
    one unit per byte, since every round consumes a byte; the skipping loops of
    the lexer likewise; the iterators over message bodies one per byte of the
    body; the message loops of a connection one more than the bytes that can
    still arrive, since a message has at least five bytes. Where running out is a
    [Panic], a theorem shows that it does not happen ([classify_total],
    [error_fields_total], [exchanges_total]). The drains, [finish_copy] and
    [cancel_copy] are bounded in the source itself, by [POST_ERROR_DRAIN_CAP].
    A call of the pool that runs alone needs six steps for each idle connection and
    five more, which is the fuel of [solo]; [get_alone] shows it is enough.

    ** The theorems

    - Codecs: what a writer writes its reader reads, on exactly those bytes, and
      the readers are total on hostile bytes ([copy_roundtrip],
      [read_varbinary_exact], [codecs_lawful], [date_binary_exact],
      [interval_exact], [modifier_exact], [numeric_wire]).
    - Parameters: what a query is bound to reads back as it was ([params_read_back]).
    - Decimals: their text reads back ([display_reads_back]), and a value is stored
      in a column exactly or refused ([rescale_exact], [numeric_stored]).
    - Framing: [Message::parse] accepts exactly the encodings of messages and
      consumes exactly one frame ([parse_exact]); what the client writes splits
      back at the declared lengths ([frontend_stream], [bind_roundtrip]).
    - Calendar: the day arithmetic is the Gregorian calendar given by its
      leap-year rule and its month lengths ([date_gregorian]).
    - SQL text: an escaped name or literal is one token of the lexer
      ([escaped_is_one_token]), names read back ([qualified_name_roundtrip]), the
      tokens of a CREATE TABLE do not depend on its names ([create_sql_tokens]), and
      a statement that would write is not classified read-only
      ([write_is_refused], [read_only_shape]).
    - Exchanges: a query leaves the connection in step with the server however the
      transport cuts the bytes ([query_in_step]), the exchanges that ask for a healthy connection return
      ([exchanges_total]), a COPY is torn down or the connection marked
      ([copy_teardown]).
    - The handshake: a client and a server with the same password authenticate each
      other, and what other servers can get ([scram_authenticates]); it returns, and sends
      nothing of its own without a password ([startup_guarded]).
    - Results: a stream returns the rows of its query in order, in chunks, and ends
      once ([stream_delivers]); dropping it leaves the connection in step or marked
      ([stream_dropped]); a prepared statement is executed like a query
      ([prepared_executes]), but does not look at the mark ([prepared_out_of_step]).
      The three kinds of row agree ([row_kinds_agree]) and give back what was encoded
      ([row_reads_values]).
    - Rows of queries: fetching collects them all, eagerly or typed as they stream
      ([rows_collected]); one row costs one chunk and a cancel
      ([first_row_cancels]); no error loses its code or its message
      ([errors_carried]).
    - Sessions: a transaction is ended exactly once, is atomic and does not stay open
      ([transaction_atomic]); a batch counts what it ran ([batch_counts]).
    - The inserter refines a table of rows ([inserter_refines]) and sends the
      rows of its flushed chunks as one COPY ([inserter_wire]); so do chunks of
      parallel threads ([sender_stream]). A mapped inserter never waits for its own
      COPY, inserts only what arrived and drops its staging table
      ([mapped_statements]).
    - The pool: under every interleaving no connection is in two places
      ([pool_exclusive]), the size counts what is out and in ([pool_bounded]), the
      create mode is used once ([handshake_once]), nobody waits while a slot is free
      ([no_lost_wakeup]); a call alone does what the documentation says
      ([get_alone]), and what a panicking check costs ([panics_use_up_the_pool]).
    - The daemon: a shutdown is not lost between its flags, and would be with a weaker
      memory order ([shutdown_wakes]).
    - The key-value store is a finite map and its calls are atomic ([kv_refines]),
      and no invalid name reaches the server ([names_checked]).
    - The MCP server: an error of the API is classified by what the server said
      ([errors_classified]); a copy replaces its target or leaves it as it was,
      and cleans up ([copy_keeps_data]); the catalog follows the tables that exist
      ([reconcile_follows]); whatever calls a session makes, and wherever its
      connection is lost, the registry is what the server has attached
      ([registry_follows]); a batch of statements is all or nothing
      and leaves no transaction open ([execute_atomic]).
    - Tables and their loads: a copied table has the definition of its source but for
      what the report lists ([copy_table_faithful]); inferred types hold the data
      ([json_types_fit], [csv_types_fit]) and what names a type reaches the SQL as that
      type alone ([canonical_type_stable]); a merge upserts its target or leaves its rows
      ([merge_upserts]).

    ** Not modelled

    Pure input and output (sockets, TLS, processes, files), code that only calls
    third-party libraries (arrow, tonic, chrono, rustls, the hashes of the
    handshake), the asynchronous twins of synchronous code, and builders. Of the MCP
    server: the validation of paths, which asks the file system; the ingestion of Arrow
    and Parquet, export and charts, which hand the data to arrow, csv and plotters; the
    discovery of the daemon, which starts processes; the JSON of the protocol. *)


From stdpp Require Export prelude list list_numbers numbers.
From Stdlib Require Export ZArith Lia.

#[global] Open Scope Z_scope.

(** ** Rust results and panics *)

(** [Result<A, E>]. *)
Inductive result (A E : Type) : Type :=
| Ok (a : A)
| Err (e : E).
Arguments Ok {A E} _.
Arguments Err {A E} _.

(** A computation that returns or panics ([expect], a failed [assert!], an index
    out of range). *)
Inductive outcome (A : Type) : Type :=
| Val (a : A)
| Panic.
Arguments Val {A} _.
Arguments Panic {A}.

Definition result_bind {A B E} (m : result A E) (f : A -> result B E) : result B E :=
  match m with
  | Ok a => f a
  | Err e => Err e
  end.

Definition outcome_bind {A B} (m : outcome A) (f : A -> outcome B) : outcome B :=
  match m with
  | Val a => f a
  | Panic => Panic
  end.

Definition is_ok {A E} (r : result A E) : bool :=
  match r with
  | Ok _ => true
  | Err _ => false
  end.

Declare Scope rust_scope.
Delimit Scope rust_scope with rust.

Notation "'let?' x ':=' m 'in' k" := (result_bind m (fun x => k))
  (at level 10, x name, m at level 100, k at level 200) : rust_scope.
Notation "'let!' x ':=' m 'in' k" := (outcome_bind m (fun x => k))
  (at level 10, x name, m at level 100, k at level 200) : rust_scope.

(** A function that returns a [Result] and may also panic. *)
Definition rresult (A E : Type) : Type := outcome (result A E).

Definition rbind {A B E} (m : rresult A E) (f : A -> rresult B E) : rresult B E :=
  match m with
  | Val (Ok a) => f a
  | Val (Err e) => Val (Err e)
  | Panic => Panic
  end.

Notation "'let*' x ':=' m 'in' k" := (rbind m (fun x => k))
  (at level 10, x name, m at level 100, k at level 200) : rust_scope.
#[global] Open Scope rust_scope.

Definition panics {A} (m : outcome A) : bool :=
  match m with
  | Val _ => false
  | Panic => true
  end.

#[export] Instance result_eq_dec {A E} `{EqDecision A, EqDecision E} : EqDecision (result A E).
Proof. solve_decision. Defined.

#[export] Instance outcome_eq_dec {A} `{EqDecision A} : EqDecision (outcome A).
Proof. solve_decision. Defined.

(** ** Machine integers *)

(** An unsigned (signed) [w]-bit integer is a [Z] in its range; [wrap_u]
    ([wrap_i]) reduces modulo [2 ^ w] into that range, as [as] casts and the
    [wrapping_*] operations do. *)
Definition in_u (w z : Z) : Prop := 0 <= z < 2 ^ w.
Definition in_i (w z : Z) : Prop := - 2 ^ (w - 1) <= z < 2 ^ (w - 1).
Definition wrap_u (w z : Z) : Z := z `mod` 2 ^ w.
Definition wrap_i (w z : Z) : Z := (z + 2 ^ (w - 1)) `mod` 2 ^ w - 2 ^ (w - 1).

(** [uN::try_from] and [iN::try_from]. *)
Definition in_ub (w z : Z) : bool := (0 <=? z) && (z <? 2 ^ w).
Definition in_ib (w z : Z) : bool := (- 2 ^ (w - 1) <=? z) && (z <? 2 ^ (w - 1)).

#[export] Instance in_u_dec w z : Decision (in_u w z).
Proof. unfold in_u; apply _. Defined.
#[export] Instance in_i_dec w z : Decision (in_i w z).
Proof. unfold in_i; apply _. Defined.

Lemma in_ub_spec w z : in_ub w z = true <-> in_u w z.
Proof. unfold in_ub, in_u. rewrite andb_true_iff, Z.leb_le, Z.ltb_lt. done. Qed.

Lemma in_ib_spec w z : in_ib w z = true <-> in_i w z.
Proof. unfold in_ib, in_i. rewrite andb_true_iff, Z.leb_le, Z.ltb_lt. done. Qed.

Lemma wrap_u_range w z : 0 <= w -> in_u w (wrap_u w z).
Proof. intros. apply Z.mod_pos_bound. lia. Qed.

Lemma pow2_half w : 0 < w -> 2 ^ w = 2 * 2 ^ (w - 1).
Proof. intros. rewrite <- Z.pow_succ_r by lia. f_equal. lia. Qed.

Lemma wrap_i_range w z : 0 < w -> in_i w (wrap_i w z).
Proof.
  intros Hw. unfold in_i, wrap_i. pose proof (pow2_half w Hw).
  pose proof (Z.mod_pos_bound (z + 2 ^ (w - 1)) (2 ^ w)). lia.
Qed.

Lemma wrap_u_id w z : in_u w z -> wrap_u w z = z.
Proof. apply Z.mod_small. Qed.

Lemma wrap_u_add_l w a b : wrap_u w (wrap_u w a + b) = wrap_u w (a + b).
Proof. unfold wrap_u. apply Zplus_mod_idemp_l. Qed.

Lemma wrap_i_id w z : 0 < w -> in_i w z -> wrap_i w z = z.
Proof.
  intros Hw Hz. unfold in_i, wrap_i in *. pose proof (pow2_half w Hw).
  rewrite Z.mod_small; lia.
Qed.

(** The bit-pattern reinterpretations [as uN] and [as iN] are inverse to each
    other. *)
Lemma wrap_i_wrap_u w z : 0 < w -> wrap_i w (wrap_u w z) = wrap_i w z.
Proof.
  intros Hw. unfold wrap_i, wrap_u. rewrite Zplus_mod_idemp_l. done.
Qed.

Lemma wrap_u_wrap_i w z : 0 < w -> wrap_u w (wrap_i w z) = wrap_u w z.
Proof.
  intros Hw. unfold wrap_i, wrap_u.
  rewrite Zminus_mod_idemp_l. f_equal. lia.
Qed.

(** Arithmetic: an overflowing [+] or [*] panics when the build has
    overflow checks and wraps around when it has not. *)
Definition arith_i (overflow_checks : bool) (w z : Z) : outcome Z :=
  if in_ib w z then Val z else if overflow_checks then Panic else Val (wrap_i w z).
Definition arith_u (overflow_checks : bool) (w z : Z) : outcome Z :=
  if in_ub w z then Val z else if overflow_checks then Panic else Val (wrap_u w z).

Lemma arith_u_in oc w z : in_u w z -> arith_u oc w z = Val z.
Proof. intros Hz. unfold arith_u. by rewrite (proj2 (in_ub_spec w z) Hz). Qed.

Lemma arith_u_out w z : ~ in_u w z -> arith_u true w z = Panic.
Proof. intros Hz. unfold arith_u. destruct (in_ub w z) eqn:E; [by apply in_ub_spec in E | done]. Qed.

Lemma arith_u_wrap w z : arith_u false w z = Val (wrap_u w z).
Proof.
  unfold arith_u. destruct (in_ub w z) eqn:E; [| done]. apply in_ub_spec in E. by rewrite wrap_u_id.
Qed.

Lemma arith_i_val oc w z : in_i w z -> arith_i oc w z = Val z.
Proof. intros H. unfold arith_i. by rewrite (proj2 (in_ib_spec w z) H). Qed.

Lemma arith_i_wrap w z : 0 < w -> arith_i false w z = Val (wrap_i w z).
Proof.
  intros Hw. unfold arith_i. destruct (in_ib w z) eqn:H; [| done].
  apply in_ib_spec in H. by rewrite wrap_i_id.
Qed.

Lemma wrap_i_add_l w a b : wrap_i w (wrap_i w a + b) = wrap_i w (a + b).
Proof.
  unfold wrap_i. f_equal.
  replace ((a + 2 ^ (w - 1)) `mod` 2 ^ w - 2 ^ (w - 1) + b + 2 ^ (w - 1))
    with ((a + 2 ^ (w - 1)) `mod` 2 ^ w + b) by lia.
  rewrite Zplus_mod_idemp_l. f_equal. lia.
Qed.

(** ** Bytes and byte order *)

Definition is_byte (b : Z) : Prop := 0 <= b < 256.

#[export] Instance is_byte_dec b : Decision (is_byte b).
Proof. unfold is_byte; apply _. Defined.

(** [to_le_bytes], [to_be_bytes], [from_le_bytes] and [from_be_bytes]: an
    integer of [n] bytes, signed ones in two's complement. *)
Definition to_le (n : nat) (z : Z) : list Z := Z_to_little_endian (Z.of_nat n) 8 z.
Definition to_be (n : nat) (z : Z) : list Z := reverse (to_le n z).
Definition u_of_le (bs : list Z) : Z := little_endian_to_Z 8 bs.
Definition u_of_be (bs : list Z) : Z := u_of_le (reverse bs).
Definition i_of_le (bs : list Z) : Z := wrap_i (8 * Z.of_nat (length bs)) (u_of_le bs).
Definition i_of_be (bs : list Z) : Z := wrap_i (8 * Z.of_nat (length bs)) (u_of_be bs).

#[global] Arguments to_le : simpl never.
#[global] Arguments to_be : simpl never.
#[global] Arguments u_of_le : simpl never.
#[global] Arguments u_of_be : simpl never.
#[global] Arguments i_of_le : simpl never.
#[global] Arguments i_of_be : simpl never.

Create HintDb rust.
Create Rewrite HintDb rust.

Lemma length_to_le n z : length (to_le n z) = n.
Proof. apply Nat2Z.inj, length_Z_to_little_endian. lia. Qed.

Lemma length_to_be n z : length (to_be n z) = n.
Proof. unfold to_be. by rewrite length_reverse, length_to_le. Qed.

Lemma to_le_bytes n z : Forall is_byte (to_le n z).
Proof. apply (Z_to_little_endian_bound (Z.of_nat n) 8 z); lia. Qed.

Lemma to_be_bytes n z : Forall is_byte (to_be n z).
Proof. apply Forall_reverse, to_le_bytes. Qed.

Lemma u_of_le_to_le n z : u_of_le (to_le n z) = wrap_u (8 * Z.of_nat n) z.
Proof.
  unfold u_of_le, to_le, wrap_u. rewrite little_endian_to_Z_to_little_endian by lia.
  do 2 f_equal. lia.
Qed.

Lemma u_of_be_to_be n z : u_of_be (to_be n z) = wrap_u (8 * Z.of_nat n) z.
Proof. unfold u_of_be, to_be. rewrite reverse_involutive. apply u_of_le_to_le. Qed.

Lemma u_of_le_range bs : Forall is_byte bs -> in_u (8 * Z.of_nat (length bs)) (u_of_le bs).
Proof.
  intros H. unfold in_u. pose proof (little_endian_to_Z_bound 8 bs ltac:(lia) H) as Hb.
  replace (8 * Z.of_nat (length bs)) with (Z.of_nat (length bs) * 8) by lia. exact Hb.
Qed.

Lemma to_le_u_of_le bs : Forall is_byte bs -> to_le (length bs) (u_of_le bs) = bs.
Proof. intros H. by apply Z_to_little_endian_to_Z. Qed.

Lemma to_be_u_of_be bs : Forall is_byte bs -> to_be (length bs) (u_of_be bs) = bs.
Proof.
  intros H. unfold to_be, u_of_be. rewrite <- (length_reverse bs).
  rewrite to_le_u_of_le by (by apply Forall_reverse). apply reverse_involutive.
Qed.

(** Writing an integer only looks at it modulo [2 ^ (8 n)]. *)
Lemma to_le_wrap_u n z : to_le n (wrap_u (8 * Z.of_nat n) z) = to_le n z.
Proof.
  rewrite <- u_of_le_to_le. rewrite <- (length_to_le n z) at 1.
  apply to_le_u_of_le, to_le_bytes.
Qed.

Lemma to_le_i_of_le bs :
  bs <> [] -> Forall is_byte bs -> to_le (length bs) (i_of_le bs) = bs.
Proof.
  intros Hne H. unfold i_of_le.
  assert (0 < 8 * Z.of_nat (length bs)) by (destruct bs; [done | simpl; lia]).
  rewrite <- to_le_wrap_u, wrap_u_wrap_i, to_le_wrap_u by done. by apply to_le_u_of_le.
Qed.

Lemma i_of_le_to_le n z :
  (0 < n)%nat -> in_i (8 * Z.of_nat n) z -> i_of_le (to_le n z) = z.
Proof.
  intros Hn Hz. unfold i_of_le. rewrite length_to_le, u_of_le_to_le, wrap_i_wrap_u by lia.
  apply wrap_i_id; [lia | done].
Qed.

Lemma i_of_be_to_be n z :
  (0 < n)%nat -> in_i (8 * Z.of_nat n) z -> i_of_be (to_be n z) = z.
Proof.
  intros Hn Hz. unfold i_of_be. rewrite length_to_be, u_of_be_to_be, wrap_i_wrap_u by lia.
  apply wrap_i_id; [lia | done].
Qed.

Lemma i_of_le_range bs : bs <> [] -> in_i (8 * Z.of_nat (length bs)) (i_of_le bs).
Proof. intros H. apply wrap_i_range. destruct bs; [done | simpl; lia]. Qed.

Lemma i_of_be_range bs : bs <> [] -> in_i (8 * Z.of_nat (length bs)) (i_of_be bs).
Proof. intros H. apply wrap_i_range. destruct bs; [done | simpl; lia]. Qed.

(** ** Slices *)

(** [&buf[a..b]], for [a <= b <= buf.len()]. *)
Definition slice (a b : nat) (buf : list Z) : list Z := take (b - a) (drop a buf).

(** The same as code: the range operator panics out of bounds. *)
Definition slice_range (a b : nat) (buf : list Z) : outcome (list Z) :=
  if ((a <=? b) && (b <=? length buf))%nat then Val (slice a b buf) else Panic.

(** [&buf[a..]]. *)
Definition slice_from (a : nat) (buf : list Z) : outcome (list Z) :=
  if (a <=? length buf)%nat then Val (drop a buf) else Panic.

(** [buf[i]]. *)
Definition index (i : nat) (buf : list Z) : outcome Z :=
  match buf !! i with
  | Some b => Val b
  | None => Panic
  end.

(** [[buf[i], ..., buf[i + n - 1]]], an array built by indexing. *)
Definition array_at (i n : nat) (buf : list Z) : outcome (list Z) := slice_range i (i + n) buf.

Lemma slice_range_val a b buf :
  (a <= b <= length buf)%nat -> slice_range a b buf = Val (slice a b buf).
Proof.
  intros [Ha Hb]. unfold slice_range. apply Nat.leb_le in Ha, Hb. by rewrite Ha, Hb.
Qed.

Lemma array_at_val i n buf :
  (i + n <= length buf)%nat -> array_at i n buf = Val (take n (drop i buf)).
Proof.
  intros H. unfold array_at. rewrite slice_range_val by lia. unfold slice. do 2 f_equal. lia.
Qed.

Lemma slice_from_val a buf : (a <= length buf)%nat -> slice_from a buf = Val (drop a buf).
Proof. intros H. unfold slice_from. apply Nat.leb_le in H. by rewrite H. Qed.

Lemma index_val i buf b : buf !! i = Some b -> index i buf = Val b.
Proof. intros H. unfold index. by rewrite H. Qed.

Lemma length_slice a b buf : (a <= b <= length buf)%nat -> length (slice a b buf) = (b - a)%nat.
Proof. intros H. unfold slice. rewrite length_take, length_drop. lia. Qed.

Lemma slice_app a b l1 l2 : (b <= length l1)%nat -> slice a b (l1 ++ l2) = slice a b l1.
Proof.
  intros H. unfold slice. destruct (decide (a <= length l1)%nat).
  - rewrite drop_app_le by done. apply take_app_le. rewrite length_drop. lia.
  - replace (b - a)%nat with 0%nat by lia. done.
Qed.

(** [memchr(c, buf)]: the index of the first [c]. *)
Fixpoint memchr (c : Z) (buf : list Z) : option nat :=
  match buf with
  | [] => None
  | b :: rest => if b =? c then Some 0%nat else S <$> memchr c rest
  end.

Lemma memchr_some c buf n :
  memchr c buf = Some n <->
  exists post, buf = take n buf ++ c :: post /\ length (take n buf) = n /\ c ∉ take n buf.
Proof.
  revert n. induction buf as [| b buf IH]; intros n; simpl.
  - split; [done |]. intros (post & H & _). by destruct (take n []).
  - destruct (Z.eqb_spec b c) as [-> | Hne].
    + split.
      * intros [= <-]. exists buf. simpl. split_and!; [done | done | set_solver].
      * intros (post & H & Hlen & Hni). destruct n; [done |]. simpl in Hni. set_solver.
    + split.
      * intros (m & Hm & ->)%fmap_Some. apply IH in Hm as (post & Hb & Hl & Hni).
        exists post. simpl. split_and!; [by f_equal | by f_equal | set_solver].
      * intros (post & H & Hlen & Hni). destruct n as [| n]; simpl in *.
        { by injection H. }
        injection H as H. injection Hlen as Hlen.
        replace (memchr c buf) with (Some n); [done |]. symmetry. apply IH.
        exists post. split_and!; [done | done | set_solver].
Qed.

Lemma memchr_app c pre post : c ∉ pre -> memchr c (pre ++ c :: post) = Some (length pre).
Proof.
  intros H. apply memchr_some. exists post.
  rewrite take_app_length. done.
Qed.

Lemma memchr_none c buf : memchr c buf = None <-> c ∉ buf.
Proof.
  induction buf as [| b buf IH]; simpl; [set_solver |].
  destruct (Z.eqb_spec b c) as [-> | Hne]; [set_solver |].
  rewrite fmap_None, IH. set_solver.
Qed.

Lemma take_app_exact {A} (l1 l2 : list A) n : length l1 = n -> take n (l1 ++ l2) = l1.
Proof. intros <-. apply take_app_length. Qed.

Lemma drop_app_exact {A} (l1 l2 : list A) n : length l1 = n -> drop n (l1 ++ l2) = l2.
Proof. intros <-. apply drop_app_length. Qed.

#[export] Hint Rewrite length_to_le length_to_be u_of_le_to_le u_of_be_to_be
  @length_app @length_take @length_drop @length_cons @length_nil : rust.
#[export] Hint Resolve to_le_bytes to_be_bytes wrap_u_range wrap_i_range : rust.
#[export] Hint Resolve Forall_app_2 Forall_cons_2 Forall_nil_2 : rust.

(** [byte_solve] closes the range side conditions of the lemmas above, once
    the widths are concrete. *)
Ltac byte_solve :=
  unfold in_u, in_i, is_byte in *; simpl Z.of_nat in *; simpl Z.mul in *; simpl Z.sub in *; lia.

(** [cond] decides the next integer comparison in the goal by case analysis and
    drops the case the hypotheses exclude. *)
Ltac cond :=
  match goal with
  | |- context [Nat.ltb ?a ?b] => destruct (Nat.ltb_spec a b); try (exfalso; lia)
  | |- context [Nat.leb ?a ?b] => destruct (Nat.leb_spec a b); try (exfalso; lia)
  | |- context [Nat.eqb ?a ?b] => destruct (Nat.eqb_spec a b); try (exfalso; lia)
  | |- context [?a <? ?b] => destruct (Z.ltb_spec a b); try (exfalso; lia)
  | |- context [?a <=? ?b] => destruct (Z.leb_spec a b); try (exfalso; lia)
  | |- context [?a =? ?b] => destruct (Z.eqb_spec a b); try (exfalso; lia)
  end.
Ltac conds := repeat cond.
