(* ===== verification/Text.v ===== *)
(** * Rust text: [char], [str], UTF-8, decimal integers

    A [char] is its code point, a [str] the list of its chars ([s.chars()]), and
    [utf8 s] its bytes ([s.as_bytes()]).  The file holds what the modelled code
    uses of the Rust standard library on text: [str::from_utf8], [str::trim],
    integer parsing and integer formatting, with their round trips. *)

From stdpp Require Import strings.
From S2P Require Import Prelude.

(** A Rust string literal of ASCII characters, as its chars (or its bytes). *)
Definition str (s : string) : list Z := (fun c => Z.of_N (Ascii.N_of_ascii c)) <$> String.list_ascii_of_string s.

(** ** UTF-8 *)

Definition is_char (c : Z) : Prop := 0 <= c < 0xD800 \/ 0xE000 <= c < 0x110000.

#[export] Instance is_char_dec c : Decision (is_char c).
Proof. unfold is_char; apply _. Defined.

(** [char::encode_utf8]. *)
Definition encode_char (c : Z) : list Z :=
  if c <? 0x80 then [c]
  else if c <? 0x800 then [0xC0 + c / 64; 0x80 + c `mod` 64]
  else if c <? 0x10000 then
    [0xE0 + c / 4096; 0x80 + (c / 64) `mod` 64; 0x80 + c `mod` 64]
  else
    [0xF0 + c / 262144; 0x80 + (c / 4096) `mod` 64; 0x80 + (c / 64) `mod` 64;
     0x80 + c `mod` 64].

(** [char::len_utf8]. *)
Definition len_utf8 (c : Z) : nat := length (encode_char c).

Definition utf8 (s : list Z) : list Z := s ≫= encode_char.

Definition is_cont (b : Z) : bool := (0x80 <=? b) && (b <? 0xC0).

(** The first char of a byte slice and the bytes after it; [None] when the slice
    is empty or does not start with a well-formed sequence. *)
Definition decode_char (bs : list Z) : option (Z * list Z) :=
  match bs with
  | [] => None
  | b0 :: r0 =>
      if b0 <? 0x80 then Some (b0, r0)
      else if (0xC2 <=? b0) && (b0 <? 0xE0) then
        match r0 with
        | b1 :: r1 =>
            if is_cont b1 then Some ((b0 - 0xC0) * 64 + (b1 - 0x80), r1) else None
        | _ => None
        end
      else if (0xE0 <=? b0) && (b0 <? 0xF0) then
        match r0 with
        | b1 :: b2 :: r2 =>
            let c := (b0 - 0xE0) * 4096 + (b1 - 0x80) * 64 + (b2 - 0x80) in
            if is_cont b1 && is_cont b2 && (0x800 <=? c)
               && negb ((0xD800 <=? c) && (c <? 0xE000))
            then Some (c, r2) else None
        | _ => None
        end
      else if (0xF0 <=? b0) && (b0 <? 0xF5) then
        match r0 with
        | b1 :: b2 :: b3 :: r3 =>
            let c := (b0 - 0xF0) * 262144 + (b1 - 0x80) * 4096 + (b2 - 0x80) * 64
                     + (b3 - 0x80) in
            if is_cont b1 && is_cont b2 && is_cont b3 && (0x10000 <=? c) && (c <? 0x110000)
            then Some (c, r3) else None
        | _ => None
        end
      else None
  end.

(** [str::from_utf8], as the list of chars. The fuel is the number of bytes: a
    char takes at least one. *)
Fixpoint from_utf8_fuel (fuel : nat) (bs : list Z) : option (list Z) :=
  match bs with
  | [] => Some []
  | _ =>
      match fuel with
      | O => None
      | S fuel =>
          '(c, rest) ← decode_char bs;
          cs ← from_utf8_fuel fuel rest;
          Some (c :: cs)
      end
  end.

Definition from_utf8 (bs : list Z) : option (list Z) := from_utf8_fuel (length bs) bs.

Lemma encode_char_bytes c : is_char c -> Forall is_byte (encode_char c).
Proof.
  unfold is_char, encode_char, is_byte. intros Hc.
  repeat case_match; repeat constructor; try (Z.div_mod_to_equations; lia).
Qed.

Lemma utf8_bytes s : Forall is_char s -> Forall is_byte (utf8 s).
Proof.
  induction 1 as [| c s Hc _ IH]; [constructor |]. unfold utf8. csimpl.
  apply Forall_app_2; [by apply encode_char_bytes | exact IH].
Qed.

Ltac bool_eval :=
  repeat match goal with
  | |- context [?a <? ?b] =>
      first [ replace (a <? b) with true by (symmetry; apply Z.ltb_lt; Z.div_mod_to_equations; lia)
            | replace (a <? b) with false by (symmetry; apply Z.ltb_ge; Z.div_mod_to_equations; lia) ]
  | |- context [?a <=? ?b] =>
      first [ replace (a <=? b) with true by (symmetry; apply Z.leb_le; Z.div_mod_to_equations; lia)
            | replace (a <=? b) with false by (symmetry; apply Z.leb_gt; Z.div_mod_to_equations; lia) ]
  end; cbn [andb negb].

Lemma split2 c : (0xC0 + c / 64 - 0xC0) * 64 + (0x80 + c `mod` 64 - 0x80) = c.
Proof. Z.div_mod_to_equations; lia. Qed.

Lemma split3 c :
  (0xE0 + c / 4096 - 0xE0) * 4096 + (0x80 + (c / 64) `mod` 64 - 0x80) * 64
  + (0x80 + c `mod` 64 - 0x80) = c.
Proof. Z.div_mod_to_equations; lia. Qed.

Lemma split4 c :
  (0xF0 + c / 262144 - 0xF0) * 262144 + (0x80 + (c / 4096) `mod` 64 - 0x80) * 4096
  + (0x80 + (c / 64) `mod` 64 - 0x80) * 64 + (0x80 + c `mod` 64 - 0x80) = c.
Proof. Z.div_mod_to_equations; lia. Qed.

Lemma decode_encode_char c rest :
  is_char c -> decode_char (encode_char c ++ rest) = Some (c, rest).
Proof.
  intros Hc. unfold encode_char, is_char in *.
  destruct (Z.ltb_spec c 0x80); [| destruct (Z.ltb_spec c 0x800); [| destruct (Z.ltb_spec c 0x10000)]];
    cbn [app decode_char]; unfold is_cont; cbv zeta;
    rewrite ?split2, ?split3, ?split4.
  3: destruct Hc.
  all: bool_eval; done.
Qed.

Lemma encode_char_cons c : exists b bs, encode_char c = b :: bs.
Proof. unfold encode_char. repeat case_match; eauto. Qed.

Lemma from_utf8_fuel_utf8 s fuel :
  Forall is_char s -> (length (utf8 s) <= fuel)%nat -> from_utf8_fuel fuel (utf8 s) = Some s.
Proof.
  intros Hs. revert fuel. induction Hs as [| c s Hc _ IH]; intros fuel Hf.
  { by destruct fuel. }
  unfold utf8 in *. csimpl. csimpl in Hf. fold (utf8 s) in *.
  destruct (encode_char_cons c) as (b & bs & Hb).
  rewrite length_app in Hf. assert (1 <= length (encode_char c))%nat by (rewrite Hb; simpl; lia).
  destruct fuel as [| fuel]; [lia |].
  assert (Hne : exists x l, encode_char c ++ utf8 s = x :: l) by (rewrite Hb; eauto).
  pose proof (decode_encode_char c (utf8 s) Hc) as Hd.
  destruct Hne as (x & l & Hne). rewrite Hne in *. cbn [from_utf8_fuel].
  rewrite Hd. simpl. unfold utf8 in *. by rewrite IH by lia.
Qed.

(** [str::from_utf8] accepts the bytes of every [str] and returns it. *)
Lemma from_utf8_utf8 s : Forall is_char s -> from_utf8 (utf8 s) = Some s.
Proof. intros H. by apply from_utf8_fuel_utf8. Qed.

Lemma decode_char_encode bs c rest :
  Forall is_byte bs -> decode_char bs = Some (c, rest) -> is_char c /\ bs = encode_char c ++ rest.
Proof.
  unfold decode_char, is_cont. intros Hb Hd.
  repeat (case_match; try discriminate); simplify_eq;
    repeat match goal with
    | H : Forall is_byte (_ :: _) |- _ => apply Forall_cons_1 in H as [? ?]
    end;
    unfold is_byte in *;
    (split; [unfold is_char; lia |]); unfold encode_char; bool_eval; simpl; repeat f_equal;
    Z.div_mod_to_equations; lia.
Qed.

(** Conversely the bytes accepted are exactly the encoding of what is returned. *)
Lemma from_utf8_sound bs s :
  Forall is_byte bs -> from_utf8 bs = Some s -> Forall is_char s /\ bs = utf8 s.
Proof.
  unfold from_utf8. generalize (length bs) as fuel. intros fuel.
  revert bs s. induction fuel as [| fuel IH]; intros bs s Hb H.
  { destruct bs; simplify_eq/=. done. }
  destruct bs as [| b bs]; [simplify_eq/=; done |].
  cbn [from_utf8_fuel] in H.
  apply bind_Some in H as ([c rest] & Hd & H). apply bind_Some in H as (cs & Hr & [= <-]).
  apply decode_char_encode in Hd as [Hc Heq]; [| done].
  rewrite Heq in Hb. apply Forall_app in Hb as [_ Hb].
  apply IH in Hr as [Hcs ->]; [| done]. split; [by constructor |].
  rewrite Heq. done.
Qed.

(** ASCII text is its own encoding. *)
Definition is_ascii (c : Z) : Prop := 0 <= c < 128.

Lemma utf8_ascii s : Forall is_ascii s -> utf8 s = s.
Proof.
  induction 1 as [| c s Hc _ IH]; [done |]. unfold utf8 in *. csimpl. rewrite IH.
  unfold encode_char. unfold is_ascii in Hc. by bool_eval.
Qed.

Lemma is_ascii_char s : Forall is_ascii s -> Forall is_char s.
Proof. apply Forall_impl. unfold is_ascii, is_char. lia. Qed.

Lemma utf8_app s t : utf8 (s ++ t) = utf8 s ++ utf8 t.
Proof. unfold utf8. by rewrite bind_app. Qed.

(** ** Trimming *)

(** [char::is_whitespace]: Unicode [White_Space]. *)
Definition is_whitespace (c : Z) : bool :=
  ((9 <=? c) && (c <=? 13)) || (c =? 32) || (c =? 0x85) || (c =? 0xA0) || (c =? 0x1680)
  || ((0x2000 <=? c) && (c <=? 0x200A)) || (c =? 0x2028) || (c =? 0x2029) || (c =? 0x202F)
  || (c =? 0x205F) || (c =? 0x3000).

Fixpoint trim_start (s : list Z) : list Z :=
  match s with
  | c :: r => if is_whitespace c then trim_start r else s
  | [] => []
  end.

Definition trim_end (s : list Z) : list Z := reverse (trim_start (reverse s)).

Definition trim (s : list Z) : list Z := trim_end (trim_start s).

Lemma trim_start_id s : Forall (fun c => is_whitespace c = false) s -> trim_start s = s.
Proof. destruct 1 as [| c s Hc]; [done |]. simpl. by rewrite Hc. Qed.

Lemma trim_id s : Forall (fun c => is_whitespace c = false) s -> trim s = s.
Proof.
  intros H. unfold trim, trim_end. rewrite (trim_start_id s H).
  rewrite trim_start_id by (by apply Forall_reverse). apply reverse_involutive.
Qed.

(** ** Parts of a text *)

(** [str::strip_prefix]. *)
Definition strip_prefix (p s : list Z) : option (list Z) :=
  if bool_decide (p `prefix_of` s) then Some (drop (length p) s) else None.

(** [str::split] at a char. *)
Fixpoint split (d : Z) (s : list Z) : list (list Z) :=
  match s with
  | [] => [[]]
  | c :: s => if c =? d then [] :: split d s
              else match split d s with part :: parts => (c :: part) :: parts | [] => [[c]] end
  end.

Lemma strip_prefix_app p s : strip_prefix p (p ++ s) = Some s.
Proof. unfold strip_prefix. rewrite bool_decide_eq_true_2 by (by eexists). by rewrite drop_app_length. Qed.

Lemma split_none d s : d ∉ s -> split d s = [s].
Proof.
  induction s as [| c s IH]; intros H; [done |]. cbn [split]. apply not_elem_of_cons in H as [Hc Hs].
  rewrite (proj2 (Z.eqb_neq c d)) by congruence. by rewrite IH.
Qed.

Lemma split_at d s t : d ∉ s -> split d (s ++ d :: t) = s :: split d t.
Proof.
  induction s as [| c s IH]; intros H; cbn [app split]; [by rewrite Z.eqb_refl |]. apply not_elem_of_cons in H as [Hc Hs].
  rewrite (proj2 (Z.eqb_neq c d)) by congruence. by rewrite IH.
Qed.

(** ** Parsing and printing decimal integers *)

(** [u8::is_ascii_digit], [char::is_ascii_digit]. *)
Definition is_digit (c : Z) : bool := (48 <=? c) && (c <=? 57).

Fixpoint digits_val (acc : Z) (s : list Z) : option Z :=
  match s with
  | [] => Some acc
  | c :: r => if is_digit c then digits_val (acc * 10 + (c - 48)) r else None
  end.

(** [str::parse::<uN>] and [str::parse::<iN>]; [None] is any [ParseIntError]. *)
Definition parse_u (w : Z) (s : list Z) : option Z :=
  let ds := match s with
            | c :: r => if c =? 43 then r else s
            | [] => []
            end in
  match ds with
  | [] => None
  | _ => v ← digits_val 0 ds; if in_ub w v then Some v else None
  end.

Definition parse_i (w : Z) (s : list Z) : option Z :=
  let '(neg, ds) := match s with
                    | c :: r => if c =? 45 then (true, r)
                                else if c =? 43 then (false, r) else (false, s)
                    | [] => (false, [])
                    end in
  match ds with
  | [] => None
  | _ =>
      v ← digits_val 0 ds;
      let z := if neg : bool then - v else v in
      if in_ib w z then Some z else None
  end.

(** The decimal digits of [n], most significant first ([Display] of an unsigned
    integer). Each step divides by ten, so one step per bit is enough. *)
Fixpoint dec_fuel (fuel : nat) (n : Z) (acc : list Z) : list Z :=
  match fuel with
  | O => acc
  | S fuel =>
      let acc' := (48 + n `mod` 10) :: acc in
      if n / 10 =? 0 then acc' else dec_fuel fuel (n / 10) acc'
  end.

Definition fmt_u (n : Z) : list Z := dec_fuel (S (Z.to_nat (Z.log2 n))) n [].

Definition fmt_i (z : Z) : list Z := if z <? 0 then 45 :: fmt_u (- z) else fmt_u z.

(** [{:0w}]: zero padding to [w] columns, after the sign if there is one. *)
Definition pad0 (w : nat) (s : list Z) : list Z := replicate (w - length s) 48 ++ s.

Definition fmt_u0 (w : nat) (n : Z) : list Z := pad0 w (fmt_u n).

Definition fmt_i0 (w : nat) (z : Z) : list Z :=
  if z <? 0 then 45 :: pad0 (w - 1) (fmt_u (- z)) else pad0 w (fmt_u z).

Lemma digits_val_app a l1 l2 : digits_val a (l1 ++ l2) = digits_val a l1 ≫= fun v => digits_val v l2.
Proof. revert a. induction l1 as [| c l1 IH]; intros a; simpl; [done |]. by case_match. Qed.

Lemma digits_val_pad0 k s : digits_val 0 (replicate k 48 ++ s) = digits_val 0 s.
Proof. induction k as [| k IH]; [done |]. simpl. exact IH. Qed.

Lemma dec_fuel_acc fuel n acc : dec_fuel fuel n acc = dec_fuel fuel n [] ++ acc.
Proof.
  revert n acc. induction fuel as [| fuel IH]; intros n acc; [done |]. cbn [dec_fuel]. cbv zeta.
  case_match; [done |].
  rewrite (IH (n / 10) (_ :: acc)), (IH (n / 10) [_]), <- app_assoc. done.
Qed.

(** What the digit loop produces: digits, read back as the number, no more of
    them than its magnitude needs. *)
Lemma dec_fuel_spec fuel n :
  0 <= n < 2 ^ Z.of_nat fuel ->
  digits_val 0 (dec_fuel fuel n []) = Some n /\
  Forall (fun c => 48 <= c <= 57) (dec_fuel fuel n []) /\
  (forall k, (1 <= k)%nat -> n < 10 ^ Z.of_nat k -> (length (dec_fuel fuel n []) <= k)%nat) /\
  (fuel <> O -> dec_fuel fuel n [] <> []).
Proof.
  revert n. induction fuel as [| fuel IH]; intros n Hn.
  { simpl in Hn. assert (n = 0) as -> by lia. simpl. split_and!; [done | done | lia | done]. }
  cbn [dec_fuel]. cbv zeta. rewrite Nat2Z.inj_succ, Z.pow_succ_r in Hn by lia.
  assert (Hd : 48 <= 48 + n `mod` 10 <= 57) by (Z.div_mod_to_equations; lia).
  destruct (Z.eqb_spec (n / 10) 0) as [H0 | H0].
  - split_and!; [| by apply Forall_singleton | intros k Hk _; simpl; lia | done].
    cbn [digits_val]. unfold is_digit. bool_eval. f_equal. Z.div_mod_to_equations; lia.
  - destruct (IH (n / 10)) as (Hv & Hf & Hl & Hne); [Z.div_mod_to_equations; lia |].
    rewrite dec_fuel_acc. split_and!.
    + rewrite digits_val_app, Hv. simpl. unfold is_digit. bool_eval. f_equal.
      Z.div_mod_to_equations; lia.
    + apply Forall_app_2; [done | by apply Forall_singleton].
    + intros k Hk Hn10. rewrite length_app. simpl.
      destruct k as [| [| k]]; [lia | Z.div_mod_to_equations; simpl in *; lia |].
      specialize (Hl (S k) ltac:(lia)).
      assert (n / 10 < 10 ^ Z.of_nat (S k)); [| lia].
      rewrite (Nat2Z.inj_succ (S k)), Z.pow_succ_r in Hn10 by lia. apply Z.div_lt_upper_bound; lia.
    + intros _ Happ. by apply app_eq_nil in Happ as [_ ?].
Qed.

Lemma log2_fuel n : 0 <= n -> 0 <= n < 2 ^ Z.of_nat (S (Z.to_nat (Z.log2 n))).
Proof.
  intros Hn. split; [done |]. rewrite Nat2Z.inj_succ, Z2Nat.id by apply Z.log2_nonneg.
  destruct (Z.eq_dec n 0) as [-> |]; [done |]. apply Z.log2_spec. lia.
Qed.

Lemma fmt_u_val n : 0 <= n -> digits_val 0 (fmt_u n) = Some n.
Proof. intros Hn. by destruct (dec_fuel_spec _ _ (log2_fuel n Hn)). Qed.

Lemma fmt_u_digits n : 0 <= n -> Forall (fun c => 48 <= c <= 57) (fmt_u n).
Proof. intros Hn. by destruct (dec_fuel_spec _ _ (log2_fuel n Hn)) as (_ & ? & _). Qed.

Lemma fmt_u_length n k :
  0 <= n < 10 ^ Z.of_nat k -> (1 <= k)%nat -> (length (fmt_u n) <= k)%nat.
Proof.
  intros [Hn Hk] H1. destruct (dec_fuel_spec _ _ (log2_fuel n Hn)) as (_ & _ & Hl & _). by apply Hl.
Qed.

Lemma fmt_u_nonempty n : 0 <= n -> fmt_u n <> [].
Proof. intros Hn. destruct (dec_fuel_spec _ _ (log2_fuel n Hn)) as (_ & _ & _ & H). by apply H. Qed.

Lemma digits_ascii s : Forall (fun c => 48 <= c <= 57) s -> Forall is_ascii s.
Proof. apply Forall_impl. unfold is_ascii. lia. Qed.

(** Every printed integer parses back ([n.to_string().parse() == Ok(n)]). *)
Lemma parse_u_fmt_u w n : in_u w n -> parse_u w (fmt_u n) = Some n.
Proof.
  intros Hn. unfold parse_u. pose proof (fmt_u_digits n ltac:(unfold in_u in *; lia)) as Hd.
  pose proof (fmt_u_nonempty n ltac:(unfold in_u in *; lia)) as Hne.
  pose proof (fmt_u_val n ltac:(unfold in_u in *; lia)) as Hv.
  destruct (fmt_u n) as [| c r]; [done |]. apply Forall_cons_1 in Hd as [Hc _].
  replace (c =? 43) with false by lia. rewrite Hv. simpl.
  by rewrite (proj2 (in_ub_spec w n)).
Qed.

Lemma parse_i_fmt_i w z : in_i w z -> parse_i w (fmt_i z) = Some z.
Proof.
  intros Hz. unfold parse_i, fmt_i. destruct (Z.ltb_spec z 0).
  - pose proof (fmt_u_val (- z) ltac:(lia)) as Hv. pose proof (fmt_u_nonempty (- z) ltac:(lia)).
    cbn -[fmt_u]. destruct (fmt_u (- z)) as [| c r]; [done |]. rewrite Hv. simpl.
    rewrite Z.opp_involutive. by rewrite (proj2 (in_ib_spec w z)).
  - pose proof (fmt_u_digits z ltac:(lia)) as Hd. pose proof (fmt_u_nonempty z ltac:(lia)).
    pose proof (fmt_u_val z ltac:(lia)) as Hv.
    destruct (fmt_u z) as [| c r]; [done |]. apply Forall_cons_1 in Hd as [Hc _].
    replace (c =? 45) with false by lia. replace (c =? 43) with false by lia. rewrite Hv. simpl.
    by rewrite (proj2 (in_ib_spec w z)).
Qed.

Lemma length_pad0 w s : length (pad0 w s) = Nat.max w (length s).
Proof. unfold pad0. rewrite length_app, length_replicate. lia. Qed.
