(* ===== verification/HyperCopy.v ===== *)
(** * The HyperBinary COPY format ([hyperdb-api-core/src/protocol/copy.rs])

    Writers append to a [BytesMut], here the list of its bytes; readers take the
    slice that starts at the value. A float is its IEEE bit pattern ([to_bits]),
    so [put_f32_le] is [put_u32_le] of it. The second half gives the format an
    abstract reading, a column-typed decoder built only from the module's own
    readers, and shows that what the builder writes is decoded back. *)

From stdpp Require Import strings.
From S2P Require Import Prelude.

(** ** Constants *)

Definition HYPER_BINARY_SIGNATURE : list Z := [0x48; 0x50; 0x52; 0x43; 0x50; 0x59].

Definition HYPER_BINARY_HEADER : list Z :=
  [0x48; 0x50; 0x52; 0x43; 0x50; 0x59;
   0; 0; 0; 0; 0; 0; 0; 0; 0; 0; 0; 0; 0].

Definition HYPER_BINARY_HEADER_SIZE : nat := 19.

Definition HYPER_BINARY_FORMAT : Z := 2.

Inductive CopyReadError : Type :=
| BufferTooShort (type_name : string) (expected actual : nat)
| LengthExceedsBuffer (declared : Z) (available : nat).

#[export] Instance CopyReadError_eq_dec : EqDecision CopyReadError.
Proof. solve_decision. Defined.

(** [copy_len]: panics when the length does not fit a [u32]. *)
Definition copy_len (n : nat) : outcome Z :=
  if in_ub 32 (Z.of_nat n) then Val (Z.of_nat n) else Panic.

(** ** Writers *)

Definition write_header (buf : list Z) : list Z := buf ++ HYPER_BINARY_HEADER.

Definition write_tuple_start (buf : list Z) (_field_count : Z) : list Z := buf.

Definition write_trailer (buf : list Z) : list Z := buf.

Definition write_null (buf : list Z) : list Z := buf ++ [1].

Definition write_i8 (buf : list Z) (value : Z) : list Z := buf ++ [0] ++ to_le 1 value.
Definition write_i8_not_null (buf : list Z) (value : Z) : list Z := buf ++ to_le 1 value.
Definition write_i16 (buf : list Z) (value : Z) : list Z := buf ++ [0] ++ to_le 2 value.
Definition write_i16_not_null (buf : list Z) (value : Z) : list Z := buf ++ to_le 2 value.
Definition write_i32 (buf : list Z) (value : Z) : list Z := buf ++ [0] ++ to_le 4 value.
Definition write_i32_not_null (buf : list Z) (value : Z) : list Z := buf ++ to_le 4 value.
Definition write_i64 (buf : list Z) (value : Z) : list Z := buf ++ [0] ++ to_le 8 value.
Definition write_i64_not_null (buf : list Z) (value : Z) : list Z := buf ++ to_le 8 value.

(** The 16-byte array is passed as the list of its bytes. *)
Definition write_data128 (buf value : list Z) : list Z := buf ++ [0] ++ value.
Definition write_data128_not_null (buf value : list Z) : list Z := buf ++ value.

Definition write_varbinary (buf data : list Z) : outcome (list Z) :=
  let! len := copy_len (length data) in
  Val (buf ++ [0] ++ to_le 4 len ++ data).

Definition write_varbinary_not_null (buf data : list Z) : outcome (list Z) :=
  let! len := copy_len (length data) in
  Val (buf ++ to_le 4 len ++ data).

Definition write_f32 (buf : list Z) (bits : Z) : list Z := buf ++ [0] ++ to_le 4 bits.
Definition write_f32_not_null (buf : list Z) (bits : Z) : list Z := buf ++ to_le 4 bits.
Definition write_f64 (buf : list Z) (bits : Z) : list Z := buf ++ [0] ++ to_le 8 bits.
Definition write_f64_not_null (buf : list Z) (bits : Z) : list Z := buf ++ to_le 8 bits.

(** ** Readers *)

(** [buf[0]] panics on an empty slice; the byte is reinterpreted as signed. *)
Definition read_i8 (buf : list Z) : outcome Z :=
  let! b := index 0 buf in Val (wrap_i 8 b).

Definition read_i16 (buf : list Z) : rresult Z CopyReadError :=
  if (length buf <? 2)%nat then Val (Err (BufferTooShort "i16" 2 (length buf)))
  else let! bs := array_at 0 2 buf in Val (Ok (i_of_le bs)).

Definition read_i32 (buf : list Z) : rresult Z CopyReadError :=
  if (length buf <? 4)%nat then Val (Err (BufferTooShort "i32" 4 (length buf)))
  else let! bs := array_at 0 4 buf in Val (Ok (i_of_le bs)).

Definition read_i64 (buf : list Z) : rresult Z CopyReadError :=
  if (length buf <? 8)%nat then Val (Err (BufferTooShort "i64" 8 (length buf)))
  else let! bs := array_at 0 8 buf in Val (Ok (i_of_le bs)).

Definition read_data128 (buf : list Z) : rresult (list Z) CopyReadError :=
  if (length buf <? 16)%nat then Val (Err (BufferTooShort "data128" 16 (length buf)))
  else let! bs := slice_range 0 16 buf in Val (Ok bs).

(** [usize_max] is [usize::MAX] of the platform. *)
Definition read_varbinary (usize_max : Z) (buf : list Z) : rresult (list Z) CopyReadError :=
  if (length buf <? 4)%nat then
    Val (Err (BufferTooShort "varbinary length field" 4 (length buf)))
  else
    let! bs := array_at 0 4 buf in
    let len_u32 := u_of_le bs in
    if usize_max <? len_u32 then
      Val (Err (LengthExceedsBuffer (len_u32 `mod` (usize_max + 1)) (length buf - 4)))
    else
      let available := (length buf - 4)%nat in
      if Z.of_nat available <? len_u32 then Val (Err (LengthExceedsBuffer len_u32 available))
      else if usize_max <? 4 + len_u32 then Val (Err (LengthExceedsBuffer len_u32 available))
      else let! data := slice_range 4 (Z.to_nat (4 + len_u32)) buf in Val (Ok data).

(** ** The builder *)

Module CopyDataBuilder.

Record t : Type := mk {
  buffer : list Z;
  header_written : bool;
}.

Definition new : t := mk [] false.

Definition ensure_header (b : t) : t :=
  if header_written b then b else mk (HyperCopy.write_header (buffer b)) true.

Definition write_null (b : t) : t :=
  let b := ensure_header b in mk (HyperCopy.write_null (buffer b)) (header_written b).

Definition write_bool (b : t) (value nullable : bool) : t :=
  let b := ensure_header b in
  let int_value := if value then 1 else 0 in
  mk ((if nullable then write_i8 else write_i8_not_null) (buffer b) int_value)
    (header_written b).

Definition write_i16 (b : t) (value : Z) (nullable : bool) : t :=
  let b := ensure_header b in
  mk ((if nullable then HyperCopy.write_i16 else write_i16_not_null) (buffer b) value)
    (header_written b).

Definition write_i32 (b : t) (value : Z) (nullable : bool) : t :=
  let b := ensure_header b in
  mk ((if nullable then HyperCopy.write_i32 else write_i32_not_null) (buffer b) value)
    (header_written b).

Definition write_i64 (b : t) (value : Z) (nullable : bool) : t :=
  let b := ensure_header b in
  mk ((if nullable then HyperCopy.write_i64 else write_i64_not_null) (buffer b) value)
    (header_written b).

Definition write_data128 (b : t) (value : list Z) (nullable : bool) : t :=
  let b := ensure_header b in
  mk ((if nullable then HyperCopy.write_data128 else write_data128_not_null) (buffer b) value)
    (header_written b).

Definition write_varbinary (b : t) (value : list Z) (nullable : bool) : outcome t :=
  let b := ensure_header b in
  let! buf := (if nullable then HyperCopy.write_varbinary else write_varbinary_not_null)
                (buffer b) value in
  Val (mk buf (header_written b)).

(** The [&str] is given by its UTF-8 bytes. *)
Definition write_str (b : t) (value : list Z) (nullable : bool) : outcome t :=
  write_varbinary b value nullable.

Definition len (b : t) : nat := length (buffer b).

Definition is_empty (b : t) : bool := (length (buffer b) =? 0)%nat.

(** The contents and the reset builder. *)
Definition take (b : t) : list Z * t := (buffer b, mk [] false).

Definition as_bytes (b : t) : list Z := buffer b.

Definition clear (b : t) : t := mk [] false.

End CopyDataBuilder.

(** ** The format read back

    A column has a type and a nullability; a row is written by one builder call
    per column. [encode] is the byte layout a value should have and [decode] reads
    one value with the module's readers. *)

Inductive ty : Type := TBool | TI16 | TI32 | TI64 | TData128 | TVarbinary.

Record column : Type := mk_column { cty : ty; nullable : bool }.

Inductive value : Type :=
| VNull
| VBool (b : bool)
| VI16 (z : Z)
| VI32 (z : Z)
| VI64 (z : Z)
| VData128 (bs : list Z)
| VVarbinary (bs : list Z).

#[export] Instance ty_eq_dec : EqDecision ty.
Proof. solve_decision. Defined.
#[export] Instance value_eq_dec : EqDecision value.
Proof. solve_decision. Defined.

Section format.
Context (usize_max : Z).

(** The values a column can hold. *)
Definition fits (c : column) (v : value) : Prop :=
  match v, cty c with
  | VNull, _ => nullable c = true
  | VBool _, TBool => True
  | VI16 z, TI16 => in_i 16 z
  | VI32 z, TI32 => in_i 32 z
  | VI64 z, TI64 => in_i 64 z
  | VData128 bs, TData128 => length bs = 16%nat
  | VVarbinary bs, TVarbinary => in_u 32 (Z.of_nat (length bs)) /\ 4 + Z.of_nat (length bs) <= usize_max
  | _, _ => False
  end.

(** The builder call for a value. *)
Definition put (b : CopyDataBuilder.t) (c : column) (v : value) : outcome CopyDataBuilder.t :=
  match v with
  | VNull => Val (CopyDataBuilder.write_null b)
  | VBool x => Val (CopyDataBuilder.write_bool b x (nullable c))
  | VI16 z => Val (CopyDataBuilder.write_i16 b z (nullable c))
  | VI32 z => Val (CopyDataBuilder.write_i32 b z (nullable c))
  | VI64 z => Val (CopyDataBuilder.write_i64 b z (nullable c))
  | VData128 bs => Val (CopyDataBuilder.write_data128 b bs (nullable c))
  | VVarbinary bs => CopyDataBuilder.write_varbinary b bs (nullable c)
  end.

Fixpoint put_row (b : CopyDataBuilder.t) (row : list (column * value)) :
    outcome CopyDataBuilder.t :=
  match row with
  | [] => Val b
  | (c, v) :: row => let! b := put b c v in put_row b row
  end.

Definition encode_body (v : value) : list Z :=
  match v with
  | VNull => []
  | VBool b => to_le 1 (if b then 1 else 0)
  | VI16 z => to_le 2 z
  | VI32 z => to_le 4 z
  | VI64 z => to_le 8 z
  | VData128 bs => bs
  | VVarbinary bs => to_le 4 (Z.of_nat (length bs)) ++ bs
  end.

Definition encode (c : column) (v : value) : list Z :=
  match v with
  | VNull => [1]
  | _ => (if nullable c then [0] else []) ++ encode_body v
  end.

Definition encode_row (row : list (column * value)) : list Z :=
  row ≫= fun '(c, v) => encode c v.

Definition decode_body (t : ty) (buf : list Z) : option (value * list Z) :=
  match t with
  | TBool => match read_i8 buf with
             | Val b => Some (VBool (negb (b =? 0)), drop 1 buf)
             | _ => None end
  | TI16 => match read_i16 buf with
            | Val (Ok z) => Some (VI16 z, drop 2 buf)
            | _ => None end
  | TI32 => match read_i32 buf with
            | Val (Ok z) => Some (VI32 z, drop 4 buf)
            | _ => None end
  | TI64 => match read_i64 buf with
            | Val (Ok z) => Some (VI64 z, drop 8 buf)
            | _ => None end
  | TData128 => match read_data128 buf with
                | Val (Ok bs) => Some (VData128 bs, drop 16 buf)
                | _ => None end
  | TVarbinary => match read_varbinary usize_max buf with
                  | Val (Ok bs) => Some (VVarbinary bs, drop (4 + length bs) buf)
                  | _ => None end
  end.

Definition decode (c : column) (buf : list Z) : option (value * list Z) :=
  if nullable c then
    match buf with
    | b :: rest => if b =? 1 then Some (VNull, rest)
                   else if b =? 0 then decode_body (cty c) rest else None
    | [] => None
    end
  else decode_body (cty c) buf.

Fixpoint decode_row (cols : list column) (buf : list Z) : option (list value * list Z) :=
  match cols with
  | [] => Some ([], buf)
  | c :: cols =>
      '(v, buf) ← decode c buf;
      '(vs, buf) ← decode_row cols buf;
      Some (v :: vs, buf)
  end.

(** *** Lemmas *)

Lemma read_int_app n z rest :
  array_at 0 n (to_le n z ++ rest) = Val (to_le n z).
Proof.
  rewrite array_at_val by (autorewrite with rust; lia). rewrite drop_0. f_equal.
  apply take_app_exact, length_to_le.
Qed.

Lemma short_app n (l rest : list Z) : length l = n -> (length (l ++ rest) <? n)%nat = false.
Proof. intros <-. rewrite length_app. apply Nat.ltb_ge. lia. Qed.

Lemma read_varbinary_app bs rest :
  in_u 32 (Z.of_nat (length bs)) -> 4 + Z.of_nat (length bs) <= usize_max ->
  read_varbinary usize_max (to_le 4 (Z.of_nat (length bs)) ++ bs ++ rest) = Val (Ok bs).
Proof.
  intros Hu Hm. unfold read_varbinary. rewrite short_app by apply length_to_le.
  rewrite read_int_app. cbn [outcome_bind]. cbv zeta.
  rewrite u_of_le_to_le, wrap_u_id by done. autorewrite with rust.
  set (n := length bs) in *.
  conds.
  rewrite slice_range_val by (autorewrite with rust; lia).
  unfold slice. rewrite (drop_app_exact (to_le 4 _)) by apply length_to_le.
  cbn [outcome_bind]. do 2 f_equal. apply take_app_exact. lia.
Qed.

Lemma decode_body_encode t v rest :
  fits (mk_column t false) v -> decode_body t (encode_body v ++ rest) = Some (v, rest).
Proof.
  unfold fits. destruct v, t; cbn [cty nullable]; try done; intros Hv; cbn [decode_body encode_body].
  - by destruct b.
  - unfold read_i16. rewrite short_app, read_int_app by apply length_to_le. cbn [outcome_bind].
    rewrite i_of_le_to_le by (done || lia). by rewrite drop_app_exact by apply length_to_le.
  - unfold read_i32. rewrite short_app, read_int_app by apply length_to_le. cbn [outcome_bind].
    rewrite i_of_le_to_le by (done || lia). by rewrite drop_app_exact by apply length_to_le.
  - unfold read_i64. rewrite short_app, read_int_app by apply length_to_le. cbn [outcome_bind].
    rewrite i_of_le_to_le by (done || lia). by rewrite drop_app_exact by apply length_to_le.
  - unfold read_data128. rewrite short_app by done.
    rewrite slice_range_val by (rewrite length_app; lia). cbn [outcome_bind].
    rewrite slice_app by lia. unfold slice. rewrite drop_0, take_ge by lia.
    by rewrite drop_app_exact by done.
  - destruct Hv. rewrite <- app_assoc. rewrite read_varbinary_app by done.
    rewrite app_assoc. rewrite drop_app_exact; [done |]. by autorewrite with rust.
Qed.

Lemma decode_encode c v rest : fits c v -> decode c (encode c v ++ rest) = Some (v, rest).
Proof.
  intros Hv. destruct c as [t n]. unfold decode, encode. cbn [cty nullable].
  assert (Hb : v <> VNull -> fits (mk_column t false) v) by (by destruct v, t).
  destruct v; unfold fits in Hv; cbn [cty nullable] in *;
    [by rewrite Hv | destruct n; cbn [app]; apply decode_body_encode, Hb; done ..].
Qed.

Lemma decode_row_encode row rest :
  Forall (fun '(c, v) => fits c v) row ->
  decode_row row.*1 (encode_row row ++ rest) = Some (row.*2, rest).
Proof.
  induction 1 as [| [c v] row Hv _ IH]; [done |].
  unfold encode_row in *. csimpl. rewrite <- app_assoc, decode_encode by done. csimpl.
  by rewrite IH.
Qed.

(** A builder that holds [data]: with its header once, before any value. *)
Definition holds (b : CopyDataBuilder.t) (data : list Z) : Prop :=
  if CopyDataBuilder.header_written b
  then CopyDataBuilder.buffer b = HYPER_BINARY_HEADER ++ data
  else CopyDataBuilder.buffer b = [] /\ data = [].

Lemma ensure_header_holds b data :
  holds b data ->
  CopyDataBuilder.ensure_header b = CopyDataBuilder.mk (HYPER_BINARY_HEADER ++ data) true.
Proof.
  unfold holds, CopyDataBuilder.ensure_header. destruct b as [buf [|]]; simpl.
  - by intros ->.
  - by intros [-> ->].
Qed.

Lemma put_holds b c v data :
  holds b data -> fits c v ->
  put b c v = Val (CopyDataBuilder.mk (HYPER_BINARY_HEADER ++ data ++ encode c v) true).
Proof.
  intros Hb Hv. unfold put, encode.
  destruct v;
    unfold CopyDataBuilder.write_null, CopyDataBuilder.write_bool, CopyDataBuilder.write_i16,
      CopyDataBuilder.write_i32, CopyDataBuilder.write_i64, CopyDataBuilder.write_data128,
      CopyDataBuilder.write_varbinary;
    rewrite (ensure_header_holds b data Hb); cbv zeta;
    cbn [CopyDataBuilder.buffer CopyDataBuilder.header_written].
  7: {
    unfold fits in Hv. destruct (cty c); try done. destruct Hv as [Hu _].
    apply in_ub_spec in Hu.
    destruct (nullable c); unfold write_varbinary, write_varbinary_not_null, copy_len;
      rewrite Hu; cbn [outcome_bind encode_body app]; by rewrite <- app_assoc. }
  all: try destruct (nullable c);
    unfold write_null, write_i8, write_i8_not_null, write_i16, write_i16_not_null, write_i32,
      write_i32_not_null, write_i64, write_i64_not_null, write_data128, write_data128_not_null;
    cbn [encode_body app]; by rewrite <- app_assoc.
Qed.

Lemma put_row_holds b row data :
  holds b data -> Forall (fun '(c, v) => fits c v) row -> row <> [] ->
  put_row b row = Val (CopyDataBuilder.mk (HYPER_BINARY_HEADER ++ data ++ encode_row row) true).
Proof.
  intros Hb Hrow. revert b data Hb. induction Hrow as [| [c v] row Hv _ IH]; [done |].
  intros b data Hb _. cbn [put_row]. rewrite (put_holds b c v data) by done. cbn [outcome_bind].
  destruct row as [| cv row]; [unfold encode_row; csimpl; by rewrite app_nil_r |].
  rewrite IH with (data := data ++ encode c v); [| done | done].
  unfold encode_row. csimpl. by rewrite <- !app_assoc.
Qed.

End format.

(** ** Properties *)

(** C31. A row written with the builder, one call per column, is read back by the
    module's readers: the buffer is the 19-byte header, once, followed by bytes
    that decode, under the row's column types and nullability, to exactly the
    values written, with nothing left over; the builder is then reset. *)
Theorem copy_roundtrip usize_max row :
  Forall (fun '(c, v) => fits usize_max c v) row -> row <> [] ->
  exists b data,
    put_row CopyDataBuilder.new row = Val b /\
    CopyDataBuilder.take b = (HYPER_BINARY_HEADER ++ data, CopyDataBuilder.new) /\
    decode_row usize_max row.*1 data = Some (row.*2, []).
Proof.
  intros Hrow Hne. exists (CopyDataBuilder.mk (HYPER_BINARY_HEADER ++ encode_row row) true), (encode_row row).
  split_and!.
  - rewrite (put_row_holds usize_max CopyDataBuilder.new row []); done.
  - done.
  - rewrite <- (app_nil_r (encode_row row)). by apply decode_row_encode.
Qed.

Lemma copy_roundtrip_witness :
  exists b data,
    put_row CopyDataBuilder.new
      [(mk_column TI32 false, VI32 (-2)); (mk_column TVarbinary true, VVarbinary [104; 105]);
       (mk_column TBool true, VNull)] = Val b /\
    CopyDataBuilder.take b = (HYPER_BINARY_HEADER ++ data, CopyDataBuilder.new) /\
    decode_row (2 ^ 64 - 1)
      [mk_column TI32 false; mk_column TVarbinary true; mk_column TBool true] data
      = Some ([VI32 (-2); VVarbinary [104; 105]; VNull], []).
Proof.
  apply (copy_roundtrip (2 ^ 64 - 1)
    [(mk_column TI32 false, VI32 (-2)); (mk_column TVarbinary true, VVarbinary [104; 105]);
     (mk_column TBool true, VNull)]).
  - repeat constructor; vm_compute; done.
  - done.
Defined.

(** The length-prefixed reader is exact on every platform and every buffer:
    it never panics, and it returns [data] iff the buffer starts with the 4-byte
    little-endian length of [data] followed by [data]. A declared length that
    exceeds the buffer, whatever a peer claims, is an error. *)
Theorem read_varbinary_exact usize_max buf data :
  Forall is_byte buf -> Z.of_nat (length buf) <= usize_max ->
  panics (read_varbinary usize_max buf) = false /\
  (read_varbinary usize_max buf = Val (Ok data) <->
   exists rest, buf = to_le 4 (Z.of_nat (length data)) ++ data ++ rest /\
                in_u 32 (Z.of_nat (length data))).
Proof.
  intros Hb Hm.
  assert (Hr : (4 <= length buf)%nat -> in_u 32 (u_of_le (take 4 buf))).
  { intros H. pose proof (u_of_le_range (take 4 buf) ltac:(by apply Forall_take)) as Hr.
    by rewrite length_take, Nat.min_l in Hr by lia. }
  split.
  - unfold read_varbinary. cond; [done |]. rewrite array_at_val by lia. cbn [outcome_bind].
    rewrite drop_0. specialize (Hr H). unfold in_u in Hr.
    conds; try done. rewrite slice_range_val by lia. done.
  - split.
    + unfold read_varbinary. cond; [done |]. rewrite array_at_val by lia. cbn [outcome_bind].
      rewrite drop_0. specialize (Hr H). pose proof Hr as [Hr0 _].
      conds; try done. rewrite slice_range_val by lia. cbn [outcome_bind].
      intros [= <-]. exists (drop (4 + Z.to_nat (u_of_le (take 4 buf))) buf).
      assert (Hl : length (slice 4 (Z.to_nat (4 + u_of_le (take 4 buf))) buf)
                   = Z.to_nat (u_of_le (take 4 buf))).
      { rewrite length_slice by lia. lia. }
      rewrite Hl, Z2Nat.id by apply Hr. split; [| exact Hr].
      assert (Hle : to_le 4 (u_of_le (take 4 buf)) = take 4 buf).
      { rewrite <- (to_le_u_of_le (take 4 buf)) at 2 by (by apply Forall_take).
        by rewrite length_take, Nat.min_l by lia. }
      rewrite Hle. unfold slice.
      replace (Z.to_nat (4 + u_of_le (take 4 buf)) - 4)%nat
        with (Z.to_nat (u_of_le (take 4 buf))) by lia.
      rewrite <- drop_drop, take_drop, take_drop. done.
    + intros (rest & -> & Hu). rewrite !length_app, length_to_le in Hm.
      apply read_varbinary_app; [done | lia].
Qed.

(** No fixed-width reader panics on any buffer: a short buffer is the
    [BufferTooShort] error with the expected and actual sizes, anything else a
    value of the type's range; only [read_i8] indexes without a check. *)
Theorem fixed_readers_total buf :
  (read_i16 buf = Val (Err (BufferTooShort "i16" 2 (length buf))) /\ (length buf < 2)%nat \/
   exists z, read_i16 buf = Val (Ok z) /\ in_i 16 z /\ (2 <= length buf)%nat) /\
  (read_i32 buf = Val (Err (BufferTooShort "i32" 4 (length buf))) /\ (length buf < 4)%nat \/
   exists z, read_i32 buf = Val (Ok z) /\ in_i 32 z /\ (4 <= length buf)%nat) /\
  (read_i64 buf = Val (Err (BufferTooShort "i64" 8 (length buf))) /\ (length buf < 8)%nat \/
   exists z, read_i64 buf = Val (Ok z) /\ in_i 64 z /\ (8 <= length buf)%nat) /\
  (read_data128 buf = Val (Err (BufferTooShort "data128" 16 (length buf))) /\ (length buf < 16)%nat \/
   exists bs, read_data128 buf = Val (Ok bs) /\ length bs = 16%nat /\ (16 <= length buf)%nat) /\
  (panics (read_i8 buf) = true <-> buf = []).
Proof.
  assert (Hi : forall n, (0 < n <= length buf)%nat ->
            array_at 0 n buf = Val (take n buf) /\ in_i (8 * Z.of_nat n) (i_of_le (take n buf))).
  { intros n Hn. rewrite array_at_val by lia. rewrite drop_0. split; [done |].
    replace n with (length (take n buf)) at 1 by (rewrite length_take; lia).
    apply i_of_le_range. destruct buf, n; simpl in *; (lia || done). }
  split_and!; unfold read_i16, read_i32, read_i64, read_data128.
  1-3: cond; [by left | right]; (destruct (Hi _ (conj (Nat.lt_0_succ _) H)) as [-> Hr]);
       eexists; split_and!; [done | exact Hr | done].
  - cond; [by left | right]. rewrite slice_range_val by lia.
    eexists; split_and!; [done | rewrite length_slice; lia | done].
  - unfold read_i8, index. destruct buf; [done |]. simpl. split; done.
Qed.

(** [write_varbinary] panics exactly when the value is longer than the
    [u32] length prefix can say, and otherwise appends to the buffer without
    touching what is there. *)
Theorem write_varbinary_panics_iff buf data :
  (panics (write_varbinary buf data) = true <-> 2 ^ 32 <= Z.of_nat (length data)) /\
  (panics (write_varbinary_not_null buf data) = true <-> 2 ^ 32 <= Z.of_nat (length data)) /\
  (Z.of_nat (length data) < 2 ^ 32 ->
   write_varbinary buf data = Val (buf ++ 0 :: to_le 4 (Z.of_nat (length data)) ++ data)).
Proof.
  assert (H : copy_len (length data) =
              if Z.of_nat (length data) <? 2 ^ 32 then Val (Z.of_nat (length data)) else Panic).
  { unfold copy_len, in_ub. by destruct (Z.leb_spec 0 (Z.of_nat (length data))); [| lia]. }
  unfold write_varbinary, write_varbinary_not_null. rewrite H.
  cond; cbn [outcome_bind panics]; split_and!; try split; intros; try done; lia.
Qed.

(** [is_empty] looks at the buffer alone, so it is already [false] once the
    header is in it, before any value: the method's documentation says it stays
    [true]. *)
Lemma is_empty_after_header b :
  CopyDataBuilder.is_empty (CopyDataBuilder.ensure_header CopyDataBuilder.new) = false /\
  (CopyDataBuilder.is_empty b = true <-> CopyDataBuilder.len b = 0%nat).
Proof. split; [done |]. apply Nat.eqb_eq. Qed.
