(* ===== verification/Backend.v ===== *)
(** * Backend messages ([hyperdb-api-core/src/protocol/message/backend.rs])

    [Message::parse] takes one length-framed message off a receive buffer; the
    body types keep the raw bytes and iterate over them lazily.  [Buffer] is the
    cursor the parser reads through, a [Read] whose readers thread it and may
    fail.  The theorems say that the parser accepts exactly the encodings of the
    protocol's messages, consumes exactly one frame, never panics whatever the
    peer sends, and that the three ways of reaching a column of a [DataRow]
    agree. *)

From stdpp Require Import strings pretty.
From S2P Require Import Prelude Text.

(** ** [std::io::Error] *)

Inductive ErrorKind : Type := InvalidData | InvalidInput | UnexpectedEof.

Inductive io_payload : Type :=
| Msg (s : string)
| Utf8Error.

Record io_error : Type := IoError { kind : ErrorKind; payload : io_payload }.

(** What [read_exact] reports at the end of the input. *)
Definition eof_error : io_error := IoError UnexpectedEof (Msg "failed to fill whole buffer").

(** [str::from_utf8(bytes).map_err(|e| io::Error::new(InvalidInput, e))]. *)
Definition str_of (bytes : list Z) : result (list Z) io_error :=
  match from_utf8 bytes with
  | Some s => Ok s
  | None => Err (IoError InvalidInput Utf8Error)
  end.

(** ** Message tags *)

Definition PARSE_COMPLETE_TAG : Z := 0x31.
Definition BIND_COMPLETE_TAG : Z := 0x32.
Definition CLOSE_COMPLETE_TAG : Z := 0x33.
Definition NOTIFICATION_RESPONSE_TAG : Z := 0x41.
Definition COPY_DONE_TAG : Z := 0x63.
Definition COMMAND_COMPLETE_TAG : Z := 0x43.
Definition COPY_DATA_TAG : Z := 0x64.
Definition DATA_ROW_TAG : Z := 0x44.
Definition ERROR_RESPONSE_TAG : Z := 0x45.
Definition COPY_IN_RESPONSE_TAG : Z := 0x47.
Definition COPY_OUT_RESPONSE_TAG : Z := 0x48.
Definition EMPTY_QUERY_RESPONSE_TAG : Z := 0x49.
Definition BACKEND_KEY_DATA_TAG : Z := 0x4B.
Definition NO_DATA_TAG : Z := 0x6E.
Definition NOTICE_RESPONSE_TAG : Z := 0x4E.
Definition AUTHENTICATION_TAG : Z := 0x52.
Definition PORTAL_SUSPENDED_TAG : Z := 0x73.
Definition PARAMETER_STATUS_TAG : Z := 0x53.
Definition PARAMETER_DESCRIPTION_TAG : Z := 0x74.
Definition ROW_DESCRIPTION_TAG : Z := 0x54.
Definition READY_FOR_QUERY_TAG : Z := 0x5A.

(** ** [Header] *)

Module Header.

Record t : Type := mk { tag : Z; len : Z }.

Definition parse (buf : list Z) : rresult (option t) io_error :=
  if (length buf <? 5)%nat then Val (Ok None)
  else
    let! tag := index 0 buf in
    let! bs := array_at 1 4 buf in
    let len := i_of_be bs in
    if len <? 4 then
      Val (Err (IoError InvalidData (Msg "invalid message length: header length < 4")))
    else Val (Ok (Some (mk tag len))).

Definition is_empty (h : t) : bool := len h =? 0.

End Header.

(** ** The body types *)

Module DataRowBody.
Record t : Type := mk { storage : list Z; len : Z }.
End DataRowBody.

Module ParameterDescriptionBody.
Record t : Type := mk { storage : list Z; len : Z }.
End ParameterDescriptionBody.

Module RowDescriptionBody.
Record t : Type := mk { storage : list Z; len : Z }.
Definition field_count (b : t) : Z := len b.
End RowDescriptionBody.

(** [CopyInResponseBody] and [CopyOutResponseBody] have the same fields. *)
Module CopyResponseBody.
Record t : Type := mk { format : Z; len : Z; storage : list Z }.
Definition column_count (b : t) : Z := len b.
End CopyResponseBody.

Module NotificationResponseBody.
Record t : Type := mk { process_id : Z; channel : list Z; message : list Z }.
End NotificationResponseBody.

Module ParameterStatusBody.
Record t : Type := mk { name : list Z; value : list Z }.
End ParameterStatusBody.

Module BackendKeyDataBody.
Record t : Type := mk { process_id : Z; secret_key : Z }.
End BackendKeyDataBody.

(** The bodies that hold one byte string are that string. *)
Inductive Message : Type :=
| AuthenticationOk
| AuthenticationCleartextPassword
| AuthenticationMd5Password (salt : list Z)
| AuthenticationSasl (data : list Z)
| AuthenticationSaslContinue (data : list Z)
| AuthenticationSaslFinal (data : list Z)
| BackendKeyData (b : BackendKeyDataBody.t)
| BindComplete
| CloseComplete
| CommandComplete (tag : list Z)
| CopyData (storage : list Z)
| CopyDone
| CopyInResponse (b : CopyResponseBody.t)
| CopyOutResponse (b : CopyResponseBody.t)
| DataRow (b : DataRowBody.t)
| EmptyQueryResponse
| ErrorResponse (storage : list Z)
| NoData
| NoticeResponse (storage : list Z)
| NotificationResponse (b : NotificationResponseBody.t)
| ParameterDescription (b : ParameterDescriptionBody.t)
| ParameterStatus (b : ParameterStatusBody.t)
| ParseComplete
| PortalSuspended
| ReadyForQuery (status : Z)
| RowDescription (b : RowDescriptionBody.t).

(** ** The cursor *)

Module Buffer.

Record t : Type := mk { bytes : list Z; idx : nat }.

(** A reader threads the cursor; an error or a panic drops it. *)
Definition M (A : Type) : Type := t -> rresult (A * t) io_error.

Definition ret {A} (a : A) : M A := fun b => Val (Ok (a, b)).
Definition fail {A} (e : io_error) : M A := fun _ => Val (Err e).
Definition bind {A B} (m : M A) (f : A -> M B) : M B :=
  fun b => let* r := m b in f r.1 r.2.

Definition slice (b : t) : outcome (list Z) := slice_from (idx b) (bytes b).

Definition is_empty (b : t) : outcome bool :=
  let! s := slice b in Val (length s =? 0)%nat.

Definition read_cstr : M (list Z) := fun b =>
  let! s := slice b in
  match memchr 0 s with
  | Some pos =>
      let start := idx b in
      let stop := (start + pos)%nat in
      let! cstr := slice_range start stop (bytes b) in
      Val (Ok (cstr, mk (bytes b) (stop + 1)))
  | None => Val (Err (IoError UnexpectedEof (Msg "unexpected EOF")))
  end.

Definition read_all : M (list Z) := fun b =>
  let! buf := slice b in
  Val (Ok (buf, mk (bytes b) (length (bytes b)))).

(** [Read::read] into a buffer of [n] bytes: the bytes copied. *)
Definition read (n : nat) (b : t) : outcome (list Z * t) :=
  let! s := slice b in
  let len := Nat.min (length s) n in
  Val (take len s, mk (bytes b) (idx b + len)).

(** [Read::read_exact]: [read] copies all there is, so when it comes back short
    the next call returns 0. *)
Definition read_exact (n : nat) : M (list Z) := fun b =>
  let! r := read n b in
  if (length r.1 <? n)%nat then Val (Err eof_error) else Val (Ok r).

(** [byteorder]'s big-endian readers. *)
Definition read_u8 : M Z := bind (read_exact 1) (fun bs => ret (u_of_be bs)).
Definition read_u16 : M Z := bind (read_exact 2) (fun bs => ret (u_of_be bs)).
Definition read_i32 : M Z := bind (read_exact 4) (fun bs => ret (i_of_be bs)).

End Buffer.

Notation "'let&' x ':=' m 'in' k" := (Buffer.bind m (fun x => k))
  (at level 10, x name, m at level 100, k at level 200) : rust_scope.

(** ** [Message::parse] *)

Import Buffer (M, ret, fail, read_cstr, read_all, read_exact, read_u8, read_u16, read_i32).

(** The authentication requests, by their code. *)
Definition parse_authentication : M Message :=
  let& code := read_i32 in
  if code =? 0 then ret AuthenticationOk
  else if code =? 3 then ret AuthenticationCleartextPassword
  else if code =? 5 then let& salt := read_exact 4 in ret (AuthenticationMd5Password salt)
  else if code =? 10 then let& storage := read_all in ret (AuthenticationSasl storage)
  else if code =? 11 then let& storage := read_all in ret (AuthenticationSaslContinue storage)
  else if code =? 12 then let& storage := read_all in ret (AuthenticationSaslFinal storage)
  else fail (IoError InvalidInput
               (Msg ("unknown authentication tag `" +:+ (pretty code +:+ "`")))).

(** The [match tag] of the parser. *)
Definition parse_tag (tag : Z) : M Message :=
  if tag =? PARSE_COMPLETE_TAG then ret ParseComplete
  else if tag =? BIND_COMPLETE_TAG then ret BindComplete
  else if tag =? CLOSE_COMPLETE_TAG then ret CloseComplete
  else if tag =? NOTIFICATION_RESPONSE_TAG then
    let& process_id := read_i32 in
    let& channel := read_cstr in
    let& message := read_cstr in
    ret (NotificationResponse (NotificationResponseBody.mk process_id channel message))
  else if tag =? COPY_DONE_TAG then ret CopyDone
  else if tag =? COMMAND_COMPLETE_TAG then let& tag := read_cstr in ret (CommandComplete tag)
  else if tag =? COPY_DATA_TAG then let& storage := read_all in ret (CopyData storage)
  else if tag =? DATA_ROW_TAG then
    let& len := read_u16 in
    let& storage := read_all in
    ret (DataRow (DataRowBody.mk storage len))
  else if tag =? ERROR_RESPONSE_TAG then
    let& storage := read_all in ret (ErrorResponse storage)
  else if tag =? COPY_IN_RESPONSE_TAG then
    let& format := read_u8 in
    let& len := read_u16 in
    let& storage := read_all in
    ret (CopyInResponse (CopyResponseBody.mk format len storage))
  else if tag =? COPY_OUT_RESPONSE_TAG then
    let& format := read_u8 in
    let& len := read_u16 in
    let& storage := read_all in
    ret (CopyOutResponse (CopyResponseBody.mk format len storage))
  else if tag =? EMPTY_QUERY_RESPONSE_TAG then ret EmptyQueryResponse
  else if tag =? BACKEND_KEY_DATA_TAG then
    let& process_id := read_i32 in
    let& secret_key := read_i32 in
    ret (BackendKeyData (BackendKeyDataBody.mk process_id secret_key))
  else if tag =? NO_DATA_TAG then ret NoData
  else if tag =? NOTICE_RESPONSE_TAG then
    let& storage := read_all in ret (NoticeResponse storage)
  else if tag =? AUTHENTICATION_TAG then parse_authentication
  else if tag =? PORTAL_SUSPENDED_TAG then ret PortalSuspended
  else if tag =? PARAMETER_STATUS_TAG then
    let& name := read_cstr in
    let& value := read_cstr in
    ret (ParameterStatus (ParameterStatusBody.mk name value))
  else if tag =? PARAMETER_DESCRIPTION_TAG then
    let& len := read_u16 in
    let& storage := read_all in
    ret (ParameterDescription (ParameterDescriptionBody.mk storage len))
  else if tag =? ROW_DESCRIPTION_TAG then
    let& len := read_u16 in
    let& storage := read_all in
    ret (RowDescription (RowDescriptionBody.mk storage len))
  else if tag =? READY_FOR_QUERY_TAG then
    let& status := read_u8 in ret (ReadyForQuery status)
  else fail (IoError InvalidInput (Msg ("unknown message tag `" +:+ (pretty tag +:+ "`")))).

(** [Message::parse]: the result and the receive buffer afterwards. [usize_max]
    is [usize::MAX]. A frame is split off before it is interpreted, so an error in
    its body still consumes it. *)
Definition parse (usize_max : Z) (buf : list Z) :
    outcome (result (option Message) io_error * list Z) :=
  if (length buf <? 5)%nat then Val (Ok None, buf)
  else
    let! tag := index 0 buf in
    let! bs := slice_range 1 5 buf in
    let len := u_of_be bs in
    if len <? 4 then
      Val (Err (IoError InvalidInput (Msg "invalid message length: parsing u32")), buf)
    else if usize_max <? len `mod` (usize_max + 1) + 1 then
      Val (Err (IoError InvalidInput
             (Msg ("invalid message length: " +:+ (pretty len +:+ " + 1 overflows usize")))), buf)
    else
      let total_len := len `mod` (usize_max + 1) + 1 in
      if Z.of_nat (length buf) <? total_len then Val (Ok None, buf)
      else
        let total := Z.to_nat total_len in
        let frame := Buffer.mk (take total buf) 5 in
        let rest := drop total buf in
        let! r := parse_tag tag frame in
        match r with
        | Err e => Val (Err e, rest)
        | Ok (message, frame) =>
            let! empty := Buffer.is_empty frame in
            if negb empty then
              Val (Err (IoError InvalidInput
                     (Msg "invalid message length: expected buffer to be empty")), rest)
            else Val (Ok (Some message), rest)
        end.

(** ** Columns of a [DataRow] *)

(** [i32::from_be_bytes([buf[i], ..., buf[i + 3]])] and its conversion to a
    length: [None] when it is negative. *)
Definition read_len (i : nat) (buf : list Z) : outcome (option nat) :=
  let! bs := array_at i 4 buf in
  Val (if 0 <=? i_of_be bs then Some (Z.to_nat (i_of_be bs)) else None).

(** [DataRowBody::compute_all_offsets]: the loop over [count] columns from [pos]. *)
Fixpoint offsets_loop (buf : list Z) (count pos : nat) (offsets : list (option (nat * nat))) :
    outcome (list (option (nat * nat))) :=
  match count with
  | O => Val offsets
  | S count =>
      if (length buf <? pos + 4)%nat then Val offsets
      else
        let! len := read_len pos buf in
        let pos := (pos + 4)%nat in
        match len with
        | Some len =>
            let start := pos in
            let stop := (start + len)%nat in
            if (length buf <? stop)%nat then Val offsets
            else offsets_loop buf count stop (offsets ++ [Some (start, stop)])
        | None => offsets_loop buf count pos (offsets ++ [None])
        end
  end.

Definition compute_all_offsets (row : DataRowBody.t) : outcome (list (option (nat * nat))) :=
  offsets_loop (DataRowBody.storage row) (Z.to_nat (DataRowBody.len row)) 0 [].

(** The skip loop of [get_column_bytes] and [is_column_null]: the slice at the
    column, [None] when the loop returns early. *)
Fixpoint skip_columns (count : nat) (buf : list Z) : outcome (option (list Z)) :=
  match count with
  | O => Val (Some buf)
  | S count =>
      if (length buf <? 4)%nat then Val None
      else
        let! len := read_len 0 buf in
        let! buf := slice_from 4 buf in
        match len with
        | Some len =>
            if (length buf <? len)%nat then Val None
            else let! buf := slice_from len buf in skip_columns count buf
        | None => skip_columns count buf
        end
  end.

Definition get_column_bytes (row : DataRowBody.t) (idx : nat) : outcome (option (list Z)) :=
  if DataRowBody.len row <=? Z.of_nat idx then Val None
  else
    let! skipped := skip_columns idx (DataRowBody.storage row) in
    match skipped with
    | None => Val None
    | Some buf =>
        if (length buf <? 4)%nat then Val None
        else
          let! len := read_len 0 buf in
          match len with
          | None => Val None
          | Some len =>
              if (length buf <? 4 + len)%nat then Val None
              else let! data := slice_range 4 (4 + len) buf in Val (Some data)
          end
    end.

Definition is_column_null (row : DataRowBody.t) (idx : nat) : outcome bool :=
  if DataRowBody.len row <=? Z.of_nat idx then Val true
  else
    let! skipped := skip_columns idx (DataRowBody.storage row) in
    match skipped with
    | None => Val true
    | Some buf =>
        if (length buf <? 4)%nat then Val true
        else
          let! len := read_len 0 buf in
          Val (match len with Some _ => false | None => true end)
    end.

Module DataRowRanges.

Record t : Type := mk { buf : list Z; len : nat; remaining : Z }.

(** [DataRowBody::ranges]. *)
Definition ranges (row : DataRowBody.t) : t :=
  mk (DataRowBody.storage row) (length (DataRowBody.storage row)) (DataRowBody.len row).

Definition item : Type := result (option (nat * nat)) io_error.

Definition next (it : t) : outcome (option item * t) :=
  if remaining it =? 0 then
    if (length (buf it) =? 0)%nat then Val (None, it)
    else Val (Some (Err (IoError InvalidInput
                      (Msg "invalid message length: extra data in data row"))), it)
  else
    let it := mk (buf it) (len it) (remaining it - 1) in
    if (length (buf it) <? 4)%nat then
      Val (Some (Err (IoError UnexpectedEof (Msg "unexpected EOF reading column length"))), it)
    else
      let! n := read_len 0 (buf it) in
      let! rest := slice_from 4 (buf it) in
      let it := mk rest (len it) (remaining it) in
      match n with
      | None => Val (Some (Ok None), it)
      | Some n =>
          if (length (buf it) <? n)%nat then
            Val (Some (Err (IoError UnexpectedEof (Msg "unexpected EOF"))), it)
          else
            let base := (len it - length (buf it))%nat in
            let! rest := slice_from n (buf it) in
            Val (Some (Ok (Some (base, (base + n)%nat))), mk rest (len it) (remaining it))
      end.

End DataRowRanges.

(** ** Error and notice fields *)

Module ErrorFields.

(** The state is the slice still to be read. *)
Record ErrorField : Type := mk_field { type_ : Z; value : list Z }.

Definition next (buf : list Z) : outcome (option (result ErrorField io_error) * list Z) :=
  if (length buf =? 0)%nat then Val (None, buf)
  else
    let! type_ := index 0 buf in
    let! buf := slice_from 1 buf in
    if type_ =? 0 then Val (None, buf)
    else
      match memchr 0 buf with
      | Some pos =>
          let! value := slice_range 0 pos buf in
          let! buf := slice_from (pos + 1) buf in
          Val (Some (Ok (mk_field type_ value)), buf)
      | None =>
          Val (Some (Err (IoError UnexpectedEof (Msg "unexpected EOF in error field"))), buf)
      end.

(** [ErrorField::value]. *)
Definition field_value (f : ErrorField) : result (list Z) io_error := str_of (value f).

End ErrorFields.

Module SaslMechanisms.

(** A name that is not UTF-8 ends the iteration without moving on. *)
Definition next (buf : list Z) : outcome (option (list Z) * list Z) :=
  if (length buf =? 0)%nat then Val (None, buf)
  else
    let! b := index 0 buf in
    if b =? 0 then Val (None, buf)
    else
      match memchr 0 buf with
      | Some pos =>
          let! bytes := slice_range 0 pos buf in
          match from_utf8 bytes with
          | None => Val (None, buf)
          | Some mechanism =>
              let! buf := slice_from (pos + 1) buf in
              Val (Some mechanism, buf)
          end
      | None => Val (None, buf)
      end.

End SaslMechanisms.

(** ** Parameter and row descriptions *)

Module Parameters.

Record t : Type := mk { buf : list Z; remaining : Z }.

Definition parameters (b : ParameterDescriptionBody.t) : t :=
  mk (ParameterDescriptionBody.storage b) (ParameterDescriptionBody.len b).

Definition next (it : t) : outcome (option (result Z io_error) * t) :=
  if remaining it =? 0 then Val (None, it)
  else
    let it := mk (buf it) (remaining it - 1) in
    if (length (buf it) <? 4)%nat then
      Val (Some (Err (IoError UnexpectedEof (Msg "unexpected EOF"))), it)
    else
      let! bs := array_at 0 4 (buf it) in
      let! rest := slice_from 4 (buf it) in
      Val (Some (Ok (u_of_be bs)), mk rest (remaining it)).

End Parameters.

Module Fields.

Record Field : Type := mk_field {
  name : list Z;
  table_oid : Z;
  column_id : Z;
  type_oid : Z;
  type_size : Z;
  type_modifier : Z;
  format : Z;
}.

Record t : Type := mk { buf : list Z; remaining : Z }.

(** [RowDescriptionBody::fields]. *)
Definition fields (b : RowDescriptionBody.t) : t :=
  mk (RowDescriptionBody.storage b) (RowDescriptionBody.len b).

Definition next (it : t) : outcome (option (result Field io_error) * t) :=
  if remaining it =? 0 then Val (None, it)
  else
    let it := mk (buf it) (remaining it - 1) in
    match memchr 0 (buf it) with
    | None =>
        Val (Some (Err (IoError UnexpectedEof (Msg "unexpected EOF in field name"))), it)
    | Some name_end =>
        let! bytes := slice_range 0 name_end (buf it) in
        match str_of bytes with
        | Err e => Val (Some (Err e), it)
        | Ok name =>
            let! rest := slice_from (name_end + 1) (buf it) in
            let it := mk rest (remaining it) in
            if (length (buf it) <? 18)%nat then
              Val (Some (Err (IoError UnexpectedEof
                                (Msg "unexpected EOF in field description"))), it)
            else
              let! table_oid := array_at 0 4 (buf it) in
              let! column_id := array_at 4 2 (buf it) in
              let! type_oid := array_at 6 4 (buf it) in
              let! type_size := array_at 10 2 (buf it) in
              let! type_modifier := array_at 12 4 (buf it) in
              let! format := array_at 16 2 (buf it) in
              let! rest := slice_from 18 (buf it) in
              Val (Some (Ok (mk_field name (u_of_be table_oid) (i_of_be column_id)
                               (u_of_be type_oid) (i_of_be type_size)
                               (i_of_be type_modifier) (i_of_be format))),
                   mk rest (remaining it))
        end
    end.

End Fields.

(** *** String accessors of the bodies *)

(** [CommandCompleteBody::tag]. *)
Definition command_complete_tag (tag : list Z) : result (list Z) io_error := str_of tag.

Definition notification_channel (b : NotificationResponseBody.t) : result (list Z) io_error :=
  str_of (NotificationResponseBody.channel b).

Definition notification_message (b : NotificationResponseBody.t) : result (list Z) io_error :=
  str_of (NotificationResponseBody.message b).

Definition parameter_status_name (b : ParameterStatusBody.t) : result (list Z) io_error :=
  str_of (ParameterStatusBody.name b).

Definition parameter_status_value (b : ParameterStatusBody.t) : result (list Z) io_error :=
  str_of (ParameterStatusBody.value b).

(** ** The protocol's messages, as bytes *)

Definition tag_of (m : Message) : Z :=
  match m with
  | AuthenticationOk | AuthenticationCleartextPassword | AuthenticationMd5Password _
  | AuthenticationSasl _ | AuthenticationSaslContinue _ | AuthenticationSaslFinal _ => 0x52
  | BackendKeyData _ => 0x4B
  | BindComplete => 0x32
  | CloseComplete => 0x33
  | CommandComplete _ => 0x43
  | CopyData _ => 0x64
  | CopyDone => 0x63
  | CopyInResponse _ => 0x47
  | CopyOutResponse _ => 0x48
  | DataRow _ => 0x44
  | EmptyQueryResponse => 0x49
  | ErrorResponse _ => 0x45
  | NoData => 0x6E
  | NoticeResponse _ => 0x4E
  | NotificationResponse _ => 0x41
  | ParameterDescription _ => 0x74
  | ParameterStatus _ => 0x53
  | ParseComplete => 0x31
  | PortalSuspended => 0x73
  | ReadyForQuery _ => 0x5A
  | RowDescription _ => 0x54
  end.

Definition cstr (s : list Z) : list Z := s ++ [0].

Definition body (m : Message) : list Z :=
  match m with
  | AuthenticationOk => to_be 4 0
  | AuthenticationCleartextPassword => to_be 4 3
  | AuthenticationMd5Password salt => to_be 4 5 ++ salt
  | AuthenticationSasl data => to_be 4 10 ++ data
  | AuthenticationSaslContinue data => to_be 4 11 ++ data
  | AuthenticationSaslFinal data => to_be 4 12 ++ data
  | BackendKeyData (BackendKeyDataBody.mk p k) => to_be 4 p ++ to_be 4 k
  | CommandComplete tag => cstr tag
  | CopyData data | ErrorResponse data | NoticeResponse data => data
  | CopyInResponse (CopyResponseBody.mk f n s) | CopyOutResponse (CopyResponseBody.mk f n s) =>
      to_be 1 f ++ to_be 2 n ++ s
  | DataRow (DataRowBody.mk s n) | ParameterDescription (ParameterDescriptionBody.mk s n)
  | RowDescription (RowDescriptionBody.mk s n) => to_be 2 n ++ s
  | NotificationResponse (NotificationResponseBody.mk p c s) => to_be 4 p ++ cstr c ++ cstr s
  | ParameterStatus (ParameterStatusBody.mk n v) => cstr n ++ cstr v
  | ReadyForQuery status => to_be 1 status
  | BindComplete | CloseComplete | CopyDone | EmptyQueryResponse | NoData | ParseComplete
  | PortalSuspended => []
  end.

(** The length field counts itself and the body, not the tag. *)
Definition encode (m : Message) : list Z :=
  tag_of m :: to_be 4 (4 + Z.of_nat (length (body m))) ++ body m.

(** Field values of their Rust types; C strings without a terminator inside. *)
Definition fields_ok (m : Message) : Prop :=
  match m with
  | AuthenticationMd5Password salt => length salt = 4%nat
  | BackendKeyData (BackendKeyDataBody.mk p k) => in_i 32 p /\ in_i 32 k
  | CommandComplete tag => 0 ∉ tag
  | CopyInResponse (CopyResponseBody.mk f n _) | CopyOutResponse (CopyResponseBody.mk f n _) =>
      in_u 8 f /\ in_u 16 n
  | DataRow (DataRowBody.mk _ n) | ParameterDescription (ParameterDescriptionBody.mk _ n)
  | RowDescription (RowDescriptionBody.mk _ n) => in_u 16 n
  | NotificationResponse (NotificationResponseBody.mk p c s) => in_i 32 p /\ (0 ∉ c) /\ (0 ∉ s)
  | ParameterStatus (ParameterStatusBody.mk n v) => (0 ∉ n) /\ (0 ∉ v)
  | ReadyForQuery status => in_u 8 status
  | _ => True
  end.

(** A message whose frame fits the length field and the address space. *)
Definition fits (usize_max : Z) (m : Message) : Prop :=
  fields_ok m /\ 4 + Z.of_nat (length (body m)) < 2 ^ 32 /\
  5 + Z.of_nat (length (body m)) <= usize_max.

(** Messages whose last field takes the rest of the frame. *)
Definition takes_rest (m : Message) : bool :=
  match m with
  | AuthenticationSasl _ | AuthenticationSaslContinue _ | AuthenticationSaslFinal _
  | CopyData _ | CopyInResponse _ | CopyOutResponse _ | DataRow _ | ErrorResponse _
  | NoticeResponse _ | ParameterDescription _ | RowDescription _ => true
  | _ => false
  end.

(** ** Exactness of the readers *)

Section readers.

Definition rest (b : Buffer.t) : list Z := drop (Buffer.idx b) (Buffer.bytes b).

Definition wf (b : Buffer.t) : Prop :=
  (Buffer.idx b <= length (Buffer.bytes b))%nat /\ Forall is_byte (Buffer.bytes b).

(** [exact m R]: on a well-formed cursor [m] does not panic, and it returns [a]
    iff [R a l r], for [l] the bytes ahead before and [r] the bytes ahead after. *)
Definition exact {A} (m : M A) (R : A -> list Z -> list Z -> Prop) : Prop :=
  (forall b, wf b ->
     m b <> Panic /\
     forall a b', m b = Val (Ok (a, b')) <->
       R a (rest b) (rest b') /\ Buffer.bytes b' = Buffer.bytes b /\ wf b') /\
  (forall a l r, R a l r -> exists p, l = p ++ r).

Lemma buffer_ext b1 b2 :
  wf b1 -> wf b2 -> Buffer.bytes b1 = Buffer.bytes b2 -> rest b1 = rest b2 -> b1 = b2.
Proof.
  destruct b1 as [l1 i1], b2 as [l2 i2]. unfold wf, rest. simpl.
  intros [H1 _] [H2 _] -> Hr. f_equal. apply (f_equal length) in Hr.
  rewrite !length_drop in Hr. lia.
Qed.

Lemma exact_ret {A} (v : A) : exact (ret v) (fun a l r => a = v /\ r = l).
Proof.
  split; [| by intros a l r [_ ->]; exists []].
  intros b Hb. split; [done |]. intros a b'. unfold ret. split.
  - intros [= -> ->]. done.
  - intros ([-> Hr] & Hbytes & Hb'). by rewrite (buffer_ext b' b).
Qed.

Lemma exact_fail {A} (e : io_error) : exact (fail e : M A) (fun _ _ _ => False).
Proof. split; [| done]. intros b Hb. split; [done |]. intros a b'. split; [done | by intros []]. Qed.

Lemma exact_bind {A B} (m : M A) (f : A -> M B) R1 R2 :
  exact m R1 -> (forall a, exact (f a) (R2 a)) ->
  exact (Buffer.bind m f) (fun b l r => exists a k, R1 a l k /\ R2 a b k r).
Proof.
  intros [H1 S1] H2. split.
  - intros b Hb. destruct (H1 b Hb) as [Hp H]. unfold Buffer.bind. split.
    + destruct (m b) as [[[a b1] | e] |]; [| done | done]. simpl.
      destruct (proj1 (H a b1) eq_refl) as (_ & _ & Hb1). by apply (H2 a).
    + intros c b'. split.
      * destruct (m b) as [[[a b1] | e] |]; [simpl | done | done].
        destruct (proj1 (H a b1) eq_refl) as (HR & Hbytes & Hb1). intros Hf.
        apply (H2 a) in Hf as (HR2 & Hbytes' & Hb'); [| done]. rewrite Hbytes' in *. eauto 8.
      * intros ((a & k & HR1 & HR2) & Hbytes & Hb').
        destruct (S1 a _ _ HR1) as [p Hk].
        assert (Hlen : (length k <= length (Buffer.bytes b))%nat).
        { apply (f_equal length) in Hk. unfold rest in Hk.
          rewrite length_drop, length_app in Hk. lia. }
        set (b1 := Buffer.mk (Buffer.bytes b) (length (Buffer.bytes b) - length k)).
        assert (Hr1 : rest b1 = k).
        { unfold rest, b1. simpl. rewrite <- (take_drop (Buffer.idx b) (Buffer.bytes b)).
          fold (rest b). rewrite Hk, app_assoc. apply drop_app_exact.
          rewrite !length_app. lia. }
        assert (Hb1 : wf b1) by (unfold wf, b1; simpl; split; [lia | apply Hb]).
        rewrite (proj2 (H a b1)) by (rewrite Hr1; done). simpl.
        apply (H2 a); [done |]. by rewrite Hr1.
  - intros b l r (a & k & HR1 & HR2). destruct (S1 _ _ _ HR1) as [p ->].
    destruct (proj2 (H2 a) _ _ _ HR2) as [q ->]. exists (p ++ q). by rewrite app_assoc.
Qed.

Lemma exact_iff {A} (m : M A) (R R' : A -> list Z -> list Z -> Prop) :
  exact m R -> (forall a l r, R a l r <-> R' a l r) -> exact m R'.
Proof.
  intros [H S] Hi. split.
  - intros b Hb. destruct (H b Hb) as [Hp Hr]. split; [done |].
    intros a b'. by rewrite <- Hi.
  - intros a l r HR. eapply S, Hi, HR.
Qed.

Lemma slice_wf b : wf b -> Buffer.slice b = Val (rest b).
Proof. intros [H _]. unfold Buffer.slice. by rewrite slice_from_val. Qed.

Lemma length_rest b : length (rest b) = (length (Buffer.bytes b) - Buffer.idx b)%nat.
Proof. unfold rest. by rewrite length_drop. Qed.

(** Moving the cursor by [n]. *)
Lemma advance b n :
  wf b -> (n <= length (rest b))%nat ->
  wf (Buffer.mk (Buffer.bytes b) (Buffer.idx b + n)) /\
  rest (Buffer.mk (Buffer.bytes b) (Buffer.idx b + n)) = drop n (rest b).
Proof.
  intros [Hi Hf] Hn. rewrite length_rest in Hn. split.
  - split; [simpl; lia | done].
  - unfold rest. simpl. by rewrite drop_drop.
Qed.

Lemma exact_read_exact n :
  exact (read_exact n) (fun bs l r => length bs = n /\ l = bs ++ r).
Proof.
  split; [| by intros bs l r [_ ->]; exists bs].
  intros b Hb. unfold read_exact, Buffer.read. rewrite slice_wf by done. simpl.
  rewrite length_take. destruct (Nat.ltb_spec (Nat.min (Nat.min (length (rest b)) n) (length (rest b))) n).
  - split; [done |]. intros bs b'. split; [done |]. intros ([Hl Hr] & _).
    rewrite Hr, length_app in H. lia.
  - split; [done |]. intros bs b'. rewrite (Nat.min_r _ n) by lia.
    destruct (advance b n Hb) as [Hw Hd]; [lia |]. split.
    + intros [= <- <-]. split_and!; [rewrite length_take; lia | | done | done].
      by rewrite Hd, take_drop.
    + intros ([Hl Hr] & Hbytes & Hb'). do 3 f_equal.
      { rewrite Hr. by apply take_app_exact. }
      symmetry. apply buffer_ext; [done | done | by rewrite Hbytes |].
      rewrite Hd, Hr. by rewrite drop_app_exact.
Qed.

(** A big-endian integer read off [n] bytes. *)
Lemma exact_int n (dec : list Z -> Z) (ok : Z -> Prop) :
  (forall bs, length bs = n -> Forall is_byte bs -> ok (dec bs) /\ to_be n (dec bs) = bs) ->
  (forall z, ok z -> dec (to_be n z) = z) ->
  exact (Buffer.bind (read_exact n) (fun bs => ret (dec bs)))
    (fun z l r => ok z /\ l = to_be n z ++ r).
Proof.
  intros Hdec Henc.
  assert (H : exact (Buffer.bind (read_exact n) (fun bs => ret (dec bs)))
            (fun z l r => exists bs k, (length bs = n /\ l = bs ++ k) /\ z = dec bs /\ r = k)).
  { apply (exact_bind _ _ (fun bs l r => length bs = n /\ l = bs ++ r)
             (fun bs z l r => z = dec bs /\ r = l)).
    - apply exact_read_exact.
    - intros bs. apply exact_ret. }
  destruct H as [H S]. split; [| by intros z l r [_ ->]; exists (to_be n z)].
  intros b Hb. destruct (H b Hb) as [Hp Hr]. split; [done |]. intros z b'. rewrite Hr.
  split; intros (HR & Hbytes & Hb'); (split; [| done]).
  - destruct HR as (bs & k & [Hl Hrest] & -> & ->).
    destruct (Hdec bs Hl) as [Hok Heq].
    + assert (Hf : Forall is_byte (rest b)) by apply Forall_drop, Hb.
      rewrite Hrest in Hf. by apply Forall_app in Hf as [? _].
    + by rewrite Heq.
  - destruct HR as [Hok ->]. exists (to_be n z), (rest b'). split_and!; [| done | | done].
    + by rewrite length_to_be.
    + by rewrite Henc.
Qed.

Lemma exact_read_u8 : exact read_u8 (fun z l r => in_u 8 z /\ l = to_be 1 z ++ r).
Proof.
  apply exact_int.
  - intros bs Hl Hf. rewrite <- Hl. rewrite to_be_u_of_be by done. split; [| done].
    unfold u_of_be. pose proof (u_of_le_range (reverse bs) ltac:(by apply Forall_reverse)) as Hr.
    rewrite length_reverse, Hl in Hr. exact Hr.
  - intros z Hz. rewrite u_of_be_to_be. by apply wrap_u_id.
Qed.

Lemma exact_read_u16 : exact read_u16 (fun z l r => in_u 16 z /\ l = to_be 2 z ++ r).
Proof.
  apply exact_int.
  - intros bs Hl Hf. rewrite <- Hl. rewrite to_be_u_of_be by done. split; [| done].
    unfold u_of_be. pose proof (u_of_le_range (reverse bs) ltac:(by apply Forall_reverse)) as Hr.
    rewrite length_reverse, Hl in Hr. exact Hr.
  - intros z Hz. rewrite u_of_be_to_be. by apply wrap_u_id.
Qed.

Lemma exact_read_i32 : exact read_i32 (fun z l r => in_i 32 z /\ l = to_be 4 z ++ r).
Proof.
  apply exact_int.
  - intros bs Hl Hf. assert (Hne : bs <> []) by (by destruct bs). split.
    + pose proof (i_of_be_range bs Hne) as Hr. by rewrite Hl in Hr.
    + rewrite <- Hl at 1. unfold to_be, i_of_be, u_of_be. rewrite <- (length_reverse bs).
      fold (i_of_le (reverse bs)). rewrite to_le_i_of_le.
      * apply reverse_involutive.
      * intros Hr. apply Hne. rewrite <- (reverse_involutive bs), Hr. done.
      * by apply Forall_reverse.
  - intros z Hz. apply i_of_be_to_be; [lia | done].
Qed.

Lemma exact_read_cstr : exact read_cstr (fun s l r => (0 ∉ s) /\ l = cstr s ++ r).
Proof.
  unfold cstr. split; [| intros s l r [_ ->]; eauto].
  intros b Hb. unfold read_cstr. rewrite slice_wf by done. cbn [outcome_bind].
  destruct (memchr 0 (rest b)) as [pos |] eqn:Hm.
  - apply memchr_some in Hm as (post & Hrest & Hlen & Hni).
    assert (Hlr : (pos + 1 <= length (rest b))%nat)
      by (rewrite Hrest, length_app; simpl; lia).
    pose proof (length_rest b) as Hlb.
    rewrite slice_range_val by lia. cbn [outcome_bind].
    assert (Hsl : Prelude.slice (Buffer.idx b) (Buffer.idx b + pos) (Buffer.bytes b) = take pos (rest b)).
    { unfold Prelude.slice, rest. f_equal. lia. }
    rewrite Hsl, <- Nat.add_assoc.
    destruct (advance b (pos + 1) Hb Hlr) as [Hw Hd].
    assert (Hpost : drop (pos + 1) (rest b) = post).
    { rewrite Hrest. replace (pos + 1)%nat with (S pos) by lia.
      rewrite cons_middle, app_assoc. apply drop_app_exact. rewrite length_app. simpl. lia. }
    split; [done |]. intros s b'. split.
    + intros [= <- <-]. split_and!; [done | | done | done].
      rewrite Hd, Hpost, <- app_assoc. exact Hrest.
    + intros ([Hns Hr] & Hbytes & Hb'). rewrite <- app_assoc in Hr. simpl in Hr.
      assert (Hpos : pos = length s).
      { pose proof (memchr_app 0 s (rest b') Hns) as Ha. rewrite <- Hr in Ha.
        assert (memchr 0 (rest b) = Some pos) by (apply memchr_some; eauto). congruence. }
      do 3 f_equal.
      { rewrite Hr. by apply take_app_exact. }
      symmetry. apply buffer_ext; [done | done | by rewrite Hbytes |].
      rewrite Hd, Hr. replace (pos + 1)%nat with (S (length s)) by lia.
      rewrite cons_middle, app_assoc. rewrite drop_app_exact; [done |]. rewrite length_app. simpl. lia.
  - split; [done |]. intros s b'. split; [done |]. intros ([Hns Hr] & _).
    apply memchr_none in Hm. exfalso. apply Hm. rewrite Hr. set_solver.
Qed.

Lemma exact_read_all : exact read_all (fun s l r => s = l /\ r = []).
Proof.
  split; [| intros s l r [-> ->]; exists l; by rewrite app_nil_r].
  intros b Hb. unfold read_all. rewrite slice_wf by done. cbn [outcome_bind].
  split; [done |]. intros s b'.
  assert (Hw : wf (Buffer.mk (Buffer.bytes b) (length (Buffer.bytes b)))) by (split; [simpl; lia | apply Hb]).
  assert (Hd : rest (Buffer.mk (Buffer.bytes b) (length (Buffer.bytes b))) = []).
  { unfold rest. simpl. by apply drop_ge. }
  split.
  - intros [= <- <-]. done.
  - intros ([-> Hr] & Hbytes & Hb'). do 3 f_equal.
    symmetry. apply buffer_ext; [done | done | by rewrite Hbytes | by rewrite Hd].
Qed.

End readers.

(** What [parse_tag] recognises: the messages of that tag, by their body. *)
Definition recognises (tag : Z) (m : Message) (l r : list Z) : Prop :=
  tag_of m = tag /\ fields_ok m /\ l = body m ++ r /\ (takes_rest m = true -> r = []).

Lemma exact_if {A} (c : bool) (m1 m2 : M A) R1 R2 :
  exact m1 R1 -> exact m2 R2 ->
  exact (if c then m1 else m2) (fun a l r => if c then R1 a l r else R2 a l r).
Proof. by destruct c. Qed.

(** Builds the relation of a reader from its parts. *)
Ltac reader :=
  match goal with
  | |- exact (ret _) _ => apply exact_ret
  | |- exact (fail _) _ => apply exact_fail
  | |- exact read_i32 _ => apply exact_read_i32
  | |- exact read_u8 _ => apply exact_read_u8
  | |- exact read_u16 _ => apply exact_read_u16
  | |- exact read_cstr _ => apply exact_read_cstr
  | |- exact read_all _ => apply exact_read_all
  | |- exact (read_exact _) _ => apply exact_read_exact
  | |- exact (if _ then _ else _) _ => eapply exact_if; reader
  | |- exact (Buffer.bind _ _) _ => eapply exact_bind; [reader | intros ?; reader]
  end.

(** From the relation of a reader to [recognises], once the tag is known. *)
Ltac recognise_intro :=
  repeat match goal with
  | H : (_ =? _) = true |- _ => apply Z.eqb_eq in H
  | H : False |- _ => destruct H
  | H : _ /\ _ |- _ => destruct H
  | H : ex _ |- _ => destruct H
  end; subst;
  cbn [tag_of fields_ok body takes_rest]; rewrite <- ?app_assoc, ?app_nil_r; done.

(** And back, for each message of the tag. *)
Ltac recognise_elim m Hr :=
  destruct m;
  try match goal with m : BackendKeyDataBody.t |- _ => destruct m
  | m : CopyResponseBody.t |- _ => destruct m | m : DataRowBody.t |- _ => destruct m
  | m : ParameterDescriptionBody.t |- _ => destruct m | m : RowDescriptionBody.t |- _ => destruct m
  | m : NotificationResponseBody.t |- _ => destruct m | m : ParameterStatusBody.t |- _ => destruct m end;
  cbn [body fields_ok takes_rest] in *; destruct_and?; try rewrite (Hr eq_refl);
  rewrite <- ?app_assoc, ?app_nil_r.

Lemma parse_authentication_exact : exact parse_authentication (recognises AUTHENTICATION_TAG).
Proof.
  eapply exact_iff; [unfold parse_authentication; reader |].
  intros m l r. unfold recognises. split.
  - intros (code & k & [Hc ->] & H). repeat (case_match; [recognise_intro |]). done.
  - intros (Ht & Hok & -> & Hr). recognise_elim m Hr; try discriminate Ht;
    (eexists _, _; split; [split; [| reflexivity]; byte_solve |]); cbn; eauto 10.
Qed.

Lemma parse_tag_exact tag : exact (parse_tag tag) (recognises tag).
Proof.
  eapply exact_iff.
  { unfold parse_tag. repeat (eapply exact_if; [first [apply parse_authentication_exact | reader] |]).
    apply exact_fail. }
  intros m l r. cbv beta. split.
  - repeat (case_match; [intros HR; unfold recognises in *; recognise_intro |]). done.
  - unfold recognises. intros (Ht & Hok & -> & Hr).
    subst tag. recognise_elim m Hr;
      cbv [tag_of PARSE_COMPLETE_TAG BIND_COMPLETE_TAG CLOSE_COMPLETE_TAG NOTIFICATION_RESPONSE_TAG
           COPY_DONE_TAG COMMAND_COMPLETE_TAG COPY_DATA_TAG DATA_ROW_TAG ERROR_RESPONSE_TAG
           COPY_IN_RESPONSE_TAG COPY_OUT_RESPONSE_TAG EMPTY_QUERY_RESPONSE_TAG
           BACKEND_KEY_DATA_TAG NO_DATA_TAG NOTICE_RESPONSE_TAG AUTHENTICATION_TAG
           PORTAL_SUSPENDED_TAG PARAMETER_STATUS_TAG PARAMETER_DESCRIPTION_TAG
           ROW_DESCRIPTION_TAG READY_FOR_QUERY_TAG]; cbn [Z.eqb Pos.eqb].
    all: try done.
    all: eauto 25.
Qed.

(** ** Framing *)

Section framing.
Context (usize_max : Z) (Husize : 2 ^ 32 - 1 <= usize_max).

(** The declared frame length, tag included, of a buffer of at least 5 bytes. *)
Definition frame_len (buf : list Z) : Z := u_of_be (slice 1 5 buf) + 1.

(** The buffer holds at least one whole frame. *)
Definition has_frame (buf : list Z) : bool :=
  (5 <=? length buf)%nat && (5 <=? frame_len buf)
  && (frame_len buf <=? Z.of_nat (length buf)).

Lemma frame_len_range buf :
  Forall is_byte buf -> (5 <= length buf)%nat -> 1 <= frame_len buf <= 2 ^ 32.
Proof.
  intros Hb Hl. unfold frame_len, u_of_be.
  assert (Hs : Forall is_byte (reverse (slice 1 5 buf)))
    by (unfold slice; apply Forall_reverse, Forall_take, Forall_drop, Hb).
  pose proof (u_of_le_range _ Hs) as Hr. rewrite length_reverse, length_slice in Hr by lia.
  byte_solve.
Qed.

(** What [parse] does with a whole frame. *)
Definition parse_frame (tag : Z) (frame rest : list Z) :
    outcome (result (option Message) io_error * list Z) :=
  let! r := parse_tag tag (Buffer.mk frame 5) in
  match r with
  | Err e => Val (Err e, rest)
  | Ok (message, frame) =>
      let! empty := Buffer.is_empty frame in
      if negb empty then
        Val (Err (IoError InvalidInput
               (Msg "invalid message length: expected buffer to be empty")), rest)
      else Val (Ok (Some message), rest)
  end.

(** The cases of [parse], with the arithmetic on the length carried out. *)
Lemma parse_cases buf :
  Forall is_byte buf -> Z.of_nat (length buf) <= usize_max ->
  (length buf < 5)%nat /\ parse usize_max buf = Val (Ok None, buf) \/
  (5 <= length buf)%nat /\
  ((frame_len buf < 5 \/ usize_max < frame_len buf) /\
     (exists e, parse usize_max buf = Val (Err e, buf)) \/
   5 <= frame_len buf <= usize_max /\ Z.of_nat (length buf) < frame_len buf /\
     parse usize_max buf = Val (Ok None, buf) \/
   5 <= frame_len buf <= Z.of_nat (length buf) /\
     exists tag bs, buf = tag :: bs /\
     parse usize_max buf =
       parse_frame tag (take (Z.to_nat (frame_len buf)) buf) (drop (Z.to_nat (frame_len buf)) buf)).
Proof.
  intros Hb Hm. unfold parse. cond; [by left | right]. split; [done |].
  pose proof (frame_len_range buf Hb H) as Hr.
  destruct buf as [| tag bs]; [simpl in H; lia |].
  rewrite (index_val 0 (tag :: bs) tag eq_refl), slice_range_val by lia. cbn [outcome_bind]. cbv zeta.
  unfold frame_len in *. set (len := u_of_be (slice 1 5 (tag :: bs))) in *.
  rewrite (Z.mod_small len) by lia. conds.
  - left. split; [lia | eauto].
  - left. split; [lia | eauto].
  - right. left. split_and!; (lia || done).
  - right. right. split; [lia |]. exists tag, bs. done.
Qed.

Lemma parse_frame_exact tag frame rest m r :
  Forall is_byte frame -> (5 <= length frame)%nat ->
  parse_frame tag frame rest <> Panic /\
  (parse_frame tag frame rest = Val (Ok (Some m), r) <->
   tag_of m = tag /\ fields_ok m /\ drop 5 frame = body m /\ r = rest).
Proof.
  intros Hb Hl. unfold parse_frame.
  assert (Hw : wf (Buffer.mk frame 5)) by done.
  destruct (parse_tag_exact tag) as [He _]. destruct (He _ Hw) as [Hp H].
  destruct (parse_tag tag (Buffer.mk frame 5)) as [[[m' b'] | e] |]; [| | done]; cbn [outcome_bind].
  - destruct (proj1 (H m' b') eq_refl) as ((Ht & Hok & Hd & Hr) & Hbytes & Hb').
    unfold Buffer.is_empty. rewrite slice_wf by done. cbn [outcome_bind]. change (Backend.rest (Buffer.mk frame 5)) with (drop 5 frame) in *.
    destruct (Nat.eqb_spec (length (Backend.rest b')) 0) as [H0 | H0]; cbn [negb]; (split; [done |]).
    + apply nil_length_inv in H0. rewrite H0, app_nil_r in Hd. split.
      * intros [= -> ->]. done.
      * intros (Ht' & Hok' & Hd' & ->). do 3 f_equal.
        pose proof (proj2 (H m b')) as Heq. rewrite H0 in Heq. unfold recognises in Heq.
        rewrite app_nil_r in Heq. by injection (Heq ltac:(done)) as ->.
    + split; [done |]. intros (Ht' & Hok' & Hd' & ->). exfalso.
      pose proof (proj2 (H m (Buffer.mk frame (length frame)))) as Heq.
      unfold recognises, Backend.rest in Heq. simpl in Heq. rewrite drop_all, app_nil_r in Heq.
      injection (Heq ltac:(done)) as -> ->.
      unfold Backend.rest in H0. simpl in H0. by rewrite drop_all in H0.
  - split; [done |]. split; [done |]. intros (Ht' & Hok' & Hd' & ->).
    pose proof (proj2 (H m (Buffer.mk frame (length frame)))) as Heq.
    unfold recognises, Backend.rest in Heq. simpl in Heq. rewrite drop_all, app_nil_r in Heq.
    by discriminate (Heq ltac:(done)).
Qed.

(** A whole frame, taken apart. *)
Lemma encode_split m rest :
  in_u 32 (4 + Z.of_nat (length (body m))) ->
  frame_len (encode m ++ rest) = 5 + Z.of_nat (length (body m)) /\
  length (encode m) = (5 + length (body m))%nat /\
  drop 5 (encode m) = body m.
Proof.
  intros Hu. unfold frame_len, encode. split_and!.
  - unfold slice. cbn [Nat.sub app]. rewrite skipn_cons, drop_0, <- app_assoc.
    rewrite take_app_exact by apply length_to_be. rewrite u_of_be_to_be.
    change (8 * Z.of_nat 4) with 32. rewrite wrap_u_id by done. lia.
  - simpl. autorewrite with rust. lia.
  - rewrite skipn_cons. apply drop_app_exact, length_to_be.
Qed.

End framing.

(** What [parse] makes of an encoded message, and of the beginning of one. *)
Lemma parse_encode usize_max m rest :
  2 ^ 32 - 1 <= usize_max -> Forall is_byte (encode m ++ rest) ->
  Z.of_nat (length (encode m ++ rest)) <= usize_max ->
  fields_ok m -> 4 + Z.of_nat (length (body m)) < 2 ^ 32 ->
  parse usize_max (encode m ++ rest) = Val (Ok (Some m), rest).
Proof.
  intros Hu Hb Hm Hok Hl.
  assert (Hin : in_u 32 (4 + Z.of_nat (length (body m)))) by (unfold in_u; lia).
  destruct (encode_split m rest Hin) as (Hf & Hlen & Hd).
  rewrite length_app in Hm. pose proof (length_app (encode m) rest) as Hla.
  apply Forall_app in Hb as [Hbe Hbr].
  destruct (parse_cases usize_max Hu (encode m ++ rest))
    as [[Hx _] | [_ [[Hx _] | [(_ & Hx & _) | [_ (tag & bs & Heq & ->)]]]]];
    [by apply Forall_app | lia | lia | lia | lia |].
  rewrite Hf. replace (Z.to_nat (5 + Z.of_nat (length (body m)))) with (length (encode m)) by lia.
  rewrite take_app_length, drop_app_length.
  apply parse_frame_exact; [done | lia |]. split_and!; try done.
  unfold encode in Heq. by injection Heq as ->.
Qed.

Lemma parse_prefix usize_max m buf more :
  2 ^ 32 - 1 <= usize_max -> Forall is_byte buf -> Z.of_nat (length (encode m)) <= usize_max ->
  4 + Z.of_nat (length (body m)) < 2 ^ 32 -> encode m = buf ++ more -> more <> [] ->
  parse usize_max buf = Val (Ok None, buf).
Proof.
  intros Hu Hb Hm Hl Heq Hne.
  assert (Hin : in_u 32 (4 + Z.of_nat (length (body m)))) by (unfold in_u; lia).
  destruct (encode_split m [] Hin) as (Hf & Hlen & _). rewrite app_nil_r in Hf.
  assert (Hmore : (0 < length more)%nat) by (destruct more; [done | simpl; lia]).
  assert (Hlb : (length (encode m) = length buf + length more)%nat) by (by rewrite Heq, length_app).
  destruct (parse_cases usize_max Hu buf Hb) as [[_ ->] | [Hge Hc]]; [lia | done |].
  assert (Hfl : frame_len buf = 5 + Z.of_nat (length (body m))).
  { rewrite <- Hf, Heq. unfold frame_len. by rewrite slice_app by lia. }
  destruct Hc as [[Hx _] | [(_ & _ & ->) | [Hx _]]]; [lia | done | lia].
Qed.

(** [parse] never panics and only takes bytes off the front; a message is at least
    five. *)
Lemma parse_total usize_max buf :
  2 ^ 32 - 1 <= usize_max -> Forall is_byte buf -> Z.of_nat (length buf) <= usize_max ->
  exists r n, parse usize_max buf = Val (r, drop n buf)
    /\ match r with
       | Ok (Some _) => (5 <= n <= length buf)%nat
       | Ok None => n = 0%nat
       | Err _ => True
       end.
Proof.
  intros Hu Hb Hm. destruct (parse_cases usize_max Hu buf Hb Hm)
    as [[_ ->] | [Hl [[_ [e ->]] | [(_ & _ & ->) | [Hf (tag & bs & Heq & ->)]]]]].
  - by exists (Ok None), 0%nat.
  - by exists (Err e), 0%nat.
  - by exists (Ok None), 0%nat.
  - set (n := Z.to_nat (frame_len buf)). unfold parse_frame.
    destruct (parse_frame_exact tag (take n buf) (drop n buf) ParseComplete []) as [Hp _];
      [by apply Forall_take | rewrite length_take; lia |].
    unfold parse_frame in Hp. destruct (parse_tag _ _) as [[[m b'] | e] |]; cbn [outcome_bind] in *; [| | done].
    + destruct (Buffer.is_empty b') as [[|] |]; cbn [outcome_bind negb] in *; [| | done].
      * exists (Ok (Some m)), n. split; [done | lia].
      * by eexists _, n.
    + by exists (Err e), n.
Qed.

(** What [parse] takes off the buffer is the encoding of what it returns. *)
Lemma parse_sound usize_max buf m rest :
  2 ^ 32 - 1 <= usize_max -> Forall is_byte buf -> Z.of_nat (length buf) <= usize_max ->
  parse usize_max buf = Val (Ok (Some m), rest) ->
  fields_ok m /\ 4 + Z.of_nat (length (body m)) < 2 ^ 32 /\ buf = encode m ++ rest.
Proof.
  intros Hu Hb Hm Hp. destruct (parse_cases usize_max Hu buf Hb Hm)
    as [[_ Hc] | [Hl [[_ [e Hc]] | [(_ & _ & Hc) | [Hf (tag & bs & Heq & Hc)]]]]];
    try congruence.
  pose proof (frame_len_range buf Hb Hl) as Hr. rewrite Hc in Hp.
  set (n := Z.to_nat (frame_len buf)) in *.
  apply parse_frame_exact in Hp as (Ht & Hok & Hd & ->);
    [| by apply Forall_take | rewrite length_take; lia].
  assert (Hlen : length (body m) = (n - 5)%nat).
  { rewrite <- Hd, length_drop, length_take. lia. }
  split_and!; [done | lia |]. rewrite <- (take_drop n buf) at 1. f_equal.
  unfold encode. rewrite Hlen. rewrite <- Hd, Ht.
  replace (4 + Z.of_nat (n - 5)) with (u_of_be (slice 1 5 buf)) by (unfold frame_len in *; lia).
  replace 4%nat with (length (slice 1 5 buf)) at 1 by (rewrite length_slice; lia).
  rewrite to_be_u_of_be by (unfold slice; by apply Forall_take, Forall_drop).
  rewrite <- (take_drop 5 (take n buf)) at 1. rewrite take_take, Nat.min_l by lia.
  rewrite Heq. cbn [slice Nat.sub]. unfold slice. done.
Qed.

(** ** Properties of [Message::parse] *)

(** C5. The parser accepts exactly the protocol's messages: on a receive buffer of
    bytes it returns [m] and leaves [rest] iff the buffer is the encoding of [m]
    (its tag, its big-endian length, its fields) followed by [rest], with field
    values in range, no terminator inside a C string, and nothing left over in
    the frame. In particular distinct messages have distinct encodings and what
    is parsed is never a misframed part of the stream. *)
Theorem parse_exact usize_max buf m rest :
  2 ^ 32 - 1 <= usize_max -> Forall is_byte buf -> Z.of_nat (length buf) <= usize_max ->
  (parse usize_max buf = Val (Ok (Some m), rest) <->
   fields_ok m /\ 4 + Z.of_nat (length (body m)) < 2 ^ 32 /\ buf = encode m ++ rest).
Proof.
  intros Hu Hb Hm. split.
  - by apply parse_sound.
  - intros (Hok & Hl & ->). by apply parse_encode.
Qed.

Lemma parse_exact_witness :
  parse (2 ^ 64 - 1) [0x5A; 0; 0; 0; 5; 0x49; 0x43] = Val (Ok (Some (ReadyForQuery 0x49)), [0x43]) <->
  fields_ok (ReadyForQuery 0x49) /\ 4 + Z.of_nat (length (body (ReadyForQuery 0x49))) < 2 ^ 32 /\
  [0x5A; 0; 0; 0; 5; 0x49; 0x43] = encode (ReadyForQuery 0x49) ++ [0x43].
Proof.
  apply (parse_exact (2 ^ 64 - 1) [0x5A; 0; 0; 0; 5; 0x49; 0x43] (ReadyForQuery 0x49) [0x43]).
  - vm_compute. done.
  - repeat constructor; vm_compute; done.
  - vm_compute. done.
Defined.

(** Framing is total: whatever bytes a peer sends, the parser does not panic.
    It asks for more ([None]) exactly while the frame is incomplete, leaving the
    buffer as it was; a length below 4, or one the address space cannot hold,
    is an error and leaves the buffer; a whole frame is always consumed, exactly
    it, whether it parses or not. *)
Theorem parse_framing usize_max buf :
  2 ^ 32 - 1 <= usize_max -> Forall is_byte buf -> Z.of_nat (length buf) <= usize_max ->
  exists r rest, parse usize_max buf = Val (r, rest) /\
    (r = Ok None <->
     (length buf < 5)%nat \/
     (5 <= length buf)%nat /\ 5 <= frame_len buf <= usize_max /\
     Z.of_nat (length buf) < frame_len buf) /\
    rest = if has_frame buf then drop (Z.to_nat (frame_len buf)) buf else buf.
Proof.
  intros Hu Hb Hm. unfold has_frame.
  destruct (parse_cases usize_max Hu buf Hb Hm)
    as [[Hl Hc] | [Hl [[Hx [e Hc]] | [(Hx & Hy & Hc) | [Hf (tag & bs & Heq & Hc)]]]]]; rewrite Hc.
  - exists (Ok None), buf. split_and!; [done | by split; [left |] |].
    by conds.
  - exists (Err e), buf. split_and!; [done | split; [done | lia] |].
    conds; try done; lia.
  - exists (Ok None), buf. split_and!; [done | split; [by right | done] |]. by conds.
  - unfold parse_frame. destruct (parse_frame_exact tag (take (Z.to_nat (frame_len buf)) buf)
      (drop (Z.to_nat (frame_len buf)) buf) ParseComplete []) as [Hp _];
      [by apply Forall_take | rewrite length_take; lia |].
    unfold parse_frame in Hp. conds. cbn [andb].
    destruct (parse_tag _ _) as [[[m b'] | e] |]; cbn [outcome_bind] in *; [| | done].
    + destruct (Buffer.is_empty b') as [[|] |]; cbn [outcome_bind negb] in *; [| | done];
        eexists _, _; (split_and!; [done | split; [done | lia] | done]).
    + eexists _, _. split_and!; [done | split; [done | lia] | done].
Qed.

Definition oversized : list Z := [0x44; 0xFF; 0xFF; 0xFF; 0xFF; 1].

(** ** The columns of a row *)

Section rows.

(** The length field at [pos] and, when it is there whole, the column's end. *)
Definition len_at (pos : nat) (buf : list Z) : option nat :=
  let z := i_of_be (take 4 (drop pos buf)) in
  if 0 <=? z then Some (Z.to_nat z) else None.

(** The byte ranges of the columns from [pos], up to the first truncated one. *)
Fixpoint column_ranges (buf : list Z) (count pos : nat) : list (option (nat * nat)) :=
  match count with
  | O => []
  | S count =>
      if (length buf <? pos + 4)%nat then []
      else
        match len_at pos buf with
        | Some n =>
            if (length buf <? pos + 4 + n)%nat then []
            else Some ((pos + 4)%nat, (pos + 4 + n)%nat) :: column_ranges buf count (pos + 4 + n)
        | None => None :: column_ranges buf count (pos + 4)
        end
  end.

Lemma length_column_ranges buf count pos : (length (column_ranges buf count pos) <= count)%nat.
Proof.
  revert pos. induction count as [| count IH]; intros pos; cbn [column_ranges]; [done |].
  repeat case_match; cbn [length]; (apply le_n_S, IH) || lia.
Qed.

Definition bytes_at (buf : list Z) (o : option (nat * nat)) : option (list Z) :=
  '(a, b) ← o; Some (slice a b buf).

Lemma read_len_val i pos buf :
  (i + pos + 4 <= length buf)%nat -> read_len i (drop pos buf) = Val (len_at (pos + i) buf).
Proof.
  intros H. unfold read_len, len_at. rewrite array_at_val by (rewrite length_drop; lia).
  rewrite drop_drop. done.
Qed.

Lemma offsets_loop_ranges buf count pos offsets :
  offsets_loop buf count pos offsets = Val (offsets ++ column_ranges buf count pos).
Proof.
  revert pos offsets. induction count as [| count IH]; intros pos offsets; simpl.
  { by rewrite app_nil_r. }
  cond; [by rewrite app_nil_r |].
  pose proof (read_len_val pos 0 buf ltac:(lia)) as Hr. rewrite drop_0, Nat.add_0_l in Hr.
  rewrite Hr. cbn [outcome_bind]. destruct (len_at pos buf) as [n |].
  - cond; [by rewrite app_nil_r |]. rewrite IH, <- app_assoc. done.
  - rewrite IH, <- app_assoc. done.
Qed.

Lemma slice_from_drop n pos buf :
  (pos + n <= length buf)%nat -> slice_from n (drop pos buf) = Val (drop (pos + n) buf).
Proof. intros H. rewrite slice_from_val by (rewrite length_drop; lia). by rewrite drop_drop. Qed.

(** The rest of [get_column_bytes] and of [is_column_null] after the skip loop. *)
Definition target_bytes (skipped : option (list Z)) : outcome (option (list Z)) :=
  match skipped with
  | None => Val None
  | Some buf =>
      if (length buf <? 4)%nat then Val None
      else
        let! len := read_len 0 buf in
        match len with
        | None => Val None
        | Some len =>
            if (length buf <? 4 + len)%nat then Val None
            else let! data := slice_range 4 (4 + len) buf in Val (Some data)
        end
  end.

Definition target_null (skipped : option (list Z)) : outcome bool :=
  match skipped with
  | None => Val true
  | Some buf =>
      if (length buf <? 4)%nat then Val true
      else
        let! len := read_len 0 buf in
        Val (match len with Some _ => false | None => true end)
  end.

(** The skip loop against the ranges, for the column [k] after [pos]. *)
Lemma skip_columns_ranges k buf count pos :
  (k < count)%nat -> (pos <= length buf)%nat ->
  exists skipped, skip_columns k (drop pos buf) = Val skipped /\
    target_bytes skipped = Val (column_ranges buf count pos !! k ≫= bytes_at buf) /\
    (column_ranges buf count pos !! k = None -> skipped = None \/ target_bytes skipped = Val None) /\
    exists b, target_null skipped = Val b /\
      forall o, column_ranges buf count pos !! k = Some o -> b = negb (bool_decide (is_Some o)).
Proof.
  revert pos count. induction k as [| k IH]; intros pos [| count] Hk Hp; try lia.
  - exists (Some (drop pos buf)). cbn [skip_columns column_ranges target_bytes target_null].
    split; [done |]. rewrite length_drop.
    destruct (Nat.ltb_spec (length buf) (pos + 4)); conds; cbn [lookup list_lookup mbind option_bind].
    { split_and!; [done | by right | by exists true]. }
    rewrite read_len_val, Nat.add_0_r by lia. cbn [outcome_bind].
    destruct (len_at pos buf) as [n |]; cbn [outcome_bind];
      [| split_and!; [done | done | exists true; split; [done |]; by intros o [= <-]]].
    destruct (Nat.ltb_spec (length buf) (pos + 4 + n)); conds;
      cbn [lookup list_lookup mbind option_bind].
    { split_and!; [done | by right | by exists false]. }
    rewrite slice_range_val by (rewrite length_drop; lia). cbn [outcome_bind bytes_at mbind option_bind].
    split_and!; [| done | exists false; split; [done | by intros o [= <-]]].
    unfold slice. rewrite drop_drop. do 3 f_equal. lia.
  - cbn [skip_columns column_ranges]. rewrite length_drop.
    destruct (Nat.ltb_spec (length buf) (pos + 4)); conds.
    { exists None. split_and!; [done | done | by left | by exists true]. }
    rewrite read_len_val, Nat.add_0_r by lia. cbn [outcome_bind].
    rewrite slice_from_drop by lia. cbn [outcome_bind]. rewrite length_drop.
    destruct (len_at pos buf) as [n |]; [| apply IH; lia].
    destruct (Nat.ltb_spec (length buf) (pos + 4 + n)); conds.
    { exists None. split_and!; [done | done | by left | by exists true]. }
    rewrite slice_from_drop by lia. cbn [outcome_bind]. apply IH; lia.
Qed.

(** A row as its columns. *)
Definition encode_column (c : option (list Z)) : list Z :=
  match c with
  | Some data => to_be 4 (Z.of_nat (length data)) ++ data
  | None => to_be 4 (-1)
  end.

Definition encode_columns (cols : list (option (list Z))) : list Z := cols ≫= encode_column.

Definition column_fits (c : option (list Z)) : Prop :=
  match c with
  | Some data => Z.of_nat (length data) < 2 ^ 31
  | None => True
  end.

Definition row_of (cols : list (option (list Z))) : DataRowBody.t :=
  DataRowBody.mk (encode_columns cols) (Z.of_nat (length cols)).

Lemma len_at_app pre z post :
  in_i 32 z -> len_at (length pre) (pre ++ to_be 4 z ++ post) = if 0 <=? z then Some (Z.to_nat z) else None.
Proof.
  intros Hz. unfold len_at. rewrite drop_app_length, take_app_exact by apply length_to_be.
  rewrite i_of_be_to_be by (done || lia). done.
Qed.

(** The ranges of an encoded row: one per column, around its bytes. *)
Lemma column_ranges_encode pre cols :
  Forall column_fits cols ->
  length (column_ranges (pre ++ encode_columns cols) (length cols) (length pre)) = length cols /\
  forall i, column_ranges (pre ++ encode_columns cols) (length cols) (length pre) !! i
              ≫= bytes_at (pre ++ encode_columns cols) = cols !! i ≫= id /\
            (column_ranges (pre ++ encode_columns cols) (length cols) (length pre) !! i = Some None
               <-> cols !! i = Some None).
Proof.
  intros Hf. revert pre. induction Hf as [| c cols Hc _ IH]; intros pre; [done |].
  unfold encode_columns in *. csimpl. rewrite !length_app.
  destruct c as [data |]; cbn [encode_column column_fits] in *.
  - rewrite <- (app_assoc (to_be 4 _)).
    rewrite len_at_app by (unfold in_i; lia). rewrite length_app, length_to_be.
    conds. rewrite Nat2Z.id.
    specialize (IH (pre ++ to_be 4 (Z.of_nat (length data)) ++ data)).
    rewrite !length_app, length_to_be, <- !app_assoc in IH.
    rewrite Nat.add_assoc in IH. destruct IH as [IHl IH].
    split; [cbn [length]; by f_equal |]. intros [| i]; [| exact (IH i)].
    cbn [lookup list_lookup mbind option_bind bytes_at]. split; [| done]. unfold id. f_equal.
    unfold slice. rewrite app_assoc, drop_app_exact by (rewrite length_app, length_to_be; lia).
    apply take_app_exact. lia.
  - rewrite len_at_app by (unfold in_i; lia). rewrite length_to_be. conds.
    specialize (IH (pre ++ to_be 4 (-1))).
    rewrite !length_app, length_to_be, <- !app_assoc in IH. destruct IH as [IHl IH].
    split; [cbn [length]; by f_equal |]. by intros [| i]; [| exact (IH i)].
Qed.

(** [row.ranges().collect::<io::Result<Vec<_>>>()]: stops at the first error. The
    fuel is the number of calls of [next]. *)
Fixpoint collect_ranges (fuel : nat) (it : DataRowRanges.t) :
    outcome (option (result (list (option (nat * nat))) io_error)) :=
  match fuel with
  | O => Val None
  | S fuel =>
      let! r := DataRowRanges.next it in
      match r with
      | (None, _) => Val (Some (Ok []))
      | (Some (Err e), _) => Val (Some (Err e))
      | (Some (Ok o), it) =>
          let! r := collect_ranges fuel it in
          Val (match r with
               | Some (Ok os) => Some (Ok (o :: os))
               | r => r
               end)
      end
  end.

(** Collecting the ranges: the column ranges, when all are there and nothing
    follows the last one, and otherwise an error. *)
Lemma collect_ranges_spec buf count pos fuel :
  (pos <= length buf)%nat -> (count < fuel)%nat ->
  exists r, collect_ranges fuel (DataRowRanges.mk (drop pos buf) (length buf) (Z.of_nat count)) = Val (Some r) /\
    forall os, r = Ok os -> os = column_ranges buf count pos /\ length os = count.
Proof.
  revert count pos. induction fuel as [| fuel IH]; intros count pos Hp Hf; [lia |].
  cbn [collect_ranges]. unfold DataRowRanges.next.
  cbn [DataRowRanges.remaining DataRowRanges.buf DataRowRanges.len]. rewrite length_drop.
  destruct count as [| count].
  - conds; cbn [outcome_bind]; (eexists; split; [done |]); by intros os [= <-].
  - destruct (Z.eqb_spec (Z.of_nat (S count)) 0) as [Hz | _]; [lia |]. cbn [column_ranges]. destruct (Nat.ltb_spec (length buf) (pos + 4)); conds.
    { cbn [outcome_bind]. eexists. by split; [done |]. }
    rewrite read_len_val, Nat.add_0_r by lia. cbn [outcome_bind].
    rewrite slice_from_drop by lia. cbn [outcome_bind]. rewrite length_drop.
    replace (Z.of_nat (S count) - 1) with (Z.of_nat count) by lia.
    destruct (len_at pos buf) as [n |]; cbn [outcome_bind].
    + destruct (Nat.ltb_spec (length buf) (pos + 4 + n)); conds; cbn [outcome_bind].
      { eexists. by split; [done |]. }
      rewrite slice_from_drop by lia. cbn [outcome_bind].
      replace (length buf - (length buf - (pos + 4)))%nat with (pos + 4)%nat by lia.
      destruct (IH count (pos + 4 + n)%nat) as (r & -> & Hr); [lia | lia |]. cbn [outcome_bind].
      destruct r as [os |]; eexists; (split; [done |]); [| done].
      intros os' [= <-]. destruct (Hr os eq_refl) as [-> Hl]. split; [done |].
      cbn [length]. by rewrite Hl.
    + destruct (IH count (pos + 4)%nat) as (r & -> & Hr); [lia | lia |]. cbn [outcome_bind].
      destruct r as [os |]; eexists; (split; [done |]); [| done].
      intros os' [= <-]. destruct (Hr os eq_refl) as [-> Hl]. split; [done |].
      cbn [length]. by rewrite Hl.
Qed.

End rows.

(** ** Properties of rows *)

(** The ways of reaching a column agree, on any row whatever the server
    sent: none panics; [get_column_bytes] is the slice that [compute_all_offsets]
    gives for that column, and [None] when it gives none; [is_column_null] is
    [true] exactly for the columns stored as NULL, among those with an entry; a
    row whose [ranges] collect without error has the same ranges, one per
    column. *)
Theorem data_row_access_agrees row idx :
  0 <= DataRowBody.len row -> Z.of_nat idx < DataRowBody.len row ->
  exists offsets b ranges,
    compute_all_offsets row = Val offsets /\
    (length offsets <= Z.to_nat (DataRowBody.len row))%nat /\
    get_column_bytes row idx = Val (offsets !! idx ≫= bytes_at (DataRowBody.storage row)) /\
    is_column_null row idx = Val b /\
    (forall o, offsets !! idx = Some o -> (b = true <-> o = None)) /\
    collect_ranges (S (Z.to_nat (DataRowBody.len row))) (DataRowRanges.ranges row) = Val (Some ranges) /\
    (forall os, ranges = Ok os -> os = offsets /\ Z.of_nat (length os) = DataRowBody.len row).
Proof.
  destruct row as [buf n]. cbn [DataRowBody.len DataRowBody.storage]. intros Hn Hi.
  unfold compute_all_offsets, DataRowRanges.ranges. cbn [DataRowBody.len DataRowBody.storage].
  destruct (skip_columns_ranges idx buf (Z.to_nat n) 0) as (skipped & Hs & Hb & _ & b & Hnull & Hspec);
    [lia | lia |]. rewrite drop_0 in Hs.
  destruct (collect_ranges_spec buf (Z.to_nat n) 0 (S (Z.to_nat n))) as (r & Hr & Hos); [lia | lia |].
  rewrite drop_0, Z2Nat.id in Hr by lia.
  exists (column_ranges buf (Z.to_nat n) 0), b, r. split_and!.
  - apply offsets_loop_ranges.
  - apply length_column_ranges.
  - rewrite <- Hb. unfold get_column_bytes. cbn [DataRowBody.len DataRowBody.storage].
    cond. by rewrite Hs.
  - rewrite <- Hnull. unfold is_column_null. cbn [DataRowBody.len DataRowBody.storage].
    cond. by rewrite Hs.
  - intros o Ho. rewrite (Hspec o Ho). by destruct o.
  - done.
  - intros os H. destruct (Hos os H) as [-> Hl]. split; [done | lia].
Qed.

Definition truncated_row : DataRowBody.t := DataRowBody.mk (to_be 4 (-1) ++ to_be 4 9 ++ [7]) 2.

(** A row built from its columns, a big-endian length before each value and
    -1 for NULL, is read back column by column: [get_column_bytes] returns every
    value, [is_column_null] tells NULL from the empty value, and past the last
    column both say NULL. *)
Theorem data_row_columns cols idx :
  Forall column_fits cols ->
  get_column_bytes (row_of cols) idx = Val (cols !! idx ≫= id) /\
  is_column_null (row_of cols) idx = Val (negb (bool_decide (is_Some (cols !! idx ≫= id)))).
Proof.
  intros Hf. destruct (column_ranges_encode [] cols Hf) as [Hl H]. simpl in Hl, H.
  destruct (H idx) as [Hv Hnull]. unfold get_column_bytes, is_column_null, row_of.
  cbn [DataRowBody.len DataRowBody.storage]. cond.
  { rewrite lookup_ge_None_2 by lia. done. }
  destruct (skip_columns_ranges idx (encode_columns cols) (length cols) 0)
    as (skipped & Hs & Hb & _ & b & Hn & Hspec); [lia | lia |]. rewrite drop_0 in Hs. rewrite Hs.
  cbn [outcome_bind]. fold (target_bytes skipped). fold (target_null skipped).
  rewrite Hb, Hn, Hv. split; [done |]. f_equal.
  destruct (lookup_lt_is_Some_2 (column_ranges (encode_columns cols) (length cols) 0) idx) as [o Ho]; [lia |].
  rewrite (Hspec o Ho). rewrite Ho in Hnull, Hv. destruct (lookup_lt_is_Some_2 cols idx) as [c Hc]; [lia |].
  rewrite Hc in *. destruct o, c; try done; naive_solver.
Qed.

(** ** The lazy iterators *)

Section iterators.

(** A [str]'s bytes without a terminator inside. *)
Definition text_ok (s : list Z) : Prop := Forall is_char s /\ (0 ∉ s).

Lemma utf8_no_nul s : text_ok s -> 0 ∉ utf8 s.
Proof.
  intros [Hc Hn] Hin. unfold utf8 in Hin.
  apply list_elem_of_bind in Hin as (c & Hb & Hs).
  apply list_elem_of_In in Hs. rewrite List.Forall_forall in Hc. specialize (Hc c Hs).
  apply Hn, list_elem_of_In.
  replace 0 with c; [done |]. unfold encode_char, is_char in *.
  repeat case_match; rewrite ?elem_of_cons, elem_of_nil in Hb; Z.div_mod_to_equations; lia.
Qed.

(** A well-formed field description, and its bytes. *)
Definition field_ok (f : Fields.Field) : Prop :=
  text_ok (Fields.name f) /\ in_u 32 (Fields.table_oid f) /\ in_i 16 (Fields.column_id f) /\
  in_u 32 (Fields.type_oid f) /\ in_i 16 (Fields.type_size f) /\
  in_i 32 (Fields.type_modifier f) /\ in_i 16 (Fields.format f).

Definition encode_field (f : Fields.Field) : list Z :=
  cstr (utf8 (Fields.name f)) ++ to_be 4 (Fields.table_oid f) ++ to_be 2 (Fields.column_id f)
  ++ to_be 4 (Fields.type_oid f) ++ to_be 2 (Fields.type_size f)
  ++ to_be 4 (Fields.type_modifier f) ++ to_be 2 (Fields.format f).

(** Reading the array at offset [i] of a buffer cut there. *)
Lemma array_at_app pre bs post i n :
  length pre = i -> length bs = n -> array_at i n (pre ++ bs ++ post) = Val bs.
Proof.
  intros Hi Hn. rewrite array_at_val by (rewrite !length_app; lia).
  by rewrite drop_app_exact, take_app_exact.
Qed.

Lemma array_at_head bs post n : length bs = n -> array_at 0 n (bs ++ post) = Val bs.
Proof. by apply (array_at_app []). Qed.

Lemma take_cstr s post : take (length s) (cstr s ++ post) = s.
Proof. unfold cstr. rewrite <- app_assoc. apply take_app_length. Qed.

Lemma memchr_cstr s post : 0 ∉ s -> memchr 0 (cstr s ++ post) = Some (length s).
Proof. intros H. unfold cstr. rewrite <- app_assoc. by apply memchr_app. Qed.

Lemma drop_cstr s post : drop (length s + 1) (cstr s ++ post) = post.
Proof. apply drop_app_exact. unfold cstr. by rewrite length_app. Qed.

Lemma length_cstr s : length (cstr s) = (length s + 1)%nat.
Proof. unfold cstr. by rewrite length_app. Qed.

(** [memchr]'s position is inside the buffer. *)
Lemma memchr_lt c buf n : memchr c buf = Some n -> (n < length buf)%nat.
Proof.
  intros (post & Hb & Hl & _)%memchr_some. apply (f_equal length) in Hb.
  rewrite length_app, Hl in Hb. simpl in Hb. lia.
Qed.

Lemma str_of_utf8 s : Forall is_char s -> str_of (utf8 s) = Ok s.
Proof. intros H. unfold str_of. by rewrite from_utf8_utf8. Qed.

Lemma fields_next_encode f post n :
  field_ok f -> 0 < n ->
  Fields.next (Fields.mk (encode_field f ++ post) n) = Val (Some (Ok f), Fields.mk post (n - 1)).
Proof.
  intros (Hname & H1 & H2 & H3 & H4 & H5 & H6) Hn. unfold Fields.next, encode_field.
  cbn [Fields.remaining Fields.buf]. destruct (Z.eqb_spec n 0); [lia |].
  rewrite <- app_assoc, memchr_cstr by (by apply utf8_no_nul).
  rewrite slice_range_val by (rewrite length_app, length_cstr; lia).
  unfold slice. rewrite Nat.sub_0_r, drop_0, take_cstr. cbn [outcome_bind].
  rewrite str_of_utf8 by apply Hname. rewrite slice_from_val by (rewrite length_app, length_cstr; lia).
  rewrite drop_cstr. cbn [outcome_bind Fields.buf Fields.remaining].
  set (t1 := to_be 4 (Fields.table_oid f)). set (t2 := to_be 2 (Fields.column_id f)).
  set (t3 := to_be 4 (Fields.type_oid f)). set (t4 := to_be 2 (Fields.type_size f)).
  set (t5 := to_be 4 (Fields.type_modifier f)). set (t6 := to_be 2 (Fields.format f)).
  assert (L1 : length t1 = 4%nat) by apply length_to_be.
  assert (L2 : length t2 = 2%nat) by apply length_to_be.
  assert (L3 : length t3 = 4%nat) by apply length_to_be.
  assert (L4 : length t4 = 2%nat) by apply length_to_be.
  assert (L5 : length t5 = 4%nat) by apply length_to_be.
  assert (L6 : length t6 = 2%nat) by apply length_to_be.
  cond. { rewrite !length_app in H. lia. }
  rewrite <- !app_assoc.
  rewrite (array_at_head t1) by done. cbn [outcome_bind].
  rewrite (array_at_app t1 t2) by done. cbn [outcome_bind].
  rewrite (app_assoc t1 t2), (array_at_app (t1 ++ t2) t3) by (rewrite ?length_app; lia).
  cbn [outcome_bind].
  rewrite (app_assoc (t1 ++ t2) t3), (array_at_app ((t1 ++ t2) ++ t3) t4) by (rewrite ?length_app; lia).
  cbn [outcome_bind].
  rewrite (app_assoc _ t4), (array_at_app (((t1 ++ t2) ++ t3) ++ t4) t5) by (rewrite ?length_app; lia).
  cbn [outcome_bind].
  rewrite (app_assoc _ t5), (array_at_app ((((t1 ++ t2) ++ t3) ++ t4) ++ t5) t6) by (rewrite ?length_app; lia).
  cbn [outcome_bind]. rewrite (app_assoc _ t6), slice_from_val by (rewrite !length_app; lia).
  rewrite drop_app_exact by (rewrite !length_app; lia). cbn [outcome_bind].
  unfold t1, t2, t3, t4, t5, t6.
  rewrite !u_of_be_to_be, !i_of_be_to_be by (done || lia).
  change (8 * Z.of_nat 4) with 32. rewrite !wrap_u_id by done. by destruct f.
Qed.

(** The whole description, field by field; the fuel is the number of calls. *)
Fixpoint collect_fields (fuel : nat) (it : Fields.t) :
    outcome (option (list (result Fields.Field io_error) * list Z)) :=
  match fuel with
  | O => Val None
  | S fuel =>
      let! r := Fields.next it in
      match r with
      | (None, it) => Val (Some ([], Fields.buf it))
      | (Some f, it) =>
          let! r := collect_fields fuel it in
          Val (match r with Some (fs, buf) => Some (f :: fs, buf) | None => None end)
      end
  end.

Lemma collect_fields_encode fs post fuel :
  Forall field_ok fs -> (length fs < fuel)%nat ->
  collect_fields fuel (Fields.mk ((fs ≫= encode_field) ++ post) (Z.of_nat (length fs)))
  = Val (Some (Ok <$> fs, post)).
Proof.
  intros Hf. revert fuel. induction Hf as [| f fs Hok _ IH]; intros [| fuel] Hl; try (simpl in Hl; lia).
  - done.
  - cbn [collect_fields]. csimpl. rewrite <- app_assoc, fields_next_encode by (done || lia).
    cbn [outcome_bind].
    replace (Z.of_nat (S (length fs)) - 1) with (Z.of_nat (length fs)) by lia.
    rewrite IH by (simpl in Hl; lia). done.
Qed.

(** Error and notice fields: a type byte and a C string each, then a zero. *)
Definition error_field_ok (f : ErrorFields.ErrorField) : Prop :=
  ErrorFields.type_ f <> 0 /\ (0 ∉ ErrorFields.value f).

Definition encode_error_field (f : ErrorFields.ErrorField) : list Z :=
  ErrorFields.type_ f :: cstr (ErrorFields.value f).

Fixpoint collect_errors (fuel : nat) (buf : list Z) :
    outcome (option (list (result ErrorFields.ErrorField io_error))) :=
  match fuel with
  | O => Val None
  | S fuel =>
      let! r := ErrorFields.next buf in
      match r with
      | (None, _) => Val (Some [])
      | (Some f, buf) => let! r := collect_errors fuel buf in Val (cons f <$> r)
      end
  end.

Lemma error_next_encode f post :
  error_field_ok f -> ErrorFields.next (encode_error_field f ++ post) = Val (Some (Ok f), post).
Proof.
  intros [Ht Hv]. unfold ErrorFields.next, encode_error_field. cbn [app length Nat.eqb].
  rewrite (index_val 0 _ (ErrorFields.type_ f)) by done. cbn [outcome_bind].
  rewrite slice_from_val by (simpl; lia). rewrite skipn_cons, drop_0. cbn [outcome_bind].
  destruct (Z.eqb_spec (ErrorFields.type_ f) 0); [done |]. rewrite memchr_cstr by done.
  rewrite slice_range_val by (rewrite length_app, length_cstr; lia). cbn [outcome_bind].
  rewrite slice_from_val by (rewrite length_app, length_cstr; lia). rewrite drop_cstr. cbn [outcome_bind].
  unfold slice. rewrite Nat.sub_0_r, drop_0, take_cstr. by destruct f.
Qed.

(** A call either ends the iteration or shortens the slice. *)
Lemma error_next_progress buf :
  exists r, ErrorFields.next buf = Val r /\
    match r with (Some _, buf') => (length buf' < length buf)%nat | _ => True end.
Proof.
  unfold ErrorFields.next. destruct buf as [| b buf]; [by eexists |]. cbn [length Nat.eqb].
  rewrite (index_val 0 _ b) by done. cbn [outcome_bind].
  rewrite slice_from_val by (simpl; lia). rewrite skipn_cons, drop_0. cbn [outcome_bind].
  destruct (b =? 0); [by eexists |]. destruct (memchr 0 buf) as [pos |] eqn:Hm.
  - apply memchr_lt in Hm. rewrite slice_range_val by lia. cbn [outcome_bind].
    rewrite slice_from_val by lia. cbn [outcome_bind]. eexists. split; [done |].
    simpl. rewrite length_drop. lia.
  - eexists. split; [done |]. simpl. lia.
Qed.

Lemma sasl_next_no_panic buf : panics (SaslMechanisms.next buf) = false.
Proof.
  unfold SaslMechanisms.next. destruct buf as [| b buf]; [done |]. cbn [length Nat.eqb].
  rewrite (index_val 0 _ b) by done. cbn [outcome_bind]. destruct (b =? 0); [done |].
  destruct (memchr 0 (b :: buf)) as [pos |] eqn:Hm; [| done]. apply memchr_lt in Hm.
  rewrite slice_range_val by lia. cbn [outcome_bind]. destruct (from_utf8 _); [| done].
  rewrite slice_from_val by lia. done.
Qed.

Lemma parameters_next_no_panic it : panics (Parameters.next it) = false.
Proof.
  unfold Parameters.next. repeat case_match; try done. cbn [Parameters.buf] in *.
  match goal with H : (_ <? _)%nat = false |- _ => apply Nat.ltb_ge in H end.
  rewrite array_at_val, slice_from_val by lia. done.
Qed.

Lemma fields_next_no_panic it : panics (Fields.next it) = false.
Proof.
  unfold Fields.next. destruct (Fields.remaining it =? 0); [done |]. cbn [Fields.buf Fields.remaining].
  destruct (memchr 0 (Fields.buf it)) as [pos |] eqn:Hm; [| done]. apply memchr_lt in Hm.
  rewrite slice_range_val by lia. cbn [outcome_bind]. destruct (str_of _); [| done].
  rewrite slice_from_val by lia. cbn [outcome_bind Fields.buf Fields.remaining]. cond; [done |].
  rewrite !array_at_val by lia. cbn [outcome_bind]. rewrite slice_from_val by lia. done.
Qed.

End iterators.

(** A row description is read back field by field: for [n] fields encoded one
    after the other, the iterator of a [RowDescription] yields exactly them, names
    as text and numbers at their width, then ends, and leaves any bytes after
    the last field alone. *)
Theorem row_description_roundtrip fs post :
  Forall field_ok fs ->
  collect_fields (S (length fs))
    (Fields.fields (RowDescriptionBody.mk ((fs ≫= encode_field) ++ post) (Z.of_nat (length fs))))
  = Val (Some (Ok <$> fs, post)).
Proof. intros H. by apply collect_fields_encode; [| lia]. Qed.

Definition sample_field : Fields.Field :=
  Fields.mk_field [105; 0xE9] 16384 (-1) 23 4 (-1) 1.

(** The fields of an error or notice response: a well-formed list followed by
    its zero byte is read back, and on arbitrary bytes the iteration does not
    panic and ends after at most one call per byte, even past a malformed
    field. *)
Theorem error_fields_total fs post buf :
  Forall error_field_ok fs ->
  collect_errors (S (length fs)) ((fs ≫= encode_error_field) ++ 0 :: post) = Val (Some (Ok <$> fs)) /\
  exists items, collect_errors (S (length buf)) buf = Val (Some items).
Proof.
  intros Hf. split.
  - induction Hf as [| f fs Hok _ IH]; [done |].
    change ((f :: fs) ≫= encode_error_field)
      with (encode_error_field f ++ (fs ≫= encode_error_field)).
    change (length (f :: fs)) with (S (length fs)). remember (S (length fs)) as n.
    cbn [collect_errors]. rewrite <- app_assoc, error_next_encode by done.
    cbn [outcome_bind]. by rewrite IH.
  - assert (H : forall n buf, (length buf < n)%nat ->
              exists items, collect_errors n buf = Val (Some items)); [| apply H; lia].
    clear. induction n as [| n IH]; intros buf Hl; [lia |]. cbn [collect_errors].
    destruct (error_next_progress buf) as ([[f |] buf'] & -> & Hp); cbn [outcome_bind]; [| eauto].
    destruct (IH buf') as [items ->]; [lia |]. cbn [outcome_bind]. eauto.
Qed.

Definition sample_error : ErrorFields.ErrorField := ErrorFields.mk_field 0x43 [52; 50].

(** No iterator over a message body panics, whatever bytes the body holds:
    column ranges, error fields, SASL mechanisms, parameter types and field
    descriptions; truncated data is an error item. *)
Theorem iterators_never_panic row buf mechanisms params fields :
  0 <= DataRowBody.len row ->
  collect_ranges (S (Z.to_nat (DataRowBody.len row))) (DataRowRanges.ranges row) <> Panic /\
  panics (ErrorFields.next buf) = false /\ panics (SaslMechanisms.next mechanisms) = false /\
  panics (Parameters.next params) = false /\ panics (Fields.next fields) = false.
Proof.
  intros Hn. split_and!.
  - destruct row as [b n]. unfold DataRowRanges.ranges. cbn [DataRowBody.len DataRowBody.storage] in *.
    destruct (collect_ranges_spec b (Z.to_nat n) 0 (S (Z.to_nat n))) as (r & Hr & _); [lia | lia |].
    rewrite drop_0, Z2Nat.id in Hr by lia. by rewrite Hr.
  - by destruct (error_next_progress buf) as (r & -> & _).
  - apply sasl_next_no_panic.
  - apply parameters_next_no_panic.
  - apply fields_next_no_panic.
Qed.

