(* ===== verification/Frontend.v ===== *)
(** * Frontend messages ([hyperdb-api-core/src/protocol/message/frontend.rs])

    Each function appends one message to the send buffer. A [&str] is given by
    its UTF-8 bytes; lengths are [i32] arithmetic, which panics or wraps on
    overflow according to the build ([overflow_checks]). The functions that return
    [io::Result] only ever return [Ok], so their result is the buffer. *)

From S2P Require Import Prelude Backend.

(** [BufMut]: appends. *)
Definition put_u8 (z : Z) (buf : list Z) : list Z := buf ++ to_be 1 z.
Definition put_i16 (z : Z) (buf : list Z) : list Z := buf ++ to_be 2 z.
Definition put_i32 (z : Z) (buf : list Z) : list Z := buf ++ to_be 4 z.
Definition put_u32 (z : Z) (buf : list Z) : list Z := buf ++ to_be 4 z.
Definition put_slice (s buf : list Z) : list Z := buf ++ s.

(** Compares two byte strings built by appending. *)
Ltac same_bytes :=
  unfold put_u8, put_i32, put_slice;
  repeat match goal with |- context [to_be 1 (Zpos ?p)] => change (to_be 1 (Zpos p)) with [Zpos p] end;
  change (to_be 1 0) with [0];
  rewrite <- ?app_assoc; cbn [app]; repeat (f_equal; try lia).

Section frontend.
Context (overflow_checks : bool).

(** The [i32] operators. *)
Definition add (a b : Z) : outcome Z := arith_i overflow_checks 32 (a + b).
Definition mul (a b : Z) : outcome Z := arith_i overflow_checks 32 (a * b).

(** ** Narrowing of lengths and counts *)

Definition msg_len (n : nat) : outcome Z :=
  if in_ib 32 (Z.of_nat n) then Val (Z.of_nat n) else Panic.

Definition msg_count (n : nat) : outcome Z :=
  if in_ub 16 (Z.of_nat n) then Val (wrap_i 16 (Z.of_nat n)) else Panic.

(** ** Messages *)

Fixpoint put_parameters (parameters : list (list Z * list Z)) (buf : list Z) : list Z :=
  match parameters with
  | [] => buf
  | (name, value) :: parameters =>
      let buf := put_slice name buf in
      let buf := put_u8 0 buf in
      let buf := put_slice value buf in
      let buf := put_u8 0 buf in
      put_parameters parameters buf
  end.

(** [buf[i..i + bytes.len()].copy_from_slice(bytes)]. *)
Definition copy_at (i : nat) (bytes buf : list Z) : outcome (list Z) :=
  if (i + length bytes <=? length buf)%nat
  then Val (take i buf ++ bytes ++ drop (i + length bytes) buf) else Panic.

Definition startup_message (parameters : list (list Z * list Z)) (buf : list Z) :
    outcome (list Z) :=
  let len_idx := length buf in
  let buf := put_i32 0 buf in
  let buf := put_i32 196608 buf in
  let buf := put_parameters parameters buf in
  let buf := put_u8 0 buf in
  let! len := msg_len (length buf - len_idx) in
  copy_at len_idx (to_be 4 len) buf.

Definition password_message (password buf : list Z) : outcome (list Z) :=
  let buf := put_u8 0x70 buf in
  let! n := msg_len (length password) in
  let! a := add 4 n in
  let! len := add a 1 in
  let buf := put_i32 len buf in
  let buf := put_slice password buf in
  Val (put_u8 0 buf).

Definition sasl_initial_response (mechanism data buf : list Z) : outcome (list Z) :=
  let buf := put_u8 0x70 buf in
  let! m := msg_len (length mechanism) in
  let! a := add 4 m in
  let! a := add a 1 in
  let! a := add a 4 in
  let! n := msg_len (length data) in
  let! len := add a n in
  let buf := put_i32 len buf in
  let buf := put_slice mechanism buf in
  let buf := put_u8 0 buf in
  let! n := msg_len (length data) in
  let buf := put_i32 n buf in
  Val (put_slice data buf).

Definition sasl_response (data buf : list Z) : outcome (list Z) :=
  let buf := put_u8 0x70 buf in
  let! n := msg_len (length data) in
  let! len := add 4 n in
  let buf := put_i32 len buf in
  Val (put_slice data buf).

Definition query (query buf : list Z) : outcome (list Z) :=
  let buf := put_u8 0x51 buf in
  let! n := msg_len (length query) in
  let! a := add 4 n in
  let! len := add a 1 in
  let buf := put_i32 len buf in
  let buf := put_slice query buf in
  Val (put_u8 0 buf).

Fixpoint put_oids (oids : list Z) (buf : list Z) : list Z :=
  match oids with
  | [] => buf
  | oid :: oids => put_oids oids (put_u32 oid buf)
  end.

Definition parse (name query : list Z) (param_types : list Z) (buf : list Z) : outcome (list Z) :=
  let buf := put_u8 0x50 buf in
  let! n := msg_len (length name) in
  let! a := add 4 n in
  let! a := add a 1 in
  let! n := msg_len (length query) in
  let! a := add a n in
  let! a := add a 1 in
  let! a := add a 2 in
  let! n := msg_len (length param_types) in
  let! b := mul n 4 in
  let! len := add a b in
  let buf := put_i32 len buf in
  let buf := put_slice name buf in
  let buf := put_u8 0 buf in
  let buf := put_slice query buf in
  let buf := put_u8 0 buf in
  let! count := msg_count (length param_types) in
  let buf := put_i16 count buf in
  Val (put_oids param_types buf).

(** The loop of [bind] that adds up the parameter values. *)
Fixpoint params_len (params : list (option (list Z))) (len : Z) : outcome Z :=
  match params with
  | [] => Val len
  | param :: params =>
      let! len := add len 4 in
      let! len := match param with
                  | Some data => let! n := msg_len (length data) in add len n
                  | None => Val len
                  end in
      params_len params len
  end.

Fixpoint put_formats (formats : list Z) (buf : list Z) : list Z :=
  match formats with
  | [] => buf
  | format :: formats => put_formats formats (put_i16 format buf)
  end.

Fixpoint put_params (params : list (option (list Z))) (buf : list Z) : outcome (list Z) :=
  match params with
  | [] => Val buf
  | Some data :: params =>
      let! n := msg_len (length data) in
      let buf := put_i32 n buf in
      put_params params (put_slice data buf)
  | None :: params => put_params params (put_i32 (-1) buf)
  end.

Definition bind (portal statement : list Z) (param_formats : list Z)
    (params : list (option (list Z))) (result_formats : list Z) (buf : list Z) :
    outcome (list Z) :=
  let buf := put_u8 0x42 buf in
  let! n := msg_len (length portal) in
  let! a := add 4 n in
  let! a := add a 1 in
  let! n := msg_len (length statement) in
  let! a := add a n in
  let! a := add a 1 in
  let! a := add a 2 in
  let! n := msg_len (length param_formats) in
  let! b := mul n 2 in
  let! a := add a b in
  let! len := add a 2 in
  let! len := params_len params len in
  let! len := add len 2 in
  let! n := msg_len (length result_formats) in
  let! b := mul n 2 in
  let! len := add len b in
  let buf := put_i32 len buf in
  let buf := put_slice portal buf in
  let buf := put_u8 0 buf in
  let buf := put_slice statement buf in
  let buf := put_u8 0 buf in
  let! count := msg_count (length param_formats) in
  let buf := put_i16 count buf in
  let buf := put_formats param_formats buf in
  let! count := msg_count (length params) in
  let buf := put_i16 count buf in
  let! buf := put_params params buf in
  let! count := msg_count (length result_formats) in
  let buf := put_i16 count buf in
  Val (put_formats result_formats buf).

Definition describe (kind : Z) (name buf : list Z) : outcome (list Z) :=
  let buf := put_u8 0x44 buf in
  let! n := msg_len (length name) in
  let! a := add (4 + 1) n in
  let! len := add a 1 in
  let buf := put_i32 len buf in
  let buf := put_u8 kind buf in
  let buf := put_slice name buf in
  Val (put_u8 0 buf).

Definition execute (portal : list Z) (max_rows : Z) (buf : list Z) : outcome (list Z) :=
  let buf := put_u8 0x45 buf in
  let! n := msg_len (length portal) in
  let! a := add 4 n in
  let! a := add a 1 in
  let! len := add a 4 in
  let buf := put_i32 len buf in
  let buf := put_slice portal buf in
  let buf := put_u8 0 buf in
  Val (put_i32 max_rows buf).

Definition sync (buf : list Z) : list Z := put_i32 4 (put_u8 0x53 buf).

Definition flush (buf : list Z) : list Z := put_i32 4 (put_u8 0x48 buf).

Definition close (kind : Z) (name buf : list Z) : outcome (list Z) :=
  let buf := put_u8 0x43 buf in
  let! n := msg_len (length name) in
  let! a := add (4 + 1) n in
  let! len := add a 1 in
  let buf := put_i32 len buf in
  let buf := put_u8 kind buf in
  let buf := put_slice name buf in
  Val (put_u8 0 buf).

Definition terminate (buf : list Z) : list Z := put_i32 4 (put_u8 0x58 buf).

Definition cancel_request (process_id secret_key : Z) (buf : list Z) : list Z :=
  let buf := put_i32 16 buf in
  let buf := put_i32 80877102 buf in
  let buf := put_i32 process_id buf in
  put_i32 secret_key buf.

Definition ssl_request (buf : list Z) : list Z :=
  let buf := put_i32 8 buf in
  put_i32 80877103 buf.

Definition copy_data (data buf : list Z) : outcome (list Z) :=
  let buf := put_u8 0x64 buf in
  let! n := msg_len (length data) in
  let! len := add 4 n in
  let buf := put_i32 len buf in
  Val (put_slice data buf).

Definition copy_done (buf : list Z) : list Z := put_i32 4 (put_u8 0x63 buf).

Definition copy_fail (message buf : list Z) : outcome (list Z) :=
  let buf := put_u8 0x66 buf in
  let! n := msg_len (length message) in
  let! a := add 4 n in
  let! len := add a 1 in
  let buf := put_i32 len buf in
  let buf := put_slice message buf in
  Val (put_u8 0 buf).

(** ** The tagged messages as data *)

Inductive msg : Type :=
| PasswordMessage (password : list Z)
| SaslInitialResponse (mechanism data : list Z)
| SaslResponse (data : list Z)
| Query (q : list Z)
| Parse (name q : list Z) (param_types : list Z)
| Bind (portal statement : list Z) (param_formats : list Z) (params : list (option (list Z)))
    (result_formats : list Z)
| Describe (kind : Z) (name : list Z)
| Execute (portal : list Z) (max_rows : Z)
| Sync
| Flush
| Close (kind : Z) (name : list Z)
| Terminate
| MsgCopyData (data : list Z)
| MsgCopyDone
| CopyFail (message : list Z).

Definition write (m : msg) (buf : list Z) : outcome (list Z) :=
  match m with
  | PasswordMessage p => password_message p buf
  | SaslInitialResponse m d => sasl_initial_response m d buf
  | SaslResponse d => sasl_response d buf
  | Query q => query q buf
  | Parse n q ts => parse n q ts buf
  | Bind p s pf ps rf => bind p s pf ps rf buf
  | Describe k n => describe k n buf
  | Execute p r => execute p r buf
  | Sync => Val (sync buf)
  | Flush => Val (flush buf)
  | Close k n => close k n buf
  | Terminate => Val (terminate buf)
  | MsgCopyData d => copy_data d buf
  | MsgCopyDone => Val (copy_done buf)
  | CopyFail m => copy_fail m buf
  end.

Fixpoint write_all (ms : list msg) (buf : list Z) : outcome (list Z) :=
  match ms with
  | [] => Val buf
  | m :: ms => let! buf := write m buf in write_all ms buf
  end.

(** The tag and the body each message should have. *)
Definition msg_tag (m : msg) : Z :=
  match m with
  | PasswordMessage _ | SaslInitialResponse _ _ | SaslResponse _ => 0x70
  | Query _ => 0x51
  | Parse _ _ _ => 0x50
  | Bind _ _ _ _ _ => 0x42
  | Describe _ _ => 0x44
  | Execute _ _ => 0x45
  | Sync => 0x53
  | Flush => 0x48
  | Close _ _ => 0x43
  | Terminate => 0x58
  | MsgCopyData _ => 0x64
  | MsgCopyDone => 0x63
  | CopyFail _ => 0x66
  end.

Definition encode_formats (fs : list Z) : list Z := fs ≫= to_be 2.

Definition msg_body (m : msg) : list Z :=
  match m with
  | PasswordMessage p => cstr p
  | SaslInitialResponse m d => cstr m ++ to_be 4 (Z.of_nat (length d)) ++ d
  | SaslResponse d => d
  | Query q => cstr q
  | Parse n q ts => cstr n ++ cstr q ++ to_be 2 (Z.of_nat (length ts)) ++ (ts ≫= to_be 4)
  | Bind p s pf ps rf =>
      cstr p ++ cstr s ++ to_be 2 (Z.of_nat (length pf)) ++ encode_formats pf
      ++ to_be 2 (Z.of_nat (length ps)) ++ encode_columns ps
      ++ to_be 2 (Z.of_nat (length rf)) ++ encode_formats rf
  | Describe k n | Close k n => to_be 1 k ++ cstr n
  | Execute p r => cstr p ++ to_be 4 r
  | MsgCopyData d => d
  | CopyFail m => cstr m
  | Sync | Flush | Terminate | MsgCopyDone => []
  end.

Definition frame (m : msg) : list Z :=
  msg_tag m :: to_be 4 (4 + Z.of_nat (length (msg_body m))) ++ msg_body m.

(** Counts are 16 bits wide. *)
Definition counts_ok (m : msg) : Prop :=
  match m with
  | Parse _ _ ts => in_u 16 (Z.of_nat (length ts))
  | Bind _ _ pf ps rf =>
      in_u 16 (Z.of_nat (length pf)) /\ in_u 16 (Z.of_nat (length ps)) /\
      in_u 16 (Z.of_nat (length rf))
  | _ => True
  end.

(** A message whose length, tag excluded, fits the [i32] length field. *)
Definition sendable (m : msg) : Prop :=
  counts_ok m /\ 4 + Z.of_nat (length (msg_body m)) < 2 ^ 31.

(** ** Lemmas *)

Lemma msg_len_val n : Z.of_nat n < 2 ^ 31 -> msg_len n = Val (Z.of_nat n).
Proof. intros H. unfold msg_len. rewrite (proj2 (in_ib_spec 32 _)); [done | unfold in_i; lia]. Qed.

Lemma add_val a b : 0 <= a + b < 2 ^ 31 -> add a b = Val (a + b).
Proof. intros H. apply arith_i_val. unfold in_i. lia. Qed.

Lemma mul_val a b : 0 <= a * b < 2 ^ 31 -> mul a b = Val (a * b).
Proof. intros H. apply arith_i_val. unfold in_i. lia. Qed.

(** [msg_count] writes the count, as an unsigned 16-bit field. *)
Lemma msg_count_val n :
  in_u 16 (Z.of_nat n) ->
  exists z, msg_count n = Val z /\ forall buf, put_i16 z buf = buf ++ to_be 2 (Z.of_nat n).
Proof.
  intros H. unfold msg_count. rewrite (proj2 (in_ub_spec 16 _) H). eexists. split; [done |].
  intros buf. unfold put_i16, to_be. do 2 f_equal.
  rewrite <- (to_le_wrap_u 2 (wrap_i _ _)). change (8 * Z.of_nat 2) with 16.
  rewrite wrap_u_wrap_i by lia. change 16 with (8 * Z.of_nat 2). by rewrite to_le_wrap_u.
Qed.

Lemma length_bind_to_be n (l : list Z) : length (l ≫= to_be n) = (n * length l)%nat.
Proof. induction l as [| z l IH]; csimpl; [lia |]. rewrite length_app, length_to_be, IH. lia. Qed.

Lemma put_oids_app oids buf : put_oids oids buf = buf ++ (oids ≫= to_be 4).
Proof.
  revert buf. induction oids as [| o oids IH]; intros buf; csimpl; [by rewrite app_nil_r |].
  rewrite IH. unfold put_u32. by rewrite <- app_assoc.
Qed.

Lemma put_formats_app fs buf : put_formats fs buf = buf ++ encode_formats fs.
Proof.
  revert buf. induction fs as [| f fs IH]; intros buf; csimpl; [by rewrite app_nil_r |].
  rewrite IH. unfold put_i16, encode_formats. csimpl. by rewrite <- app_assoc.
Qed.

Lemma params_len_val ps len :
  0 <= len -> len + Z.of_nat (length (encode_columns ps)) < 2 ^ 31 ->
  params_len ps len = Val (len + Z.of_nat (length (encode_columns ps))).
Proof.
  unfold encode_columns.
  revert len. induction ps as [| p ps IH]; intros len Hl H; csimpl; csimpl in H.
  { simpl. f_equal. lia. }
  rewrite length_app in *. destruct p as [data |]; cbn [encode_column params_len] in *;
    rewrite ?length_app, length_to_be in *; rewrite add_val by lia; cbn [outcome_bind].
  - rewrite msg_len_val by lia. cbn [outcome_bind]. rewrite add_val by lia. cbn [outcome_bind].
    rewrite IH by lia. f_equal. lia.
  - rewrite IH by lia. f_equal. lia.
Qed.

Lemma put_params_app ps buf :
  Z.of_nat (length (encode_columns ps)) < 2 ^ 31 ->
  put_params ps buf = Val (buf ++ encode_columns ps).
Proof.
  unfold encode_columns.
  revert buf. induction ps as [| p ps IH]; intros buf H; csimpl; csimpl in H.
  { by rewrite app_nil_r. }
  rewrite length_app in H. destruct p as [data |]; cbn [encode_column put_params] in *;
    rewrite ?length_app, length_to_be in H.
  - rewrite msg_len_val by lia. cbn [outcome_bind]. rewrite IH by lia.
    unfold put_i32, put_slice. by rewrite <- !app_assoc.
  - rewrite IH by lia. unfold put_i32. by rewrite <- app_assoc.
Qed.

(** Runs the length computation of a message whose total is in range. *)
Ltac compute_len :=
  repeat (first [ rewrite msg_len_val by lia | rewrite add_val by lia | rewrite mul_val by lia
                | rewrite params_len_val by lia ]; cbn [outcome_bind]).

(** Runs the counts, whose 16-bit ranges are hypotheses. *)
Ltac compute_counts :=
  repeat match goal with
  | H : in_u 16 (Z.of_nat (length ?l)) |- context [msg_count (length ?l)] =>
      let z := fresh "z" in let Hz := fresh "Hz" in
      destruct (msg_count_val (length l) H) as (z & -> & Hz); cbn [outcome_bind]
  end.

(** Every writer appends one frame. *)
Lemma write_frame m buf : sendable m -> write m buf = Val (buf ++ frame m).
Proof.
  intros [Hc Hl]. unfold frame.
  destruct m; cbn [write msg_tag msg_body counts_ok] in *;
    unfold cstr, encode_formats in *; rewrite ?length_app, ?length_to_be, ?length_bind_to_be in *;
    simpl length in *;
    unfold password_message, sasl_initial_response, sasl_response, query, parse, bind, describe,
      execute, sync, flush, close, terminate, copy_data, copy_done, copy_fail; cbv zeta;
    compute_len; destruct_and?; compute_counts;
    rewrite ?put_params_app by lia; cbn [outcome_bind];
    repeat match goal with Hz : forall buf, put_i16 _ buf = _ |- _ => rewrite Hz; clear Hz end;
    rewrite ?put_oids_app, ?put_formats_app; unfold encode_formats; same_bytes.
Qed.

Lemma write_all_frames ms buf :
  Forall sendable ms -> write_all ms buf = Val (buf ++ (ms ≫= frame)).
Proof.
  intros H. revert buf. induction H as [| m ms Hm _ IH]; intros buf; csimpl.
  - by rewrite app_nil_r.
  - rewrite write_frame by done. cbn [outcome_bind]. rewrite IH. by rewrite <- app_assoc.
Qed.

End frontend.

(** ** The stream as a server reads it *)

(** Takes the tagged frames off a byte stream: their tag and body. *)
Fixpoint split_frames (fuel : nat) (buf : list Z) : option (list (Z * list Z)) :=
  match buf, fuel with
  | [], _ => Some []
  | _, O => None
  | tag :: _, S fuel =>
      if has_frame buf then
        let n := Z.to_nat (frame_len buf) in
        cons (tag, drop 5 (take n buf)) <$> split_frames fuel (drop n buf)
      else None
  end.

Lemma split_frames_app ms fuel :
  Forall sendable ms -> (length ms <= fuel)%nat ->
  split_frames fuel (ms ≫= frame) = Some ((fun m => (msg_tag m, msg_body m)) <$> ms).
Proof.
  intros H. revert fuel. induction H as [| m ms Hm _ IH]; intros fuel Hf; [by destruct fuel |].
  destruct fuel as [| fuel]; [simpl in Hf; lia |].
  change ((m :: ms) ≫= frame) with (frame m ++ (ms ≫= frame)).
  destruct Hm as [_ Hm].
  assert (Hfl : frame_len (frame m ++ (ms ≫= frame)) = 5 + Z.of_nat (length (msg_body m))).
  { unfold frame_len, slice, frame. cbn [app Nat.sub]. rewrite skipn_cons, drop_0, <- app_assoc.
    rewrite take_app_exact by apply length_to_be. rewrite u_of_be_to_be.
    change (8 * Z.of_nat 4) with 32. rewrite wrap_u_id by (unfold in_u; lia). lia. }
  assert (Hl : length (frame m) = (5 + length (msg_body m))%nat).
  { unfold frame. cbn [length]. rewrite length_app, length_to_be. lia. }
  assert (Hh : has_frame (frame m ++ (ms ≫= frame)) = true).
  { unfold has_frame. rewrite Hfl, length_app, Hl. conds. done. }
  assert (Hd : drop 5 (frame m) = msg_body m).
  { unfold frame. rewrite skipn_cons. apply drop_app_exact, length_to_be. }
  unfold frame at 1. cbn [app split_frames]. fold (app (A := Z)).
  change (msg_tag m :: (to_be 4 (4 + Z.of_nat (length (msg_body m))) ++ msg_body m) ++ (ms ≫= frame))
    with (frame m ++ (ms ≫= frame)).
  rewrite Hh, Hfl. replace (Z.to_nat (5 + Z.of_nat (length (msg_body m)))) with (length (frame m)) by lia.
  rewrite take_app_length, drop_app_length, Hd. rewrite IH by (simpl in Hf; lia). done.
Qed.

(** A server's reading of the body of a bind message. *)
Definition take_cstr (buf : list Z) : option (list Z * list Z) :=
  n ← memchr 0 buf; Some (take n buf, drop (n + 1) buf).

Definition take_int (n : nat) (dec : list Z -> Z) (buf : list Z) : option (Z * list Z) :=
  if (n <=? length buf)%nat then Some (dec (take n buf), drop n buf) else None.

Definition take_param (buf : list Z) : option (option (list Z) * list Z) :=
  '(n, buf) ← take_int 4 i_of_be buf;
  if n =? -1 then Some (None, buf)
  else if (0 <=? n) && (n <=? Z.of_nat (length buf))
  then Some (Some (take (Z.to_nat n) buf), drop (Z.to_nat n) buf) else None.

Fixpoint take_many {A} (f : list Z -> option (A * list Z)) (n : nat) (buf : list Z) :
    option (list A * list Z) :=
  match n with
  | O => Some ([], buf)
  | S n => '(a, buf) ← f buf; '(l, buf) ← take_many f n buf; Some (a :: l, buf)
  end.

Definition decode_bind (body : list Z) :
    option (list Z * list Z * list Z * list (option (list Z)) * list Z) :=
  '(portal, buf) ← take_cstr body;
  '(statement, buf) ← take_cstr buf;
  '(n, buf) ← take_int 2 u_of_be buf;
  '(param_formats, buf) ← take_many (take_int 2 i_of_be) (Z.to_nat n) buf;
  '(n, buf) ← take_int 2 u_of_be buf;
  '(params, buf) ← take_many take_param (Z.to_nat n) buf;
  '(n, buf) ← take_int 2 u_of_be buf;
  '(result_formats, buf) ← take_many (take_int 2 i_of_be) (Z.to_nat n) buf;
  if (length buf =? 0)%nat
  then Some (portal, statement, param_formats, params, result_formats) else None.

Lemma take_cstr_app s buf : 0 ∉ s -> take_cstr (cstr s ++ buf) = Some (s, buf).
Proof.
  intros H. unfold take_cstr. rewrite memchr_cstr by done. simpl.
  by rewrite Backend.take_cstr, drop_cstr.
Qed.

Lemma take_u16_app z buf : in_u 16 z -> take_int 2 u_of_be (to_be 2 z ++ buf) = Some (z, buf).
Proof.
  intros H. unfold take_int. rewrite length_app, length_to_be. cond.
  rewrite take_app_exact, drop_app_exact by apply length_to_be.
  rewrite u_of_be_to_be. by rewrite wrap_u_id.
Qed.

Lemma take_i_app n z buf :
  (0 < n)%nat -> in_i (8 * Z.of_nat n) z -> take_int n i_of_be (to_be n z ++ buf) = Some (z, buf).
Proof.
  intros Hn H. unfold take_int. rewrite length_app, length_to_be. cond.
  rewrite take_app_exact, drop_app_exact by apply length_to_be. by rewrite i_of_be_to_be.
Qed.

Lemma take_many_app {A} (f : list Z -> option (A * list Z)) (enc : A -> list Z) (ok : A -> Prop) l buf :
  (forall a buf, ok a -> f (enc a ++ buf) = Some (a, buf)) -> Forall ok l ->
  take_many f (length l) ((l ≫= enc) ++ buf) = Some (l, buf).
Proof.
  intros Hf. induction 1 as [| a l Ha _ IH]; [done |]. csimpl. rewrite <- app_assoc, Hf by done.
  csimpl. by rewrite IH.
Qed.

Lemma take_param_app p buf : column_fits p -> take_param (encode_column p ++ buf) = Some (p, buf).
Proof.
  intros H. unfold take_param. destruct p as [data |]; cbn [encode_column column_fits] in *.
  - rewrite <- app_assoc, take_i_app by (unfold in_i; lia). csimpl.
    destruct (Z.eqb_spec (Z.of_nat (length data)) (-1)); [lia |].
    rewrite length_app. conds. cbn [andb]. rewrite Nat2Z.id.
    by rewrite take_app_length, drop_app_length.
  - rewrite take_i_app by (unfold in_i; lia). done.
Qed.

(** ** Properties *)

(** C40. The send buffer is a well-framed stream, in every build: a sequence of
    messages within the protocol's limits is written without a panic, appends to
    what was there, and splits back at the declared lengths into exactly those
    messages' tags and bodies. *)
Theorem frontend_stream overflow_checks ms buf :
  Forall sendable ms ->
  exists stream,
    write_all overflow_checks ms buf = Val (buf ++ stream) /\
    split_frames (length ms) stream = Some ((fun m => (msg_tag m, msg_body m)) <$> ms).
Proof.
  intros H. exists (ms ≫= frame). split; [by apply write_all_frames | by apply split_frames_app].
Qed.

Lemma frontend_stream_witness :
  exists stream,
    write_all true [Parse [115] [83; 69] [23]; Bind [] [115] [1] [Some [7]; None] [1]; Sync] [9]
      = Val ([9] ++ stream) /\
    split_frames 3 stream =
      Some ((fun m => (msg_tag m, msg_body m)) <$>
              [Parse [115] [83; 69] [23]; Bind [] [115] [1] [Some [7]; None] [1]; Sync]).
Proof.
  apply (frontend_stream true
    [Parse [115] [83; 69] [23]; Bind [] [115] [1] [Some [7]; None] [1]; Sync] [9]).
  repeat constructor; vm_compute; intuition discriminate.
Defined.

(** Binding parameters loses nothing: the message [bind] appends is one frame
    whose body reads back as the portal, the statement, the parameter formats,
    every parameter value with NULL kept apart from the empty value, and the
    result formats, up to the 65535 that the unsigned counts allow. *)
Theorem bind_roundtrip overflow_checks portal statement param_formats params result_formats buf :
  sendable (Bind portal statement param_formats params result_formats) ->
  0 ∉ portal -> 0 ∉ statement ->
  Forall (in_i 16) param_formats -> Forall (in_i 16) result_formats ->
  exists body,
    bind overflow_checks portal statement param_formats params result_formats buf
      = Val (buf ++ 0x42 :: to_be 4 (4 + Z.of_nat (length body)) ++ body) /\
    decode_bind body = Some (portal, statement, param_formats, params, result_formats).
Proof.
  intros Hs Hp Hst Hpf Hrf. exists (msg_body (Bind portal statement param_formats params result_formats)).
  split; [by apply (write_frame overflow_checks (Bind _ _ _ _ _)) |].
  destruct Hs as [(H1 & H2 & H3) Hl]. cbn [msg_body counts_ok] in *. unfold encode_formats in *.
  assert (Hps : Forall column_fits params).
  { rewrite !length_app in Hl. clear - Hl. assert (Hc : Z.of_nat (length (encode_columns params)) < 2 ^ 31) by lia.
    clear Hl. unfold encode_columns in Hc. induction params as [| p ps IH]; [done |].
    csimpl. csimpl in Hc. rewrite length_app in Hc. constructor; [| apply IH; lia].
    destruct p; cbn [column_fits encode_column] in *; [rewrite length_app in Hc; lia | done]. }
  unfold decode_bind. rewrite take_cstr_app by done. cbn [mbind option_bind]. rewrite take_cstr_app by done. cbn [mbind option_bind].
  rewrite take_u16_app by done. cbn [mbind option_bind]. rewrite Nat2Z.id.
  rewrite (take_many_app _ (to_be 2) (in_i 16)) by (done || (intros; by apply take_i_app; [lia |])).
  cbn [mbind option_bind]. rewrite take_u16_app by done. cbn [mbind option_bind]. rewrite Nat2Z.id. unfold encode_columns.
  rewrite (take_many_app _ encode_column column_fits) by (done || (intros; by apply take_param_app)).
  cbn [mbind option_bind]. rewrite take_u16_app by done. cbn [mbind option_bind]. rewrite Nat2Z.id.
  rewrite <- (app_nil_r (result_formats ≫= to_be 2)).
  rewrite (take_many_app _ (to_be 2) (in_i 16)) by (done || (intros; by apply take_i_app; [lia |])).
  done.
Qed.

(** The startup message patches its length in place: what was in the buffer
    is kept, the untagged message declares exactly its own length and carries
    protocol version 3.0, every parameter pair and a final zero; it panics iff
    the message is longer than an [i32] can say. *)
Theorem startup_message_framed parameters buf :
  let body := to_be 4 196608 ++ (parameters ≫= fun '(n, v) => cstr n ++ cstr v) ++ [0] in
  startup_message parameters buf =
  if 4 + Z.of_nat (length body) <? 2 ^ 31
  then Val (buf ++ to_be 4 (4 + Z.of_nat (length body)) ++ body) else Panic.
Proof.
  cbv zeta. set (ps := parameters ≫= fun '(n, v) => cstr n ++ cstr v).
  assert (Hps : forall b, put_parameters parameters b = b ++ ps).
  { unfold ps. clear. induction parameters as [| [n v] ps IH]; intros b; csimpl; [by rewrite app_nil_r |].
    rewrite IH. unfold cstr. same_bytes. }
  unfold startup_message. rewrite Hps. unfold put_i32, put_u8. change (to_be 1 0) with [0].
  rewrite <- !app_assoc. rewrite !length_app, !length_to_be.
  replace (length buf + (4 + (4 + (length ps + length [0%Z]))) - length buf)%nat
    with (4 + (4 + (length ps + length [0%Z])))%nat by lia.
  unfold msg_len. set (n := (4 + (4 + (length ps + length [0%Z])))%nat).
  replace (4 + Z.of_nat (4 + (length ps + length [0%Z]))) with (Z.of_nat n) by lia.
  destruct (in_ib 32 (Z.of_nat n)) eqn:Hi; cbn [outcome_bind].
  - apply in_ib_spec in Hi. unfold in_i in Hi. destruct (Z.ltb_spec (Z.of_nat n) (2 ^ 31)); [| lia].
    unfold copy_at. rewrite !length_app, !length_to_be. cond.
    rewrite take_app_length. do 3 f_equal. rewrite app_assoc. apply drop_app_exact.
    rewrite length_app, length_to_be. done.
  - destruct (Z.ltb_spec (Z.of_nat n) (2 ^ 31)); [| done].
    rewrite (proj2 (in_ib_spec 32 _)) in Hi; [done | unfold in_i; lia].
Qed.

(** The sum of the lengths of a [parse] without parameter types, wrapped. *)
Lemma wrapped_parse_len n q :
  2 ^ 31 <= 8 + n + q -> 8 + n + q < 2 ^ 32 -> wrap_i 32 (4 + n + 1 + q + 1 + 2) = 8 + n + q - 2 ^ 32.
Proof.
  intros Hlo Hhi. unfold wrap_i.
  replace (4 + n + 1 + q + 1 + 2 + 2 ^ (32 - 1)) with (8 + n + q - 2 ^ 31 + 1 * 2 ^ 32) by lia.
  rewrite Z.mod_add, Z.mod_small by lia. lia.
Qed.

Lemma parse_wraps name q buf :
  Z.of_nat (length name) < 2 ^ 31 -> Z.of_nat (length q) < 2 ^ 31 ->
  parse false name q [] buf =
    Val (buf ++ 0x50 :: to_be 4 (wrap_i 32 (4 + Z.of_nat (length name) + 1 + Z.of_nat (length q) + 1 + 2))
             ++ cstr name ++ cstr q ++ [0; 0]).
Proof.
  intros Hn Hq. unfold parse.
  rewrite (msg_len_val (length name)), (msg_len_val (length q)) by done.
  assert (H0 : msg_len (@length Z []) = Val 0) by reflexivity.
  assert (H1 : msg_count (@length Z []) = Val 0) by reflexivity.
  assert (H2 : mul false 0 4 = Val 0) by reflexivity.
  rewrite H0. cbn [outcome_bind]. rewrite H1, H2. unfold add.
  repeat (rewrite arith_i_wrap by lia; cbn [outcome_bind]).
  rewrite Z.add_0_r, (wrap_i_id 32 (wrap_i 32 _)) by (lia || (apply wrap_i_range; lia)).
  repeat (rewrite <- ?Z.add_assoc; rewrite wrap_i_add_l). rewrite <- ?Z.add_assoc.
  cbn [put_oids]. unfold cstr, put_i16.
  assert (H3 : to_be 2 0 = [0; 0]) by reflexivity. rewrite H3. same_bytes.
Qed.

Lemma parse_checked_panics name q buf :
  Z.of_nat (length name) < 2 ^ 31 -> Z.of_nat (length q) < 2 ^ 31 ->
  2 ^ 31 <= 8 + Z.of_nat (length name) + Z.of_nat (length q) -> parse true name q [] buf = Panic.
Proof.
  intros Hn Hq Hlo. unfold parse.
  rewrite (msg_len_val (length name)), (msg_len_val (length q)) by done. unfold add, arith_i.
  revert Hlo. generalize (Z.of_nat (length name)) as n, (Z.of_nat (length q)) as k. intros n k Hlo.
  cbn [outcome_bind].
  repeat match goal with
  | |- context [in_ib 32 ?z] =>
      let H := fresh in
      destruct (in_ib 32 z) eqn:H; cbn [outcome_bind]; [apply in_ib_spec in H | reflexivity];
      assert (z < 2 ^ 31) by apply H; clear H
  end; lia.
Qed.

(** The length of a message is added up in [i32], and only its parts are
    checked: in a build without overflow checks a [parse] whose parts fit but
    whose total does not is written with the wrapped, negative length instead of
    panicking, and with overflow checks it panics. *)
Theorem parse_length_overflow name q buf :
  Z.of_nat (length name) < 2 ^ 31 -> Z.of_nat (length q) < 2 ^ 31 ->
  2 ^ 31 <= 8 + Z.of_nat (length name) + Z.of_nat (length q) ->
  8 + Z.of_nat (length name) + Z.of_nat (length q) < 2 ^ 32 ->
  parse false name q [] buf =
    Val (buf ++ 0x50 :: to_be 4 (8 + Z.of_nat (length name) + Z.of_nat (length q) - 2 ^ 32)
             ++ cstr name ++ cstr q ++ [0; 0]) /\
  parse true name q [] buf = Panic.
Proof.
  intros Hn Hq Hlo Hhi. split; [| by apply parse_checked_panics].
  by rewrite parse_wraps, wrapped_parse_len.
Qed.
