(* ===== verification/HyperTypes.v ===== *)
(** * HyperBinary values

    [hyperdb-api-core/src/types/traits.rs] and [types/types.rs]: the traits
    [ToHyperBinary] and [FromHyperBinary] and their implementations for the
    scalar types, [str], [[u8]] and [Option]; and the stand-alone conversions of
    [hyperdb-api-core/src/protocol/types.rs]. A trait is a record of operations,
    an implementation a value of it, and its contract the predicate [lawful]. *)

From stdpp Require Import strings pretty.
From S2P Require Import Prelude Text HyperCopy.

(** ** [ToHyperBinary] *)

(** The error texts; a [Box<dyn Error>] made from a [&str]. *)
Definition Error : Type := string.

(** The buffer is returned with errors too: an implementation may have appended
    to it before it fails. *)
Record ToHyperBinary (A : Type) : Type := {
  to_hyper_binary : A -> list Z -> list Z * result unit Error;
  to_hyper_binary_not_null : A -> list Z -> list Z * result unit Error;
  hyper_binary_size : A -> nat;
  hyper_binary_size_not_null : A -> outcome nat;
}.
Arguments to_hyper_binary {A} _ _ _.
Arguments to_hyper_binary_not_null {A} _ _ _.
Arguments hyper_binary_size {A} _ _.
Arguments hyper_binary_size_not_null {A} _ _.

Definition write_null (buf : list Z) : list Z := buf ++ [1].

Definition write_not_null_indicator (buf : list Z) : list Z := buf ++ [0].

Definition NULL_INDICATOR_SIZE : nat := 1.

Definition bool_codec : ToHyperBinary bool := {|
  to_hyper_binary := fun (v : bool) buf =>
    let buf := write_not_null_indicator buf in
    (buf ++ [if v then 1 else 0], Ok tt);
  to_hyper_binary_not_null := fun (v : bool) buf => (buf ++ [if v then 1 else 0], Ok tt);
  hyper_binary_size := fun _ => (NULL_INDICATOR_SIZE + 1)%nat;
  hyper_binary_size_not_null := fun _ => Val 1%nat;
|}.

(** A fixed-width little-endian integer of [n] bytes, or a float as its bits. *)
Definition le_codec (n : nat) : ToHyperBinary Z := {|
  to_hyper_binary := fun v buf =>
    let buf := write_not_null_indicator buf in
    (buf ++ to_le n v, Ok tt);
  to_hyper_binary_not_null := fun v buf => (buf ++ to_le n v, Ok tt);
  hyper_binary_size := fun _ => (NULL_INDICATOR_SIZE + n)%nat;
  hyper_binary_size_not_null := fun _ => Val n;
|}.

Definition i8_codec : ToHyperBinary Z := le_codec 1.
Definition i16_codec : ToHyperBinary Z := le_codec 2.
Definition i32_codec : ToHyperBinary Z := le_codec 4.
Definition i64_codec : ToHyperBinary Z := le_codec 8.
Definition u32_codec : ToHyperBinary Z := le_codec 4.
Definition i128_codec : ToHyperBinary Z := le_codec 16.
Definition u128_codec : ToHyperBinary Z := le_codec 16.
Definition f32_codec : ToHyperBinary Z := le_codec 4.
Definition f64_codec : ToHyperBinary Z := le_codec 8.

(** Length-prefixed bytes; [what] is the error of a length over [u32::MAX]. *)
Definition prefixed_codec (what : Error) : ToHyperBinary (list Z) := {|
  to_hyper_binary := fun v buf =>
    let buf := write_not_null_indicator buf in
    if in_ub 32 (Z.of_nat (length v))
    then (buf ++ to_le 4 (Z.of_nat (length v)) ++ v, Ok tt) else (buf, Err what);
  to_hyper_binary_not_null := fun v buf =>
    if in_ub 32 (Z.of_nat (length v))
    then (buf ++ to_le 4 (Z.of_nat (length v)) ++ v, Ok tt) else (buf, Err what);
  hyper_binary_size := fun v => (NULL_INDICATOR_SIZE + 4 + length v)%nat;
  hyper_binary_size_not_null := fun v => Val (4 + length v)%nat;
|}.

Definition bytes_codec : ToHyperBinary (list Z) :=
  prefixed_codec "byte slice length exceeds HyperBinary 4-byte length prefix (u32::MAX)".

(** A [str] by its chars. *)
Definition str_codec : ToHyperBinary (list Z) :=
  let c := prefixed_codec "string length exceeds HyperBinary 4-byte length prefix (u32::MAX)" in {|
  to_hyper_binary := fun v => to_hyper_binary c (utf8 v);
  to_hyper_binary_not_null := fun v => to_hyper_binary_not_null c (utf8 v);
  hyper_binary_size := fun v => hyper_binary_size c (utf8 v);
  hyper_binary_size_not_null := fun v => hyper_binary_size_not_null c (utf8 v);
|}.

Definition option_codec {A} (T : ToHyperBinary A) : ToHyperBinary (option A) := {|
  to_hyper_binary := fun v buf =>
    match v with
    | Some value => to_hyper_binary T value buf
    | None => (write_null buf, Ok tt)
    end;
  to_hyper_binary_not_null := fun v buf =>
    match v with
    | Some value => to_hyper_binary_not_null T value buf
    | None => (buf, Err "Cannot write None to a NOT NULL column"%string)
    end;
  hyper_binary_size := fun v =>
    match v with
    | Some value => hyper_binary_size T value
    | None => NULL_INDICATOR_SIZE
    end;
  hyper_binary_size_not_null := fun v =>
    match v with
    | Some value => hyper_binary_size_not_null T value
    | None => Panic
    end;
|}.

(** ** [FromHyperBinary] *)

Inductive FromError : Type :=
| Message (s : string)
| Utf8Error
| ParseIntError.

Definition bool_from (buf : list Z) : result bool FromError :=
  match buf with
  | [b] =>
      if (b =? 0x74) || (b =? 0x54) || (b =? 1) then Ok true
      else if (b =? 0x66) || (b =? 0x46) || (b =? 0) then Ok false
      else Err (Message ("invalid bool value: " +:+ pretty b))
  | _ => Err (Message "invalid buffer size for bool")
  end.

(** [str::from_utf8(buf)?.trim().parse()]. *)
Definition int_of_text (w : Z) (buf : list Z) : result Z FromError :=
  match from_utf8 buf with
  | None => Err Utf8Error
  | Some s => match parse_i w (trim s) with Some z => Ok z | None => Err ParseIntError end
  end.

Definition i8_from (buf : list Z) : result Z FromError :=
  match buf with
  | [b] => if b <=? 127 then Ok b else int_of_text 8 buf
  | _ => int_of_text 8 buf
  end.

Definition i16_from (buf : list Z) : result Z FromError :=
  if (length buf =? 2)%nat then Ok (i_of_le buf) else int_of_text 16 buf.

(** [b.is_ascii_digit() || b == b'-' || b == b'+']. *)
Definition int_text_byte (b : Z) : bool := is_digit b || (b =? 45) || (b =? 43).

Definition i32_from (buf : list Z) : result Z FromError :=
  let is_text := forallb int_text_byte buf in
  if is_text || negb (length buf =? 4)%nat then int_of_text 32 buf else Ok (i_of_le buf).

Definition i64_from (buf : list Z) : result Z FromError :=
  let is_text := forallb int_text_byte buf in
  if is_text || negb (length buf =? 8)%nat then int_of_text 64 buf else Ok (i_of_le buf).

Definition u32_from (buf : list Z) : result Z FromError :=
  if negb (length buf =? 4)%nat then Err (Message "invalid buffer size for u32")
  else Ok (u_of_le buf).

Definition i128_from (buf : list Z) : result Z FromError :=
  if negb (length buf =? 16)%nat then Err (Message "invalid buffer size for i128")
  else Ok (i_of_le buf).

Definition u128_from (buf : list Z) : result Z FromError :=
  if negb (length buf =? 16)%nat then Err (Message "invalid buffer size for u128")
  else Ok (u_of_le buf).

Definition string_from (buf : list Z) : result (list Z) FromError :=
  match from_utf8 buf with
  | Some s => Ok s
  | None => Err Utf8Error
  end.

Definition bytes_from (buf : list Z) : result (list Z) FromError := Ok buf.

(** ** The conversions of [protocol/types.rs] *)

Module Protocol.

Inductive ParseError : Type :=
| InvalidLength (type_name : string) (expected actual : nat)
| BufferTooShort (context : string)
| InvalidUtf8.

Definition hb_len (n : nat) : outcome Z :=
  if in_ub 32 (Z.of_nat n) then Val (Z.of_nat n) else Panic.

Definition bool_to_hyper_binary (v : bool) (buf : list Z) : list Z := buf ++ [if v then 1 else 0].

Definition bool_from_hyper_binary (buf : list Z) : result bool ParseError :=
  match buf with
  | [b] => Ok (negb (b =? 0))
  | _ => Err (InvalidLength "bool" 1 (length buf))
  end.

(** [buf.try_into::<[u8; N]>()] and [from_le_bytes]. *)
Definition le_from (type_name : string) (n : nat) (dec : list Z -> Z) (buf : list Z) :
    result Z ParseError :=
  if (length buf =? n)%nat then Ok (dec buf) else Err (InvalidLength type_name n (length buf)).

Definition i16_to_hyper_binary (v : Z) (buf : list Z) : list Z := buf ++ to_le 2 v.
Definition i16_from_hyper_binary : list Z -> result Z ParseError := le_from "i16" 2 i_of_le.
Definition i32_to_hyper_binary (v : Z) (buf : list Z) : list Z := buf ++ to_le 4 v.
Definition i32_from_hyper_binary : list Z -> result Z ParseError := le_from "i32" 4 i_of_le.
Definition i64_to_hyper_binary (v : Z) (buf : list Z) : list Z := buf ++ to_le 8 v.
Definition i64_from_hyper_binary : list Z -> result Z ParseError := le_from "i64" 8 i_of_le.
Definition f32_to_hyper_binary (bits : Z) (buf : list Z) : list Z := buf ++ to_le 4 bits.
Definition f32_from_hyper_binary : list Z -> result Z ParseError := le_from "f32" 4 u_of_le.
Definition f64_to_hyper_binary (bits : Z) (buf : list Z) : list Z := buf ++ to_le 8 bits.
Definition f64_from_hyper_binary : list Z -> result Z ParseError := le_from "f64" 8 u_of_le.

Definition bytea_to_hyper_binary (v buf : list Z) : outcome (list Z) :=
  let! len := hb_len (length v) in
  let buf := buf ++ to_le 4 len in
  Val (buf ++ v).

Definition text_to_hyper_binary (v buf : list Z) : outcome (list Z) :=
  let! len := hb_len (length (utf8 v)) in
  let buf := buf ++ to_le 4 len in
  Val (buf ++ utf8 v).

(** [rest.get(..len)], for the [u32] length cast to [usize]. *)
Definition bytea_from_hyper_binary (usize_max : Z) (buf : list Z) : result (list Z) ParseError :=
  if (length buf <? 4)%nat then Err (BufferTooShort "bytea length")
  else
    let len := u_of_le (take 4 buf) `mod` (usize_max + 1) in
    let rest := drop 4 buf in
    if len <=? Z.of_nat (length rest) then Ok (take (Z.to_nat len) rest)
    else Err (BufferTooShort "bytea data").

Definition text_from_hyper_binary (usize_max : Z) (buf : list Z) : result (list Z) ParseError :=
  if (length buf <? 4)%nat then Err (BufferTooShort "text length")
  else
    let len := u_of_le (take 4 buf) `mod` (usize_max + 1) in
    let rest := drop 4 buf in
    if len <=? Z.of_nat (length rest) then
      match from_utf8 (take (Z.to_nat len) rest) with
      | Some s => Ok s
      | None => Err InvalidUtf8
      end
    else Err (BufferTooShort "text data").

End Protocol.

(** ** The contract of [ToHyperBinary] *)

(** [enc] is the nullable encoding of a value and [enc_nn] the one of a NOT NULL
    column, [None] where there is none: writers append them, the sizes are
    their lengths, and the nullable form of a value is the indicator 0 before
    the other. *)
Record lawful {A} (T : ToHyperBinary A) (ok : A -> Prop) (enc : A -> list Z)
    (enc_nn : A -> option (list Z)) : Prop := {
  law_write : forall a buf, ok a -> to_hyper_binary T a buf = (buf ++ enc a, Ok tt);
  law_size : forall a, hyper_binary_size T a = length (enc a);
  law_write_nn : forall a buf, ok a ->
    match enc_nn a with
    | Some bytes => to_hyper_binary_not_null T a buf = (buf ++ bytes, Ok tt)
    | None => exists e, to_hyper_binary_not_null T a buf = (buf, Err e)
    end;
  law_size_nn : forall a,
    hyper_binary_size_not_null T a =
    match enc_nn a with Some bytes => Val (length bytes) | None => Panic end;
  law_indicator : forall a bytes, enc_nn a = Some bytes -> enc a = 0 :: bytes;
}.

Definition enc_le (n : nat) (z : Z) : list Z := 0 :: to_le n z.
Definition enc_bool (b : bool) : list Z := [0; if b then 1 else 0].
Definition enc_bytes (v : list Z) : list Z := 0 :: to_le 4 (Z.of_nat (length v)) ++ v.
Definition enc_option {A} (enc : A -> list Z) (v : option A) : list Z :=
  match v with Some a => enc a | None => [1] end.
Definition fits_u32 (v : list Z) : Prop := Z.of_nat (length v) < 2 ^ 32.

(** Appending in two steps. *)
Lemma append2 (buf : list Z) b rest : (buf ++ [b]) ++ rest = buf ++ b :: rest.
Proof. by rewrite <- app_assoc. Qed.

Lemma bool_lawful : lawful bool_codec (fun _ => True) enc_bool (fun b => Some [if b then 1 else 0]).
Proof.
  constructor; intros; cbn; unfold write_not_null_indicator; rewrite ?append2; try done.
  by simplify_eq.
Qed.

Lemma le_lawful n :
  lawful (le_codec n) (fun _ => True) (enc_le n) (fun z => Some (to_le n z)).
Proof.
  constructor; intros; cbn; unfold write_not_null_indicator, enc_le; rewrite ?append2;
    cbn [length]; rewrite ?length_to_le; try done. by simplify_eq.
Qed.

Lemma prefixed_lawful what :
  lawful (prefixed_codec what) fits_u32 enc_bytes (fun v => Some (to_le 4 (Z.of_nat (length v)) ++ v)).
Proof.
  assert (H : forall v, fits_u32 v -> in_ub 32 (Z.of_nat (length v)) = true)
    by (intros v Hv; apply in_ub_spec; unfold in_u, fits_u32 in *; lia).
  constructor; intros; cbn -[to_le Nat.add]; unfold write_not_null_indicator, enc_bytes;
    rewrite ?H, ?append2 by done; cbn [length]; rewrite ?length_app, ?length_to_le; try done.
  by simplify_eq.
Qed.

Lemma str_lawful :
  lawful str_codec (fun s => fits_u32 (utf8 s)) (fun s => enc_bytes (utf8 s))
    (fun s => Some (to_le 4 (Z.of_nat (length (utf8 s))) ++ utf8 s)).
Proof.
  pose proof (prefixed_lawful "string length exceeds HyperBinary 4-byte length prefix (u32::MAX)") as H.
  constructor; unfold str_codec; cbn [to_hyper_binary to_hyper_binary_not_null hyper_binary_size
    hyper_binary_size_not_null]; intros.
  - by apply H.
  - apply H.
  - by apply (law_write_nn _ _ _ _ H (utf8 a)).
  - apply (law_size_nn _ _ _ _ H (utf8 a)).
  - by apply (law_indicator _ _ _ _ H (utf8 a)).
Qed.

(** The contract lifts to [Option]: NULL is the single byte 1, and has no
    NOT NULL form. *)
Lemma option_lawful {A} (T : ToHyperBinary A) ok enc enc_nn :
  lawful T ok enc enc_nn ->
  lawful (option_codec T) (fun v => forall a, v = Some a -> ok a) (enc_option enc)
    (fun v => match v with Some a => enc_nn a | None => None end).
Proof.
  intros H. constructor; intros [a |]; intros; cbn;
    try (apply H; naive_solver); try done. by eexists.
Qed.

(** ** Lemmas on the readers *)

Lemma u_of_le_cons b bs :
  is_byte b -> Forall is_byte bs -> u_of_le (b :: bs) = b + 256 * u_of_le bs.
Proof.
  intros Hb Hbs. change (u_of_le (b :: bs)) with (Z.lor b (Z.shiftl (u_of_le bs) 8)).
  assert (Hl : Z.land b (Z.shiftl (u_of_le bs) 8) = 0).
  { apply Z.bits_inj'. intros n Hn. rewrite Z.land_spec, Z.bits_0.
    destruct (Z.lt_ge_cases n 8).
    - rewrite Z.shiftl_spec_low by lia. apply andb_false_r.
    - rewrite (Z.bits_above_log2 b n); [done | unfold is_byte in Hb; lia |].
      destruct (Z.eq_dec b 0) as [-> |]; [simpl; lia |].
      assert (Z.log2 b < 8); [| lia]. apply Z.log2_lt_pow2; unfold is_byte in Hb; lia. }
  rewrite <- Z.lxor_lor, <- Z.add_nocarry_lxor by done. rewrite Z.shiftl_mul_pow2 by lia. lia.
Qed.

(** Bytes that look like number text are between ['+'] and ['9']. *)
Lemma text_byte_range b : int_text_byte b = true -> 43 <= b <= 57.
Proof.
  unfold int_text_byte, is_digit. rewrite !orb_true_iff, andb_true_iff, !Z.leb_le, !Z.eqb_eq. lia.
Qed.

Lemma text_bytes_range bs : forallb int_text_byte bs = true -> Forall (fun b => 43 <= b <= 57) bs.
Proof.
  induction bs as [| b bs IH]; [done |]. simpl. intros [Hb Hbs]%andb_true_iff.
  constructor; [by apply text_byte_range | by apply IH].
Qed.

(** So as a binary integer they are large, and not negative. *)
Lemma text_bytes_value bs :
  Forall (fun b => 43 <= b <= 57) bs -> bs <> [] ->
  43 * 256 ^ (Z.of_nat (length bs) - 1) <= i_of_le bs.
Proof.
  intros H Hne.
  assert (Hb : Forall is_byte bs) by (eapply Forall_impl; [| exact H]; unfold is_byte; lia).
  assert (Hu : 43 * 256 ^ (Z.of_nat (length bs) - 1) <= u_of_le bs < 58 * 256 ^ (Z.of_nat (length bs) - 1)).
  { clear - H Hne Hb. induction bs as [| b bs IH]; [done |].
    apply Forall_cons_1 in H as [Hb1 H]. apply Forall_cons_1 in Hb as [Hbb Hb].
    rewrite u_of_le_cons by done. destruct bs as [| b' bs].
    - change (u_of_le []) with 0. simpl. lia.
    - specialize (IH H ltac:(done) Hb). cbn [length] in *.
      replace (Z.of_nat (S (S (length bs))) - 1) with (Z.succ (Z.of_nat (S (length bs)) - 1)) by lia.
      rewrite Z.pow_succ_r by lia. unfold is_byte in Hbb. lia. }
  unfold i_of_le. rewrite wrap_i_id; [lia | destruct bs; simpl; [done | lia] |].
  unfold in_i. destruct bs as [| b bs]; [done |]. cbn [length] in *.
  replace (8 * Z.of_nat (S (length bs)) - 1) with (7 + 8 * (Z.of_nat (S (length bs)) - 1)) by lia.
  rewrite Z.pow_add_r, Z.pow_mul_r by lia. change (2 ^ 7) with 128. change (2 ^ 8) with 256.
  set (p := 256 ^ (Z.of_nat (S (length bs)) - 1)) in *. assert (0 < p) by (apply Z.pow_pos_nonneg; lia). lia.
Qed.

(** While as text their value has no more digits than bytes. *)
Lemma digits_val_bound acc s v :
  0 <= acc -> digits_val acc s = Some v -> 0 <= v < (acc + 1) * 10 ^ Z.of_nat (length s).
Proof.
  revert acc. induction s as [| c s IH]; intros acc Ha; simpl digits_val.
  { intros [= <-]. simpl. lia. }
  destruct (is_digit c) eqn:Hc; [| done]. intros Hv. unfold is_digit in Hc.
  apply andb_true_iff in Hc as [H1%Z.leb_le H2%Z.leb_le].
  apply IH in Hv; [| lia]. cbn [length]. rewrite Nat2Z.inj_succ, Z.pow_succ_r by lia.
  assert (0 < 10 ^ Z.of_nat (length s)) by (apply Z.pow_pos_nonneg; lia). nia.
Qed.

Lemma parse_i_bound w s z : parse_i w s = Some z -> - 10 ^ Z.of_nat (length s) < z < 10 ^ Z.of_nat (length s).
Proof.
  unfold parse_i.
  assert (Hd : forall s' neg, (length s' <= length s)%nat ->
    match s' with
    | [] => None
    | _ => v ← digits_val 0 s'; let z := if neg : bool then - v else v in if in_ib w z then Some z else None
    end = Some z -> - 10 ^ Z.of_nat (length s) < z < 10 ^ Z.of_nat (length s)).
  { intros s' neg Hl. destruct s' as [| c s']; [done |].
    intros (v & Hv & Hz)%bind_Some. apply digits_val_bound in Hv; [| lia].
    assert (10 ^ Z.of_nat (length (c :: s')) <= 10 ^ Z.of_nat (length s)) by (apply Z.pow_le_mono_r; lia).
    cbv zeta in Hz. destruct neg, (in_ib w _); simplify_eq; lia. }
  destruct s as [| c s]; [done |].
  destruct (c =? 45); [| destruct (c =? 43)].
  - apply (Hd s true). simpl. lia.
  - apply (Hd s false). simpl. lia.
  - apply (Hd (c :: s) false). simpl. lia.
Qed.

Lemma trim_text s : Forall (fun b => 43 <= b <= 57) s -> trim s = s.
Proof.
  intros H. apply trim_id. eapply Forall_impl; [| exact H]. intros c Hc. cbv beta in Hc.
  destruct (is_whitespace c) eqn:E; [| done]. unfold is_whitespace in E.
  rewrite !orb_true_iff, !andb_true_iff, !Z.leb_le, !Z.eqb_eq in E. lia.
Qed.

(** The text bytes of an integer, and reading them as one. *)
Lemma fmt_i_bytes z : Forall (fun b => 43 <= b <= 57) (fmt_i z) /\ fmt_i z <> [].
Proof.
  unfold fmt_i. destruct (Z.ltb_spec z 0).
  - split; [| done]. constructor; [lia |]. eapply Forall_impl; [| apply fmt_u_digits; lia]. simpl. lia.
  - split; [| by apply fmt_u_nonempty]. eapply Forall_impl; [| apply fmt_u_digits; lia]. simpl. lia.
Qed.

Lemma text_forallb s : Forall (fun b => b = 45 \/ 48 <= b <= 57) s -> forallb int_text_byte s = true.
Proof.
  induction 1 as [| c s Hc _ IH]; [done |]. simpl. rewrite IH, andb_true_r.
  unfold int_text_byte, is_digit. rewrite !orb_true_iff, andb_true_iff, !Z.leb_le, !Z.eqb_eq. lia.
Qed.

Lemma fmt_i_text z : forallb int_text_byte (fmt_i z) = true.
Proof.
  apply text_forallb. unfold fmt_i. destruct (Z.ltb_spec z 0).
  - constructor; [lia |]. eapply Forall_impl; [| apply fmt_u_digits; lia]. simpl. lia.
  - eapply Forall_impl; [| apply fmt_u_digits; lia]. simpl. lia.
Qed.

Lemma int_of_text_ascii w s :
  Forall (fun b => 43 <= b <= 57) s ->
  int_of_text w s = match parse_i w s with Some z => Ok z | None => Err ParseIntError end.
Proof.
  intros H. unfold int_of_text.
  assert (Ha : Forall is_ascii s) by (eapply Forall_impl; [| exact H]; unfold is_ascii; simpl; lia).
  rewrite <- (utf8_ascii s Ha), from_utf8_utf8 by (by apply is_ascii_char).
  rewrite (utf8_ascii s Ha). by rewrite trim_text.
Qed.

Lemma int_of_text_fmt w z : in_i w z -> int_of_text w (fmt_i z) = Ok z.
Proof. intros H. rewrite int_of_text_ascii by apply fmt_i_bytes. by rewrite parse_i_fmt_i. Qed.

(** Text that looks binary is never read as the number it spells. *)
Lemma text_not_binary w s z :
  Forall (fun b => 43 <= b <= 57) s -> s <> [] -> int_of_text w s = Ok z -> i_of_le s <> z.
Proof.
  intros H Hne Ht Heq. rewrite int_of_text_ascii in Ht by done.
  destruct (parse_i w s) as [v |] eqn:Hp; [| done]. injection Ht as ->.
  apply parse_i_bound in Hp. pose proof (text_bytes_value s H Hne) as Hv. rewrite Heq in Hv.
  assert (10 ^ Z.of_nat (length s) <= 43 * 256 ^ (Z.of_nat (length s) - 1)); [| lia].
  destruct s as [| c s]; [done |]. cbn [length].
  replace (Z.of_nat (S (length s)) - 1) with (Z.of_nat (length s)) by lia.
  rewrite Nat2Z.inj_succ, Z.pow_succ_r by lia.
  assert (10 ^ Z.of_nat (length s) <= 256 ^ Z.of_nat (length s)) by (apply Z.pow_le_mono_l; lia).
  assert (0 < 10 ^ Z.of_nat (length s)) by (apply Z.pow_pos_nonneg; lia). lia.
Qed.

(** ** Properties *)

(** Every writer keeps its contract: it appends exactly the value's
    encoding, the size methods give its length in both forms, and the nullable
    form is the indicator 0 before the NOT NULL form; and [Option] keeps the
    contract of any implementation, writing NULL as the single byte 1 and
    refusing it in a NOT NULL column. *)
Theorem codecs_lawful :
  lawful bool_codec (fun _ => True) enc_bool (fun b => Some [if b then 1 else 0]) /\
  (forall n, lawful (le_codec n) (fun _ => True) (enc_le n) (fun z => Some (to_le n z))) /\
  lawful bytes_codec fits_u32 enc_bytes (fun v => Some (to_le 4 (Z.of_nat (length v)) ++ v)) /\
  lawful str_codec (fun s => fits_u32 (utf8 s)) (fun s => enc_bytes (utf8 s))
    (fun s => Some (to_le 4 (Z.of_nat (length (utf8 s))) ++ utf8 s)) /\
  (forall A (T : ToHyperBinary A) ok enc enc_nn, lawful T ok enc enc_nn ->
   lawful (option_codec T) (fun v => forall a, v = Some a -> ok a) (enc_option enc)
     (fun v => match v with Some a => enc_nn a | None => None end)).
Proof.
  split_and!; [apply bool_lawful | apply le_lawful | apply prefixed_lawful | apply str_lawful |].
  intros A T ok enc enc_nn. apply option_lawful.
Qed.

(** What a nullable column's writer appends, the COPY reader takes back: for
    each column type both sides know, the bytes an [Option] appends decode, in
    front of anything, to the value or to NULL. *)
Theorem copy_reads_codecs usize_max rest :
  (forall v : option bool, HyperCopy.decode usize_max (mk_column TBool true) (enc_option enc_bool v ++ rest)
     = Some (from_option VBool VNull v, rest)) /\
  (forall v, (forall z, v = Some z -> in_i 16 z) ->
     HyperCopy.decode usize_max (mk_column TI16 true) (enc_option (enc_le 2) v ++ rest)
     = Some (from_option VI16 VNull v, rest)) /\
  (forall v, (forall z, v = Some z -> in_i 32 z) ->
     HyperCopy.decode usize_max (mk_column TI32 true) (enc_option (enc_le 4) v ++ rest)
     = Some (from_option VI32 VNull v, rest)) /\
  (forall v, (forall z, v = Some z -> in_i 64 z) ->
     HyperCopy.decode usize_max (mk_column TI64 true) (enc_option (enc_le 8) v ++ rest)
     = Some (from_option VI64 VNull v, rest)) /\
  (forall v, (forall bs, v = Some bs -> fits_u32 bs /\ 4 + Z.of_nat (length bs) <= usize_max) ->
     HyperCopy.decode usize_max (mk_column TVarbinary true) (enc_option enc_bytes v ++ rest)
     = Some (from_option VVarbinary VNull v, rest)).
Proof.
  split_and!.
  - intros [b |]; [| done]. by destruct b.
  - intros [z |] H; [| done]. apply (decode_encode usize_max (mk_column TI16 true) (VI16 z)). by apply H.
  - intros [z |] H; [| done]. apply (decode_encode usize_max (mk_column TI32 true) (VI32 z)). by apply H.
  - intros [z |] H; [| done]. apply (decode_encode usize_max (mk_column TI64 true) (VI64 z)). by apply H.
  - intros [bs |] H; [| done]. destruct (H bs eq_refl) as [Hf Hu].
    apply (decode_encode usize_max (mk_column TVarbinary true) (VVarbinary bs)).
    unfold fits_u32 in Hf. split; [unfold in_u; lia | exact Hu].
Qed.

(** A binary [i16] is always read back; a binary [i32] or [i64] is read back
    iff its bytes are not all digits and signs. When they are, the reader takes
    the value for text and never returns the number that was written. *)
Theorem int_binary_roundtrip z :
  (in_i 16 z -> i16_from (to_le 2 z) = Ok z) /\
  (in_i 32 z -> (i32_from (to_le 4 z) = Ok z <-> forallb int_text_byte (to_le 4 z) = false)) /\
  (in_i 64 z -> (i64_from (to_le 8 z) = Ok z <-> forallb int_text_byte (to_le 8 z) = false)).
Proof.
  split_and!; intros H; unfold i16_from, i32_from, i64_from; rewrite length_to_le; cbv zeta.
  - simpl. by rewrite i_of_le_to_le by (done || lia).
  - destruct (forallb int_text_byte (to_le 4 z)) eqn:Ht; cbn [orb negb Nat.eqb].
    + split; [| done]. intros Ho. exfalso.
      apply text_not_binary in Ho; [| by apply text_bytes_range | done].
      apply Ho, i_of_le_to_le; [lia | done].
    + split; [done |]. by rewrite i_of_le_to_le by (done || lia).
  - destruct (forallb int_text_byte (to_le 8 z)) eqn:Ht; cbn [orb negb Nat.eqb].
    + split; [| done]. intros Ho. exfalso.
      apply text_not_binary in Ho; [| by apply text_bytes_range | done].
      apply Ho, i_of_le_to_le; [lia | done].
    + split; [done |]. by rewrite i_of_le_to_le by (done || lia).
Qed.

(** A binary [i8] is read back iff it is not negative: a negative one is a
    byte above 127, which the reader hands to the text parser, and that is not
    UTF-8. *)
Theorem i8_binary_roundtrip z :
  in_i 8 z ->
  (0 <= z -> i8_from (to_le 1 z) = Ok z) /\ (z < 0 -> i8_from (to_le 1 z) = Err Utf8Error).
Proof.
  intros H. assert (Hb : to_le 1 z = [wrap_u 8 z]).
  { rewrite <- (to_le_wrap_u 1). change (8 * Z.of_nat 1) with 8.
    pose proof (wrap_u_range 8 z ltac:(lia)) as Hw. set (u := wrap_u 8 z) in *.
    change (to_le 1 u) with [Z.land u (Z.ones 8)]. f_equal.
    rewrite Z.land_ones by lia. apply Z.mod_small, Hw. }
  rewrite Hb. unfold i8_from. unfold in_i in H. simpl in H. split; intros Hz.
  - rewrite wrap_u_id by (unfold in_u; lia). destruct (Z.leb_spec z 127); [done | lia].
  - unfold wrap_u. rewrite <- (Z.mod_add z 1 (2 ^ 8)) by lia. rewrite Z.mod_small by lia.
    cond. unfold int_of_text, from_utf8. cbn [length from_utf8_fuel].
    unfold decode_char. repeat case_match; done || lia.
Qed.

(** Text integers: every [i32] and [i64] printed in decimal is read back; an
    [i16] iff it is not printed with two characters, and an [i8] iff it is not
    printed with one, because there the reader assumes the binary form. *)
Theorem int_text_roundtrip z :
  (in_i 32 z -> i32_from (fmt_i z) = Ok z) /\
  (in_i 64 z -> i64_from (fmt_i z) = Ok z) /\
  (in_i 16 z -> (i16_from (fmt_i z) = Ok z <-> length (fmt_i z) <> 2%nat)) /\
  (in_i 8 z -> (i8_from (fmt_i z) = Ok z <-> length (fmt_i z) <> 1%nat)).
Proof.
  split_and!; intros H.
  - unfold i32_from. rewrite fmt_i_text. by apply int_of_text_fmt.
  - unfold i64_from. rewrite fmt_i_text. by apply int_of_text_fmt.
  - unfold i16_from. destruct (Nat.eqb_spec (length (fmt_i z)) 2); split; intros Hx; try done.
    + injection Hx as Hx. exfalso.
      apply (text_not_binary 16 (fmt_i z) z); [apply fmt_i_bytes .. | by apply int_of_text_fmt | done].
    + by apply int_of_text_fmt.
  - pose proof (fmt_i_bytes z) as [Hf Hne]. pose proof (int_of_text_fmt 8 z H) as Ht.
    pose proof (text_not_binary 8 _ z Hf Hne Ht) as Hnb.
    destruct (fmt_i z) as [| c [| c' s]]; [done | |].
    + apply Forall_cons_1 in Hf as [Hc _]. unfold i8_from. cond. split; [| done].
      intros [= ->]. exfalso. apply Hnb. unfold i_of_le. rewrite u_of_le_cons by (done || byte_solve).
      change (u_of_le []) with 0. rewrite wrap_i_id; [lia | simpl; lia | unfold in_i; simpl; lia].
    + unfold i8_from. by rewrite Ht.
Qed.

(** The length prefix of a value, read back. *)
Lemma take_prefix (bs rest : list Z) usize_max :
  fits_u32 bs -> 2 ^ 32 - 1 <= usize_max ->
  u_of_le (take 4 (to_le 4 (Z.of_nat (length bs)) ++ bs ++ rest)) `mod` (usize_max + 1)
  = Z.of_nat (length bs).
Proof.
  intros Hf Hu. unfold fits_u32 in Hf. rewrite take_app_exact by apply length_to_le.
  rewrite u_of_le_to_le, wrap_u_id by (unfold in_u; simpl; lia). apply Z.mod_small. lia.
Qed.

(** Length-prefixed text: [text_from_hyper_binary] returns [s] iff the buffer is
    what [text_to_hyper_binary] writes for it, followed by anything; a declared
    length past the end and bytes that are not UTF-8 are errors. *)
Theorem text_prefixed_exact usize_max buf s :
  Forall is_byte buf -> 2 ^ 32 - 1 <= usize_max ->
  (Protocol.text_from_hyper_binary usize_max buf = Ok s <->
   exists bytes rest, Forall is_char s /\ Protocol.text_to_hyper_binary s [] = Val bytes /\
     buf = bytes ++ rest).
Proof.
  intros Hb Hu. unfold Protocol.text_from_hyper_binary, Protocol.text_to_hyper_binary, Protocol.hb_len.
  split.
  - cond; [done |]. cbv zeta.
    assert (Hr : in_u 32 (u_of_le (take 4 buf))).
    { pose proof (u_of_le_range (take 4 buf) ltac:(by apply Forall_take)) as Hr.
      by rewrite length_take, Nat.min_l in Hr by lia. }
    rewrite (Z.mod_small (u_of_le _)) by (unfold in_u in Hr; lia).
    destruct (Z.leb_spec (u_of_le (take 4 buf)) (Z.of_nat (length (drop 4 buf)))) as [Hl |]; [| done].
    destruct (from_utf8 _) as [t |] eqn:Ht; [| done]. intros [= ->].
    apply from_utf8_sound in Ht as [Hc Ht]; [| by apply Forall_take, Forall_drop].
    assert (Hlen : Z.of_nat (length (utf8 s)) = u_of_le (take 4 buf)).
    { rewrite <- Ht, length_take, Nat.min_l by lia. rewrite Z2Nat.id; [done | apply Hr]. }
    exists (take 4 buf ++ utf8 s), (drop (length (utf8 s)) (drop 4 buf)). split_and!; [done | |].
    + rewrite Hlen, (proj2 (in_ub_spec 32 _) Hr). cbn [outcome_bind app].
      replace 4%nat with (length (take 4 buf)) at 1 by (rewrite length_take; lia).
      by rewrite to_le_u_of_le by (by apply Forall_take).
    + rewrite <- (take_drop 4 buf) at 1. rewrite <- app_assoc. f_equal.
      replace (length (utf8 s)) with (Z.to_nat (u_of_le (take 4 buf))) by lia.
      rewrite <- Ht. by rewrite take_drop.
  - intros (bytes & rest & Hc & Hw & ->). destruct (in_ub 32 _) eqn:Hi; [| done].
    apply in_ub_spec in Hi. cbn [outcome_bind] in Hw. rewrite app_nil_l in Hw.
    assert (bytes = to_le 4 (Z.of_nat (length (utf8 s))) ++ utf8 s) as -> by congruence.
    rewrite <- app_assoc. rewrite take_prefix by (done || (unfold fits_u32, in_u in *; lia)).
    rewrite (drop_app_exact (to_le 4 _)) by apply length_to_le.
    rewrite !length_app, length_to_le. conds. rewrite Nat2Z.id, take_app_length.
    by rewrite from_utf8_utf8.
Qed.

