(* ===== verification/SqlClassify.v ===== *)
(** * SQL classification ([hyperdb-mcp/src/sql_classify.rs])

    The read-only tools run a statement only when [is_read_only_sql] accepts it.
    The lexer works on the bytes of the text; a position [i] is the list of the
    bytes from it, so a helper that returns a new position returns the bytes
    left. Loops have fuel, one unit per byte or per token, and running out of it
    is a [Panic], like slicing a [str] inside a character: the properties show
    that neither happens. *)

From stdpp Require Import strings.
From S2P Require Import Prelude Text.

(** ** Data *)

Inductive StatementKind : Type := ReadOnly | Ddl | Dml | TransactionControl | KOther.

#[export] Instance StatementKind_eq_dec : EqDecision StatementKind.
Proof. solve_decision. Defined.

(** A word is its bytes, ASCII-uppercased. *)
Inductive Item : Type :=
| Word (w : list Z)
| Group (items : list Item)
| Semicolon
| Other.

Definition READ_ONLY_KEYWORDS : list (list Z) := str <$> ["SELECT"; "VALUES"; "TABLE"]%string.
Definition DML_KEYWORDS : list (list Z) :=
  str <$> ["INSERT"; "UPDATE"; "DELETE"; "MERGE"; "COPY"]%string.

Definition MAX_GROUP_DEPTH : nat := 256.

(** ** Classification of the items *)

Definition one_of (w : list Z) (l : list (list Z)) : bool := bool_decide (w ∈ l).

Definition is_word (w : list Z) (i : Item) : bool :=
  match i with
  | Word v => bool_decide (v = w)
  | _ => false
  end.

Definition classify_query (items : list Item) : StatementKind :=
  if existsb (is_word (str "INTO")) items then Dml else ReadOnly.

Definition is_bare_explain_option (i : Item) : bool :=
  match i with
  | Word w => one_of w (str <$> ["ANALYZE"; "ANALYSE"; "VERBOSE"]%string)
  | _ => false
  end.

(** [items.iter().position(|i| matches!(i, Item::Semicolon))], as the items before
    it and after it. *)
Fixpoint split_semicolon (items : list Item) : list Item * list Item :=
  match items with
  | [] => ([], [])
  | Semicolon :: rest => ([], rest)
  | i :: items => let '(a, b) := split_semicolon items in (i :: a, b)
  end.

Section classify.
Context (classify_single : list Item -> StatementKind).

Definition classify_items_with (items : list Item) : StatementKind :=
  let '(statement, rest) := split_semicolon items in
  match rest with
  | [] => classify_single statement
  | _ => KOther
  end.

(** The loop of [classify_with], with its flag. *)
Fixpoint classify_with_loop (items : list Item) (saw_read_only_group : bool) : StatementKind :=
  match items with
  | [] => if saw_read_only_group then ReadOnly else KOther
  | Word word :: rest =>
      if one_of word READ_ONLY_KEYWORDS then classify_query rest
      else if one_of word DML_KEYWORDS then Dml
      else classify_with_loop rest saw_read_only_group
  | Group inner :: rest =>
      match classify_items_with inner with
      | ReadOnly => classify_with_loop rest true
      | KOther => classify_with_loop rest saw_read_only_group
      | kind => kind
      end
  | _ :: rest => classify_with_loop rest saw_read_only_group
  end.

Definition classify_with (items : list Item) : StatementKind := classify_with_loop items false.

(** [&items[options..]], for [options] the leading bare options. *)
Fixpoint skip_bare_options (items : list Item) : list Item :=
  match items with
  | i :: rest => if is_bare_explain_option i then skip_bare_options rest else items
  | [] => []
  end.

Definition classify_explain (items : list Item) : StatementKind :=
  match items with
  | [] => KOther
  | Group _ :: rest => classify_single rest
  | first :: _ =>
      if is_bare_explain_option first then classify_single (skip_bare_options items)
      else ReadOnly
  end.

(** The body of [classify_single], [classify_single] itself being the recursive
    calls. *)
Definition classify_single_body (items : list Item) : StatementKind :=
  match items with
  | Group inner :: _ => classify_items_with inner
  | Word word :: rest =>
      if one_of word (str <$> ["SELECT"; "VALUES"; "TABLE"]%string) then classify_query rest
      else if one_of word [str "SHOW"] then ReadOnly
      else if one_of word [str "WITH"] then classify_with rest
      else if one_of word [str "EXPLAIN"] then classify_explain rest
      else if one_of word (str <$> ["CREATE"; "DROP"; "ALTER"; "TRUNCATE"; "RENAME"]%string) then Ddl
      else if one_of word (str <$> ["INSERT"; "UPDATE"; "DELETE"; "COPY"; "MERGE"]%string) then Dml
      else if one_of word (str <$> ["BEGIN"; "START"; "COMMIT"; "END"; "ROLLBACK"; "ABORT";
                                    "SAVEPOINT"; "RELEASE"]%string) then TransactionControl
      else KOther
  | _ => KOther
  end.

End classify.

(** Every recursive call is on fewer items, nested ones counted. *)
Fixpoint item_size (i : Item) : nat :=
  match i with
  | Group items => S (list_sum (item_size <$> items))
  | _ => 1
  end.

Definition items_size (items : list Item) : nat := list_sum (item_size <$> items).

Fixpoint classify_single_fuel (fuel : nat) (items : list Item) : StatementKind :=
  match fuel with
  | O => KOther
  | S fuel => classify_single_body (classify_single_fuel fuel) items
  end.

Definition classify_single (items : list Item) : StatementKind :=
  classify_single_fuel (S (items_size items)) items.

Definition classify_items (items : list Item) : StatementKind :=
  classify_items_with classify_single items.

(** ** The lexer *)

Definition is_unicode_whitespace (c : Z) : bool :=
  (c =? 0xA0) || ((0x2000 <=? c) && (c <=? 0x200F)) || (c =? 0x2028) || (c =? 0x2029)
  || (c =? 0x3000) || (c =? 0xFEFF).

Definition is_ascii_alphabetic (b : Z) : bool :=
  ((65 <=? b) && (b <=? 90)) || ((97 <=? b) && (b <=? 122)).

Definition is_ascii_alphanumeric (b : Z) : bool := is_ascii_alphabetic b || is_digit b.

(** [to_ascii_uppercase]. *)
Definition to_ascii_uppercase (s : list Z) : list Z :=
  (fun b => if (97 <=? b) && (b <=? 122) then b - 32 else b) <$> s.

(** [find], for a needle that is not empty: the offset of its first
    occurrence. *)
Fixpoint find (haystack needle : list Z) : option nat :=
  if bool_decide (take (length needle) haystack = needle) then Some 0%nat
  else match haystack with
       | [] => None
       | _ :: rest => S <$> find rest needle
       end.

(** The bytes from the first newline. *)
Fixpoint from_newline (bytes : list Z) : list Z :=
  match bytes with
  | [] => []
  | b :: rest => if (b =? 10) || (b =? 13) then bytes else from_newline rest
  end.

Fixpoint skip_identifier (fuel : nat) (bytes : list Z) : outcome (list Z) :=
  match bytes with
  | [] => Val []
  | b :: rest =>
      match fuel with
      | O => Panic
      | S fuel =>
          if is_ascii_alphanumeric b || (b =? 95) then skip_identifier fuel rest
          else if b <? 128 then Val bytes
          else
            match decode_char bytes with
            | None => Panic
            | Some (c, rest) =>
                if negb (is_unicode_whitespace c) then skip_identifier fuel rest else Val bytes
            end
      end
  end.

Fixpoint string_continuation (fuel : nat) (bytes : list Z) (had_newline : bool) :
    outcome (option (list Z)) :=
  match bytes with
  | [] => Val None
  | b :: rest =>
      match fuel with
      | O => Panic
      | S fuel =>
          if (b =? 32) || (b =? 9) || (b =? 0x0C) then string_continuation fuel rest had_newline
          else if (b =? 10) || (b =? 13) then string_continuation fuel rest true
          else if b =? 39 then Val (if had_newline then Some rest else None)
          else
            match b, rest with
            | 45, 45 :: rest => string_continuation fuel (from_newline rest) true
            | 47, 42 :: rest =>
                match find rest [42; 47] with
                | None => Val None
                | Some pos => string_continuation fuel (drop (pos + 2) rest) true
                end
            | _, _ => Val None
            end
      end
  end.

Fixpoint skip_string (fuel : nat) (bytes : list Z) (escapes : bool) : outcome (option (list Z)) :=
  match bytes with
  | [] => Val None
  | b :: rest =>
      match fuel with
      | O => Panic
      | S fuel =>
          if b =? 39 then
            match rest with
            | 39 :: rest => skip_string fuel rest escapes
            | _ =>
                let! continuation := string_continuation (length rest) rest false in
                match continuation with
                | Some next => skip_string fuel next escapes
                | None => Val (Some rest)
                end
            end
          else
            match escapes && (b =? 92), rest with
            | true, _ :: rest => skip_string fuel rest escapes
            | _, _ => skip_string fuel rest escapes
            end
      end
  end.

Fixpoint skip_quoted_identifier (bytes : list Z) : option (list Z) :=
  match bytes with
  | [] => None
  | b :: rest =>
      if b =? 34 then
        match rest with
        | 34 :: rest => skip_quoted_identifier rest
        | _ => Some rest
        end
      else skip_quoted_identifier rest
  end.

(** [bytes] starts at the opening [$]. *)
Definition skip_dollar_quote (bytes : list Z) : option (list Z) :=
  pos ← memchr 36 (drop 1 bytes);
  let tag_end := (1 + pos)%nat in
  let marker := take (tag_end + 1) bytes in
  let body := drop (tag_end + 1) bytes in
  pos ← find body marker;
  Some (drop (pos + length marker) body).

Fixpoint skip_while (f : Z -> bool) (bytes : list Z) : list Z :=
  match bytes with
  | [] => []
  | b :: rest => if f b then skip_while f rest else bytes
  end.

(** What one turn of the loop in [parse] finds: nothing, a parenthesis, or an
    item; with the bytes left. *)
Inductive step : Type :=
| Skip (rest : list Z)
| OpenParen (rest : list Z)
| CloseParen (rest : list Z)
| Token (item : Item) (rest : list Z).

(** [Item::Other] up to where a helper says, if it says. *)
Definition other_to (r : outcome (option (list Z))) : outcome (option step) :=
  let! r := r in Val (Token Other <$> r).

Definition is_space (b : Z) : bool := ((9 <=? b) && (b <=? 13)) || (b =? 32).

(** The arm of an identifier or keyword, from its first byte. *)
Definition word_at (bytes : list Z) : outcome (option step) :=
  let! rest := skip_identifier (length bytes) bytes in
  Val (Some (Token (Word (to_ascii_uppercase (take (length bytes - length rest) bytes))) rest)).

(** The [match b] of the loop, [bytes] being [b :: rest]. *)
Definition scan (b : Z) (rest : list Z) : outcome (option step) :=
  let bytes := b :: rest in
  let next := rest !! 0%nat in
  let next_is c := bool_decide (next = Some c) in
  if is_space b then Val (Some (Skip rest))
  else if (b =? 45) && next_is 45 then Val (Some (Skip (from_newline (drop 1 rest))))
  else if (b =? 47) && next_is 42 then
    Val (pos ← find (drop 1 rest) [42; 47]; Some (Skip (drop (pos + 2) (drop 1 rest))))
  else if b =? 40 then Val (Some (OpenParen rest))
  else if b =? 41 then Val (Some (CloseParen rest))
  else if b =? 59 then Val (Some (Token Semicolon rest))
  else if b =? 39 then other_to (skip_string (length rest) rest false)
  else if b =? 34 then other_to (Val (skip_quoted_identifier rest))
  else if (b =? 36) && match next with Some d => is_digit d | None => false end then
    Val (Some (Token Other (skip_while is_digit rest)))
  else if b =? 36 then other_to (Val (skip_dollar_quote bytes))
  else if b =? 92 then
    match rest with
    | c :: rest' =>
        if is_ascii_alphanumeric c || (c =? 63)
        then Val (Some (Token Other (skip_while is_ascii_alphanumeric rest')))
        else Val (Some (Token Other rest))
    | [] => Val (Some (Token Other rest))
    end
  else if ((b =? 101) || (b =? 69)) && next_is 39 then
    other_to (skip_string (length rest) (drop 1 rest) true)
  else if is_ascii_alphabetic b || (b =? 95) then word_at bytes
  else if b <? 128 then Val (Some (Token Other rest))
  else
    match decode_char bytes with
    | None => Panic
    | Some (c, rest') =>
        if is_unicode_whitespace c then Val (Some (Skip rest')) else word_at bytes
    end.

(** [stack.last_mut()?.push(item)]; the top of the stack is the head. *)
Definition push_item (item : Item) (stack : list (list Item)) : option (list (list Item)) :=
  match stack with
  | [] => None
  | top :: stack => Some ((top ++ [item]) :: stack)
  end.

(** A turn of the loop: the new stack and the bytes left. *)
Definition lex_step (stack : list (list Item)) (b : Z) (rest : list Z) :
    outcome (option (list (list Item) * list Z)) :=
  let! s := scan b rest in
  Val match s with
  | None => None
  | Some (Skip rest) => Some (stack, rest)
  | Some (OpenParen rest) =>
      if (MAX_GROUP_DEPTH <? length stack)%nat then None else Some ([] :: stack, rest)
  | Some (CloseParen rest) =>
      match stack with
      | [] => None
      | group :: stack => stack ← push_item (Group group) stack; Some (stack, rest)
      end
  | Some (Token item rest) => stack ← push_item item stack; Some (stack, rest)
  end.

Fixpoint lex (fuel : nat) (stack : list (list Item)) (bytes : list Z) :
    outcome (option (list Item)) :=
  match bytes with
  | [] => Val match stack with [root] => Some root | _ => None end
  | b :: rest =>
      match fuel with
      | O => Panic
      | S fuel =>
          let! r := lex_step stack b rest in
          match r with
          | None => Val None
          | Some (stack, bytes) => lex fuel stack bytes
          end
      end
  end.

Definition parse (sql : list Z) : outcome (option (list Item)) :=
  lex (length (utf8 sql)) [[]] (utf8 sql).

Definition classify_statement (sql : list Z) : outcome StatementKind :=
  let! items := parse sql in
  Val match items with
  | Some items => classify_items items
  | None => KOther
  end.

Definition is_read_only_sql (sql : list Z) : outcome bool :=
  let! kind := classify_statement sql in Val (bool_decide (kind = ReadOnly)).

(** ** Positions inside a [str] *)

(** The bytes of a [str], as from a character boundary. *)
Definition valid (bytes : list Z) : Prop := exists s, Forall is_char s /\ bytes = utf8 s.

Lemma encode_char_high c : is_char c -> 128 <= c -> Forall (fun b => 128 <= b) (encode_char c).
Proof.
  intros Hc H. unfold encode_char, is_char in *.
  repeat case_match; repeat constructor; try (Z.div_mod_to_equations; lia).
Qed.

(** An ASCII byte is a char of its own: the text splits around it. *)
Lemma utf8_split_ascii s pre b post :
  Forall is_char s -> is_ascii b -> utf8 s = pre ++ b :: post ->
  exists s1 s2, s = s1 ++ b :: s2 /\ pre = utf8 s1 /\ post = utf8 s2.
Proof.
  intros Hs Hb. revert pre. induction Hs as [| c s Hc Hs IH]; intros pre Heq.
  { by destruct pre. }
  change (utf8 (c :: s)) with (encode_char c ++ utf8 s) in Heq. unfold is_ascii in Hb.
  destruct (Z.ltb_spec c 128) as [Hlt | Hge].
  - assert (He : encode_char c = [c]) by (unfold encode_char; by bool_eval). rewrite He in Heq.
    destruct pre as [| x pre]; simpl in Heq; injection Heq as -> Heq.
    + by exists [], s.
    + destruct (IH pre Heq) as (s1 & s2 & -> & -> & ->). exists (x :: s1), s2.
      split_and!; [done | | done]. change (utf8 (x :: s1)) with (encode_char x ++ utf8 s1). by rewrite He.
  - pose proof (encode_char_high c Hc Hge) as Hh.
    apply app_eq_app in Heq as (l & [[Hl1 Hl2] | [Hl1 Hl2]]).
    + destruct l as [| x l].
      * rewrite app_nil_r in Hl1. simpl in Hl2.
        destruct (IH [] (eq_sym Hl2)) as (s1 & s2 & -> & Hp & ->). exists (c :: s1), s2.
        split_and!; [done | | done]. change (utf8 (c :: s1)) with (encode_char c ++ utf8 s1).
        by rewrite <- Hp, app_nil_r.
      * injection Hl2 as <- _. rewrite Hl1 in Hh. apply Forall_app in Hh as [_ Hh].
        apply Forall_cons_1 in Hh as [Hh _]. lia.
    + destruct (IH l Hl2) as (s1 & s2 & -> & -> & ->). exists (c :: s1), s2.
      split_and!; [done | | done]. rewrite Hl1. done.
Qed.

Lemma valid_split pre b post :
  valid (pre ++ b :: post) -> is_ascii b -> valid (b :: post) /\ valid post.
Proof.
  intros (s & Hs & Heq) Hb. destruct (utf8_split_ascii s pre b post Hs Hb (eq_sym Heq)) as (s1 & s2 & -> & _ & ->).
  apply Forall_app in Hs as [_ Hs]. split; [exists (b :: s2) | exists s2]; split; try done.
  - change (utf8 (b :: s2)) with (encode_char b ++ utf8 s2).
    unfold encode_char, is_ascii in *. by bool_eval.
  - by apply Forall_cons_1 in Hs as [_ ?].
Qed.

Lemma valid_cons b rest : valid (b :: rest) -> is_ascii b -> valid rest.
Proof. intros H Hb. by apply (valid_split [] b rest). Qed.

(** At a boundary there is a char, of at least one byte. *)
Lemma valid_decode b rest :
  valid (b :: rest) ->
  0 <= b /\ exists c rest', decode_char (b :: rest) = Some (c, rest') /\ valid rest' /\
    (length rest' <= length rest)%nat.
Proof.
  intros (s & Hs & Heq). destruct s as [| c s]; [done |]. apply Forall_cons_1 in Hs as [Hc Hs].
  change (utf8 (c :: s)) with (encode_char c ++ utf8 s) in Heq.
  assert (Hb : Forall is_byte (encode_char c)) by (by apply encode_char_bytes).
  destruct (encode_char_cons c) as (x & xs & Hx). split.
  - rewrite Hx in Heq, Hb. injection Heq as -> _. apply Forall_cons_1 in Hb as [Hb _]. apply Hb.
  - exists c, (utf8 s). rewrite Heq. rewrite decode_encode_char by done.
    split_and!; [done | by exists s |]. apply (f_equal length) in Heq.
    rewrite Hx in Heq. simpl in Heq. rewrite length_app in Heq. lia.
Qed.

(** [after bytes r]: [r] is what follows some ASCII byte of [bytes]. *)
Definition after (bytes r : list Z) : Prop := exists pre b, bytes = pre ++ b :: r /\ is_ascii b.

Lemma after_valid bytes r : valid bytes -> after bytes r -> valid r /\ (length r < length bytes)%nat.
Proof.
  intros Hv (pre & b & -> & Hb). split; [by apply (valid_split pre b r) |].
  rewrite length_app. simpl. lia.
Qed.

Lemma after_here b r : is_ascii b -> after (b :: r) r.
Proof. intros H. by exists [], b. Qed.

Lemma after_cons b bytes r : after bytes r -> after (b :: bytes) r.
Proof. intros (pre & x & -> & Hx). by exists (b :: pre), x. Qed.

Lemma after_drop n bytes r : after (drop n bytes) r -> after bytes r.
Proof.
  intros (pre & x & H & Hx). exists (take n bytes ++ pre), x. split; [| done].
  by rewrite <- app_assoc, <- H, take_drop.
Qed.

Lemma after_trans a b c : after a b -> after b c -> after a c.
Proof.
  intros (p & x & -> & Hx) (q & y & -> & Hy). exists (p ++ x :: q), y.
  split; [by rewrite <- app_assoc | done].
Qed.

Lemma after_length a r : after a r -> (length r < length a)%nat.
Proof. intros (p & x & -> & _). rewrite length_app. simpl. lia. Qed.

(** What [find] finds. *)
Lemma find_some haystack needle n :
  find haystack needle = Some n ->
  exists post, haystack = take n haystack ++ needle ++ post /\ length (take n haystack) = n.
Proof.
  revert n. induction haystack as [| b h IH]; intros n; simpl.
  - rewrite take_nil. case_bool_decide as H; [| done]. intros [= <-]. exists []. by subst needle.
  - case_bool_decide as H.
    + intros [= <-]. exists (drop (length needle) (b :: h)). rewrite <- H at 1. simpl.
      by rewrite take_drop.
    + intros (m & Hm & ->)%fmap_Some. destruct (IH m Hm) as (post & Hp & Hl).
      exists post. simpl. split; [by f_equal | by f_equal].
Qed.

(** The bytes after a needle that ends in an ASCII byte. *)
Lemma find_after haystack needle x n :
  find haystack (needle ++ [x]) = Some n -> is_ascii x ->
  after haystack (drop (n + length (needle ++ [x])) haystack).
Proof.
  intros (post & Hp & Hl)%find_some Hx.
  exists (take n haystack ++ needle), x. split; [| done].
  assert (Hd : drop (n + length (needle ++ [x])) haystack = post).
  { rewrite Hp at 1. rewrite app_assoc. apply drop_app_exact. rewrite length_app. lia. }
  rewrite Hd. rewrite Hp at 1. by rewrite <- !app_assoc.
Qed.

Lemma from_newline_suffix bytes :
  exists pre, bytes = pre ++ from_newline bytes /\
    match from_newline bytes with [] => True | b :: _ => is_ascii b end.
Proof.
  induction bytes as [| b bytes IH]; [by exists [] |]. simpl.
  destruct ((b =? 10) || (b =? 13)) eqn:Hb.
  - exists []. split; [done |]. apply orb_true_iff in Hb. unfold is_ascii.
    destruct Hb as [Hb%Z.eqb_eq | Hb%Z.eqb_eq]; lia.
  - destruct IH as (pre & Hp & Hm). exists (b :: pre). split; [simpl; by f_equal | done].
Qed.

Lemma from_newline_valid bytes :
  valid bytes -> valid (from_newline bytes) /\ (length (from_newline bytes) <= length bytes)%nat.
Proof.
  intros Hv. destruct (from_newline_suffix bytes) as (pre & Hp & Hm). split.
  - destruct (from_newline bytes) as [| b r]; [by exists [] |].
    rewrite Hp in Hv. by apply (valid_split pre b r).
  - rewrite Hp at 2. rewrite length_app. lia.
Qed.

Lemma after_newline a bytes r : after (from_newline bytes) r -> after (a :: bytes) r.
Proof.
  destruct (from_newline_suffix bytes) as (pre & Hp & _). intros (q & x & Hq & Hx).
  exists (a :: pre ++ q), x. split; [| done]. rewrite Hp, Hq. simpl. by rewrite <- app_assoc.
Qed.

Lemma from_newline_length bytes : (length (from_newline bytes) <= length bytes)%nat.
Proof.
  destruct (from_newline_suffix bytes) as (pre & Hp & _). rewrite Hp at 2. rewrite length_app. lia.
Qed.

(** ** The helpers stop, at a boundary *)

(** A match on literal bytes, in its default case [H]. *)
Ltac other_byte c H :=
  let p := fresh in
  destruct c as [| p | p]; try exact H; repeat (destruct p as [p | p |]; try exact H); lia.


Lemma string_continuation_after fuel bytes nl :
  (length bytes <= fuel)%nat ->
  exists r, string_continuation fuel bytes nl = Val r /\ forall next, r = Some next -> after bytes next.
Proof.
  revert bytes nl. induction fuel as [| fuel IH]; intros bytes nl Hf.
  { destruct bytes; [| simpl in Hf; lia]. by exists None. }
  destruct bytes as [| b rest]; [by exists None |]. simpl in Hf. cbn [string_continuation].
  destruct ((b =? 32) || (b =? 9) || (b =? 0x0C)).
  { destruct (IH rest nl) as (r & -> & Hr); [lia |]. exists r. split; [done |].
    intros next ->. by apply after_cons, Hr. }
  destruct ((b =? 10) || (b =? 13)).
  { destruct (IH rest true) as (r & -> & Hr); [lia |]. exists r. split; [done |].
    intros next ->. by apply after_cons, Hr. }
  destruct (Z.eqb_spec b 39) as [-> |].
  { eexists. split; [done |]. intros next. destruct nl; [| done]. intros [= <-].
    apply after_here. unfold is_ascii. lia. }
  assert (Hnone : exists r, Val (A := option (list Z)) None = Val r /\ forall next, r = Some next -> after (b :: rest) next)
    by (by exists None).
  destruct (decide (b = 45)) as [-> |]; [| destruct (decide (b = 47)) as [-> |]].
  - destruct rest as [| c rest]; [exact Hnone |].
    destruct (decide (c = 45)) as [-> |]; [| other_byte c Hnone].
    destruct (IH (from_newline rest) true) as (r & -> & Hr).
    { pose proof (from_newline_length rest). simpl in Hf. lia. }
    exists r. split; [done |]. intros next ->. by apply after_cons, after_newline, Hr.
  - destruct rest as [| c rest]; [exact Hnone |].
    destruct (decide (c = 42)) as [-> |]; [| other_byte c Hnone].
    destruct (find rest [42; 47]) as [pos |] eqn:Hfi; [| exact Hnone].
    destruct (IH (drop (pos + 2) rest) true) as (r & -> & Hr); [rewrite length_drop; simpl in Hf; lia |].
    exists r. split; [done |]. intros next ->. by apply after_cons, after_cons, (after_drop (pos + 2)), Hr.
  - other_byte b Hnone.
Qed.

Lemma skip_string_after fuel bytes escapes :
  (length bytes <= fuel)%nat ->
  exists r, skip_string fuel bytes escapes = Val r /\ forall next, r = Some next -> after bytes next.
Proof.
  revert bytes. induction fuel as [| fuel IH]; intros bytes Hf.
  { destruct bytes; [| simpl in Hf; lia]. by exists None. }
  destruct bytes as [| b rest]; [by exists None |]. simpl in Hf. cbn [skip_string].
  destruct (Z.eqb_spec b 39) as [-> |].
  - assert (Hend : exists r,
      (let! continuation := string_continuation (length rest) rest false in
       match continuation with
       | Some next => skip_string fuel next escapes
       | None => Val (Some rest)
       end) = Val r /\ forall next, r = Some next -> after (39 :: rest) next).
    { destruct (string_continuation_after (length rest) rest false) as (c & -> & Hc); [done |].
      cbn [outcome_bind]. destruct c as [next |].
      - specialize (Hc next eq_refl). pose proof (after_length _ _ Hc).
        destruct (IH next) as (r & -> & Hr); [lia |]. exists r. split; [done |].
        intros r' ->. apply after_cons. by eapply after_trans; [| apply Hr].
      - eexists. split; [done |]. intros next [= <-]. apply after_here. unfold is_ascii. lia. }
    destruct rest as [| c rest]; [exact Hend |].
    destruct (decide (c = 39)) as [-> |].
    + destruct (IH rest) as (r & -> & Hr); [simpl in Hf; lia |]. exists r. split; [done |].
      intros next ->. by apply after_cons, after_cons, Hr.
    + other_byte c Hend.
  - destruct (escapes && (b =? 92)), rest as [| c rest'].
    all: match goal with IH : forall _, _ |- context [skip_string _ ?l _] =>
           destruct (IH l) as (r & -> & Hr); [simpl in *; lia |] end.
    all: exists r; split; [done |]; intros next ->.
    all: first [by apply after_cons, Hr | by apply after_cons, after_cons, Hr].
Qed.

Lemma skip_quoted_identifier_after bytes r : skip_quoted_identifier bytes = Some r -> after bytes r.
Proof.
  assert (H : forall n bytes r, (length bytes <= n)%nat ->
            skip_quoted_identifier bytes = Some r -> after bytes r);
    [| by apply (H (length bytes))].
  clear. induction n as [| n IH]; intros bytes r Hl; (destruct bytes as [| b rest]; [done |]); simpl in Hl; [lia |].
  cbn [skip_quoted_identifier]. destruct (Z.eqb_spec b 34) as [-> |].
  - assert (Hend : Some rest = Some r -> after (34 :: rest) r).
    { intros [= ->]. apply after_here. unfold is_ascii. lia. }
    destruct rest as [| c rest]; [exact Hend |].
    destruct (decide (c = 34)) as [-> |].
    + intros H. apply after_cons, after_cons. apply IH; [simpl in Hl; lia | done].
    + other_byte c Hend.
  - intros H. apply after_cons, IH; [lia | done].
Qed.

Lemma skip_dollar_quote_after b rest r : skip_dollar_quote (b :: rest) = Some r -> after rest r.
Proof.
  unfold skip_dollar_quote. change (drop 1 (b :: rest)) with (drop 0 rest). rewrite drop_0.
  intros (pos & Hm & (n & Hf & Hr)%bind_Some)%bind_Some.
  apply memchr_some in Hm as (post & Hp & Hl & _).
  assert (Htag : take (1 + pos + 1) (b :: rest) = (b :: take pos rest) ++ [36]).
  { replace (1 + pos + 1)%nat with (S (S pos)) by lia. cbn [take]. simpl. f_equal.
    rewrite Hp at 1. rewrite cons_middle, app_assoc. apply take_app_exact.
    rewrite length_app, Hl. simpl. lia. }
  rewrite Htag in Hf, Hr.
  assert (r = drop (n + length ((b :: take pos rest) ++ [36])) (drop (1 + pos + 1) (b :: rest))) as ->
    by congruence.
  apply (find_after _ (b :: take pos rest)) in Hf; [| unfold is_ascii; lia].
  replace (drop (1 + pos + 1) (b :: rest)) with (drop (pos + 1) rest) in *
    by (replace (1 + pos + 1)%nat with (S (pos + 1)) by lia; done).
  by apply after_drop in Hf.
Qed.

Lemma skip_while_valid (f : Z -> bool) bytes :
  (forall b, f b = true -> is_ascii b) ->
  valid bytes -> valid (skip_while f bytes) /\ (length (skip_while f bytes) <= length bytes)%nat.
Proof.
  intros Hf. induction bytes as [| b bytes IH]; [done |]. intros Hv. simpl.
  destruct (f b) eqn:Hb; [| split; [done | simpl; lia]].
  destruct IH as [H1 H2]; [by eapply valid_cons, Hf |]. split; [done | lia].
Qed.

Lemma alphanumeric_ascii b : is_ascii_alphanumeric b = true -> is_ascii b.
Proof.
  unfold is_ascii_alphanumeric, is_ascii_alphabetic, is_digit, is_ascii.
  rewrite !orb_true_iff, !andb_true_iff, !Z.leb_le. lia.
Qed.

Lemma digit_ascii b : is_digit b = true -> is_ascii b.
Proof. unfold is_digit, is_ascii. rewrite andb_true_iff, !Z.leb_le. lia. Qed.

Lemma skip_identifier_valid fuel bytes :
  (length bytes <= fuel)%nat -> valid bytes ->
  exists r, skip_identifier fuel bytes = Val r /\ valid r /\ (length r <= length bytes)%nat.
Proof.
  revert bytes. induction fuel as [| fuel IH]; intros bytes Hl Hv.
  { destruct bytes; [| simpl in Hl; lia]. by exists []. }
  destruct bytes as [| b rest]; [by exists [] |]. simpl in Hl. cbn [skip_identifier].
  destruct (valid_decode b rest Hv) as (Hb & c & rest' & Hd & Hv' & Hl').
  destruct (is_ascii_alphanumeric b || (b =? 95)) eqn:Ha.
  { destruct (IH rest) as (r & -> & Hr & Hrl); [lia | | exists r; split_and!; try done; simpl; lia].
    apply orb_true_iff in Ha. apply (valid_cons b); [done |].
    destruct Ha as [Ha | Ha%Z.eqb_eq]; [by apply alphanumeric_ascii | unfold is_ascii; lia]. }
  destruct (Z.ltb_spec b 128); [by exists (b :: rest) |]. rewrite Hd.
  destruct (is_unicode_whitespace c); [by exists (b :: rest) |]. cbn [negb].
  destruct (IH rest') as (r & -> & Hr & Hrl); [lia | done |]. exists r. split_and!; try done. simpl. lia.
Qed.

(** An identifier takes at least its first char. *)
Lemma skip_identifier_first b rest :
  valid (b :: rest) ->
  is_ascii_alphabetic b || (b =? 95) = true \/
    (exists c rest', 128 <= b /\ decode_char (b :: rest) = Some (c, rest') /\ is_unicode_whitespace c = false) ->
  exists r, skip_identifier (length (b :: rest)) (b :: rest) = Val r /\ valid r /\
    (length r <= length rest)%nat.
Proof.
  intros Hv H. destruct (valid_decode b rest Hv) as (Hb & c & rest' & Hd & Hv' & Hl').
  cbn [length skip_identifier]. destruct H as [H | (c' & r' & Hge & Hd' & Hw)].
  - assert (Hor : is_ascii_alphanumeric b || (b =? 95) = true).
    { unfold is_ascii_alphanumeric. apply orb_true_iff in H as [-> | ->]; [done | apply orb_true_r]. }
    rewrite Hor. apply skip_identifier_valid; [done |]. apply (valid_cons b); [done |].
    apply orb_true_iff in Hor as [Hor | Hor%Z.eqb_eq]; [by apply alphanumeric_ascii | unfold is_ascii; lia].
  - assert (Hno : is_ascii_alphanumeric b || (b =? 95) = false).
    { destruct (is_ascii_alphanumeric b || (b =? 95)) eqn:E; [| done]. exfalso.
      apply orb_true_iff in E as [E%alphanumeric_ascii | E%Z.eqb_eq]; unfold is_ascii in *; lia. }
    rewrite Hno. destruct (Z.ltb_spec b 128); [lia |]. rewrite Hd in Hd' |- *. injection Hd' as <- <-.
    rewrite Hw. cbn [negb]. destruct (skip_identifier_valid (length rest) rest') as (r & Hr & Hvr & Hlr); try done.
    exists r. split_and!; [done | done | lia].
Qed.

Definition step_rest (s : step) : list Z :=
  match s with Skip r | OpenParen r | CloseParen r | Token _ r => r end.

(** A turn of the loop leaves a shorter text, at a boundary. *)
Definition step_ok (rest : list Z) (o : outcome (option step)) : Prop :=
  exists s, o = Val s /\ forall st, s = Some st ->
    valid (step_rest st) /\ (length (step_rest st) <= length rest)%nat.

Lemma step_ok_after b rest r :
  valid (b :: rest) -> is_ascii b ->
  (forall next, r = Some next -> after rest next) -> step_ok rest (other_to (Val r)).
Proof.
  intros Hv Hb H. unfold other_to. cbn [outcome_bind]. eexists. split; [done |].
  intros st (next & -> & ->)%fmap_Some. simpl.
  destruct (after_valid rest next) as [H1 H2]; [by eapply valid_cons | by apply H |]. split; [done | lia].
Qed.

Lemma step_ok_here rest o : (exists s, o = Val (Some s) /\ valid (step_rest s) /\
    (length (step_rest s) <= length rest)%nat) -> step_ok rest o.
Proof. intros (s & -> & H1 & H2). eexists. split; [done |]. by intros st [= ->]. Qed.

Lemma word_at_ok b rest :
  valid (b :: rest) ->
  is_ascii_alphabetic b || (b =? 95) = true \/
    (exists c rest', 128 <= b /\ decode_char (b :: rest) = Some (c, rest') /\ is_unicode_whitespace c = false) ->
  step_ok rest (word_at (b :: rest)).
Proof.
  intros Hv H. destruct (skip_identifier_first b rest Hv H) as (r & Hr & Hvr & Hlr).
  unfold word_at. rewrite Hr. cbn [outcome_bind]. apply step_ok_here. eexists. split; [done | done].
Qed.

Lemma ascii_lit z : (0 <=? z) && (z <? 128) = true -> is_ascii z.
Proof. unfold is_ascii. rewrite andb_true_iff, Z.leb_le, Z.ltb_lt. lia. Qed.

Lemma other_to_string b fuel bytes rest escapes :
  valid (b :: rest) -> is_ascii b -> (length bytes <= fuel)%nat ->
  (forall r, after bytes r -> after rest r) ->
  step_ok rest (other_to (skip_string fuel bytes escapes)).
Proof.
  intros Hv Hb Hf Hsub. destruct (skip_string_after fuel bytes escapes Hf) as (r & -> & Hr).
  eapply step_ok_after; [done | done |]. intros next Hn. by apply Hsub, Hr.
Qed.

(** The arms of [scan] that take the next byte too. *)
Lemma scan_two b c rest :
  valid (b :: c :: rest) -> is_ascii b -> is_ascii c ->
  valid rest /\ (length rest <= length (c :: rest))%nat.
Proof.
  intros Hv Hb Hc. split; [| simpl; lia]. eapply valid_cons; [| exact Hc]. by eapply valid_cons.
Qed.

Lemma eqb_ascii b z : (b =? z) = true -> (0 <=? z) && (z <? 128) = true -> is_ascii b.
Proof. intros ->%Z.eqb_eq. apply ascii_lit. Qed.

Lemma scan_ok b rest : valid (b :: rest) -> step_ok rest (scan b rest).
Proof.
  intros Hv. unfold scan. cbv zeta.
  assert (Hskip : forall s, is_ascii b -> step_rest s = rest -> step_ok rest (Val (Some s))).
  { intros s Hb Hs. apply step_ok_here. exists s. rewrite Hs. split_and!; [done | by eapply valid_cons | done]. }
  destruct (is_space b) eqn:Hsp.
  { apply Hskip; [| done]. unfold is_space in Hsp. rewrite orb_true_iff, andb_true_iff, !Z.leb_le, Z.eqb_eq in Hsp.
    unfold is_ascii. lia. }
  destruct ((b =? 45) && bool_decide (rest !! 0%nat = Some 45)) eqn:H1.
  { apply andb_true_iff in H1 as [->%Z.eqb_eq Hn%bool_decide_eq_true].
    destruct rest as [| c rest]; [done |]. injection Hn as ->. simpl drop. rewrite drop_0.
    destruct (scan_two 45 45 rest Hv) as [Hr _]; [by apply ascii_lit .. |].
    destruct (from_newline_valid rest Hr) as [Hr1 Hr2].
    apply step_ok_here. eexists. split; [done |]. simpl. split; [done | lia]. }
  destruct ((b =? 47) && bool_decide (rest !! 0%nat = Some 42)) eqn:H2.
  { apply andb_true_iff in H2 as [->%Z.eqb_eq Hn%bool_decide_eq_true].
    destruct rest as [| c rest]; [done |]. injection Hn as ->. simpl drop. rewrite drop_0.
    destruct (scan_two 47 42 rest Hv) as [Hr _]; [by apply ascii_lit .. |].
    eexists. split; [done |]. intros st (pos & Hf & [= <-])%bind_Some. simpl.
    apply (find_after rest [42] 47) in Hf; [| by apply ascii_lit].
    destruct (after_valid rest _ Hr Hf) as [Hr1 Hr2]. split; [done | simpl in *; lia]. }
  destruct (b =? 40) eqn:H3; [by apply Hskip; [apply (eqb_ascii b 40) |] |].
  destruct (b =? 41) eqn:H4; [by apply Hskip; [apply (eqb_ascii b 41) |] |].
  destruct (b =? 59) eqn:H5; [by apply Hskip; [apply (eqb_ascii b 59) |] |].
  destruct (b =? 39) eqn:H6.
  { apply (other_to_string b); [done | by apply (eqb_ascii b 39) | done | done]. }
  destruct (b =? 34) eqn:H7.
  { apply (step_ok_after b); [done | by apply (eqb_ascii b 34) | apply skip_quoted_identifier_after]. }
  destruct ((b =? 36) && _) eqn:H8.
  { apply andb_true_iff in H8 as [H8 _]. apply (eqb_ascii b 36) in H8 as Hb; [| done].
    destruct (skip_while_valid is_digit rest digit_ascii) as [Hr1 Hr2]; [by eapply valid_cons |].
    apply step_ok_here. eexists. split; [done |]. simpl. done. }
  clear H8. destruct (b =? 36) eqn:H9.
  { apply (step_ok_after b); [done | by apply (eqb_ascii b 36) | apply skip_dollar_quote_after]. }
  destruct (b =? 92) eqn:H10.
  { apply (eqb_ascii b 92) in H10 as Hb; [| done].
    destruct rest as [| c rest']; [by apply (Hskip (Token Other [])) |].
    destruct (is_ascii_alphanumeric c || (c =? 63)) eqn:Hc; [| by apply (Hskip (Token Other (c :: rest')))].
    assert (Hca : is_ascii c).
    { apply orb_true_iff in Hc as [Hc | Hc%Z.eqb_eq]; [by apply alphanumeric_ascii | unfold is_ascii; lia]. }
    destruct (scan_two b c rest' Hv Hb Hca) as [Hr _].
    destruct (skip_while_valid is_ascii_alphanumeric rest' alphanumeric_ascii Hr) as [Hr1 Hr2].
    apply step_ok_here. eexists. split; [done |]. simpl. split; [done | lia]. }
  destruct (((b =? 101) || (b =? 69)) && _) eqn:H11.
  { apply andb_true_iff in H11 as [H11 _]. assert (Hb : is_ascii b).
    { unfold is_ascii. apply orb_true_iff in H11 as [H11%Z.eqb_eq | H11%Z.eqb_eq]; lia. }
    apply (other_to_string b); [done | done | rewrite length_drop; lia | intros r; apply after_drop]. }
  destruct (is_ascii_alphabetic b || (b =? 95)) eqn:H12; [apply word_at_ok; [done | by left] |].
  destruct (Z.ltb_spec b 128).
  { apply Hskip; [| done]. destruct (valid_decode b rest Hv) as [Hb0 _]. unfold is_ascii. lia. }
  destruct (valid_decode b rest Hv) as (_ & c & rest' & Hd & Hv' & Hl'). rewrite Hd.
  destruct (is_unicode_whitespace c) eqn:Hw.
  - apply step_ok_here. eexists. split; [done |]. done.
  - apply word_at_ok; [done |]. right. by exists c, rest'.
Qed.

Lemma lex_ok fuel stack bytes :
  (length bytes <= fuel)%nat -> valid bytes -> exists r, lex fuel stack bytes = Val r.
Proof.
  revert stack bytes. induction fuel as [| fuel IH]; intros stack bytes Hl Hv.
  { destruct bytes; [| simpl in Hl; lia]. by eexists. }
  destruct bytes as [| b rest]; [by eexists |]. simpl in Hl. cbn [lex]. unfold lex_step.
  destruct (scan_ok b rest Hv) as (s & -> & Hs). cbn [outcome_bind].
  destruct s as [st |]; [| by eexists]. destruct (Hs st eq_refl) as [Hr1 Hr2].
  destruct st as [r | r | r | item r]; simpl in Hr1, Hr2.
  - apply IH; [lia | done].
  - destruct (MAX_GROUP_DEPTH <? length stack)%nat; [by eexists |]. apply IH; [lia | done].
  - destruct stack as [| g [| top stack]]; [by eexists | by eexists |]. apply IH; [lia | done].
  - destruct stack as [| top stack]; [by eexists |]. apply IH; [lia | done].
Qed.

(** ** Properties of the lexer *)

(** The classifier is total on every [str]: the lexer terminates, each turn
    consuming at least a byte, and it never slices the text inside a character,
    so no SQL text panics it. *)
Theorem classify_total sql :
  Forall is_char sql ->
  exists items, parse sql = Val items /\
    classify_statement sql =
      Val (match items with Some items => classify_items items | None => KOther end).
Proof.
  intros Hs. unfold classify_statement, parse.
  destruct (lex_ok (length (utf8 sql)) [[]] (utf8 sql)) as [r ->]; [done | by exists sql |].
  by exists r.
Qed.

(** ** The recursion of the classifier *)

Lemma items_size_cons i items : items_size (i :: items) = (item_size i + items_size items)%nat.
Proof. done. Qed.

Lemma item_size_group inner : item_size (Group inner) = S (items_size inner).
Proof. done. Qed.

Lemma item_size_pos i : (1 <= item_size i)%nat.
Proof. destruct i; simpl; lia. Qed.

Lemma split_semicolon_size items : (items_size (split_semicolon items).1 <= items_size items)%nat.
Proof.
  induction items as [| i items IH]; [done |].
  assert (H : (items_size ((let '(a, b) := split_semicolon items in (i :: a, b)).1) <= items_size (i :: items))%nat).
  { destruct (split_semicolon items) as [a b]. simpl fst in *. rewrite !items_size_cons. lia. }
  destruct i; try exact H. apply Nat.le_0_l.
Qed.

Lemma skip_bare_size items : (items_size (skip_bare_options items) <= items_size items)%nat.
Proof.
  induction items as [| i items IH]; [done |]. simpl. destruct (is_bare_explain_option i); [| done].
  rewrite items_size_cons. lia.
Qed.

Section extensionality.
Context (f g : list Item -> StatementKind) (n : nat)
  (Hfg : forall l, (items_size l < n)%nat -> f l = g l).

Lemma items_with_ext items :
  (items_size items < n)%nat -> classify_items_with f items = classify_items_with g items.
Proof.
  intros H. unfold classify_items_with. pose proof (split_semicolon_size items) as Hs.
  destruct (split_semicolon items) as [st rest]. simpl in Hs. rewrite Hfg by lia. done.
Qed.

Lemma with_loop_ext items flag :
  (items_size items < n)%nat -> classify_with_loop f items flag = classify_with_loop g items flag.
Proof.
  revert flag. induction items as [| i items IH]; intros flag H; [done |]. rewrite items_size_cons in H.
  pose proof (item_size_pos i). destruct i as [w | inner | |]; cbn [classify_with_loop].
  - by rewrite IH by lia.
  - rewrite item_size_group in H. rewrite items_with_ext by lia. repeat case_match; try done; apply IH; lia.
  - apply IH. lia.
  - apply IH. lia.
Qed.

Lemma single_body_ext items :
  (items_size items <= n)%nat -> classify_single_body f items = classify_single_body g items.
Proof.
  intros H. destruct items as [| i rest]; [done |]. rewrite items_size_cons in H.
  pose proof (item_size_pos i). destruct i as [w | inner | |]; try done; cbn [classify_single_body].
  - unfold classify_with. rewrite with_loop_ext by lia.
    assert (He : classify_explain f rest = classify_explain g rest); [| by rewrite He].
    unfold classify_explain. pose proof (skip_bare_size rest).
    destruct rest as [| [] rest']; rewrite ?items_size_cons in *; try done;
      try (by rewrite Hfg by lia); repeat case_match; try done; apply Hfg; lia.
  - rewrite item_size_group in H. apply items_with_ext. lia.
Qed.

End extensionality.

Lemma classify_fuel_enough fuel fuel' items :
  (items_size items < fuel)%nat -> (items_size items < fuel')%nat ->
  classify_single_fuel fuel items = classify_single_fuel fuel' items.
Proof.
  revert fuel' items. induction fuel as [| fuel IH]; intros [| fuel'] items H H'; try lia.
  cbn [classify_single_fuel]. apply (single_body_ext _ _ (items_size items)); [| done].
  intros l Hl. apply IH; lia.
Qed.

(** The classifier satisfies the equations of the source. *)
Lemma classify_single_eq items : classify_single items = classify_single_body classify_single items.
Proof.
  unfold classify_single at 1. cbn [classify_single_fuel].
  apply (single_body_ext _ _ (items_size items)); [| done].
  intros l Hl. apply classify_fuel_enough; lia.
Qed.

(** ** What a statement runs *)

Definition WITH : list Z := str "WITH".
Definition EXPLAIN : list Z := str "EXPLAIN".
Definition INTO : list Z := str "INTO".

(** The words [classify_with] takes for the main statement. *)
Definition main_word (i : Item) : bool :=
  match i with
  | Word w => one_of w READ_ONLY_KEYWORDS || one_of w DML_KEYWORDS
  | _ => false
  end.

(** [executes items w]: by Hyper's grammar, running the statement [items] runs a
    statement of the keyword [w]: its own, that of the query in parentheses, the
    main statement or a body of a [WITH], or what an executing [EXPLAIN] runs;
    [INTO] stands for a query that creates a table. *)
Inductive executes : list Item -> list Z -> Prop :=
| ex_word w rest : w <> WITH -> w <> EXPLAIN -> w <> INTO -> executes (Word w :: rest) w
| ex_into w rest :
    w ∈ READ_ONLY_KEYWORDS -> Word INTO ∈ rest -> executes (Word w :: rest) INTO
| ex_paren inner rest w :
    executes inner w -> Semicolon ∉ inner -> executes (Group inner :: rest) w
| ex_body pre inner rest w :
    Forall (fun i => main_word i = false) pre -> executes inner w -> Semicolon ∉ inner ->
    executes (Word WITH :: pre ++ Group inner :: rest) w
| ex_main pre w rest :
    Forall (fun i => main_word i = false) pre -> main_word (Word w) = true ->
    executes (Word WITH :: pre ++ Word w :: rest) w
| ex_main_into pre w rest :
    Forall (fun i => main_word i = false) pre -> w ∈ READ_ONLY_KEYWORDS -> Word INTO ∈ rest ->
    executes (Word WITH :: pre ++ Word w :: rest) INTO
| ex_explain options statement w :
    executes statement w -> executes (Word EXPLAIN :: Group options :: statement) w
| ex_explain_bare option options statement w :
    Forall (fun i => is_bare_explain_option i = true) (option :: options) ->
    executes statement w -> skip_bare_options statement = statement ->
    executes (Word EXPLAIN :: (option :: options) ++ statement) w.

(** The keywords of statements that change something. *)
Definition write_word (w : list Z) : bool :=
  one_of w (str <$> ["INSERT"; "UPDATE"; "DELETE"; "COPY"; "MERGE"; "CREATE"; "DROP"; "ALTER";
                     "TRUNCATE"; "RENAME"; "BEGIN"; "START"; "COMMIT"; "END"; "ROLLBACK"; "ABORT";
                     "SAVEPOINT"; "RELEASE"; "INTO"]%string).

Definition is_write (k : StatementKind) : bool :=
  match k with
  | Ddl | Dml | TransactionControl => true
  | ReadOnly | KOther => false
  end.

Lemma one_of_true w l : one_of w l = true <-> w ∈ l.
Proof. unfold one_of. apply bool_decide_eq_true. Qed.

Lemma split_no_semicolon items : Semicolon ∉ items -> split_semicolon items = (items, []).
Proof.
  induction items as [| i items IH]; [done |]. rewrite not_elem_of_cons. intros [Hi H].
  destruct i; try done; cbn [split_semicolon]; by rewrite IH.
Qed.

Lemma query_into rest : Word INTO ∈ rest -> classify_query rest = Dml.
Proof.
  intros H. unfold classify_query.
  assert (He : existsb (is_word (str "INTO")) rest = true); [| by rewrite He].
  apply existsb_exists. exists (Word INTO). split; [by apply list_elem_of_In |].
  unfold is_word. by apply bool_decide_eq_true.
Qed.

(** A write in the list after [WITH] is what [classify_with] reports. *)
Lemma with_loop_group f pre inner rest flag :
  Forall (fun i => main_word i = false) pre -> is_write (classify_items_with f inner) = true ->
  is_write (classify_with_loop f (pre ++ Group inner :: rest) flag) = true.
Proof.
  intros Hp Hi. revert flag. induction Hp as [| i pre Hm _ IH]; intros flag.
  - cbn [app classify_with_loop]. by destruct (classify_items_with f inner).
  - destruct i as [w | g | |]; cbn [app classify_with_loop]; [| | apply IH | apply IH].
    + simpl in Hm. apply orb_false_iff in Hm as [-> ->]. apply IH.
    + destruct (classify_items_with f g); [apply IH | done | done | done | apply IH].
Qed.

Lemma read_only_not_dml w : w ∈ READ_ONLY_KEYWORDS -> one_of w DML_KEYWORDS = false.
Proof.
  unfold READ_ONLY_KEYWORDS. intros H.
  repeat (apply elem_of_cons in H as [-> | H]; [vm_compute; done |]). by apply elem_of_nil in H.
Qed.

Lemma with_loop_main f pre w rest flag :
  Forall (fun i => main_word i = false) pre -> main_word (Word w) = true ->
  one_of w DML_KEYWORDS = true \/ Word INTO ∈ rest ->
  is_write (classify_with_loop f (pre ++ Word w :: rest) flag) = true.
Proof.
  intros Hp Hm Hw. revert flag. induction Hp as [| i pre Hi _ IH]; intros flag.
  - cbn [app classify_with_loop]. simpl in Hm. apply orb_true_iff in Hm as [Hm | Hm].
    + rewrite Hm. destruct Hw as [Hw | Hw]; [| by rewrite query_into].
      apply one_of_true in Hm. by rewrite read_only_not_dml in Hw.
    + rewrite Hm. destruct (one_of w READ_ONLY_KEYWORDS) eqn:Hr; [| done].
      apply one_of_true in Hr. by rewrite read_only_not_dml in Hm.
  - destruct i as [v | g | |]; cbn [app classify_with_loop]; [| | apply IH | apply IH].
    + simpl in Hi. apply orb_false_iff in Hi as [-> ->]. apply IH.
    + destruct (classify_items_with f g); [apply IH | done | done | done | apply IH].
Qed.

(** A leading write word decides the kind. *)
Lemma write_word_kind f w rest :
  write_word w = true -> w <> INTO -> is_write (classify_single_body f (Word w :: rest)) = true.
Proof.
  unfold write_word. intros H%one_of_true Hi. simpl fmap in H.
  repeat (apply elem_of_cons in H as [-> | H]; [by vm_compute | ]).
  by apply elem_of_nil in H.
Qed.

Lemma explain_bare_head option : is_bare_explain_option option = true -> exists w, option = Word w.
Proof. destruct option; try done. eauto. Qed.

Lemma skip_bare_app options statement :
  Forall (fun i => is_bare_explain_option i = true) options ->
  skip_bare_options statement = statement -> skip_bare_options (options ++ statement) = statement.
Proof. induction 1 as [| i options Hi _ IH]; [done |]. intros H. simpl. rewrite Hi. by apply IH. Qed.

Lemma executes_write items w :
  executes items w -> write_word w = true -> is_write (classify_single items) = true.
Proof.
  induction 1 as [w rest H1 H2 H3 | w rest Hw Hi | inner rest w _ IH Hs | pre inner rest w Hp _ IH Hs
    | pre w rest Hp Hm | pre w rest Hp Hw Hi | options st w _ IH | o os st w Ho _ IH Hb];
    intros Hww; rewrite classify_single_eq.
  - by apply write_word_kind.
  - apply one_of_true in Hw. cbn [classify_single_body]. unfold READ_ONLY_KEYWORDS in Hw. rewrite Hw.
    by rewrite query_into.
  - cbn [classify_single_body]. unfold classify_items_with. rewrite split_no_semicolon by done. by apply IH.
  - apply with_loop_group; [done |]. unfold classify_items_with. rewrite split_no_semicolon by done. by apply IH.
  - apply with_loop_main; [done | done |]. left. simpl in Hm. apply orb_true_iff in Hm as [Hm | Hm]; [| done].
    exfalso. apply one_of_true in Hm. unfold READ_ONLY_KEYWORDS in Hm. simpl fmap in Hm.
    repeat (apply elem_of_cons in Hm as [-> | Hm]; [by vm_compute in Hww |]). by apply elem_of_nil in Hm.
  - apply with_loop_main; [done | | by right]. simpl. apply one_of_true in Hw. by rewrite Hw.
  - by apply IH.
  - apply Forall_cons_1 in Ho as [Ho Hos]. destruct (explain_bare_head o Ho) as [v ->].
    change (classify_single_body classify_single (Word EXPLAIN :: (Word v :: os) ++ st))
      with (if is_bare_explain_option (Word v)
            then classify_single (skip_bare_options ((Word v :: os) ++ st)) else ReadOnly).
    rewrite Ho. change ((Word v :: os) ++ st) with (Word v :: os ++ st). cbn [skip_bare_options].
    rewrite Ho, skip_bare_app by done. by apply IH.
Qed.

(** The keywords a read-only statement can start with. *)
Definition query_words : list (list Z) :=
  str <$> ["SELECT"; "VALUES"; "TABLE"; "SHOW"; "WITH"; "EXPLAIN"]%string.

Lemma split_semicolon_spec items :
  (Semicolon ∉ (split_semicolon items).1) /\
  (items = (split_semicolon items).1 /\ (split_semicolon items).2 = [] \/
   items = ((split_semicolon items).1 ++ Semicolon :: (split_semicolon items).2)).
Proof.
  induction items as [| i items [IH1 IH2]]; [split; [apply not_elem_of_nil | by left] |].
  destruct i; cbn [split_semicolon];
    [| | split; [apply not_elem_of_nil | by right] |];
    (destruct (split_semicolon items) as [a b]; simpl in *;
     split; [apply not_elem_of_cons; by split |];
     destruct IH2 as [[-> ->] | ->]; [by left | by right]).
Qed.

(** A statement that starts with any other word is not read-only. *)
Lemma not_query_word w rest :
  one_of w query_words = false -> classify_single_body classify_single (Word w :: rest) <> ReadOnly.
Proof.
  intros H. cbn [classify_single_body].
  assert (Hn : forall l, forallb (fun v => one_of v query_words) l = true -> one_of w l = false).
  { intros l Hl. destruct (one_of w l) eqn:E; [| done]. apply one_of_true, list_elem_of_In in E.
    rewrite forallb_forall in Hl. by rewrite (Hl w E) in H. }
  rewrite (Hn (str <$> ["SELECT"; "VALUES"; "TABLE"]%string)), (Hn [str "SHOW"]), (Hn [str "WITH"]),
    (Hn [str "EXPLAIN"]) by (vm_compute; done).
  repeat case_match; done.
Qed.

(** ** Properties of the classification *)

(** C1. What the read-only gate accepts writes nothing: if running the statement
    would run a data change, a DDL or a transaction statement, however it is
    wrapped (in parentheses, as the main statement or inside a body of a [WITH],
    behind an executing [EXPLAIN], or as [SELECT ... INTO]), the gate refuses
    it. *)
Theorem write_is_refused sql items w :
  parse sql = Val (Some items) ->
  executes (split_semicolon items).1 w -> write_word w = true ->
  is_read_only_sql sql = Val false.
Proof.
  intros Hp He Hw. unfold is_read_only_sql, classify_statement. rewrite Hp. cbn [outcome_bind].
  f_equal. apply bool_decide_eq_false. unfold classify_items, classify_items_with.
  pose proof (executes_write _ _ He Hw) as H.
  destruct (split_semicolon items) as [st [| i rest]]; [| done]. simpl in H.
  intros Hk. by rewrite Hk in H.
Qed.

Lemma write_is_refused_witness :
  is_read_only_sql (str "explain (analyze) WITH x AS (SELECT 1) delete from t") = Val false.
Proof.
  apply (write_is_refused _
    [Word EXPLAIN; Group [Word (str "ANALYZE")]; Word WITH; Word (str "X"); Word (str "AS");
     Group [Word (str "SELECT"); Other]; Word (str "DELETE"); Word (str "FROM"); Word (str "T")]
    (str "DELETE")).
  - vm_compute. reflexivity.
  - apply ex_explain. apply (ex_main [Word (str "X"); Word (str "AS"); Group [Word (str "SELECT"); Other]]).
    + repeat constructor.
    + vm_compute. reflexivity.
  - vm_compute. reflexivity.
Defined.

(** What it accepts is one statement: at most a final semicolon after the
    items of a parenthesised query, or of a statement that starts with
    [SELECT], [VALUES], [TABLE], [SHOW], [WITH] or [EXPLAIN]. *)
Theorem read_only_shape sql :
  is_read_only_sql sql = Val true ->
  exists items statement i rest,
    parse sql = Val (Some items) /\ (items = statement \/ items = (statement ++ [Semicolon])) /\
    (Semicolon ∉ statement) /\ statement = i :: rest /\
    ((exists inner, i = Group inner) \/ exists w, i = Word w /\ one_of w query_words = true).
Proof.
  unfold is_read_only_sql, classify_statement. intros H.
  destruct (parse sql) as [[items |] |]; cbn [outcome_bind] in H; try discriminate.
  assert (Hk : classify_items items = ReadOnly).
  { apply (bool_decide_eq_true (classify_items items = ReadOnly)). congruence. }
  exists items, (split_semicolon items).1. destruct (split_semicolon_spec items) as [Hni Hor].
  unfold classify_items, classify_items_with in Hk.
  destruct (split_semicolon items) as [st [| x b]]; [| done]. simpl in *.
  rewrite classify_single_eq in Hk.
  destruct st as [| [w | inner | |] rest]; try discriminate Hk.
  - exists (Word w), rest. split_and!; try done; [naive_solver |]. right. exists w. split; [done |].
    destruct (one_of w query_words) eqn:Hq; [done |]. exfalso. revert Hk. by apply not_query_word.
  - exists (Group inner), rest. split_and!; try done; [naive_solver | eauto].
Qed.

