(* ===== verification/SqlEscape.v ===== *)
(** * SQL escaping and qualified names

    [hyperdb-api-core/src/protocol/escape.rs] and [hyperdb-api/src/names.rs]:
    quoting of identifiers and literals, the validated name types, and the
    parser of dotted names. A [str] is the list of its chars; an error is its
    text. The properties relate the quoting to its two readers: the name parser
    here, and the SQL lexer of [SqlClassify]. *)

From stdpp Require Import strings.
From S2P Require Import Prelude Text SqlClassify.

(** ** [protocol/escape.rs] *)

(** The loop of the [Display] implementations: [q] is the quote, doubled inside. *)
Fixpoint double_quotes (q : Z) (s : list Z) : list Z :=
  match s with
  | [] => []
  | c :: s => if c =? q then q :: q :: double_quotes q s else c :: double_quotes q s
  end.

Definition quoted (q : Z) (s : list Z) : list Z := q :: double_quotes q s ++ [q].

(** [format!("{}", QuotedIdentifier(s))], and of [SqlIdentifier], [SqlLiteral]. *)
Definition QuotedIdentifier (s : list Z) : list Z := quoted 34 s.
Definition SqlIdentifier (s : list Z) : list Z := QuotedIdentifier s.
Definition SqlLiteral (s : list Z) : list Z := quoted 39 s.

Definition is_valid_unquoted_identifier (s : list Z) : bool :=
  match s with
  | [] => false
  | c :: chars =>
      (is_ascii_alphabetic c || (c =? 95))
      && forallb (fun c => is_ascii_alphanumeric c || (c =? 95) || (c =? 36)) chars
  end.

Definition format_table_name (database schema : option (list Z)) (table : list Z) : list Z :=
  match database, schema with
  | Some db, Some s => SqlIdentifier db ++ [46] ++ SqlIdentifier s ++ [46] ++ SqlIdentifier table
  | None, Some s => SqlIdentifier s ++ [46] ++ SqlIdentifier table
  | Some db, None => SqlIdentifier db ++ [46] ++ SqlIdentifier table
  | None, None => SqlIdentifier table
  end.

Definition escape_identifier (identifier : list Z) : list Z := SqlIdentifier identifier.

Definition escape_literal (literal : list Z) : list Z := SqlLiteral literal.

(** ** [names.rs] *)

Definition IDENTIFIER_LIMIT : nat := 1024.

(** [name.replace(q, qq)] doubles each quote. *)
Definition escape_name (name : list Z) : result (list Z) (list Z) :=
  let len := length name in
  if (IDENTIFIER_LIMIT <? len)%nat then
    Err (str "Name exceeds identifier limit (" ++ fmt_u (Z.of_nat len) ++ str " > "
         ++ fmt_u (Z.of_nat IDENTIFIER_LIMIT) ++ str ")")
  else Ok ([34] ++ double_quotes 34 name ++ [34]).

Definition escape_sql_path (path : list Z) : list Z := [34] ++ double_quotes 34 path ++ [34].

Definition escape_string_literal (value : list Z) : list Z := [39] ++ double_quotes 39 value ++ [39].

Module Name.

Record t : Type := mk { escaped : list Z; unescaped : list Z }.

Definition try_new (name : list Z) : result t (list Z) :=
  match name with
  | [] => Err (str "Name must not be empty")
  | _ => let? escaped := escape_name name in Ok (mk escaped name)
  end.

(** [PartialEq] looks at the unescaped name. *)
Definition eqb (a b : t) : bool := bool_decide (unescaped a = unescaped b).

Definition display (n : t) : list Z := escaped n.

End Name.

(** The character loop of [parse_qualified_identifier]; [TableName::from_str] has a
    copy of it. *)
Fixpoint qualified_loop (s : list Z) (parts : list (list Z)) (current : list Z)
    (in_quotes : bool) : list (list Z) :=
  match s with
  | [] => match current with [] => parts | _ => parts ++ [current] end
  | c :: chars =>
      if c =? 34 then
        match chars with
        | d :: chars' =>
            if in_quotes && (d =? 34) then qualified_loop chars' parts (current ++ [34]) in_quotes
            else qualified_loop chars parts current (negb in_quotes)
        | [] => qualified_loop chars parts current (negb in_quotes)
        end
      else if (c =? 46) && negb in_quotes then
        match current with
        | [] => qualified_loop chars parts [] in_quotes
        | _ => qualified_loop chars (parts ++ [current]) [] in_quotes
        end
      else qualified_loop chars parts (current ++ [c]) in_quotes
  end.

Definition parse_qualified_identifier (s : list Z) : list (list Z) := qualified_loop s [] [] false.

(** A [DatabaseName] wraps a [Name]. *)
Module DatabaseName.
Definition t : Type := Name.t.
Definition try_new (name : list Z) : result t (list Z) := Name.try_new name.
Definition display (d : t) : list Z := Name.display d.
End DatabaseName.

Definition invalid_identifier (s : list Z) : list Z := str "Invalid SQL identifier: " ++ s.

Module SchemaName.

Record t : Type := mk { database : option DatabaseName.t; schema : Name.t }.

Definition try_new (schema : list Z) : result t (list Z) :=
  let? n := Name.try_new schema in Ok (mk None n).

Definition with_database (self : t) (database : list Z) : result t (list Z) :=
  let? d := DatabaseName.try_new database in Ok (mk (Some d) (schema self)).

Definition display (s : t) : list Z :=
  match database s with
  | Some db => DatabaseName.display db ++ [46] ++ Name.display (schema s)
  | None => Name.display (schema s)
  end.

Definition from_str (s : list Z) : result t (list Z) :=
  match parse_qualified_identifier s with
  | [n] => try_new n
  | [d; n] => let? x := try_new n in with_database x d
  | _ => Err (invalid_identifier s)
  end.

End SchemaName.

Module TableName.

Record t : Type := mk { database : option DatabaseName.t; schema : option Name.t; table : Name.t }.

Definition try_new (table : list Z) : result t (list Z) :=
  let? n := Name.try_new table in Ok (mk None None n).

Definition with_schema (self : t) (schema : list Z) : result t (list Z) :=
  let? n := Name.try_new schema in Ok (mk (database self) (Some n) (table self)).

Definition with_database (self : t) (database : list Z) : result t (list Z) :=
  let? d := DatabaseName.try_new database in Ok (mk (Some d) (schema self) (table self)).

Definition display (n : t) : list Z :=
  (match database n with Some db => DatabaseName.display db ++ [46] | None => [] end)
  ++ (match schema n with Some s => Name.display s ++ [46] | None => [] end)
  ++ Name.display (table n).

Definition from_str (s : list Z) : result t (list Z) :=
  match qualified_loop s [] [] false with
  | [n] => try_new n
  | [sc; n] => let? x := try_new n in with_schema x sc
  | [d; sc; n] => let? x := try_new n in let? x := with_schema x sc in with_database x d
  | _ => Err (invalid_identifier s)
  end.

End TableName.

(** ** Quoting read by the name parser *)

Lemma qualified_quoted s rest parts current :
  (forall c r, rest = c :: r -> c <> 34) ->
  qualified_loop (double_quotes 34 s ++ 34 :: rest) parts current true
  = qualified_loop rest parts (current ++ s) false.
Proof.
  intros Hr. revert current. induction s as [| c s IH]; intros current.
  - rewrite app_nil_r. cbn [double_quotes app qualified_loop]. rewrite Z.eqb_refl.
    destruct rest as [| d rest]; [done |]. destruct (Z.eqb_spec d 34) as [-> |]; [| done].
    by destruct (Hr 34 rest eq_refl).
  - cbn [double_quotes]. destruct (Z.eqb_spec c 34) as [-> |].
    + cbn [app qualified_loop]. rewrite Z.eqb_refl. cbn [andb]. rewrite IH. by rewrite <- app_assoc.
    + cbn [app qualified_loop]. destruct (Z.eqb_spec c 34); [done |].
      rewrite andb_false_r. rewrite IH. by rewrite <- app_assoc.
Qed.

Lemma qualified_part s rest parts :
  (forall c r, rest = c :: r -> c <> 34) ->
  qualified_loop (quoted 34 s ++ rest) parts [] false = qualified_loop rest parts s false.
Proof.
  intros Hr. unfold quoted. change ((34 :: double_quotes 34 s ++ [34]) ++ rest)
    with (34 :: (double_quotes 34 s ++ [34]) ++ rest). rewrite <- app_assoc.
  cbn [qualified_loop app]. rewrite Z.eqb_refl. cbn [andb negb].
  assert (H : qualified_loop (double_quotes 34 s ++ 34 :: rest) parts [] true
              = qualified_loop rest parts s false) by (by apply qualified_quoted).
  destruct (double_quotes 34 s ++ 34 :: rest) as [| d l] eqn:E; [by destruct s | done].
Qed.

(** The dotted form of several parts. *)
Fixpoint dotted (parts : list (list Z)) : list Z :=
  match parts with
  | [] => []
  | [p] => quoted 34 p
  | p :: parts => quoted 34 p ++ 46 :: dotted parts
  end.

Lemma qualified_dotted parts done_parts :
  Forall (fun p => p <> []) parts -> qualified_loop (dotted parts) done_parts [] false = done_parts ++ parts.
Proof.
  intros H. revert done_parts. induction H as [| p parts Hp _ IH]; intros dp; [by rewrite app_nil_r |].
  destruct parts as [| p' parts].
  - cbn [dotted]. rewrite <- (app_nil_r (quoted 34 p)), qualified_part by done.
    cbn [qualified_loop]. by destruct p.
  - change (dotted (p :: p' :: parts)) with (quoted 34 p ++ 46 :: dotted (p' :: parts)).
    rewrite qualified_part by (intros c r [= <- _]; lia).
    cbn [qualified_loop]. simpl. destruct p as [| x p]; [done |]. rewrite IH. by rewrite <- app_assoc.
Qed.

(** A validated name: what [Name::try_new] returns. *)
Definition name_ok (s : list Z) : Prop := s <> [] /\ (length s <= IDENTIFIER_LIMIT)%nat.

Lemma try_new_ok s : name_ok s -> Name.try_new s = Ok (Name.mk (quoted 34 s) s).
Proof.
  intros [Hne Hl]. unfold Name.try_new, escape_name. destruct s as [| c s]; [done |].
  destruct (Nat.ltb_spec IDENTIFIER_LIMIT (length (c :: s))); [lia |]. done.
Qed.

Lemma try_new_inv s n : Name.try_new s = Ok n -> name_ok s /\ n = Name.mk (quoted 34 s) s.
Proof.
  unfold Name.try_new, escape_name. destruct s as [| c s]; [done |].
  destruct (Nat.ltb_spec IDENTIFIER_LIMIT (length (c :: s))); [done |].
  intros [= <-]. split; [split; [done | lia] | done].
Qed.

(** Every [Name] the API hands out. *)
Definition name_wf (n : Name.t) : Prop := Name.try_new (Name.unescaped n) = Ok n.

Lemma name_wf_inv n :
  name_wf n -> Name.escaped n = quoted 34 (Name.unescaped n) /\ Name.unescaped n <> [].
Proof.
  intros H. apply try_new_inv in H as [[H _] Heq]. split; [by rewrite Heq at 1 | done].
Qed.

Definition schema_wf (s : SchemaName.t) : Prop :=
  name_wf (SchemaName.schema s) /\ forall d, SchemaName.database s = Some d -> name_wf d.

Definition table_wf (t : TableName.t) : Prop :=
  name_wf (TableName.table t) /\ (forall s, TableName.schema t = Some s -> name_wf s) /\
  forall d, TableName.database t = Some d -> name_wf d.

(** A displayed name with its parts: the parser takes them apart again. *)
Lemma qualified_names ns :
  Forall name_wf ns -> parse_qualified_identifier (dotted (Name.unescaped <$> ns)) = Name.unescaped <$> ns.
Proof.
  intros H. unfold parse_qualified_identifier. rewrite qualified_dotted; [done |].
  induction H as [| n ns Hn _ IH]; constructor; [by apply name_wf_inv | done].
Qed.

(** ** Properties of names *)

(** Displaying a qualified name and parsing it gives the name back, whatever
    dots and quotes its parts hold: for every schema name, and every table name
    that has a schema if it has a database. A table name with a database and no
    schema is displayed with two parts, and parses as schema and table. *)
Theorem qualified_name_roundtrip s t :
  schema_wf s -> table_wf t ->
  SchemaName.from_str (SchemaName.display s) = Ok s /\
  (TableName.database t = None \/ TableName.schema t <> None ->
   TableName.from_str (TableName.display t) = Ok t) /\
  (forall d, TableName.database t = Some d -> TableName.schema t = None ->
   TableName.from_str (TableName.display t) = Ok (TableName.mk None (Some d) (TableName.table t))).
Proof.
  intros [Hs Hsd] (Ht & Hts & Htd). split.
  - destruct s as [[d |] n]; simpl in *; unfold SchemaName.from_str, SchemaName.display,
      DatabaseName.display, Name.display; cbn [SchemaName.database SchemaName.schema].
    + specialize (Hsd d eq_refl). pose proof (name_wf_inv d Hsd) as [-> _]. pose proof (name_wf_inv n Hs) as [-> _].
      change (quoted 34 (Name.unescaped d) ++ [46] ++ quoted 34 (Name.unescaped n))
        with (dotted (Name.unescaped <$> [d; n])).
      rewrite qualified_names by (by repeat constructor). simpl.
      unfold SchemaName.try_new, SchemaName.with_database, DatabaseName.try_new.
      rewrite Hs. cbn [result_bind]. by rewrite Hsd.
    + pose proof (name_wf_inv n Hs) as [-> _].
      change (quoted 34 (Name.unescaped n)) with (dotted (Name.unescaped <$> [n])).
      rewrite qualified_names by (by repeat constructor). simpl. unfold SchemaName.try_new. by rewrite Hs.
  - destruct t as [od os n]; simpl in *. unfold TableName.from_str, TableName.display,
      DatabaseName.display, Name.display; cbn [TableName.database TableName.schema TableName.table].
    fold (parse_qualified_identifier) in *.
    assert (Hq : forall s, qualified_loop s [] [] false = parse_qualified_identifier s) by done.
    rewrite Hq. pose proof (name_wf_inv n Ht) as [-> _].
    destruct os as [sc |], od as [d |].
    + specialize (Hts sc eq_refl). specialize (Htd d eq_refl). split; [| done]. intros _.
      pose proof (name_wf_inv d Htd) as [-> _]. pose proof (name_wf_inv sc Hts) as [-> _].
      rewrite <- !app_assoc.
      change (quoted 34 (Name.unescaped d) ++ [46] ++ quoted 34 (Name.unescaped sc) ++ [46] ++ quoted 34 (Name.unescaped n))
        with (dotted (Name.unescaped <$> [d; sc; n])).
      rewrite qualified_names by (by repeat constructor). simpl.
      unfold TableName.try_new, TableName.with_schema, TableName.with_database, DatabaseName.try_new.
      rewrite Ht. cbn [result_bind]. rewrite Hts. cbn [result_bind]. by rewrite Htd.
    + specialize (Hts sc eq_refl). split; [| done]. intros _.
      pose proof (name_wf_inv sc Hts) as [-> _]. rewrite app_nil_l, <- app_assoc.
      change (quoted 34 (Name.unescaped sc) ++ [46] ++ quoted 34 (Name.unescaped n))
        with (dotted (Name.unescaped <$> [sc; n])).
      rewrite qualified_names by (by repeat constructor). simpl.
      unfold TableName.try_new, TableName.with_schema. rewrite Ht. cbn [result_bind]. by rewrite Hts.
    + specialize (Htd d eq_refl). split; [by intros [? | ?] |]. intros d' [= <-] _.
      pose proof (name_wf_inv d Htd) as [-> _]. rewrite app_nil_l, <- app_assoc.
      change (quoted 34 (Name.unescaped d) ++ [46] ++ quoted 34 (Name.unescaped n))
        with (dotted (Name.unescaped <$> [d; n])).
      rewrite qualified_names by (by repeat constructor). simpl.
      unfold TableName.try_new, TableName.with_schema. rewrite Ht. cbn [result_bind]. by rewrite Htd.
    + split; [| done]. intros _. rewrite !app_nil_l.
      change (quoted 34 (Name.unescaped n)) with (dotted (Name.unescaped <$> [n])).
      rewrite qualified_names by (by repeat constructor). simpl. unfold TableName.try_new. by rewrite Ht.
Qed.

Definition odd_name : Name.t := Name.mk (quoted 34 [97; 46; 34]) [97; 46; 34].

(** A [Name] can only be built within its limits: [try_new] refuses exactly
    the empty name and names of more than 1024 chars, and what it returns keeps
    the name unescaped and quotes it for SQL, the way [SqlIdentifier] does. *)
Theorem name_validated s :
  (is_ok (Name.try_new s) = true <-> s <> [] /\ (length s <= IDENTIFIER_LIMIT)%nat) /\
  (forall n, Name.try_new s = Ok n ->
     Name.unescaped n = s /\ Name.display n = SqlIdentifier s /\ Name.eqb n n = true).
Proof.
  split; [split |].
  - destruct (Name.try_new s) as [n | e] eqn:H; [| done]. intros _. by apply try_new_inv in H as [H _].
  - intros H. by rewrite try_new_ok.
  - intros n H. apply try_new_inv in H as [_ ->]. split_and!; try done. unfold Name.eqb. by apply bool_decide_eq_true.
Qed.

(** ** Quoting read by the SQL lexer *)

Lemma utf8_double_quotes q s :
  is_ascii q -> Forall is_char s -> utf8 (double_quotes q s) = double_quotes q (utf8 s).
Proof.
  intros Hq. assert (He : encode_char q = [q]) by (unfold encode_char, is_ascii in *; by bool_eval).
  assert (Ha : forall l1 l2, double_quotes q (l1 ++ l2) = double_quotes q l1 ++ double_quotes q l2).
  { induction l1 as [| x l1 IH]; intros l2; [done |]. simpl. rewrite IH. by case_match. }
  induction 1 as [| c s Hc _ IH]; [done |].
  change (utf8 (c :: s)) with (encode_char c ++ utf8 s). rewrite Ha. cbn [double_quotes].
  destruct (Z.eqb_spec c q) as [-> | Hne].
  - change (utf8 (q :: q :: double_quotes q s)) with (encode_char q ++ encode_char q ++ utf8 (double_quotes q s)).
    rewrite He, IH. simpl. by rewrite Z.eqb_refl.
  - change (utf8 (c :: double_quotes q s)) with (encode_char c ++ utf8 (double_quotes q s)).
    rewrite IH. f_equal. destruct (Z.ltb_spec c 128) as [Hlt | Hge].
    + assert (Hc' : encode_char c = [c]).
      { unfold is_char in Hc. unfold encode_char. by bool_eval. }
      rewrite Hc'. simpl. by destruct (Z.eqb_spec c q).
    + pose proof (encode_char_high c Hc Hge) as Hh. induction Hh as [| b bs Hb _ IHb]; [done |].
      simpl. unfold is_ascii in Hq. destruct (Z.eqb_spec b q); [lia |]. by rewrite <- IHb.
Qed.

(** The lexer runs over the body of a literal to its closing quote, when neither a
    quote nor a continuation follows. *)
Lemma skip_string_doubled (fuel : nat) (raw rest : list Z) :
  (length (double_quotes 39 raw ++ 39%Z :: rest) <= fuel)%nat ->
  rest !! 0%nat <> Some 39 -> string_continuation (length rest) rest false = Val None ->
  skip_string fuel (double_quotes 39 raw ++ 39 :: rest) false = Val (Some rest).
Proof.
  intros Hf Hq Hc. revert fuel Hf. induction raw as [| b raw IH]; intros fuel Hf.
  - destruct fuel as [| fuel]; [simpl in Hf; lia |]. cbn [double_quotes app skip_string].
    rewrite Z.eqb_refl.
    assert (Hend : (let! continuation := string_continuation (length rest) rest false in
       match continuation with
       | Some next => skip_string fuel next false
       | None => Val (Some rest)
       end) = Val (Some rest)) by (by rewrite Hc).
    destruct rest as [| c rest]; [exact Hend |].
    destruct (decide (c = 39)) as [-> |]; [done |].
    other_byte c Hend.
  - destruct fuel as [| fuel]; [simpl in Hf; destruct (b =? 39); simpl in Hf; lia |].
    cbn [double_quotes] in *. destruct (Z.eqb_spec b 39) as [-> |].
    + cbn [app skip_string]. rewrite Z.eqb_refl. apply IH. simpl in Hf. lia.
    + cbn [app skip_string]. destruct (Z.eqb_spec b 39); [done |]. cbn [andb].
      assert (Hg : skip_string fuel (double_quotes 39 raw ++ 39 :: rest) false = Val (Some rest))
        by (apply IH; simpl in Hf; lia).
      by destruct (double_quotes 39 raw ++ 39 :: rest).
Qed.

Lemma skip_quoted_doubled (raw rest : list Z) :
  rest !! 0%nat <> Some 34 ->
  skip_quoted_identifier (double_quotes 34 raw ++ 34 :: rest) = Some rest.
Proof.
  intros Hq. induction raw as [| b raw IH].
  - cbn [double_quotes app skip_quoted_identifier]. rewrite Z.eqb_refl.
    assert (Hend : Some rest = Some rest) by done.
    destruct rest as [| c rest]; [exact Hend |]. destruct (decide (c = 34)) as [-> |]; [done |].
    other_byte c Hend.
  - cbn [double_quotes]. destruct (Z.eqb_spec b 34) as [-> |]; cbn [app skip_quoted_identifier].
    + by rewrite Z.eqb_refl.
    + destruct (Z.eqb_spec b 34); [done | exact IH].
Qed.

Lemma lex_fuel fuel fuel' stack bytes :
  (length bytes <= fuel)%nat -> (length bytes <= fuel')%nat -> valid bytes ->
  lex fuel stack bytes = lex fuel' stack bytes.
Proof.
  revert fuel' stack bytes. induction fuel as [| fuel IH]; intros fuel' stack bytes Hl Hl' Hv.
  { destruct bytes; [| simpl in Hl; lia]. by destruct fuel'. }
  destruct bytes as [| b rest]; [by destruct fuel' |]. destruct fuel' as [| fuel']; [simpl in Hl'; lia |].
  cbn [lex]. unfold lex_step. destruct (scan_ok b rest Hv) as (s & -> & Hs). cbn [outcome_bind].
  destruct s as [st |]; [| done]. destruct (Hs st eq_refl) as [Hr1 Hr2]. simpl in Hl, Hl'.
  destruct st as [r | r | r | item r]; simpl in Hr1, Hr2.
  - apply IH; [lia | lia | done].
  - destruct (MAX_GROUP_DEPTH <? length stack)%nat; [done |]. apply IH; [lia | lia | done].
  - destruct stack as [| g [| top stack]]; [done | done |]. apply IH; [lia | lia | done].
  - destruct stack as [| top stack]; [done |]. apply IH; [lia | lia | done].
Qed.

Lemma utf8_valid s : Forall is_char s -> valid (utf8 s).
Proof. intros H. by exists s. Qed.

(** A byte of ASCII at the head of the bytes is the head of the chars. *)
Lemma utf8_head q post :
  is_ascii q -> Forall is_char post -> post !! 0%nat <> Some q -> utf8 post !! 0%nat <> Some q.
Proof.
  intros Hq Hp Hne Hx. destruct post as [| c post]; [done |]. apply Forall_cons_1 in Hp as [Hc _].
  change (utf8 (c :: post)) with (encode_char c ++ utf8 post) in Hx. apply Hne. simpl. f_equal.
  destruct (Z.ltb_spec c 128).
  - unfold is_char in Hc. revert Hx. unfold encode_char. bool_eval. simpl. congruence.
  - pose proof (encode_char_high c Hc ltac:(lia)) as Hh. destruct (encode_char_cons c) as (b & bs & Hb).
    rewrite Hb in Hx, Hh. injection Hx as ->. apply Forall_cons_1 in Hh as [Hh _].
    unfold is_ascii in Hq. lia.
Qed.

Lemma utf8_quoted q s post :
  is_ascii q -> Forall is_char s ->
  utf8 (quoted q s ++ post) = q :: double_quotes q (utf8 s) ++ q :: utf8 post.
Proof.
  intros Hq Hs. assert (He : encode_char q = [q]) by (unfold encode_char, is_ascii in *; by bool_eval).
  unfold quoted. change ((q :: double_quotes q s ++ [q]) ++ post) with (q :: (double_quotes q s ++ [q]) ++ post).
  rewrite <- app_assoc.
  change (utf8 (q :: double_quotes q s ++ [q] ++ post))
    with (encode_char q ++ utf8 (double_quotes q s ++ [q] ++ post)).
  rewrite !utf8_app, utf8_double_quotes by done. rewrite He.
  change (utf8 [q]) with (encode_char q ++ []). by rewrite He.
Qed.

Lemma identifier_token s post top stack :
  Forall is_char s -> Forall is_char post -> post !! 0%nat <> Some 34 ->
  lex (length (utf8 (escape_identifier s ++ post))) (top :: stack) (utf8 (escape_identifier s ++ post))
  = lex (length (utf8 post)) ((top ++ [Other]) :: stack) (utf8 post).
Proof.
  intros Hs Hp Hne. pose proof (utf8_valid post Hp) as Hv.
  pose proof (utf8_head 34 post ltac:(by apply ascii_lit) Hp Hne) as Hhead.
  unfold escape_identifier, SqlIdentifier, QuotedIdentifier.
  rewrite (utf8_quoted 34) by (done || by apply ascii_lit).
  cbn [length lex]. unfold lex_step, scan. cbn -[skip_quoted_identifier lex length].
  rewrite skip_quoted_doubled by done. cbn -[lex length].
  apply lex_fuel; [| done | done]. rewrite length_app. simpl. lia.
Qed.

(** C20. Escaped text cannot break out: wherever a token of the SQL starts, an
    escaped literal, whatever chars it holds, is exactly one opaque token of the
    classifier's lexer, and lexing goes on after its closing quote with the same
    nesting; so is an escaped identifier. The text after it only has to not start
    with the same quote or, for a literal, with a string continuation. *)
Theorem escaped_is_one_token s post top stack :
  Forall is_char s -> Forall is_char post ->
  (post !! 0%nat <> Some 39 -> string_continuation (length (utf8 post)) (utf8 post) false = Val None ->
   lex (length (utf8 (escape_literal s ++ post))) (top :: stack) (utf8 (escape_literal s ++ post))
   = lex (length (utf8 post)) ((top ++ [Other]) :: stack) (utf8 post)) /\
  (post !! 0%nat <> Some 34 ->
   lex (length (utf8 (escape_identifier s ++ post))) (top :: stack) (utf8 (escape_identifier s ++ post))
   = lex (length (utf8 post)) ((top ++ [Other]) :: stack) (utf8 post)).
Proof.
  intros Hs Hp. pose proof (utf8_valid post Hp) as Hv.
  split; intros Hne; [intros Hcont | by apply identifier_token].
  pose proof (utf8_head 39 post ltac:(by apply ascii_lit) Hp Hne) as Hhead.
  unfold escape_literal, SqlLiteral. rewrite (utf8_quoted 39) by (done || by apply ascii_lit).
  cbn [length lex]. unfold lex_step, scan. cbn -[skip_string lex length].
  rewrite skip_string_doubled by done. cbn -[lex length].
  apply lex_fuel; [| done | done]. rewrite length_app. simpl. lia.
Qed.

Lemma escaped_is_one_token_witness :
  lex (length (utf8 (escape_literal [39; 59; 0xE9] ++ [32; 41]))) [[]; []]
      (utf8 (escape_literal [39; 59; 0xE9] ++ [32; 41]))
   = lex 2 [[] ++ [Other]; []] (utf8 [32; 41]).
Proof.
  destruct (escaped_is_one_token [39; 59; 0xE9] [32; 41] [] [[]]) as [H _].
  - apply (bool_decide_unpack (Forall is_char [39; 59; 0xE9])). vm_compute. done.
  - apply (bool_decide_unpack (Forall is_char [32; 41])). vm_compute. done.
  - apply H; [discriminate | vm_compute; reflexivity].
Defined.
