(* ===== verification/Calendar.v ===== *)
(** * Dates and times ([hyperdb-api-core/src/types/special.rs])

    [Date], [Time], [Timestamp], [OffsetTimestamp] and [Interval]. The calendar
    arithmetic is [i32] and [i64] arithmetic, which panics or wraps on overflow
    according to the build ([overflow_checks]); [/] and [%] truncate towards
    zero. The specification is the Gregorian calendar given by its leap-year rule
    and its month lengths, and the theorems relate the two. *)

From stdpp Require Import strings.
From S2P Require Import Prelude Text HyperTypes.

Section calendar.
Context (overflow_checks : bool).

(** The results of the [i32] and [i64] operators. *)
Definition i32 (z : Z) : outcome Z := arith_i overflow_checks 32 z.
Definition i64 (z : Z) : outcome Z := arith_i overflow_checks 64 z.

(** ** [Date] *)

(** The record is its [days] field: days since 2000-01-01. *)
Definition JULIAN_DAY_EPOCH : Z := 2451545.
Definition MIN_JULIAN_DAY : Z := 1721060.
Definition MAX_JULIAN_DAY : Z := 5373484.
Definition MIN_DAYS : Z := MIN_JULIAN_DAY - JULIAN_DAY_EPOCH.
Definition MAX_DAYS : Z := MAX_JULIAN_DAY - JULIAN_DAY_EPOCH.

Definition Date : Type := Z.

Definition from_days (days : Z) : Date := days.

(** The range of an error message. *)
Definition range_text (lo hi : Z) : list Z :=
  str " is out of supported range (" ++ fmt_i lo ++ str " to " ++ fmt_i hi ++ str ", years 1-9999)".

Definition try_from_days (days : Z) : result Date (list Z) :=
  if negb ((MIN_DAYS <=? days) && (days <=? MAX_DAYS))
  then Err (str "days offset " ++ fmt_i days ++ range_text MIN_DAYS MAX_DAYS)
  else Ok days.

Definition ymd_to_days (year month day : Z) : outcome Z :=
  let y := year in
  let m := wrap_i 32 month in
  let d := wrap_i 32 day in
  let! my := (if 2 <? m then let! m := i32 (m + 1) in let! y := i32 (y + 4800) in Val (m, y)
              else let! m := i32 (m + 13) in let! y := i32 (y + 4799) in Val (m, y)) in
  let '(m, y) := my in
  let century := Z.quot y 100 in
  let! j := i32 (y * 365) in
  let! j := i32 (j - 32167) in
  let! j := i32 (j + Z.quot y 4) in
  let! j := i32 (j - century) in
  let! j := i32 (j + Z.quot century 4) in
  let! p := i32 (7834 * m) in
  let! j := i32 (j + Z.quot p 256) in
  let! julian := i32 (j + d) in
  i32 (julian - 2451545).

Definition days_to_ymd (days : Z) : outcome (Z * Z * Z) :=
  let! julian := i32 (days + 2451545) in
  let! a := i32 (julian + 32044) in
  let! p := i32 (4 * a) in
  let! p := i32 (p + 3) in
  let b := Z.quot p 146097 in
  let! q := i32 (b * 146097) in
  let! c := i32 (a - Z.quot q 4) in
  let! p := i32 (4 * c) in
  let! p := i32 (p + 3) in
  let d := Z.quot p 1461 in
  let! q := i32 (1461 * d) in
  let! e := i32 (c - Z.quot q 4) in
  let! p := i32 (5 * e) in
  let! p := i32 (p + 2) in
  let m := Z.quot p 153 in
  let! q := i32 (153 * m) in
  let! q := i32 (q + 2) in
  let! r := i32 (e - Z.quot q 5) in
  let! day := i32 (r + 1) in
  let! r := i32 (m + 3) in
  let! q := i32 (12 * Z.quot m 10) in
  let! month := i32 (r - q) in
  let! r := i32 (b * 100) in
  let! r := i32 (r + d) in
  let! r := i32 (r - 4800) in
  let! year := i32 (r + Z.quot m 10) in
  Val (year, wrap_u 32 month, wrap_u 32 day).

Definition new (year month day : Z) : outcome Date := ymd_to_days year month day.

Definition to_ymd (date : Date) : outcome (Z * Z * Z) := days_to_ymd date.

Definition encode (date : Date) : Z := wrap_u 32 (wrap_i 32 (date + JULIAN_DAY_EPOCH)).

Definition decode (encoded : Z) : Date := wrap_i 32 (wrap_i 32 encoded - JULIAN_DAY_EPOCH).

Definition try_decode (encoded : Z) : outcome (result Date (list Z)) :=
  let julian_day := wrap_i 32 encoded in
  if negb ((MIN_JULIAN_DAY <=? julian_day) && (julian_day <=? MAX_JULIAN_DAY)) then
    Val (Err (str "Julian day " ++ fmt_i julian_day ++ range_text MIN_JULIAN_DAY MAX_JULIAN_DAY))
  else if negb (in_ib 32 (julian_day - JULIAN_DAY_EPOCH)) then
    Val (Err (str "Date calculation would overflow: Julian day " ++ fmt_i julian_day
              ++ str " - epoch " ++ fmt_i JULIAN_DAY_EPOCH ++ str " exceeds i32 range"))
  else
    let days := julian_day - JULIAN_DAY_EPOCH in
    let! magnitude := i32 (Z.abs days) in
    if Z.quot (2 ^ 31 - 1) 2 <? magnitude then
      Val (Err (str "Date calculation would overflow: days offset " ++ fmt_i days
                ++ str " exceeds safe range"))
    else Val (Ok days).

Definition to_julian_day (date : Date) : Z := wrap_i 32 (date + JULIAN_DAY_EPOCH).

Definition display_date (date : Date) : outcome (list Z) :=
  let! ymd := to_ymd date in
  let '(year, month, day) := ymd in
  Val (fmt_i0 4 year ++ [45] ++ fmt_u0 2 month ++ [45] ++ fmt_u0 2 day).

Definition date_codec : ToHyperBinary Date := {|
  to_hyper_binary := fun date buf => (write_not_null_indicator buf ++ to_le 4 (to_julian_day date), Ok tt);
  to_hyper_binary_not_null := fun date buf => (buf ++ to_le 4 (to_julian_day date), Ok tt);
  hyper_binary_size := fun _ => (NULL_INDICATOR_SIZE + 4)%nat;
  hyper_binary_size_not_null := fun _ => Val 4%nat;
|}.

Definition date_from_hyper_binary (buf : list Z) : outcome (result Date (list Z)) :=
  if negb (length buf =? 4)%nat then Val (Err (str "invalid buffer size for Date"))
  else try_decode (wrap_u 32 (i_of_le buf)).

(** ** [Time] *)

(** The record is its [microseconds] field, a [u64]. *)
Definition MICROS_PER_SECOND : Z := 1000000.
Definition MICROS_PER_MINUTE : Z := 60 * MICROS_PER_SECOND.
Definition MICROS_PER_HOUR : Z := 60 * MICROS_PER_MINUTE.
Definition MAX_MICROSECONDS : Z := 24 * MICROS_PER_HOUR - 1.

Definition Time : Type := Z.

Definition try_from_microseconds (microseconds : Z) : result Time (list Z) :=
  if MAX_MICROSECONDS <? microseconds
  then Err (str "Time microseconds " ++ fmt_u microseconds ++ str " exceeds 24-hour limit ("
            ++ fmt_u MAX_MICROSECONDS ++ str ")")
  else Ok microseconds.

(** The sum of four [u32] fields in microseconds always fits a [u64]. *)
Definition time_new (hour minute second microsecond : Z) : Time :=
  hour * MICROS_PER_HOUR + minute * MICROS_PER_MINUTE + second * MICROS_PER_SECOND + microsecond.

Definition to_hms_micro (time : Time) : Z * Z * Z * Z :=
  let hour := wrap_u 32 (Z.quot time MICROS_PER_HOUR) in
  let remaining := Z.rem time MICROS_PER_HOUR in
  let minute := wrap_u 32 (Z.quot remaining MICROS_PER_MINUTE) in
  let remaining := Z.rem remaining MICROS_PER_MINUTE in
  let second := wrap_u 32 (Z.quot remaining MICROS_PER_SECOND) in
  let microsecond := wrap_u 32 (Z.rem remaining MICROS_PER_SECOND) in
  (hour, minute, second, microsecond).

Definition time_encode (time : Time) : Z := time.
Definition time_decode (encoded : Z) : Time := encoded.
Definition time_to_microseconds (time : Time) : Z := wrap_i 64 time.

Definition display_time (time : Time) : list Z :=
  let '(h, m, s, us) := to_hms_micro time in
  let hms := fmt_u0 2 h ++ [58] ++ fmt_u0 2 m ++ [58] ++ fmt_u0 2 s in
  if us =? 0 then hms else hms ++ [46] ++ fmt_u0 6 us.

Definition time_codec : ToHyperBinary Time := le_codec 8.

Definition time_from_hyper_binary (buf : list Z) : result Time (list Z) :=
  if negb (length buf =? 8)%nat then Err (str "invalid buffer size for Time")
  else try_from_microseconds (u_of_le buf).

(** ** [Timestamp] *)

(** The record is its [microseconds] field, an [i64]. *)
Definition MICROS_PER_DAY : Z := 24 * 60 * 60 * 1000000.
Definition EPOCH_OFFSET_MICROS : Z := JULIAN_DAY_EPOCH * MICROS_PER_DAY.

Definition Timestamp : Type := Z.

Definition timestamp_new (date : Date) (time : Time) : outcome Timestamp :=
  let! date_micros := i64 (date * MICROS_PER_DAY) in
  let time_micros := wrap_i 64 time in
  i64 (date_micros + time_micros).

(** [div_euclid] and [rem_euclid] by a positive number. *)
Definition to_date_time (ts : Timestamp) : Date * Time :=
  (from_days (wrap_i 32 (ts / MICROS_PER_DAY)), wrap_u 64 (ts `mod` MICROS_PER_DAY)).

Definition timestamp_encode (ts : Timestamp) : Z := wrap_u 64 (wrap_i 64 (ts + EPOCH_OFFSET_MICROS)).

Definition timestamp_decode (encoded : Z) : Timestamp :=
  wrap_i 64 (wrap_i 64 encoded - EPOCH_OFFSET_MICROS).

Definition to_microseconds (ts : Timestamp) : outcome Z := i64 (ts + EPOCH_OFFSET_MICROS).

Definition display_timestamp (ts : Timestamp) : outcome (list Z) :=
  let '(date, time) := to_date_time ts in
  let! d := display_date date in
  Val (d ++ [32] ++ display_time time).

(** [to_hyper_binary] and its NOT NULL form; the sizes are those of an [i64]. *)
Definition timestamp_to_hyper_binary (ts : Timestamp) (buf : list Z) : outcome (list Z) :=
  let buf := write_not_null_indicator buf in
  let! m := to_microseconds ts in Val (buf ++ to_le 8 m).

Definition timestamp_to_hyper_binary_not_null (ts : Timestamp) (buf : list Z) : outcome (list Z) :=
  let! m := to_microseconds ts in Val (buf ++ to_le 8 m).

Definition timestamp_from_hyper_binary (buf : list Z) : result Timestamp (list Z) :=
  if negb (length buf =? 8)%nat then Err (str "invalid buffer size for Timestamp")
  else Ok (timestamp_decode (u_of_le buf)).

(** ** [OffsetTimestamp] *)

Record OffsetTimestamp : Type := mk_offset { timestamp : Timestamp; offset_minutes : Z }.

Definition from_utc (utc_timestamp : Timestamp) (offset_minutes : Z) : OffsetTimestamp :=
  mk_offset utc_timestamp offset_minutes.

Definition local_timestamp (o : OffsetTimestamp) : outcome Timestamp :=
  let! m := i64 (offset_minutes o * 60) in
  let! offset_micros := i64 (m * 1000000) in
  i64 (timestamp o + offset_micros).

Definition offset_encode (o : OffsetTimestamp) : Z := timestamp_encode (timestamp o).
Definition offset_decode (encoded : Z) : OffsetTimestamp := mk_offset (timestamp_decode encoded) 0.

Definition display_offset (o : OffsetTimestamp) : outcome (list Z) :=
  let! local := local_timestamp o in
  let '(date, time) := to_date_time local in
  let offset_hours := Z.quot (offset_minutes o) 60 in
  let offset_mins := Z.abs (Z.rem (offset_minutes o) 60) in
  let sign := if 0 <=? offset_minutes o then 43 else 45 in
  let! d := display_date date in
  Val (d ++ [32] ++ display_time time ++ [sign] ++ fmt_i0 2 (Z.abs offset_hours) ++ [58]
       ++ fmt_i0 2 offset_mins).

Definition offset_from_hyper_binary (buf : list Z) : result OffsetTimestamp (list Z) :=
  let? ts := timestamp_from_hyper_binary buf in Ok (mk_offset ts 0).

(** ** [Interval] *)

Record Interval : Type := mk_interval { microseconds : Z; days : Z; months : Z }.

Definition interval_new (months days microseconds : Z) : Interval :=
  mk_interval microseconds days months.

Definition from_years (years : Z) : outcome Interval :=
  let! m := i32 (years * 12) in Val (interval_new m 0 0).
Definition from_months (months : Z) : Interval := interval_new months 0 0.
Definition interval_from_days (days : Z) : Interval := interval_new 0 days 0.
Definition from_hours (hours : Z) : outcome Interval :=
  let! us := i64 (hours * 3600000000) in Val (interval_new 0 0 us).
Definition from_minutes (minutes : Z) : outcome Interval :=
  let! us := i64 (minutes * 60000000) in Val (interval_new 0 0 us).
Definition from_seconds (seconds : Z) : outcome Interval :=
  let! us := i64 (seconds * 1000000) in Val (interval_new 0 0 us).
Definition from_microseconds (microseconds : Z) : Interval := interval_new 0 0 microseconds.

Definition interval_encode (i : Interval) : list Z :=
  to_le 8 (microseconds i) ++ to_le 4 (days i) ++ to_le 4 (months i).

(** The argument is a 16-byte array. *)
Definition interval_decode (buf : list Z) : Interval :=
  mk_interval (i_of_le (take 8 buf)) (i_of_le (take 4 (drop 8 buf))) (i_of_le (take 4 (drop 12 buf))).

(** [parts.join(" ")]. *)
Fixpoint join_spaces (parts : list (list Z)) : list Z :=
  match parts with
  | [] => []
  | [p] => p
  | p :: parts => p ++ [32] ++ join_spaces parts
  end.

(** [format!("{} unit{}", n, if n.abs() == 1 { "" } else { "s" })]. *)
Definition unit_part (n : Z) (unit : string) : outcome (list Z) :=
  let! magnitude := i32 (Z.abs n) in
  Val (fmt_i n ++ [32] ++ str unit ++ (if magnitude =? 1 then [] else [115])).

Definition display_interval (i : Interval) : outcome (list Z) :=
  let years := Z.quot (months i) 12 in
  let months := Z.rem (months i) 12 in
  let! parts := (if negb (years =? 0) then let! p := unit_part years "year" in Val [p] else Val []) in
  let! parts := (if negb (months =? 0) then let! p := unit_part months "mon" in Val (parts ++ [p])
                 else Val parts) in
  let! parts := (if negb (days i =? 0) then let! p := unit_part (days i) "day" in Val (parts ++ [p])
                 else Val parts) in
  let parts :=
    if negb (microseconds i =? 0) || (length parts =? 0)%nat then
      let sign := if microseconds i <? 0 then [45] else [] in
      let abs := Z.abs (microseconds i) in
      let total_seconds := abs / 1000000 in
      let micros := abs `mod` 1000000 in
      let hours := total_seconds / 3600 in
      let minutes := (total_seconds `mod` 3600) / 60 in
      let seconds := total_seconds `mod` 60 in
      let hms := sign ++ fmt_u0 2 hours ++ [58] ++ fmt_u0 2 minutes ++ [58] ++ fmt_u0 2 seconds in
      if micros =? 0 then parts ++ [hms] else parts ++ [hms ++ [46] ++ fmt_u0 6 micros]
    else parts in
  Val (join_spaces parts).

Definition interval_codec : ToHyperBinary Interval := {|
  to_hyper_binary := fun i buf => (write_not_null_indicator buf ++ interval_encode i, Ok tt);
  to_hyper_binary_not_null := fun i buf => (buf ++ interval_encode i, Ok tt);
  hyper_binary_size := fun _ => (NULL_INDICATOR_SIZE + 16)%nat;
  hyper_binary_size_not_null := fun _ => Val 16%nat;
|}.

Definition interval_from_hyper_binary (buf : list Z) : result Interval (list Z) :=
  if negb (length buf =? 16)%nat then Err (str "invalid buffer size for Interval")
  else Ok (interval_decode buf).

End calendar.

(** ** The Gregorian calendar *)

Definition leap (y : Z) : bool :=
  (y `mod` 4 =? 0) && (negb (y `mod` 100 =? 0) || (y `mod` 400 =? 0)).

Definition days_in_month (y m : Z) : Z :=
  if m =? 2 then if leap y then 29 else 28
  else if bool_decide (m ∈ [4; 6; 9; 11]) then 30 else 31.

Definition valid_ymd (y m d : Z) : Prop :=
  0 <= y <= 9999 /\ 1 <= m <= 12 /\ 1 <= d <= days_in_month y m.

Definition next_day (ymd : Z * Z * Z) : Z * Z * Z :=
  let '(y, m, d) := ymd in
  if d <? days_in_month y m then (y, m, d + 1)
  else if m <? 12 then (y, m + 1, 1) else (y + 1, 1, 1).

#[export] Instance valid_ymd_dec y m d : Decision (valid_ymd y m d).
Proof. unfold valid_ymd; apply _. Defined.

(** ** Proofs: dates *)

(** The algorithms count years from March of -4800. A year [Y] of that count is
    [400 * q + 100 * r + 4 * s + t], a month [k] of it starts [month_start k]
    days in. *)
Definition month_start (k : Z) : Z := (153 * k + 2) / 5.

Definition day_number (q r s t e : Z) : Z :=
  146097 * q + 36524 * r + 1461 * s + 365 * t + e - 32044 - 2451545.

Lemma year_parts Y :
  0 <= Y -> exists q r s t,
    Y = 400 * q + 100 * r + 4 * s + t /\ 0 <= q /\ 0 <= r <= 3 /\ 0 <= s <= 24 /\ 0 <= t <= 3.
Proof.
  intros H. exists (Y / 400), (Y mod 400 / 100), (Y mod 100 / 4), (Y mod 4).
  Z.div_mod_to_equations. lia.
Qed.

Lemma quot_is a b q r : a = b * q + r -> 0 <= r < b -> 0 <= q -> Z.quot a b = q.
Proof.
  intros -> Hr Hq. rewrite Z.quot_div_nonneg by nia. symmetry. by apply (Z.div_unique _ _ q r); [left |].
Qed.

Lemma i32_step {B} oc z v (k : Z -> outcome B) :
  z = v -> in_i 32 v -> (let! x := i32 oc z in k x) = k v.
Proof. intros -> H. unfold i32. by rewrite arith_i_val. Qed.

(** [step v] runs the next [i32] operation, whose value is [v]. *)
Ltac step v := rewrite (i32_step _ _ v) by (unfold in_i; lia).

Lemma month_cases k : 0 <= k <= 11 ->
  k = 0 \/ k = 1 \/ k = 2 \/ k = 3 \/ k = 4 \/ k = 5 \/ k = 6 \/ k = 7 \/ k = 8 \/ k = 9 \/ k = 10 \/ k = 11.
Proof. lia. Qed.

Lemma month_start_quot k : 0 <= k <= 11 ->
  Z.quot (7834 * (k + 4)) 256 = month_start k + 122 /\ Z.quot (153 * k + 2) 5 = month_start k
  /\ 0 <= month_start k <= 337.
Proof.
  intros H. destruct (month_cases k H) as [-> | [-> | [-> | [-> | [-> | [-> | [-> | [-> | [-> | [-> | [-> | ->]]]]]]]]]]];
    vm_compute; repeat split; discriminate.
Qed.

Section date_proofs.
Context (oc : bool) (q r s t : Z).
Context (Hq : 0 <= q <= 36) (Hr : 0 <= r <= 3) (Hs : 0 <= s <= 24) (Ht : 0 <= t <= 3).
Let Y := 400 * q + 100 * r + 4 * s + t.

Lemma ymd_to_days_val y m k d :
  1 <= d <= 31 -> 0 <= k <= 11 -> 
  (m = k + 3 /\ k <= 9 /\ Y = y + 4800) \/ (m = k - 9 /\ 10 <= k /\ Y = y + 4799) ->
  ymd_to_days oc y m d = Val (day_number q r s t (month_start k + d - 1)).
Proof.
  intros Hd Hk Hm. destruct (month_start_quot k Hk) as (Hms & _ & Hmb).
  unfold ymd_to_days. rewrite !wrap_i_id by (unfold in_i; lia).
  transitivity (let! my := Val (k + 4, Y) in
    let '(m, y) := my in
    let century := Z.quot y 100 in
    let! j := i32 oc (y * 365) in
    let! j := i32 oc (j - 32167) in
    let! j := i32 oc (j + Z.quot y 4) in
    let! j := i32 oc (j - century) in
    let! j := i32 oc (j + Z.quot century 4) in
    let! p := i32 oc (7834 * m) in
    let! j := i32 oc (j + Z.quot p 256) in
    let! julian := i32 oc (j + d) in
    i32 oc (julian - 2451545)).
  { f_equal. cond.
    - step (k + 4). by step Y.
    - step (k + 4). by step Y. }
  cbn [outcome_bind]. cbv zeta.
  rewrite (quot_is Y 100 (4 * q + r) (4 * s + t)) by (subst Y; lia).
  rewrite (quot_is Y 4 (100 * q + 25 * r + s) t) by (subst Y; lia).
  rewrite (quot_is (4 * q + r) 4 q r) by lia.
  step (365 * Y). step (365 * Y - 32167). step (365 * Y - 32167 + (100 * q + 25 * r + s)).
  step (365 * Y - 32167 + (100 * q + 25 * r + s) - (4 * q + r)).
  step (365 * Y - 32167 + (100 * q + 25 * r + s) - (4 * q + r) + q).
  step (7834 * (k + 4)). rewrite Hms.
  step (365 * Y - 32045 + (100 * q + 25 * r + s) - (4 * q + r) + q + month_start k).
  step (365 * Y - 32045 + (100 * q + 25 * r + s) - (4 * q + r) + q + month_start k + d).
  unfold i32. rewrite arith_i_val by (unfold in_i; lia). unfold day_number. f_equal. subst Y. lia.
Qed.

Lemma days_to_ymd_val k d :
  0 <= k <= 11 -> 1 <= d -> (k = 11 \/ month_start k + d <= month_start (k + 1)) ->
  month_start k + d <= 365 \/ (month_start k + d = 366 /\ t = 3 /\ (s <> 24 \/ r = 3)) ->
  days_to_ymd oc (day_number q r s t (month_start k + d - 1))
  = Val (Y - 4800 + k / 10, k + 3 - 12 * (k / 10), d).
Proof.
  intros Hk Hd Hnext He. destruct (month_start_quot k Hk) as (_ & Hms & Hmb).
  set (e := month_start k + d - 1) in *.
  set (R := 1461 * s + 365 * t + e).
  assert (0 <= R <= 36524) by lia.
  assert (HR : r < 3 -> R <= 36523) by lia.
  unfold days_to_ymd, day_number. set (a := 146097 * q + 36524 * r + R).
  step (a - 32044). step a. step (4 * a). step (4 * a + 3).
  rewrite (quot_is (4 * a + 3) 146097 (4 * q + r) (4 * R + 3 - r)) by (subst a; lia).
  cbv zeta. step ((4 * q + r) * 146097).
  rewrite (quot_is ((4 * q + r) * 146097) 4 (146097 * q + 36524 * r) r) by lia.
  step R. step (4 * R). step (4 * R + 3).
  rewrite (quot_is (4 * R + 3) 1461 (4 * s + t) (4 * e + 3 - t)) by (subst R; lia).
  step (1461 * (4 * s + t)).
  rewrite (quot_is (1461 * (4 * s + t)) 4 (1461 * s + 365 * t) t) by lia.
  step e. step (5 * e). step (5 * e + 2).
  assert (Hmq : Z.quot (5 * e + 2) 153 = k).
  { clear - Hk Hd Hnext He. subst e.
    apply (quot_is _ _ _ (5 * (month_start k + d - 1) + 2 - 153 * k)); [lia | | lia].
    unfold month_start in *. Z.div_mod_to_equations. lia. }
  rewrite Hmq. step (153 * k). step (153 * k + 2). rewrite Hms. step (d - 1). step d.
  assert (Hq10 : Z.quot k 10 = k / 10) by (apply Z.quot_div_nonneg; lia). rewrite Hq10.
  assert (0 <= k / 10 <= 1) by (Z.div_mod_to_equations; lia).
  step (k + 3). step (12 * (k / 10)). step (k + 3 - 12 * (k / 10)).
  step ((4 * q + r) * 100). step ((4 * q + r) * 100 + (4 * s + t)).
  step (Y - 4800). step (Y - 4800 + k / 10).
  rewrite !wrap_u_id; [done | unfold in_u; lia |].
  unfold in_u. Z.div_mod_to_equations. lia.
Qed.
End date_proofs.

(** The day number of a valid date, and what both conversions make of it. *)
Definition civil_days (y m d : Z) : Z :=
  let Y := if 2 <? m then y + 4800 else y + 4799 in
  let k := if 2 <? m then m - 3 else m + 9 in
  365 * Y + Y / 4 - Y / 100 + Y / 400 + (month_start k + d - 1) - 32044 - 2451545.

Lemma leap_spec y : leap y = true <-> y mod 4 = 0 /\ (y mod 100 <> 0 \/ y mod 400 = 0).
Proof.
  unfold leap. rewrite andb_true_iff, orb_true_iff, negb_true_iff, !Z.eqb_eq, Z.eqb_neq. done.
Qed.

(** The length of a month, by the place of the next one; of February, by the
    leap year. *)
Lemma days_in_month_start y m :
  1 <= m <= 12 -> m <> 2 ->
  let k := if 2 <? m then m - 3 else m + 9 in
  days_in_month y m = month_start (k + 1) - month_start k.
Proof.
  intros Hm Hne k. assert (m = 1 \/ 3 <= m <= 12) as [-> | Hm'] by lia; [done |].
  subst k. destruct (Z.ltb_spec 2 m); [| lia].
  destruct (month_cases (m - 3) ltac:(lia)) as [E | [E | [E | [E | [E | [E | [E | [E | [E | [E | [E | E]]]]]]]]]]];
    try lia; apply Z.sub_move_r in E; subst m; reflexivity.
Qed.

Lemma civil_parts y m d :
  valid_ymd y m d ->
  exists q r s t k,
    0 <= q <= 36 /\ 0 <= r <= 3 /\ 0 <= s <= 24 /\ 0 <= t <= 3 /\ 0 <= k <= 11
    /\ ((m = k + 3 /\ k <= 9 /\ 400 * q + 100 * r + 4 * s + t = y + 4800)
        \/ (m = k - 9 /\ 10 <= k /\ 400 * q + 100 * r + 4 * s + t = y + 4799))
    /\ (k = 11 \/ month_start k + d <= month_start (k + 1))
    /\ (month_start k + d <= 365 \/ (month_start k + d = 366 /\ t = 3 /\ (s <> 24 \/ r = 3)))
    /\ civil_days y m d = day_number q r s t (month_start k + d - 1).
Proof.
  intros (Hy & Hm & Hd). pose proof (days_in_month_start y m Hm) as Hdm. cbv zeta in Hdm.
  unfold civil_days. set (Y := if 2 <? m then y + 4800 else y + 4799).
  set (k := if 2 <? m then m - 3 else m + 9) in *.
  assert (0 <= k <= 11) by (subst k; destruct (Z.ltb_spec 2 m); lia).
  assert (4799 <= Y <= 14799) by (subst Y; destruct (Z.ltb_spec 2 m); lia).
  destruct (year_parts Y) as (q & r & s & t & HY & Hq & Hr & Hs & Ht); [lia |].
  exists q, r, s, t, k. split_and!; try lia.
  - subst Y k. destruct (Z.ltb_spec 2 m); lia.
  - destruct (decide (m = 2)) as [-> | Hm2]; [left; done |]. right. specialize (Hdm Hm2). lia.
  - destruct (decide (m = 2)) as [-> | Hm2].
    + subst k Y. cbn in *. change (month_start (2 + 9)) with 337. unfold days_in_month in Hd. cbn in Hd.
      destruct (leap y) eqn:Hl; [| lia].
      apply leap_spec in Hl. destruct (decide (d = 29)) as [-> |]; [right | lia].
      split; [done |]. clear - Hl HY Hr Hs Ht Hq. Z.div_mod_to_equations. lia.
    + specialize (Hdm Hm2). left. assert (k <= 10) by (subst k; destruct (Z.ltb_spec 2 m); lia).
      transitivity (month_start (k + 1)); [lia |].
      unfold month_start. Z.div_mod_to_equations. lia.
  - unfold day_number. rewrite HY. clear - Hq Hr Hs Ht. Z.div_mod_to_equations. lia.
Qed.

Lemma new_valid oc y m d : valid_ymd y m d -> new oc y m d = Val (civil_days y m d).
Proof.
  intros Hv. destruct (civil_parts y m d Hv) as (q & r & s & t & k & ? & ? & ? & ? & ? & Hm & Hn & He & ->).
  unfold new. apply ymd_to_days_val; try done. destruct Hv as (_ & _ & Hd). split; [lia |].
  unfold days_in_month in Hd. repeat case_match; lia.
Qed.

Lemma to_ymd_valid oc y m d : valid_ymd y m d -> to_ymd oc (civil_days y m d) = Val (y, m, d).
Proof.
  intros Hv. destruct (civil_parts y m d Hv) as (q & r & s & t & k & ? & ? & ? & ? & ? & Hm & Hn & He & ->).
  unfold to_ymd. rewrite days_to_ymd_val; try done; [| by destruct Hv; lia].
  destruct Hm as [(-> & Hk & HY) | (-> & Hk & HY)].
  - rewrite (Z.div_small k 10) by lia. rewrite HY. do 3 f_equal; lia.
  - replace (k / 10) with 1 by (Z.div_mod_to_equations; lia). rewrite HY. do 3 f_equal; lia.
Qed.

(** The calendar counts days: the next date is the next day. *)
Lemma civil_next y m d :
  valid_ymd y m d ->
  let '(y', m', d') := next_day (y, m, d) in civil_days y' m' d' = civil_days y m d + 1.
Proof.
  intros (Hy & Hm & Hd). unfold next_day. destruct (Z.ltb_spec d (days_in_month y m)) as [Hlt | Hge].
  { unfold civil_days. lia. }
  assert (d = days_in_month y m) as -> by lia.
  destruct (Z.ltb_spec m 12) as [Hm12 | Hm12].
  - destruct (decide (m = 2)) as [-> | Hm2].
    + unfold civil_days, days_in_month. change (2 <? 2 + 1) with true. change (2 <? 2) with false.
      change (2 =? 2) with true. cbv iota zeta.
      change (month_start (2 + 9)) with 337. change (month_start (2 + 1 - 3)) with 0.
      pose proof (leap_spec y) as Hl. destruct (leap y).
      * assert (H : true = true) by done. apply Hl in H. clear Hl. Z.div_mod_to_equations. lia.
      * assert (~ (y mod 4 = 0 /\ (y mod 100 <> 0 \/ y mod 400 = 0))) as H by (by intros ?%Hl).
        clear Hl. Z.div_mod_to_equations. lia.
    + rewrite days_in_month_start by lia. unfold civil_days.
      destruct (Z.ltb_spec 2 m); destruct (Z.ltb_spec 2 (m + 1)); try lia.
      * replace (m + 1 - 3) with (m - 3 + 1) by lia. lia.
      * replace (m + 1 + 9) with (m + 9 + 1) by lia. lia.
  - assert (m = 12) as -> by lia. change (days_in_month y 12) with 31. unfold civil_days. cbn.
    change (month_start (12 - 3)) with 275. change (month_start (1 + 9)) with 306.
    replace (y + 1 + 4799) with (y + 4800) by lia. lia.
Qed.

Lemma next_day_valid y m d :
  valid_ymd y m d -> civil_days y m d < MAX_DAYS ->
  let '(y', m', d') := next_day (y, m, d) in valid_ymd y' m' d'.
Proof.
  intros (Hy & Hm & Hd) Hlt. unfold next_day. assert (Hpos : forall y m, 28 <= days_in_month y m).
  { intros y' m'. unfold days_in_month. repeat case_match; lia. }
  destruct (Z.ltb_spec d (days_in_month y m)); [split_and!; lia |].
  destruct (Z.ltb_spec m 12).
  { pose proof (Hpos y (m + 1)). split_and!; lia. }
  pose proof (Hpos (y + 1) 1). split_and!; try lia.
  destruct (decide (y = 9999)) as [-> |]; [exfalso | lia].
  assert (m = 12) as -> by lia. change (days_in_month 9999 12) with 31 in *. assert (d = 31) as -> by lia.
  revert Hlt. vm_compute. done.
Qed.

(** Every day of the supported range is the day of a valid date. *)
Lemma civil_onto n :
  MIN_DAYS <= n <= MAX_DAYS -> exists y m d, valid_ymd y m d /\ civil_days y m d = n.
Proof.
  intros [Hlo Hhi]. revert Hhi. pattern n. apply Zlt_lower_bound_ind with (z := MIN_DAYS); [| done].
  clear n Hlo. intros n IH Hlo Hhi. destruct (decide (n = MIN_DAYS)) as [-> | Hne].
  { exists 0, 1, 1. split; [apply (bool_decide_unpack (valid_ymd 0 1 1)); vm_compute; done | done]. }
  destruct (IH (n - 1)) as (y & m & d & Hv & Hn); [lia | lia |].
  pose proof (civil_next y m d Hv) as Hnext.
  pose proof (next_day_valid y m d Hv ltac:(lia)) as Hv'.
  destruct (next_day (y, m, d)) as [[y' m'] d']. exists y', m', d'. split; [done | lia].
Qed.

Lemma civil_range y m d : valid_ymd y m d -> MIN_DAYS <= civil_days y m d <= MAX_DAYS.
Proof.
  intros Hv. pose proof Hv as (Hy & Hm & Hd).
  assert (Hk : forall k, 0 <= k <= 11 -> 0 <= month_start k <= 337).
  { intros k ?. unfold month_start. Z.div_mod_to_equations. lia. }
  assert (Hd' : days_in_month y m <= 31) by (unfold days_in_month; repeat case_match; lia).
  unfold civil_days, MIN_DAYS, MAX_DAYS, MIN_JULIAN_DAY, MAX_JULIAN_DAY, JULIAN_DAY_EPOCH.
  destruct (Z.ltb_spec 2 m).
  - pose proof (Hk (m - 3) ltac:(lia)). assert (month_start (m - 3) <= 275).
    { unfold month_start. Z.div_mod_to_equations. lia. }
    Z.div_mod_to_equations. lia.
  - pose proof (Hk (m + 9) ltac:(lia)). assert (306 <= month_start (m + 9)).
    { unfold month_start. Z.div_mod_to_equations. lia. }
    Z.div_mod_to_equations. lia.
Qed.

(** ** Proofs: times, timestamps and intervals *)

Lemma time_new_bound h m s us :
  in_u 32 h -> in_u 32 m -> in_u 32 s -> in_u 32 us -> in_u 64 (time_new h m s us).
Proof.
  unfold in_u, time_new, MICROS_PER_HOUR, MICROS_PER_MINUTE, MICROS_PER_SECOND. lia.
Qed.

Lemma hms_new h m s us :
  0 <= h < 2 ^ 32 -> 0 <= m < 60 -> 0 <= s < 60 -> 0 <= us < 1000000 ->
  to_hms_micro (time_new h m s us) = (h, m, s, us).
Proof.
  intros Hh Hm Hs Hus. unfold to_hms_micro, time_new, MICROS_PER_HOUR, MICROS_PER_MINUTE, MICROS_PER_SECOND.
  set (t := _ + us).
  rewrite (quot_is t (60 * (60 * 1000000)) h (m * 60000000 + s * 1000000 + us)) by lia.
  assert (Hr : Z.rem t (60 * (60 * 1000000)) = m * 60000000 + s * 1000000 + us).
  { symmetry. apply (Z.rem_unique _ _ h); lia. }
  rewrite Hr. rewrite (quot_is _ (60 * 1000000) m (s * 1000000 + us)) by lia.
  assert (Hr2 : Z.rem (m * 60000000 + s * 1000000 + us) (60 * 1000000) = s * 1000000 + us).
  { symmetry. apply (Z.rem_unique _ _ m); lia. }
  rewrite Hr2. rewrite (quot_is _ 1000000 s us) by lia.
  assert (Hr3 : Z.rem (s * 1000000 + us) 1000000 = us).
  { symmetry. apply (Z.rem_unique _ _ s); lia. }
  rewrite Hr3, !wrap_u_id by (unfold in_u; lia). done.
Qed.

(** A time below 24 hours is the one its components build. *)
Lemma time_parts t :
  0 <= t <= MAX_MICROSECONDS ->
  exists h m s us, t = time_new h m s us /\ 0 <= h < 24 /\ 0 <= m < 60 /\ 0 <= s < 60 /\ 0 <= us < 1000000.
Proof.
  unfold MAX_MICROSECONDS, time_new, MICROS_PER_HOUR, MICROS_PER_MINUTE, MICROS_PER_SECOND. intros H.
  exists (t / 3600000000), (t `mod` 3600000000 / 60000000), (t `mod` 60000000 / 1000000), (t `mod` 1000000).
  Z.div_mod_to_equations. lia.
Qed.

Lemma time_max_in_u t : 0 <= t <= MAX_MICROSECONDS -> in_u 64 t.
Proof. unfold in_u, MAX_MICROSECONDS, MICROS_PER_HOUR, MICROS_PER_MINUTE, MICROS_PER_SECOND. lia. Qed.

Lemma to_date_time_eq ts :
  in_i 64 ts -> exists d t, to_date_time ts = (d, t) /\ ts = d * MICROS_PER_DAY + t
    /\ 0 <= t <= MAX_MICROSECONDS /\ -106751992 <= d <= 106751991.
Proof.
  unfold in_i. intros H. exists (ts / MICROS_PER_DAY), (ts `mod` MICROS_PER_DAY).
  assert (Hm : MICROS_PER_DAY = 86400000000) by done.
  assert (HM : MAX_MICROSECONDS = 86399999999) by done. rewrite Hm, HM.
  assert (0 <= ts `mod` 86400000000 < 86400000000) by (apply Z.mod_pos_bound; lia).
  assert (-106751992 <= ts / 86400000000 <= 106751991) by (Z.div_mod_to_equations; lia).
  split_and!; try lia; [| Z.div_mod_to_equations; lia].
  unfold to_date_time, from_days. rewrite Hm, wrap_i_id, wrap_u_id; [done | unfold in_u | | unfold in_i]; lia.
Qed.

Lemma arith_i_panic w z : in_i w z \/ arith_i true w z = Panic.
Proof.
  destruct (decide (in_i w z)) as [? | Hn]; [by left |]. right. unfold arith_i.
  destruct (in_ib w z) eqn:E; [by apply in_ib_spec in E | done].
Qed.

(** Sums that wrap around come back when they are undone by wrapping. *)
Lemma wrap_i_undo w a b : 0 < w -> in_i w a -> wrap_i w (wrap_i w (a + b) - b) = a.
Proof.
  intros Hw Ha. unfold Z.sub. rewrite wrap_i_add_l. replace (a + b + - b) with a by lia. by apply wrap_i_id.
Qed.

Lemma length_interval_encode i : length (interval_encode i) = 16%nat.
Proof. unfold interval_encode. by rewrite !length_app, !length_to_le. Qed.

Lemma unit_part_val oc n unit : - 2 ^ 31 < n < 2 ^ 31 -> exists text, unit_part oc n unit = Val text.
Proof. intros H. unfold unit_part, i32. rewrite arith_i_val by (unfold in_i; lia). eauto. Qed.

(** [try_decode] never panics and is exactly the range check. *)
Lemma try_decode_spec oc encoded :
  exists r, try_decode oc encoded = Val r
    /\ forall date, r = Ok date <->
         MIN_JULIAN_DAY <= wrap_i 32 encoded <= MAX_JULIAN_DAY /\ date = wrap_i 32 encoded - JULIAN_DAY_EPOCH.
Proof.
  unfold try_decode. set (j := wrap_i 32 encoded).
  unfold MIN_JULIAN_DAY, MAX_JULIAN_DAY, JULIAN_DAY_EPOCH.
  destruct (Z.leb_spec 1721060 j); destruct (Z.leb_spec j 5373484); cbn [andb negb].
  2-4: eexists; split; [done |]; intros date; split; [done | lia].
  rewrite (proj2 (in_ib_spec 32 _)) by (unfold in_i; lia). cbn [negb].
  unfold i32. rewrite arith_i_val by (unfold in_i; lia). cbn [outcome_bind].
  change (Z.quot (2 ^ 31 - 1) 2) with 1073741823.
  destruct (Z.ltb_spec 1073741823 (Z.abs (j - 2451545))) as [Hq | _]; [lia |].
  eexists. split; [done |]. intros date. split; [intros [= <-]; lia | by intros [_ ->]].
Qed.

(** ** The properties *)

(** C39. Over the whole supported range, and without an overflow, [to_ymd] and
    [new] are the Gregorian calendar: a day converts to a valid date, the date
    converts back to the day, and the next day is the next date of the calendar;
    every valid date of the years 0 to 9999 is reached; day 0 is 2000-01-01, and
    the range starts on 0000-01-01. *)
Theorem date_gregorian oc :
  (forall n, MIN_DAYS <= n <= MAX_DAYS ->
     exists y m d, valid_ymd y m d /\ to_ymd oc n = Val (y, m, d) /\ new oc y m d = Val n
       /\ (n < MAX_DAYS -> to_ymd oc (n + 1) = Val (next_day (y, m, d))))
  /\ (forall y m d, valid_ymd y m d ->
        exists n, MIN_DAYS <= n <= MAX_DAYS /\ new oc y m d = Val n /\ to_ymd oc n = Val (y, m, d))
  /\ to_ymd oc 0 = Val (2000, 1, 1)
  /\ to_ymd oc MIN_DAYS = Val (0, 1, 1)
  /\ to_ymd oc MAX_DAYS = Val (9999, 12, 31).
Proof.
  split_and!; try (by destruct oc).
  - intros n Hn. destruct (civil_onto n Hn) as (y & m & d & Hv & <-). exists y, m, d.
    split_and!; [done | by apply to_ymd_valid | by apply new_valid |]. intros Hlt.
    pose proof (civil_next y m d Hv) as Hnext. pose proof (next_day_valid y m d Hv Hlt) as Hv'.
    destruct (next_day (y, m, d)) as [[y' m'] d']. rewrite <- Hnext. by apply to_ymd_valid.
  - intros y m d Hv. exists (civil_days y m d).
    split_and!; [by apply civil_range .. | by apply new_valid | by apply to_ymd_valid].
Qed.

Lemma date_gregorian_witness :
  exists n, MIN_DAYS <= n <= MAX_DAYS /\ new true 2024 2 29 = Val n /\ to_ymd true n = Val (2024, 2, 29).
Proof.
  destruct (date_gregorian true) as (_ & H & _). apply H.
  apply (bool_decide_unpack (valid_ymd 2024 2 29)). vm_compute. done.
Defined.

(** [Date::encode] and [Date::decode] are inverse bijections, and the binary
    reader, which never panics, accepts exactly the encodings of the dates of the
    supported range. *)
Theorem date_binary_exact oc :
  (forall date, in_i 32 date -> decode (encode date) = date)
  /\ (forall encoded, in_u 32 encoded -> encode (decode encoded) = encoded)
  /\ forall buf, Forall is_byte buf ->
       exists r, date_from_hyper_binary oc buf = Val r
         /\ forall date, in_i 32 date ->
              (r = Ok date <-> MIN_DAYS <= date <= MAX_DAYS /\ buf = to_le 4 (to_julian_day date)).
Proof.
  split_and!.
  - intros date Hd. unfold decode, encode. rewrite wrap_i_wrap_u by lia.
    rewrite (wrap_i_id 32 (wrap_i 32 _)) by (try apply wrap_i_range; lia). by apply wrap_i_undo.
  - intros e He. unfold decode, encode. set (x := wrap_i 32 (_ - _)).
    replace (x + JULIAN_DAY_EPOCH) with (x - - JULIAN_DAY_EPOCH) by lia.
    unfold x, Z.sub at 2. rewrite wrap_i_undo by (try apply wrap_i_range; lia).
    rewrite wrap_u_wrap_i by lia. by apply wrap_u_id.
  - intros buf Hb. unfold date_from_hyper_binary. destruct (Nat.eqb_spec (length buf) 4) as [Hl | Hl]; cbn [negb].
    2: { eexists. split; [done |]. intros date Hd. split; [done |]. intros [_ ->]. by rewrite length_to_le in Hl. }
    destruct (try_decode_spec oc (wrap_u 32 (i_of_le buf))) as (r & -> & Hr).
    exists r. split; [done |]. intros date Hd. rewrite Hr, wrap_i_wrap_u by lia.
    assert (Hi : in_i 32 (i_of_le buf)).
    { pose proof (i_of_le_range buf) as H. rewrite Hl in H. apply H. by intros ->. }
    rewrite wrap_i_id by (done || lia). split.
    + intros [Hj ->]. unfold MIN_DAYS, MAX_DAYS. split; [lia |]. unfold to_julian_day.
      replace (i_of_le buf - JULIAN_DAY_EPOCH + JULIAN_DAY_EPOCH) with (i_of_le buf) by lia.
      rewrite wrap_i_id by (done || lia). rewrite <- Hl. symmetry. apply to_le_i_of_le; [by intros -> | done].
    + intros [Hj Hbuf]. unfold to_julian_day, MIN_DAYS, MAX_DAYS, MIN_JULIAN_DAY, MAX_JULIAN_DAY, JULIAN_DAY_EPOCH in *.
      rewrite wrap_i_id in Hbuf by (unfold in_i; lia).
      rewrite Hbuf, i_of_le_to_le by (unfold in_i; lia). lia.
Qed.

(** A time of day is its components: building it from them and reading them
    back are inverse to each other below 24 hours, and the binary reader accepts
    exactly the times below 24 hours. *)
Theorem time_exact :
  (forall h m s us, 0 <= h < 24 -> 0 <= m < 60 -> 0 <= s < 60 -> 0 <= us < 1000000 ->
     to_hms_micro (time_new h m s us) = (h, m, s, us)
     /\ time_from_hyper_binary (to_le 8 (time_new h m s us)) = Ok (time_new h m s us))
  /\ forall buf t, Forall is_byte buf -> time_from_hyper_binary buf = Ok t ->
       buf = to_le 8 t
       /\ exists h m s us, t = time_new h m s us /\ to_hms_micro t = (h, m, s, us)
            /\ h < 24 /\ m < 60 /\ s < 60 /\ us < 1000000.
Proof.
  split.
  - intros h m s us Hh Hm Hs Hus. split; [apply hms_new; lia |].
    assert (Ht : 0 <= time_new h m s us <= MAX_MICROSECONDS).
    { unfold MAX_MICROSECONDS, time_new, MICROS_PER_HOUR, MICROS_PER_MINUTE, MICROS_PER_SECOND. lia. }
    unfold time_from_hyper_binary, try_from_microseconds. rewrite length_to_le. cbn [negb Nat.eqb].
    rewrite u_of_le_to_le, wrap_u_id by (by apply time_max_in_u).
    destruct (Z.ltb_spec MAX_MICROSECONDS (time_new h m s us)); [lia | done].
  - intros buf t Hb. unfold time_from_hyper_binary, try_from_microseconds.
    destruct (Nat.eqb_spec (length buf) 8) as [Hl |]; [cbn [negb] | done].
    destruct (Z.ltb_spec MAX_MICROSECONDS (u_of_le buf)) as [| Hle]; [done |]. intros [= <-].
    pose proof (u_of_le_range buf Hb) as [H0 _].
    split; [rewrite <- Hl; symmetry; by apply to_le_u_of_le |].
    destruct (time_parts (u_of_le buf)) as (h & m & s & us & -> & Hh & Hm & Hs & Hus); [lia |].
    exists h, m, s, us. rewrite hms_new by lia. split_and!; lia || done.
Qed.

(** A timestamp is its date and time of day. A supported date and a time
    below 24 hours make a timestamp, without an overflow, that splits into them;
    and every [i64] timestamp splits into a date and a time below 24 hours that
    make it again, except that with overflow checks [Timestamp::new] panics
    for the timestamps before the first midnight an [i64] can hold. *)
Theorem timestamp_date_time oc :
  (forall date time, MIN_DAYS <= date <= MAX_DAYS -> 0 <= time <= MAX_MICROSECONDS ->
     exists ts, timestamp_new oc date time = Val ts /\ to_date_time ts = (date, time))
  /\ forall ts, in_i 64 ts ->
       exists date time, to_date_time ts = (date, time) /\ 0 <= time <= MAX_MICROSECONDS
         /\ timestamp_new oc date time
            = if oc && (ts <? -106751991 * MICROS_PER_DAY) then Panic else Val ts.
Proof.
  assert (Hd : MICROS_PER_DAY = 86400000000) by done.
  assert (HM : MAX_MICROSECONDS = 86399999999) by done.
  split.
  - intros date time Hdate Ht.
    assert (-730485 <= date <= 2921939) by exact Hdate.
    unfold timestamp_new, i64. rewrite arith_i_val by (rewrite Hd; unfold in_i; lia). cbn [outcome_bind].
    rewrite wrap_i_id, arith_i_val by (rewrite ?Hd; unfold in_i; lia).
    exists (date * MICROS_PER_DAY + time). split; [done |].
    destruct (to_date_time_eq (date * MICROS_PER_DAY + time)) as (d & t & -> & He & Hr & _).
    { rewrite Hd. unfold in_i. lia. }
    rewrite Hd, HM in *. f_equal; lia.
  - intros ts Hts. destruct (to_date_time_eq ts Hts) as (d & t & -> & -> & Ht & Hdr).
    exists d, t. split_and!; try done; try lia. unfold in_i in Hts. rewrite Hd, HM in *.
    unfold timestamp_new, i64. rewrite Hd. rewrite (wrap_i_id 64 t) by (unfold in_i; lia).
    destruct (Z.ltb_spec (d * 86400000000 + t) (-106751991 * 86400000000)) as [Hlt | Hge].
    + assert (d = -106751992) as -> by lia. unfold arith_i at 1.
      destruct oc; cbn [andb]; [done |].
      change (in_ib 64 (-106751992 * 86400000000)) with false. cbn [outcome_bind].
      rewrite arith_i_wrap, wrap_i_add_l by lia. f_equal. apply wrap_i_id; [lia | done].
    + rewrite andb_false_r. rewrite arith_i_val by (unfold in_i; lia). cbn [outcome_bind].
      by rewrite arith_i_val by (unfold in_i; lia).
Qed.

(** Writing a timestamp adds the epoch offset: without overflow checks the
    bytes of every [i64] timestamp read back as it; with them, writing panics
    exactly for the timestamps the offset takes past [i64::MAX]. The unchecked
    [encode] and [decode] are inverse to each other. *)
Theorem timestamp_binary_roundtrip oc ts buf :
  in_i 64 ts ->
  (if oc && (2 ^ 63 - EPOCH_OFFSET_MICROS <=? ts)
   then timestamp_to_hyper_binary oc ts buf = Panic
        /\ timestamp_to_hyper_binary_not_null oc ts buf = Panic
   else exists bytes,
     timestamp_to_hyper_binary oc ts buf = Val (buf ++ 0 :: bytes)
     /\ timestamp_to_hyper_binary_not_null oc ts buf = Val (buf ++ bytes)
     /\ timestamp_from_hyper_binary bytes = Ok ts)
  /\ timestamp_decode (timestamp_encode ts) = ts.
Proof.
  intros Hts. assert (HE : EPOCH_OFFSET_MICROS = 211813488000000000) by done.
  assert (Hundo : forall m, wrap_i 64 m = wrap_i 64 (ts + EPOCH_OFFSET_MICROS) ->
            timestamp_from_hyper_binary (to_le 8 m) = Ok ts).
  { intros m Hm. unfold timestamp_from_hyper_binary. rewrite length_to_le. cbn [negb Nat.eqb].
    unfold timestamp_decode. rewrite u_of_le_to_le. change (8 * Z.of_nat 8) with 64.
    rewrite wrap_i_wrap_u, Hm by lia. by rewrite wrap_i_undo. }
  split.
  2: { unfold timestamp_decode, timestamp_encode. rewrite wrap_i_wrap_u by lia.
    rewrite (wrap_i_id 64 (wrap_i 64 _)) by (try apply wrap_i_range; lia). by apply wrap_i_undo. }
  unfold timestamp_to_hyper_binary, timestamp_to_hyper_binary_not_null, to_microseconds, i64.
  destruct (arith_i_panic 64 (ts + EPOCH_OFFSET_MICROS)) as [Hin | Hp].
  - replace (2 ^ 63 - EPOCH_OFFSET_MICROS <=? ts) with false.
    2: { symmetry. apply Z.leb_gt. unfold in_i in Hin. lia. }
    rewrite andb_false_r, arith_i_val by done. cbn [outcome_bind].
    exists (to_le 8 (ts + EPOCH_OFFSET_MICROS)). split_and!; [| done | by apply Hundo].
    unfold write_not_null_indicator. by rewrite <- app_assoc.
  - assert (Hover : 2 ^ 63 - EPOCH_OFFSET_MICROS <= ts).
    { destruct (Z.leb_spec (2 ^ 63 - EPOCH_OFFSET_MICROS) ts) as [| Hlt]; [done | exfalso].
      rewrite arith_i_val in Hp; [done |]. rewrite HE in *. unfold in_i in *. lia. }
    rewrite (proj2 (Z.leb_le _ _) Hover), andb_true_r. destruct oc.
    { rewrite Hp. done. }
    rewrite arith_i_wrap by lia. cbn [outcome_bind]. eexists. split_and!; [| done |].
    + unfold write_not_null_indicator. by rewrite <- app_assoc.
    + apply Hundo. apply wrap_i_id; [lia | apply wrap_i_range; lia].
Qed.

(** An interval's 16 bytes are its three fields, in both directions, and
    displaying an interval succeeds unless overflow checks are on and its day
    count is [i32::MIN]. *)
Theorem interval_exact oc :
  (forall i, in_i 64 (microseconds i) -> in_i 32 (days i) -> in_i 32 (months i) ->
     interval_from_hyper_binary (interval_encode i) = Ok i
     /\ panics (display_interval oc i) = oc && (days i =? - 2 ^ 31))
  /\ forall buf i, Forall is_byte buf -> interval_from_hyper_binary buf = Ok i -> interval_encode i = buf.
Proof.
  split.
  - intros [us d m] Hus Hd Hm. cbn [microseconds days months] in *. split.
    + unfold interval_from_hyper_binary. rewrite length_interval_encode. cbn [negb Nat.eqb].
      unfold interval_decode, interval_encode. cbn [microseconds days months].
      rewrite (take_app_exact _ _ 8), (drop_app_exact _ _ 8) by apply length_to_le.
      rewrite (take_app_exact _ _ 4) by apply length_to_le.
      rewrite app_assoc, (drop_app_exact _ _ 12) by (by rewrite length_app, !length_to_le).
      rewrite take_ge by (by rewrite length_to_le). rewrite !i_of_le_to_le by (done || lia). done.
    + unfold display_interval, in_i in *. cbn [microseconds days months].
      assert (Hy : - 2 ^ 31 < Z.quot m 12 < 2 ^ 31) by (Z.quot_rem_to_equations; lia).
      assert (Hr : - 2 ^ 31 < Z.rem m 12 < 2 ^ 31) by (Z.quot_rem_to_equations; lia).
      destruct (unit_part_val oc _ "year" Hy) as [ty ->]. destruct (unit_part_val oc _ "mon" Hr) as [tm ->].
      cbn [outcome_bind].
      destruct (Z.eqb_spec d (- 2 ^ 31)) as [-> | Hne].
      * destruct oc; by repeat case_match.
      * rewrite andb_false_r. destruct (unit_part_val oc d "day" ltac:(lia)) as [td ->].
        cbn [outcome_bind]. by repeat case_match.
  - intros buf i Hb. unfold interval_from_hyper_binary.
    destruct (Nat.eqb_spec (length buf) 16) as [Hl |]; [cbn [negb] | done]. intros [= <-].
    assert (Hpart : forall a n, (0 < n)%nat -> (a + n <= 16)%nat ->
        to_le n (i_of_le (take n (drop a buf))) = take n (drop a buf)).
    { intros a n Hn Ha. assert (Hlen : length (take n (drop a buf)) = n).
      { rewrite length_take, length_drop. lia. }
      rewrite <- Hlen at 1. apply to_le_i_of_le; [| by apply Forall_take, Forall_drop].
      intros He. rewrite He in Hlen. simpl in Hlen. lia. }
    unfold interval_encode, interval_decode. cbn [microseconds days months].
    rewrite <- (drop_0 buf) at 1. rewrite !Hpart, drop_0 by lia.
    rewrite (take_ge (drop 12 buf)) by (rewrite length_drop; lia).
    assert (drop 12 buf = drop 4 (drop 8 buf)) as -> by (by rewrite drop_drop). by rewrite !take_drop.
Qed.

