(* ===== verification/Connection.v ===== *)
(** * The wire connection ([hyperdb-api-core/src/client/connection.rs])

    [RawConnection] over a transport that is the list of what its reads and writes
    will do: a read event is what one [read] call delivers, and every behaviour of
    a transport during a run is such a list. The theorems say when an exchange
    leaves the connection in step with the server, that a desynchronized
    connection stays one and sends nothing, and what a failed read leaves
    behind. Also [CopyInWriter] of [client.rs], the interface of the bulk
    inserter to the connection. *)

From stdpp Require Import strings.
From S2P Require Import Prelude Text Backend Frontend SqlEscape.

(** ** [client::Error] ([client/error.rs]) *)

Inductive Error : Type :=
| ConnectionError (message : list Z) (sqlstate : option (list Z))
| Authentication (message : list Z)
| QueryError (message : list Z) (sqlstate detail hint : option (list Z))
| Protocol (message : list Z)
| Io (message : io_payload)
| Config (message : list Z)
| Tls (message : list Z)
| Timeout (message : list Z)
| Cancelled (message : list Z) (sqlstate : option (list Z))
| Closed (message : list Z) (sqlstate : option (list Z))
| Conversion (message : list Z)
| FeatureNotSupported (message : list Z)
| Other (message : list Z).

(** An [io::Error] of the transport, by the cause it carries. The message of an
    [Io] is the [Display] of its payload. *)
Inductive transport_error : Type :=
| IoFailure (e : io_error)
| TlsFailure (message : list Z).

Definition from_io (e : transport_error) : Error :=
  match e with
  | TlsFailure message => Tls message
  | IoFailure e => Io (payload e)
  end.

(** [Error::db]. *)
Definition db (severity code message : list Z) : Error :=
  QueryError (severity ++ str ": " ++ message ++ str " (" ++ code ++ str ")") (Some code) None None.

(** ** The transport *)

(** [Data bs]: a [read] that returns [bs], which is the end of the stream when it
    is empty. A write event [Some (n, e)] takes [n] bytes and then fails. Past the
    end of a script reads see the end of the stream and writes succeed. A cancel request
    goes over a connection of its own and cannot fail; [cancels] keeps, for each that was
    sent, what was still to be read then. *)
Inductive read_event : Type :=
| Data (bs : list Z)
| ReadFails (e : transport_error).

Record Stream : Type := mk_stream {
  reads : list read_event;
  writes : list (option (nat * transport_error));
  sent : list Z;
  cancels : list (list read_event);
}.

Definition write_all (bs : list Z) (s : Stream) : result unit transport_error * Stream :=
  match writes s with
  | Some (n, e) :: writes => (Err e, mk_stream (reads s) writes (sent s ++ take n bs) (cancels s))
  | None :: writes => (Ok tt, mk_stream (reads s) writes (sent s ++ bs) (cancels s))
  | [] => (Ok tt, mk_stream (reads s) [] (sent s ++ bs) (cancels s))
  end.

Definition flush_transport (s : Stream) : result unit transport_error * Stream :=
  match writes s with
  | Some (_, e) :: writes => (Err e, mk_stream (reads s) writes (sent s) (cancels s))
  | _ :: writes => (Ok tt, mk_stream (reads s) writes (sent s) (cancels s))
  | [] => (Ok tt, s)
  end.

(** ** [RawConnection] *)

Definition POST_ERROR_DRAIN_CAP : nat := 1024.
Definition ABANDONED_STREAM_MAX_DATA_ROWS : Z := 64 * 65536.
Definition READ_WINDOW : nat := 64 * 1024.

Record RawConnection : Type := mk_conn {
  stream : Stream;
  read_buf : list Z;
  write_buf : list Z;
  desynchronized : bool;
}.

(** A method returns or panics with its result and the connection it leaves. *)
Definition C (A : Type) : Type := RawConnection -> outcome (result A Error * RawConnection).

Definition cret {A} (a : A) : C A := fun c => Val (Ok a, c).
Definition cfail {A} (e : Error) : C A := fun c => Val (Err e, c).
Definition cbind {A B} (m : C A) (f : A -> C B) : C B := fun c =>
  let! r := m c in
  match r with
  | (Ok a, c) => f a c
  | (Err e, c) => Val (Err e, c)
  end.

Notation "'let+' x ':=' m 'in' k" := (cbind m (fun x => k))
  (at level 10, x name, m at level 100, k at level 200) : rust_scope.

(** [r.inspect_err(|_| self.desynchronized = true)]. *)
Definition set_desync (c : RawConnection) : RawConnection :=
  mk_conn (stream c) (read_buf c) (write_buf c) true.

Definition or_desync {A} (m : C A) : C A := fun c =>
  let! r := m c in
  match r with
  | (Ok a, c) => Val (Ok a, c)
  | (Err e, c) => Val (Err e, set_desync c)
  end.

Definition new (stream : Stream) : RawConnection := mk_conn stream [] [] false.

Definition is_healthy (c : RawConnection) : bool := negb (desynchronized c).

Definition ensure_healthy : C unit := fun c =>
  if desynchronized c
  then Val (Err (ConnectionError
         (str "connection is desynchronized from the server and cannot be reused; discard it and open a new one")
         None), c)
  else Val (Ok tt, c).

(** ** Reading and writing *)

Section connection.
Context (overflow_checks : bool) (usize_max : Z).

(** Appends a frontend message to the write buffer. *)
Definition emit (message : list Z -> outcome (list Z)) : C unit := fun c =>
  let! buf := message (write_buf c) in
  Val (Ok tt, mk_conn (stream c) (read_buf c) buf (desynchronized c)).

(** The loop of [read_message]: a read that fails returns at its [?], after the
    buffer was extended by the zeroed read window and before it is truncated. *)
Fixpoint read_loop (reads : list read_event) (read_buf : list Z) :
    outcome (result Message Error * list read_event * list Z) :=
  let! r := Backend.parse usize_max read_buf in
  let '(r, read_buf) := r in
  match r with
  | Ok (Some msg) => Val (Ok msg, reads, read_buf)
  | Err e => Val (Err (from_io (IoFailure e)), reads, read_buf)
  | Ok None =>
      match reads with
      | ReadFails e :: reads =>
          Val (Err (from_io e), reads, read_buf ++ replicate READ_WINDOW 0)
      | [] => Val (Err (Closed (str "connection closed") None), [], read_buf)
      | Data [] :: reads => Val (Err (Closed (str "connection closed") None), reads, read_buf)
      | Data bytes :: reads => read_loop reads (read_buf ++ bytes)
      end
  end.

Definition read_message : C Message := fun c =>
  let! r := read_loop (reads (stream c)) (read_buf c) in
  let '(r, reads, read_buf) := r in
  Val (r, mk_conn (mk_stream reads (writes (stream c)) (sent (stream c)) (cancels (stream c))) read_buf
            (write_buf c) (desynchronized c)).

(** A result of the transport. *)
Definition on_stream (f : Stream -> result unit transport_error * Stream) : C unit := fun c =>
  let '(r, s) := f (stream c) in
  let c := mk_conn s (read_buf c) (write_buf c) (desynchronized c) in
  match r with
  | Ok _ => Val (Ok tt, c)
  | Err e => Val (Err (from_io e), c)
  end.

Definition clear_write_buf : C unit := fun c =>
  Val (Ok tt, mk_conn (stream c) (read_buf c) [] (desynchronized c)).

Definition flush : C unit := fun c =>
  match write_buf c with
  | [] => Val (Ok tt, c)
  | buf =>
      (let+ _ := on_stream (write_all buf) in
       let+ _ := on_stream flush_transport in
       clear_write_buf) c
  end.

Definition flush_or_desync : C unit := or_desync flush.
Definition read_message_or_desync : C Message := or_desync read_message.

(** A loop that reads messages is given one more step than there are bytes left to
    read; every message has at least five. *)
Definition event_bytes (e : read_event) : list Z :=
  match e with
  | Data bs => bs
  | ReadFails _ => replicate READ_WINDOW 0
  end.

Definition budget (c : RawConnection) : nat :=
  S (length (read_buf c) + length (reads (stream c) ≫= event_bytes)).

(** ** Errors of the server *)

(** The loop of [parse_error_response]; a field or a value that does not parse is
    dropped. *)
Fixpoint error_fields_loop (fuel : nat) (buf severity code message : list Z) : outcome Error :=
  match fuel with
  | O => Panic
  | S fuel =>
      let! r := ErrorFields.next buf in
      match r with
      | (None, _) => Val (db severity code message)
      | (Some (Err _), buf) => error_fields_loop fuel buf severity code message
      | (Some (Ok field), buf) =>
          let type_ := ErrorFields.type_ field in
          match ErrorFields.field_value field with
          | Err _ => error_fields_loop fuel buf severity code message
          | Ok s =>
              if (type_ =? 83) || (type_ =? 86) then error_fields_loop fuel buf s code message
              else if type_ =? 67 then error_fields_loop fuel buf severity s message
              else if type_ =? 77 then error_fields_loop fuel buf severity code s
              else error_fields_loop fuel buf severity code message
          end
      end
  end.

Definition parse_error_response (body : list Z) : outcome Error :=
  error_fields_loop (S (length body)) body (str "ERROR") (str "00000") (str "unknown error").

(** ** Draining *)

Fixpoint drain_until_ready_bounded (max_messages : nat) : C bool := fun c =>
  match max_messages with
  | O => Val (Ok false, set_desync c)
  | S max_messages =>
      let! r := read_message c in
      match r with
      | (Ok (ReadyForQuery _), c) => Val (Ok true, c)
      | (Ok _, c) => drain_until_ready_bounded max_messages c
      | (Err _, c) => Val (Ok false, set_desync c)
      end
  end.

Fixpoint drain_abandoned_loop (fuel : nat) (other rows max_other_messages max_data_rows : Z) :
    C bool := fun c =>
  match fuel with
  | O => Panic
  | S fuel =>
      let! r := read_message c in
      match r with
      | (Ok (ReadyForQuery _), c) => Val (Ok true, c)
      | (Ok (DataRow _), c) =>
          let rows := rows + 1 in
          if max_data_rows <? rows then Val (Ok false, set_desync c)
          else drain_abandoned_loop fuel other rows max_other_messages max_data_rows c
      | (Ok _, c) =>
          let other := other + 1 in
          if max_other_messages <? other then Val (Ok false, set_desync c)
          else drain_abandoned_loop fuel other rows max_other_messages max_data_rows c
      | (Err _, c) => Val (Ok false, set_desync c)
      end
  end.

Definition drain_abandoned_stream (max_other_messages max_data_rows : Z) : C bool := fun c =>
  drain_abandoned_loop (budget c) 0 0 max_other_messages max_data_rows c.

Definition consume_error (body : list Z) : C Error := fun c =>
  let! err := parse_error_response body in
  (let+ _ := drain_until_ready_bounded POST_ERROR_DRAIN_CAP in cret err) c.

(** ** Queries *)

(** The loop of [simple_query] and [query_binary]. *)
Fixpoint collect_response (fuel : nat) (messages : list Message) : C (list Message) := fun c =>
  match fuel with
  | O => Panic
  | S fuel =>
      (let+ msg := read_message in
       match msg with
       | ReadyForQuery _ => cret (messages ++ [msg])
       | ErrorResponse body => let+ err := consume_error body in cfail err
       | _ => collect_response fuel (messages ++ [msg])
       end) c
  end.

Definition simple_query (query : list Z) : C (list Message) :=
  let+ _ := ensure_healthy in
  let+ _ := emit (Frontend.query overflow_checks query) in
  let+ _ := flush in
  fun c => collect_response (budget c) [] c.

Definition HYPER_BINARY_FORMAT : Z := 2.

Definition start_query_binary (query : list Z) : C unit :=
  let+ _ := ensure_healthy in
  let+ _ := emit (Frontend.parse overflow_checks [] query []) in
  let+ _ := emit (Frontend.bind overflow_checks [] [] [] [] [HYPER_BINARY_FORMAT]) in
  let+ _ := emit (Frontend.describe overflow_checks 80 []) in
  let+ _ := emit (Frontend.execute overflow_checks [] 0) in
  let+ _ := emit (fun buf => Val (Frontend.sync buf)) in
  flush.

(** [query_binary] is the same requests with the loop of [simple_query]. *)
Definition query_binary (query : list Z) : C (list Message) :=
  let+ _ := start_query_binary query in
  fun c => collect_response (budget c) [] c.

Definition start_simple_query (query : list Z) : C unit :=
  let+ _ := ensure_healthy in
  let+ _ := emit (Frontend.query overflow_checks query) in
  flush.

(** ** Prepared statements *)

Inductive ParamFormat : Type := Text | Binary.

Definition to_code (f : ParamFormat) : Z := match f with Text => 0 | Binary => 1 end.
Definition is_binary (f : ParamFormat) : bool := match f with Text => false | Binary => true end.

Definition bind_format_codes (formats : list ParamFormat) (param_count : nat) :
    result (list Z) Error :=
  if negb (length formats =? 0)%nat && negb (length formats =? param_count)%nat then
    Err (Protocol (str "parameter format count (" ++ fmt_u (Z.of_nat (length formats))
           ++ str ") does not match parameter count (" ++ fmt_u (Z.of_nat param_count) ++ str ")"))
  else if (param_count =? 0)%nat then Ok []
  else if (length formats =? 0)%nat || forallb is_binary formats then Ok [to_code Binary]
  else Ok (to_code <$> formats).

Definition bind_execute_sync (statement_name : list Z) (params : list (option (list Z)))
    (param_format_codes : list Z) (column_count : nat) : C unit :=
  let+ _ := ensure_healthy in
  let+ _ := emit (Frontend.bind overflow_checks [] statement_name param_format_codes params
                    (replicate column_count HYPER_BINARY_FORMAT)) in
  let+ _ := emit (Frontend.execute overflow_checks [] 0) in
  let+ _ := emit (fun buf => Val (Frontend.sync buf)) in
  flush.

Definition start_execute_prepared_with_formats (statement_name : list Z)
    (params : list (option (list Z))) (param_formats : list ParamFormat) (column_count : nat) :
    C unit :=
  match bind_format_codes param_formats (length params) with
  | Err e => cfail e
  | Ok codes => bind_execute_sync statement_name params codes column_count
  end.

Definition start_execute_prepared (statement_name : list Z) (params : list (option (list Z)))
    (column_count : nat) : C unit :=
  start_execute_prepared_with_formats statement_name params [] column_count.

Definition terminate : C unit :=
  let+ _ := emit (fun buf => Val (Frontend.terminate buf)) in flush.

(** ** COPY *)

(** The loop of [start_copy_in_with_format] and [start_copy_in_raw]. *)
Fixpoint await_copy_in (fuel : nat) : C unit := fun c =>
  match fuel with
  | O => Panic
  | S fuel =>
      (let+ msg := read_message in
       match msg with
       | CopyInResponse _ => cret tt
       | ErrorResponse body => let+ err := consume_error body in cfail err
       | _ => await_copy_in fuel
       end) c
  end.

Definition start_copy_in_raw (query : list Z) : C unit :=
  let+ _ := ensure_healthy in
  let+ _ := emit (Frontend.query overflow_checks query) in
  let+ _ := flush in
  fun c => await_copy_in (budget c) c.

(** [parts.join(", ")]. *)
Fixpoint join_comma (parts : list (list Z)) : list Z :=
  match parts with
  | [] => []
  | [p] => p
  | p :: parts => p ++ str ", " ++ join_comma parts
  end.

Definition copy_in_query (table_name : list Z) (columns : list (list Z)) (format : list Z) : list Z :=
  let column_list :=
    match columns with
    | [] => []
    | _ => str " (" ++ join_comma ((fun c => [34] ++ double_quotes 34 c ++ [34]) <$> columns) ++ str ")"
    end in
  str "COPY " ++ table_name ++ column_list ++ str " FROM STDIN WITH (FORMAT " ++ format ++ str ")".

Definition start_copy_in_with_format (table_name : list Z) (columns : list (list Z))
    (format : list Z) : C unit :=
  start_copy_in_raw (copy_in_query table_name columns format).

Definition start_copy_in (table_name : list Z) (columns : list (list Z)) : C unit :=
  start_copy_in_with_format table_name columns (str "HYPERBINARY").

Definition send_copy_data (data : list Z) : C unit := emit (Frontend.copy_data overflow_checks data).

(** A failed [flush] of the pending bytes does not clear them. *)
Definition send_copy_data_direct (data : list Z) : C unit :=
  let+ _ := (fun c => match write_buf c with
                      | [] => Val (Ok tt, c)
                      | buf => (let+ _ := or_desync (on_stream (write_all buf)) in clear_write_buf) c
                      end) in
  if negb (in_ub 32 (4 + Z.of_nat (length data)))
  then cfail (Protocol (str "CopyData payload exceeds u32::MAX bytes"))
  else
    let msg_len := 4 + Z.of_nat (length data) in
    let+ _ := or_desync (on_stream (write_all (100 :: to_be 4 msg_len))) in
    or_desync (on_stream (write_all data)).

Definition flush_stream : C unit := on_stream flush_transport.

(** [tag.strip_prefix("COPY ")] and the count behind it. *)
Definition copy_count (tag : list Z) : option Z :=
  match from_utf8 tag with
  | Some tag =>
      if bool_decide (take 5 tag = str "COPY ") then parse_u 64 (trim (drop 5 tag)) else None
  | None => None
  end.

Fixpoint finish_loop (fuel : nat) (row_count : Z) : C Z := fun c =>
  match fuel with
  | O =>
      Val (Err (Protocol (str "finish_copy: no ReadyForQuery within the drain budget; connection marked desynchronized")),
           set_desync c)
  | S fuel =>
      (let+ msg := read_message_or_desync in
       match msg with
       | CommandComplete tag =>
           finish_loop fuel (match copy_count tag with Some count => count | None => row_count end)
       | ReadyForQuery _ => cret row_count
       | ErrorResponse body => let+ err := consume_error body in cfail err
       | _ => finish_loop fuel row_count
       end) c
  end.

Definition finish_copy : C Z :=
  let+ _ := ensure_healthy in
  let+ _ := flush_or_desync in
  let+ _ := emit (fun buf => Val (Frontend.copy_done buf)) in
  let+ _ := flush_or_desync in
  finish_loop POST_ERROR_DRAIN_CAP 0.

Fixpoint cancel_loop (fuel : nat) : C unit := fun c =>
  match fuel with
  | O =>
      Val (Err (Protocol (str "cancel_copy: no ReadyForQuery within the drain budget; connection marked desynchronized")),
           set_desync c)
  | S fuel =>
      (let+ msg := read_message_or_desync in
       match msg with
       | ReadyForQuery _ => cret tt
       | _ => cancel_loop fuel
       end) c
  end.

Definition cancel_copy (reason : list Z) : C unit :=
  let+ _ := ensure_healthy in
  let+ _ := flush_or_desync in
  let+ _ := emit (Frontend.copy_fail overflow_checks reason) in
  let+ _ := flush_or_desync in
  cancel_loop POST_ERROR_DRAIN_CAP.

Definition mark_desynchronized : C unit := fun c => Val (Ok tt, set_desync c).

Fixpoint copy_out_loop (fuel : nat) (data : list Z) (in_copy_out : bool) : C (list Z) := fun c =>
  match fuel with
  | O => Panic
  | S fuel =>
      (let+ msg := read_message in
       match msg with
       | CopyOutResponse _ => copy_out_loop fuel data true
       | CopyData body => copy_out_loop fuel (if in_copy_out then data ++ body else data) in_copy_out
       | CopyDone => copy_out_loop fuel data false
       | ReadyForQuery _ => cret data
       | ErrorResponse body => let+ err := consume_error body in cfail err
       | _ => copy_out_loop fuel data in_copy_out
       end) c
  end.

Definition copy_out (query : list Z) : C (list Z) :=
  let+ _ := ensure_healthy in
  let+ _ := emit (Frontend.query overflow_checks query) in
  let+ _ := flush in
  fun c => copy_out_loop (budget c) [] false c.

End connection.

Lemma bind_nil_eq {A B} (f : A -> list B) : [] ≫= f = [].
Proof. done. Qed.

Lemma bind_cons_eq {A B} (f : A -> list B) x l : (x :: l) ≫= f = f x ++ (l ≫= f).
Proof. done. Qed.

#[local] Arguments READ_WINDOW : simpl never.
#[local] Arguments POST_ERROR_DRAIN_CAP : simpl never.

(** ** What the server has sent *)

(** A transport that delivers: no failure, no end of the stream. *)
Definition flowing (e : read_event) : Prop :=
  match e with
  | Data bs => bs <> []
  | ReadFails _ => False
  end.

(** The bytes received and not yet parsed, buffered or still to be read. *)
Definition wire (c : RawConnection) : list Z := read_buf c ++ (reads (stream c) ≫= event_bytes).

(** A message as the server can send it. *)
Definition msg_ok (m : Message) : Prop := fields_ok m /\ 4 + Z.of_nat (length (body m)) < 2 ^ 32.

(** A connection that received [bytes] over a delivering transport. *)
Definition receives (usize_max : Z) (c : RawConnection) (bytes : list Z) : Prop :=
  Forall flowing (reads (stream c)) /\ wire c = bytes /\ Forall is_byte bytes
  /\ Z.of_nat (length bytes) <= usize_max.

(** Reading changes the transport's reads and the read buffer only. *)
Definition read_only (c c' : RawConnection) : Prop :=
  writes (stream c') = writes (stream c) /\ sent (stream c') = sent (stream c)
  /\ write_buf c' = write_buf c /\ desynchronized c' = desynchronized c.

#[export] Instance read_only_preorder : PreOrder read_only.
Proof. split; [by intros c | intros a b c (? & ? & ? & ?) (? & ? & ? & ?); split_and!; congruence]. Qed.

Section reading.
Context (usize_max : Z) (Hu : 2 ^ 32 - 1 <= usize_max).

(** However the bytes of a message are cut into reads, the message is read, and
    nothing behind it is lost. *)
Lemma read_loop_encode rs buf m rest :
  Forall flowing rs -> buf ++ (rs ≫= event_bytes) = encode m ++ rest ->
  Forall is_byte (encode m ++ rest) -> Z.of_nat (length (encode m ++ rest)) <= usize_max -> msg_ok m ->
  exists rs' buf', read_loop usize_max rs buf = Val (Ok m, rs', buf')
    /\ buf' ++ (rs' ≫= event_bytes) = rest /\ Forall flowing rs'.
Proof.
  intros Hf Hw Hb Hl [Hok Hm]. revert buf Hw Hf.
  induction rs as [| e rs IH]; intros buf Hw Hf.
  - rewrite bind_nil_eq, app_nil_r in Hw. subst buf. exists [], rest. cbn [read_loop].
    rewrite parse_encode by done. cbn [outcome_bind]. split_and!; [done | | done]. by rewrite bind_nil_eq, app_nil_r.
  - destruct (decide (length (encode m) <= length buf)%nat) as [Hge | Hlt].
    + assert (Hbuf : buf = encode m ++ drop (length (encode m)) buf).
      { rewrite <- (take_drop (length (encode m)) buf) at 1. f_equal.
        rewrite <- (take_app_le buf ((e :: rs) ≫= event_bytes)), Hw, take_app_length by done. done. }
      set (buf' := drop (length (encode m)) buf) in *.
      rewrite Hbuf, <- app_assoc in Hw. apply app_inv_head in Hw.
      rewrite <- Hw in Hb, Hl.
      exists (e :: rs), buf'. rewrite Hbuf. cbn [read_loop].
      rewrite parse_encode; [| done | | | done | done].
      * done.
      * rewrite app_assoc, Forall_app in Hb. tauto.
      * rewrite !length_app in Hl. rewrite length_app. lia.
    + assert (Henc : encode m = buf ++ drop (length buf) (encode m)).
      { rewrite <- (take_drop (length buf) (encode m)) at 1. f_equal.
        rewrite <- (take_app_le (encode m) rest), <- Hw, take_app_length by lia. done. }
      cbn [read_loop]. rewrite (parse_prefix usize_max m buf (drop (length buf) (encode m))).
      2: done.
      2: { apply Forall_app in Hb as [Hb _]. rewrite Henc, Forall_app in Hb. tauto. }
      2: { rewrite length_app in Hl. lia. }
      2: done. 2: done.
      2: { intros E. rewrite E, app_nil_r in Henc. rewrite <- Henc in Hlt. lia. }
      cbn [outcome_bind]. apply Forall_cons_1 in Hf as [He Hf].
      destruct e as [bs |]; [| done]. cbn [flowing] in He. destruct bs as [| b bs]; [done |].
      apply IH; [| done]. rewrite <- Hw, bind_cons_eq. by rewrite <- app_assoc.
Qed.

Lemma read_message_encode c m rest :
  receives usize_max c (encode m ++ rest) -> msg_ok m ->
  exists c', read_message usize_max c = Val (Ok m, c') /\ receives usize_max c' rest /\ read_only c c'.
Proof.
  intros (Hf & Hw & Hb & Hl) Hm. unfold read_message.
  destruct (read_loop_encode _ _ m rest Hf Hw Hb Hl Hm) as (rs & buf & -> & Hw' & Hf').
  cbn [outcome_bind]. eexists. split; [done |]. split; [| done].
  unfold receives, wire. cbn. split_and!; [done | done | by apply Forall_app in Hb as [_ ?] |].
  rewrite length_app in Hl. lia.
Qed.

(** Reading never clears the flag, and never sends. *)
Lemma read_message_only c r c' : read_message usize_max c = Val (r, c') -> read_only c c'.
Proof.
  unfold read_message. destruct (read_loop _ _ _) as [[[r' rs] buf] |]; [| done].
  cbn [outcome_bind]. by intros [= _ <-].
Qed.

Definition not_ready (m : Message) : Prop :=
  match m with
  | ReadyForQuery _ => False
  | _ => True
  end.

Lemma ready_ok st : in_u 8 st -> msg_ok (ReadyForQuery st).
Proof. intros H. split; [done |]. cbn. rewrite length_to_be. lia. Qed.

(** A drain within its budget ends in step with the server. *)
Lemma drain_encode n c ms st rest :
  (length ms < n)%nat -> Forall (fun m => msg_ok m /\ not_ready m) ms -> in_u 8 st ->
  receives usize_max c ((ms ≫= encode) ++ encode (ReadyForQuery st) ++ rest) ->
  exists c', drain_until_ready_bounded usize_max n c = Val (Ok true, c')
    /\ receives usize_max c' rest /\ read_only c c'.
Proof.
  revert c ms. induction n as [| n IH]; intros c ms Hn Hms Hst Hc; [lia |].
  cbn [drain_until_ready_bounded]. destruct ms as [| m ms].
  - rewrite bind_nil_eq in Hc. destruct (read_message_encode c _ _ Hc (ready_ok st Hst)) as (c' & -> & Hc' & Hro).
    cbn [outcome_bind]. eauto.
  - apply Forall_cons_1 in Hms as [[Hm Hnr] Hms]. rewrite bind_cons_eq, <- app_assoc in Hc.
    destruct (read_message_encode c _ _ Hc Hm) as (c1 & -> & Hc1 & Hro). cbn [outcome_bind].
    destruct (IH c1 ms) as (c' & Hd & Hc' & Hro'); [simpl in Hn; lia | done | done | done |].
    exists c'. split; [| split; [done | by etransitivity]]. by destruct m.
Qed.

(** A drain that meets more messages than its budget gives the connection up. *)
Lemma drain_exhausted n c ms rest :
  (n <= length ms)%nat -> Forall (fun m => msg_ok m /\ not_ready m) ms ->
  receives usize_max c ((ms ≫= encode) ++ rest) ->
  exists c', drain_until_ready_bounded usize_max n c = Val (Ok false, c')
    /\ desynchronized c' = true /\ sent (stream c') = sent (stream c).
Proof.
  revert c ms. induction n as [| n IH]; intros c ms Hn Hms Hc; cbn [drain_until_ready_bounded].
  { eexists. done. }
  destruct ms as [| m ms]; [simpl in Hn; lia |]. rewrite bind_cons_eq, <- app_assoc in Hc.
  apply Forall_cons_1 in Hms as [[Hm Hnr] Hms].
  destruct (read_message_encode c _ _ Hc Hm) as (c1 & -> & Hc1 & (_ & Hs & _)). cbn [outcome_bind].
  destruct (IH c1 ms) as (c' & Hd & ? & Hs'); [simpl in Hn; lia | done | done |].
  exists c'. rewrite <- Hs. by destruct m.
Qed.
End reading.

(** ** Errors of the server *)

(** The severity, code and message an error response ends up with: of each, the
    last field that is UTF-8. *)
Definition error_field_step (acc : list Z * list Z * list Z) (f : ErrorFields.ErrorField) :
    list Z * list Z * list Z :=
  let '(severity, code, message) := acc in
  match from_utf8 (ErrorFields.value f) with
  | None => acc
  | Some s =>
      if (ErrorFields.type_ f =? 83) || (ErrorFields.type_ f =? 86) then (s, code, message)
      else if ErrorFields.type_ f =? 67 then (severity, s, message)
      else if ErrorFields.type_ f =? 77 then (severity, code, s)
      else acc
  end.

Definition error_of (acc : list Z * list Z * list Z) : Error :=
  let '(severity, code, message) := acc in db severity code message.

Definition error_defaults : list Z * list Z * list Z := (str "ERROR", str "00000", str "unknown error").

Lemma error_fields_loop_encode fs post fuel severity code message :
  Forall error_field_ok fs -> (length fs < fuel)%nat ->
  error_fields_loop fuel ((fs ≫= encode_error_field) ++ 0 :: post) severity code message
  = Val (error_of (foldl error_field_step (severity, code, message) fs)).
Proof.
  intros Hf. revert fuel severity code message.
  induction Hf as [| f fs Hok _ IH]; intros fuel sv cd ms Hl; (destruct fuel as [| fuel]; [simpl in Hl; lia |]).
  { done. }
  rewrite bind_cons_eq, <- app_assoc. cbn [error_fields_loop]. rewrite error_next_encode by done.
  cbn [outcome_bind]. unfold ErrorFields.field_value, str_of. cbn [foldl].
  assert (Hl' : (length fs < fuel)%nat) by (simpl in Hl; lia).
  unfold error_field_step at 2. destruct (from_utf8 (ErrorFields.value f)) as [s |]; [| by apply IH].
  destruct (_ || _); [by apply IH |]. destruct (_ =? 67); [by apply IH |].
  destruct (_ =? 77); by apply IH.
Qed.

Lemma length_encode_error_fields fs : (length fs <= length (fs ≫= encode_error_field))%nat.
Proof.
  induction fs as [| f fs IH]; [done |]. rewrite bind_cons_eq, length_app. unfold encode_error_field at 1.
  simpl. lia.
Qed.

Lemma parse_error_response_encode fs post :
  Forall error_field_ok fs ->
  parse_error_response ((fs ≫= encode_error_field) ++ 0 :: post)
  = Val (error_of (foldl error_field_step error_defaults fs)).
Proof.
  intros Hf. unfold parse_error_response. apply error_fields_loop_encode; [done |].
  pose proof (length_encode_error_fields fs). rewrite length_app. simpl. lia.
Qed.

Lemma error_fields_loop_total fuel buf severity code message :
  (length buf < fuel)%nat -> exists e, error_fields_loop fuel buf severity code message = Val e.
Proof.
  revert buf severity code message. induction fuel as [| fuel IH]; intros buf sv cd ms Hl; [lia |].
  cbn [error_fields_loop]. destruct (error_next_progress buf) as ([[f |] buf'] & -> & Hp);
    cbn [outcome_bind]; [| eauto].
  destruct f as [f | e]; [| by apply IH; lia].
  destruct (ErrorFields.field_value f) as [s |]; repeat case_match; apply IH; lia.
Qed.

Lemma parse_error_response_total body : exists e, parse_error_response body = Val e.
Proof. apply error_fields_loop_total. lia. Qed.

(** ** Sending *)

(** A transport that takes every byte. *)
Definition accepting (c : RawConnection) : Prop := Forall (fun w => w = None) (writes (stream c)).

(** The connection after sending: what was received is untouched. *)
Definition sends (c c' : RawConnection) (bytes : list Z) : Prop :=
  reads (stream c') = reads (stream c) /\ read_buf c' = read_buf c
  /\ desynchronized c' = desynchronized c /\ accepting c'
  /\ write_buf c' = [] /\ sent (stream c') = sent (stream c) ++ bytes.

Lemma receives_same um c c' bytes :
  reads (stream c') = reads (stream c) -> read_buf c' = read_buf c ->
  receives um c bytes -> receives um c' bytes.
Proof. unfold receives, wire. by intros -> ->. Qed.

Lemma write_all_accepting bs s :
  Forall (fun w => w = None) (writes s) ->
  exists ws, write_all bs s = (Ok tt, mk_stream (reads s) ws (sent s ++ bs) (cancels s)) /\ Forall (fun w => w = None) ws.
Proof.
  unfold write_all. intros H. destruct (writes s) as [| w ws]; [eauto |].
  apply Forall_cons_1 in H as [-> H]. eauto.
Qed.

Lemma flush_transport_accepting s :
  Forall (fun w => w = None) (writes s) ->
  exists ws, flush_transport s = (Ok tt, mk_stream (reads s) ws (sent s) (cancels s)) /\ Forall (fun w => w = None) ws.
Proof.
  unfold flush_transport. intros H. destruct s as [rs ws se]. cbn [writes reads sent] in *.
  destruct ws as [| w ws]; [eauto |]. apply Forall_cons_1 in H as [-> H]. eauto.
Qed.

Lemma flush_sends c : accepting c -> exists c', flush c = Val (Ok tt, c') /\ sends c c' (write_buf c).
Proof.
  intros Ha. unfold flush. destruct (write_buf c) as [| b buf] eqn:Hb.
  { exists c. split; [done |]. unfold sends. by rewrite app_nil_r. }
  unfold cbind at 1, on_stream at 1.
  destruct (write_all_accepting (b :: buf) (stream c) Ha) as (ws & -> & Hws). cbn [outcome_bind].
  unfold cbind at 1, on_stream. cbn [stream].
  destruct (flush_transport_accepting (mk_stream (reads (stream c)) ws (sent (stream c) ++ b :: buf) (cancels (stream c))) Hws)
    as (ws' & -> & Hws'). cbn [outcome_bind]. eexists. split; [done |]. unfold sends, accepting. done.
Qed.

(** A request whose messages can be framed is appended to the write buffer. *)
Lemma emit_frame oc m c :
  sendable m ->
  emit (Frontend.write oc m) c
  = Val (Ok tt, mk_conn (stream c) (read_buf c) (write_buf c ++ frame m) (desynchronized c)).
Proof. intros H. unfold emit. by rewrite write_frame. Qed.

Lemma ensure_healthy_ok c : is_healthy c = true -> ensure_healthy c = Val (Ok tt, c).
Proof. unfold is_healthy, ensure_healthy. by destruct (desynchronized c). Qed.

(** ** Responses *)

Section responses.
Context (usize_max : Z) (Hu : 2 ^ 32 - 1 <= usize_max).

(** A message in the middle of a response. *)
Definition in_response (m : Message) : Prop :=
  msg_ok m /\ match m with ReadyForQuery _ | ErrorResponse _ => False | _ => True end.

Lemma length_encode_pos (ms : list Message) : (length ms <= length (ms ≫= encode))%nat.
Proof.
  induction ms as [| m ms IH]; [done |]. rewrite bind_cons_eq, length_app. unfold encode at 1. simpl. lia.
Qed.

Lemma budget_wire c bytes : receives usize_max c bytes -> budget c = S (length bytes).
Proof. intros (_ & <- & _). unfold budget, wire. by rewrite length_app. Qed.

(** What [consume_error] makes of the messages behind an error: in step again if
    the end of the response is within its budget, given up otherwise. *)
Lemma consume_error_encode c body ms st rest :
  Forall (fun m => msg_ok m /\ not_ready m) ms -> in_u 8 st ->
  receives usize_max c ((ms ≫= encode) ++ encode (ReadyForQuery st) ++ rest) ->
  exists e c', parse_error_response body = Val e
    /\ consume_error usize_max body c = Val (Ok e, c') /\ sent (stream c') = sent (stream c)
    /\ if (length ms <? POST_ERROR_DRAIN_CAP)%nat
       then receives usize_max c' rest /\ read_only c c'
       else desynchronized c' = true.
Proof.
  intros Hms Hst Hc. destruct (parse_error_response_total body) as [e He].
  exists e. unfold consume_error. rewrite He. cbn [outcome_bind]. unfold cbind.
  destruct (Nat.ltb_spec (length ms) POST_ERROR_DRAIN_CAP) as [Hlt | Hge].
  - destruct (drain_encode usize_max Hu _ c ms st rest Hlt Hms Hst Hc) as (c' & -> & Hc' & Hro).
    cbn [outcome_bind]. exists c'. split_and!; try done. by destruct Hro as (_ & ? & _).
  - destruct (drain_exhausted usize_max Hu POST_ERROR_DRAIN_CAP c ms _ Hge Hms Hc) as (c' & -> & Hd & Hs).
    cbn [outcome_bind]. by exists c'.
Qed.

Lemma collect_response_ready fuel c acc ms st rest :
  (length ms < fuel)%nat -> Forall in_response ms -> in_u 8 st ->
  receives usize_max c ((ms ≫= encode) ++ encode (ReadyForQuery st) ++ rest) ->
  exists c', collect_response usize_max fuel acc c = Val (Ok (acc ++ ms ++ [ReadyForQuery st]), c')
    /\ receives usize_max c' rest /\ read_only c c'.
Proof.
  intros Hl Hms Hst. revert fuel c acc Hl.
  induction Hms as [| m ms [Hm Hin] _ IH]; intros fuel c acc Hl Hc;
    (destruct fuel as [| fuel]; [simpl in Hl; lia |]); cbn [collect_response]; unfold cbind at 1.
  - rewrite bind_nil_eq in Hc.
    destruct (read_message_encode usize_max Hu c _ _ Hc (ready_ok st Hst)) as (c' & -> & Hc' & Hro).
    cbn [outcome_bind]. eauto.
  - rewrite bind_cons_eq, <- app_assoc in Hc.
    destruct (read_message_encode usize_max Hu c _ _ Hc Hm) as (c1 & -> & Hc1 & Hro). cbn [outcome_bind].
    destruct (IH fuel c1 (acc ++ [m])) as (c' & Hr & Hc' & Hro'); [simpl in Hl; lia | done |].
    rewrite <- app_assoc in Hr. exists c'. split; [| split; [done | by etransitivity]]. by destruct m.
Qed.

Lemma collect_response_error fuel c acc ms body ms' st rest :
  (length ms < fuel)%nat -> Forall in_response ms -> msg_ok (ErrorResponse body) ->
  Forall (fun m => msg_ok m /\ not_ready m) ms' -> in_u 8 st ->
  receives usize_max c
    ((ms ≫= encode) ++ encode (ErrorResponse body) ++ (ms' ≫= encode) ++ encode (ReadyForQuery st) ++ rest) ->
  exists e c', parse_error_response body = Val e
    /\ collect_response usize_max fuel acc c = Val (Err e, c') /\ sent (stream c') = sent (stream c)
    /\ if (length ms' <? POST_ERROR_DRAIN_CAP)%nat
       then receives usize_max c' rest /\ read_only c c'
       else desynchronized c' = true.
Proof.
  intros Hl Hms He Hms' Hst. revert fuel c acc Hl.
  induction Hms as [| m ms [Hm Hin] _ IH]; intros fuel c acc Hl Hc;
    (destruct fuel as [| fuel]; [simpl in Hl; lia |]); cbn [collect_response]; unfold cbind at 1.
  - rewrite bind_nil_eq in Hc.
    destruct (read_message_encode usize_max Hu c _ _ Hc He) as (c1 & -> & Hc1 & Hro). cbn [outcome_bind].
    destruct (consume_error_encode c1 body ms' st rest Hms' Hst Hc1) as (e & c' & Hp & Hce & Hs & Hif).
    exists e, c'. split; [done |]. unfold cbind. rewrite Hce. cbn [outcome_bind]. split; [done |].
    pose proof Hro as (_ & Hs1 & _). split; [congruence |]. case_match; [| done].
    destruct Hif as [? ?]. split; [done | by etransitivity].
  - rewrite bind_cons_eq, <- app_assoc in Hc.
    destruct (read_message_encode usize_max Hu c _ _ Hc Hm) as (c1 & -> & Hc1 & Hro). cbn [outcome_bind].
    destruct (IH fuel c1 (acc ++ [m])) as (e & c' & Hp & Hr & Hs & Hif); [simpl in Hl; lia | done |].
    exists e, c'. split; [done |]. pose proof Hro as (_ & Hs1 & _).
    split; [by destruct m |]. split; [congruence |]. case_match; [| done].
    destruct Hif as [? ?]. split; [done | by etransitivity].
Qed.
End responses.

(** ** Requests *)

Section requests.
Context (oc : bool) (um : Z).

Definition binary_request (query : list Z) : list msg :=
  [Parse [] query []; Bind [] [] [] [] [HYPER_BINARY_FORMAT]; Describe 80 []; Execute [] 0; Sync].

(** The two ways to run a query, with the bytes they send. *)
Inductive query_run (query : list Z) : C (list Message) -> list Z -> Prop :=
| RunSimple : query_run query (simple_query oc um query) (frame (Query query))
| RunBinary : query_run query (query_binary oc um query) (binary_request query ≫= frame).

Lemma cbind_ok {A B} (m : C A) (f : A -> C B) c a c' :
  m c = Val (Ok a, c') -> cbind m f c = f a c'.
Proof. unfold cbind. by intros ->. Qed.

Lemma start_simple_query_sends query c :
  is_healthy c = true -> accepting c -> Z.of_nat (length query) + 8 < 2 ^ 31 ->
  exists c', start_simple_query oc query c = Val (Ok tt, c')
    /\ sends c c' (write_buf c ++ frame (Query query)).
Proof.
  intros Hh Ha Hq. unfold start_simple_query.
  rewrite (cbind_ok _ _ _ _ _ (ensure_healthy_ok c Hh)).
  rewrite (cbind_ok _ _ _ _ _ (emit_frame oc (Query query) c ltac:(split; [done | cbn; unfold cstr; rewrite length_app; simpl; lia]))).
  match goal with |- context [flush ?d] => destruct (flush_sends d Ha) as (c' & -> & Hs) end.
  by exists c'.
Qed.

Lemma start_query_binary_sends query c :
  is_healthy c = true -> accepting c -> Z.of_nat (length query) + 8 < 2 ^ 31 ->
  exists c', start_query_binary oc query c = Val (Ok tt, c')
    /\ sends c c' (write_buf c ++ (binary_request query ≫= frame)).
Proof.
  intros Hh Ha Hq. unfold start_query_binary.
  rewrite (cbind_ok _ _ _ _ _ (ensure_healthy_ok c Hh)).
  assert (Hp : sendable (Parse [] query [])).
  { split; [by cbn |]. cbn. unfold cstr. rewrite !length_app. simpl. lia. }
  rewrite (cbind_ok _ _ _ _ _ (emit_frame oc _ _ Hp)).
  assert (Hs : Forall sendable (binary_request query)).
  { repeat constructor; try done. all: cbn in *; unfold cstr in *; rewrite ?length_app in *; simpl in *; lia. }
  unfold binary_request in *. rewrite !bind_cons_eq, bind_nil_eq, app_nil_r.
  apply Forall_cons_1 in Hs as [_ [Hb [Hd [He [Hy _]%Forall_cons_1]%Forall_cons_1]%Forall_cons_1]%Forall_cons_1].
  rewrite (cbind_ok _ _ _ _ _ (emit_frame oc _ _ Hb)), (cbind_ok _ _ _ _ _ (emit_frame oc _ _ Hd)),
    (cbind_ok _ _ _ _ _ (emit_frame oc _ _ He)), (cbind_ok _ _ _ _ _ (emit_frame oc _ _ Hy)).
  cbn [write_buf stream read_buf desynchronized]. rewrite <- !app_assoc.
  match goal with |- context [flush ?d] => destruct (flush_sends d Ha) as (c' & -> & Hsend) end.
  by exists c'.
Qed.

Lemma query_run_sends query run request c :
  query_run query run request -> is_healthy c = true -> accepting c ->
  Z.of_nat (length query) + 8 < 2 ^ 31 ->
  exists c', run c = collect_response um (budget c') [] c' /\ sends c c' (write_buf c ++ request).
Proof.
  intros Hr Hh Ha Hq. destruct Hr.
  - destruct (start_simple_query_sends query c Hh Ha Hq) as (c' & Hs & Hsend).
    exists c'. split; [| done]. revert Hs. unfold simple_query, start_simple_query, cbind.
    destruct (ensure_healthy c) as [[[|] c1] |]; cbn [outcome_bind]; [| done | done].
    destruct (emit _ c1) as [[[|] c2] |]; cbn [outcome_bind]; [| done | done]. by intros ->.
  - destruct (start_query_binary_sends query c Hh Ha Hq) as (c' & Hs & Hsend).
    exists c'. split; [| done]. unfold query_binary. by rewrite (cbind_ok _ _ _ _ _ Hs).
Qed.
End requests.

(** ** Totality, whatever the transport does *)

Section totality.
Context (um : Z) (Hu : 2 ^ 32 - 1 <= um).

(** All that can still arrive, the zeros a failed read leaves included, is bytes
    that fit the read buffer. *)
Definition bounded (c : RawConnection) : Prop :=
  Forall is_byte (wire c) /\ Z.of_nat (length (wire c)) <= um.

(** What an operation does to a connection in every case. *)
Definition moves (c c' : RawConnection) : Prop :=
  bounded c' /\ (length (wire c') <= length (wire c))%nat
  /\ (desynchronized c = true -> desynchronized c' = true).

Definition total {A} (m : C A) : Prop :=
  forall c, bounded c -> exists r c', m c = Val (r, c') /\ moves c c'.

Lemma moves_refl c : bounded c -> moves c c.
Proof. done. Qed.

Lemma moves_trans a b c : moves a b -> moves b c -> moves a c.
Proof. intros (? & ? & ?) (? & ? & ?). split_and!; [done | lia | tauto]. Qed.

Lemma total_cret {A} (a : A) : total (cret a).
Proof. intros c Hc. exists (Ok a), c. by split. Qed.

Lemma total_cfail {A} (e : Error) : total (A := A) (cfail e).
Proof. intros c Hc. exists (Err e), c. by split. Qed.

Lemma total_cbind {A B} (m : C A) (f : A -> C B) :
  total m -> (forall a, total (f a)) -> total (cbind m f).
Proof.
  intros Hm Hf c Hc. unfold cbind. destruct (Hm c Hc) as (r & c1 & -> & H1). cbn [outcome_bind].
  destruct r as [a | e]; [| eauto]. destruct (Hf a c1) as (r & c2 & -> & H2); [by destruct H1 |].
  exists r, c2. split; [done | by eapply moves_trans].
Qed.

Lemma moves_desync c c' : moves c c' -> moves c (set_desync c').
Proof. intros (? & ? & ?). by split_and!. Qed.

Lemma total_or_desync {A} (m : C A) : total m -> total (or_desync m).
Proof.
  intros Hm c Hc. unfold or_desync. destruct (Hm c Hc) as ([a | e] & c' & -> & Hs); cbn [outcome_bind]; [eauto |].
  eexists _, _. split; [done | by apply moves_desync].
Qed.

Lemma total_ensure_healthy : total ensure_healthy.
Proof. intros c Hc. unfold ensure_healthy. destruct (desynchronized c); eexists _, _; by split. Qed.

Lemma total_on_stream f :
  (forall s r s', f s = (r, s') -> reads s' = reads s) -> total (on_stream f).
Proof.
  intros Hf c Hc. unfold on_stream. destruct (f (stream c)) as [r s'] eqn:E. apply Hf in E.
  set (c' := mk_conn _ _ _ _). assert (Hw : wire c' = wire c) by (unfold wire; cbn; by rewrite E).
  assert (Hm : moves c c') by (unfold moves, bounded; rewrite Hw; by destruct Hc).
  destruct r; eauto.
Qed.

Lemma total_write_all bs : total (on_stream (write_all bs)).
Proof.
  apply total_on_stream. intros s r s'. unfold write_all.
  destruct (writes s) as [| [[n e] |] ws]; by intros [= <- <-].
Qed.

Lemma total_flush_transport : total (on_stream flush_transport).
Proof.
  apply total_on_stream. intros s r s'. unfold flush_transport.
  destruct (writes s) as [| [[n e] |] ws]; by intros [= <- <-].
Qed.

Lemma total_clear : total clear_write_buf.
Proof. intros c Hc. unfold clear_write_buf. eexists _, _. by split. Qed.

Lemma total_flush : total flush.
Proof.
  intros c Hc. unfold flush. destruct (write_buf c) as [| b buf]; [by eexists _, _; split |].
  revert c Hc. change (total (let+ _ := on_stream (write_all (b :: buf)) in
                              let+ _ := on_stream flush_transport in clear_write_buf)).
  auto using total_cbind, total_write_all, total_flush_transport, total_clear.
Qed.

(** A message that fits its frame is written. *)
Lemma total_emit oc m : sendable m -> total (emit (Frontend.write oc m)).
Proof. intros Hm c Hc. rewrite emit_frame by done. eexists _, _. by split. Qed.

Lemma drop_left (buf rest : list Z) (n : nat) (r : result Message Error) :
  Forall is_byte (buf ++ rest) -> (is_ok r = true -> (5 <= n <= length buf)%nat) ->
  Forall is_byte (drop n buf ++ rest) /\ (length (drop n buf ++ rest) <= length (buf ++ rest))%nat
  /\ (is_ok r = true -> (length (drop n buf ++ rest) < length (buf ++ rest))%nat).
Proof.
  intros [Hb Hr]%Forall_app Hn. rewrite Forall_app, !length_app, length_drop. split_and!; try done; try lia.
  - by apply Forall_drop.
  - intros Hok. specialize (Hn Hok). lia.
Qed.

Lemma read_loop_total rs buf :
  Forall is_byte (buf ++ (rs ≫= event_bytes)) ->
  Z.of_nat (length (buf ++ (rs ≫= event_bytes))) <= um ->
  exists r rs' buf', read_loop um rs buf = Val (r, rs', buf')
    /\ Forall is_byte (buf' ++ (rs' ≫= event_bytes))
    /\ (length (buf' ++ (rs' ≫= event_bytes)) <= length (buf ++ (rs ≫= event_bytes)))%nat
    /\ (is_ok r = true -> (length (buf' ++ (rs' ≫= event_bytes)) < length (buf ++ (rs ≫= event_bytes)))%nat).
Proof.
  revert buf. induction rs as [| e rs IH]; intros buf Hb Hl;
    (assert (Hbb : Forall is_byte buf) by (by apply Forall_app in Hb as [? _]));
    (assert (Hlb : Z.of_nat (length buf) <= um) by (rewrite length_app in Hl; lia));
    cbn [read_loop]; destruct (parse_total um buf Hu Hbb Hlb) as (r & n & -> & Hr); cbn [outcome_bind].
  - destruct r as [[m |] | e'].
    + eexists _, _, _. split; [done |]. by apply drop_left.
    + subst n. rewrite drop_0. eexists _, _, _. split; [done |]. done.
    + eexists _, _, _. split; [done |]. by apply (drop_left _ _ _ (Err (from_io (IoFailure e')))).
  - destruct r as [[m |] | e'].
    + eexists _, _, _. split; [done |]. by apply drop_left.
    + subst n. rewrite drop_0. destruct e as [[| b bs] | e].
      * eexists _, _, _. split; [done |]. done.
      * rewrite bind_cons_eq, app_assoc in *. by apply IH.
      * eexists _, _, _. split; [done |]. rewrite bind_cons_eq, app_assoc in *. done.
    + eexists _, _, _. split; [done |]. by apply (drop_left _ _ _ (Err (from_io (IoFailure e')))).
Qed.

Lemma read_message_total c :
  bounded c -> exists r c', read_message um c = Val (r, c') /\ moves c c'
    /\ (is_ok r = true -> (length (wire c') < length (wire c))%nat).
Proof.
  intros [Hb Hl]. unfold read_message.
  destruct (read_loop_total _ _ Hb Hl) as (r & rs & buf & -> & Hb' & Hle & Hlt). cbn [outcome_bind].
  eexists _, _. split; [done |]. unfold moves, bounded, wire in *. cbn. split_and!; try done. lia.
Qed.

Lemma read_loop_sound rs buf m rs' buf' :
  Forall is_byte (buf ++ (rs ≫= event_bytes)) ->
  Z.of_nat (length (buf ++ (rs ≫= event_bytes))) <= um ->
  read_loop um rs buf = Val (Ok m, rs', buf') ->
  msg_ok m /\ buf ++ (rs ≫= event_bytes) = encode m ++ buf' ++ (rs' ≫= event_bytes).
Proof.
  revert buf. induction rs as [| e rs IH]; intros buf Hb Hl;
    (assert (Hbb : Forall is_byte buf) by (by apply Forall_app in Hb as [? _]));
    (assert (Hlb : Z.of_nat (length buf) <= um) by (rewrite length_app in Hl; lia));
    cbn [read_loop]; destruct (parse_total um buf Hu Hbb Hlb) as (r & n & Hp & Hr); rewrite Hp; cbn [outcome_bind];
    (destruct r as [[m' |] | e']; [| subst n; rewrite drop_0 | done]).
  1, 3: intros [= <- <- <-]; destruct (parse_sound um buf m' _ Hu Hbb Hlb Hp) as (? & ? & Heq);
    split; [by split |]; by rewrite Heq at 1; rewrite <- app_assoc.
  - done.
  - destruct e as [[| b bs] | e]; [done | | done]. rewrite bind_cons_eq, (app_assoc buf) in *. by apply IH.
Qed.

(** Every message comes off the front of what was received. *)
Lemma read_message_sound c m c' :
  bounded c -> read_message um c = Val (Ok m, c') -> msg_ok m /\ wire c = encode m ++ wire c'.
Proof.
  intros [Hb Hl]. unfold read_message. destruct (read_loop um _ _) as [[[r rs] buf] |] eqn:E; [| done].
  cbn [outcome_bind]. intros [= -> <-]. by apply (read_loop_sound _ _ m rs buf) in E.
Qed.

Lemma total_read_message : total (read_message um).
Proof. intros c Hc. destruct (read_message_total c Hc) as (r & c' & ? & ? & _). eauto. Qed.

Lemma drain_total n c :
  bounded c -> exists b c', drain_until_ready_bounded um n c = Val (Ok b, c') /\ moves c c'
    /\ (b = false -> desynchronized c' = true).
Proof.
  revert c. induction n as [| n IH]; intros c Hc; cbn [drain_until_ready_bounded].
  { eexists _, _. split; [done |]. split; [by apply moves_desync, moves_refl | done]. }
  destruct (read_message_total c Hc) as (r & c1 & -> & Hm & _). cbn [outcome_bind].
  destruct r as [m | e].
  - destruct (IH c1) as (b & c' & Hd & Hm' & Hb); [by destruct Hm |].
    assert (moves c c') by (by eapply moves_trans).
    destruct m; eauto 6. exists true, c1. done.
  - eexists _, _. split; [done |]. split; [by apply moves_desync | done].
Qed.

Lemma total_consume_error body : total (consume_error um body).
Proof.
  intros c Hc. unfold consume_error, cbind. destruct (parse_error_response_total body) as [e ->].
  cbn [outcome_bind]. destruct (drain_total POST_ERROR_DRAIN_CAP c Hc) as (b & c' & -> & Hm & _).
  cbn [outcome_bind cret]. eexists _, _. by split.
Qed.

(** A loop of at most one step per byte left, whose body reads a message and then
    stops or goes on, returns. *)
Lemma loop_total {S A} (loop : nat -> S -> C A) (body : S -> Message -> C A + S) :
  (forall fuel s c, loop (Datatypes.S fuel) s c
     = (let+ msg := read_message um in
        match body s msg with inl m => m | inr s => loop fuel s end) c) ->
  (forall s msg m, body s msg = inl m -> total m) ->
  forall fuel s c, bounded c -> (length (wire c) < fuel)%nat ->
    exists r c', loop fuel s c = Val (r, c') /\ moves c c'.
Proof.
  intros Hstep Hbody fuel. induction fuel as [| fuel IH]; intros s c Hc Hl; [lia |].
  rewrite Hstep. unfold cbind. destruct (read_message_total c Hc) as (r & c1 & -> & Hm & Hlt).
  cbn [outcome_bind]. destruct r as [msg | e]; [| eauto]. specialize (Hlt eq_refl).
  destruct (body s msg) as [m | s'] eqn:Hb.
  - destruct (Hbody s msg m Hb c1) as (r & c' & -> & Hm'); [by destruct Hm |].
    eexists _, _. split; [done | by eapply moves_trans].
  - destruct (IH s' c1) as (r & c' & -> & Hm'); [by destruct Hm | lia |].
    eexists _, _. split; [done | by eapply moves_trans].
Qed.

Lemma total_budget {A} (loop : nat -> C A) :
  (forall fuel c, bounded c -> (length (wire c) < fuel)%nat -> exists r c', loop fuel c = Val (r, c') /\ moves c c') ->
  total (fun c => loop (budget c) c).
Proof. intros H c Hc. apply H; [done |]. unfold budget, wire. rewrite length_app. lia. Qed.

Lemma total_server_error {A} body : total (A := A) (let+ err := consume_error um body in cfail err).
Proof. apply total_cbind; [apply total_consume_error | intros e; apply total_cfail]. Qed.

(** Unfolds one step of a message loop. *)
Ltac loop_step :=
  intros; cbn; unfold cbind; let m := fresh in
  match goal with |- context [read_message um ?c] => destruct (read_message um c) as [[[m | ?] ?] |] end;
  cbn [outcome_bind]; [by destruct m | done | done].

Lemma total_collect : total (fun c => collect_response um (budget c) [] c).
Proof.
  apply (total_budget (fun fuel => collect_response um fuel [])). intros fuel.
  apply (loop_total (collect_response um) (fun acc msg =>
    match msg with
    | ReadyForQuery _ => inl (cret (acc ++ [msg]))
    | ErrorResponse body => inl (let+ err := consume_error um body in cfail err)
    | _ => inr (acc ++ [msg])
    end)); [loop_step |].
  intros s msg m. destruct msg; intros [= <-]; [apply total_server_error | apply total_cret].
Qed.

Lemma total_await : total (fun c => await_copy_in um (budget c) c).
Proof.
  apply (total_budget (await_copy_in um)). intros fuel.
  apply (loop_total (fun fuel (_ : unit) => await_copy_in um fuel) (fun _ msg =>
    match msg with
    | CopyInResponse _ => inl (cret tt)
    | ErrorResponse body => inl (let+ err := consume_error um body in cfail err)
    | _ => inr tt
    end)); [loop_step | | exact tt].
  intros s msg m. destruct msg; intros [= <-]; [apply total_cret | apply total_server_error].
Qed.

Lemma total_copy_out_loop : total (fun c => copy_out_loop um (budget c) [] false c).
Proof.
  apply (total_budget (fun fuel => copy_out_loop um fuel [] false)). intros fuel.
  refine (loop_total (S := list Z * bool) (fun fuel s => copy_out_loop um fuel s.1 s.2) (fun s msg =>
    match msg with
    | CopyOutResponse _ => inr (s.1, true)
    | CopyData body => inr ((if s.2 then s.1 ++ body else s.1), s.2)
    | CopyDone => inr (s.1, false)
    | ReadyForQuery _ => inl (cret s.1)
    | ErrorResponse body => inl (let+ err := consume_error um body in cfail err)
    | _ => inr s
    end) _ _ fuel ([], false)).
  - loop_step.
  - intros s msg m. destruct msg; intros [= <-]; [apply total_server_error | apply total_cret].
Qed.

Lemma total_gives_up {A} (e : Error) : total (fun c => Val (@Err A Error e, set_desync c)).
Proof. intros c Hc. eexists _, _. split; [done |]. by apply moves_desync, moves_refl. Qed.

Lemma total_finish_loop n count : total (finish_loop um n count).
Proof.
  revert count. induction n as [| n IH]; intros count; [apply total_gives_up |].
  intros c. cbn [finish_loop]. revert c. apply total_cbind; [apply total_or_desync, total_read_message |].
  intros msg. destruct msg; try apply IH; [apply total_server_error | apply total_cret].
Qed.

Lemma total_cancel_loop n : total (cancel_loop um n).
Proof.
  induction n as [| n IH]; [apply total_gives_up |].
  intros c. cbn [cancel_loop]. revert c. apply total_cbind; [apply total_or_desync, total_read_message |].
  intros msg. destruct msg; try apply IH. apply total_cret.
Qed.
End totality.

(** ** Exchanges *)

(** An operation that needs a connection in step with its server. *)
Inductive exchange : Type :=
| SimpleQuery (query : list Z)
| BinaryQuery (query : list Z)
| CopyIn (query : list Z)
| CopyOut (query : list Z)
| FinishCopy
| CancelCopy (reason : list Z).

Definition discard {A} (m : C A) : C unit := let+ _ := m in cret tt.

Definition run_exchange (oc : bool) (um : Z) (x : exchange) : C unit :=
  match x with
  | SimpleQuery query => discard (simple_query oc um query)
  | BinaryQuery query => discard (query_binary oc um query)
  | CopyIn query => start_copy_in_raw oc um query
  | CopyOut query => discard (copy_out oc um query)
  | FinishCopy => discard (finish_copy um)
  | CancelCopy reason => cancel_copy oc um reason
  end.

(** Its text fits the length field of a message. *)
Definition text_fits (text : list Z) : Prop := Z.of_nat (length text) + 8 < 2 ^ 31.

Definition exchange_fits (x : exchange) : Prop :=
  match x with
  | SimpleQuery text | BinaryQuery text | CopyIn text | CopyOut text | CancelCopy text => text_fits text
  | FinishCopy => True
  end.

Lemma query_sendable text : text_fits text -> sendable (Query text).
Proof. intros H. split; [done |]. cbn. unfold cstr, text_fits in *. rewrite length_app. simpl. lia. Qed.

Lemma copy_fail_sendable text : text_fits text -> sendable (CopyFail text).
Proof. intros H. split; [done |]. cbn. unfold cstr, text_fits in *. rewrite length_app. simpl. lia. Qed.

Lemma binary_request_sendable text : text_fits text -> Forall sendable (binary_request text).
Proof.
  unfold text_fits. intros H.
  repeat constructor; try done. all: cbn in *; unfold cstr in *; rewrite ?length_app in *; simpl in *; lia.
Qed.

Section exchanges.
Context (oc : bool) (um : Z) (Hu : 2 ^ 32 - 1 <= um).

Lemma total_request {A} m (k : C A) :
  sendable m -> total um k ->
  total um (let+ _ := emit (Frontend.write oc m) in let+ _ := flush in k).
Proof. auto using total_cbind, total_emit, total_flush. Qed.

Lemma total_start_query_binary text : text_fits text -> total um (start_query_binary oc text).
Proof.
  intros Ht. apply binary_request_sendable in Ht.
  apply Forall_cons_1 in Ht as
    [Hp [Hb [Hd [He [Hy _]%Forall_cons_1]%Forall_cons_1]%Forall_cons_1]%Forall_cons_1].
  unfold start_query_binary. apply total_cbind; [apply total_ensure_healthy | intros _].
  apply total_cbind; [exact (total_emit um oc _ Hp) | intros _].
  apply total_cbind; [exact (total_emit um oc _ Hb) | intros _].
  apply total_cbind; [exact (total_emit um oc _ Hd) | intros _].
  apply total_cbind; [exact (total_emit um oc _ He) | intros _].
  apply total_cbind; [exact (total_emit um oc _ Hy) | intros _]. apply total_flush.
Qed.

Lemma total_exchange x : exchange_fits x -> total um (run_exchange oc um x).
Proof.
  assert (Hd : forall A (m : C A), total um m -> total um (discard m)).
  { intros A m Hm. apply total_cbind; [done | intros _; apply total_cret]. }
  assert (Hq : forall A text (k : C A), text_fits text -> total um k -> total um
            (let+ _ := ensure_healthy in let+ _ := emit (Frontend.query oc text) in let+ _ := flush in k)).
  { intros A text k Ht Hk. apply total_cbind; [apply total_ensure_healthy | intros _].
    exact (total_request (Query text) k (query_sendable text Ht) Hk). }
  destruct x as [q | q | q | q | | reason]; cbn [exchange_fits run_exchange]; intros Hf.
  - apply Hd, Hq; [done | by apply total_collect].
  - apply Hd, total_cbind; [by apply total_start_query_binary | intros _; by apply total_collect].
  - apply Hq; [done | by apply total_await].
  - apply Hd, Hq; [done | by apply total_copy_out_loop].
  - apply Hd, total_cbind; [apply total_ensure_healthy | intros _].
    apply total_cbind; [apply total_or_desync, total_flush | intros _].
    apply total_cbind; [apply (total_emit um oc MsgCopyDone); by split | intros _].
    apply total_cbind; [apply total_or_desync, total_flush | intros _]. by apply total_finish_loop.
  - apply total_cbind; [apply total_ensure_healthy | intros _].
    apply total_cbind; [apply total_or_desync, total_flush | intros _].
    apply total_cbind; [exact (total_emit um oc (CopyFail reason) (copy_fail_sendable _ Hf)) | intros _].
    apply total_cbind; [apply total_or_desync, total_flush | intros _]. by apply total_cancel_loop.
Qed.

(** Every failure leaves the connection marked. *)
Definition marks {A} (m : C A) : Prop :=
  forall c e c', m c = Val (Err e, c') -> desynchronized c' = true.

Lemma marks_cbind {A B} (m : C A) (f : A -> C B) :
  marks m -> (forall a, marks (f a)) -> marks (cbind m f).
Proof.
  intros Hm Hf c e c'. unfold cbind. destruct (m c) as [[[a | e'] c1] |] eqn:E; cbn [outcome_bind]; [apply Hf | | done].
  intros [= -> ->]. by eapply Hm.
Qed.

Lemma marks_or_desync {A} (m : C A) : marks (or_desync m).
Proof.
  intros c e c'. unfold or_desync. destruct (m c) as [[[a | e'] c1] |]; cbn [outcome_bind]; [done | | done].
  by intros [= _ <-].
Qed.

Lemma marks_ensure_healthy : marks ensure_healthy.
Proof. intros c e c'. unfold ensure_healthy. destruct (desynchronized c) eqn:E; [by intros [= _ <-] | done]. Qed.

Lemma marks_emit f : marks (emit f).
Proof. intros c e c'. unfold emit. by destruct (f (write_buf c)). Qed.

Lemma marks_cancel_loop n : marks (cancel_loop um n).
Proof.
  induction n as [| n IH]; [by intros c e c' [= _ <-] |].
  intros c. cbn [cancel_loop]. revert c. apply marks_cbind; [apply marks_or_desync |].
  intros response. destruct response; try apply IH. by intros c e c'.
Qed.

Lemma marks_cancel_copy reason : marks (cancel_copy oc um reason).
Proof.
  apply marks_cbind; [apply marks_ensure_healthy | intros _].
  apply marks_cbind; [apply marks_or_desync | intros _].
  apply marks_cbind; [apply marks_emit | intros _].
  apply marks_cbind; [apply marks_or_desync | intros _]. apply marks_cancel_loop.
Qed.

(** Or, at the end of a COPY, it is the error the server reported. *)
Definition marks_or_reports {A} (m : C A) : Prop :=
  forall c e c', m c = Val (Err e, c') ->
    desynchronized c' = true \/ exists body, parse_error_response body = Val e.

Lemma marks_weaken {A B} (m : C A) (f : A -> C B) :
  marks m -> (forall a, marks_or_reports (f a)) -> marks_or_reports (cbind m f).
Proof.
  intros Hm Hf c e c'. unfold cbind. destruct (m c) as [[[a | e'] c1] |] eqn:E; cbn [outcome_bind]; [apply Hf | | done].
  intros [= -> ->]. left. by eapply Hm.
Qed.

Lemma reports_server_error {A} body :
  marks_or_reports (A := A) (let+ err := consume_error um body in cfail err).
Proof.
  intros c e c'. unfold cbind at 1, consume_error, cbind, cret, cfail.
  destruct (parse_error_response body) as [e' |] eqn:E; cbn [outcome_bind]; [| done].
  destruct (drain_until_ready_bounded um POST_ERROR_DRAIN_CAP c) as [[[b | e1] c1] |] eqn:D; cbn [outcome_bind]; [| | done].
  - intros [= -> ->]. eauto.
  - exfalso. revert D. generalize POST_ERROR_DRAIN_CAP. intros n. revert c.
    induction n as [| n IH]; intros c; cbn [drain_until_ready_bounded]; [done |].
    destruct (read_message um c) as [[[m | e2] c2] |]; cbn [outcome_bind]; [| done | done].
    destruct m; try apply IH. done.
Qed.

Lemma reports_finish_loop n count : marks_or_reports (finish_loop um n count).
Proof.
  revert count. induction n as [| n IH]; intros count; [intros c e c' [= _ <-]; by left |].
  intros c. cbn [finish_loop]. revert c. apply marks_weaken; [apply marks_or_desync |].
  intros response. destruct response; try apply IH; [apply reports_server_error | done].
Qed.

Lemma reports_finish_copy : marks_or_reports (finish_copy um).
Proof.
  apply marks_weaken; [apply marks_ensure_healthy | intros _].
  apply marks_weaken; [apply marks_or_desync | intros _].
  apply marks_weaken; [apply marks_emit | intros _].
  apply marks_weaken; [apply marks_or_desync | intros _]. apply reports_finish_loop.
Qed.

(** The waits that end in step. *)
Lemma cancel_loop_encode n c ms st rest :
  (length ms < n)%nat -> Forall (fun m => msg_ok m /\ not_ready m) ms -> in_u 8 st ->
  receives um c ((ms ≫= encode) ++ encode (ReadyForQuery st) ++ rest) ->
  exists c', cancel_loop um n c = Val (Ok tt, c') /\ receives um c' rest /\ read_only c c'.
Proof.
  revert c ms. induction n as [| n IH]; intros c ms Hn Hms Hst Hc; [lia |].
  cbn [cancel_loop]. unfold cbind, read_message_or_desync, or_desync. destruct ms as [| m ms].
  - rewrite bind_nil_eq in Hc.
    destruct (read_message_encode um Hu c _ _ Hc (ready_ok st Hst)) as (c' & -> & Hc' & Hro). cbn [outcome_bind]. eauto.
  - rewrite bind_cons_eq, <- app_assoc in Hc. apply Forall_cons_1 in Hms as [[Hm Hnr] Hms].
    destruct (read_message_encode um Hu c _ _ Hc Hm) as (c1 & -> & Hc1 & Hro). cbn [outcome_bind].
    destruct (IH c1 ms) as (c' & Hd & Hc' & Hro'); [simpl in Hn; lia | done | done | done |].
    exists c'. split; [| split; [done | by etransitivity]]. by destruct m.
Qed.
End exchanges.

Lemma zeros_bytes n : Forall is_byte (replicate n 0).
Proof. by apply Forall_replicate. Qed.

(** ** The properties *)

(** C6. A query stays in step with the server. On a healthy connection, however the
    transport cuts the bytes into reads, a response of any messages up to
    [ReadyForQuery] is returned message for message, exactly the request was sent,
    and what follows the response is left for the next one. When the response has
    an error, the error is that of its last severity, code and message fields; if at
    most 1023 messages come between it and [ReadyForQuery] the connection is in
    step again, and otherwise it is given up. *)
Theorem query_in_step oc um query run request c ms st rest :
  2 ^ 32 - 1 <= um -> query_run oc um query run request -> text_fits query ->
  is_healthy c = true -> accepting c -> Forall in_response ms -> in_u 8 st ->
  (receives um c ((ms ≫= encode) ++ encode (ReadyForQuery st) ++ rest) ->
   exists c', run c = Val (Ok (ms ++ [ReadyForQuery st]), c') /\ receives um c' rest
     /\ is_healthy c' = true /\ write_buf c' = []
     /\ sent (stream c') = sent (stream c) ++ write_buf c ++ request)
  /\ forall fs post ms', let body := (fs ≫= encode_error_field) ++ 0 :: post in
     Forall error_field_ok fs -> msg_ok (ErrorResponse body) ->
     Forall (fun m => msg_ok m /\ not_ready m) ms' ->
     receives um c ((ms ≫= encode) ++ encode (ErrorResponse body) ++ (ms' ≫= encode)
                    ++ encode (ReadyForQuery st) ++ rest) ->
     exists c', run c = Val (Err (error_of (foldl error_field_step error_defaults fs)), c')
       /\ sent (stream c') = sent (stream c) ++ write_buf c ++ request
       /\ if (length ms' <? 1024)%nat then receives um c' rest /\ is_healthy c' = true
          else is_healthy c' = false.
Proof.
  intros Hu Hrun Hq Hh Ha Hms Hst.
  destruct (query_run_sends oc um query run request c Hrun Hh Ha Hq)
    as (c1 & -> & (Hr & Hb & Hd & _ & Hw & Hs)).
  assert (Hlen : forall tail, receives um c1 ((ms ≫= encode) ++ tail) -> (length ms < budget c1)%nat).
  { intros tail Hc. rewrite (budget_wire um _ _ Hc), length_app. pose proof (length_encode_pos ms). lia. }
  split.
  - intros Hc. apply (receives_same um _ c1) in Hc; [| done | done].
    destruct (collect_response_ready um Hu _ c1 [] ms st rest (Hlen _ Hc) Hms Hst Hc)
      as (c' & -> & Hc' & (_ & Hs' & Hw' & Hd')).
    exists c'. unfold is_healthy in *. split_and!; [done | done | congruence .. ].
  - intros fs post ms' body Hfs He Hms' Hc. apply (receives_same um _ c1) in Hc; [| done | done].
    destruct (collect_response_error um Hu _ c1 [] ms body ms' st rest (Hlen _ Hc) Hms He Hms' Hst Hc)
      as (e & c' & Hp & -> & Hs' & Hif).
    unfold body in Hp. rewrite parse_error_response_encode in Hp by done. injection Hp as <-.
    exists c'. split; [done |]. split; [congruence |]. unfold is_healthy in *.
    change POST_ERROR_DRAIN_CAP with 1024%nat in Hif. destruct (length ms' <? 1024)%nat.
    + destruct Hif as [? (_ & _ & _ & Hd')]. split; [done | congruence].
    + by rewrite Hif.
Qed.

(** A server that answers one row in three reads, and has sent more. *)
Definition sample_row : Message := DataRow (DataRowBody.mk [0; 0; 0; 1; 65] 1).
Definition sample_connection : RawConnection :=
  new (mk_stream [Data (take 3 (encode sample_row)); Data (drop 3 (encode sample_row));
                  Data (encode (ReadyForQuery 73) ++ [1; 2])] [] [] []).

Lemma query_in_step_witness :
  exists c', simple_query true (2 ^ 64 - 1) [65] sample_connection
             = Val (Ok ([sample_row] ++ [ReadyForQuery 73]), c')
    /\ receives (2 ^ 64 - 1) c' [1; 2] /\ is_healthy c' = true /\ write_buf c' = []
    /\ sent (stream c') = [] ++ [] ++ frame (Query [65]).
Proof.
  destruct (query_in_step true (2 ^ 64 - 1) [65] (simple_query true (2 ^ 64 - 1) [65]) (frame (Query [65]))
    sample_connection [sample_row] 73 [1; 2]) as [H _].
  - lia.
  - constructor.
  - vm_compute. done.
  - done.
  - constructor.
  - constructor; [| constructor]. split; [| done]. split; vm_compute; intuition discriminate.
  - vm_compute. intuition discriminate.
  - apply H. unfold receives. split_and!.
    + repeat constructor; vm_compute; discriminate.
    + vm_compute. done.
    + vm_compute. repeat constructor; discriminate.
    + vm_compute. discriminate.
Defined.

(** C26. The exchanges that ask for a healthy connection return, whatever the transport
    does. They are [simple_query], [query_binary], [start_copy_in_raw], [copy_out],
    [finish_copy] and [cancel_copy]: reads of any bytes, cut anywhere, that fail or end at
    any point, and writes that fail after any number of bytes make them neither panic
    nor run on. On a connection marked desynchronized they are refused and change
    nothing: no byte is sent or read, and the mark stays. The calls for prepared
    statements do not ask, and are not meant. *)
Theorem exchanges_total oc um x c :
  2 ^ 32 - 1 <= um -> exchange_fits x -> bounded um c ->
  exists r c', run_exchange oc um x c = Val (r, c') /\ bounded um c'
    /\ (length (wire c') <= length (wire c))%nat
    /\ (desynchronized c = true -> is_ok r = false /\ c' = c).
Proof.
  intros Hu Hf Hb. destruct (total_exchange oc um Hu x Hf c Hb) as (r & c' & Hr & (Hb' & Hl & _)).
  exists r, c'. split_and!; [done .. |]. intros Hd.
  assert (He : exists e, ensure_healthy c = Val (Err e, c)) by (unfold ensure_healthy; rewrite Hd; eauto).
  destruct He as [e He]. revert Hr.
  destruct x; cbn [run_exchange]; unfold discard, simple_query, query_binary, start_query_binary,
    start_copy_in_raw, copy_out, finish_copy, cancel_copy, cbind; rewrite He; cbn [outcome_bind];
    by intros [= <- <-].
Qed.

Lemma exchanges_total_witness :
  exists r c', run_exchange true (2 ^ 64 - 1) (SimpleQuery [65])
      (new (mk_stream [Data [90; 0]; ReadFails (TlsFailure [])] [] [] [])) = Val (r, c')
    /\ bounded (2 ^ 64 - 1) c'.
Proof.
  set (c := new _).
  assert (Hb : bounded (2 ^ 64 - 1) c).
  { assert (Hw : wire c = [90; 0] ++ replicate READ_WINDOW 0 ++ []) by done.
    unfold bounded. rewrite Hw. split.
    - rewrite app_nil_r. apply Forall_app. split; [repeat constructor; vm_compute; intuition discriminate |].
      apply zeros_bytes.
    - rewrite !length_app, length_replicate. vm_compute. discriminate. }
  assert (Hf : exchange_fits (SimpleQuery [65])) by done.
  destruct (exchanges_total true (2 ^ 64 - 1) (SimpleQuery [65]) c ltac:(lia) Hf Hb) as (r & c' & Hr & Hb' & _).
  exists r, c'. by split.
Defined.

(** *** What was read when a wait ends *)

(** From [c] to [c'] the rest of a response was read: the messages [ms] and the
    [ReadyForQuery] behind them. *)
Definition ended (c : RawConnection) (ms : list Message) (c' : RawConnection) : Prop :=
  Forall not_ready ms /\ exists st, wire c = (ms ≫= encode) ++ encode (ReadyForQuery st) ++ wire c'.

Lemma ended_ready c st c' : wire c = encode (ReadyForQuery st) ++ wire c' -> ended c [] c'.
Proof. intros H. split; [constructor | by exists st]. Qed.

Lemma ended_cons c m c1 ms c' : not_ready m -> wire c = encode m ++ wire c1 -> ended c1 ms c' -> ended c (m :: ms) c'.
Proof.
  intros Hm Hw [Hms [st Hst]]. split; [by constructor |]. exists st. rewrite bind_cons_eq, <- app_assoc, <- Hst. done.
Qed.

Lemma ended_same c c1 ms c' : wire c1 = wire c -> ended c1 ms c' -> ended c ms c'.
Proof. unfold ended. by intros ->. Qed.

(** What a flush that succeeds has done. *)
Lemma flush_ok c c' :
  flush c = Val (Ok tt, c') ->
  wire c' = wire c /\ sent (stream c') = sent (stream c) ++ write_buf c /\ write_buf c' = [] /\ desynchronized c' = desynchronized c.
Proof.
  unfold flush. destruct (write_buf c) as [| b buf] eqn:Hb; [intros [= <-]; by rewrite app_nil_r |].
  unfold cbind at 1, on_stream at 1, write_all. destruct (writes (stream c)) as [| [[n e] |] ws]; [| done |]; cbn [outcome_bind].
  all: unfold cbind, on_stream, flush_transport; cbn [stream writes].
  - by intros [= <-].
  - destruct ws as [| [[n e] |] ws]; [| done |]; by intros [= <-].
Qed.

(** The start of both ends of a COPY: what is pending and one message. *)
Lemma ending_sends {A} oc um m (k : C A) c r c' :
  sendable m ->
  (let+ _ := ensure_healthy in let+ _ := flush_or_desync in let+ _ := emit (Frontend.write oc m) in let+ _ := flush_or_desync in k) c
    = Val (r, c') ->
  (is_ok r = false /\ desynchronized c' = true)
  \/ exists c1, k c1 = Val (r, c') /\ (bounded um c -> bounded um c1) /\ wire c1 = wire c
       /\ sent (stream c1) = sent (stream c) ++ write_buf c ++ frame m /\ desynchronized c1 = false.
Proof.
  intros Hm. assert (Hflush : forall (k : C A) c, (let+ _ := flush_or_desync in k) c = Val (r, c') ->
    (is_ok r = false /\ desynchronized c' = true) \/ exists c1, flush c = Val (Ok tt, c1) /\ k c1 = Val (r, c')).
  { clear. intros k c. unfold cbind, flush_or_desync, or_desync. destruct (flush c) as [[[[] | e] c1] |]; cbn [outcome_bind]; [| | done].
    - intros H. right. by exists c1.
    - intros [= <- <-]. by left. }
  unfold cbind at 1, ensure_healthy. destruct (desynchronized c) eqn:Hd; cbn [outcome_bind]; [intros [= <- <-]; by left |].
  intros [? | (c1 & (Hw1 & Hs1 & Hb1 & Hd1)%flush_ok & H)]%Hflush; [by left |]. revert H. unfold cbind at 1. rewrite emit_frame by done.
  cbn [outcome_bind]. intros [? | (c2 & (Hw2 & Hs2 & _ & Hd2)%flush_ok & H)]%Hflush; [by left | right].
  exists c2. cbn [stream write_buf desynchronized] in *. assert (Hw : wire c2 = wire c) by (rewrite Hw2; exact Hw1).
  split_and!; [done | unfold bounded; by rewrite Hw | done | | congruence]. by rewrite Hs2, Hs1, Hb1, <- app_assoc.
Qed.

(** The row counts that a response reports. *)
Definition counts (ms : list Message) : list Z :=
  omap (fun m => match m with CommandComplete tag => copy_count tag | _ => None end) ms.

Definition no_error (m : Message) : Prop := match m with ErrorResponse _ => False | _ => True end.

Section ends.
Context (um : Z) (Hu : 2 ^ 32 - 1 <= um).

(** A message read within a wait. *)
Lemma read_step {A} (f : Message -> C A) c r c' :
  bounded um c -> (let+ m := read_message_or_desync um in f m) c = Val (r, c') ->
  (exists e, r = Err e /\ desynchronized c' = true)
  \/ exists m c1, bounded um c1 /\ wire c = encode m ++ wire c1 /\ read_only c c1 /\ f m c1 = Val (r, c').
Proof.
  intros Hc. unfold cbind, read_message_or_desync, or_desync.
  destruct (read_message_total um Hu c Hc) as (r1 & c1 & Hr & (Hb & _) & _). rewrite Hr. destruct r1 as [m | e]; cbn [outcome_bind].
  - intros H. right. exists m, c1. pose proof (read_message_only um _ _ _ Hr). apply read_message_sound in Hr as [_ Hw]; [eauto | done..].
  - intros [= <- <-]. left. by exists e.
Qed.

Lemma drain_sound n c b c' :
  bounded um c -> drain_until_ready_bounded um n c = Val (Ok b, c') ->
  desynchronized c' = true \/ exists ms, ended c ms c'.
Proof.
  revert c. induction n as [| n IH]; intros c Hc; cbn [drain_until_ready_bounded]; [intros [= _ <-]; by left |].
  destruct (read_message_total um Hu c Hc) as (r1 & c1 & Hr & (Hb & _) & _). rewrite Hr. cbn [outcome_bind].
  destruct r1 as [m | e]; [| intros [= _ <-]; by left]. apply read_message_sound in Hr as [_ Hw]; [| done..].
  assert (Hgo : not_ready m -> drain_until_ready_bounded um n c1 = Val (Ok b, c') -> desynchronized c' = true \/ exists ms, ended c ms c').
  { intros Hm Hd. destruct (IH c1 Hb Hd) as [? | [ms Hms]]; [by left |]. right. exists (m :: ms). by eapply ended_cons. }
  destruct m; try (by apply Hgo). intros [= _ <-]. right. exists []. by eapply ended_ready.
Qed.

Lemma cancel_loop_sound n c r c' :
  bounded um c -> cancel_loop um n c = Val (r, c') ->
  (is_ok r = false /\ desynchronized c' = true) \/ (r = Ok tt /\ read_only c c' /\ exists ms, ended c ms c').
Proof.
  revert c. induction n as [| n IH]; intros c Hc; cbn [cancel_loop]; [intros [= <- <-]; by left |].
  intros [(e & -> & Hd) | (m & c1 & Hb & Hw & Hro & H)]%read_step; [by left | | done].
  assert (Hgo : not_ready m -> cancel_loop um n c1 = Val (r, c') ->
    (is_ok r = false /\ desynchronized c' = true) \/ (r = Ok tt /\ read_only c c' /\ exists ms, ended c ms c')).
  { intros Hm Hd. destruct (IH c1 Hb Hd) as [? | (-> & Hro' & ms & Hms)]; [by left |]. right.
    split_and!; [done | by etransitivity |]. exists (m :: ms). by eapply ended_cons. }
  destruct m; try (by apply Hgo). injection H as <- <-. right. split_and!; [done.. |]. exists []. by eapply ended_ready.
Qed.

(** An error of the server, read to its end. *)
Lemma server_error_sound {A} body c (r : result A Error) c' :
  bounded um c -> (let+ err := consume_error um body in cfail err) c = Val (r, c') ->
  exists e, r = Err e /\ (desynchronized c' = true \/ exists ms, ended c ms c' /\ parse_error_response body = Val e).
Proof.
  intros Hc. unfold cbind at 1, consume_error, cbind, cret, cfail.
  destruct (parse_error_response body) as [e' |] eqn:E; cbn [outcome_bind]; [| done].
  destruct (drain_total um Hu POST_ERROR_DRAIN_CAP c Hc) as (b & c1 & Hd & _). rewrite Hd. cbn [outcome_bind]. intros [= <- <-].
  exists e'. split; [done |]. apply drain_sound in Hd as [? | [ms ?]]; [by left | right; by exists ms | done].
Qed.

Lemma finish_loop_sound n k c r c' :
  bounded um c -> finish_loop um n k c = Val (r, c') ->
  match r with
  | Ok count => read_only c c' /\ exists ms, ended c ms c' /\ Forall no_error ms /\ count = default k (list.last (counts ms))
  | Err e => desynchronized c' = true
      \/ exists ms body ms', ended c (ms ++ ErrorResponse body :: ms') c' /\ Forall no_error ms /\ parse_error_response body = Val e
  end.
Proof.
  revert k c. induction n as [| n IH]; intros k c Hc; cbn [finish_loop]; [intros [= <- <-]; by left |].
  intros [(e & -> & Hd) | (m & c1 & Hb & Hw & Hro & H)]%read_step; [by left | | done].
  assert (Hgo : forall k', (forall ms, default k' (list.last (counts ms)) = default k (list.last (counts (m :: ms)))) -> not_ready m -> no_error m ->
    finish_loop um n k' c1 = Val (r, c') ->
    match r with
    | Ok count => read_only c c' /\ exists ms, ended c ms c' /\ Forall no_error ms /\ count = default k (list.last (counts ms))
    | Err e => desynchronized c' = true
        \/ exists ms body ms', ended c (ms ++ ErrorResponse body :: ms') c' /\ Forall no_error ms /\ parse_error_response body = Val e
    end).
  { intros k' Hk Hm He Hd. specialize (IH k' c1 Hb Hd). destruct r as [count | e].
    - destruct IH as (Hro' & ms & Hms & Hne & ->). split; [by etransitivity |]. exists (m :: ms).
      split_and!; [by eapply ended_cons | by constructor | by rewrite Hk].
    - destruct IH as [? | (ms & body & ms' & Hms & Hne & Hp)]; [by left |]. right. exists (m :: ms), body, ms'.
      split_and!; [by eapply ended_cons | by constructor | done]. }
  destruct m; try (by apply (Hgo k)).
  - refine (Hgo _ _ I I H). intros ms. unfold counts. cbn [omap list_omap]. destruct (copy_count tag) as [n0 |]; [| done].
    rewrite list.last_cons. by destruct (list.last _).
  - apply server_error_sound in H as (e & -> & [? | (ms & Hms & Hp)]); [by left | right | done]. exists [], storage, ms.
    split_and!; [by eapply ended_cons | constructor | done].
  - injection H as <- <-. split; [done |]. exists []. split_and!; [by eapply ended_ready | constructor | done].
Qed.
End ends.

(** C36. Ending a COPY leaves no doubt about the connection. Whatever the transport
    does, [cancel_copy] returns. It succeeds only if all it had to send was sent, the
    [CopyFail] last, and the messages up to a [ReadyForQuery] were read; otherwise
    it fails and marks the connection desynchronized. [finish_copy] returns: the last
    row count the server reported, after [CopyDone] was sent and a response without an
    error was read to its [ReadyForQuery]; or the first error of a response read to
    its [ReadyForQuery]; or an error on a connection that is then marked. Against a
    server that answers within the budget, cancelling succeeds and leaves the connection
    healthy, in step with the server. *)
Theorem copy_teardown oc um reason c :
  2 ^ 32 - 1 <= um -> text_fits reason -> bounded um c ->
  (exists r c', cancel_copy oc um reason c = Val (r, c') /\
     ((is_ok r = false /\ is_healthy c' = false)
      \/ (r = Ok tt /\ is_healthy c' = true /\ sent (stream c') = sent (stream c) ++ write_buf c ++ frame (CopyFail reason)
          /\ exists ms, ended c ms c')))
  /\ (exists r c', finish_copy um c = Val (r, c') /\
        match r with
        | Ok count => is_healthy c' = true /\ sent (stream c') = sent (stream c) ++ write_buf c ++ frame MsgCopyDone
            /\ exists ms, ended c ms c' /\ Forall no_error ms /\ count = default 0 (list.last (counts ms))
        | Err e => is_healthy c' = false
            \/ exists ms body ms', ended c (ms ++ ErrorResponse body :: ms') c' /\ Forall no_error ms /\ parse_error_response body = Val e
        end)
  /\ forall ms st rest,
       is_healthy c = true -> accepting c -> (length ms < 1024)%nat ->
       Forall (fun m => msg_ok m /\ not_ready m) ms -> in_u 8 st ->
       receives um c ((ms ≫= encode) ++ encode (ReadyForQuery st) ++ rest) ->
       exists c', cancel_copy oc um reason c = Val (Ok tt, c') /\ is_healthy c' = true
         /\ receives um c' rest /\ sent (stream c') = sent (stream c) ++ write_buf c ++ frame (CopyFail reason).
Proof.
  intros Hu Hf Hb. split_and!.
  - destruct (total_exchange oc um Hu (CancelCopy reason) Hf c Hb) as (r & c' & Hr & _).
    exists r, c'. split; [done |]. unfold is_healthy.
    destruct (ending_sends oc um (CopyFail reason) (cancel_loop um POST_ERROR_DRAIN_CAP) c r c' (copy_fail_sendable _ Hf) Hr)
      as [[? ->] | (c1 & Hl & Hb1 & Hw1 & Hs1 & Hd1)]; [by left |].
    apply cancel_loop_sound in Hl as [[? ->] | (-> & Hro & Hend)]; [by left | right | done | by auto].
    destruct Hro as (_ & -> & _ & ->). rewrite Hd1, Hs1. split_and!; try done. destruct Hend as (ms & Hms). exists ms. by eapply ended_same.
  - destruct (total_exchange oc um Hu FinishCopy I c Hb) as (r & c' & Hr & _).
    cbn [run_exchange] in Hr. unfold discard, cbind at 1 in Hr.
    destruct (finish_copy um c) as [[r1 c1] |] eqn:E; [| done]. exists r1, c1. split; [done |]. unfold is_healthy.
    destruct (ending_sends oc um MsgCopyDone (finish_loop um POST_ERROR_DRAIN_CAP 0) c r1 c1 ltac:(done) E)
      as [[He ->] | (c2 & Hl & Hb2 & Hw2 & Hs2 & Hd2)]; [destruct r1; [done | by left] |].
    apply finish_loop_sound in Hl; [| done | by auto]. destruct r1 as [count | e].
    + destruct Hl as ((_ & -> & _ & ->) & ms & Hms & Hl). rewrite Hd2, Hs2. destruct Hl. split_and!; try done. exists ms. split_and!; [by eapply ended_same | done..].
    + destruct Hl as [-> | (ms & body & ms' & Hms & Hl)]; [by left | right]. exists ms, body, ms'. destruct Hl. split_and!; [by eapply ended_same | done..].
  - intros ms st rest Hh Ha Hl Hms Hst Hc. unfold cancel_copy.
    rewrite (cbind_ok _ _ _ _ _ (ensure_healthy_ok c Hh)).
    destruct (flush_sends c Ha) as (c1 & Hf1 & (Hr1 & Hb1 & Hd1 & Ha1 & Hw1 & Hs1)).
    assert (Hfd : forall c c', flush c = Val (Ok tt, c') -> flush_or_desync c = Val (Ok tt, c')).
    { intros d d' E. unfold flush_or_desync, or_desync. by rewrite E. }
    rewrite (cbind_ok _ _ _ _ _ (Hfd _ _ Hf1)).
    rewrite (cbind_ok _ _ _ _ _ (emit_frame oc (CopyFail reason) c1 (copy_fail_sendable _ Hf))).
    match goal with |- context [flush_or_desync] =>
      destruct (flush_sends (mk_conn (stream c1) (read_buf c1) (write_buf c1 ++ frame (CopyFail reason))
                               (desynchronized c1)) Ha1) as (c2 & Hf2 & (Hr2 & Hb2 & Hd2 & _ & Hw2 & Hs2)) end.
    rewrite (cbind_ok _ _ _ _ _ (Hfd _ _ Hf2)). cbn [stream read_buf write_buf desynchronized] in *.
    apply (receives_same um _ c2) in Hc; [| congruence | congruence].
    destruct (cancel_loop_encode um Hu POST_ERROR_DRAIN_CAP c2 ms st rest) as (c' & Hl' & Hc' & (_ & Hs' & _ & Hd'));
      [exact Hl | done | done | done |].
    exists c'. unfold is_healthy in *. split_and!; [done | congruence | done |].
    rewrite Hs', Hs2, Hs1, Hw1. by rewrite <- app_assoc.
Qed.

(** The transport takes three bytes of the [CopyFail]. *)
Lemma copy_teardown_witness :
  exists r c', cancel_copy true (2 ^ 64 - 1) [120] (new (mk_stream [] [Some (3%nat, TlsFailure [])] [] [])) = Val (r, c')
    /\ ((is_ok r = false /\ is_healthy c' = false)
        \/ (r = Ok tt /\ is_healthy c' = true /\ sent (stream c') = [] ++ [] ++ frame (CopyFail [120])
            /\ exists ms, ended (new (mk_stream [] [Some (3%nat, TlsFailure [])] [] [])) ms c')).
Proof.
  destruct (copy_teardown true (2 ^ 64 - 1) [120] (new (mk_stream [] [Some (3%nat, TlsFailure [])] [] [])))
    as (H & _ & _); [lia | vm_compute; done | | exact H].
  split; [constructor | vm_compute; discriminate].
Defined.

(** A transient read failure leaves bytes in the read buffer that the server never
    sent. When a message arrives in part, [p], and the next read fails, the query
    reports the failure and the connection stays healthy; the next read then returns,
    without waiting for the transport, the message [p] completed by zeros. *)
Theorem failed_read_forges_message oc um query c p k m e :
  2 ^ 32 - 1 <= um -> text_fits query -> is_healthy c = true -> accepting c ->
  read_buf c = [] -> reads (stream c) = [Data p; ReadFails e] -> p <> [] ->
  encode m = p ++ replicate k 0 -> (0 < k <= READ_WINDOW)%nat -> msg_ok m -> Forall is_byte p ->
  Z.of_nat (length p) + 65536 <= um ->
  exists c1 c2, simple_query oc um query c = Val (Err (from_io e), c1) /\ is_healthy c1 = true
    /\ reads (stream c1) = [] /\ read_message um c1 = Val (Ok m, c2).
Proof.
  intros Hu Hq Hh Ha Hrb Hrs Hp Henc Hk [Hok Hl] Hpb Hlen.
  destruct (query_run_sends oc um query _ _ c (RunSimple oc um query) Hh Ha Hq)
    as (c1 & -> & (Hr & Hb & Hd & _ & _ & _)).
  rewrite Hrb in Hb. rewrite Hrs in Hr.
  assert (Hplen : (length (encode m) = length p + k)%nat) by (by rewrite Henc, length_app, length_replicate).
  assert (HW : Z.of_nat READ_WINDOW = 65536) by (unfold READ_WINDOW; lia).
  assert (Hloop : read_loop um (reads (stream c1)) (read_buf c1)
                  = Val (Err (from_io e), [], p ++ replicate READ_WINDOW 0)).
  { rewrite Hr, Hb. cbn [read_loop]. change (Backend.parse um []) with (@Val (result (option Message) io_error * list Z) (Ok None, [])).
    cbn [outcome_bind]. destruct p as [| b p]; [done |]. cbn [app].
    rewrite (parse_prefix um m (b :: p) (replicate k 0)); [done | done | done | lia | done | done |].
    destruct k; [lia | done]. }
  set (c2 := mk_conn (mk_stream [] (writes (stream c1)) (sent (stream c1)) (cancels (stream c1))) (p ++ replicate READ_WINDOW 0)
               (write_buf c1) (desynchronized c1)).
  exists c2. assert (Hmsg : read_message um c1 = Val (Err (from_io e), c2)) by (unfold read_message; by rewrite Hloop).
  assert (Hz : p ++ replicate READ_WINDOW 0 = encode m ++ replicate (READ_WINDOW - k) 0).
  { rewrite Henc, <- app_assoc, <- replicate_add. do 2 f_equal. lia. }
  pose proof zeros_bytes as Hbytes.
  assert (Hnext : read_loop um [] (p ++ replicate READ_WINDOW 0) = Val (Ok m, [], replicate (READ_WINDOW - k) 0)).
  { cbn [read_loop]. rewrite Hz, parse_encode; [done | done | | | done | done].
    - rewrite Henc. by rewrite !Forall_app.
    - rewrite length_app, length_replicate, Hplen. lia. }
  eexists. split_and!.
  - unfold budget. cbn [collect_response]. by rewrite (ltac:(by unfold cbind; rewrite Hmsg) :
      forall (f : Message -> C (list Message)), cbind (read_message um) f c1 = Val (Err (from_io e), c2)).
  - unfold is_healthy in *. cbn [c2 desynchronized]. congruence.
  - done.
  - unfold read_message. cbn [c2 stream reads read_buf]. by rewrite Hnext.
Qed.

(** A row whose four-byte value 1, 2, 3, 4 arrives only up to the 2 is read as 1, 2,
    0, 0. *)
