(* ===== verification/SqlTypes.v ===== *)
(** * SQL types ([hyperdb-api-core/src/types/oid.rs] and [types/sql_type.rs])

    The object identifiers of the server's types, their modifiers, and [SqlType].
    A type with its modifier is what the server sends in a row description:
    the theorem says that the reader of a modifier is total on every [i32] and
    inverse to the constructors. *)

From stdpp Require Import strings.
From S2P Require Import Prelude Text.

(** ** [oid.rs] *)

Module oids.
Definition BOOL : Z := 16.
Definition BIG_INT : Z := 20.
Definition SMALL_INT : Z := 21.
Definition INT : Z := 23.
Definition NUMERIC : Z := 1700.
Definition FLOAT : Z := 700.
Definition DOUBLE : Z := 701.
Definition OID : Z := 26.
Definition BYTE_A : Z := 17.
Definition TEXT : Z := 25.
Definition VARCHAR : Z := 1043.
Definition CHAR : Z := 1042.
Definition CHAR1 : Z := 18.
Definition JSON : Z := 114.
Definition DATE : Z := 1082.
Definition INTERVAL : Z := 1186.
Definition TIME : Z := 1083.
Definition TIMESTAMP : Z := 1114.
Definition TIMESTAMP_TZ : Z := 1184.
Definition GEOGRAPHY : Z := 5003.
End oids.

(** [Type], its name being a keyword here. *)
Record PgType : Type := mk_type { oid : Z; modifier : option Z }.

Definition type_new (oid : Z) : PgType := mk_type oid None.
Definition with_modifier (oid modifier : Z) : PgType := mk_type oid (Some modifier).

Definition one_of_oids (o : Z) (l : list Z) : bool := bool_decide (o ∈ l).

Definition is_variable_length (t : PgType) : bool :=
  one_of_oids (oid t) [oids.TEXT; oids.VARCHAR; oids.CHAR; oids.BYTE_A; oids.JSON; oids.GEOGRAPHY].

Definition fixed_size (t : PgType) : option nat :=
  if oid t =? oids.BOOL then Some 1%nat
  else if oid t =? oids.SMALL_INT then Some 2%nat
  else if one_of_oids (oid t) [oids.INT; oids.FLOAT; oids.DATE; oids.OID] then Some 4%nat
  else if one_of_oids (oid t) [oids.BIG_INT; oids.DOUBLE; oids.TIME; oids.TIMESTAMP; oids.TIMESTAMP_TZ]
  then Some 8%nat
  else if one_of_oids (oid t) [oids.NUMERIC; oids.INTERVAL] then Some 16%nat
  else None.

(** [Numeric::MAX_PRECISION] and [SMALL_NUMERIC_MAX_PRECISION]. *)
Definition MAX_PRECISION : Z := 38.
Definition SMALL_NUMERIC_MAX_PRECISION : Z := 18.

Section oid.
Context (overflow_checks : bool).

Definition varchar_type (max_length : Z) : outcome PgType :=
  let! m := arith_i overflow_checks 32 (max_length + 4) in Val (with_modifier oids.VARCHAR m).

Definition char_type (length : Z) : outcome PgType :=
  let! m := arith_i overflow_checks 32 (length + 4) in Val (with_modifier oids.CHAR m).

Definition numeric_with_precision (precision scale : Z) : outcome PgType :=
  if negb ((1 <=? precision) && (precision <=? MAX_PRECISION)) then Panic
  else if negb (0 <=? scale) then Panic
  else if negb (scale <=? precision) then Panic
  else
    let! m := arith_i overflow_checks 32 (Z.lor (Z.shiftl precision 16) scale + 4) in
    Val (with_modifier oids.NUMERIC m).
End oid.

(** ** [SqlType] *)

Inductive SqlType : Type :=
| Bool
| BigInt
| SmallInt
| Int
| Numeric (precision scale : Z)
| Double
| Float
| Oid
| ByteA
| Text
| Varchar (max_length : option Z)
| Char (length : Z)
| Json
| Date
| Interval
| Time
| Timestamp
| TimestampTz
| Geography
| Unsupported.

#[export] Instance SqlType_eq_dec : EqDecision SqlType.
Proof. solve_decision. Defined.

(** [SqlType::numeric] asserts. *)
Definition numeric (precision scale : Z) : outcome SqlType :=
  if negb ((1 <=? precision) && (precision <=? MAX_PRECISION)) then Panic
  else if negb (scale <=? precision) then Panic
  else Val (Numeric precision scale).

Definition try_numeric (precision scale : Z) : option SqlType :=
  if (1 <=? precision) && (precision <=? MAX_PRECISION) && (scale <=? precision)
  then Some (Numeric precision scale) else None.

Definition internal_oid (t : SqlType) : Z :=
  match t with
  | Bool => oids.BOOL
  | BigInt => oids.BIG_INT
  | SmallInt => oids.SMALL_INT
  | Int => oids.INT
  | Numeric _ _ => oids.NUMERIC
  | Double => oids.DOUBLE
  | Float => oids.FLOAT
  | Oid => oids.OID
  | ByteA => oids.BYTE_A
  | Text => oids.TEXT
  | Varchar _ => oids.VARCHAR
  | Char length => if length =? 1 then oids.CHAR1 else oids.CHAR
  | Json => oids.JSON
  | Date => oids.DATE
  | Interval => oids.INTERVAL
  | Time => oids.TIME
  | Timestamp => oids.TIMESTAMP
  | TimestampTz => oids.TIMESTAMP_TZ
  | Geography => oids.GEOGRAPHY
  | Unsupported => 0
  end.

Definition precision (t : SqlType) : option Z :=
  match t with
  | Numeric p _ => Some p
  | _ => None
  end.

Definition scale (t : SqlType) : option Z :=
  match t with
  | Numeric _ s => Some s
  | _ => None
  end.

Definition max_length (t : SqlType) : option Z :=
  match t with
  | Varchar n => n
  | Char n => Some n
  | _ => None
  end.

Definition from_oid (oid : Z) : SqlType :=
  if oid =? oids.BOOL then Bool
  else if oid =? oids.BIG_INT then BigInt
  else if oid =? oids.SMALL_INT then SmallInt
  else if oid =? oids.INT then Int
  else if oid =? oids.NUMERIC then Numeric 0 0
  else if oid =? oids.DOUBLE then Double
  else if oid =? oids.FLOAT then Float
  else if oid =? oids.OID then Oid
  else if oid =? oids.BYTE_A then ByteA
  else if oid =? oids.TEXT then Text
  else if oid =? oids.VARCHAR then Varchar None
  else if (oid =? oids.CHAR) || (oid =? oids.CHAR1) then Char 1
  else if oid =? oids.JSON then Json
  else if oid =? oids.DATE then Date
  else if oid =? oids.INTERVAL then Interval
  else if oid =? oids.TIME then Time
  else if oid =? oids.TIMESTAMP then Timestamp
  else if oid =? oids.TIMESTAMP_TZ then TimestampTz
  else if oid =? oids.GEOGRAPHY then Geography
  else Unsupported.

(** [u32::try_from(z).expect(..)]. *)
Definition u32_expect (z : Z) : outcome Z := if in_ub 32 z then Val z else Panic.

(** [modifier - 4] does not overflow where it is computed. *)
Definition from_oid_and_modifier (oid modifier : Z) : outcome SqlType :=
  if oid =? oids.NUMERIC then
    if modifier <? 4 then Val (Numeric 0 0)
    else
      let! mod_val := u32_expect (modifier - 4) in
      let precision := Z.shiftr mod_val 16 in
      let scale := Z.land mod_val 0xFFFF in
      if (MAX_PRECISION <? precision) || (precision <? scale) then Val (Numeric 0 0)
      else Val (Numeric precision scale)
  else if oid =? oids.VARCHAR then
    if modifier <? 4 then Val (Varchar None)
    else let! max_length := u32_expect (modifier - 4) in Val (Varchar (Some max_length))
  else if oid =? oids.CHAR then
    if modifier <? 4 then Val (Char 1)
    else let! length := u32_expect (modifier - 4) in Val (Char length)
  else Val (from_oid oid).

Definition is_numeric (t : SqlType) : bool :=
  match t with
  | SmallInt | Int | BigInt | Float | Double | Numeric _ _ => true
  | _ => false
  end.

Definition is_string (t : SqlType) : bool :=
  match t with
  | Text | Varchar _ | Char _ | Json => true
  | _ => false
  end.

Definition is_temporal (t : SqlType) : bool :=
  match t with
  | Date | Time | Timestamp | TimestampTz | Interval => true
  | _ => false
  end.

(** [Display]. *)
Definition display (t : SqlType) : list Z :=
  match t with
  | Bool => str "BOOLEAN"
  | BigInt => str "BIGINT"
  | SmallInt => str "SMALLINT"
  | Int => str "INTEGER"
  | Numeric precision scale =>
      str "NUMERIC(" ++ fmt_u precision ++ str ", " ++ fmt_u scale ++ str ")"
  | Double => str "DOUBLE PRECISION"
  | Float => str "REAL"
  | Oid => str "OID"
  | ByteA => str "BYTEA"
  | Text => str "TEXT"
  | Varchar (Some n) => str "VARCHAR(" ++ fmt_u n ++ str ")"
  | Varchar None => str "VARCHAR"
  | Char length => str "CHAR(" ++ fmt_u length ++ str ")"
  | Json => str "JSON"
  | Date => str "DATE"
  | Interval => str "INTERVAL"
  | Time => str "TIME"
  | Timestamp => str "TIMESTAMP"
  | TimestampTz => str "TIMESTAMPTZ"
  | Geography => str "GEOGRAPHY"
  | Unsupported => str "UNSUPPORTED"
  end.

(** The types a program can make: the parameters are [u32]s. *)
Definition type_wf (t : SqlType) : Prop :=
  match t with
  | Numeric p s => in_u 32 p /\ in_u 32 s
  | Varchar (Some n) => in_u 32 n
  | Char n => in_u 32 n
  | _ => True
  end.

(** ** Properties *)

Lemma modifier_split p s : 0 <= p -> 0 <= s < 2 ^ 16 ->
  Z.shiftr (Z.lor (Z.shiftl p 16) s) 16 = p /\ Z.land (Z.lor (Z.shiftl p 16) s) 0xFFFF = s /\
  Z.lor (Z.shiftl p 16) s = p * 2 ^ 16 + s.
Proof.
  intros Hp Hs. assert (Hor : Z.lor (Z.shiftl p 16) s = p * 2 ^ 16 + s).
  { rewrite <- Z.shiftl_mul_pow2 by lia. symmetry. apply Z.add_nocarry_lor.
    apply Z.bits_inj'. intros n Hn. rewrite Z.land_spec, Z.bits_0, Z.shiftl_spec by lia.
    destruct (Z.ltb_spec n 16); [by rewrite Z.testbit_neg_r by lia |].
    destruct (Z.eq_dec s 0) as [-> | Hs0]; [by rewrite Z.bits_0, andb_false_r |].
    rewrite (Z.bits_above_log2 s n), andb_false_r; [done | lia |].
    apply (Z.lt_le_trans _ 16); [apply Z.log2_lt_pow2; lia | lia]. }
  split_and!; [| | done]; rewrite Hor.
  - rewrite Z.shiftr_div_pow2 by lia. change (2 ^ 16) with 65536 in *.
    rewrite Z.add_comm, Z.div_add by lia. rewrite Z.div_small; lia.
  - change 0xFFFF with (Z.ones 16). rewrite Z.land_ones by lia. change (2 ^ 16) with 65536 in *.
    rewrite Z.add_comm, Z.mod_add by lia. apply Z.mod_small. lia.
Qed.

Lemma u32_expect_val z : in_u 32 z -> u32_expect z = Val z.
Proof. intros H. unfold u32_expect. by rewrite (proj2 (in_ub_spec 32 z) H). Qed.

Lemma modifier_range m : in_i 32 m -> 4 <= m -> in_u 32 (m - 4).
Proof. unfold in_i, in_u. lia. Qed.

(** A type modifier is read without a panic whatever [i32] the server sends,
    and never gives a NUMERIC of more than 38 digits or more decimals than digits;
    and it is read back exactly: for every precision and scale that
    [Type::numeric_with_precision] accepts, the modifier it makes is the one that
    [from_oid_and_modifier] takes apart; so are the lengths of [Type::varchar] and
    [Type::char] unless adding the header overflows an [i32]. Without modifiers, a
    type's oid gives the type back. *)
Theorem modifier_exact (overflow_checks : bool) o m :
  in_i 32 m ->
  (exists t, from_oid_and_modifier o m = Val t /\
     forall p s, t = Numeric p s -> 0 <= p <= MAX_PRECISION /\ 0 <= s <= p) /\
  (forall p s, numeric_with_precision overflow_checks p s =
     (if bool_decide (1 <= p <= MAX_PRECISION /\ 0 <= s <= p)
      then Val (with_modifier oids.NUMERIC (p * 2 ^ 16 + s + 4)) else Panic) /\
     (1 <= p <= MAX_PRECISION -> 0 <= s <= p ->
      from_oid_and_modifier oids.NUMERIC (p * 2 ^ 16 + s + 4) = Val (Numeric p s))) /\
  (forall n, 0 <= n -> in_i 32 (n + 4) ->
     varchar_type overflow_checks n = Val (with_modifier oids.VARCHAR (n + 4)) /\
     char_type overflow_checks n = Val (with_modifier oids.CHAR (n + 4)) /\
     from_oid_and_modifier oids.VARCHAR (n + 4) = Val (Varchar (Some n)) /\
     from_oid_and_modifier oids.CHAR (n + 4) = Val (Char n)) /\
  (forall t, from_oid (internal_oid t) =
     match t with
     | Numeric _ _ => Numeric 0 0
     | Varchar _ => Varchar None
     | Char _ => Char 1
     | t => t
     end).
Proof.
  intros Hm. split_and!.
  - unfold from_oid_and_modifier.
    destruct (o =? oids.NUMERIC) eqn:Hn; [| destruct (o =? oids.VARCHAR); [| destruct (o =? oids.CHAR)]].
    + destruct (Z.ltb_spec m 4) as [| Hge].
      { eexists. split; [done |]. intros p s [= <- <-]. unfold MAX_PRECISION. lia. }
      rewrite u32_expect_val by (by apply modifier_range). cbn [outcome_bind].
      destruct (_ || _) eqn:Hb; eexists; (split; [done |]); intros p s [= <- <-].
      * unfold MAX_PRECISION. lia.
      * apply orb_false_iff in Hb as [Hp%Z.ltb_ge Hs%Z.ltb_ge].
        pose proof (proj2 (Z.shiftr_nonneg (m - 4) 16) ltac:(lia)).
        pose proof (proj2 (Z.land_nonneg (m - 4) 0xFFFF) ltac:(lia)). lia.
    + destruct (Z.ltb_spec m 4); [by eexists |].
      rewrite u32_expect_val by (by apply modifier_range). by eexists.
    + destruct (Z.ltb_spec m 4); [by eexists |].
      rewrite u32_expect_val by (by apply modifier_range). by eexists.
    + eexists. split; [done |]. unfold from_oid. by repeat case_match.
  - intros p s. assert (Hsplit : 1 <= p <= MAX_PRECISION -> 0 <= s <= p ->
      Z.shiftr (p * 2 ^ 16 + s) 16 = p /\ Z.land (p * 2 ^ 16 + s) 0xFFFF = s /\
      Z.lor (Z.shiftl p 16) s = p * 2 ^ 16 + s /\ in_i 32 (p * 2 ^ 16 + s + 4)).
    { unfold MAX_PRECISION. intros Hp Hs. destruct (modifier_split p s) as (H1 & H2 & H3); [lia | lia |].
      rewrite <- H3 at 1 2. split_and!; [done | done | done |]. unfold in_i. lia. }
    split.
    + unfold numeric_with_precision. case_bool_decide as Hd.
      * destruct Hd as [Hp Hs]. destruct (Hsplit Hp Hs) as (_ & _ & -> & Hi).
        unfold MAX_PRECISION in *. conds. cbn. by rewrite arith_i_val.
      * unfold MAX_PRECISION in *. conds; cbn; done || (exfalso; apply Hd; lia).
    + intros Hp Hs. destruct (Hsplit Hp Hs) as (H1 & H2 & _ & Hi).
      unfold from_oid_and_modifier. cbn [Z.eqb Pos.eqb oids.NUMERIC].
      change (oids.NUMERIC =? oids.NUMERIC) with true. cbv iota.
      destruct (Z.ltb_spec (p * 2 ^ 16 + s + 4) 4); [lia |].
      replace (p * 2 ^ 16 + s + 4 - 4) with (p * 2 ^ 16 + s) by lia.
      rewrite u32_expect_val by (unfold in_i, in_u in *; lia). cbn [outcome_bind]. rewrite H1, H2.
      unfold MAX_PRECISION in *. conds. done.
  - intros n Hn Hi. unfold varchar_type, char_type. rewrite arith_i_val by done.
    unfold from_oid_and_modifier. cbn -[Z.ltb Z.sub].
    replace (n + 4 - 4) with n by lia. destruct (Z.ltb_spec (n + 4) 4); [lia |].
    rewrite u32_expect_val by (unfold in_i, in_u in *; lia). done.
  - intros []; try done. cbn. by destruct (_ =? 1).
Qed.

