(* ===== verification/Decimal.v ===== *)
(** * Decimals ([Numeric] of [hyperdb-api-core/src/types/special.rs], and the
      rescaling of [hyperdb-api/src/inserter.rs])

    A NUMERIC is an integer of 128 bits and a scale: the value is the integer over a
    power of ten. The file has its text, its two binary forms and its conversion to
    the scale of a column; the conversions [to_f64] and [try_from_f64] are
    floating point and left out. *)

From stdpp Require Import strings.
From S2P Require Import Prelude Text HyperTypes SqlTypes.

(** ** [Numeric] *)

Module Numeric.

Record t : Type := mk { value : Z; scale : Z }.

Definition new (value scale : Z) : t := mk value scale.
Definition from_i128 (value : Z) : t := mk value 0.
Definition from_i64 (value : Z) : t := mk value 0.
Definition from_i32 (value : Z) : t := mk value 0.

(** [i128] and [u8]. *)
Definition wf (n : t) : Prop := in_i 128 (value n) /\ in_u 8 (scale n).

(** The digits that [i128::MAX.ilog10() + 1] counts. *)
Definition MAX_MAGNITUDE_DIGITS : nat := 39.

Definition encode (n : t) : list Z := to_le 16 (value n).

Definition outside_i64 (v : Z) : list Z :=
  str "Numeric::encode_int64 called with value " ++ fmt_i v
  ++ str " outside i64 range; precision must be " ++ [0x2264] ++ str " "
  ++ fmt_u SMALL_NUMERIC_MAX_PRECISION
  ++ str " for the 64-bit wire form (use Numeric::encode for the 16-byte form instead)".

Definition encode_int64 (n : t) : result (list Z) (list Z) :=
  if in_ib 64 (value n) then Ok (to_le 8 (value n)) else Err (outside_i64 (value n)).

Definition decode (buf : list Z) (scale : Z) : t := mk (i_of_le buf) scale.
Definition decode_int64 (buf : list Z) (scale : Z) : t := mk (i_of_le buf) scale.
Definition to_packed (n : t) : list Z := encode n.

Definition invalid_size (other : nat) : list Z :=
  str "invalid buffer size for Numeric (expected 8 or 16 bytes, got " ++ fmt_u (Z.of_nat other) ++ str ")".

Definition from_binary_with_scale (buf : list Z) (scale : Z) : result t (list Z) :=
  match length buf with
  | 8%nat => Ok (decode_int64 buf scale)
  | 16%nat => Ok (decode buf scale)
  | other => Err (invalid_size other)
  end.

(** The loop that fills the buffer backwards from [start]; [acc] is the buffer
    from there on. Running out of buffer is the panic. *)
Fixpoint digits_loop (start : nat) (magnitude : Z) (acc : list Z) : outcome (list Z) :=
  match start with
  | O => Panic
  | S start =>
      let acc := (48 + magnitude `mod` 10) :: acc in
      let magnitude := magnitude / 10 in
      if magnitude =? 0 then Val acc else digits_loop start magnitude acc
  end.

(** [usize::checked_sub]. *)
Definition checked_sub (a b : nat) : option nat := if (b <=? a)%nat then Some (a - b)%nat else None.

(** [Display]. *)
Definition display (n : t) : outcome (list Z) :=
  if scale n =? 0 then Val (fmt_i (value n))
  else
    let sign := if value n <? 0 then [45] else [] in
    let! digits := digits_loop MAX_MAGNITUDE_DIGITS (Z.abs (value n)) [] in
    let scale := Z.to_nat (scale n) in
    Val (sign ++
      match checked_sub (length digits) scale with
      | Some point =>
          if (0 <? point)%nat then take point digits ++ [46] ++ drop point digits
          else str "0." ++ pad0 scale digits
      | None => str "0." ++ pad0 scale digits
      end).

(** [ToHyperBinary]. *)
Definition codec : ToHyperBinary t := {|
  to_hyper_binary := fun v buf =>
    let buf := write_not_null_indicator buf in
    (buf ++ encode v, Ok tt);
  to_hyper_binary_not_null := fun v buf => (buf ++ encode v, Ok tt);
  hyper_binary_size := fun _ => (NULL_INDICATOR_SIZE + 16)%nat;
  hyper_binary_size_not_null := fun _ => Val 16%nat;
|}.

End Numeric.

(** ** Rescaling *)

(** [i128::checked_pow] and [i128::checked_mul]. *)
Definition checked_pow (b e : Z) : option Z := if in_ib 128 (b ^ e) then Some (b ^ e) else None.
Definition checked_mul (a b : Z) : option Z := if in_ib 128 (a * b) then Some (a * b) else None.

Definition scale_overflow : list Z := str "the scale difference overflows 128-bit storage".
Definition value_overflow : list Z := str "the value overflows 128-bit storage at the column's scale".
Definition too_many_decimals : list Z := str "the value has more decimal digits than the column keeps".

(** [Option::ok_or]. *)
Definition ok_or {A E} (o : option A) (e : E) : result A E :=
  match o with
  | Some a => Ok a
  | None => Err e
  end.

Definition rescale_numeric (value : Numeric.t) (target_scale : Z) : result Z (list Z) :=
  let value_scale := Numeric.scale value in
  let unscaled := Numeric.value value in
  match value_scale ?= target_scale with
  | Eq => Ok unscaled
  | Lt =>
      let? factor := ok_or (checked_pow 10 (target_scale - value_scale)) scale_overflow in
      ok_or (checked_mul unscaled factor) value_overflow
  | Gt =>
      let? factor := ok_or (checked_pow 10 (value_scale - target_scale)) too_many_decimals in
      if Z.rem unscaled factor =? 0 then Ok (Z.quot unscaled factor) else Err too_many_decimals
  end.

(** ** A reference reader of decimal text *)

(** [-?digits(.digits)?] as an integer and the number of decimals. *)
Definition read_unsigned (s : list Z) : option (Z * Z) :=
  match memchr 46 s with
  | None => v ← (match s with [] => None | _ => digits_val 0 s end); Some (v, 0)
  | Some k =>
      let decimals := drop (S k) s in
      match k, decimals with
      | O, _ | _, [] => None
      | _, _ => v ← digits_val 0 (take k s ++ decimals); Some (v, Z.of_nat (length decimals))
      end
  end.

Definition read_decimal (s : list Z) : option (Z * Z) :=
  match s with
  | 45 :: s => r ← read_unsigned s; Some (- r.1, r.2)
  | _ => read_unsigned s
  end.

(** ** Lemmas *)

Lemma digits_loop_dec start m acc :
  0 <= m < 10 ^ Z.of_nat start -> (0 < start)%nat ->
  forall fuel, 0 <= m < 2 ^ Z.of_nat fuel -> fuel <> O ->
  Numeric.digits_loop start m acc = Val (dec_fuel fuel m acc).
Proof.
  revert m acc. induction start as [| start IH]; intros m acc Hm Hs fuel Hf Hne; [lia |].
  destruct fuel as [| fuel]; [done |]. cbn [Numeric.digits_loop dec_fuel]. cbv zeta.
  rewrite Nat2Z.inj_succ, Z.pow_succ_r in Hm by lia. rewrite Nat2Z.inj_succ, Z.pow_succ_r in Hf by lia.
  destruct (Z.eqb_spec (m / 10) 0) as [| H0]; [done |]. apply IH.
  - split; [Z.div_mod_to_equations; lia | apply Z.div_lt_upper_bound; lia].
  - destruct start; [| lia]. simpl in Hm. Z.div_mod_to_equations; lia.
  - split; [Z.div_mod_to_equations; lia | apply Z.div_lt_upper_bound; lia].
  - intros ->. simpl in Hf. Z.div_mod_to_equations; lia.
Qed.

Lemma magnitude_bound v : in_i 128 v -> 0 <= Z.abs v < 10 ^ Z.of_nat Numeric.MAX_MAGNITUDE_DIGITS.
Proof. unfold in_i. change (10 ^ _) with (10 ^ 39). lia. Qed.

Lemma digits_loop_fmt v :
  in_i 128 v -> Numeric.digits_loop Numeric.MAX_MAGNITUDE_DIGITS (Z.abs v) [] = Val (fmt_u (Z.abs v)).
Proof.
  intros Hv. apply digits_loop_dec; [by apply magnitude_bound | unfold Numeric.MAX_MAGNITUDE_DIGITS; lia | | done].
  apply log2_fuel. lia.
Qed.

Definition digit_chars (s : list Z) : Prop := Forall (fun c => 48 <= c <= 57) s.

Lemma digit_chars_memchr s : digit_chars s -> memchr 46 s = None.
Proof. intros H. apply memchr_none. intros Hin. pose proof (proj1 (list.Forall_forall _ _) H _ Hin). simpl in *. lia. Qed.

Lemma read_decimal_unsigned s :
  digit_chars (take 1 s) -> read_decimal s = read_unsigned s /\ read_decimal (45 :: s) = (fun r => (- r.1, r.2)) <$> read_unsigned s.
Proof.
  intros H. split; [| unfold read_decimal; by destruct (read_unsigned s)].
  destruct s as [| c s]; [done |]. apply Forall_cons_1 in H as [Hc _].
  unfold read_decimal. destruct c as [| c | c]; try done. by do 7 (destruct c as [c | c |]; try done; try lia).
Qed.

Lemma read_whole s v : digit_chars s -> s <> [] -> digits_val 0 s = Some v -> read_unsigned s = Some (v, 0).
Proof. intros Hs Hne Hv. unfold read_unsigned. rewrite digit_chars_memchr by done. destruct s; [done |]. by rewrite Hv. Qed.

Lemma read_point a b v :
  digit_chars a -> a <> [] -> b <> [] -> digits_val 0 (a ++ b) = Some v ->
  read_unsigned (a ++ 46 :: b) = Some (v, Z.of_nat (length b)).
Proof.
  intros Ha Hna Hnb Hv. unfold read_unsigned.
  rewrite memchr_app by (by apply memchr_none, digit_chars_memchr).
  rewrite drop_app_ge by lia. replace (S (length a) - length a)%nat with 1%nat by lia. rewrite skipn_cons.
  rewrite take_app_length. destruct a as [| c a]; [done |]. destruct b as [| d b]; [done |].
  rewrite drop_0. cbn [length]. by rewrite Hv.
Qed.

(** The text without its sign, [k] decimals. *)
Definition unsigned_text (digits : list Z) (k : nat) : list Z :=
  match Numeric.checked_sub (length digits) k with
  | Some point =>
      if (0 <? point)%nat then take point digits ++ [46] ++ drop point digits else str "0." ++ pad0 k digits
  | None => str "0." ++ pad0 k digits
  end.

Lemma unsigned_text_shape digits k :
  digit_chars digits -> (0 < k)%nat ->
  exists a b, unsigned_text digits k = a ++ 46 :: b /\ digit_chars (a ++ b) /\ a <> [] /\ length b = k /\
    (length (a ++ b) = Nat.max (length digits) (S k)) /\
    forall v, digits_val 0 digits = Some v -> digits_val 0 (a ++ b) = Some v.
Proof.
  intros Hd Hk. unfold unsigned_text, Numeric.checked_sub.
  assert (Hsmall : (length digits <= k)%nat ->
    exists a b, str "0." ++ pad0 k digits = a ++ 46 :: b /\ digit_chars (a ++ b) /\ a <> [] /\ length b = k /\
    (length (a ++ b) = Nat.max (length digits) (S k)) /\
    forall v, digits_val 0 digits = Some v -> digits_val 0 (a ++ b) = Some v).
  { intros Hl. exists [48], (pad0 k digits). split_and!.
    - done.
    - unfold digit_chars, pad0. cbn [app]. apply Forall_cons_2; [lia |]. apply Forall_app_2; [| done].
      apply Forall_replicate. lia.
    - done.
    - rewrite length_pad0. lia.
    - cbn [app length]. rewrite length_pad0. lia.
    - intros v Hv. change ([48] ++ pad0 k digits) with (replicate 1 48 ++ pad0 k digits).
      unfold pad0. by rewrite !digits_val_pad0. }
  destruct (Nat.leb_spec k (length digits)) as [Hle |]; [| apply Hsmall; lia].
  destruct (Nat.ltb_spec 0 (length digits - k)) as [Hlt |]; [| apply Hsmall; lia].
  exists (take (length digits - k) digits), (drop (length digits - k) digits).
  rewrite take_drop. split_and!; try done.
  - intros Hz. apply (f_equal length) in Hz. rewrite length_take in Hz. simpl in Hz. lia.
  - rewrite length_drop. lia.
  - lia.
Qed.

Definition numeric_text (n : Numeric.t) : list Z :=
  if Numeric.scale n =? 0 then fmt_i (Numeric.value n)
  else (if Numeric.value n <? 0 then [45] else [])
       ++ unsigned_text (fmt_u (Z.abs (Numeric.value n))) (Z.to_nat (Numeric.scale n)).

Lemma display_eq n : Numeric.wf n -> Numeric.display n = Val (numeric_text n).
Proof.
  intros [Hv Hs]. unfold Numeric.display, numeric_text. destruct (Z.eqb_spec (Numeric.scale n) 0); [done |].
  by rewrite digits_loop_fmt.
Qed.

(** Powers of ten in 128 bits. *)
Lemma checked_pow_10 e :
  0 <= e -> checked_pow 10 e = (if e <=? 38 then Some (10 ^ e) else None).
Proof.
  intros He. unfold checked_pow. destruct (Z.leb_spec e 38) as [Hle | Hgt].
  - assert (0 < 10 ^ e) by (apply Z.pow_pos_nonneg; lia).
    assert (10 ^ e <= 10 ^ 38) by (apply Z.pow_le_mono_r; lia).
    rewrite (proj2 (in_ib_spec 128 _)); [done |]. unfold in_i. lia.
  - assert (10 ^ 39 <= 10 ^ e) by (apply Z.pow_le_mono_r; lia).
    destruct (in_ib 128 (10 ^ e)) eqn:E; [| done]. apply in_ib_spec in E. unfold in_i in E. lia.
Qed.

Lemma pow10_split a b : 0 <= a -> 0 <= b -> 10 ^ (a + b) = 10 ^ a * 10 ^ b.
Proof. intros. apply Z.pow_add_r; lia. Qed.

(** [u] at scale [t] is [v] at scale [s], when [s] is the smaller. *)
Lemma same_value_up v u s t : 0 <= s <= t -> (u * 10 ^ s = v * 10 ^ t <-> u = v * 10 ^ (t - s)).
Proof.
  intros H. assert (0 < 10 ^ s) by (apply Z.pow_pos_nonneg; lia).
  replace t with (s + (t - s)) at 1 by lia. rewrite pow10_split by lia. nia.
Qed.

Lemma rescale_zero_exact v f : 0 < f -> ((Z.rem v f =? 0) = true <-> exists u, v = u * f).
Proof.
  intros Hf. rewrite Z.eqb_eq, Z.rem_divide by lia. reflexivity.
Qed.

Lemma length_fmt_abs v : in_i 128 v -> (length (fmt_u (Z.abs v)) <= 39)%nat.
Proof. intros Hv. apply fmt_u_length; [by apply magnitude_bound | lia]. Qed.

(** The rescaled integer is the same number; far scales leave only zero. *)
Lemma rescale_iff n target u :
  Numeric.wf n -> 0 <= target ->
  (rescale_numeric n target = Ok u <->
     Z.abs (Numeric.scale n - target) <= 38 /\ in_i 128 u /\
     u * 10 ^ Numeric.scale n = Numeric.value n * 10 ^ target).
Proof.
  intros [Hv Hs] Ht. destruct n as [v s]. cbn [Numeric.value Numeric.scale] in *. unfold in_u in Hs.
  unfold rescale_numeric. cbn [Numeric.value Numeric.scale].
  destruct (Z.compare_spec s target) as [-> | Hlt | Hgt].
  + split; [intros [= ->]; split_and!; [lia | done | done] |]. intros (_ & _ & Heq). f_equal.
    assert (0 < 10 ^ target) by (apply Z.pow_pos_nonneg; lia). nia.
  + rewrite checked_pow_10, same_value_up by lia.
    destruct (Z.leb_spec (target - s) 38); cbn [ok_or result_bind]; [| split; [done | lia]].
    unfold checked_mul. destruct (in_ib 128 (v * 10 ^ (target - s))) eqn:E; cbn [ok_or].
    * apply in_ib_spec in E. split; [intros [= <-]; split_and!; [lia | done | done] |].
      intros (_ & _ & ->). done.
    * split; [done |]. intros (_ & Hu & ->). by apply in_ib_spec in Hu; rewrite Hu in E.
  + assert (Hswap : u * 10 ^ s = v * 10 ^ target <-> v = u * 10 ^ (s - target)).
    { rewrite <- (same_value_up u v target s) by lia. split; congruence. }
    rewrite checked_pow_10, Hswap by lia.
    destruct (Z.leb_spec (s - target) 38); cbn [ok_or result_bind]; [| split; [done | lia]].
    assert (Hf : 0 < 10 ^ (s - target)) by (apply Z.pow_pos_nonneg; lia).
    destruct (Z.rem v (10 ^ (s - target)) =? 0) eqn:E.
    * apply rescale_zero_exact in E as [w ->]; [| done]. rewrite Z.quot_mul by lia.
      split; [intros [= <-]; split_and!; [lia | unfold in_i in *; nia | done] |].
      intros (_ & _ & Heq). f_equal. nia.
    * split; [done |]. intros (_ & _ & Heq).
      assert (Ht' : (Z.rem v (10 ^ (s - target)) =? 0) = true) by (apply rescale_zero_exact; eauto). congruence.
Qed.

Lemma rescale_far n target u :
  Numeric.wf n -> 0 <= target ->
  38 < Z.abs (Numeric.scale n - target) -> Numeric.value n <> 0 -> in_i 128 u ->
  u * 10 ^ Numeric.scale n <> Numeric.value n * 10 ^ target.
Proof.
  intros [Hv Hs] Ht. destruct n as [v s]. cbn [Numeric.value Numeric.scale] in *. unfold in_u in Hs.
  intros Hfar Hne Hu Heq.
  assert (Hbig : forall a b e, 38 < e -> in_i 128 a -> a = b * 10 ^ e -> a = 0).
  { intros a b e He Ha ->. assert (10 ^ 39 <= 10 ^ e) by (apply Z.pow_le_mono_r; lia). unfold in_i in Ha.
    destruct (Z.eq_dec b 0); nia. }
  destruct (Z.leb_spec s target).
  + apply (same_value_up v u s target) in Heq; [| lia]. pose proof (Hbig u v (target - s) ltac:(lia) Hu Heq) as H0.
    assert (0 < 10 ^ (target - s)) by (apply Z.pow_pos_nonneg; lia). nia.
  + symmetry in Heq. apply (same_value_up u v target s) in Heq; [| lia].
    by pose proof (Hbig v u (s - target) ltac:(lia) Hv Heq).
Qed.

(** ** Properties *)

(** A numeric's text is total and exact: for every 128-bit integer and every
    8-bit scale, [Display] stays in its buffer of 39 digits, whatever the scale
    prints exactly that many decimals, and what it prints reads back as the same
    integer and scale; so no two numerics have the same text, and the sign of a
    value between -1 and 0 is kept. *)
Theorem display_reads_back n :
  Numeric.wf n ->
  exists text, Numeric.display n = Val text /\
    read_decimal text = Some (Numeric.value n, Numeric.scale n) /\
    (length text <= Nat.max 39 (S (Z.to_nat (Numeric.scale n))) + 2)%nat.
Proof.
  intros Hwf. rewrite display_eq by done. eexists. split; [reflexivity |]. unfold numeric_text.
  destruct Hwf as [Hv Hs]. destruct n as [v s]. cbn [Numeric.value Numeric.scale] in *.
  pose proof (length_fmt_abs v Hv) as Hlen. unfold in_u in Hs.
  destruct (Z.eqb_spec s 0) as [-> | Hs0].
  - unfold fmt_i. destruct (Z.ltb_spec v 0) as [Hneg | Hpos].
    + pose proof (fmt_u_digits (- v) ltac:(lia)) as Hd. replace (Z.abs v) with (- v) in Hlen by lia.
      rewrite (proj2 (read_decimal_unsigned (fmt_u (- v)) (Forall_take _ _ _ Hd))).
      rewrite (read_whole _ (- v)) by (try apply fmt_u_nonempty; try apply fmt_u_val; done || lia).
      split; [cbn; by rewrite Z.opp_involutive | cbn [length]; lia].
    + pose proof (fmt_u_digits v ltac:(lia)) as Hd. replace (Z.abs v) with v in Hlen by lia.
      rewrite (proj1 (read_decimal_unsigned (fmt_u v) (Forall_take _ _ _ Hd))).
      rewrite (read_whole _ v) by (try apply fmt_u_nonempty; try apply fmt_u_val; done || lia).
      split; [done | lia].
  - destruct (unsigned_text_shape (fmt_u (Z.abs v)) (Z.to_nat s)) as (a & b & -> & Hd & Hna & Hb & Hl & Hval);
      [apply fmt_u_digits; lia | lia |].
    specialize (Hval _ (fmt_u_val (Z.abs v) ltac:(lia))). pose proof (proj1 (proj1 (Forall_app _ _ _) Hd)) as Hda.
    assert (Hnb : b <> []) by (intros ->; simpl in Hb; lia).
    pose proof (read_point a b _ Hda Hna Hnb Hval) as Hr. rewrite Hb, Z2Nat.id in Hr by lia.
    assert (Hd1 : digit_chars (take 1 (a ++ 46 :: b))) by (destruct a; [done |]; by apply Forall_take with (n := 1%nat) in Hda).
    destruct (read_decimal_unsigned _ Hd1) as [Hu Hneg]. rewrite length_app in Hl.
    destruct (Z.ltb_spec v 0); cbn [app].
    + rewrite Hneg, Hr. split; [cbn; do 2 f_equal; lia |]. cbn [length]. rewrite length_app. cbn [length]. lia.
    + rewrite Hu, Hr. split; [do 2 f_equal; lia |]. rewrite length_app. cbn [length]. lia.
Qed.

(** Rescaling preserves the value exactly or is refused: [rescale_numeric]
    returns [u] if and only if [u] is a 128-bit integer that at the target scale is
    the same decimal number, and the scales are at most 38 apart; that last
    condition only ever refuses zero, every other number being too long or too fine
    by then. In particular the result is unique, and no digit is ever dropped or
    wrapped. *)
Theorem rescale_exact n target :
  Numeric.wf n -> 0 <= target ->
  (forall u, rescale_numeric n target = Ok u <->
     Z.abs (Numeric.scale n - target) <= 38 /\ in_i 128 u /\
     u * 10 ^ Numeric.scale n = Numeric.value n * 10 ^ target) /\
  (38 < Z.abs (Numeric.scale n - target) -> Numeric.value n <> 0 ->
   forall u, in_i 128 u -> u * 10 ^ Numeric.scale n <> Numeric.value n * 10 ^ target).
Proof.
  intros Hn Ht. split; [intros u; by apply rescale_iff |]. intros Hfar Hne u. by apply rescale_far.
Qed.

(** The binary forms of a numeric are inverse to their reader: the 16-byte form
    always, the 8-byte form whenever it is not refused, and it is refused exactly
    beyond 64 bits. The reader takes no other width, and what it reads in either
    width writes back the same bytes. The writer keeps the contract of
    [ToHyperBinary]. *)
Theorem numeric_wire :
  (forall n, Numeric.wf n ->
     Numeric.from_binary_with_scale (Numeric.encode n) (Numeric.scale n) = Ok n /\
     (in_i 64 (Numeric.value n) -> exists bs, Numeric.encode_int64 n = Ok bs /\
        Numeric.from_binary_with_scale bs (Numeric.scale n) = Ok n) /\
     (~ in_i 64 (Numeric.value n) -> Numeric.encode_int64 n = Err (Numeric.outside_i64 (Numeric.value n)))) /\
  (forall buf scale, Forall is_byte buf -> in_u 8 scale ->
     if bool_decide (length buf = 8%nat \/ length buf = 16%nat) then
       exists n, Numeric.from_binary_with_scale buf scale = Ok n /\ Numeric.wf n /\ Numeric.scale n = scale /\
         (if (length buf =? 8)%nat then Numeric.encode_int64 n = Ok buf else Numeric.encode n = buf)
     else Numeric.from_binary_with_scale buf scale = Err (Numeric.invalid_size (length buf))) /\
  lawful Numeric.codec (fun _ => True) (fun n => 0 :: to_le 16 (Numeric.value n))
    (fun n => Some (to_le 16 (Numeric.value n))).
Proof.
  split_and!.
  - intros [v s] [Hv Hs]. cbn [Numeric.value Numeric.scale] in *.
    unfold Numeric.from_binary_with_scale, Numeric.encode, Numeric.encode_int64, Numeric.decode, Numeric.decode_int64.
    cbn [Numeric.value]. rewrite length_to_le, i_of_le_to_le by (done || lia). split_and!; [done | |].
    + intros H64. rewrite (proj2 (in_ib_spec 64 v) H64). eexists. split; [done |].
      by rewrite length_to_le, i_of_le_to_le by (done || lia).
    + intros H64. destruct (in_ib 64 v) eqn:E; [| done]. by apply in_ib_spec in E.
  - intros buf s Hb Hs. unfold Numeric.from_binary_with_scale. case_bool_decide as Hl.
    + assert (Hne : buf <> []) by (intros ->; simpl in Hl; lia).
      pose proof (i_of_le_range buf Hne) as Hr. pose proof (to_le_i_of_le buf Hne Hb) as Hback.
      destruct Hl as [Hl | Hl]; rewrite Hl in *; eexists; (split; [reflexivity |]).
      * split_and!; [split; [unfold in_i in *; simpl in *; lia | done] | done |].
        cbn [Nat.eqb]. unfold Numeric.encode_int64, Numeric.decode_int64. cbn [Numeric.value].
        rewrite (proj2 (in_ib_spec 64 _)) by exact Hr. by rewrite Hback.
      * split_and!; [split; [exact Hr | done] | done | exact Hback].
    + do 17 (destruct buf as [| ? buf]; [by (done || (exfalso; apply Hl; simpl; lia)) |]). done.
  - destruct (le_lawful 16) as [H1 H2 H3 H4 H5].
    constructor; intros n; intros; cbn -[to_le Nat.add].
    + apply (H1 (Numeric.value n)). done.
    + apply (H2 (Numeric.value n)).
    + apply (H3 (Numeric.value n) buf). done.
    + apply (H4 (Numeric.value n)).
    + by simplify_eq.
Qed.

