(* ===== verification/Rows.v ===== *)
(** * Rows and their typed columns

    [hyperdb-api-core/src/client/row.rs] and the column metadata of
    [client/statement.rs]: [Row] with the ranges of its columns, [StreamRow] that
    scans for a column, [BatchRow] with precomputed offsets, and the trait
    [FromBinaryValue] as a record of operations; and of [hyperdb-api] the [Row] of
    [result.rs] over a [StreamRow] with its schema, the trait [RowValue], and
    [RowAccessor] of [row_accessor.rs]. The rows of Arrow batches are left to the
    arrow crates, and so are the conversions of integers and floats to [f64]. *)

From stdpp Require Import strings gmap.
From S2P Require Import Prelude Text SqlTypes HyperTypes Calendar Backend Decimal Connection.

(** ** Columns ([client/statement.rs]) *)

Inductive ColumnFormat : Type := TextFormat | BinaryFormat | HyperBinaryFormat.

Definition from_code (code : Z) : ColumnFormat :=
  if code =? 0 then TextFormat
  else if code =? 1 then BinaryFormat
  else if code =? 2 then HyperBinaryFormat
  else TextFormat.

Definition format_code (f : ColumnFormat) : Z :=
  match f with TextFormat => 0 | BinaryFormat => 1 | HyperBinaryFormat => 2 end.

Definition binary_format (f : ColumnFormat) : bool :=
  match f with TextFormat => false | _ => true end.

Record Column : Type := mk_column {
  column_name : list Z;
  column_type_oid : Z;
  column_type_modifier : Z;
  column_format : ColumnFormat;
}.

(** The columns of a [RowDescription]; a field that does not parse is dropped. *)
Definition column_of (f : Fields.Field) : Column :=
  mk_column (Fields.name f) (Fields.type_oid f) (Fields.type_modifier f) (from_code (Fields.format f)).

Fixpoint columns_loop (fuel : nat) (it : Fields.t) (columns : list Column) : outcome (list Column) :=
  match fuel with
  | O => Panic
  | S fuel =>
      let! r := Fields.next it in
      match r with
      | (None, _) => Val columns
      | (Some (Ok f), it) => columns_loop fuel it (columns ++ [column_of f])
      | (Some (Err _), it) => columns_loop fuel it columns
      end
  end.

Definition columns_of (desc : RowDescriptionBody.t) : outcome (list Column) :=
  columns_loop (S (Z.to_nat (RowDescriptionBody.len desc))) (Fields.fields desc) [].

(** ** Decoding cells *)

(** [(bytes.len() == n).then(|| iN::from_le_bytes(...))]. *)
Definition le_int (n : nat) (bytes : list Z) : option Z :=
  if (length bytes =? n)%nat then Some (i_of_le bytes) else None.

(** The bits of a float. *)
Definition le_bits (n : nat) (bytes : list Z) : option Z :=
  if (length bytes =? n)%nat then Some (u_of_le bytes) else None.

Definition bool_cell (bytes : list Z) : option bool :=
  match bytes with
  | [b] =>
      if (b =? 116) || (b =? 84) || (b =? 1) then Some true
      else if (b =? 102) || (b =? 70) || (b =? 0) then Some false
      else None
  | _ => None
  end.

Definition hex_digit_to_value (c : Z) : option Z :=
  if (48 <=? c) && (c <=? 57) then Some (c - 48)
  else if (97 <=? c) && (c <=? 102) then Some (c - 97 + 10)
  else if (65 <=? c) && (c <=? 70) then Some (c - 65 + 10)
  else None.

(** The loop over [hex_data.chunks(2)], of even length. *)
Fixpoint hex_loop (data result : list Z) : option (list Z) :=
  match data with
  | h :: l :: data =>
      high ← hex_digit_to_value h; low ← hex_digit_to_value l;
      hex_loop data (result ++ [Z.lor (Z.shiftl high 4) low])
  | _ => Some result
  end.

Definition decode_bytea_hex (data : list Z) : option (list Z) :=
  match data with
  | 92 :: 120 :: hex_data => if Nat.even (length hex_data) then hex_loop hex_data [] else None
  | _ => Some data
  end.

(** [result.ok()]. *)
Definition ok {A E} (r : result A E) : option A :=
  match r with
  | Ok a => Some a
  | Err _ => None
  end.

(** ** [Row] *)

(** [io::Error]'s [Display]; the errors of [ranges] carry a message. *)
Definition display_io (e : io_error) : list Z :=
  match payload e with
  | Msg s => str s
  | Backend.Utf8Error => []
  end.

Module ClientRow.

Record t : Type := mk {
  columns : list Column;
  data : DataRowBody.t;
  ranges : list (option (nat * nat));
}.

Definition invalid_data_row (e : io_error) : Connection.Error :=
  Protocol (str "invalid data row: " ++ display_io e).

(** [data.ranges().map(...).collect::<Result<Vec<_>>>()?], one call of [next] more
    than there are columns at most. *)
Definition new (columns : list Column) (data : DataRowBody.t) : outcome (result t Connection.Error) :=
  let! r := collect_ranges (S (Z.to_nat (DataRowBody.len data))) (DataRowRanges.ranges data) in
  match r with
  | None => Panic
  | Some (Err e) => Val (Err (invalid_data_row e))
  | Some (Ok ranges) => Val (Ok (mk columns data ranges))
  end.

Definition column_count (r : t) : nat := length (columns r).
Definition is_empty (r : t) : bool := (length (columns r) =? 0)%nat.

Definition get_bytes (r : t) (idx : nat) : outcome (option (list Z)) :=
  match ranges r !! idx with
  | Some (Some (a, b)) => let! bs := slice_range a b (DataRowBody.storage (data r)) in Val (Some bs)
  | _ => Val None
  end.

Definition is_null (r : t) (idx : nat) : bool :=
  match ranges r !! idx with
  | Some (Some _) => false
  | _ => true
  end.

(** The default format is text. *)
Definition format_at (r : t) (idx : nat) : ColumnFormat :=
  match columns r !! idx with
  | Some c => column_format c
  | None => TextFormat
  end.

(** [std::str::from_utf8(bytes).ok()?.trim().parse().ok()]. *)
Definition parse_text {A} (parse : list Z -> option A) (bytes : list Z) : option A :=
  s ← from_utf8 bytes; parse (trim s).

Definition get_with {A} (n : nat) (dec : list Z -> A) (parse : list Z -> option A) (r : t) (idx : nat) :
    outcome (option A) :=
  let! bytes := get_bytes r idx in
  Val (bytes ← bytes;
       if binary_format (format_at r idx) && (length bytes =? n)%nat then Some (dec bytes)
       else if negb (binary_format (format_at r idx)) then parse_text parse bytes
       else None).

Definition get_i16 : t -> nat -> outcome (option Z) := get_with 2 i_of_le (parse_i 16).
Definition get_i32 : t -> nat -> outcome (option Z) := get_with 4 i_of_le (parse_i 32).
Definition get_i64 : t -> nat -> outcome (option Z) := get_with 8 i_of_le (parse_i 64).

(** [parse_f32] and [parse_f64] are [str::parse], to bits. *)
Definition get_f32 (parse_f32 : list Z -> option Z) : t -> nat -> outcome (option Z) := get_with 4 u_of_le parse_f32.
Definition get_f64 (parse_f64 : list Z -> option Z) : t -> nat -> outcome (option Z) := get_with 8 u_of_le parse_f64.

Definition get_bool (r : t) (idx : nat) : outcome (option bool) :=
  let! bytes := get_bytes r idx in
  Val (bytes ← bytes;
       if binary_format (format_at r idx) && (length bytes =? 1)%nat then
         if bool_decide (bytes = [0]) then Some false
         else if bool_decide (bytes = [1]) then Some true
         else None
       else if bool_decide (bytes = str "t" \/ bytes = str "T") then Some true
       else if bool_decide (bytes = str "f" \/ bytes = str "F") then Some false
       else if bool_decide (bytes = str "true") then Some true
       else if bool_decide (bytes = str "false") then Some false
       else None).

Definition get_string (r : t) (idx : nat) : outcome (option (list Z)) :=
  let! bytes := get_bytes r idx in Val (bytes ≫= from_utf8).

Definition get_bytes_owned (r : t) (idx : nat) : outcome (option (list Z)) :=
  let! bytes := get_bytes r idx in
  Val (bytes ← bytes; if binary_format (format_at r idx) then Some bytes else decode_bytea_hex bytes).

(** [T::from_hyper_binary(bytes).ok()]. *)
Definition get {A E} (from_hyper_binary : list Z -> result A E) (r : t) (idx : nat) : outcome (option A) :=
  let! bytes := get_bytes r idx in Val (bytes ← bytes; ok (from_hyper_binary bytes)).

Definition column_index (r : t) (name : list Z) : result nat Connection.Error :=
  match list_find (fun c => column_name c = name) (columns r) with
  | Some (i, _) => Ok i
  | None => Err (QueryError (str "column not found: " ++ name) None None None)
  end.

Definition get_by_name {A E} (from_hyper_binary : list Z -> result A E) (r : t) (name : list Z) :
    outcome (option A) :=
  match column_index r name with
  | Ok idx => get from_hyper_binary r idx
  | Err _ => Val None
  end.

End ClientRow.

(** ** [StreamRow] *)

Module StreamRow.

(** The row owns a [DataRowBody] and nothing else. *)
Definition t : Type := DataRowBody.t.

Definition column_count (r : t) : nat := Z.to_nat (DataRowBody.len r).
Definition get_bytes (r : t) (idx : nat) : outcome (option (list Z)) := get_column_bytes r idx.
Definition is_null (r : t) (idx : nat) : outcome bool := is_column_null r idx.

Definition get_with {A} (dec : list Z -> option A) (r : t) (idx : nat) : outcome (option A) :=
  let! bytes := get_bytes r idx in Val (bytes ≫= dec).

Definition get_i16 : t -> nat -> outcome (option Z) := get_with (le_int 2).
Definition get_i32 : t -> nat -> outcome (option Z) := get_with (le_int 4).
Definition get_i64 : t -> nat -> outcome (option Z) := get_with (le_int 8).
Definition get_f32 : t -> nat -> outcome (option Z) := get_with (le_bits 4).
Definition get_f64 : t -> nat -> outcome (option Z) := get_with (le_bits 8).
Definition get_bool : t -> nat -> outcome (option bool) := get_with bool_cell.
Definition get_string : t -> nat -> outcome (option (list Z)) := get_with from_utf8.

End StreamRow.

(** ** [BatchRow] *)

Module BatchRow.

Record t : Type := mk { data : DataRowBody.t; offsets : list (option (nat * nat)) }.

Definition new (data : DataRowBody.t) : outcome t :=
  let! offsets := compute_all_offsets data in Val (mk data offsets).

Definition column_count (r : t) : nat := length (offsets r).

(** [buffer().get(start..end)]. *)
Definition get_range (a b : nat) (buf : list Z) : option (list Z) :=
  if ((a <=? b) && (b <=? length buf))%nat then Some (slice a b buf) else None.

Definition get_bytes (r : t) (idx : nat) : option (list Z) :=
  match offsets r !! idx with
  | Some (Some (start, stop)) => get_range start stop (DataRowBody.storage (data r))
  | _ => None
  end.

Definition is_null (r : t) (idx : nat) : bool :=
  match offsets r !! idx with
  | Some (Some _) => false
  | _ => true
  end.

Definition get_with {A} (dec : list Z -> option A) (r : t) (idx : nat) : option A := get_bytes r idx ≫= dec.

Definition get_i16 : t -> nat -> option Z := get_with (le_int 2).
Definition get_i32 : t -> nat -> option Z := get_with (le_int 4).
Definition get_i64 : t -> nat -> option Z := get_with (le_int 8).
Definition get_f32 : t -> nat -> option Z := get_with (le_bits 4).
Definition get_f64 : t -> nat -> option Z := get_with (le_bits 8).
Definition get_bool : t -> nat -> option bool := get_with bool_cell.
Definition get_string : t -> nat -> option (list Z) := get_with from_utf8.

End BatchRow.

(** ** [FromBinaryValue] *)

Record FromBinaryValue (A : Type) : Type := {
  from_stream_row : StreamRow.t -> nat -> outcome (option A);
  from_batch_row : BatchRow.t -> nat -> outcome (option A);
}.
Arguments from_stream_row {A} _ _ _.
Arguments from_batch_row {A} _ _ _.

(** [a.or_else(|| b)]. *)
Definition or_else {A} (a b : outcome (option A)) : outcome (option A) :=
  let! v := a in
  match v with
  | Some v => Val (Some v)
  | None => b
  end.

Definition bool_value : FromBinaryValue bool :=
  {| from_stream_row := StreamRow.get_bool; from_batch_row := fun row idx => Val (BatchRow.get_bool row idx) |}.
Definition i16_value : FromBinaryValue Z :=
  {| from_stream_row := StreamRow.get_i16; from_batch_row := fun row idx => Val (BatchRow.get_i16 row idx) |}.
Definition i32_value : FromBinaryValue Z := {|
  from_stream_row := fun row idx => or_else (StreamRow.get_i32 row idx) (StreamRow.get_i16 row idx);
  from_batch_row := fun row idx => or_else (Val (BatchRow.get_i32 row idx)) (Val (BatchRow.get_i16 row idx));
|}.
Definition i64_value : FromBinaryValue Z := {|
  from_stream_row := fun row idx =>
    or_else (or_else (StreamRow.get_i64 row idx) (StreamRow.get_i32 row idx)) (StreamRow.get_i16 row idx);
  from_batch_row := fun row idx =>
    or_else (or_else (Val (BatchRow.get_i64 row idx)) (Val (BatchRow.get_i32 row idx)))
      (Val (BatchRow.get_i16 row idx));
|}.
Definition f32_value : FromBinaryValue Z :=
  {| from_stream_row := StreamRow.get_f32; from_batch_row := fun row idx => Val (BatchRow.get_f32 row idx) |}.
Definition string_value : FromBinaryValue (list Z) :=
  {| from_stream_row := StreamRow.get_string; from_batch_row := fun row idx => Val (BatchRow.get_string row idx) |}.
Definition bytes_value : FromBinaryValue (list Z) :=
  {| from_stream_row := StreamRow.get_bytes; from_batch_row := fun row idx => Val (BatchRow.get_bytes row idx) |}.

(** [from_hyper_binary(bytes).ok()] on [get_bytes(idx)?]. *)
Definition decode_some {A E} (from_hyper_binary : list Z -> outcome (result A E)) (bytes : option (list Z)) :
    outcome (option A) :=
  match bytes with
  | None => Val None
  | Some bytes => let! v := from_hyper_binary bytes in Val (ok v)
  end.

Definition hyper_value {A E} (from_hyper_binary : list Z -> outcome (result A E)) : FromBinaryValue A := {|
  from_stream_row := fun row idx =>
    let! bytes := StreamRow.get_bytes row idx in decode_some from_hyper_binary bytes;
  from_batch_row := fun row idx => decode_some from_hyper_binary (BatchRow.get_bytes row idx);
|}.

Definition date_value (overflow_checks : bool) : FromBinaryValue Date :=
  hyper_value (date_from_hyper_binary overflow_checks).
Definition time_value : FromBinaryValue Time := hyper_value (fun bytes => Val (time_from_hyper_binary bytes)).
Definition timestamp_value : FromBinaryValue Timestamp :=
  hyper_value (fun bytes => Val (timestamp_from_hyper_binary bytes)).
Definition interval_value : FromBinaryValue Interval :=
  hyper_value (fun bytes => Val (interval_from_hyper_binary bytes)).
Definition offset_timestamp_value : FromBinaryValue OffsetTimestamp :=
  hyper_value (fun bytes => Val (offset_from_hyper_binary bytes)).

(** ** [Row] of [hyperdb-api] ([result.rs]) *)

Record ResultColumn : Type := mk_result_column { rc_name : list Z; rc_sql_type : SqlType; rc_index : nat }.

Definition ResultSchema : Type := list ResultColumn.

Definition add_column (name : list Z) (sql_type : SqlType) (s : ResultSchema) : ResultSchema :=
  s ++ [mk_result_column name sql_type (length s)].

Definition schema_column_by_name (s : ResultSchema) (name : list Z) : option ResultColumn :=
  snd <$> list_find (fun c => rc_name c = name) s.
Definition schema_column_index (s : ResultSchema) (name : list Z) : option nat :=
  fst <$> list_find (fun c => rc_name c = name) s.

(** A row of the TCP transport, with the schema of its result. *)
Record Row : Type := mk_row { inner : StreamRow.t; schema : option ResultSchema }.

Definition sql_type (r : Row) (idx : nat) : option SqlType := s ← schema r; rc_sql_type <$> s !! idx.

Definition row_is_null (r : Row) (idx : nat) : outcome bool := StreamRow.is_null (inner r) idx.
Definition row_column_count (r : Row) : nat := StreamRow.column_count (inner r).

(** The scale is that of the schema; one that is no [u8] gives no value. *)
Definition get_numeric (r : Row) (idx : nat) : outcome (option Numeric.t) :=
  match sql_type r idx with
  | Some (SqlTypes.Numeric _ scale) =>
      if in_ub 8 scale then
        let! bytes := StreamRow.get_bytes (inner r) idx in
        Val (bytes ← bytes; ok (Numeric.from_binary_with_scale bytes scale))
      else Val None
  | _ => Val None
  end.

(** [RowValue]: a type by its name and its getter. *)
Record RowValue (A : Type) : Type := { type_name : list Z; from_row : Row -> nat -> outcome (option A) }.
Arguments type_name {A} _.
Arguments from_row {A} _ _ _.

Definition tcp_value {A} (name : string) (T : FromBinaryValue A) : RowValue A :=
  {| type_name := str name; from_row := fun r idx => from_stream_row T (inner r) idx |}.

Definition i16_row_value : RowValue Z := tcp_value "i16" i16_value.
Definition i32_row_value : RowValue Z := tcp_value "i32" i32_value.
Definition i64_row_value : RowValue Z := tcp_value "i64" i64_value.
Definition f32_row_value : RowValue Z := tcp_value "f32" f32_value.
Definition bool_row_value : RowValue bool := tcp_value "bool" bool_value.
Definition string_row_value : RowValue (list Z) := tcp_value "alloc::string::String" string_value.
Definition bytes_row_value : RowValue (list Z) := tcp_value "alloc::vec::Vec<u8>" bytes_value.
Definition date_row_value (oc : bool) : RowValue Date :=
  tcp_value "hyperdb_api_core::types::special::Date" (date_value oc).
Definition time_row_value : RowValue Time := tcp_value "hyperdb_api_core::types::special::Time" time_value.
Definition timestamp_row_value : RowValue Timestamp :=
  tcp_value "hyperdb_api_core::types::special::Timestamp" timestamp_value.
Definition offset_timestamp_row_value : RowValue OffsetTimestamp :=
  tcp_value "hyperdb_api_core::types::special::OffsetTimestamp" offset_timestamp_value.
Definition interval_row_value : RowValue Interval :=
  tcp_value "hyperdb_api_core::types::special::Interval" interval_value.
Definition numeric_row_value : RowValue Numeric.t :=
  {| type_name := str "hyperdb_api_core::types::special::Numeric"; from_row := get_numeric |}.

(** ** Errors of columns ([hyperdb_api::Error]) *)

(** The [actual] text is the [Debug] form of the type, or "<unknown>". *)
Inductive ColumnErrorKind : Type :=
| Missing
| NullValue
| TypeMismatch (expected : list Z) (actual : option SqlType).

Inductive RowError : Type :=
| ColumnFailed (name : list Z) (kind : ColumnErrorKind)
| ColumnIndexOutOfBounds (idx column_count : nat)
| OutOfBounds (idx : nat) (name : list Z) (column_count : nat)
| NullOrIncompatible (idx : nat) (name : list Z).

Definition try_get {A} (T : RowValue A) (r : Row) (idx : nat) (name : list Z) : outcome (result A RowError) :=
  if (row_column_count r <=? idx)%nat then Val (Err (OutOfBounds idx name (row_column_count r)))
  else
    let! v := from_row T r idx in
    Val (match v with Some v => Ok v | None => Err (NullOrIncompatible idx name) end).

Definition get_by_name {A} (T : RowValue A) (r : Row) (name : list Z) : outcome (result A RowError) :=
  match schema r ≫= fun s => schema_column_index s name with
  | Some idx => try_get T r idx name
  | None => Val (Err (ColumnFailed name Missing))
  end.

(** ** [RowAccessor] ([row_accessor.rs]) *)

Abbreviation Indices := (gmap (list Z) nat).

(** Both loops: each column is inserted under its name, in order. *)
Definition build_indices (s : ResultSchema) : Indices :=
  foldl (fun m '(i, c) => <[rc_name c := i]> m) ∅ (imap pair s).

Record RowAccessor : Type := mk_accessor { row : Row; indices : Indices }.

(** What the getters make of a cell without a value. *)
Definition column_failure {A} (T : RowValue A) (r : Row) (idx : nat) (name : list Z) : RowError :=
  ColumnFailed name (TypeMismatch (type_name T) (sql_type r idx)).

Definition required {A} (T : RowValue A) (r : Row) (idx : nat) (name : list Z) : outcome (result A RowError) :=
  let! v := from_row T r idx in
  match v with
  | Some v => Val (Ok v)
  | None =>
      let! null := row_is_null r idx in
      Val (Err (if null then ColumnFailed name NullValue else column_failure T r idx name))
  end.

Definition optional {A} (T : RowValue A) (r : Row) (idx : nat) (name : list Z) :
    outcome (result (option A) RowError) :=
  let! null := row_is_null r idx in
  if null then Val (Ok None)
  else
    let! v := from_row T r idx in
    Val (match v with Some v => Ok (Some v) | None => Err (column_failure T r idx name) end).

Definition accessor_get {A} (T : RowValue A) (a : RowAccessor) (name : list Z) : outcome (result A RowError) :=
  match indices a !! name with
  | None => Val (Err (ColumnFailed name Missing))
  | Some idx => required T (row a) idx name
  end.

Definition get_opt {A} (T : RowValue A) (a : RowAccessor) (name : list Z) :
    outcome (result (option A) RowError) :=
  match indices a !! name with
  | None => Val (Err (ColumnFailed name Missing))
  | Some idx => optional T (row a) idx name
  end.

(** [format!("col[{idx}]")]. *)
Definition position_name (idx : nat) : list Z := str "col[" ++ fmt_u (Z.of_nat idx) ++ str "]".

Definition position {A} (T : RowValue A) (a : RowAccessor) (idx : nat) : outcome (result A RowError) :=
  if (row_column_count (row a) <=? idx)%nat
  then Val (Err (ColumnIndexOutOfBounds idx (row_column_count (row a))))
  else required T (row a) idx (position_name idx).

Definition position_opt {A} (T : RowValue A) (a : RowAccessor) (idx : nat) :
    outcome (result (option A) RowError) :=
  if (row_column_count (row a) <=? idx)%nat
  then Val (Err (ColumnIndexOutOfBounds idx (row_column_count (row a))))
  else optional T (row a) idx (position_name idx).

(** ** The kinds of row agree *)

Lemma ranges_inside buf count pos i a b :
  column_ranges buf count pos !! i = Some (Some (a, b)) -> (a <= b <= length buf)%nat.
Proof.
  revert pos i. induction count as [| count IH]; intros pos i; cbn [column_ranges]; [done |].
  destruct (Nat.ltb_spec (length buf) (pos + 4)); [done |].
  destruct (len_at pos buf) as [n |].
  - destruct (Nat.ltb_spec (length buf) (pos + 4 + n)); [done |].
    destruct i as [| i]; cbn [lookup list_lookup]; [intros [= <- <-]; lia | apply IH].
  - destruct i as [| i]; cbn [lookup list_lookup]; [done | apply IH].
Qed.

Section kinds.
Context (data : DataRowBody.t) (Hlen : 0 <= DataRowBody.len data).

(** The bytes of a column, as its range gives them. *)
Definition cell (idx : nat) : option (list Z) :=
  column_ranges (DataRowBody.storage data) (Z.to_nat (DataRowBody.len data)) 0 !! idx
    ≫= bytes_at (DataRowBody.storage data).

Lemma stream_cell idx : StreamRow.get_bytes data idx = Val (cell idx).
Proof.
  unfold StreamRow.get_bytes, get_column_bytes, cell. cond.
  { rewrite lookup_ge_None_2; [done |]. etransitivity; [apply length_column_ranges | lia]. }
  destruct (skip_columns_ranges idx (DataRowBody.storage data) (Z.to_nat (DataRowBody.len data)) 0)
    as (skipped & Hs & Hb & _); [lia | lia |]. rewrite drop_0 in Hs. rewrite Hs. exact Hb.
Qed.

Definition batch : BatchRow.t :=
  BatchRow.mk data (column_ranges (DataRowBody.storage data) (Z.to_nat (DataRowBody.len data)) 0).

Lemma batch_new : BatchRow.new data = Val batch.
Proof. unfold BatchRow.new, compute_all_offsets. by rewrite offsets_loop_ranges. Qed.

Lemma batch_cell idx : BatchRow.get_bytes batch idx = cell idx.
Proof.
  unfold BatchRow.get_bytes, cell. cbn [batch BatchRow.offsets BatchRow.data].
  destruct (_ !! idx) as [[[a b] |] |] eqn:E; [| done | done]. apply ranges_inside in E.
  unfold BatchRow.get_range. by conds.
Qed.

Lemma batch_is_null idx : BatchRow.is_null batch idx = bool_decide (cell idx = None).
Proof.
  unfold BatchRow.is_null, cell. cbn [batch BatchRow.offsets].
  destruct (_ !! idx) as [[[a b] |] |] eqn:E; [| done | done]. cbn [mbind option_bind bytes_at]. by rewrite bool_decide_eq_false_2.
Qed.

(** A column that is there is NULL to both; one that is cut off may be to either. *)
Lemma stream_null idx :
  exists n, StreamRow.is_null data idx = Val n
    /\ (n = BatchRow.is_null batch idx \/ (BatchRow.column_count batch <= idx < StreamRow.column_count data)%nat).
Proof.
  unfold StreamRow.is_null, is_column_null, BatchRow.is_null, BatchRow.column_count, StreamRow.column_count. cbn [batch BatchRow.offsets]. cond.
  { exists true. split; [done | left]. rewrite lookup_ge_None_2; [done |]. etransitivity; [apply length_column_ranges | lia]. }
  destruct (skip_columns_ranges idx (DataRowBody.storage data) (Z.to_nat (DataRowBody.len data)) 0)
    as (skipped & Hs & _ & _ & b' & Hn & Hspec); [lia | lia |]. rewrite drop_0 in Hs. rewrite Hs. cbn [outcome_bind].
  fold (target_null skipped). rewrite Hn. exists b'. split; [done |].
  destruct (_ !! idx) as [o |] eqn:Ho; [left; rewrite (Hspec o eq_refl); by destruct o |]. right. apply lookup_ge_None in Ho. lia.
Qed.

(** A getter by a decoding of the cell. *)
Definition decodes {A} (T : FromBinaryValue A) (dec : option (list Z) -> option A) : Prop :=
  forall idx, from_stream_row T data idx = Val (dec (cell idx)) /\ from_batch_row T batch idx = Val (dec (cell idx)).

Lemma stream_with {A} (dec : list Z -> option A) idx :
  StreamRow.get_with dec data idx = Val (cell idx ≫= dec).
Proof. unfold StreamRow.get_with. by rewrite stream_cell. Qed.

Lemma batch_with {A} (dec : list Z -> option A) idx : BatchRow.get_with dec batch idx = cell idx ≫= dec.
Proof. unfold BatchRow.get_with. by rewrite batch_cell. Qed.

Lemma decodes_with {A} (dec : list Z -> option A) :
  decodes {| from_stream_row := StreamRow.get_with dec; from_batch_row := fun row idx => Val (BatchRow.get_with dec row idx) |}
    (fun c => c ≫= dec).
Proof. intros idx. cbn [from_stream_row from_batch_row]. by rewrite stream_with, batch_with. Qed.

Lemma or_else_val {A} (a b : option A) : or_else (Val a) (Val b) = Val (match a with Some v => Some v | None => b end).
Proof. by destruct a. Qed.

Lemma decodes_i32 : decodes i32_value (fun c => match c ≫= le_int 4 with Some v => Some v | None => c ≫= le_int 2 end).
Proof.
  intros idx. cbn [from_stream_row from_batch_row i32_value]. unfold StreamRow.get_i32, StreamRow.get_i16, BatchRow.get_i32, BatchRow.get_i16.
  by rewrite !stream_with, !batch_with, !or_else_val.
Qed.

Lemma decodes_i64 : decodes i64_value (fun c =>
  match c ≫= le_int 8 with
  | Some v => Some v
  | None => match c ≫= le_int 4 with Some v => Some v | None => c ≫= le_int 2 end
  end).
Proof.
  intros idx. cbn [from_stream_row from_batch_row i64_value]. unfold StreamRow.get_i64, StreamRow.get_i32, StreamRow.get_i16, BatchRow.get_i64, BatchRow.get_i32, BatchRow.get_i16.
  rewrite !stream_with, !batch_with, !or_else_val. by destruct (cell idx ≫= le_int 8).
Qed.

Lemma decodes_bytes : decodes bytes_value id.
Proof. intros idx. cbn [from_stream_row from_batch_row bytes_value]. by rewrite stream_cell, batch_cell. Qed.

Lemma decodes_hyper {A E} (f : list Z -> outcome (result A E)) g :
  (forall bs, f bs = Val (g bs)) -> decodes (hyper_value f) (fun c => bs ← c; ok (g bs)).
Proof.
  intros Hf idx. cbn. rewrite stream_cell, batch_cell. cbn [outcome_bind]. unfold decode_some.
  destruct (cell idx); [| done]. by rewrite Hf.
Qed.

(** The client's row, when it could be made. *)
Lemma client_row columns :
  exists r, ClientRow.new columns data = Val r /\
    forall row, r = Ok row -> ClientRow.columns row = columns /\ ClientRow.data row = data /\
      ClientRow.ranges row = column_ranges (DataRowBody.storage data) (Z.to_nat (DataRowBody.len data)) 0 /\
      length (ClientRow.ranges row) = Z.to_nat (DataRowBody.len data).
Proof.
  unfold ClientRow.new, DataRowRanges.ranges.
  destruct (collect_ranges_spec (DataRowBody.storage data) (Z.to_nat (DataRowBody.len data)) 0
    (S (Z.to_nat (DataRowBody.len data)))) as (r & Hr & Hos); [lia | lia |].
  rewrite drop_0, Z2Nat.id in Hr by lia. rewrite Hr. cbn [outcome_bind].
  destruct r as [os | e]; eexists; (split; [done |]); [| done].
  intros row [= <-]. by destruct (Hos os eq_refl) as [-> Hl].
Qed.

Lemma client_cell columns row idx :
  ClientRow.new columns data = Val (Ok row) -> ClientRow.get_bytes row idx = Val (cell idx).
Proof.
  intros H. destruct (client_row columns) as (r & Hr & Hrow). rewrite Hr in H. injection H as ->.
  destruct (Hrow row eq_refl) as (_ & Hd & Hranges & _). unfold ClientRow.get_bytes, cell. rewrite Hd, Hranges.
  destruct (_ !! idx) as [[[a b] |] |] eqn:E; [| done | done]. apply ranges_inside in E.
  by rewrite slice_range_val by lia.
Qed.
End kinds.

Lemma date_decodes data oc : exists dec, decodes data (date_value oc) dec.
Proof.
  eexists. apply (decodes_hyper data _ (fun bs =>
    match date_from_hyper_binary oc bs with Val r => r | Panic => Err [] end)).
  intros bs. unfold date_from_hyper_binary. case_match; [done |].
  by destruct (try_decode_spec oc (wrap_u 32 (i_of_le bs))) as (r & -> & _).
Qed.

(** What a batch row and a stream row of the same data return. *)
Definition agrees {A} (T : FromBinaryValue A) (data : DataRowBody.t) (b : BatchRow.t) : Prop :=
  forall idx, exists v, from_stream_row T data idx = Val v /\ from_batch_row T b idx = Val v.

Lemma decodes_agrees {A} (T : FromBinaryValue A) data dec : decodes data T dec -> agrees T data (batch data).
Proof. intros H idx. destruct (H idx) as [Hs Hb]. eauto. Qed.

Lemma client_with {A} (dec : list Z -> A) n parse columns data row idx :
  0 <= DataRowBody.len data -> ClientRow.new columns data = Val (Ok row) ->
  binary_format (ClientRow.format_at row idx) = true ->
  ClientRow.get_with n dec parse row idx
  = StreamRow.get_with (fun bytes => if (length bytes =? n)%nat then Some (dec bytes) else None) data idx.
Proof.
  intros Hl Hr Hf. unfold ClientRow.get_with. rewrite (client_cell data Hl columns row idx Hr), stream_with, Hf by done.
  done.
Qed.

(** ** Rows built from their cells *)

Lemma row_cell cols idx : Forall column_fits cols -> StreamRow.get_bytes (row_of cols) idx = Val (cols !! idx ≫= id).
Proof. intros Hf. by destruct (data_row_columns cols idx Hf). Qed.

(** The column [idx] holds [bytes], and reading it as [T] gives [v]. *)
Definition reads {A} (cols : list (option (list Z))) (idx : nat) (T : FromBinaryValue A) (bytes : list Z) (v : A) : Prop :=
  cols !! idx = Some (Some bytes) -> from_stream_row T (row_of cols) idx = Val (Some v).

(** The bytes a codec writes for a value that is not NULL. *)
Definition written {A} (T : ToHyperBinary A) (v : A) : list Z := (to_hyper_binary_not_null T v []).1.

Section cells.
Context (cols : list (option (list Z))) (Hf : Forall column_fits cols) (idx : nat).

Lemma reads_with {A} (dec : list Z -> option A) batch bytes v :
  dec bytes = Some v -> reads cols idx {| from_stream_row := StreamRow.get_with dec; from_batch_row := batch |} bytes v.
Proof. intros Hd Hc. cbn. unfold StreamRow.get_with. rewrite row_cell, Hc by done. by rewrite <- Hd. Qed.

Lemma reads_hyper {A E} (f : list Z -> outcome (result A E)) bytes v :
  f bytes = Val (Ok v) -> reads cols idx (hyper_value f) bytes v.
Proof. intros Hd Hc. cbn. rewrite row_cell, Hc by done. cbn. by rewrite Hd. Qed.

Lemma le_int_written n z : (0 < n)%nat -> in_i (8 * Z.of_nat n) z -> le_int n (to_le n z) = Some z.
Proof. intros Hn Hz. unfold le_int. by rewrite length_to_le, Nat.eqb_refl, i_of_le_to_le. Qed.

Lemma le_int_other n m z : n <> m -> le_int m (to_le n z) = None.
Proof. intros H. unfold le_int. rewrite length_to_le. by apply Nat.eqb_neq in H as ->. Qed.

(** Integers are read at their width and widened to it. *)
Lemma reads_ints z :
  (in_i 16 z -> reads cols idx i16_value (to_le 2 z) z /\ reads cols idx i32_value (to_le 2 z) z
                /\ reads cols idx i64_value (to_le 2 z) z) /\
  (in_i 32 z -> reads cols idx i32_value (to_le 4 z) z /\ reads cols idx i64_value (to_le 4 z) z) /\
  (in_i 64 z -> reads cols idx i64_value (to_le 8 z) z).
Proof.
  assert (Hw : forall n bytes, cols !! idx = Some (Some bytes) ->
     StreamRow.get_with (le_int n) (row_of cols) idx = Val (le_int n bytes)).
  { intros n bytes Hc. unfold StreamRow.get_with. by rewrite row_cell, Hc. }
  assert (H2 := le_int_written 2 z ltac:(lia)). assert (H4 := le_int_written 4 z ltac:(lia)).
  assert (H8 := le_int_written 8 z ltac:(lia)).
  split_and!; intros Hz; split_and?; intros Hc;
    cbn [from_stream_row i16_value i32_value i64_value]; unfold StreamRow.get_i64, StreamRow.get_i32, StreamRow.get_i16;
    rewrite ?(Hw _ _ Hc), ?le_int_other by done; cbn [or_else outcome_bind];
    first [rewrite H2 by done | rewrite H4 by done | rewrite H8 by done]; done.
Qed.
End cells.

(** ** Names *)

Lemma build_indices_snoc s c : build_indices (s ++ [c]) = <[rc_name c := length s]> (build_indices s).
Proof. unfold build_indices. rewrite imap_app, foldl_app. cbn. by rewrite Nat.add_0_r. Qed.

(** A name stands for the last column that has it. *)
Lemma build_indices_spec s name i :
  build_indices s !! name = Some i <->
  (exists c, s !! i = Some c /\ rc_name c = name) /\
  forall j c, (i < j)%nat -> s !! j = Some c -> rc_name c <> name.
Proof.
  induction s as [| c s IH] using rev_ind; [by split; [| intros [(? & ? & _) _]] |].
  rewrite build_indices_snoc. destruct (decide (rc_name c = name)) as [Heq | Hne].
  - rewrite Heq, lookup_insert_eq. split.
    + intros [= <-]. split; [exists c; split; [by apply list_lookup_middle | done] |].
      intros j c' Hj Hc'. apply lookup_lt_Some in Hc'. rewrite length_app in Hc'. simpl in Hc'. lia.
    + intros [(c' & Hc' & _) Hlast]. apply lookup_lt_Some in Hc'. rewrite length_app in Hc'. simpl in Hc'.
      destruct (decide (i = length s)) as [-> | Hi]; [done |]. exfalso.
      apply (Hlast (length s) c); [lia | by apply list_lookup_middle | done].
  - rewrite lookup_insert_ne, IH by done. split.
    + intros [(c' & Hc' & Hn) Hlast]. split; [exists c'; split; [by apply lookup_app_l_Some | done] |].
      intros j c2 Hj [Hc2 | [Hge Hc2]]%lookup_app_Some; [by apply (Hlast j) |].
      apply list_lookup_singleton_Some in Hc2 as [_ <-]. done.
    + intros [(c' & [Hc' | [Hge Hc']]%lookup_app_Some & Hn) Hlast].
      * split; [by exists c' |]. intros j c2 Hj Hc2. apply (Hlast j); [done |].
        by apply lookup_app_l_Some.
      * apply list_lookup_singleton_Some in Hc' as [_ <-]. done.
Qed.

Lemma build_indices_unique s i c :
  NoDup (rc_name <$> s) -> s !! i = Some c -> build_indices s !! rc_name c = Some i /\ schema_column_index s (rc_name c) = Some i.
Proof.
  intros Hnd Hc. assert (Huniq : forall j c', s !! j = Some c' -> rc_name c' = rc_name c -> j = i).
  { intros j c' Hc' Hn. eapply NoDup_lookup; [exact Hnd | |]; rewrite list_lookup_fmap, ?Hc, ?Hc'; cbn; [by rewrite Hn | done]. }
  split.
  - apply build_indices_spec. split; [by exists c |]. intros j c' Hj Hc' Hn. apply (Huniq j c') in Hn; [lia | done].
  - unfold schema_column_index. destruct (list_find _ s) as [[j c'] |] eqn:E.
    + apply list_find_Some in E as (Hc' & Hn & _). cbn. by rewrite (Huniq j c').
    + apply list_find_None in E. by apply (Forall_lookup_1 _ _ _ _ E) in Hc.
Qed.

(** What an accessor makes of a cell. *)
Definition access {A} (T : RowValue A) (a : RowAccessor) (name : list Z)
    (r : result A RowError) (o : result (option A) RowError) : Prop :=
  accessor_get T a name = Val r /\ get_opt T a name = Val o.

(** ** Properties *)



(** A row reads back what the cells were written from. A cell written by a type's
    codec is read as that value: Booleans, integers at their width and widened to a
    wider type, float bits, text, bytes, dates of the supported range, times below
    24 hours, timestamps, intervals, and a decimal with the scale of its column.
    Through an accessor, when the column names are distinct, a name reaches its own
    column: a NULL is an error where a value is required and [None] where it is
    optional, a cell with a value is that value in both, and a cell that the type
    does not read is a mismatch in both. *)
Theorem row_reads_values oc cols idx s c :
  Forall column_fits cols ->
  (forall b, reads cols idx bool_value (written bool_codec b) b) /\
  (forall z, in_i 16 z -> reads cols idx i16_value (written i16_codec z) z
     /\ reads cols idx i32_value (written i16_codec z) z /\ reads cols idx i64_value (written i16_codec z) z) /\
  (forall z, in_i 32 z -> reads cols idx i32_value (written i32_codec z) z
     /\ reads cols idx i64_value (written i32_codec z) z) /\
  (forall z, in_i 64 z -> reads cols idx i64_value (written i64_codec z) z) /\
  (forall bits, in_u 32 bits -> reads cols idx f32_value (written f32_codec bits) bits) /\
  (forall text, Forall is_char text -> reads cols idx string_value (utf8 text) text) /\
  (forall bytes, reads cols idx bytes_value bytes bytes) /\
  (forall d, MIN_DAYS <= d <= MAX_DAYS -> reads cols idx (date_value oc) (written date_codec d) d) /\
  (forall h m sec us, 0 <= h < 24 -> 0 <= m < 60 -> 0 <= sec < 60 -> 0 <= us < 1000000 ->
     reads cols idx time_value (written time_codec (time_new h m sec us)) (time_new h m sec us)) /\
  (forall ts bytes, in_i 64 ts -> timestamp_to_hyper_binary_not_null oc ts [] = Val bytes ->
     reads cols idx timestamp_value bytes ts /\ reads cols idx offset_timestamp_value bytes (from_utc ts 0)) /\
  (forall i, in_i 64 (microseconds i) -> in_i 32 (days i) -> in_i 32 (months i) ->
     reads cols idx interval_value (interval_encode i) i) /\
  (s !! idx = Some c ->
    let r := mk_row (row_of cols) (Some s) in
    let a := mk_accessor r (build_indices s) in
    (forall n p, rc_sql_type c = SqlTypes.Numeric p (Numeric.scale n) -> Numeric.wf n ->
       cols !! idx = Some (Some (Numeric.encode n)) -> get_numeric r idx = Val (Some n)) /\
    (NoDup (rc_name <$> s) -> forall A (T : RowValue A) v, from_row T r idx = Val v ->
      match cols !! idx, v with
      | Some None, None => access T a (rc_name c) (Err (ColumnFailed (rc_name c) NullValue)) (Ok None)
      | Some (Some _), Some v => access T a (rc_name c) (Ok v) (Ok (Some v))
      | Some (Some _), None => access T a (rc_name c) (Err (column_failure T r idx (rc_name c)))
                                 (Err (column_failure T r idx (rc_name c)))
      | _, _ => True
      end)).
Proof.
  intros Hf. pose proof (fun z => reads_ints cols Hf idx z) as Hints.
  split_and!.
  - intros b. apply reads_with; [done |]. by destruct b.
  - intros z Hz. by apply Hints.
  - intros z Hz. by apply Hints.
  - intros z Hz. by apply Hints.
  - intros bits Hb. apply reads_with; [done |]. unfold le_bits. cbn [written to_hyper_binary_not_null f32_codec le_codec fst app].
    rewrite length_to_le, u_of_le_to_le. cbn [Nat.eqb]. by rewrite wrap_u_id.
  - intros text Ht. apply reads_with; [done |]. by apply from_utf8_utf8.
  - intros bytes Hc. cbn. by rewrite row_cell, Hc.
  - intros d Hd. apply reads_hyper; [done |]. destruct (date_binary_exact oc) as (_ & _ & H).
    destruct (H (written date_codec d) (to_le_bytes _ _)) as (r & -> & Hr). f_equal. apply Hr; [| done].
    unfold MIN_DAYS, MAX_DAYS, MIN_JULIAN_DAY, MAX_JULIAN_DAY, JULIAN_DAY_EPOCH, in_i in *. lia.
  - intros h m sec us Hh Hm Hs Hu. apply reads_hyper; [done |]. f_equal. by apply time_exact.
  - intros ts bytes Hts Hw. destruct (timestamp_binary_roundtrip oc ts [] Hts) as [H _]. rewrite Hw in H.
    destruct (oc && _); [by destruct H |]. destruct H as (bs & _ & [= ->] & Hr).
    split; apply reads_hyper; [done | by rewrite Hr | done |].
    unfold offset_from_hyper_binary. by rewrite Hr.
  - intros i H1 H2 H3. apply reads_hyper; [done |]. f_equal. by apply (interval_exact oc).
  - intros Hc r a. split.
    + intros n p Ht Hn Hcell. unfold get_numeric, sql_type, r. cbn [schema inner mbind option_bind].
      rewrite Hc. cbn [fmap option_fmap option_map]. rewrite Ht. rewrite (proj2 (in_ub_spec 8 _) (proj2 Hn)).
      rewrite row_cell, Hcell by done. cbn. by rewrite (proj1 (proj1 numeric_wire n Hn)).
    + intros Hnd A T v Hv. destruct (build_indices_unique s idx c Hnd Hc) as [Hi _].
      destruct (data_row_columns cols idx Hf) as [_ Hnull].
      unfold access, accessor_get, get_opt. cbn [indices row a]. rewrite Hi. unfold required, optional.
      rewrite Hv. cbn [outcome_bind]. unfold row_is_null, StreamRow.is_null, r. cbn [inner]. rewrite Hnull.
      destruct (cols !! idx) as [[bs |] |]; [| | done]; destruct v; done.
Qed.

Definition sample_cells : list (option (list Z)) := [Some (written i16_codec (-7)); None].
Definition sample_schema : ResultSchema := add_column (str "b") SqlTypes.Text (add_column (str "a") SmallInt []).

