(* ===== verification/Client.v ===== *)
(** * The client: commands, result streams, prepared statements

    [hyperdb-api-core/src/client/client.rs], [client/notice.rs],
    [client/prepare.rs] and [client/prepared_stream.rs], over the [RawConnection] of
    [Connection]. A client guards its connection by a mutex; a method here is what it
    does while it has the lock, and the notices it hands to the receiver, in order,
    are part of its result. Connecting, cancelling over a second connection and
    logging are left out. *)

From stdpp Require Import strings.
From S2P Require Import Prelude Text Backend Frontend Connection Rows.

(** ** Notices ([client/notice.rs]) *)

Record Notice : Type := mk_notice {
  severity : option (list Z);
  code : option (list Z);
  message : list Z;
  detail : option (list Z);
  hint : option (list Z);
  position : option Z;
}.

Definition no_notice : Notice := mk_notice None None [] None None None.

(** One field of the response. *)
Definition notice_field (type_ : Z) (v : list Z) (n : Notice) : Notice :=
  if type_ =? 83 then mk_notice (Some v) (code n) (message n) (detail n) (hint n) (position n)
  else if (type_ =? 86) && bool_decide (severity n = None)
  then mk_notice (Some v) (code n) (message n) (detail n) (hint n) (position n)
  else if type_ =? 67 then mk_notice (severity n) (Some v) (message n) (detail n) (hint n) (position n)
  else if type_ =? 77 then mk_notice (severity n) (code n) v (detail n) (hint n) (position n)
  else if type_ =? 68 then mk_notice (severity n) (code n) (message n) (Some v) (hint n) (position n)
  else if type_ =? 72 then mk_notice (severity n) (code n) (message n) (detail n) (Some v) (position n)
  else if type_ =? 80 then mk_notice (severity n) (code n) (message n) (detail n) (hint n) (parse_i 32 v)
  else n.

Fixpoint notice_loop (fuel : nat) (buf : list Z) (n : Notice) : outcome Notice :=
  match fuel with
  | O => Panic
  | S fuel =>
      let! r := ErrorFields.next buf in
      match r with
      | (None, _) => Val n
      | (Some (Err _), buf) => notice_loop fuel buf n
      | (Some (Ok field), buf) =>
          match ErrorFields.field_value field with
          | Ok v => notice_loop fuel buf (notice_field (ErrorFields.type_ field) v n)
          | Err _ => notice_loop fuel buf n
          end
      end
  end.

Definition from_response_body (body : list Z) : outcome Notice := notice_loop (S (length body)) body no_notice.

Definition is_warning (n : Notice) : bool :=
  bool_decide (severity n = Some (str "WARNING") \/ severity n = Some (str "WARN")).

Definition is_info (n : Notice) : bool :=
  bool_decide (severity n ∈ [Some (str "NOTICE"); Some (str "INFO"); Some (str "LOG"); Some (str "DEBUG")]).

Definition display_notice (n : Notice) : list Z :=
  (match severity n with Some sev => sev ++ str ": " | None => [] end)
  ++ message n
  ++ (match code n with Some code => str " (" ++ code ++ str ")" | None => [] end).

(** The calls of the receiver. *)
Fixpoint process_notices (messages : list Message) : outcome (list Notice) :=
  match messages with
  | [] => Val []
  | NoticeResponse body :: messages =>
      let! n := from_response_body body in
      let! ns := process_notices messages in
      Val (n :: ns)
  | _ :: messages => process_notices messages
  end.

(** ** Command tags *)

(** [tag.split_whitespace().collect()]: [word] is the piece so far, reversed. *)
Fixpoint split_words (s word : list Z) : list (list Z) :=
  match s with
  | [] => match word with [] => [] | _ => [reverse word] end
  | c :: s =>
      if is_whitespace c
      then match word with [] => split_words s [] | _ => reverse word :: split_words s [] end
      else split_words s (c :: word)
  end.

Definition split_whitespace (s : list Z) : list (list Z) := split_words s [].

Definition counted_first (word : list Z) : bool :=
  bool_decide (word ∈ [str "UPDATE"; str "DELETE"; str "SELECT"; str "COPY"]).

Definition parse_affected_rows (tag : list Z) : option Z :=
  let parts := split_whitespace tag in
  match parts with
  | [] => None
  | word :: _ =>
      if bool_decide (word = str "INSERT") then parts !! 2%nat ≫= parse_u 64
      else if counted_first word then parts !! 1%nat ≫= parse_u 64
      else None
  end.

#[global] Arguments parse_affected_rows : simpl never.

(** The loop of [exec_locked]: the last tag with a count. *)
Fixpoint affected_rows (messages : list Message) (affected : Z) : Z :=
  match messages with
  | [] => affected
  | CommandComplete body :: messages =>
      affected_rows messages
        (match command_complete_tag body with
         | Ok tag => match parse_affected_rows tag with Some count => count | None => affected end
         | Err _ => affected
         end)
  | _ :: messages => affected_rows messages affected
  end.

(** ** Commands and materialised queries *)

Definition poisoned : Error := ConnectionError (str "connection mutex poisoned") None.

(** What a [try_lock] of the mutex finds: held is a live stream or COPY writer. *)
Inductive Lock : Type := Unlocked | Held | Poisoned.

Section client.
Context (oc : bool) (um : Z).

(** [self.lock_connection()?] before [m]. *)
Definition lock_connection {A} (poison : bool) (m : C A) : C A :=
  if poison then cfail poisoned else m.

(** [self.process_notices(&messages)]. *)
Definition with_notices {A} (messages : list Message) (a : A) : C (A * list Notice) := fun c =>
  let! notices := process_notices messages in Val (Ok (a, notices), c).

Definition exec_locked (query : list Z) : C (Z * list Notice) :=
  let+ messages := simple_query oc um query in
  with_notices messages (affected_rows messages 0).

Definition exec (poison : bool) (query : list Z) : C (Z * list Notice) :=
  lock_connection poison (exec_locked query).

Definition try_exec (lock : Lock) (query : list Z) : C (option (Z * list Notice)) :=
  match lock with
  | Unlocked => let+ r := exec_locked query in cret (Some r)
  | Held => cret None
  | Poisoned => cfail poisoned
  end.

Definition batch_execute (poison : bool) (query : list Z) : C (unit * list Notice) :=
  lock_connection poison (let+ messages := simple_query oc um query in with_notices messages tt).

(** The loop of [query]: rows before a description are dropped. *)
Fixpoint rows_loop (messages : list Message) (columns : option (list Column)) (rows : list ClientRow.t) :
    outcome (result (list ClientRow.t) Error) :=
  match messages with
  | [] => Val (Ok rows)
  | RowDescription desc :: messages =>
      let! cols := columns_of desc in rows_loop messages (Some cols) rows
  | DataRow data :: messages =>
      match columns with
      | Some cols =>
          let! r := ClientRow.new cols data in
          match r with
          | Ok row => rows_loop messages columns (rows ++ [row])
          | Err e => Val (Err e)
          end
      | None => rows_loop messages columns rows
      end
  | _ :: messages => rows_loop messages columns rows
  end.

Definition query (poison : bool) (text : list Z) : C (list ClientRow.t * list Notice) :=
  lock_connection poison
    (let+ messages := simple_query oc um text in
     fun c =>
       let! notices := process_notices messages in
       let! r := rows_loop messages None [] in
       match r with
       | Ok rows => Val (Ok (rows, notices), c)
       | Err e => Val (Err e, c)
       end).

Definition data_of (m : Message) : option DataRowBody.t :=
  match m with
  | DataRow data => Some data
  | _ => None
  end.

Definition query_fast (poison : bool) (text : list Z) : C (list StreamRow.t * list Notice) :=
  lock_connection poison
    (let+ messages := query_binary oc um text in with_notices messages (omap data_of messages)).

(** Sending one at the end of the program. *)
Definition close (poison : bool) : C unit := lock_connection poison terminate.

(** ** Result streams *)

(** [stream_conn] tells whether the stream still holds the connection. A stream of a
    prepared statement knows its columns from the start: it has them as its schema,
    marked as read, so that it ignores descriptions. *)
Record QueryStream : Type := mk_query_stream {
  stream_conn : bool;
  finished : bool;
  chunk_size : nat;
  stream_schema : option (list Column);
  schema_read : bool;
}.

Definition with_schema (columns : list Column) (s : QueryStream) : QueryStream :=
  mk_query_stream (stream_conn s) (finished s) (chunk_size s) (Some columns) true.

(** [self.finished = true; self.conn = None]. *)
Definition finish_stream (s : QueryStream) : QueryStream :=
  mk_query_stream false true (chunk_size s) (stream_schema s) (schema_read s).

Definition query_streaming (poison : bool) (text : list Z) (chunk_size : nat) : C QueryStream :=
  lock_connection poison
    (let+ _ := start_query_binary oc text in
     cret (mk_query_stream true false (chunk_size `max` 1) None false)).

(** [PreparedQueryStream::new]. *)
Definition prepared_stream (chunk_size : nat) (columns : list Column) : QueryStream :=
  mk_query_stream true false (chunk_size `max` 1) (Some columns) true.

(** A method of a stream. *)
Definition OnStream (A : Type) : Type :=
  QueryStream -> RawConnection -> outcome (result A Error * QueryStream * RawConnection).

Definition stream_end (rows : list StreamRow.t) : option (list StreamRow.t) :=
  match rows with
  | [] => None
  | _ => Some rows
  end.

(** [while rows.len() < self.chunk_size]. *)
Fixpoint chunk_loop (fuel : nat) (rows : list StreamRow.t) : OnStream (option (list StreamRow.t)) := fun s c =>
  match fuel with
  | O => Panic
  | S fuel =>
      if (length rows <? chunk_size s)%nat then
        let! r := read_message um c in
        match r with
        | (Err e, c) => Val (Err e, s, c)
        | (Ok msg, c) =>
            match msg with
            | RowDescription desc =>
                if schema_read s then chunk_loop fuel rows s c
                else let! cols := columns_of desc in chunk_loop fuel rows (with_schema cols s) c
            | DataRow data =>
                let rows := rows ++ [data] in
                if (chunk_size s <=? length rows)%nat then Val (Ok (Some rows), s, c)
                else chunk_loop fuel rows s c
            | ReadyForQuery _ => Val (Ok (stream_end rows), finish_stream s, c)
            | ErrorResponse body =>
                let! r := consume_error um body c in
                match r with
                | (Ok err, c) => Val (Err err, finish_stream s, c)
                | (Err e, c) => Val (Err e, finish_stream s, c)
                end
            | _ => chunk_loop fuel rows s c
            end
        end
      else Val (Ok (Some rows), s, c)
  end.

Definition next_chunk : OnStream (option (list StreamRow.t)) := fun s c =>
  if finished s then Val (Ok None, s, c)
  else if negb (stream_conn s) then Val (Ok None, s, c)
  else chunk_loop (budget c) [] s c.

Fixpoint drain_loop (fuel : nat) : OnStream unit := fun s c =>
  match fuel with
  | O => Panic
  | S fuel =>
      let! r := read_message um c in
      match r with
      | (Err e, c) => Val (Err e, s, c)
      | (Ok msg, c) =>
          match msg with
          | ReadyForQuery _ => Val (Ok tt, finish_stream s, c)
          | ErrorResponse body =>
              let! r := consume_error um body c in
              match r with
              | (Ok err, c) => Val (Err err, finish_stream s, c)
              | (Err e, c) => Val (Err e, finish_stream s, c)
              end
          | _ => drain_loop fuel s c
          end
      end
  end.

Definition drain_to_ready : OnStream unit := fun s c =>
  if finished s then Val (Ok tt, s, c)
  else if negb (stream_conn s) then Val (Ok tt, s, c)
  else drain_loop (budget c) s c.

Definition POST_CANCEL_DRAIN_CAP : Z := 1024.

(** [self.canceller.cancel()]: the canceller of a stream is the client of its
    connection. *)
Definition send_cancel (c : RawConnection) : RawConnection :=
  let s := stream c in
  mk_conn (mk_stream (Connection.reads s) (writes s) (sent s) (cancels s ++ [Connection.reads s])) (read_buf c) (write_buf c) (desynchronized c).

(** [Drop] of both kinds of stream: the query is cancelled, then what the server still
    sends is discarded. *)
Definition drop_stream (s : QueryStream) : RawConnection -> outcome RawConnection := fun c =>
  if finished s then Val c
  else let c := send_cancel c in
  if stream_conn s then
    let! r := drain_abandoned_stream um POST_CANCEL_DRAIN_CAP ABANDONED_STREAM_MAX_DATA_ROWS c in
    Val r.2
  else Val c.
End client.

(** ** Prepared statements ([client/prepare.rs]) *)

Record PreparedStatement : Type := mk_prepared {
  ps_name : list Z;
  ps_query : list Z;
  ps_param_types : list Z;
  ps_columns : list Column;
}.

(** The process-wide counter is passed and returned by what uses it. *)
Definition generate_statement_name (counter : Z) : list Z * Z :=
  (str "__hyper_stmt_" ++ fmt_u counter, wrap_u 64 (counter + 1)).

(** The type of every parameter that parses. *)
Fixpoint parameters_loop (fuel : nat) (it : Parameters.t) (oids : list Z) : outcome (list Z) :=
  match fuel with
  | O => Panic
  | S fuel =>
      let! r := Parameters.next it in
      match r with
      | (None, _) => Val oids
      | (Some (Ok oid), it) => parameters_loop fuel it (oids ++ [oid])
      | (Some (Err _), it) => parameters_loop fuel it oids
      end
  end.

Definition parameters_of (desc : ParameterDescriptionBody.t) : outcome (list Z) :=
  parameters_loop (S (Z.to_nat (ParameterDescriptionBody.len desc))) (Parameters.parameters desc) [].

Section prepared.
Context (oc : bool) (um : Z).

(** The loops of this file: read until [ReadyForQuery]; an error of the server is
    consumed and returned; [step] takes in every other message, and its error
    returns at once. *)
Fixpoint response_loop {A} (step : A -> Message -> outcome (result A Error)) (fuel : nat) (acc : A) : C A := fun c =>
  match fuel with
  | O => Panic
  | S fuel =>
      (let+ msg := read_message um in
       match msg with
       | ReadyForQuery _ => cret acc
       | ErrorResponse body => let+ err := consume_error um body in cfail err
       | _ => fun c =>
           let! r := step acc msg in
           match r with
           | Ok acc => response_loop step fuel acc c
           | Err e => Val (Err e, c)
           end
       end) c
  end.

(** The requests of each function, written and flushed. *)
Definition send_prepare (name query : list Z) (param_types : list Z) : C unit :=
  let+ _ := emit (Frontend.parse oc name query param_types) in
  let+ _ := emit (Frontend.describe oc 83 name) in
  let+ _ := emit (fun buf => Val (Frontend.sync buf)) in
  flush.

Definition send_execute (name : list Z) (param_formats : list Z) (params : list (option (list Z)))
    (result_formats : list Z) : C unit :=
  let+ _ := emit (Frontend.bind oc [] name param_formats params result_formats) in
  let+ _ := emit (Frontend.execute oc [] 0) in
  let+ _ := emit (fun buf => Val (Frontend.sync buf)) in
  flush.

Definition send_close (name : list Z) : C unit :=
  let+ _ := emit (Frontend.close oc 83 name) in
  let+ _ := emit (fun buf => Val (Frontend.sync buf)) in
  flush.

(** The parameter types and the columns the server describes. *)
Definition describe_step (acc : list Z * list Column) (msg : Message) :
    outcome (result (list Z * list Column) Error) :=
  match msg with
  | ParameterDescription desc => let! oids := parameters_of desc in Val (Ok (acc.1 ++ oids, acc.2))
  | RowDescription desc => let! cols := columns_of desc in Val (Ok (acc.1, acc.2 ++ cols))
  | _ => Val (Ok acc)
  end.

Definition prepare (poison : bool) (counter : Z) (query : list Z) (param_types : list Z) :
    RawConnection -> outcome (result PreparedStatement Error * RawConnection * Z) := fun c =>
  let '(name, counter) := generate_statement_name counter in
  let! r := lock_connection poison
    (let+ _ := send_prepare name query param_types in
     let+ acc := (fun c => response_loop describe_step (budget c) ([], []) c) in
     cret (mk_prepared name query acc.1 acc.2)) c in
  Val (r.1, r.2, counter).

Definition rows_step (columns : list Column) (rows : list ClientRow.t) (msg : Message) :
    outcome (result (list ClientRow.t) Error) :=
  match msg with
  | DataRow data =>
      let! r := ClientRow.new columns data in
      Val (match r with Ok row => Ok (rows ++ [row]) | Err e => Err e end)
  | _ => Val (Ok rows)
  end.

Definition execute_prepared (poison : bool) (statement : PreparedStatement) (params : list (option (list Z))) :
    C (list ClientRow.t) :=
  match bind_format_codes [] (length params) with
  | Err e => cfail e
  | Ok param_formats =>
      lock_connection poison
        (let+ _ := send_execute (ps_name statement) param_formats params
                     (replicate (length (ps_columns statement)) 1) in
         fun c => response_loop (rows_step (ps_columns statement)) (budget c) [] c)
  end.

Definition count_step (affected : Z) (msg : Message) : outcome (result Z Error) :=
  match msg with
  | CommandComplete body =>
      Val (Ok (match command_complete_tag body with
               | Ok tag => match parse_affected_rows tag with Some count => count | None => 0 end
               | Err _ => affected
               end))
  | _ => Val (Ok affected)
  end.

Definition execute_prepared_no_result_with_formats (poison : bool) (statement : PreparedStatement)
    (params : list (option (list Z))) (param_formats : list ParamFormat) : C Z :=
  match bind_format_codes param_formats (length params) with
  | Err e => cfail e
  | Ok codes =>
      lock_connection poison
        (let+ _ := send_execute (ps_name statement) codes params [] in
         fun c => response_loop count_step (budget c) 0 c)
  end.

Definition execute_prepared_no_result (poison : bool) (statement : PreparedStatement)
    (params : list (option (list Z))) : C Z :=
  execute_prepared_no_result_with_formats poison statement params [].

Definition close_statement_internal (poison : bool) (statement : PreparedStatement) : C unit :=
  lock_connection poison
    (let+ _ := send_close (ps_name statement) in
     fun c => response_loop (fun _ _ => Val (Ok tt)) (budget c) tt c).

(** [OwnedPreparedStatement]: [alive] tells whether the connection can still be
    reached. Dropping one logs a failure; a [close] that fails drops it as well, and
    so closes it again. *)
Definition drop_owned (alive poison : bool) (statement : PreparedStatement) : RawConnection -> outcome RawConnection :=
  fun c =>
    if alive then let! r := close_statement_internal poison statement c in Val r.2
    else Val c.

Definition close_owned (alive poison : bool) (statement : PreparedStatement) : C unit := fun c =>
  if alive then
    let! r := close_statement_internal poison statement c in
    match r with
    | (Ok _, c) => Val (Ok tt, c)
    | (Err e, c) => let! c := drop_owned alive poison statement c in Val (Err e, c)
    end
  else Val (Ok tt, c).

Definition execute_streaming_with_formats (poison : bool) (statement : PreparedStatement)
    (params : list (option (list Z))) (param_formats : list ParamFormat) (chunk_size : nat) : C QueryStream :=
  lock_connection poison
    (let+ _ := (match param_formats with
                | [] => start_execute_prepared oc (ps_name statement) params (length (ps_columns statement))
                | _ => start_execute_prepared_with_formats oc (ps_name statement) params param_formats
                         (length (ps_columns statement))
                end) in
     cret (prepared_stream chunk_size (ps_columns statement))).

End prepared.

(** ** Reading a result to its end *)

(** A caller that asks for [calls] chunks, whatever it gets. *)
Fixpoint next_chunks (um : Z) (calls : nat) : QueryStream -> RawConnection ->
    outcome (list (result (option (list StreamRow.t)) Error) * QueryStream * RawConnection) := fun s c =>
  match calls with
  | O => Val ([], s, c)
  | S calls =>
      let! r := next_chunk um s c in
      let '(v, s, c) := r in
      let! rs := next_chunks um calls s c in
      let '(vs, s, c) := rs in
      Val (v :: vs, s, c)
  end.

(** How the response to a query ends. *)
Inductive ending : Type :=
| Completes
| Fails (body : list Z) (after : list Message).

Definition end_bytes (st : Z) (e : ending) : list Z :=
  match e with
  | Completes => encode (ReadyForQuery st)
  | Fails body after => encode (ErrorResponse body) ++ (after ≫= encode) ++ encode (ReadyForQuery st)
  end.

Definition ending_ok (e : ending) : Prop :=
  match e with
  | Completes => True
  | Fails body after => msg_ok (ErrorResponse body) /\ Forall (fun m => msg_ok m /\ not_ready m) after
  end.

(** The connection after the response: in step, or given up when more messages
    follow an error than the drain takes. *)
Definition after_end (um : Z) (e : ending) (c c' : RawConnection) (rest : list Z) : Prop :=
  match e with
  | Completes => receives um c' rest /\ read_only c c'
  | Fails _ after => if (length after <? POST_ERROR_DRAIN_CAP)%nat then receives um c' rest /\ read_only c c'
                     else desynchronized c' = true
  end.

Definition rows_of (ms : list Message) : list StreamRow.t := omap data_of ms.

(** The chunks of [rows]: of [n] rows each, a shorter one at the end of a complete
    result; the rows of a last chunk that an error cuts off are lost. *)
Definition chunked (n : nat) (rows : list StreamRow.t) (e : ending) (chunks : list (list StreamRow.t)) : Prop :=
  match e with
  | Completes =>
      concat chunks = rows /\ Forall (fun ch => (1 <= length ch <= n)%nat) chunks
      /\ forall i ch, chunks !! i = Some ch -> (S i < length chunks)%nat -> length ch = n
  | Fails _ _ =>
      Forall (fun ch => length ch = n) chunks
      /\ exists lost, concat chunks ++ lost = rows /\ (length lost < n)%nat
  end.

(** What a stream learns of a description. *)
Definition learns (s : QueryStream) (m : Message) : QueryStream :=
  match m with
  | RowDescription desc =>
      if schema_read s then s
      else match columns_of desc with Val cols => with_schema cols s | Panic => s end
  | _ => s
  end.

Lemma fields_next_remaining it r it' :
  Fields.next it = Val (Some r, it') -> Fields.remaining it <> 0 /\ Fields.remaining it' = Fields.remaining it - 1.
Proof.
  unfold Fields.next. case_match eqn:Hz; [done |]. apply Z.eqb_neq in Hz. cbn [Fields.buf Fields.remaining].
  repeat (first [case_match; [| by intros [= _ <-]] | case_match; [by intros [= _ <-] |]]).
  all: repeat (first [match goal with |- context [outcome_bind ?m _] => destruct m; cbn [outcome_bind]; [| done] end
                     | case_match]); by intros [= _ <-].
Qed.

Lemma columns_loop_total fuel it acc :
  0 <= Fields.remaining it < Z.of_nat fuel -> exists cols, columns_loop fuel it acc = Val cols.
Proof.
  revert it acc. induction fuel as [| fuel IH]; intros it acc Hr; [lia |]. cbn [columns_loop].
  pose proof (fields_next_no_panic it) as Hp. destruct (Fields.next it) as [[[r |] it'] |] eqn:E; [| by eexists | done].
  cbn [outcome_bind]. apply fields_next_remaining in E as [Hne Heq].
  destruct r as [f | e]; apply IH; lia.
Qed.

Lemma columns_of_total desc : 0 <= RowDescriptionBody.len desc -> exists cols, columns_of desc = Val cols.
Proof. intros H. apply columns_loop_total. cbn. lia. Qed.

Lemma description_total desc : msg_ok (RowDescription desc) -> exists cols, columns_of desc = Val cols.
Proof. destruct desc as [b n]. intros [Hok _]. apply columns_of_total. cbn in *. unfold in_u in Hok. lia. Qed.

Lemma learns_keeps s m :
  stream_conn (learns s m) = stream_conn s /\ finished (learns s m) = finished s
  /\ chunk_size (learns s m) = chunk_size s.
Proof. unfold learns. by repeat case_match. Qed.

Section chunks.
Context (um : Z) (Hu : 2 ^ 32 - 1 <= um).

(** One message of a response. *)
Lemma chunk_loop_step fuel rows s c m tail :
  (length rows < chunk_size s)%nat -> in_response m -> receives um c (encode m ++ tail) ->
  exists c', receives um c' tail /\ read_only c c' /\
    chunk_loop um (S fuel) rows s c =
      match data_of m with
      | Some data =>
          if (chunk_size s <=? length (rows ++ [data]))%nat then Val (Ok (Some (rows ++ [data])), learns s m, c')
          else chunk_loop um fuel (rows ++ [data]) (learns s m) c'
      | None => chunk_loop um fuel rows (learns s m) c'
      end.
Proof.
  intros Hr [Hm Hin] Hc. destruct (read_message_encode um Hu c m tail Hc Hm) as (c' & Hread & Hc' & Hro).
  exists c'. split_and!; [done | done |]. cbn [chunk_loop]. apply Nat.ltb_lt in Hr as ->. rewrite Hread.
  cbn [outcome_bind]. destruct m; try done. cbn [learns data_of]. destruct (schema_read s); [done |].
  by destruct (description_total _ Hm) as [cols ->].
Qed.

(** The messages of a response: up to the row that fills the chunk, or all of them. *)
Lemma chunk_loop_response fuel rows s c ms tail :
  (length rows < chunk_size s)%nat -> (length ms <= fuel)%nat -> Forall in_response ms ->
  receives um c ((ms ≫= encode) ++ tail) ->
  (exists ms1 ms2 c', ms = ms1 ++ ms2 /\ length (rows ++ rows_of ms1) = chunk_size s
     /\ chunk_loop um fuel rows s c = Val (Ok (Some (rows ++ rows_of ms1)), foldl learns s ms1, c')
     /\ receives um c' ((ms2 ≫= encode) ++ tail) /\ read_only c c') \/
  (length (rows ++ rows_of ms) < chunk_size s)%nat /\
  exists c', chunk_loop um fuel rows s c = chunk_loop um (fuel - length ms) (rows ++ rows_of ms) (foldl learns s ms) c'
     /\ receives um c' tail /\ read_only c c'.
Proof.
  intros Hr Hl Hms. revert fuel rows s c Hr Hl.
  induction Hms as [| m ms Hm _ IH]; intros fuel rows s c Hr Hl Hc.
  { right. rewrite app_nil_r, Nat.sub_0_r. split; [done |]. by exists c. }
  destruct fuel as [| fuel]; [simpl in Hl; lia |]. rewrite bind_cons_eq, <- app_assoc in Hc.
  destruct (chunk_loop_step fuel rows s c m _ Hr Hm Hc) as (c1 & Hc1 & Hro & Heq).
  destruct (learns_keeps s m) as (_ & _ & Hsize).
  assert (Hgo : forall rows', (length rows' < chunk_size s)%nat -> rows' ++ rows_of ms = rows ++ rows_of (m :: ms) ->
      (forall ms1, rows' ++ rows_of ms1 = rows ++ rows_of (m :: ms1)) ->
      chunk_loop um (S fuel) rows s c = chunk_loop um fuel rows' (learns s m) c1 ->
      (exists ms1 ms2 c', m :: ms = ms1 ++ ms2 /\ length (rows ++ rows_of ms1) = chunk_size s
         /\ chunk_loop um (S fuel) rows s c = Val (Ok (Some (rows ++ rows_of ms1)), foldl learns s ms1, c')
         /\ receives um c' ((ms2 ≫= encode) ++ tail) /\ read_only c c') \/
      (length (rows ++ rows_of (m :: ms)) < chunk_size s)%nat /\
      exists c', chunk_loop um (S fuel) rows s c
         = chunk_loop um (S fuel - length (m :: ms)) (rows ++ rows_of (m :: ms)) (foldl learns s (m :: ms)) c'
         /\ receives um c' tail /\ read_only c c').
  { intros rows' Hr' Hall Hpre ->.
    destruct (IH fuel rows' (learns s m) c1) as [(ms1 & ms2 & c' & -> & Hlen & Hrun & Hc' & Hro') | (Hlen & c' & Hrun & Hc' & Hro')];
      [by rewrite Hsize | simpl in Hl; lia | done | left | right].
    - exists (m :: ms1), ms2, c'. rewrite <- Hpre, Hlen, Hsize. split_and!; try done. by etransitivity.
    - rewrite <- Hall, <- Hsize. split; [done |]. exists c'. split_and!; [done | done | by etransitivity]. }
  assert (Hrows : forall ms1, rows_of (m :: ms1) = match data_of m with Some d => d :: rows_of ms1 | None => rows_of ms1 end).
  { intros ms1. unfold rows_of. csimpl. by destruct (data_of m). }
  destruct (data_of m) as [d |] eqn:Hd; [| apply (Hgo rows); by rewrite ?Hrows; intros; rewrite ?Hrows].
  rewrite Heq. destruct (Nat.leb_spec (chunk_size s) (length (rows ++ [d]))) as [Hfull | Hnot].
  - left. exists [m], ms, c1. rewrite Hrows. cbn [rows_of omap list_omap foldl].
    split_and!; try done. rewrite length_app in *. simpl in *. lia.
  - rewrite <- Heq. apply (Hgo (rows ++ [d])); try done; intros; by rewrite Hrows, <- app_assoc.
Qed.

(** A stream that has not ended. *)
Definition active (s : QueryStream) : Prop :=
  stream_conn s = true /\ finished s = false /\ (0 < chunk_size s)%nat.

Lemma learns_all s ms :
  stream_conn (foldl learns s ms) = stream_conn s /\ finished (foldl learns s ms) = finished s
  /\ chunk_size (foldl learns s ms) = chunk_size s.
Proof.
  revert s. induction ms as [| m ms IH]; intros s; [done |]. cbn [foldl].
  destruct (IH (learns s m)) as (-> & -> & ->). apply learns_keeps.
Qed.

Context (st : Z) (Hst : in_u 8 st).

Lemma end_not_empty e : (0 < length (end_bytes st e))%nat.
Proof. destruct e; cbn [end_bytes]; rewrite ?length_app; unfold encode; simpl; lia. Qed.

(** The end of a response, with the rows of the chunk so far. *)
Lemma chunk_loop_end fuel rows s c e rest :
  (length rows < chunk_size s)%nat -> ending_ok e -> receives um c (end_bytes st e ++ rest) ->
  exists r c', chunk_loop um (S fuel) rows s c = Val (r, finish_stream s, c') /\ after_end um e c c' rest /\
    match e with
    | Completes => r = Ok (stream_end rows)
    | Fails body _ => exists err, parse_error_response body = Val err /\ r = Err err
    end.
Proof.
  intros Hr He Hc. apply Nat.ltb_lt in Hr. destruct e as [| body after]; cbn [end_bytes ending_ok] in *.
  - destruct (read_message_encode um Hu c _ _ Hc (ready_ok st Hst)) as (c' & Hread & Hc' & Hro).
    exists (Ok (stream_end rows)), c'. split_and!; [| by split | done].
    cbn [chunk_loop]. by rewrite Hr, Hread.
  - destruct He as [He Ha]. rewrite <- !app_assoc in Hc.
    destruct (read_message_encode um Hu c _ _ Hc He) as (c1 & Hread & Hc1 & Hro).
    destruct (consume_error_encode um Hu c1 body after st rest Ha Hst Hc1) as (err & c' & Hp & Hce & _ & Hif).
    exists (Err err), c'. split_and!; [| | by exists err].
    + cbn [chunk_loop]. rewrite Hr, Hread. cbn [outcome_bind]. by rewrite Hce.
    + cbn [after_end]. case_match; [| done]. destruct Hif as [? ?]. split; [done | by etransitivity].
Qed.

Lemma next_chunk_response s c ms e rest :
  active s -> Forall in_response ms -> ending_ok e -> receives um c ((ms ≫= encode) ++ end_bytes st e ++ rest) ->
  (exists ms1 ms2 c', ms = ms1 ++ ms2 /\ length (rows_of ms1) = chunk_size s
     /\ next_chunk um s c = Val (Ok (Some (rows_of ms1)), foldl learns s ms1, c')
     /\ receives um c' ((ms2 ≫= encode) ++ end_bytes st e ++ rest) /\ read_only c c') \/
  (length (rows_of ms) < chunk_size s)%nat /\
  exists r c', next_chunk um s c = Val (r, finish_stream (foldl learns s ms), c') /\ after_end um e c c' rest /\
    match e with
    | Completes => r = Ok (stream_end (rows_of ms))
    | Fails body _ => exists err, parse_error_response body = Val err /\ r = Err err
    end.
Proof.
  intros (Hconn & Hfin & Hsize) Hms He Hc. unfold next_chunk. rewrite Hconn, Hfin. cbn [negb].
  assert (Hfuel : (length ms < budget c)%nat).
  { rewrite (budget_wire um _ _ Hc), length_app. pose proof (length_encode_pos ms). lia. }
  destruct (chunk_loop_response (budget c) [] s c ms _ Hsize ltac:(lia) Hms Hc)
    as [(ms1 & ms2 & c' & -> & Hlen & Hrun & Hc' & Hro) | (Hlen & c1 & Hrun & Hc1 & Hro)];
    [left; by exists ms1, ms2, c' | right; split; [done |]].
  rewrite Hrun. replace (budget c - length ms)%nat with (S (budget c - length ms - 1)) by lia.
  destruct (learns_all s ms) as (_ & _ & Hsz).
  destruct (chunk_loop_end (budget c - length ms - 1) ([] ++ rows_of ms) (foldl learns s ms) c1 e rest)
    as (r & c' & Hend & Hafter & Hr); [by rewrite Hsz | done | done |].
  exists r, c'. split_and!; [done | | done]. destruct e; cbn [after_end] in *; [| case_match; [| done]];
    destruct Hafter as [? ?]; (split; [done | by etransitivity]).
Qed.

Lemma next_chunks_finished j s c :
  finished s = true -> next_chunks um j s c = Val (replicate j (Ok None), s, c).
Proof.
  intros Hf. induction j as [| j IH]; [done |]. cbn [next_chunks]. unfold next_chunk. rewrite Hf.
  cbn [outcome_bind]. by rewrite IH.
Qed.

(** What the last chunk, if any, and the end of the result add. *)
Definition final_result (e : ending) (r : result (option (list StreamRow.t)) Error) : Prop :=
  match e with
  | Completes => r = Ok None
  | Fails body _ => exists err, parse_error_response body = Val err /\ r = Err err
  end.

Lemma chunked_cons n ch rows e chunks :
  (0 < n)%nat -> length ch = n -> chunked n rows e chunks -> chunked n (ch ++ rows) e (ch :: chunks).
Proof.
  intros Hn Hch. destruct e; cbn [chunked concat length].
  - intros (<- & Hf & Hall). split_and!; [done | constructor; [lia | done] |].
    intros [| i] ch' Hi Hlt; [by injection Hi as <- |]. apply (Hall i); [done | lia].
  - intros (Hf & lost & <- & Hl). split; [by constructor |]. exists lost. by rewrite <- app_assoc.
Qed.

Lemma next_chunks_response s c ms e rest :
  active s -> Forall in_response ms -> ending_ok e -> receives um c ((ms ≫= encode) ++ end_bytes st e ++ rest) ->
  exists chunks final, chunked (chunk_size s) (rows_of ms) e chunks /\ final_result e final /\
    forall j, exists s' c', next_chunks um (length chunks + S j) s c
        = Val ((Ok ∘ Some <$> chunks) ++ final :: replicate j (Ok None), s', c')
      /\ finished s' = true /\ stream_schema s' = stream_schema (foldl learns s ms) /\ after_end um e c c' rest.
Proof.
  remember (length ms) as n eqn:Hn. revert s c ms Hn.
  induction (lt_wf n) as [n _ IH]. intros s c ms Hn Hs Hms He Hc.
  destruct (next_chunk_response s c ms e rest Hs Hms He Hc)
    as [(ms1 & ms2 & c1 & -> & Hlen & Hrun & Hc1 & Hro) | (Hlen & r & c1 & Hrun & Hafter & Hr)].
  - apply Forall_app in Hms as [_ Hms2]. destruct (learns_all s ms1) as (H1 & H2 & H3).
    assert (Hne : (0 < length ms1)%nat).
    { destruct ms1; [| simpl; lia]. destruct Hs as (_ & _ & Hsz). simpl in Hlen. lia. }
    destruct (IH (length ms2)) with (s := foldl learns s ms1) (c := c1) (ms := ms2) as (chunks & final & Hch & Hfin & Hj);
      [rewrite Hn, length_app; lia | done | unfold active; by rewrite H1, H2, H3 | done | done | done |].
    exists (rows_of ms1 :: chunks), final. rewrite H3 in Hch. split_and!; [| done |].
    + unfold rows_of in *. rewrite omap_app. apply chunked_cons; try done. by destruct Hs as (_ & _ & ?).
    + intros j. destruct (Hj j) as (s' & c' & Hrun' & Hfs & Hsch & Hafter). exists s', c'.
      cbn [length Nat.add next_chunks]. rewrite Hrun. cbn [outcome_bind]. rewrite Hrun'. cbn [outcome_bind].
      rewrite foldl_app. split_and!; try done.
      destruct e; cbn [after_end] in *; [| case_match; [| done]]; destruct Hafter as [? ?]; (split; [done | by etransitivity]).
  - assert (Hcalls : forall j v, r = v -> next_chunks um (S j) s c
        = Val (v :: replicate j (Ok None), finish_stream (foldl learns s ms), c1)).
    { intros j v <-. cbn [next_chunks]. rewrite Hrun. cbn [outcome_bind]. by rewrite next_chunks_finished. }
    destruct e as [| body after]; cbn [final_result chunked] in *.
    + destruct (rows_of ms) as [| row rows] eqn:Hrows; cbn [stream_end] in Hr.
      * exists [], (Ok None). split_and!; try done. intros j. exists (finish_stream (foldl learns s ms)), c1.
        cbn [length Nat.add fmap list_fmap app]. split_and!; [by apply Hcalls | done | done | by destruct Hafter].
      * exists [row :: rows], (Ok None). split_and!; [| | | done |].
        -- cbn [concat]. by rewrite app_nil_r.
        -- constructor; [simpl in *; lia | done].
        -- intros [| i] ch Hi Hlt; simpl in Hlt; lia.
        -- intros j. exists (finish_stream (foldl learns s ms)), c1. cbn [length Nat.add].
           split_and!; [| done | done | by destruct Hafter]. rewrite (Hcalls (S j) _ Hr). done.
    + destruct Hr as (err & Herr & Hr). exists [], (Err err). split_and!; [done | by exists (rows_of ms) | by exists err |].
      intros j. exists (finish_stream (foldl learns s ms)), c1. split_and!; [| done | done | done].
      cbn [length Nat.add fmap list_fmap app]. by apply Hcalls.
Qed.
End chunks.

Lemma learned_stays s ms : schema_read s = true -> foldl learns s ms = s.
Proof.
  intros Hs. induction ms as [| m ms IH]; [done |]. cbn [foldl]. unfold learns at 2.
  destruct m; try done. by rewrite Hs.
Qed.

(** ** Abandoned streams *)

Section abandoned.
Context (um : Z) (Hu : 2 ^ 32 - 1 <= um).

(** Draining an abandoned result, whatever arrives: it stops behind a
    [ReadyForQuery], or gives the connection up. *)
Lemma drain_abandoned_loop_total fuel other rows max_other max_rows c :
  bounded um c -> (length (wire c) < fuel)%nat ->
  exists b c', drain_abandoned_loop um fuel other rows max_other max_rows c = Val (Ok b, c') /\ moves um c c'
    /\ if b then exists pre st, wire c = pre ++ encode (ReadyForQuery st) ++ wire c'
       else desynchronized c' = true.
Proof.
  revert other rows c. induction fuel as [| fuel IH]; intros other rows c Hc Hl; [lia |].
  cbn [drain_abandoned_loop]. destruct (read_message_total um Hu c Hc) as (r & c1 & Hread & Hm & Hlt).
  rewrite Hread. cbn [outcome_bind].
  assert (Hgo : forall other rows m, r = Ok m -> exists b c', drain_abandoned_loop um fuel other rows max_other max_rows c1 = Val (Ok b, c')
     /\ moves um c c' /\ if b then exists pre st, wire c = pre ++ encode (ReadyForQuery st) ++ wire c' else desynchronized c' = true).
  { intros other' rows' m ->. specialize (Hlt eq_refl).
    destruct (IH other' rows' c1) as (b & c' & -> & Hm' & Hb); [by destruct Hm | lia |].
    exists b, c'. split_and!; [done | by eapply moves_trans |]. destruct b; [| done]. destruct Hb as (pre & st & Hw).
    destruct (read_message_sound um Hu c m c1 Hc Hread) as [_ ->]. exists (encode m ++ pre), st.
    by rewrite Hw, <- app_assoc. }
  assert (Hgive : exists b c', Val (@Ok bool Error false, set_desync c1) = Val (Ok b, c') /\ moves um c c'
     /\ if b then exists pre st, wire c = pre ++ encode (ReadyForQuery st) ++ wire c' else desynchronized c' = true).
  { eexists _, _. split; [done |]. split; [by apply moves_desync | done]. }
  destruct r as [m | e]; [| done].
  assert (Hsound := read_message_sound um Hu c m c1 Hc Hread).
  destruct m; try (case_match; [exact Hgive | by eapply Hgo]).
  exists true, c1. split_and!; [done | done |]. exists [], status. by destruct Hsound as [_ ->].
Qed.

Lemma drain_abandoned_total c max_other max_rows :
  bounded um c ->
  exists b c', drain_abandoned_stream um max_other max_rows c = Val (Ok b, c') /\ moves um c c'
    /\ if b then exists pre st, wire c = pre ++ encode (ReadyForQuery st) ++ wire c'
       else desynchronized c' = true.
Proof.
  intros Hc. apply drain_abandoned_loop_total; [done |]. unfold budget, wire. rewrite length_app. lia.
Qed.

(** What the smaller budget counts. *)
Definition others_of (ms : list Message) : Z := Z.of_nat (length (filter (fun m => data_of m = None) ms)).

Lemma others_of_cons m ms :
  others_of (m :: ms) = (if data_of m is Some _ then 0 else 1) + others_of ms
  /\ Z.of_nat (length (rows_of (m :: ms))) = (if data_of m is Some _ then 1 else 0) + Z.of_nat (length (rows_of ms)).
Proof.
  unfold others_of, rows_of. rewrite filter_cons. csimpl.
  destruct (data_of m); [rewrite decide_False by done | rewrite decide_True by done]; cbn [length]; lia.
Qed.

(** A response within the two budgets is drained. *)
Lemma drain_abandoned_encode fuel other rows max_other max_rows c ms st rest :
  (length ms < fuel)%nat -> Forall (fun m => msg_ok m /\ not_ready m) ms -> in_u 8 st ->
  other + others_of ms <= max_other ->
  rows + Z.of_nat (length (rows_of ms)) <= max_rows ->
  receives um c ((ms ≫= encode) ++ encode (ReadyForQuery st) ++ rest) ->
  exists c', drain_abandoned_loop um fuel other rows max_other max_rows c = Val (Ok true, c')
    /\ receives um c' rest /\ read_only c c'.
Proof.
  intros Hl Hms Hst. revert fuel other rows c Hl.
  induction Hms as [| m ms [Hm Hnr] _ IH]; intros fuel other rows c Hl Ho Hr Hc;
    (destruct fuel as [| fuel]; [simpl in Hl; lia |]); cbn [drain_abandoned_loop].
  - rewrite bind_nil_eq in Hc. destruct (read_message_encode um Hu c _ _ Hc (ready_ok st Hst)) as (c' & -> & Hc' & Hro).
    cbn [outcome_bind]. eauto.
  - rewrite bind_cons_eq, <- app_assoc in Hc.
    destruct (read_message_encode um Hu c _ _ Hc Hm) as (c1 & -> & Hc1 & Hro). cbn [outcome_bind].
    destruct (others_of_cons m ms) as [H1 H2]. rewrite H1 in Ho. rewrite H2 in Hr.
    destruct (data_of m) as [d |] eqn:Hd.
    + destruct m; try done.
      replace (max_rows <? rows + 1) with false by (symmetry; apply Z.ltb_ge; lia).
      destruct (IH fuel other (rows + 1) c1) as (c' & -> & Hc' & Hro'); [simpl in Hl; lia | lia | lia | done |].
      exists c'. split_and!; [done | done | by etransitivity].
    + destruct (IH fuel (other + 1) rows c1) as (c' & Hrun & Hc' & Hro'); [simpl in Hl; lia | lia | lia | done |].
      assert (Hgo : (max_other <? other + 1) = false) by (apply Z.ltb_ge; unfold others_of in Ho; lia).
      exists c'. split_and!; [| done | by etransitivity]. destruct m; try done; by rewrite Hgo.
Qed.

(** One over either budget gives the connection up. *)
Lemma drain_abandoned_over fuel other rows max_other max_rows c ms tail :
  (length ms < fuel)%nat -> Forall (fun m => msg_ok m /\ not_ready m) ms ->
  max_other < other + others_of ms \/ max_rows < rows + Z.of_nat (length (rows_of ms)) ->
  other <= max_other -> rows <= max_rows -> receives um c ((ms ≫= encode) ++ tail) ->
  exists c', drain_abandoned_loop um fuel other rows max_other max_rows c = Val (Ok false, c')
    /\ desynchronized c' = true.
Proof.
  intros Hl Hms. revert fuel other rows c Hl.
  induction Hms as [| m ms [Hm Hnr] _ IH]; intros fuel other rows c Hl Hover Ho Hr Hc.
  { unfold others_of in Hover. cbn in Hover. lia. }
  destruct fuel as [| fuel]; [simpl in Hl; lia |]. cbn [drain_abandoned_loop].
  rewrite bind_cons_eq, <- app_assoc in Hc. destruct (others_of_cons m ms) as [H1 H2]. rewrite H1, H2 in Hover.
  destruct (read_message_encode um Hu c _ _ Hc Hm) as (c1 & -> & Hc1 & _). cbn [outcome_bind].
  simpl in Hl. destruct (data_of m) as [d |] eqn:Hd.
  - destruct m; try done. destruct (Z.ltb_spec max_rows (rows + 1)); [eauto |].
    apply IH; [lia | lia | done | lia | done].
  - assert (Hgo : exists c', (if max_other <? other + 1 then Val (@Ok bool Error false, set_desync c1)
        else drain_abandoned_loop um fuel (other + 1) rows max_other max_rows c1) = Val (Ok false, c')
        /\ desynchronized c' = true).
    { destruct (Z.ltb_spec max_other (other + 1)); [eauto |]. apply IH; [lia | lia | lia | done | done]. }
    by destruct m.
Qed.
End abandoned.

(** ** The properties *)

(** What a stream without a schema has learned at the end. *)
Fixpoint first_schema (ms : list Message) : option (list Column) :=
  match ms with
  | [] => None
  | RowDescription desc :: _ => match columns_of desc with Val cols => Some cols | Panic => None end
  | _ :: ms => first_schema ms
  end.

Lemma learns_first_schema s ms :
  schema_read s = false -> stream_schema s = None -> Forall in_response ms ->
  stream_schema (foldl learns s ms) = first_schema ms.
Proof.
  intros Hs Hn Hms. induction Hms as [| m ms [Hm _] _ IH]; [done |]. cbn [foldl first_schema].
  destruct m; try exact IH. cbn [learns]. rewrite Hs.
  destruct (description_total _ Hm) as [cols Hcols]. by rewrite Hcols, learned_stays.
Qed.

(** C7. A result stream delivers the result of its query. On a healthy connection
    [query_streaming] sends exactly the request, and for a response of any messages,
    cut into reads in any way, the calls of [next_chunk] return its rows in order:
    chunks of [n] rows (one, for [n = 0]), a shorter one at the end, then [None] for
    ever. The schema is that of the first description, the rest of the stream is left
    for the next request. When the response ends in an error, whole chunks come
    first, then the error of the server once; the connection is in step again, or
    given up when 1024 or more messages follow the error. *)
Theorem stream_delivers oc um query n c ms e st rest :
  2 ^ 32 - 1 <= um -> text_fits query -> is_healthy c = true -> accepting c ->
  Forall in_response ms -> ending_ok e -> in_u 8 st ->
  receives um c ((ms ≫= encode) ++ end_bytes st e ++ rest) ->
  exists s c1 chunks final,
    query_streaming oc false query n c = Val (Ok s, c1)
    /\ sent (stream c1) = sent (stream c) ++ write_buf c ++ (binary_request query ≫= frame)
    /\ chunked (n `max` 1) (rows_of ms) e chunks /\ final_result e final
    /\ forall j, exists s' c',
         next_chunks um (length chunks + S j) s c1
           = Val ((Ok ∘ Some <$> chunks) ++ final :: replicate j (Ok None), s', c')
         /\ finished s' = true /\ stream_schema s' = first_schema ms /\ after_end um e c1 c' rest.
Proof.
  intros Hu Hq Hh Ha Hms He Hst Hc.
  destruct (start_query_binary_sends oc query c Hh Ha Hq) as (c1 & Hrun & (Hr & Hb & _ & _ & _ & Hs)).
  apply (receives_same um _ c1) in Hc; [| done | done].
  set (s := mk_query_stream true false (n `max` 1) None false).
  destruct (next_chunks_response um Hu st Hst s c1 ms e rest) as (chunks & final & Hch & Hf & Hj);
    [unfold active, s; cbn; split_and!; [done | done | lia] | done | done | done |].
  exists s, c1, chunks, final. split_and!; [| done | done | done |].
  { unfold query_streaming, lock_connection. by rewrite (cbind_ok _ _ _ _ _ Hrun). }
  intros j. destruct (Hj j) as (s' & c' & Hcalls & Hfin & Hsch & Hafter). exists s', c'.
  by rewrite Hsch, learns_first_schema.
Qed.

(** Three rows by two, in two reads. *)
Lemma stream_delivers_witness :
  let rows := [sample_row; sample_row; sample_row] in
  let c := new (mk_stream [Data (rows ≫= encode); Data (encode (ReadyForQuery 73) ++ [7])] [] [] []) in
  exists s c1 chunks final,
    query_streaming true false [65] 2 c = Val (Ok s, c1) /\ chunked 2 (rows_of rows) Completes chunks
    /\ final_result Completes final.
Proof.
  intros rows c.
  assert (Hrow : in_response sample_row) by (split; [| done]; split; vm_compute; intuition discriminate).
  destruct (stream_delivers true (2 ^ 64 - 1) [65] 2 c rows Completes 73 [7]) as (s & c1 & chunks & final & H).
  - lia.
  - done.
  - done.
  - constructor.
  - by repeat constructor.
  - done.
  - vm_compute. intuition discriminate.
  - unfold receives. split_and!.
    + repeat constructor; vm_compute; discriminate.
    + vm_compute. done.
    + vm_compute. repeat constructor; discriminate.
    + vm_compute. discriminate.
  - exists s, c1, chunks, final. destruct H as (Hrun & _ & Hch & Hf & _). by split_and!.
Defined.

(** *** Cancel requests *)

(** What sends no cancel request. *)
Definition quiet {A} (m : C A) : Prop := forall c r c', m c = Val (r, c') -> cancels (stream c') = cancels (stream c).

Lemma quiet_cret {A} (a : A) : quiet (cret a).
Proof. by intros c r c' [= _ <-]. Qed.

Lemma quiet_cbind {A B} (m : C A) (f : A -> C B) : quiet m -> (forall a, quiet (f a)) -> quiet (cbind m f).
Proof.
  intros Hm Hf c r c'. unfold cbind. destruct (m c) as [[[a | e] c1] |] eqn:E; cbn [outcome_bind]; [| | done].
  - intros H. by rewrite (Hf a c1 r c' H), (Hm c _ _ E).
  - intros [= _ <-]. by rewrite (Hm c _ _ E).
Qed.

Lemma quiet_ensure_healthy : quiet ensure_healthy.
Proof. intros c r c'. unfold ensure_healthy. by destruct (desynchronized c); intros [= _ <-]. Qed.

Lemma quiet_emit f : quiet (emit f).
Proof. intros c r c'. unfold emit. destruct (f (write_buf c)); [| done]. by intros [= _ <-]. Qed.

Lemma quiet_flush : quiet flush.
Proof.
  intros c r c'. unfold flush. destruct (write_buf c) as [| b buf]; [by intros [= _ <-] |].
  unfold cbind at 1, on_stream at 1, write_all. destruct (Connection.writes (stream c)) as [| [[n e] |] ws]; cbn [outcome_bind].
  all: unfold cbind, on_stream, flush_transport; cbn [stream Connection.writes]; try (by intros [= _ <-]).
  destruct ws as [| [[n e] |] ws]; by intros [= _ <-].
Qed.

Lemma quiet_read_message um : quiet (read_message um).
Proof.
  intros c r c'. unfold read_message. destruct (read_loop um _ _) as [[[r' rs] buf] |]; [| done]. by intros [= _ <-].
Qed.

Lemma quiet_drain um n : quiet (drain_until_ready_bounded um n).
Proof.
  induction n as [| n IH]; intros c r c'; cbn [drain_until_ready_bounded]; [by intros [= _ <-] |].
  destruct (read_message um c) as [[[m | e] c1] |] eqn:E; cbn [outcome_bind]; [| | done]; apply quiet_read_message in E; rewrite <- E.
  - destruct m; try apply IH. by intros [= _ <-].
  - by intros [= _ <-].
Qed.

Lemma quiet_consume_error um body : quiet (consume_error um body).
Proof.
  intros c r c'. unfold consume_error. destruct (parse_error_response body) as [e |]; [| done]. cbn [outcome_bind].
  apply quiet_cbind; [apply quiet_drain | intros _; apply quiet_cret].
Qed.

Lemma quiet_drain_abandoned um other rows : quiet (drain_abandoned_stream um other rows).
Proof.
  assert (Hl : forall n k l, quiet (drain_abandoned_loop um n k l other rows)); [| intros c; apply Hl].
  induction n as [| n IH]; intros k l c r c'; cbn [drain_abandoned_loop]; [done |].
  destruct (read_message um c) as [[[m | e] c1] |] eqn:E; cbn [outcome_bind]; [| | done]; apply quiet_read_message in E; rewrite <- E.
  - destruct m; try (destruct (_ <? _); [by intros [= _ <-] | apply IH]). by intros [= _ <-].
  - by intros [= _ <-].
Qed.

Lemma quiet_query_streaming oc poison text n : quiet (query_streaming oc poison text n).
Proof.
  unfold query_streaming, lock_connection. destruct poison; [by intros c r c' [= _ <-] |].
  apply quiet_cbind; [| intros _; apply quiet_cret]. unfold start_query_binary.
  apply quiet_cbind; [apply quiet_ensure_healthy | intros _].
  repeat (apply quiet_cbind; [apply quiet_emit | intros _]). apply quiet_flush.
Qed.

Lemma quiet_next_chunk um s c r s' c' : next_chunk um s c = Val (r, s', c') -> cancels (stream c') = cancels (stream c).
Proof.
  unfold next_chunk. destruct (finished s); [by intros [= _ _ <-] |]. destruct (stream_conn s); [| by intros [= _ _ <-]]. cbn [negb].
  generalize (@nil StreamRow.t) as rows. generalize (budget c) as n. intros n. revert s c.
  induction n as [| n IH]; intros s c rows; cbn [chunk_loop]; [done |]. destruct (_ <? _)%nat; [| by intros [= _ _ <-]].
  destruct (read_message um c) as [[[m | e] c1] |] eqn:E; cbn [outcome_bind]; [| | done]; apply quiet_read_message in E; rewrite <- E;
    [| by intros [= _ _ <-]].
  destruct m; try apply IH.
  - destruct (_ <=? _)%nat; [by intros [= _ _ <-] | apply IH].
  - destruct (consume_error um _ c1) as [[[e | e] c2] |] eqn:E2; cbn [outcome_bind]; [| | done]; apply quiet_consume_error in E2; rewrite <- E2;
      by intros [= _ _ <-].
  - by intros [= _ _ <-].
  - destruct (schema_read s); [apply IH |]. destruct (columns_of _); [| done]. cbn [outcome_bind]. apply IH.
Qed.

(** A stream dropped before its end cancels its query, before it reads on. *)
Lemma drop_stream_cancels um s c c' :
  finished s = false -> drop_stream um s c = Val c' -> cancels (stream c') = cancels (stream c) ++ [Connection.reads (stream c)].
Proof.
  intros Hf. unfold drop_stream. rewrite Hf. destruct (stream_conn s); [| by intros [= <-]].
  destruct (drain_abandoned_stream um _ _ (send_cancel c)) as [[r c1] |] eqn:E; [| done]. cbn [outcome_bind]. intros [= <-].
  by apply quiet_drain_abandoned in E.
Qed.

Lemma drop_stream_total um s c :
  2 ^ 32 - 1 <= um -> bounded um c -> exists c', drop_stream um s c = Val c'.
Proof.
  intros Hu Hb. unfold drop_stream. destruct (finished s); [eauto |]. destruct (stream_conn s); [| eauto].
  destruct (drain_abandoned_total um Hu (send_cancel c) POST_CANCEL_DRAIN_CAP ABANDONED_STREAM_MAX_DATA_ROWS Hb) as (b & c' & -> & _).
  cbn [outcome_bind]. eauto.
Qed.

Lemma length_rows_of ms : (length (rows_of ms) <= length ms)%nat.
Proof. unfold rows_of. induction ms as [| m ms IH]; [done |]. csimpl. destruct (data_of m); simpl; lia. Qed.

(** Dropped before a rest of the response that comes complete. *)
Lemma drop_stream_encode um s c ms st rest :
  2 ^ 32 - 1 <= um -> active s -> is_healthy c = true ->
  Forall (fun m => msg_ok m /\ not_ready m) ms -> in_u 8 st ->
  receives um c ((ms ≫= encode) ++ encode (ReadyForQuery st) ++ rest) ->
  exists c', drop_stream um s c = Val c'
    /\ if (others_of ms <=? 1024) && (Z.of_nat (length (rows_of ms)) <=? 64 * 65536)
       then is_healthy c' = true /\ receives um c' rest /\ sent (stream c') = sent (stream c)
       else is_healthy c' = false.
Proof.
  intros Hu (Hconn & Hfin & _) Hh Hms Hst Hc. unfold drop_stream. rewrite Hfin, Hconn. unfold drain_abandoned_stream.
  assert (Hl : (length ms < budget (send_cancel c))%nat).
  { rewrite (budget_wire um (send_cancel c) _ Hc), length_app. pose proof (length_encode_pos ms). lia. }
  destruct (Z.leb_spec (others_of ms) 1024), (Z.leb_spec (Z.of_nat (length (rows_of ms))) (64 * 65536)); cbn [andb].
  1: { destruct (drain_abandoned_encode um Hu (budget (send_cancel c)) 0 0 POST_CANCEL_DRAIN_CAP ABANDONED_STREAM_MAX_DATA_ROWS (send_cancel c) ms st rest)
         as (c' & -> & Hc' & (_ & Hs & _ & Hd)); try done.
       exists c'. unfold is_healthy in *. split; [done |]. split_and!; [by rewrite Hd | done | done]. }
  all: destruct (drain_abandoned_over um Hu (budget (send_cancel c)) 0 0 POST_CANCEL_DRAIN_CAP ABANDONED_STREAM_MAX_DATA_ROWS (send_cancel c) ms
                   (encode (ReadyForQuery st) ++ rest)) as (c' & -> & Hd);
    [done | done | unfold POST_CANCEL_DRAIN_CAP, ABANDONED_STREAM_MAX_DATA_ROWS; lia | done | done | done |];
    exists c'; unfold is_healthy; by rewrite Hd.
Qed.

(** C28. A stream dropped early leaves no doubt about the connection. Its query is
    cancelled, by one request that is sent before anything more is read. Whatever still
    arrives, the destructor returns, and the connection is then behind a
    [ReadyForQuery] or marked desynchronized; a finished stream touches nothing.
    When the rest of the response comes complete, the connection is healthy and in
    step again exactly if the rest has at most 64 * 65536 rows and at most 1024
    other messages. *)
Theorem stream_dropped um s c :
  2 ^ 32 - 1 <= um -> bounded um c ->
  (exists c', drop_stream um s c = Val c' /\ moves um c c'
     /\ (active s -> is_healthy c' = false \/ exists pre st, wire c = pre ++ encode (ReadyForQuery st) ++ wire c')
     /\ (active s -> cancels (stream c') = cancels (stream c) ++ [Connection.reads (stream c)]))
  /\ (finished s = true -> drop_stream um s c = Val c)
  /\ forall ms st rest, active s -> is_healthy c = true ->
       Forall (fun m => msg_ok m /\ not_ready m) ms -> in_u 8 st ->
       receives um c ((ms ≫= encode) ++ encode (ReadyForQuery st) ++ rest) ->
       exists c', drop_stream um s c = Val c'
         /\ if (others_of ms <=? 1024) && (Z.of_nat (length (rows_of ms)) <=? 64 * 65536)
            then is_healthy c' = true /\ receives um c' rest /\ sent (stream c') = sent (stream c)
            else is_healthy c' = false.
Proof.
  intros Hu Hb. split_and!.
  - destruct (drop_stream_total um s c Hu Hb) as [c' Hd]. exists c'. split; [done |].
    assert (Hcan : active s -> cancels (stream c') = cancels (stream c) ++ [Connection.reads (stream c)])
      by (intros (_ & Hf & _); by apply (drop_stream_cancels um s)).
    revert Hd. unfold drop_stream. destruct (finished s) eqn:Hfin.
    { intros [= <-]. split_and!; [by apply moves_refl | | done]. intros (_ & ? & _). congruence. }
    destruct (stream_conn s) eqn:Hconn; [| intros [= <-]; split_and!; [exact (moves_refl um c Hb) | intros (? & _); congruence | done]].
    destruct (drain_abandoned_total um Hu (send_cancel c) POST_CANCEL_DRAIN_CAP ABANDONED_STREAM_MAX_DATA_ROWS Hb) as (b & c1 & -> & Hm & Hif).
    intros [= <-]. split_and!; [exact Hm | | done]. intros _. unfold is_healthy. destruct b; [right; exact Hif | left; by rewrite Hif].
  - intros Hfin. unfold drop_stream. by rewrite Hfin.
  - intros ms st rest Ha Hh Hms Hst Hc. by apply (drop_stream_encode um s c ms st rest).
Qed.

(** Dropped with a row, the tag and the end of the response to come. *)
Lemma stream_dropped_witness :
  let s := mk_query_stream true false 2 None false in
  let ms := [sample_row; CommandComplete (str "SELECT 1")] in
  exists c', drop_stream (2 ^ 64 - 1) s (new (mk_stream [Data ((ms ≫= encode) ++ encode (ReadyForQuery 73))] [] [] [])) = Val c'
    /\ is_healthy c' = true.
Proof.
  intros s ms. set (c := new _).
  assert (Hc : receives (2 ^ 64 - 1) c ((ms ≫= encode) ++ encode (ReadyForQuery 73) ++ [])).
  { unfold receives. split_and!; [| vm_compute; done | vm_compute; repeat constructor; discriminate | vm_compute; discriminate].
    repeat constructor; vm_compute; discriminate. }
  assert (Hb : bounded (2 ^ 64 - 1) c) by (destruct Hc as (_ & Hw & ? & ?); unfold bounded; by rewrite Hw).
  destruct (stream_dropped (2 ^ 64 - 1) s c ltac:(lia) Hb) as (_ & _ & H).
  assert (Hw : (others_of ms <=? 1024) && (Z.of_nat (length (rows_of ms)) <=? 64 * 65536) = true) by done.
  destruct (H ms 73 []) as (c' & Hrun & Hif).
  - unfold active, s. cbn. split_and!; [done | done | lia].
  - done.
  - repeat (apply Forall_cons_2; [split; [split; [| done] | done] |]); [vm_compute; intuition discriminate | | constructor].
    by refine (bool_decide_eq_true_1 _ _).
  - vm_compute. intuition discriminate.
  - done.
  - rewrite Hw in Hif. destruct Hif as [Hh _]. exists c'. by split.
Defined.

(** ** Prepared statements *)

Definition execute_request (statement : PreparedStatement) (codes : list Z) (params : list (option (list Z)))
    (result_formats : list Z) : list msg :=
  [Bind [] (ps_name statement) codes params result_formats; Execute [] 0; Sync].

Section executing.
Context (oc : bool) (um : Z) (Hu : 2 ^ 32 - 1 <= um).

(** The health of the connection plays no part. *)
Lemma send_execute_sends statement codes params rf c :
  accepting c -> Forall sendable (execute_request statement codes params rf) ->
  exists c', send_execute oc (ps_name statement) codes params rf c = Val (Ok tt, c')
    /\ sends c c' (write_buf c ++ (execute_request statement codes params rf ≫= frame)).
Proof.
  intros Ha Hs. unfold send_execute, execute_request in *. rewrite !bind_cons_eq, bind_nil_eq, app_nil_r.
  apply Forall_cons_1 in Hs as [Hb [He [Hy _]%Forall_cons_1]%Forall_cons_1].
  rewrite (cbind_ok _ _ _ _ _ (emit_frame oc _ _ Hb)), (cbind_ok _ _ _ _ _ (emit_frame oc _ _ He)),
    (cbind_ok _ _ _ _ _ (emit_frame oc _ _ Hy)).
  cbn [write_buf stream read_buf desynchronized]. rewrite <- !app_assoc.
  match goal with |- context [flush ?d] => destruct (flush_sends d Ha) as (c' & -> & Hsend) end.
  by exists c'.
Qed.

(** What the messages of a response make of the accumulator. *)
Fixpoint steps {A} (step : A -> Message -> outcome (result A Error)) (acc : A) (ms : list Message) :
    outcome (result A Error) :=
  match ms with
  | [] => Val (Ok acc)
  | m :: ms => let! r := step acc m in match r with Ok acc => steps step acc ms | Err e => Val (Err e) end
  end.

Lemma response_loop_steps {A} step fuel (acc acc' : A) c ms tail :
  (length ms <= fuel)%nat -> Forall in_response ms -> steps step acc ms = Val (Ok acc') ->
  receives um c ((ms ≫= encode) ++ tail) ->
  exists c', response_loop um step fuel acc c = response_loop um step (fuel - length ms) acc' c'
    /\ receives um c' tail /\ read_only c c'.
Proof.
  intros Hl Hms. revert fuel acc c Hl. induction Hms as [| m ms [Hm Hin] _ IH]; intros fuel acc c Hl Hs Hc.
  { injection Hs as <-. exists c. by rewrite Nat.sub_0_r. }
  destruct fuel as [| fuel]; [simpl in Hl; lia |]. rewrite bind_cons_eq, <- app_assoc in Hc.
  destruct (read_message_encode um Hu c m _ Hc Hm) as (c1 & Hread & Hc1 & Hro).
  cbn [steps] in Hs. destruct (step acc m) as [[acc1 | e] |] eqn:E; try done. cbn [outcome_bind] in Hs.
  destruct (IH fuel acc1 c1) as (c' & Hrun & Hc' & Hro'); [simpl in Hl; lia | done | done |].
  exists c'. split_and!; [| done | by etransitivity].
  change (S fuel - length (m :: ms))%nat with (fuel - length ms)%nat. rewrite <- Hrun. cbn [response_loop]. rewrite (cbind_ok _ _ _ _ _ Hread). destruct m; try done; by rewrite E.
Qed.

(** The message [step] rejects ends the loop where it is. *)
Lemma response_loop_reject {A} step fuel (acc acc' : A) c ms m e tail :
  (length ms < fuel)%nat -> Forall in_response (ms ++ [m]) -> steps step acc ms = Val (Ok acc') ->
  step acc' m = Val (Err e) -> receives um c ((ms ≫= encode) ++ encode m ++ tail) ->
  exists c', response_loop um step fuel acc c = Val (Err e, c') /\ receives um c' tail /\ read_only c c'.
Proof.
  intros Hl [Hms [Hm Hin]%Forall_singleton]%Forall_app Hs He Hc.
  destruct (response_loop_steps step fuel acc acc' c ms _ ltac:(lia) Hms Hs Hc) as (c1 & -> & Hc1 & Hro).
  replace (fuel - length ms)%nat with (S (fuel - length ms - 1)) by lia.
  destruct (read_message_encode um Hu c1 m _ Hc1 Hm) as (c' & Hread & Hc' & Hro').
  exists c'. split_and!; [| done | by etransitivity].
  cbn [response_loop]. rewrite (cbind_ok _ _ _ _ _ Hread). destruct m; try done; by rewrite He.
Qed.

Context (st : Z) (Hst : in_u 8 st).

Definition ends_with {A} (a : A) (e : ending) (r : result A Error) : Prop :=
  match e with
  | Completes => r = Ok a
  | Fails body _ => exists err, parse_error_response body = Val err /\ r = Err err
  end.

Lemma response_loop_encode {A} step (acc acc' : A) c ms e rest :
  Forall in_response ms -> ending_ok e -> steps step acc ms = Val (Ok acc') ->
  receives um c ((ms ≫= encode) ++ end_bytes st e ++ rest) ->
  exists r c', response_loop um step (budget c) acc c = Val (r, c') /\ ends_with acc' e r /\ after_end um e c c' rest.
Proof.
  intros Hms He Hs Hc.
  assert (Hl : (length ms < budget c)%nat).
  { rewrite (budget_wire um _ _ Hc), length_app. pose proof (length_encode_pos ms). lia. }
  destruct (response_loop_steps step _ acc acc' c ms _ (Nat.lt_le_incl _ _ Hl) Hms Hs Hc) as (c1 & -> & Hc1 & Hro).
  replace (budget c - length ms)%nat with (S (budget c - length ms - 1)) by lia. cbn [response_loop].
  destruct e as [| body after]; cbn [end_bytes ending_ok ends_with after_end] in *.
  - destruct (read_message_encode um Hu c1 _ _ Hc1 (ready_ok st Hst)) as (c' & Hread & Hc' & Hro').
    exists (Ok acc'), c'. rewrite (cbind_ok _ _ _ _ _ Hread). split_and!; [done | done | done | by etransitivity].
  - destruct He as [He Ha]. rewrite <- !app_assoc in Hc1.
    destruct (read_message_encode um Hu c1 _ _ Hc1 He) as (c2 & Hread & Hc2 & Hro').
    destruct (consume_error_encode um Hu c2 body after st rest Ha Hst Hc2) as (err & c' & Hp & Hce & _ & Hif).
    exists (Err err), c'. split_and!; [| by exists err |].
    + rewrite (cbind_ok _ _ _ _ _ Hread). by rewrite (cbind_ok _ _ _ _ _ Hce).
    + case_match; [| done]. destruct Hif as [? ?]. split; [done | by do 2 (etransitivity; [done |])].
Qed.
End executing.

(** The tags of a response that are UTF-8. *)
Definition tag_of_message (m : Message) : option (list Z) :=
  match m with
  | CommandComplete body => match command_complete_tag body with Ok tag => Some tag | Err _ => None end
  | _ => None
  end.

Definition count_of (tag : list Z) : Z := default 0 (parse_affected_rows tag).

Lemma count_steps acc ms :
  steps count_step acc ms = Val (Ok (from_option count_of acc (list.last (omap tag_of_message ms)))).
Proof.
  revert acc. induction ms as [| m ms IH]; intros acc; [done |].
  destruct m; try apply IH. cbn [steps count_step outcome_bind]. rewrite IH. csimpl.
  unfold count_of. change (tag_of_message (CommandComplete tag)) with
    (match command_complete_tag tag with Ok t => Some t | Err _ => None end).
  destruct (command_complete_tag tag) as [t |]; [| done].
  rewrite list.last_cons. destruct (list.last (omap tag_of_message ms)) as [t' |]; [done |]. cbn. by destruct (parse_affected_rows t).
Qed.

Definition parses (columns : list Column) (data : DataRowBody.t) (row : ClientRow.t) : Prop :=
  ClientRow.new columns data = Val (Ok row).

Lemma rows_steps columns acc ms rows :
  Forall2 (parses columns) (rows_of ms) rows ->
  steps (rows_step columns) acc ms = Val (Ok (acc ++ rows)).
Proof.
  unfold rows_of. revert acc rows. induction ms as [| m ms IH]; intros acc rows Hrows.
  { apply Forall2_nil_inv_l in Hrows as ->. by rewrite app_nil_r. }
  destruct m; try by apply IH. apply Forall2_cons_inv_l in Hrows as (row & rows' & Hrow & Hrows & ->).
  cbn [steps rows_step]. rewrite Hrow. cbn [outcome_bind]. by rewrite (IH (acc ++ [row]) _ Hrows), <- app_assoc.
Qed.

(** All parameters are binary. *)
Definition all_binary (params : list (option (list Z))) : list Z :=
  match params with
  | [] => []
  | _ => [1]
  end.

Lemma bind_format_codes_binary (params : list (option (list Z))) :
  bind_format_codes [] (length params) = Ok (all_binary params).
Proof. by destruct params. Qed.

(** C35. A prepared statement is executed like a query. On any connection that takes
    what is written, [execute_prepared_no_result] sends exactly Bind, Execute and Sync,
    with every parameter marked binary, and returns the count of the last command tag
    of the response; [execute_prepared] asks for every column in binary and returns
    the rows of the response in order. An error of the server is returned, and the
    connection is behind the response, or given up when 1024 or more messages follow
    the error. *)
Theorem prepared_executes oc um statement params c ms e st rest :
  let codes := all_binary params in
  let columns := ps_columns statement in
  let formats := replicate (length columns) 1 in
  2 ^ 32 - 1 <= um -> accepting c -> Forall in_response ms -> ending_ok e -> in_u 8 st ->
  receives um c ((ms ≫= encode) ++ end_bytes st e ++ rest) ->
  (Forall sendable (execute_request statement codes params []) ->
   exists r c1 c', execute_prepared_no_result oc um false statement params c = Val (r, c')
     /\ sends c c1 (write_buf c ++ (execute_request statement codes params [] ≫= frame))
     /\ ends_with (from_option count_of 0 (list.last (omap tag_of_message ms))) e r /\ after_end um e c1 c' rest)
  /\ forall rows, Forall sendable (execute_request statement codes params formats) ->
     Forall2 (parses columns) (rows_of ms) rows ->
     exists r c1 c', execute_prepared oc um false statement params c = Val (r, c')
       /\ sends c c1 (write_buf c ++ (execute_request statement codes params formats ≫= frame))
       /\ ends_with rows e r /\ after_end um e c1 c' rest.
Proof.
  intros codes columns formats Hu Ha Hms He Hst Hc. split.
  - intros Hs. unfold execute_prepared_no_result, execute_prepared_no_result_with_formats, lock_connection.
    rewrite bind_format_codes_binary. destruct (send_execute_sends oc statement codes params [] c Ha Hs) as (c1 & Hsend & H1).
    assert (Hc1 := H1). destruct Hc1 as (Hr & Hb & _). apply (receives_same um _ c1) in Hc; [| done | done].
    destruct (response_loop_encode um Hu st Hst count_step 0 _ c1 ms e rest Hms He (count_steps 0 ms) Hc)
      as (r & c' & Hrun & Hend & Hafter).
    exists r, c1, c'. split_and!; [| done ..]. by rewrite (cbind_ok _ _ _ _ _ Hsend).
  - intros rows Hs Hrows. unfold execute_prepared, lock_connection.
    rewrite bind_format_codes_binary. destruct (send_execute_sends oc statement codes params formats c Ha Hs) as (c1 & Hsend & H1).
    assert (Hc1 := H1). destruct Hc1 as (Hr & Hb & _). apply (receives_same um _ c1) in Hc; [| done | done].
    destruct (response_loop_encode um Hu st Hst (rows_step columns) [] _ c1 ms e rest Hms He (rows_steps columns [] ms rows Hrows) Hc)
      as (r & c' & Hrun & Hend & Hafter).
    exists r, c1, c'. split_and!; [| done ..]. by rewrite (cbind_ok _ _ _ _ _ Hsend).
Qed.

(** An update of three rows. *)
Definition sample_statement : PreparedStatement := mk_prepared (str "__hyper_stmt_0") [65] [] [].
Definition sample_update : Message := CommandComplete (str "UPDATE 3").

Lemma sample_update_ok : in_response sample_update.
Proof. split; [| done]. split; [| vm_compute; done]. by refine (bool_decide_eq_true_1 _ _). Qed.

Lemma sample_request_ok : Forall sendable (execute_request sample_statement [] [] []).
Proof. repeat constructor; vm_compute; intuition discriminate. Qed.

Definition sample_conn (desync : bool) : RawConnection :=
  mk_conn (mk_stream [Data (encode sample_update ++ encode (ReadyForQuery 73))] [] [] []) [] [] desync.

Lemma sample_receives (desync : bool) :
  receives (2 ^ 64 - 1) (sample_conn desync)
    (([sample_update] ≫= encode) ++ end_bytes 73 Completes ++ []).
Proof.
  unfold receives. split_and!;
    [| vm_compute; done | vm_compute; repeat constructor; discriminate | vm_compute; discriminate].
  repeat constructor; vm_compute; discriminate.
Qed.

Lemma prepared_executes_witness :
  exists r c1 c', execute_prepared_no_result true (2 ^ 64 - 1) false sample_statement []
      (sample_conn false) = Val (r, c')
    /\ ends_with 3 Completes r /\ after_end (2 ^ 64 - 1) Completes c1 c' [].
Proof.
  assert (Hms : Forall in_response [sample_update]) by (constructor; [apply sample_update_ok | constructor]).
  assert (Hst : in_u 8 73) by (vm_compute; intuition discriminate).
  destruct (prepared_executes true (2 ^ 64 - 1) sample_statement [] (sample_conn false) [sample_update] Completes 73 []
              ltac:(lia) (Forall_nil_2 _) Hms I Hst (sample_receives false)) as [H _].
  destruct (H sample_request_ok) as (r & c1 & c' & Hrun & _ & Hend & Hafter). by exists r, c1, c'.
Defined.

(** Executing a prepared statement ignores that the connection is out of step. On a
    connection marked desynchronized a query is refused, but [execute_prepared_no_result]
    sends its request and returns the count of a response left over from an earlier
    one as its own. And [execute_prepared] can leave the connection out of step: at a
    row that does not parse it returns, with the rest of the response unread and the
    connection as healthy as before. *)
Theorem prepared_out_of_step oc um statement params c ms e st rest :
  let codes := all_binary params in
  let columns := ps_columns statement in
  2 ^ 32 - 1 <= um -> accepting c -> Forall in_response ms -> in_u 8 st ->
  receives um c ((ms ≫= encode) ++ end_bytes st e ++ rest) ->
  (is_healthy c = false -> e = Completes -> Forall sendable (execute_request statement codes params []) ->
   (forall query, exists err, exec oc um false query c = Val (Err err, c))
   /\ exists c', execute_prepared_no_result oc um false statement params c
        = Val (Ok (from_option count_of 0 (list.last (omap tag_of_message ms))), c') /\ receives um c' rest)
  /\ forall ms1 data ms2 rows err, ms = ms1 ++ DataRow data :: ms2 ->
     Forall sendable (execute_request statement codes params (replicate (length columns) 1)) ->
     Forall2 (parses columns) (rows_of ms1) rows -> ClientRow.new columns data = Val (Err err) ->
     exists c', execute_prepared oc um false statement params c = Val (Err err, c')
       /\ receives um c' ((ms2 ≫= encode) ++ end_bytes st e ++ rest) /\ is_healthy c' = is_healthy c.
Proof.
  intros codes columns Hu Ha Hms Hst Hc. split.
  - intros Hh -> Hs. split.
    { intros query. unfold is_healthy in Hh. unfold exec, lock_connection, exec_locked, simple_query.
      assert (He : exists err, ensure_healthy c = Val (Err err, c)) by (unfold ensure_healthy; destruct (desynchronized c); [eauto | done]).
      destruct He as [err He]. exists err. unfold cbind. by rewrite He. }
    unfold execute_prepared_no_result, execute_prepared_no_result_with_formats, lock_connection.
    rewrite bind_format_codes_binary. destruct (send_execute_sends oc statement codes params [] c Ha Hs) as (c1 & Hsend & (Hr & Hb & _)).
    apply (receives_same um _ c1) in Hc; [| done | done].
    destruct (response_loop_encode um Hu st Hst count_step 0 _ c1 ms Completes rest Hms I (count_steps 0 ms) Hc)
      as (r & c' & Hrun & -> & (Hc' & _)).
    exists c'. split; [| done]. by rewrite (cbind_ok _ _ _ _ _ Hsend).
  - intros ms1 data ms2 rows err -> Hs Hrows Herr. unfold execute_prepared, lock_connection.
    rewrite bind_format_codes_binary. destruct (send_execute_sends oc statement codes params _ c Ha Hs) as (c1 & Hsend & (Hr & Hb & Hd & _)).
    apply (receives_same um _ c1) in Hc; [| done | done]. rewrite bind_app, bind_cons_eq, <- !app_assoc in Hc.
    rewrite (cons_middle (DataRow data)), app_assoc in Hms. apply Forall_app in Hms as [Hms _].
    assert (Hl : (length ms1 < budget c1)%nat).
    { rewrite (budget_wire um _ _ Hc), length_app. pose proof (length_encode_pos ms1). lia. }
    destruct (response_loop_reject um Hu (rows_step columns) _ [] _ c1 ms1 (DataRow data) err _ Hl Hms
                (rows_steps columns [] ms1 rows Hrows) ltac:(cbn [rows_step]; by rewrite Herr) Hc)
      as (c' & Hrun & Hc' & (_ & _ & _ & Hd')).
    exists c'. unfold is_healthy. rewrite Hd', Hd. split_and!; [| done | done]. by rewrite (cbind_ok _ _ _ _ _ Hsend).
Qed.

(** The count of an abandoned update, on a connection that was given up. *)
