(* ===== verification/Api.v ===== *)
(** * The errors of the API

    [client::Error] of [hyperdb-api-core/src/client/error.rs], whose data is in
    [Connection], and [Error] of [hyperdb-api/src/error.rs], with the conversion of one
    into the other. The texts of an [io::Error], of the [Debug] of a [str] and of a
    [SqlType] are parameters. *)

From stdpp Require Import strings.
From S2P Require Import Prelude Text SqlTypes Backend Connection Rows.

(** ** [client::Error] *)

(** [str::contains]: [t] begins at some position of [s]. *)
Fixpoint contains (s t : list Z) : bool :=
  bool_decide (t `prefix_of` s) || match s with [] => false | _ :: s => contains s t end.

Definition render_detail (message : list Z) (detail : option (list Z)) : list Z :=
  match detail with
  | Some detail => if contains message detail then [] else str ": " ++ detail
  | None => []
  end.

Definition is_ascii_alphanumeric (c : Z) : bool :=
  ((48 <=? c) && (c <=? 57)) || ((65 <=? c) && (c <=? 90)) || ((97 <=? c) && (c <=? 122)).

(** What is behind the last opening parenthesis, if there is one: [message.rfind]. *)
Fixpoint after_last (d : Z) (s : list Z) : option (list Z) :=
  match s with
  | [] => None
  | c :: s =>
      match after_last d s with
      | Some rest => Some rest
      | None => if c =? d then Some s else None
      end
  end.

(** [message[start..].find], and what is before it. *)
Fixpoint up_to (d : Z) (s : list Z) : option (list Z) :=
  match s with
  | [] => None
  | c :: s => if c =? d then Some [] else (cons c) <$> up_to d s
  end.

Definition extract_sqlstate (message : list Z) : option (list Z) :=
  rest ← after_last 40 message;
  inside ← up_to 41 rest;
  let code := trim inside in
  if (length (utf8 code) =? 5)%nat && forallb is_ascii_alphanumeric code then Some code else None.

Section client_errors.
Context (show_io : io_payload -> list Z).

Definition client_message (e : Connection.Error) : list Z :=
  match e with
  | ConnectionError m _ | QueryError m _ _ _ | Connection.Cancelled m _ | Connection.Closed m _ => m
  | Connection.Authentication m | Connection.Protocol m | Connection.Config m | Connection.Tls m
  | Connection.Timeout m | Connection.Conversion m | Connection.FeatureNotSupported m
  | Connection.Other m => m
  | Connection.Io payload => show_io payload
  end.

Definition display_client (e : Connection.Error) : list Z :=
  match e with
  | QueryError m _ detail _ => m ++ render_detail m detail
  | e => client_message e
  end.
End client_errors.

Definition client_detail (e : Connection.Error) : option (list Z) :=
  match e with QueryError _ _ detail _ => detail | _ => None end.

Definition client_hint (e : Connection.Error) : option (list Z) :=
  match e with QueryError _ _ _ hint => hint | _ => None end.

(** The code an error was made with. *)
Definition stored_sqlstate (e : Connection.Error) : option (list Z) :=
  match e with
  | ConnectionError _ s | Connection.Cancelled _ s | Connection.Closed _ s | QueryError _ s _ _ => s
  | _ => None
  end.

Definition client_sqlstate (e : Connection.Error) : option (list Z) :=
  match e with
  | QueryError m None _ _ => extract_sqlstate m
  | e => stored_sqlstate e
  end.

(** ** [Error] *)

(** [OfRow] stands for [Column], [ColumnIndexOutOfBounds] and the [Conversion] errors
    of [Row::try_get], by their parts. *)
Inductive Error : Type :=
| Connection (message : list Z) (source : option io_error) (sqlstate : option (list Z))
| Authentication (message : list Z)
| Tls (message : list Z)
| Server (sqlstate : option (list Z)) (message : list Z) (detail hint : option (list Z))
| Protocol (message : list Z)
| Io (e : io_error)
| Closed (message : list Z) (sqlstate : option (list Z))
| Timeout (message : list Z)
| Cancelled (message : list Z) (sqlstate : option (list Z))
| Conversion (message : list Z)
| Serialization (message : list Z)
| Config (message : list Z)
| FeatureNotSupported (message : list Z)
| InvalidName (message : list Z)
| InvalidTableDefinition (message : list Z)
| NotFound (message : list Z)
| AlreadyExists (message : list Z)
| InvalidOperation (message : list Z)
| OfRow (e : RowError)
| Internal (message : list Z).

Definition sqlstate (e : Error) : option (list Z) :=
  match e with
  | Server s _ _ _ | Connection _ _ s | Closed _ s | Cancelled _ s => s
  | _ => None
  end.

Definition in_parens (s : option (list Z)) : list Z :=
  match s with Some s => str " (" ++ s ++ str ")" | None => [] end.

Definition on_line (name : list Z) (s : option (list Z)) : list Z :=
  match s with Some s => 10 :: name ++ s | None => [] end.

Section errors.
Context (show_io : io_payload -> list Z) (debug_str : list Z -> list Z) (debug_type : SqlType -> list Z).

Definition display_kind (k : ColumnErrorKind) : list Z :=
  match k with
  | Missing => str "column not found"
  | NullValue => str "unexpected NULL"
  | TypeMismatch expected actual =>
      str "type mismatch: expected " ++ expected ++ str ", got "
      ++ match actual with Some t => debug_type t | None => str "<unknown>" end
  end.

Definition display_row_error (e : RowError) : list Z :=
  match e with
  | ColumnFailed name kind => str "column " ++ name ++ str ": " ++ display_kind kind
  | ColumnIndexOutOfBounds idx n =>
      str "column index " ++ fmt_u (Z.of_nat idx) ++ str " out of bounds (row has " ++ fmt_u (Z.of_nat n) ++ str " columns)"
  | OutOfBounds idx name n =>
      str "conversion error: Column index " ++ fmt_u (Z.of_nat idx) ++ str " (" ++ debug_str name ++ str ") out of bounds "
      ++ [8212] ++ str " row has " ++ fmt_u (Z.of_nat n) ++ str " columns"
  | NullOrIncompatible idx name =>
      str "conversion error: Column " ++ fmt_u (Z.of_nat idx) ++ str " (" ++ debug_str name
      ++ str ") is NULL or has incompatible type"
  end.

Definition display (e : Error) : list Z :=
  match e with
  | Connection m _ s => str "connection error" ++ in_parens s ++ str ": " ++ m
  | Authentication m => str "authentication failed: " ++ m
  | Tls m => str "TLS error: " ++ m
  | Server s m detail hint =>
      str "server error" ++ in_parens s ++ str ": " ++ m ++ on_line (str "DETAIL: ") detail ++ on_line (str "HINT: ") hint
  | Protocol m => str "protocol error: " ++ m
  | Io e => str "I/O error: " ++ show_io (payload e)
  | Closed m s => str "connection closed" ++ in_parens s ++ str ": " ++ m
  | Timeout m => str "operation timed out: " ++ m
  | Cancelled m s => str "operation cancelled" ++ in_parens s ++ str ": " ++ m
  | Conversion m => str "conversion error: " ++ m
  | Serialization m => str "serialization error: " ++ m
  | Config m => str "configuration error: " ++ m
  | FeatureNotSupported m => str "feature not supported: " ++ m
  | InvalidName m => str "invalid name: " ++ m
  | InvalidTableDefinition m => str "invalid table definition: " ++ m
  | NotFound m => str "not found: " ++ m
  | AlreadyExists m => str "already exists: " ++ m
  | InvalidOperation m => str "invalid operation: " ++ m
  | OfRow e => display_row_error e
  | Internal m => str "internal error: " ++ m
  end.

(** [From<client::Error>]. *)
Definition from_client (e : Connection.Error) : Error :=
  let chain := display_client show_io e in
  match e with
  | ConnectionError _ s => Connection chain None s
  | Connection.Authentication _ => Authentication chain
  | QueryError m s detail hint => Server s m detail hint
  | Connection.Protocol _ => Protocol chain
  | Connection.Io _ => Connection chain None None
  | Connection.Config _ => Config chain
  | Connection.Tls _ => Tls chain
  | Connection.Timeout _ => Timeout chain
  | Connection.Cancelled _ s => Cancelled chain s
  | Connection.Closed _ s => Closed chain s
  | Connection.Conversion _ => Conversion chain
  | Connection.FeatureNotSupported _ => FeatureNotSupported chain
  | Connection.Other _ => Internal chain
  end.
End errors.

(** ** Lemmas *)

Definition occurs (t s : list Z) : Prop := exists pre post, s = pre ++ t ++ post.

Lemma occurs_here t : occurs t t.
Proof. exists [], []. by rewrite app_nil_r. Qed.

Lemma occurs_front t s post : occurs t s -> occurs t (s ++ post).
Proof. intros (a & b & ->). exists a, (b ++ post). by rewrite <- !app_assoc. Qed.

Lemma occurs_back t s pre : occurs t s -> occurs t (pre ++ s).
Proof. intros (a & b & ->). exists (pre ++ a), b. by rewrite <- !app_assoc. Qed.

#[export] Hint Resolve occurs_here occurs_front occurs_back : core.

Lemma contains_occurs s t : contains s t = true <-> occurs t s.
Proof.
  induction s as [| c s IH]; cbn [contains].
  - rewrite orb_false_r, bool_decide_eq_true. split.
    + intros H. apply prefix_nil_inv in H as ->. exists [], []. done.
    + intros (pre & post & H). symmetry in H. apply app_eq_nil in H as [_ H]. apply app_eq_nil in H as [-> _]. done.
  - rewrite orb_true_iff, bool_decide_eq_true, IH. split.
    + intros [[k ->] | H]; [by exists [], k | by apply (occurs_back t s [c])].
    + intros ([| x pre] & post & H); [left; by exists post | right]. injection H as -> ->. by exists pre, post.
Qed.

Lemma after_last_app d s t : d ∉ t -> after_last d (s ++ d :: t) = Some t.
Proof.
  intros Ht. assert (Hn : after_last d t = None).
  { clear s. induction t as [| c t IH]; [done |]. cbn [after_last]. rewrite not_elem_of_cons in Ht.
    rewrite IH by tauto. destruct (Z.eqb_spec c d); [subst; tauto | done]. }
  induction s as [| c s IH]; cbn [app after_last]; [by rewrite Hn, Z.eqb_refl | by rewrite IH].
Qed.

Lemma up_to_app d s t : d ∉ s -> up_to d (s ++ d :: t) = Some s.
Proof.
  intros Hs. induction s as [| c s IH]; cbn [app up_to]; [by rewrite Z.eqb_refl |].
  rewrite not_elem_of_cons in Hs. destruct (Z.eqb_spec c d); [subst; tauto |]. by rewrite IH by tauto.
Qed.

Lemma alphanumeric_plain c :
  is_ascii_alphanumeric c = true -> is_ascii c /\ c <> 40 /\ c <> 41 /\ is_whitespace c = false.
Proof.
  unfold is_ascii_alphanumeric, is_ascii, is_whitespace. rewrite !orb_true_iff, !andb_true_iff, !Z.leb_le.
  intros H. split_and!; lia.
Qed.

(** A code in parentheses at the end of a message is found. *)
Lemma extract_code pre code :
  length code = 5%nat -> Forall (fun c => is_ascii_alphanumeric c = true) code ->
  extract_sqlstate (pre ++ str " (" ++ code ++ str ")") = Some code.
Proof.
  intros Hl Hc. assert (Hp : Forall (fun c => is_ascii c /\ c <> 40 /\ c <> 41 /\ is_whitespace c = false) code).
  { eapply Forall_impl; [| exact Hc]. apply alphanumeric_plain. }
  change (str " (") with [32; 40]. change (str ")") with [41]. unfold extract_sqlstate.
  replace (pre ++ [32; 40] ++ code ++ [41]) with ((pre ++ [32]) ++ 40 :: (code ++ [41])) by (by rewrite <- !app_assoc).
  rewrite after_last_app; cbn [mbind option_bind].
  2: { rewrite list.elem_of_app, list_elem_of_singleton. intros [H | H]; [| done].
       rewrite list.Forall_forall in Hp. by destruct (Hp _ H) as (_ & ? & _). }
  rewrite up_to_app; cbn [mbind option_bind].
  2: { intros H. rewrite list.Forall_forall in Hp. by destruct (Hp _ H) as (_ & _ & ? & _). }
  rewrite trim_id by (eapply Forall_impl; [| exact Hp]; by intros c (_ & _ & _ & ?)).
  rewrite utf8_ascii by (eapply Forall_impl; [| exact Hp]; by intros c (? & _)). rewrite Hl. cbn [Nat.eqb andb].
  replace (forallb is_ascii_alphanumeric code) with true; [done |].
  symmetry. apply forallb_forall. intros c H. rewrite list.Forall_forall in Hc. apply Hc. by apply list_elem_of_In.
Qed.

(** ** The property *)

(** C38. No error of the client is lost on its way to the caller. Its SQLSTATE is kept
    and its message and its detail are part of the text shown. An error the server reported becomes a [Server] error with
    its code, and the code could be read back from the message alone. But of the
    fields of an error response only severity, code and message arrive: the detail and
    the hint of the [Server] error are always empty. *)
Theorem errors_carried show_io debug_str debug_type e :
  let shown := display show_io debug_str debug_type (from_client show_io e) in
  sqlstate (from_client show_io e) = stored_sqlstate e
  /\ (stored_sqlstate e <> None -> client_sqlstate e = stored_sqlstate e)
  /\ occurs (client_message show_io e) shown
  /\ (forall detail, client_detail e = Some detail -> occurs detail shown)
  /\ forall fs post, Forall error_field_ok fs ->
       parse_error_response ((fs ≫= encode_error_field) ++ 0 :: post) = Val e ->
       exists severity code message, foldl error_field_step error_defaults fs = (severity, code, message)
         /\ from_client show_io e = Server (Some code) (severity ++ str ": " ++ message ++ str " (" ++ code ++ str ")") None None
         /\ (length code = 5%nat -> Forall (fun c => is_ascii_alphanumeric c = true) code ->
              extract_sqlstate (client_message show_io e) = Some code).
Proof.
  intros shown. split_and!.
  - by destruct e.
  - by destruct e as [| | m [s |] | | | | | | | | | |].
  - unfold shown, from_client. destruct e; cbn [display client_message display_client]; auto 10.
  - intros detail Hd. destruct e; try done. cbn [client_detail] in Hd. subst. unfold shown. cbn [from_client display on_line].
    do 4 apply occurs_back. apply occurs_front. exact (occurs_back detail detail (10 :: str "DETAIL: ") (occurs_here _)).
  - intros fs post Hfs. rewrite parse_error_response_encode by done. intros [= <-].
    destruct (foldl error_field_step error_defaults fs) as [[severity code] message]. exists severity, code, message.
    cbn [error_of db from_client client_message]. split_and!; [done | done |]. intros Hl Hc.
    rewrite !app_assoc, <- (app_assoc _ code), <- (app_assoc _ (str " (")). by apply extract_code.
Qed.
