(* ===== verification/Rowsets.v ===== *)
(** * Rowsets: the rows of a query, one at a time

    [Rowset], [RowIterator] and [TypedRowIterator] of [hyperdb-api/src/result.rs] over
    the result streams of [Client], the queries of [hyperdb-api/src/connection.rs] that
    return rows and the statements of [prepared.rs]. The transport is TCP; rowsets of
    Arrow batches are left to the arrow crates. A value that goes out of scope is
    dropped where the source drops it: a rowset first gives its stream up, then the
    statement it guards. *)

From stdpp Require Import strings gmap.
From S2P Require Import Prelude Text SqlTypes Backend Frontend Connection Rows Client Api.

Definition DEFAULT_BINARY_CHUNK_SIZE : nat := Z.to_nat 65536.

Lemma chunk_size_pos : (DEFAULT_BINARY_CHUNK_SIZE `max` 1)%nat = DEFAULT_BINARY_CHUNK_SIZE.
Proof. unfold DEFAULT_BINARY_CHUNK_SIZE. lia. Qed.

Lemma chunk_size_val : Z.of_nat DEFAULT_BINARY_CHUNK_SIZE = 65536.
Proof. done. Qed.

#[global] Opaque DEFAULT_BINARY_CHUNK_SIZE.

(** ** [Rowset] *)

Record Rowset : Type := mk_rowset {
  inner : QueryStream;
  schema_cache : option ResultSchema;
  statement_guard : option PreparedStatement;
}.

Definition rowset_new (stream : QueryStream) : Rowset := mk_rowset stream None None.

Definition with_statement_guard (statement : PreparedStatement) (rs : Rowset) : Rowset :=
  mk_rowset (inner rs) (schema_cache rs) (Some statement).

Fixpoint schema_of_columns (idx : nat) (cols : list Column) : outcome ResultSchema :=
  match cols with
  | [] => Val []
  | col :: cols =>
      let! t := from_oid_and_modifier (column_type_oid col) (column_type_modifier col) in
      let! rest := schema_of_columns (S idx) cols in
      Val (mk_result_column (column_name col) t idx :: rest)
  end.

Definition build_schema (rs : Rowset) : outcome (option ResultSchema) :=
  match stream_schema (inner rs) with
  | Some cols => let! s := schema_of_columns 0 cols in Val (Some s)
  | None => Val None
  end.

Definition rowset_schema (rs : Rowset) : outcome (option ResultSchema) :=
  match schema_cache rs with
  | Some cached => Val (Some cached)
  | None => build_schema rs
  end.

Definition cached_schema (rs : Rowset) : outcome Rowset :=
  match schema_cache rs with
  | Some _ => Val rs
  | None => let! s := build_schema rs in Val (mk_rowset (inner rs) s (statement_guard rs))
  end.

Definition with_stream (s : QueryStream) (rs : Rowset) : Rowset :=
  mk_rowset s (schema_cache rs) (statement_guard rs).

(** What a method of an iterator [I] does to it and to the connection. *)
Definition OnConn (I A : Type) : Type := I -> RawConnection -> outcome (A * I * RawConnection).

Section rowsets.
Context (oc : bool) (um : Z) (show_io : io_payload -> list Z).

Definition rowset_next_chunk : OnConn Rowset (result (option (list Row)) Api.Error) := fun rs c =>
  let! r := next_chunk um (inner rs) c in
  match r with
  | (Err e, s, c) => Val (Err (from_client show_io e), with_stream s rs, c)
  | (Ok None, s, c) => Val (Ok None, with_stream s rs, c)
  | (Ok (Some chunk), s, c) =>
      let! rs := cached_schema (with_stream s rs) in
      Val (Ok (Some ((fun row => mk_row row (schema_cache rs)) <$> chunk)), rs, c)
  end.

Definition drop_rowset (rs : Rowset) (c : RawConnection) : outcome RawConnection :=
  let! c := drop_stream um (inner rs) c in
  match statement_guard rs with
  | Some statement => drop_owned oc um true false statement c
  | None => Val c
  end.

(** ** Iterators *)

Record RowIterator : Type := mk_iterator { rowset : Rowset; current_iter : list Row }.

Definition rows (rs : Rowset) : RowIterator := mk_iterator rs [].

Definition row_next : OnConn RowIterator (option (result Row Api.Error)) := fun it c =>
  match current_iter it with
  | row :: current => Val (Some (Ok row), mk_iterator (rowset it) current, c)
  | [] =>
      let! r := rowset_next_chunk (rowset it) c in
      match r with
      | (Ok (Some (row :: chunk)), rs, c) => Val (Some (Ok row), mk_iterator rs chunk, c)
      | (Ok (Some []), rs, c) => Val (None, mk_iterator rs [], c)
      | (Ok None, rs, c) => Val (None, mk_iterator rs [], c)
      | (Err e, rs, c) => Val (Some (Err e), mk_iterator rs [], c)
      end
  end.

(** [collect::<Result<Vec<_>>>()]: up to the end or the first error. *)
Fixpoint collect_loop {I A} (next : OnConn I (option (result A Api.Error))) (fuel : nat) (acc : list A) :
    OnConn I (result (list A) Api.Error) := fun it c =>
  match fuel with
  | O => Panic
  | S fuel =>
      let! r := next it c in
      match r with
      | (None, it, c) => Val (Ok acc, it, c)
      | (Some (Ok a), it, c) => collect_loop next fuel (acc ++ [a]) it c
      | (Some (Err e), it, c) => Val (Err e, it, c)
      end
  end.

(** A row needs at least a byte of what is still to arrive. *)
Definition collect_iter (it : RowIterator) (c : RawConnection) :
    outcome (result (list Row) Api.Error * RowIterator * RawConnection) :=
  collect_loop row_next (S (length (current_iter it) + budget c)) [] it c.

(** Then the iterator is dropped. *)
Definition collect_rows (rs : Rowset) (c : RawConnection) : outcome (result (list Row) Api.Error * RawConnection) :=
  let! r := collect_iter (rows rs) c in
  let '(v, it, c) := r in
  let! c := drop_rowset (rowset it) c in
  Val (v, c).

(** [iter.map(f).collect()] of what was collected. *)
Fixpoint map_rows {A B} (f : A -> outcome B) (l : list A) : outcome (list B) :=
  match l with
  | [] => Val []
  | a :: l => let! b := f a in let! bs := map_rows f l in Val (b :: bs)
  end.

Definition collect_column {A} (T : RowValue A) (rs : Rowset) (c : RawConnection) :
    outcome (result (list (option A)) Api.Error * RawConnection) :=
  let! r := collect_rows rs c in
  match r with
  | (Ok rows, c) => let! vs := map_rows (fun row => from_row T row 0) rows in Val (Ok vs, c)
  | (Err e, c) => Val (Err e, c)
  end.

Definition collect_column_non_null {A} (T : RowValue A) (rs : Rowset) (c : RawConnection) :
    outcome (result (list A) Api.Error * RawConnection) :=
  let! r := collect_column T rs c in
  match r with
  | (Ok vs, c) => Val (Ok (omap id vs), c)
  | (Err e, c) => Val (Err e, c)
  end.

Definition first_row (rs : Rowset) (c : RawConnection) : outcome (result (option Row) Api.Error * RawConnection) :=
  let! r := rowset_next_chunk rs c in
  let '(v, rs, c) := r in
  let! c := drop_rowset rs c in
  Val (match v with Ok chunk => Ok (chunk ≫= head) | Err e => Err e end, c).

Definition no_rows : Api.Error := Api.Conversion (str "Query returned no rows").
Definition scalar_null : Api.Error := Api.Conversion (str "Scalar query returned NULL").

Definition ok_or {A} (e : Api.Error) (r : result (option A) Api.Error) : result A Api.Error :=
  match r with Ok (Some a) => Ok a | Ok None => Err e | Err e => Err e end.

Definition require_first_row (rs : Rowset) (c : RawConnection) : outcome (result Row Api.Error * RawConnection) :=
  let! r := first_row rs c in Val (ok_or no_rows r.1, r.2).

Definition scalar {A} (T : RowValue A) (rs : Rowset) (c : RawConnection) :
    outcome (result (option A) Api.Error * RawConnection) :=
  let! r := require_first_row rs c in
  match r with
  | (Ok row, c) => let! v := from_row T row 0 in Val (Ok v, c)
  | (Err e, c) => Val (Err e, c)
  end.

Definition require_scalar {A} (T : RowValue A) (rs : Rowset) (c : RawConnection) :
    outcome (result A Api.Error * RawConnection) :=
  let! r := scalar T rs c in Val (ok_or scalar_null r.1, r.2).

(** ** Rows as values: [FromRow] *)

Record FromRow (A : Type) : Type := { decode : RowAccessor -> outcome (result A Api.Error) }.
#[global] Arguments decode {A} _ _.

Record TypedRowIterator : Type := mk_typed {
  typed_rowset : Rowset;
  typed_current : list Row;
  typed_indices : option Indices;
}.

Definition typed_new (rs : Rowset) : TypedRowIterator := mk_typed rs [] None.

Definition get_or_insert (indices : option Indices) : Indices := default ∅ indices.

(** The loop goes around for a chunk without rows. *)
Fixpoint typed_loop {A} (T : FromRow A) (fuel : nat) : OnConn TypedRowIterator (option (result A Api.Error)) := fun it c =>
  match fuel with
  | O => Panic
  | S fuel =>
      match typed_current it with
      | row :: current =>
          let indices := get_or_insert (typed_indices it) in
          let! v := decode T (mk_accessor row indices) in
          Val (Some v, mk_typed (typed_rowset it) current (Some indices), c)
      | [] =>
          let! r := rowset_next_chunk (typed_rowset it) c in
          match r with
          | (Ok (Some chunk), rs, c) =>
              let! indices := match typed_indices it with
                              | Some _ => Val (typed_indices it)
                              | None =>
                                  let! schema := rowset_schema rs in
                                  Val (Some (match schema with Some s => build_indices s | None => ∅ end))
                              end in
              typed_loop T fuel (mk_typed rs chunk indices) c
          | (Ok None, rs, c) => Val (None, mk_typed rs [] (typed_indices it), c)
          | (Err e, rs, c) => Val (Some (Err e), mk_typed rs [] (typed_indices it), c)
          end
      end
  end.

Definition typed_next {A} (T : FromRow A) : OnConn TypedRowIterator (option (result A Api.Error)) := fun it c =>
  typed_loop T (S (budget c)) it c.

(** ** Queries *)

Definition execute_query (query : list Z) (c : RawConnection) : outcome (result Rowset Api.Error * RawConnection) :=
  let! r := query_streaming oc false query DEFAULT_BINARY_CHUNK_SIZE c in
  Val (match r with (Ok s, c) => (Ok (rowset_new s), c) | (Err e, c) => (Err (from_client show_io e), c) end).

Definition on_rowset {A} (f : Rowset -> RawConnection -> outcome (result A Api.Error * RawConnection))
    (r : outcome (result Rowset Api.Error * RawConnection)) : outcome (result A Api.Error * RawConnection) :=
  let! r := r in
  match r with
  | (Ok rs, c) => f rs c
  | (Err e, c) => Val (Err e, c)
  end.

Definition fetch_one (query : list Z) (c : RawConnection) : outcome (result Row Api.Error * RawConnection) :=
  on_rowset require_first_row (execute_query query c).
Definition fetch_optional (query : list Z) (c : RawConnection) : outcome (result (option Row) Api.Error * RawConnection) :=
  on_rowset first_row (execute_query query c).
Definition fetch_all (query : list Z) (c : RawConnection) : outcome (result (list Row) Api.Error * RawConnection) :=
  on_rowset collect_rows (execute_query query c).
Definition fetch_scalar {A} (T : RowValue A) (query : list Z) (c : RawConnection) :
    outcome (result A Api.Error * RawConnection) :=
  on_rowset (require_scalar T) (execute_query query c).
Definition fetch_optional_scalar {A} (T : RowValue A) (query : list Z) (c : RawConnection) :
    outcome (result (option A) Api.Error * RawConnection) :=
  on_rowset (scalar T) (execute_query query c).

Definition query_count (query : list Z) (c : RawConnection) : outcome (result Z Api.Error * RawConnection) :=
  let! r := fetch_optional_scalar i64_row_value query c in
  Val (match r.1 with Ok v => Ok (default 0 v) | Err e => Err e end, r.2).

Definition indices_of (schema : option ResultSchema) : Indices :=
  match schema with Some s => build_indices s | None => ∅ end.

Definition fetch_one_as {A} (T : FromRow A) (query : list Z) (c : RawConnection) :
    outcome (result A Api.Error * RawConnection) :=
  let! r := fetch_one query c in
  match r with
  | (Ok row, c) => let! v := decode T (mk_accessor row (indices_of (schema row))) in Val (v, c)
  | (Err e, c) => Val (Err e, c)
  end.

(** [rows.iter().map(..).collect::<Result<Vec<_>>>()]. *)
Fixpoint decode_all {A} (T : FromRow A) (indices : Indices) (rows : list Row) : outcome (result (list A) Api.Error) :=
  match rows with
  | [] => Val (Ok [])
  | row :: rows =>
      let! v := decode T (mk_accessor row indices) in
      match v with
      | Ok a =>
          let! r := decode_all T indices rows in
          Val (match r with Ok l => Ok (a :: l) | Err e => Err e end)
      | Err e => Val (Err e)
      end
  end.

Definition fetch_all_as {A} (T : FromRow A) (query : list Z) (c : RawConnection) :
    outcome (result (list A) Api.Error * RawConnection) :=
  let! r := fetch_all query c in
  match r with
  | (Ok rows, c) =>
      let! v := decode_all T (indices_of (head rows ≫= schema)) rows in Val (v, c)
  | (Err e, c) => Val (Err e, c)
  end.

Definition join_lines (lines : list (list Z)) : list Z :=
  match lines with
  | [] => []
  | line :: lines => line ++ (lines ≫= fun l => 10 :: l)
  end.

(** The loop over [rows], which the error leaves with the iterator dropped; [analyze]
    is [explain_analyze]. *)
Definition explain (analyze : bool) (query : list Z) (c : RawConnection) :
    outcome (result (list Z) Api.Error * RawConnection) :=
  let! r := fetch_all ((if analyze then str "EXPLAIN ANALYZE " else str "EXPLAIN ") ++ query) c in
  match r with
  | (Ok rows, c) =>
      let! lines := map_rows (fun row => from_row string_row_value row 0) rows in
      Val (Ok (join_lines (omap id lines)), c)
  | (Err e, c) => Val (Err e, c)
  end.

(** [stream_as], collected by its caller. *)
Definition stream_as {A} (T : FromRow A) (query : list Z) (c : RawConnection) :
    outcome (result (list A) Api.Error * RawConnection) :=
  on_rowset (fun rs c =>
    let! r := collect_loop (typed_next T) (S (budget c)) [] (typed_new rs) c in
    let '(v, it, c) := r in
    let! c := drop_rowset (typed_rowset it) c in
    Val (v, c)) (execute_query query c).

(** ** Prepared statements ([prepared.rs]) and parameters *)

(** What a [ToSqlParam] gives: its type, its bytes ([None] is NULL), their format. *)
Record SqlParam : Type := mk_param { sql_oid : Z; encode_param : option (list Z); param_format : ParamFormat }.

Definition encode_params (params : list SqlParam) : list (option (list Z)) * list ParamFormat :=
  (encode_param <$> params, param_format <$> params).

(** [PreparedStatement::query] and [execute]. *)
Definition prepared_query (statement : PreparedStatement) (params : list SqlParam) (c : RawConnection) :
    outcome (result Rowset Api.Error * RawConnection) :=
  let '(encoded, formats) := encode_params params in
  let! r := execute_streaming_with_formats oc false statement encoded formats DEFAULT_BINARY_CHUNK_SIZE c in
  Val (match r with (Ok s, c) => (Ok (rowset_new s), c) | (Err e, c) => (Err (from_client show_io e), c) end).

Definition prepared_execute (statement : PreparedStatement) (params : list SqlParam) (c : RawConnection) :
    outcome (result Z Api.Error * RawConnection) :=
  let '(encoded, formats) := encode_params params in
  let! r := execute_prepared_no_result_with_formats oc um false statement encoded formats c in
  Val (match r with (Ok n, c) => (Ok n, c) | (Err e, c) => (Err (from_client show_io e), c) end).

(** [Connection::prepare_typed], with the process-wide counter. *)
Definition prepare_typed (counter : Z) (query : list Z) (oids : list Z) (c : RawConnection) :
    outcome (result PreparedStatement Api.Error * RawConnection * Z) :=
  let! r := prepare oc um false counter query oids c in
  let '(v, c, counter) := r in
  Val (match v with Ok st => Ok st | Err e => Err (from_client show_io e) end, c, counter).

(** The statement closes when its rowset is dropped, or at once if there is none. *)
Definition query_params (counter : Z) (query : list Z) (params : list SqlParam) (c : RawConnection) :
    outcome (result Rowset Api.Error * RawConnection * Z) :=
  let! r := prepare_typed counter query (sql_oid <$> params) c in
  let '(v, c, counter) := r in
  match v with
  | Err e => Val (Err e, c, counter)
  | Ok statement =>
      let! r := prepared_query statement params c in
      match r with
      | (Ok rs, c) => Val (Ok (with_statement_guard statement rs), c, counter)
      | (Err e, c) => let! c := drop_owned oc um true false statement c in Val (Err e, c, counter)
      end
  end.

(** The statement is dropped in either case. *)
Definition command_params (counter : Z) (query : list Z) (params : list SqlParam) (c : RawConnection) :
    outcome (result Z Api.Error * RawConnection * Z) :=
  let! r := prepare_typed counter query (sql_oid <$> params) c in
  let '(v, c, counter) := r in
  match v with
  | Err e => Val (Err e, c, counter)
  | Ok statement =>
      let! r := prepared_execute statement params c in
      let! c := drop_owned oc um true false statement r.2 in
      Val (r.1, c, counter)
  end.

Definition on_params {A} (f : Rowset -> RawConnection -> outcome (result A Api.Error * RawConnection))
    (r : outcome (result Rowset Api.Error * RawConnection * Z)) : outcome (result A Api.Error * RawConnection * Z) :=
  let! r := r in
  let '(v, c, counter) := r in
  let! r := on_rowset f (Val (v, c)) in
  Val (r, counter).

Definition fetch_one_as_params {A} (T : FromRow A) (counter : Z) (query : list Z) (params : list SqlParam) (c : RawConnection) :
    outcome (result A Api.Error * RawConnection * Z) :=
  on_params (fun rs c =>
    let! r := require_first_row rs c in
    match r with
    | (Ok row, c) => let! v := decode T (mk_accessor row (indices_of (schema row))) in Val (v, c)
    | (Err e, c) => Val (Err e, c)
    end) (query_params counter query params c).

Definition fetch_all_as_params {A} (T : FromRow A) (counter : Z) (query : list Z) (params : list SqlParam) (c : RawConnection) :
    outcome (result (list A) Api.Error * RawConnection * Z) :=
  on_params (fun rs c =>
    let! r := collect_rows rs c in
    match r with
    | (Ok rows, c) => let! v := decode_all T (indices_of (head rows ≫= schema)) rows in Val (v, c)
    | (Err e, c) => Val (Err e, c)
    end) (query_params counter query params c).

(** [stream_as_params], collected by its caller. *)
Definition stream_as_params {A} (T : FromRow A) (counter : Z) (query : list Z) (params : list SqlParam) (c : RawConnection) :
    outcome (result (list A) Api.Error * RawConnection * Z) :=
  on_params (fun rs c =>
    let! r := collect_loop (typed_next T) (S (budget c)) [] (typed_new rs) c in
    let '(v, it, c) := r in
    let! c := drop_rowset (typed_rowset it) c in
    Val (v, c)) (query_params counter query params c).

(** The fetches of a [PreparedStatement]. *)
Definition prepared_fetch_one (statement : PreparedStatement) (params : list SqlParam) (c : RawConnection) :
    outcome (result Row Api.Error * RawConnection) :=
  on_rowset require_first_row (prepared_query statement params c).
Definition prepared_fetch_optional (statement : PreparedStatement) (params : list SqlParam) (c : RawConnection) :
    outcome (result (option Row) Api.Error * RawConnection) :=
  on_rowset first_row (prepared_query statement params c).
Definition prepared_fetch_all (statement : PreparedStatement) (params : list SqlParam) (c : RawConnection) :
    outcome (result (list Row) Api.Error * RawConnection) :=
  on_rowset collect_rows (prepared_query statement params c).
Definition prepared_fetch_scalar {A} (T : RowValue A) (statement : PreparedStatement) (params : list SqlParam)
    (c : RawConnection) : outcome (result A Api.Error * RawConnection) :=
  on_rowset (require_scalar T) (prepared_query statement params c).
Definition prepared_fetch_optional_scalar {A} (T : RowValue A) (statement : PreparedStatement) (params : list SqlParam)
    (c : RawConnection) : outcome (result (option A) Api.Error * RawConnection) :=
  on_rowset (scalar T) (prepared_query statement params c).
End rowsets.

(** ** The schema *)

Lemma array_at_length i n buf l : array_at i n buf = Val l -> length l = n.
Proof.
  unfold array_at, slice_range, slice. case_match eqn:H; [| done]. intros [= <-].
  apply andb_true_iff in H as [Ha%Nat.leb_le Hb%Nat.leb_le]. rewrite length_take, length_drop. lia.
Qed.

Lemma fields_next_modifier it f it' :
  Fields.next it = Val (Some (Ok f), it') -> in_i 32 (Fields.type_modifier f).
Proof.
  unfold Fields.next. destruct (Fields.remaining it =? 0); [done |]. cbn [Fields.buf Fields.remaining].
  destruct (memchr 0 (Fields.buf it)) as [n |]; [| done]. destruct (slice_range 0 n (Fields.buf it)); cbn [outcome_bind]; [| done].
  destruct (str_of a) as [nm | e]; [| done]. destruct (slice_from (n + 1) (Fields.buf it)) as [rest |]; cbn [outcome_bind Fields.buf Fields.remaining]; [| done].
  destruct (length rest <? 18)%nat; [done |].
  repeat (match goal with |- context [outcome_bind ?m _] => destruct m eqn:?; cbn [outcome_bind]; [| done] end).
  intros [= <- _]. cbn [Fields.type_modifier].
  match goal with H : array_at 12%nat 4%nat _ = Val ?l |- _ => apply array_at_length in H as Hl end.
  unfold i_of_be. rewrite Hl. apply wrap_i_range. lia.
Qed.


Lemma columns_loop_modifiers fuel it acc cols :
  Forall (fun col => in_i 32 (column_type_modifier col)) acc -> columns_loop fuel it acc = Val cols ->
  Forall (fun col => in_i 32 (column_type_modifier col)) cols.
Proof.
  revert it acc. induction fuel as [| fuel IH]; intros it acc Hacc; [done |]. cbn [columns_loop].
  destruct (Fields.next it) as [[[[f | e] |] it'] |] eqn:E; cbn [outcome_bind]; [| by apply IH | by intros [= <-] | done].
  apply IH. apply Forall_app. split; [done |]. constructor; [| done]. by apply fields_next_modifier in E.
Qed.

(** A description always gives a schema. *)
Lemma schema_total desc cols idx : columns_of desc = Val cols -> exists s, schema_of_columns idx cols = Val s.
Proof.
  intros H. apply columns_loop_modifiers in H; [| constructor]. revert idx.
  induction H as [| col cols Hc _ IH]; intros idx; cbn [schema_of_columns]; [eauto |].
  destruct (modifier_exact true (column_type_oid col) (column_type_modifier col) Hc) as [(t & -> & _) _]. cbn [outcome_bind].
  destruct (IH (S idx)) as [s ->]. cbn [outcome_bind]. eauto.
Qed.

(** ** Reading a rowset to its end *)

Section collecting.
Context (um : Z) (Hu : 2 ^ 32 - 1 <= um) (show_io : io_payload -> list Z).
Context (st : Z) (Hst : in_u 8 st).

Definition with_schema (sch : ResultSchema) (d : StreamRow.t) : Row := mk_row d (Some sch).

(** Every row of the response [ms] gets the schema [sch]. *)
Definition described (ms : list Message) (sch : ResultSchema) (rs : Rowset) : Prop :=
  schema_cache rs = Some sch \/
  schema_cache rs = None /\ forall ms1 ms2, ms = ms1 ++ ms2 -> rows_of ms1 <> [] ->
    exists cols, stream_schema (foldl learns (inner rs) ms1) = Some cols /\ schema_of_columns 0 cols = Val sch.

(** The first description comes before the first row. *)
Fixpoint described_first (ms : list Message) (cols : list Column) : Prop :=
  match ms with
  | RowDescription desc :: _ => columns_of desc = Val cols
  | [] | DataRow _ :: _ => False
  | _ :: ms => described_first ms cols
  end.

Lemma described_first_known ms cols ms1 ms2 s :
  described_first ms cols -> ms = ms1 ++ ms2 -> rows_of ms1 <> [] -> schema_read s = false ->
  stream_schema (foldl learns s ms1) = Some cols.
Proof.
  intros H -> Hr Hs. revert H Hr. induction ms1 as [| m ms1 IH]; [done |]. cbn [foldl app].
  destruct m; cbn [described_first]; try (intros H Hr; by apply IH). intros H _. cbn [learns].
  by rewrite Hs, H, learned_stays.
Qed.

Lemma cached_schema_known ms1 ms2 sch rs s :
  described (ms1 ++ ms2) sch rs -> rows_of ms1 <> [] -> stream_schema s = stream_schema (foldl learns (inner rs) ms1) ->
  cached_schema (with_stream s rs) = Val (mk_rowset s (Some sch) (statement_guard rs)).
Proof.
  intros [H | [H Hk]] Hr Hs; unfold cached_schema, build_schema, with_stream; cbn [schema_cache inner statement_guard]; rewrite H.
  - by destruct rs.
  - destruct (Hk ms1 ms2 eq_refl Hr) as (cols & Hc & Hsch). by rewrite Hs, Hc, Hsch.
Qed.

Definition result_of (sch : ResultSchema) (ds : list StreamRow.t) (e : ending) (r : result (list Row) Api.Error) : Prop :=
  match e with
  | Completes => r = Ok (with_schema sch <$> ds)
  | Fails body _ => exists err, parse_error_response body = Val err /\ r = Err (from_client show_io err)
  end.

Lemma rowset_chunk rs c ms e rest sch :
  active (inner rs) -> Forall in_response ms -> ending_ok e -> described ms sch rs ->
  receives um c ((ms ≫= encode) ++ end_bytes st e ++ rest) ->
  (exists ms1 ms2 rs' c', ms = ms1 ++ ms2 /\ length (rows_of ms1) = chunk_size (inner rs)
     /\ rowset_next_chunk um show_io rs c = Val (Ok (Some (with_schema sch <$> rows_of ms1)), rs', c')
     /\ inner rs' = foldl learns (inner rs) ms1 /\ schema_cache rs' = Some sch
     /\ statement_guard rs' = statement_guard rs
     /\ receives um c' ((ms2 ≫= encode) ++ end_bytes st e ++ rest) /\ read_only c c') \/
  (length (rows_of ms) < chunk_size (inner rs))%nat /\
  exists v rs' c', rowset_next_chunk um show_io rs c = Val (v, rs', c') /\ finished (inner rs') = true
    /\ statement_guard rs' = statement_guard rs /\ after_end um e c c' rest /\
    match e with
    | Completes => v = Ok (match rows_of ms with [] => None | _ => Some (with_schema sch <$> rows_of ms) end)
        /\ (rows_of ms <> [] -> schema_cache rs' = Some sch)
    | Fails body _ => exists err, parse_error_response body = Val err /\ v = Err (from_client show_io err)
    end.
Proof.
  intros Ha Hms He Hd Hc. assert (Hn := Ha). destruct Hn as (_ & _ & Hn).
  destruct (next_chunk_response um Hu st Hst (inner rs) c ms e rest Ha Hms He Hc)
    as [(ms1 & ms2 & c' & -> & Hlen & Hrun & Hc' & Hro) | (Hlen & r & c' & Hrun & Hafter & Hr)].
  - left. assert (Hne : rows_of ms1 <> []) by (intros E; rewrite E in Hlen; simpl in Hlen; lia).
    exists ms1, ms2. eexists _, c'. split_and!; [done | done | | | | | done | done].
    { unfold rowset_next_chunk. rewrite Hrun. cbn [outcome_bind].
      rewrite (cached_schema_known ms1 ms2 sch rs _ Hd Hne eq_refl). cbn [outcome_bind schema_cache]. done. }
    all: done.
  - right. split; [done |]. unfold rowset_next_chunk. rewrite Hrun. cbn [outcome_bind].
    destruct e as [| body after].
    + subst r. destruct (rows_of ms) as [| row ds] eqn:E; cbn [stream_end].
      * eexists _, _, c'. by split_and!.
      * rewrite <- (app_nil_r ms) in Hd.
        rewrite (cached_schema_known ms [] sch rs (finish_stream _) Hd ltac:(by rewrite E) eq_refl). cbn [outcome_bind schema_cache].
        eexists _, _, c'. by split_and!.
    + destruct Hr as (err & Hp & ->). eexists _, _, c'. split_and!; try done. by exists err.
Qed.

Lemma collect_current fuel acc rs l c :
  collect_loop (row_next um show_io) (length l + fuel) acc (mk_iterator rs l) c
  = collect_loop (row_next um show_io) fuel (acc ++ l) (mk_iterator rs []) c.
Proof.
  revert acc. induction l as [| row l IH]; intros acc; [by rewrite app_nil_r |].
  cbn [length Nat.add collect_loop row_next current_iter outcome_bind rowset]. by rewrite IH, <- app_assoc.
Qed.

Lemma row_next_finished rs c : finished (inner rs) = true ->
  exists rs', row_next um show_io (mk_iterator rs []) c = Val (None, mk_iterator rs' [], c)
    /\ finished (inner rs') = true /\ statement_guard rs' = statement_guard rs.
Proof.
  intros Hf. eexists. unfold row_next, rowset_next_chunk, next_chunk. cbn [current_iter rowset]. rewrite Hf.
  cbn [outcome_bind]. by split_and!.
Qed.

(** A chunk that is not empty, and what comes after it. *)
Lemma collect_chunk fuel acc rs c row l rs' c' :
  rowset_next_chunk um show_io rs c = Val (Ok (Some (row :: l)), rs', c') ->
  collect_loop (row_next um show_io) (length (row :: l) + fuel) acc (mk_iterator rs []) c
  = collect_loop (row_next um show_io) fuel (acc ++ row :: l) (mk_iterator rs' []) c'.
Proof.
  intros H. cbn [length Nat.add collect_loop]. unfold row_next at 1. cbn [current_iter rowset]. rewrite H.
  cbn [outcome_bind]. by rewrite collect_current, <- app_assoc.
Qed.

Lemma rows_of_app ms1 ms2 : rows_of (ms1 ++ ms2) = rows_of ms1 ++ rows_of ms2.
Proof. apply omap_app. Qed.

Lemma collect_response fuel acc rs c ms e rest sch :
  active (inner rs) -> Forall in_response ms -> ending_ok e -> described ms sch rs ->
  (length (rows_of ms) < fuel)%nat -> receives um c ((ms ≫= encode) ++ end_bytes st e ++ rest) ->
  exists r rs' c', collect_loop (row_next um show_io) fuel acc (mk_iterator rs []) c = Val (r, mk_iterator rs' [], c')
    /\ finished (inner rs') = true /\ statement_guard rs' = statement_guard rs /\ after_end um e c c' rest
    /\ match e with
       | Completes => r = Ok (acc ++ (with_schema sch <$> rows_of ms))
       | Fails body _ => exists err, parse_error_response body = Val err /\ r = Err (from_client show_io err)
       end.
Proof.
  remember (length ms) as n eqn:Hn. revert fuel acc rs c ms Hn.
  induction (lt_wf n) as [n _ IH]. intros fuel acc rs c ms Hn Ha Hms He Hd Hfuel Hc.
  destruct (rowset_chunk rs c ms e rest sch Ha Hms He Hd Hc)
    as [(ms1 & ms2 & rs1 & c1 & -> & Hlen & Hrun & Hin & Hcache & Hg & Hc1 & Hro) | (Hlen & v & rs1 & c1 & Hrun & Hf & Hg & Hafter & Hv)].
  - assert (Hne := Ha). destruct Hne as (_ & _ & Hne). rewrite rows_of_app, length_app in Hfuel.
    destruct (rows_of ms1) as [| d ds] eqn:E; [simpl in Hlen; lia |].
    cbn [fmap list_fmap] in Hrun.
    replace fuel with (length (with_schema sch d :: (with_schema sch <$> ds)) + (fuel - length (d :: ds)))%nat
      by (cbn [length]; rewrite length_fmap; simpl in *; lia).
    rewrite (collect_chunk _ acc rs c _ _ _ _ Hrun).
    apply Forall_app in Hms as [_ Hms2]. destruct (learns_all (inner rs) ms1) as (H1 & H2 & H3).
    destruct (IH (length ms2)) with (fuel := (fuel - length (d :: ds))%nat) (acc := acc ++ with_schema sch d :: (with_schema sch <$> ds))
      (rs := rs1) (c := c1) (ms := ms2) as (r & rs' & c' & Hr & Hf & Hg' & Hafter & Hres);
      [| done | | done | done | by left | simpl in *; lia | done |].
    { rewrite Hn, length_app. destruct ms1; [done | simpl; lia]. }
    { unfold active. rewrite Hin, H1, H2, H3. exact Ha. }
    exists r, rs', c'. split_and!; [done | done | congruence | |].
    + destruct e; cbn [after_end] in *; [| case_match; [| done]]; destruct Hafter as [? ?]; (split; [done | by etransitivity]).
    + destruct e; [| done]. rewrite Hres, rows_of_app, E, fmap_app, <- app_assoc. done.
  - assert (Hend : v = Ok None \/ (exists x, v = Err x) ->
      forall r, match v with Ok _ => r = Ok acc | Err x => r = Err x end ->
      collect_loop (row_next um show_io) fuel acc (mk_iterator rs []) c = Val (r, mk_iterator rs1 [], c1)).
    { destruct fuel as [| fuel]; [lia |]. intros Hcase r Hr. cbn [collect_loop]. unfold row_next at 1.
      cbn [current_iter rowset]. rewrite Hrun. destruct Hcase as [-> | [x ->]]; cbn [outcome_bind]; by rewrite Hr. }
    destruct e as [| body after].
    + destruct (rows_of ms) as [| d ds] eqn:E.
      * destruct Hv as [-> _]. exists (Ok acc), rs1, c1. split_and!; [apply Hend; eauto | done | done | done |]. cbn. by rewrite app_nil_r.
      * destruct Hv as [-> _]. cbn [fmap list_fmap] in Hrun.
        replace fuel with (length (with_schema sch d :: (with_schema sch <$> ds)) + S (fuel - S (length (d :: ds))))%nat
          by (cbn [length]; rewrite length_fmap; simpl in *; lia).
        rewrite (collect_chunk _ acc rs c _ _ _ _ Hrun). cbn [collect_loop].
        destruct (row_next_finished rs1 c1 Hf) as (rs2 & -> & Hf2 & Hg2). cbn [outcome_bind].
        eexists _, rs2, c1. split_and!; [done | done | congruence | done | done].
    + destruct Hv as (err & Hp & ->). exists (Err (from_client show_io err)), rs1, c1.
      split_and!; [apply Hend; eauto | done | done | done | by exists err].
Qed.
End collecting.

(** ** Queries *)

Section queries.
Context (oc : bool) (um : Z) (Hu : 2 ^ 32 - 1 <= um) (show_io : io_payload -> list Z).

Definition fresh_stream : QueryStream := mk_query_stream true false DEFAULT_BINARY_CHUNK_SIZE None false.

Lemma fresh_active : active fresh_stream.
Proof. unfold active, fresh_stream. cbn. rewrite <- chunk_size_pos. split_and!; [done | done | lia]. Qed.

Lemma execute_query_sends query c :
  text_fits query -> is_healthy c = true -> accepting c ->
  exists c1, execute_query oc show_io query c = Val (Ok (rowset_new fresh_stream), c1)
    /\ sends c c1 (write_buf c ++ (binary_request query ≫= frame)).
Proof.
  intros Hq Hh Ha. destruct (start_query_binary_sends oc query c Hh Ha Hq) as (c1 & Hrun & Hs).
  exists c1. split; [| done]. unfold execute_query, query_streaming, lock_connection.
  rewrite (cbind_ok _ _ _ _ _ Hrun), chunk_size_pos. done.
Qed.

Lemma described_first_schema ms cols :
  described_first ms cols -> exists sch, schema_of_columns 0 cols = Val sch.
Proof.
  induction ms as [| m ms IH]; [done |]. destruct m; cbn [described_first]; try done. apply schema_total.
Qed.

Lemma fresh_described ms cols sch :
  described_first ms cols -> schema_of_columns 0 cols = Val sch -> described ms sch (rowset_new fresh_stream).
Proof.
  intros Hd Hs. right. split; [done |]. intros ms1 ms2 Heq Hr. exists cols. split; [| done].
  by apply (described_first_known ms cols ms1 ms2).
Qed.

Lemma drop_rowset_finished rs c :
  finished (inner rs) = true -> statement_guard rs = None -> drop_rowset oc um rs c = Val c.
Proof. intros Hf Hg. unfold drop_rowset, drop_stream. by rewrite Hf, Hg. Qed.

(** A query and its response, up to the end. *)
Lemma fetch_all_response query c ms cols sch e st rest :
  text_fits query -> is_healthy c = true -> accepting c ->
  Forall in_response ms -> described_first ms cols -> schema_of_columns 0 cols = Val sch ->
  ending_ok e -> in_u 8 st -> receives um c ((ms ≫= encode) ++ end_bytes st e ++ rest) ->
  exists r c1 c', fetch_all oc um show_io query c = Val (r, c')
    /\ sends c c1 (write_buf c ++ (binary_request query ≫= frame)) /\ after_end um e c1 c' rest
    /\ result_of show_io sch (rows_of ms) e r.
Proof.
  intros Hq Hh Ha Hms Hd Hsch He Hst Hc.
  destruct (execute_query_sends query c Hq Hh Ha) as (c1 & Hrun & Hs).
  assert (Hs1 := Hs). destruct Hs1 as (Hr & Hb & _). apply (receives_same um _ c1) in Hc; [| done | done].
  assert (Hl : (length (rows_of ms) < S (budget c1))%nat).
  { rewrite (budget_wire um _ _ Hc), length_app. pose proof (length_encode_pos ms).
    pose proof (length_rows_of ms). lia. }
  destruct (collect_response um Hu show_io st Hst (S (budget c1)) [] (rowset_new fresh_stream) c1 ms e rest sch
              fresh_active Hms He (fresh_described ms cols sch Hd Hsch) Hl Hc)
    as (r & rs' & c' & Hcol & Hf & Hg & Hafter & Hres).
  exists r, c1, c'. split_and!; [| done | done | by destruct e].
  unfold fetch_all. rewrite Hrun. cbn [on_rowset outcome_bind]. unfold collect_rows, collect_iter, rows.
  cbn [current_iter length Nat.add]. rewrite Hcol. cbn [outcome_bind rowset].
  by rewrite drop_rowset_finished.
Qed.

(** ** Typed streams *)

Section typed.
Context {A : Type} (T : FromRow A).

Lemma decode_all_app indices l1 l2 :
  decode_all T indices (l1 ++ l2) =
  let! v := decode_all T indices l1 in
  match v with
  | Ok a => let! r := decode_all T indices l2 in Val (match r with Ok l => Ok (a ++ l) | Err e => Err e end)
  | Err e => Val (Err e)
  end.
Proof.
  induction l1 as [| row l1 IH]; cbn [app decode_all outcome_bind].
  { destruct (decode_all T indices l2) as [[? | ?] |]; done. }
  destruct (decode T (mk_accessor row indices)) as [[a | e] |]; cbn [outcome_bind]; [| done | done].
  rewrite IH. destruct (decode_all T indices l1) as [[l | e] |]; cbn [outcome_bind]; [| done | done].
  by destruct (decode_all T indices l2) as [[l' | e] |].
Qed.

(** What collecting makes of the rows at hand, given what it makes of the rest. *)
Definition collected (acc : list A) (v : outcome (result (list A) Api.Error))
    (m : outcome (result (list A) Api.Error * TypedRowIterator * RawConnection)) : Prop :=
  match v with
  | Panic => m = Panic
  | Val (Ok l) => exists it c, m = Val (Ok (acc ++ l), it, c) /\ finished (inner (typed_rowset it)) = true
      /\ statement_guard (typed_rowset it) = None
  | Val (Err e) => exists it c, m = Val (Err e, it, c) /\ statement_guard (typed_rowset it) = None /\ bounded um c
  end.

Lemma collected_app fuel acc rs l rest indices c :
  statement_guard rs = None -> bounded um c ->
  (forall acc, collected acc (decode_all T indices rest)
     (collect_loop (typed_next um show_io T) fuel acc (mk_typed rs [] (Some indices)) c)) ->
  collected acc (decode_all T indices (l ++ rest))
    (collect_loop (typed_next um show_io T) (length l + fuel) acc (mk_typed rs l (Some indices)) c).
Proof.
  intros Hg Hb Hrest. revert acc. induction l as [| row l IH]; intros acc; [apply Hrest |].
  cbn [app decode_all length Nat.add collect_loop]. unfold typed_next at 1. cbn [typed_loop typed_current typed_indices typed_rowset].
  change (get_or_insert (Some indices)) with indices. destruct (decode T (mk_accessor row indices)) as [[a | e] |]; cbn [outcome_bind collected]; [| | done].
  - specialize (IH (acc ++ [a])). revert IH.
    destruct (decode_all T indices (l ++ rest)) as [[l' | e] |]; cbn [outcome_bind collected]; [| done | done].
    rewrite <- app_assoc. done.
  - eexists _, c. by split_and!.
Qed.

Lemma typed_next_chunk rs c row l rs' c' sch indices :
  rowset_next_chunk um show_io rs c = Val (Ok (Some (row :: l)), rs', c') -> schema_cache rs' = Some sch ->
  indices = None \/ indices = Some (build_indices sch) ->
  typed_next um show_io T (mk_typed rs [] indices) c
  = typed_next um show_io T (mk_typed rs' (row :: l) (Some (build_indices sch))) c'.
Proof.
  intros Hrun Hs Hi. unfold typed_next. unfold budget at 1. cbn [typed_loop typed_current typed_rowset].
  rewrite Hrun. cbn [outcome_bind].
  assert (Hix : match indices with
     | Some _ => Val indices
     | None => let! schema := rowset_schema rs' in Val (Some (match schema with Some s => build_indices s | None => ∅ end))
     end = Val (Some (build_indices sch))).
  { destruct Hi as [-> | ->]; [| done]. unfold rowset_schema. by rewrite Hs. }
  cbn [typed_indices]. by rewrite Hix.
Qed.

Lemma typed_finished fuel acc rs indices c :
  finished (inner rs) = true -> statement_guard rs = None ->
  collected acc (Val (Ok [])) (collect_loop (typed_next um show_io T) (S fuel) acc (mk_typed rs [] indices) c).
Proof.
  intros Hf Hg. cbn [collect_loop]. unfold typed_next at 1. cbn [typed_loop typed_current typed_rowset].
  unfold rowset_next_chunk at 1, next_chunk at 1. rewrite Hf. cbn [outcome_bind collected].
  eexists _, c. rewrite app_nil_r. by split_and!.
Qed.

Context (st : Z) (Hst : in_u 8 st).

Lemma receives_bounded c bytes : receives um c bytes -> bounded um c.
Proof. intros (_ & Hw & Hb & Hl). unfold bounded. by rewrite Hw. Qed.

(** A chunk that is not empty. *)
Lemma typed_chunk fuel acc rs l rest c rs' c' sch indices :
  rowset_next_chunk um show_io rs c = Val (Ok (Some (with_schema sch <$> l)), rs', c') -> l <> [] ->
  schema_cache rs' = Some sch -> statement_guard rs' = None -> bounded um c' ->
  indices = None \/ indices = Some (build_indices sch) ->
  (forall acc, collected acc (decode_all T (build_indices sch) rest)
     (collect_loop (typed_next um show_io T) fuel acc (mk_typed rs' [] (Some (build_indices sch))) c')) ->
  collected acc (decode_all T (build_indices sch) ((with_schema sch <$> l) ++ rest))
    (collect_loop (typed_next um show_io T) (length l + fuel) acc (mk_typed rs [] indices) c).
Proof.
  intros Hrun Hne Hs Hg Hb Hi Hrest. destruct l as [| d l]; [done |]. cbn [fmap list_fmap] in Hrun.
  assert (Hstep : forall n, collect_loop (typed_next um show_io T) (S n) acc (mk_typed rs [] indices) c
    = collect_loop (typed_next um show_io T) (S n) acc
        (mk_typed rs' (with_schema sch <$> d :: l) (Some (build_indices sch))) c').
  { intros n. cbn [collect_loop]. by rewrite (typed_next_chunk _ _ _ _ _ _ _ _ Hrun Hs Hi). }
  cbn [length Nat.add]. rewrite Hstep.
  pose proof (collected_app fuel acc rs' (with_schema sch <$> d :: l) rest _ c' Hg Hb Hrest) as H.
  rewrite length_fmap in H. exact H.
Qed.

Lemma typed_response fuel acc rs c ms rest sch indices :
  active (inner rs) -> statement_guard rs = None -> Forall in_response ms -> described ms sch rs ->
  indices = None \/ indices = Some (build_indices sch) ->
  (length (rows_of ms) < fuel)%nat -> receives um c ((ms ≫= encode) ++ end_bytes st Completes ++ rest) ->
  collected acc (decode_all T (build_indices sch) (with_schema sch <$> rows_of ms))
    (collect_loop (typed_next um show_io T) fuel acc (mk_typed rs [] indices) c).
Proof.
  remember (length ms) as n eqn:Hn. revert fuel acc rs c ms indices Hn.
  induction (lt_wf n) as [n _ IH]. intros fuel acc rs c ms indices Hn Ha Hg Hms Hd Hi Hfuel Hc.
  assert (Hne := Ha). destruct Hne as (_ & _ & Hne).
  destruct (rowset_chunk um Hu show_io st Hst rs c ms Completes rest sch Ha Hms I Hd Hc)
    as [(ms1 & ms2 & rs1 & c1 & -> & Hlen & Hrun & Hin & Hcache & Hg1 & Hc1 & Hro) | (Hlen & v & rs1 & c1 & Hrun & Hf & Hg1 & Hafter & -> & Hsch)].
  - rewrite rows_of_app, length_app in Hfuel. rewrite rows_of_app, fmap_app.
    replace fuel with (length (rows_of ms1) + (fuel - length (rows_of ms1)))%nat by lia.
    apply Forall_app in Hms as [_ Hms2]. destruct (learns_all (inner rs) ms1) as (H1 & H2 & H3).
    apply (typed_chunk _ _ _ _ _ _ rs1 c1); [done | intros E; rewrite E in Hlen; simpl in Hlen; lia | done | congruence | | done |].
    { by eapply receives_bounded. }
    intros acc'. apply (IH (length ms2)) with (ms := ms2); [| done | | congruence | done | by left | by right | lia | done].
    + rewrite Hn, length_app. destruct ms1; [simpl in Hlen; lia | simpl; lia].
    + unfold active. rewrite Hin, H1, H2, H3. exact Ha.
  - destruct Hafter as [Hc1 _]. destruct (rows_of ms) as [| d ds] eqn:E.
    + destruct fuel as [| fuel]; [lia |]. cbn [fmap list_fmap decode_all collected collect_loop]. unfold typed_next at 1. cbn [typed_loop typed_current typed_rowset].
      rewrite Hrun. cbn [outcome_bind]. eexists _, c1. rewrite app_nil_r. split_and!; [done | done | cbn; congruence].
    + rewrite <- (app_nil_r (with_schema sch <$> d :: ds)).
      replace fuel with (length (d :: ds) + S (fuel - length (d :: ds) - 1))%nat by (cbn [length] in *; lia).
      apply (typed_chunk _ _ _ _ _ _ rs1 c1); [done | done | by apply Hsch | congruence | by eapply receives_bounded | done |].
      intros acc'. apply (typed_finished _ acc' rs1); [done | congruence].
Qed.
End typed.
End queries.

(** ** The properties *)

Definition value_of {A B} (m : outcome (A * B)) : outcome A := let! r := m in Val r.1.

(** C21. Fetching the rows of a query gives the rows the server sent, and typed rows are
    the same by either way. On a healthy connection, for a response that describes its
    columns before its first row, [fetch_all] sends exactly the request, returns every
    row in order with the schema of the description, and leaves the connection behind
    the response; an error of the server is returned instead of the rows. For a
    response without an error, [stream_as], which decodes a row when it is asked for
    and may leave the rest unread, collects the very values, or the first error, that
    [fetch_all_as] returns. *)
Theorem rows_collected oc um show_io query c ms cols e st rest :
  2 ^ 32 - 1 <= um -> text_fits query -> is_healthy c = true -> accepting c ->
  Forall in_response ms -> described_first ms cols -> ending_ok e -> in_u 8 st ->
  receives um c ((ms ≫= encode) ++ end_bytes st e ++ rest) ->
  (exists sch r c1 c', schema_of_columns 0 cols = Val sch /\ fetch_all oc um show_io query c = Val (r, c')
     /\ sends c c1 (write_buf c ++ (binary_request query ≫= frame)) /\ after_end um e c1 c' rest
     /\ result_of show_io sch (rows_of ms) e r)
  /\ forall A (T : FromRow A), e = Completes ->
       value_of (stream_as oc um show_io T query c) = value_of (fetch_all_as oc um show_io T query c).
Proof.
  intros Hu Hq Hh Ha Hms Hd He Hst Hc. destruct (described_first_schema ms cols Hd) as [sch Hsch].
  destruct (fetch_all_response oc um Hu show_io query c ms cols sch e st rest Hq Hh Ha Hms Hd Hsch He Hst Hc)
    as (r & c1 & c' & Hrun & Hs & Hafter & Hres).
  split; [by exists sch, r, c1, c' |]. intros A T ->. cbn [result_of] in Hres. subst r.
  unfold fetch_all_as. rewrite Hrun. cbn [outcome_bind].
  destruct (execute_query_sends oc show_io query c Hq Hh Ha) as (c2 & Hex & (Hr2 & Hb2 & _)).
  apply (receives_same um _ c2) in Hc; [| done | done]. unfold stream_as. rewrite Hex. cbn [on_rowset outcome_bind].
  assert (Hl : (length (rows_of ms) < S (budget c2))%nat).
  { rewrite (budget_wire um _ _ Hc), length_app. pose proof (length_encode_pos ms).
    pose proof (length_rows_of ms). lia. }
  pose proof (typed_response um Hu show_io T st Hst (S (budget c2)) [] (rowset_new fresh_stream) c2 ms rest sch None
    fresh_active eq_refl Hms (fresh_described ms cols sch Hd Hsch) (or_introl eq_refl) Hl Hc) as H.
  assert (Hix : decode_all T (indices_of (head (with_schema sch <$> rows_of ms) ≫= schema)) (with_schema sch <$> rows_of ms)
     = decode_all T (build_indices sch) (with_schema sch <$> rows_of ms)) by (by destruct (rows_of ms)).
  rewrite Hix. unfold typed_new. destruct (decode_all T (build_indices sch) (with_schema sch <$> rows_of ms)) as [[l | err] |];
    cbn [collected outcome_bind] in *.
  - destruct H as (it & c3 & -> & Hf & Hg). cbn [outcome_bind]. by rewrite drop_rowset_finished.
  - destruct H as (it & c3 & -> & Hg & Hb). cbn [outcome_bind]. unfold drop_rowset.
    destruct (drop_stream_total um (inner (typed_rowset it)) c3 Hu Hb) as [c4 ->]. cbn [outcome_bind]. by rewrite Hg.
  - by rewrite H.
Qed.

(** Two rows of one column, described first. *)
Definition sample_description : Message := RowDescription (RowDescriptionBody.mk ([97; 0] ++ replicate 18 0) 1).
Definition sample_response : list Message := [sample_description; sample_row; sample_row].
Definition sample_result : RawConnection :=
  new (mk_stream [Data (sample_response ≫= encode); Data (encode (ReadyForQuery 73))] [] [] []).

Lemma sample_response_ok : Forall in_response sample_response.
Proof. repeat (apply Forall_cons_2; [split; [split; vm_compute; intuition discriminate | done] |]). constructor. Qed.

Lemma all_bytes l : forallb (fun b => (0 <=? b) && (b <? 256)) l = true -> Forall is_byte l.
Proof.
  intros H. rewrite forallb_forall in H. apply list.Forall_forall. intros b Hb%list_elem_of_In. apply H in Hb.
  apply andb_true_iff in Hb. unfold is_byte. lia.
Qed.

Lemma sample_result_receives :
  receives (2 ^ 64 - 1) sample_result ((sample_response ≫= encode) ++ end_bytes 73 Completes ++ []).
Proof.
  unfold receives. split_and!;
    [| by vm_compute | apply all_bytes; by vm_compute | by vm_compute].
  repeat constructor; vm_compute; discriminate.
Qed.

Lemma rows_collected_witness :
  exists sch r c', fetch_all true (2 ^ 64 - 1) (fun _ => []) [65] sample_result = Val (r, c')
    /\ r = Ok [with_schema sch (DataRowBody.mk [0; 0; 0; 1; 65] 1); with_schema sch (DataRowBody.mk [0; 0; 0; 1; 65] 1)].
Proof.
  assert (Hst : in_u 8 73) by (vm_compute; intuition discriminate).
  destruct (rows_collected true (2 ^ 64 - 1) (fun _ => []) [65] sample_result sample_response
              [mk_column [97] 0 0 TextFormat] Completes 73 []
              ltac:(lia) eq_refl eq_refl (Forall_nil_2 _) sample_response_ok eq_refl I Hst sample_result_receives) as [H _].
  destruct H as (sch & r & c1 & c' & _ & Hrun & _ & _ & Hres). exists sch, r, c'. split; [exact Hrun | exact Hres].
Defined.

(** The messages up to [ReadyForQuery]. *)
Definition unread (ms : list Message) (e : ending) : list Message :=
  ms ++ match e with Completes => [] | Fails body after => ErrorResponse body :: after end.

Lemma unread_bytes ms e st rest :
  (unread ms e ≫= encode) ++ encode (ReadyForQuery st) ++ rest = (ms ≫= encode) ++ end_bytes st e ++ rest.
Proof.
  unfold unread. rewrite bind_app. destruct e as [| body after]; cbn [end_bytes].
  - rewrite bind_nil_eq. by rewrite app_nil_r.
  - rewrite bind_cons_eq, <- !app_assoc. done.
Qed.

Lemma unread_ok ms e :
  Forall in_response ms -> ending_ok e -> Forall (fun m => msg_ok m /\ not_ready m) (unread ms e).
Proof.
  intros Hms He. unfold unread. apply Forall_app. split.
  - eapply Forall_impl; [| exact Hms]. intros m [Hm Hin]. split; [done |]. by destruct m.
  - destruct e as [| body after]; [constructor |]. destruct He as [Hm Ha]. by constructor.
Qed.

Lemma execute_query_cancels oc show_io query c r c' :
  execute_query oc show_io query c = Val (r, c') -> cancels (stream c') = cancels (stream c).
Proof.
  unfold execute_query. destruct (query_streaming oc false query DEFAULT_BINARY_CHUNK_SIZE c) as [[[s | e] c1] |] eqn:E; [| | done];
    apply quiet_query_streaming in E; by intros [= _ <-].
Qed.

Lemma rowset_chunk_cancels um show_io rs c r rs' c' :
  rowset_next_chunk um show_io rs c = Val (r, rs', c') -> cancels (stream c') = cancels (stream c).
Proof.
  unfold rowset_next_chunk. destruct (next_chunk um (inner rs) c) as [[[[[chunk |] | e] s] c1] |] eqn:E; cbn [outcome_bind];
    [| | | done]; apply quiet_next_chunk in E; rewrite <- E; [| by intros [= _ _ <-]..].
  destruct (cached_schema (with_stream s rs)); [| done]. by intros [= _ _ <-].
Qed.

(** C29. Asking for one row reads one chunk and gives up the rest. [fetch_optional]
    returns the first row of the response, or [None] if it has none. If the response
    has fewer than 65536 rows it is read to its end, and an error of the server is
    returned, and nothing is cancelled. If it has more, one cancel request is sent, when
    the messages up to the last row of the first chunk have been taken and all behind
    them is still to come: an error in that is not reported, and the connection is healthy
    and in step exactly if it has at most 64 * 65536 rows and at most 1024 other
    messages, and given up otherwise. *)
Theorem first_row_cancels oc um show_io query c ms cols e st rest :
  2 ^ 32 - 1 <= um -> text_fits query -> is_healthy c = true -> accepting c ->
  Forall in_response ms -> described_first ms cols -> ending_ok e -> in_u 8 st ->
  receives um c ((ms ≫= encode) ++ end_bytes st e ++ rest) ->
  exists sch r c1 c', schema_of_columns 0 cols = Val sch /\ fetch_optional oc um show_io query c = Val (r, c')
    /\ sends c c1 (write_buf c ++ (binary_request query ≫= frame)) /\
    if (length (rows_of ms) <? DEFAULT_BINARY_CHUNK_SIZE)%nat then
      after_end um e c1 c' rest /\ cancels (stream c') = cancels (stream c) /\
      match e with
      | Completes => r = Ok (with_schema sch <$> head (rows_of ms))
      | Fails body _ => exists err, parse_error_response body = Val err /\ r = Err (from_client show_io err)
      end
    else
      r = Ok (with_schema sch <$> head (rows_of ms)) /\
      exists ms1 ms2 buffered unread_events, ms = ms1 ++ ms2 /\ length (rows_of ms1) = DEFAULT_BINARY_CHUNK_SIZE
        /\ cancels (stream c') = cancels (stream c) ++ [unread_events]
        /\ buffered ++ (unread_events ≫= event_bytes) = (ms2 ≫= encode) ++ end_bytes st e ++ rest /\
        if (others_of (unread ms2 e) <=? 1024) && (Z.of_nat (length (rows_of (unread ms2 e))) <=? 64 * 65536)
        then is_healthy c' = true /\ receives um c' rest /\ sent (stream c') = sent (stream c1)
        else is_healthy c' = false.
Proof.
  intros Hu Hq Hh Ha Hms Hd He Hst Hc. destruct (described_first_schema ms cols Hd) as [sch Hsch].
  destruct (execute_query_sends oc show_io query c Hq Hh Ha) as (c1 & Hex & Hs).
  assert (Hs1 := Hs). destruct Hs1 as (Hr & Hb & Hdes & _). apply (receives_same um _ c1) in Hc; [| done | done].
  assert (Hquiet : cancels (stream c1) = cancels (stream c)) by exact (execute_query_cancels _ _ _ _ _ _ Hex).
  unfold fetch_optional. rewrite Hex. cbn [on_rowset outcome_bind]. unfold first_row.
  destruct (rowset_chunk um Hu show_io st Hst (rowset_new fresh_stream) c1 ms e rest sch fresh_active Hms He
              (fresh_described ms cols sch Hd Hsch) Hc)
    as [(ms1 & ms2 & rs' & c2 & -> & Hlen & Hrun & Hin & _ & Hg & Hc2 & (_ & Hsent & _ & Hd2)) | (Hlen & v & rs' & c2 & Hrun & Hf & Hg & Hafter & Hv)];
    rewrite Hrun; cbn [outcome_bind]; apply rowset_chunk_cancels in Hrun; rewrite Hquiet in Hrun.
  - rewrite rows_of_app, length_app, Hlen. cbn [inner rowset_new fresh_stream chunk_size].
    rewrite (proj2 (Nat.ltb_ge _ _)) by lia. apply Forall_app in Hms as [_ Hms2].
    destruct (learns_all fresh_stream ms1) as (H1 & H2 & H3). rewrite <- unread_bytes in Hc2.
    destruct (drop_stream_encode um (inner rs') c2 (unread ms2 e) st rest Hu) as (c' & Hdrop & Hif);
      [rewrite Hin; unfold active; cbn [inner rowset_new]; rewrite H1, H2, H3; apply fresh_active
      | unfold is_healthy in *; congruence | by apply unread_ok | done | done |].
    assert (Hcan : cancels (stream c') = cancels (stream c2) ++ [Connection.reads (stream c2)]).
    { apply (drop_stream_cancels um (inner rs')); [| done]. rewrite Hin. cbn [inner rowset_new]. by rewrite H2. }
    rewrite unread_bytes in Hc2. destruct Hc2 as (_ & Hw2 & _).
    exists sch. eexists _, c1, c'. split_and!; [done | | done | |].
    + unfold drop_rowset. rewrite Hdrop, Hg. cbn [outcome_bind statement_guard rowset_new]. reflexivity.
    + assert (Hne : rows_of ms1 <> []).
      { intros E. rewrite E in Hlen. cbn in Hlen. pose proof chunk_size_pos. lia. }
      cbn [mbind option_bind]. by destruct (rows_of ms1).
    + exists ms1, ms2, (read_buf c2), (Connection.reads (stream c2)). split_and!; [done | done | by rewrite Hcan, Hrun | exact Hw2 |]. by rewrite <- Hsent.
  - cbn [inner rowset_new fresh_stream chunk_size] in Hlen. rewrite (proj2 (Nat.ltb_lt _ _) Hlen).
    exists sch. eexists _, c1, c2. split_and!; [done | | done | done | exact Hrun |].
    + rewrite drop_rowset_finished by done. reflexivity.
    + destruct e as [| body after].
      * destruct Hv as [-> _]. by destruct (rows_of ms).
      * destruct Hv as (err & Hp & ->). by exists err.
Qed.

Lemma first_row_cancels_witness :
  exists sch r c', fetch_optional true (2 ^ 64 - 1) (fun _ => []) [65] sample_result = Val (r, c')
    /\ (length (rows_of sample_response) < DEFAULT_BINARY_CHUNK_SIZE)%nat
    /\ r = Ok (Some (with_schema sch (DataRowBody.mk [0; 0; 0; 1; 65] 1))).
Proof.
  assert (Hst : in_u 8 73) by (vm_compute; intuition discriminate).
  assert (Hl : (length (rows_of sample_response) < DEFAULT_BINARY_CHUNK_SIZE)%nat).
  { pose proof chunk_size_val. change (length (rows_of sample_response)) with 2%nat. lia. }
  destruct (first_row_cancels true (2 ^ 64 - 1) (fun _ => []) [65] sample_result sample_response
              [mk_column [97] 0 0 TextFormat] Completes 73 []
              ltac:(lia) eq_refl eq_refl (Forall_nil_2 _) sample_response_ok eq_refl I Hst sample_result_receives)
    as (sch & r & c1 & c' & _ & Hrun & _ & Hif).
  rewrite (proj2 (Nat.ltb_lt _ _) Hl) in Hif. destruct Hif as (_ & _ & Hr). exists sch, r, c'. split_and!; [exact Hrun | exact Hl | exact Hr].
Defined.
