(* ===== verification/Params.v ===== *)
(** * Parameters of parameterised queries

    [hyperdb-api/src/params.rs]: the trait [ToSqlParam] as a record of operations, its
    implementations as values of it, and what the wire format of each type reads back.
    The texts of a finite float and of a JSON value are parameters; [Geography] is left
    to the crates it wraps. The queries that take parameters are in [Rowsets]. *)

From stdpp Require Import strings.
From S2P Require Import Prelude Text Frontend Connection Client Calendar SqlEscape SqlTypes Decimal Rows Rowsets.

(** [encode_param] may panic where the text of a date overflows. *)
Record ToSqlParam (A : Type) : Type := {
  encode_param_of : A -> outcome (option (list Z));
  param_format_of : A -> ParamFormat;
  sql_oid_of : A -> Z;
  to_sql_literal : A -> outcome (list Z);
}.
Arguments encode_param_of {A} _ _.
Arguments param_format_of {A} _ _.
Arguments sql_oid_of {A} _ _.
Arguments to_sql_literal {A} _ _.

(** What a value is bound as. *)
Definition bind_param {A} (T : ToSqlParam A) (a : A) : outcome SqlParam :=
  let! bytes := encode_param_of T a in
  Val (mk_param (sql_oid_of T a) bytes (param_format_of T a)).

(** A type that is always sent in binary with one OID. *)
Definition binary_param {A} (encode : A -> list Z) (oid : Z) (literal : A -> outcome (list Z)) : ToSqlParam A := {|
  encode_param_of a := Val (Some (encode a));
  param_format_of _ := Connection.Binary;
  sql_oid_of _ := oid;
  to_sql_literal := literal;
|}.

Definition text_literal (s : list Z) : list Z := quoted 39 s.

(** ** Integers, floats, booleans *)

Definition i16_param : ToSqlParam Z := binary_param (to_be 2) oids.SMALL_INT (fun z => Val (fmt_i z)).
Definition i32_param : ToSqlParam Z := binary_param (to_be 4) oids.INT (fun z => Val (fmt_i z)).
Definition i64_param : ToSqlParam Z := binary_param (to_be 8) oids.BIG_INT (fun z => Val (fmt_i z)).

(** A float is its bits: [m] of the mantissa below [e] of the exponent and the sign. *)
Definition exponent (e m bits : Z) : Z := Z.land (Z.shiftr bits m) (2 ^ e - 1).
Definition mantissa (m bits : Z) : Z := Z.land bits (2 ^ m - 1).
Definition is_nan (e m bits : Z) : bool := (exponent e m bits =? 2 ^ e - 1) && negb (mantissa m bits =? 0).
Definition is_infinite (e m bits : Z) : bool := (exponent e m bits =? 2 ^ e - 1) && (mantissa m bits =? 0).
Definition negative (e m bits : Z) : bool := Z.testbit bits (e + m).

Definition float_literal (e m : Z) (show : Z -> list Z) (bits : Z) : list Z :=
  if is_nan e m bits then str "'NaN'"
  else if is_infinite e m bits then
    if negb (negative e m bits) then str "'Infinity'" else str "'-Infinity'"
  else show bits.

Definition f32_param (show : Z -> list Z) : ToSqlParam Z :=
  binary_param (to_be 4) oids.FLOAT (fun bits => Val (float_literal 8 23 show bits)).
Definition f64_param (show : Z -> list Z) : ToSqlParam Z :=
  binary_param (to_be 8) oids.DOUBLE (fun bits => Val (float_literal 11 52 show bits)).

Definition bool_param : ToSqlParam bool :=
  binary_param (fun b : bool => [if b then 1 else 0]) oids.BOOL (fun b : bool => Val (if b then str "TRUE" else str "FALSE")).

(** ** Texts and bytes *)

Definition str_param : ToSqlParam (list Z) := binary_param utf8 oids.TEXT (fun s => Val (text_literal s)).

Definition hex_digit (d : Z) : Z := if d <? 10 then 48 + d else 87 + d.

(** [format!("{b:02x}")]. *)
Definition hex_byte (b : Z) : list Z := [hex_digit (b / 16); hex_digit (b `mod` 16)].

Definition bytes_literal (bytes : list Z) : list Z := str "E'\\x" ++ (bytes ≫= hex_byte) ++ str "'".

Definition bytes_param : ToSqlParam (list Z) := binary_param id oids.BYTE_A (fun bytes => Val (bytes_literal bytes)).

(** [serde_json::Value]. *)
Definition json_param {J} (show : J -> list Z) : ToSqlParam J :=
  binary_param (fun v => utf8 (show v)) oids.JSON (fun v => Val (text_literal (show v))).

(** ** Dates and times *)

Definition typed_literal (keyword : string) (text : outcome (list Z)) : outcome (list Z) :=
  let! text := text in Val (str keyword ++ str " '" ++ text ++ str "'").

Section dates.
Context (oc : bool).

Definition date_param : ToSqlParam Calendar.Date := binary_param (to_be 4) oids.DATE (fun d => typed_literal "DATE" (display_date oc d)).
Definition time_param : ToSqlParam Calendar.Time :=
  binary_param (fun t => to_be 8 (time_to_microseconds t)) oids.TIME (fun t => typed_literal "TIME" (Val (display_time t))).
Definition timestamp_param : ToSqlParam Calendar.Timestamp :=
  binary_param (to_be 8) oids.TIMESTAMP (fun ts => typed_literal "TIMESTAMP" (display_timestamp oc ts)).
Definition offset_timestamp_param : ToSqlParam Calendar.OffsetTimestamp :=
  binary_param (fun o => to_be 8 (timestamp o)) oids.TIMESTAMP_TZ (fun o => typed_literal "TIMESTAMPTZ" (display_offset oc o)).
Definition interval_param : ToSqlParam Calendar.Interval :=
  binary_param (fun i => to_be 8 (microseconds i) ++ to_be 4 (days i) ++ to_be 4 (months i)) oids.INTERVAL
    (fun i => typed_literal "INTERVAL" (display_interval oc i)).
End dates.

(** ** Numerics *)

Definition ilog10 (n : Z) : nat := (length (fmt_u n) - 1)%nat.

Definition MAX_NUMERIC_GROUPS : nat :=
  let decimal_digits := (ilog10 (2 ^ 127 - 1) + 1)%nat in Nat.div (decimal_digits + 3) 4.

(** The loop; [room] is what is left of the array, and indexing past it panics. *)
Fixpoint groups_loop (room : nat) (mag : Z) (groups : list Z) : outcome (list Z) :=
  if 0 <? mag then
    match room with
    | O => Panic
    | S room =>
        let group := mag `mod` 10000 in
        if in_ib 16 group then groups_loop room (mag / 10000) (groups ++ [group]) else Panic
    end
  else Val groups.

Definition pg_numeric_encode_unscaled (unscaled : Z) : outcome (list Z) :=
  let sign_neg := unscaled <? 0 in
  let! groups := groups_loop MAX_NUMERIC_GROUPS (Z.abs unscaled) [] in
  let ngroups := Z.of_nat (length groups) in
  let! ndigits := if in_ib 16 ngroups then Val ngroups else Panic in
  let weight := if ngroups =? 0 then 0 else ndigits - 1 in
  Val (to_be 2 ndigits ++ to_be 2 weight ++ to_be 2 (if sign_neg then 0x4000 else 0) ++ to_be 2 0
       ++ (reverse groups ≫= to_be 2)).

Definition numeric_param : ToSqlParam Numeric.t := {|
  encode_param_of n :=
    if Numeric.scale n =? 0 then
      let! bytes := pg_numeric_encode_unscaled (Numeric.value n) in Val (Some bytes)
    else let! text := Numeric.display n in Val (Some (utf8 text));
  param_format_of n := if Numeric.scale n =? 0 then Connection.Binary else Connection.Text;
  sql_oid_of n := if Numeric.scale n =? 0 then oids.NUMERIC else 0;
  to_sql_literal := Numeric.display;
|}.

(** ** References and options *)

Definition option_param {A} (T : ToSqlParam A) : ToSqlParam (option A) := {|
  encode_param_of o := match o with Some a => encode_param_of T a | None => Val None end;
  param_format_of o := match o with Some a => param_format_of T a | None => Connection.Binary end;
  sql_oid_of o := match o with Some a => sql_oid_of T a | None => 0 end;
  to_sql_literal o := match o with Some a => to_sql_literal T a | None => Val (str "NULL") end;
|}.

(** ** The wire format, as its reader understands it

    PostgreSQL's binary form of an integer is its two's complement, most significant
    byte first, and that of a NUMERIC four integers of 16 bits - the number of base-10000
    groups, the weight of the first, the sign, the number of decimals - and the groups. *)

Fixpoint be16s (bytes : list Z) : option (list Z) :=
  match bytes with
  | [] => Some []
  | a :: b :: bytes => l ← be16s bytes; Some (i_of_be [a; b] :: l)
  | [_] => None
  end.

Definition groups_value (groups : list Z) : Z := foldl (fun v g => v * 10000 + g) 0 groups.

Definition read_pg_numeric (bytes : list Z) : option Z :=
  fields ← be16s bytes;
  match fields with
  | ndigits :: weight :: sign :: dscale :: groups =>
      if (ndigits =? Z.of_nat (length groups)) && (dscale =? 0) && forallb (fun g => (0 <=? g) && (g <? 10000)) groups
         && (ndigits - 1 <=? weight)
      then
        let v := groups_value groups * 10000 ^ (weight - (ndigits - 1)) in
        if sign =? 0 then Some v else if sign =? 0x4000 then Some (- v) else None
      else None
  | _ => None
  end.

Definition read_interval (bytes : list Z) : option Calendar.Interval :=
  if (length bytes =? 16)%nat
  then Some (mk_interval (i_of_be (slice 0 8 bytes)) (i_of_be (slice 8 12 bytes)) (i_of_be (slice 12 16 bytes)))
  else None.

(** ** Lemmas *)

Lemma max_numeric_groups : MAX_NUMERIC_GROUPS = 10%nat.
Proof. vm_compute. reflexivity. Qed.

Lemma be16s_to_be l : Forall (in_i 16) l -> be16s (l ≫= to_be 2) = Some l.
Proof.
  induction 1 as [| z l Hz _ IH]; [done |]. cbn [mbind list_bind].
  pose proof (i_of_be_to_be 2 z ltac:(lia) Hz) as Hv. pose proof (length_to_be 2 z) as Hl.
  destruct (to_be 2 z) as [| a [| b [| ? ?]]]; try done. cbn [app be16s]. by rewrite IH, Hv.
Qed.

Lemma length_be16s l : length (l ≫= to_be 2) = (2 * length l)%nat.
Proof. induction l as [| z l IH]; [done |]. rewrite bind_cons, length_app, length_to_be, IH. cbn [length]. lia. Qed.

Lemma groups_value_app l g : groups_value (l ++ [g]) = groups_value l * 10000 + g.
Proof. unfold groups_value. by rewrite foldl_app. Qed.

(** The groups of a magnitude that fits, least significant first. *)
Lemma groups_loop_val room mag acc : 0 <= mag < 10000 ^ Z.of_nat room ->
  exists groups, groups_loop room mag acc = Val (acc ++ groups)
    /\ Forall (fun g => 0 <= g < 10000) groups /\ (length groups <= room)%nat
    /\ groups_value (reverse groups) = mag /\ (groups = [] <-> mag = 0).
Proof.
  revert mag acc. induction room as [| room IH]; intros mag acc Hmag; cbn [groups_loop].
  - assert (mag = 0) as -> by (rewrite Z.pow_0_r in Hmag; lia). exists []. by rewrite app_nil_r.
  - destruct (Z.ltb_spec 0 mag) as [Hpos | Hzero].
    2: { assert (mag = 0) as -> by lia. exists []. rewrite app_nil_r. repeat split; try done. cbn; lia. }
    pose proof (Z.mod_pos_bound mag 10000 ltac:(lia)) as Hm.
    rewrite (proj2 (in_ib_spec 16 (mag `mod` 10000))) by (unfold in_i; lia).
    assert (Hsmall : 0 <= mag / 10000 < 10000 ^ Z.of_nat room).
    { split; [apply Z.div_pos; lia |]. apply Z.div_lt_upper_bound; [lia |].
      rewrite <- Z.pow_succ_r by lia. replace (Z.succ (Z.of_nat room)) with (Z.of_nat (S room)) by lia. lia. }
    destruct (IH _ (acc ++ [mag `mod` 10000]) Hsmall) as (groups & -> & Hg & Hl & Hv & _).
    exists (mag `mod` 10000 :: groups). rewrite <- app_assoc. split; [done |]. split; [by constructor |]. split; [cbn; lia |].
    split; [| by split; [| lia]]. rewrite reverse_cons, groups_value_app, Hv. pose proof (Z.div_mod mag 10000). lia.
Qed.

Lemma forallb_groups groups : Forall (fun g => 0 <= g < 10000) groups ->
  forallb (fun g => (0 <=? g) && (g <? 10000)) groups = true.
Proof. induction 1 as [| g l Hg _ IH]; [done |]. cbn [forallb]. rewrite IH. by bool_eval. Qed.

(** An [i128] fills at most the ten groups of the array, so nothing panics. *)
Lemma pg_numeric_val v : in_i 128 v ->
  exists bytes, pg_numeric_encode_unscaled v = Val bytes /\ read_pg_numeric bytes = Some v /\ (length bytes <= 28)%nat.
Proof.
  intros Hv. unfold pg_numeric_encode_unscaled. rewrite max_numeric_groups.
  destruct (groups_loop_val 10 (Z.abs v) []) as (groups & -> & Hg & Hl & Hval & Hz);
    [unfold in_i in Hv; cbn in *; lia |]. rewrite app_nil_l. cbn [outcome_bind].
  rewrite (proj2 (in_ib_spec 16 (Z.of_nat (length groups)))) by (unfold in_i; cbn; lia). cbn [outcome_bind].
  set (n := Z.of_nat (length groups)). set (weight := if n =? 0 then 0 else n - 1). set (sign := if v <? 0 then 0x4000 else 0).
  eexists. split; [reflexivity |]. split.
  - change (to_be 2 n ++ to_be 2 weight ++ to_be 2 sign ++ to_be 2 0 ++ (reverse groups ≫= to_be 2))
      with ((n :: weight :: sign :: 0 :: reverse groups) ≫= to_be 2).
    unfold read_pg_numeric. rewrite be16s_to_be.
    2: { assert (Hn : 0 <= n <= 10) by (unfold n; lia). assert (in_i 16 n /\ in_i 16 weight /\ in_i 16 sign) as (? & ? & ?).
         { unfold in_i, weight, sign. repeat case_match; cbn; lia. }
         repeat (constructor; [done || (unfold in_i; cbn; lia) |]). apply Forall_reverse.
         eapply Forall_impl; [| exact Hg]. unfold in_i. cbn. lia. }
    cbn [mbind option_bind]. rewrite length_reverse, Z.eqb_refl, forallb_groups by (by apply Forall_reverse). cbn [andb Z.eqb].
    assert (Hw : (n - 1 <=? weight) = true) by (unfold weight; apply Z.leb_le; destruct (Z.eqb_spec n 0); lia). rewrite Hw, Hval.
    assert (Hp : Z.abs v * 10000 ^ (weight - (n - 1)) = Z.abs v).
    { unfold weight. destruct (Z.eqb_spec n 0) as [H0 | H0]; [| rewrite Z.sub_diag, Z.pow_0_r; lia].
      assert (groups = []) as Hnil by (apply nil_length_inv; unfold n in H0; lia). apply Hz in Hnil. rewrite Hnil. lia. }
    rewrite Hp. unfold sign. destruct (Z.ltb_spec v 0); cbn; f_equal; lia.
  - rewrite !length_app, !length_to_be, length_be16s, length_reverse. lia.
Qed.

Lemma slice_middle i j (a b c : list Z) : i = length a -> j = (length a + length b)%nat -> slice i j (a ++ b ++ c) = b.
Proof.
  intros -> ->. unfold slice. rewrite drop_app_length. replace (length a + length b - length a)%nat with (length b) by lia.
  apply take_app_length.
Qed.

Lemma interval_read us d m : in_i 64 us -> in_i 32 d -> in_i 32 m ->
  read_interval (to_be 8 us ++ to_be 4 d ++ to_be 4 m) = Some (mk_interval us d m).
Proof.
  intros Hu Hd Hm. unfold read_interval. rewrite !length_app, !length_to_be. cbn [Nat.add Nat.eqb].
  pose proof (length_to_be 8 us) as Lu. pose proof (length_to_be 4 d) as Ld. pose proof (length_to_be 4 m) as Lm.
  pose proof (slice_middle 0 8 [] (to_be 8 us) (to_be 4 d ++ to_be 4 m)) as S1.
  pose proof (slice_middle 8 12 (to_be 8 us) (to_be 4 d) (to_be 4 m)) as S2.
  pose proof (slice_middle 12 16 (to_be 8 us ++ to_be 4 d) (to_be 4 m) []) as S3.
  rewrite app_nil_r, <- app_assoc, length_app in S3. cbn [app length] in S1.
  rewrite S1, S2, S3 by lia. by rewrite !i_of_be_to_be by (done || lia).
Qed.

Lemma hex_byte_read b : is_byte b ->
  (high ← hex_digit_to_value (hex_digit (b / 16)); low ← hex_digit_to_value (hex_digit (b `mod` 16));
   Some (Z.lor (Z.shiftl high 4) low)) = Some b.
Proof.
  intros Hb. assert (b ∈ seqZ 0 256) as Hin by (apply elem_of_seqZ; unfold is_byte in Hb; lia). revert b Hb Hin.
  assert (H : Forall (fun b => (high ← hex_digit_to_value (hex_digit (b / 16)); low ← hex_digit_to_value (hex_digit (b `mod` 16));
   Some (Z.lor (Z.shiftl high 4) low)) = Some b) (seqZ 0 256)) by (apply (bool_decide_unpack _); vm_compute; done).
  intros b _ Hin. by apply (proj1 (list.Forall_forall _ _) H).
Qed.

Lemma hex_loop_read bytes acc : Forall is_byte bytes -> hex_loop (bytes ≫= hex_byte) acc = Some (acc ++ bytes).
Proof.
  intros Hb. revert acc. induction Hb as [| b bytes Hb _ IH]; intros acc; [by rewrite app_nil_r |].
  rewrite bind_cons. pose proof (hex_byte_read b Hb) as Hr. unfold hex_byte at 1. cbn [app hex_loop].
  destruct (hex_digit_to_value (hex_digit (b / 16))) as [h |]; [| done].
  destruct (hex_digit_to_value (hex_digit (b `mod` 16))) as [l |]; [| done].
  injection Hr as Hr. cbn [mbind option_bind] in *. rewrite IH, Hr. by rewrite <- app_assoc.
Qed.

Lemma length_hex bytes : length (bytes ≫= hex_byte) = (2 * length bytes)%nat.
Proof. induction bytes as [| b bytes IH]; [done |]. rewrite bind_cons, length_app, IH. cbn [length hex_byte]. lia. Qed.

(** Behind the doubled backslash of an escape string is the text form of the bytes. *)
Lemma bytes_literal_read bytes : Forall is_byte bytes ->
  exists text, bytes_literal bytes = str "E'" ++ [92] ++ text ++ str "'" /\ decode_bytea_hex text = Some bytes.
Proof.
  intros Hb. exists (92 :: 120 :: (bytes ≫= hex_byte)). split; [done |]. cbn [decode_bytea_hex].
  rewrite length_hex, Nat.even_mul, hex_loop_read by done. done.
Qed.

(** The text of a numeric has no char past 127. *)
Lemma display_ascii n text : Numeric.wf n -> Numeric.display n = Val text -> Forall is_char text.
Proof.
  intros Hwf. rewrite display_eq by done. intros [= <-]. apply is_ascii_char. unfold numeric_text.
  assert (Hd : forall l, digit_chars l -> Forall is_ascii l) by (intros l; apply Forall_impl; unfold is_ascii; lia).
  assert (is_ascii 46 /\ is_ascii 45) as [Hdot Hminus] by (unfold is_ascii; lia).
  destruct (Z.eqb_spec (Numeric.scale n) 0) as [_ | Hs].
  - unfold fmt_i. destruct (Z.ltb_spec (Numeric.value n) 0); [constructor; [done |] |]; apply Hd, fmt_u_digits; lia.
  - destruct Hwf as [_ [Hs0 _]]. destruct (unsigned_text_shape (fmt_u (Z.abs (Numeric.value n))) (Z.to_nat (Numeric.scale n)))
      as (a & b & -> & Hab & _); [apply fmt_u_digits; lia | lia |].
    apply Forall_app in Hab as [Ha Hb]. apply Forall_app_2; [by destruct (_ <? _); repeat constructor |].
    apply Forall_app_2; [by apply Hd | constructor; [done | by apply Hd]].
Qed.

(** ** The properties *)

(** What a server that knows the OIDs of PostgreSQL reads: each has a type, and each
    type a binary form. A float is its bits, a date days, the times microseconds. *)
Inductive pg_value : Type :=
| PgBool (b : bool)
| PgBytea (bytes : list Z)
| PgInt2 (z : Z)
| PgInt4 (z : Z)
| PgInt8 (z : Z)
| PgText (s : list Z)
| PgJson (s : list Z)
| PgFloat4 (bits : Z)
| PgFloat8 (bits : Z)
| PgDate (days : Z)
| PgTime (microseconds : Z)
| PgTimestamp (microseconds : Z)
| PgTimestamptz (microseconds : Z)
| PgInterval (i : Calendar.Interval)
| PgNumeric (z : Z).

Definition pg_read (oid : Z) (bytes : list Z) : option pg_value :=
  let sized {A} (n : nat) (v : A) := if (length bytes =? n)%nat then Some v else None in
  match oid with
  | 16 => match bytes with [0] => Some (PgBool false) | [1] => Some (PgBool true) | _ => None end
  | 17 => Some (PgBytea bytes)
  | 20 => sized 8%nat (PgInt8 (i_of_be bytes))
  | 21 => sized 2%nat (PgInt2 (i_of_be bytes))
  | 23 => sized 4%nat (PgInt4 (i_of_be bytes))
  | 25 => PgText <$> from_utf8 bytes
  | 114 => PgJson <$> from_utf8 bytes
  | 700 => sized 4%nat (PgFloat4 (u_of_be bytes))
  | 701 => sized 8%nat (PgFloat8 (u_of_be bytes))
  | 1082 => sized 4%nat (PgDate (i_of_be bytes))
  | 1083 => sized 8%nat (PgTime (i_of_be bytes))
  | 1114 => sized 8%nat (PgTimestamp (i_of_be bytes))
  | 1184 => sized 8%nat (PgTimestamptz (i_of_be bytes))
  | 1186 => PgInterval <$> read_interval bytes
  | 1700 => PgNumeric <$> read_pg_numeric bytes
  | _ => None
  end.

(** The server reads [v] where [a] was bound. *)
Definition arrives {A} (T : ToSqlParam A) (a : A) (v : pg_value) : Prop :=
  exists oid bytes, bind_param T a = Val (mk_param oid (Some bytes) Connection.Binary) /\ pg_read oid bytes = Some v.

Lemma arrives_binary {A} (encode : A -> list Z) oid literal a v :
  pg_read oid (encode a) = Some v -> arrives (binary_param encode oid literal) a v.
Proof. intros H. by exists oid, (encode a). Qed.

(** C32. A bound parameter arrives as the value it was. Under the OID that announces it a
    server reads back, in the binary form of that type, the truth value, integer, float,
    text, JSON text, bytes, date, time, timestamp or interval that was bound, and for a
    numeric without decimals its 128-bit integer, in at most ten base-10000 groups, so
    that the encoder never leaves its array. A numeric with decimals is sent as text
    without an OID, and reads back with its scale; NULL has no bytes and no OID; the
    literal of a byte string denotes it, and that of a text is its escaped literal. *)
Theorem params_read_back oc :
  (forall b, arrives bool_param b (PgBool b))
  /\ (forall z, in_i 16 z -> arrives i16_param z (PgInt2 z)) /\ (forall z, in_i 32 z -> arrives i32_param z (PgInt4 z))
  /\ (forall z, in_i 64 z -> arrives i64_param z (PgInt8 z))
  /\ (forall show bits, in_u 32 bits -> arrives (f32_param show) bits (PgFloat4 bits))
  /\ (forall show bits, in_u 64 bits -> arrives (f64_param show) bits (PgFloat8 bits))
  /\ (forall s, Forall is_char s -> arrives str_param s (PgText s) /\ to_sql_literal str_param s = Val (escape_literal s))
  /\ (forall bytes, arrives bytes_param bytes (PgBytea bytes))
  /\ (forall J (show : J -> list Z) j, Forall is_char (show j) -> arrives (json_param show) j (PgJson (show j)))
  /\ (forall d, in_i 32 d -> arrives (date_param oc) d (PgDate d))
  /\ (forall t, 0 <= t <= MAX_MICROSECONDS -> arrives time_param t (PgTime t))
  /\ (forall ts, in_i 64 ts -> arrives (timestamp_param oc) ts (PgTimestamp ts))
  /\ (forall ts minutes, in_i 64 ts -> arrives (offset_timestamp_param oc) (mk_offset ts minutes) (PgTimestamptz ts))
  /\ (forall i, in_i 64 (microseconds i) -> in_i 32 (days i) -> in_i 32 (months i) -> arrives (interval_param oc) i (PgInterval i))
  /\ (forall n, Numeric.wf n -> Numeric.scale n = 0 -> arrives numeric_param n (PgNumeric (Numeric.value n))
        /\ exists bytes, encode_param_of numeric_param n = Val (Some bytes) /\ (length bytes <= 8 + 2 * 10)%nat)
  /\ (forall n, Numeric.wf n -> Numeric.scale n <> 0 ->
        exists bytes text, bind_param numeric_param n = Val (mk_param 0 (Some bytes) Connection.Text)
          /\ from_utf8 bytes = Some text /\ read_decimal text = Some (Numeric.value n, Numeric.scale n))
  /\ (forall A (T : ToSqlParam A), bind_param (option_param T) None = Val (mk_param 0 None Connection.Binary)
        /\ forall a, bind_param (option_param T) (Some a) = bind_param T a)
  /\ (forall bytes, Forall is_byte bytes -> exists text,
        to_sql_literal bytes_param bytes = Val (str "E'" ++ [92] ++ text ++ str "'") /\ decode_bytea_hex text = Some bytes).
Proof.
  assert (Hint : forall n v, (0 < n)%nat -> in_i (8 * Z.of_nat n) v -> (length (to_be n v) =? n)%nat = true /\ i_of_be (to_be n v) = v).
  { intros n v Hn Hv. by rewrite length_to_be, Nat.eqb_refl, i_of_be_to_be. }
  assert (Hbits : forall n v, in_u (8 * Z.of_nat n) v -> (length (to_be n v) =? n)%nat = true /\ u_of_be (to_be n v) = v).
  { intros n v Hv. by rewrite length_to_be, Nat.eqb_refl, u_of_be_to_be, wrap_u_id. }
  split_and!.
  - intros [|]; by apply arrives_binary.
  - intros z Hz. apply arrives_binary. cbn -[to_be]. destruct (Hint 2%nat z ltac:(lia) Hz) as [-> ->]. done.
  - intros z Hz. apply arrives_binary. cbn -[to_be]. destruct (Hint 4%nat z ltac:(lia) Hz) as [-> ->]. done.
  - intros z Hz. apply arrives_binary. cbn -[to_be]. destruct (Hint 8%nat z ltac:(lia) Hz) as [-> ->]. done.
  - intros show bits Hb. apply arrives_binary. cbn -[to_be]. destruct (Hbits 4%nat bits Hb) as [-> ->]. done.
  - intros show bits Hb. apply arrives_binary. cbn -[to_be]. destruct (Hbits 8%nat bits Hb) as [-> ->]. done.
  - intros s Hs. split; [| done]. apply arrives_binary. cbn -[from_utf8]. by rewrite from_utf8_utf8.
  - intros bytes. by apply arrives_binary.
  - intros J show j Hs. apply arrives_binary. cbn -[from_utf8]. by rewrite from_utf8_utf8.
  - intros d Hd. apply arrives_binary. cbn -[to_be]. destruct (Hint 4%nat d ltac:(lia) Hd) as [-> ->]. done.
  - intros t Ht. assert (Hb : in_i 64 t).
    { unfold in_i. change (64 - 1) with 63. assert (MAX_MICROSECONDS < 2 ^ 63) by done. lia. }
    apply arrives_binary. unfold time_to_microseconds. rewrite wrap_i_id by done. cbn -[to_be].
    destruct (Hint 8%nat t ltac:(lia) Hb) as [-> ->]. done.
  - intros ts Hts. apply arrives_binary. cbn -[to_be]. destruct (Hint 8%nat ts ltac:(lia) Hts) as [-> ->]. done.
  - intros ts minutes Hts. apply arrives_binary. cbn -[to_be]. destruct (Hint 8%nat ts ltac:(lia) Hts) as [-> ->]. done.
  - intros i Hu Hd Hm. apply arrives_binary. cbn -[to_be read_interval]. destruct i. by rewrite interval_read.
  - intros n [Hv _] Hs. destruct (pg_numeric_val _ Hv) as (bytes & Hb & Hr & Hl).
    assert (He : encode_param_of numeric_param n = Val (Some bytes)) by (cbn [encode_param_of numeric_param]; by rewrite Hs, Hb).
    split; [| exists bytes; split; [exact He | exact Hl]]. exists oids.NUMERIC, bytes. split.
    + unfold bind_param. rewrite He. cbn [param_format_of sql_oid_of numeric_param outcome_bind]. by rewrite Hs.
    + change (PgNumeric <$> read_pg_numeric bytes = Some (PgNumeric (Numeric.value n))). by rewrite Hr.
  - intros n Hn Hs. destruct (display_reads_back n Hn) as (text & Ht & Hr & _). exists (utf8 text), text.
    unfold bind_param. cbn [encode_param_of param_format_of sql_oid_of numeric_param].
    rewrite (proj2 (Z.eqb_neq _ _) Hs), Ht. split; [done |]. split; [| done].
    apply from_utf8_utf8. by eapply display_ascii.
  - done.
  - intros bytes Hb. destruct (bytes_literal_read bytes Hb) as (text & Ht & Hd). exists text. split; [| done]. change (Val (bytes_literal bytes) = Val (str "E'" ++ [92] ++ text ++ str "'")). by rewrite Ht.
Qed.
