(* ===== verification/Auth.v ===== *)
(** * The authentication handshake

    [hyperdb-api-core/src/client/auth.rs] and [RawConnection::startup] of
    [client/connection.rs]: the password responses, the SCRAM-SHA-256 exchange, and the
    loop that carries them over the wire. The hashes, [base64] and the random generator
    belong to crates: they are the operations of [Crypto], and what the code relies on
    are the laws of [CryptoLaws]. [RfcServer] is the other side, as RFC 5802 describes
    it. [zeroize] has no counterpart in values that are not shared. *)

From stdpp Require Import strings gmap.
From S2P Require Import Prelude Text Backend Frontend Connection Rows Params.

(** ** The primitives *)

Class Crypto : Type := mk_crypto {
  md5 : list Z -> list Z;
  sha256_digest : list Z -> list Z;
  hmac_sha256_mac : list Z -> list Z -> list Z;
  pbkdf2_hmac_sha256 : list Z -> list Z -> Z -> nat -> list Z;
  encode64 : list Z -> list Z;
  decode64 : list Z -> option (list Z);
}.

(** The private functions of [auth.rs] around them; the derived key has 32 bytes. *)
Definition sha256 `{Crypto} (data : list Z) : list Z := sha256_digest data.

Definition hmac_sha256 `{Crypto} (key data : list Z) : list Z := hmac_sha256_mac key data.

Definition pbkdf2_sha256 `{Crypto} (password salt : list Z) (iterations : Z) : list Z :=
  pbkdf2_hmac_sha256 (utf8 password) salt iterations 32.

(** The alphabet of [base64], padding included. *)
Definition base64_char (c : Z) : Prop :=
  48 <= c <= 57 \/ 65 <= c <= 90 \/ 97 <= c <= 122 \/ c = 43 \/ c = 47 \/ c = 61.

Class CryptoLaws `{Crypto} : Prop := {
  md5_digest : forall data, Forall is_byte (md5 data) /\ length (md5 data) = 16%nat;
  hmac_digest : forall key data, Forall is_byte (hmac_sha256 key data) /\ length (hmac_sha256 key data) = 32%nat;
  encode64_chars : forall bytes, Forall is_byte bytes -> Forall base64_char (encode64 bytes);
  encode64_length : forall bytes, (length (encode64 bytes) <= 4 + 2 * length bytes)%nat;
  decode64_encode : forall bytes, Forall is_byte bytes -> decode64 (encode64 bytes) = Some bytes;
}.

(** ** [auth.rs] *)

Section auth.
Context `{Crypto}.

Definition hex_encode (bytes : list Z) : list Z := bytes ≫= hex_byte.

Definition compute_md5_password (user password salt : list Z) : list Z :=
  let first_hash := md5 (utf8 password ++ utf8 user) in
  let first_hex := hex_encode first_hash in
  let second_hash := md5 (utf8 first_hex ++ salt) in
  str "md5" ++ hex_encode second_hash.

Record AuthState : Type := mk_auth {
  password : list Z;
  client_nonce : list Z;
  client_first_bare : list Z;
  server_first : option (list Z);
  auth_message : option (list Z);
  server_key : option (list Z);
}.

Definition generate_nonce (bytes : list Z) : list Z := encode64 bytes.

(** [bytes] is what the random generator gives. *)
Definition scram_client_first (bytes password : list Z) : AuthState * list Z :=
  let client_nonce := generate_nonce bytes in
  let client_first_bare := str "n=,r=" ++ client_nonce in
  let client_first := str "n,," ++ client_first_bare in
  (mk_auth password client_nonce client_first_bare None None None, utf8 client_first).

(** The three variables of the loop over the parts of the server's message. *)
Record ServerFirst : Type := mk_first {
  server_nonce : option (list Z);
  salt_b64 : option (list Z);
  iterations : option Z;
}.

Fixpoint server_first_fields (parts : list (list Z)) (f : ServerFirst) : result ServerFirst Error :=
  match parts with
  | [] => Ok f
  | part :: parts =>
      match strip_prefix (str "r=") part with
      | Some value => server_first_fields parts (mk_first (Some value) (salt_b64 f) (iterations f))
      | None =>
          match strip_prefix (str "s=") part with
          | Some value => server_first_fields parts (mk_first (server_nonce f) (Some value) (iterations f))
          | None =>
              match strip_prefix (str "i=") part with
              | Some value =>
                  match parse_u 32 value with
                  | Some i => server_first_fields parts (mk_first (server_nonce f) (salt_b64 f) (Some i))
                  | None => Err (Authentication (str "invalid iteration count in server-first message"))
                  end
              | None => server_first_fields parts f
              end
          end
      end
  end.

Definition ok_or {A} (o : option A) (message : string) : result A Error :=
  match o with Some a => Ok a | None => Err (Authentication (str message)) end.

(** [diff |= a ^ b] over the paired bytes. *)
Definition nonce_diff (server client : list Z) : Z :=
  foldl (fun diff '(a, b) => Z.lor diff (Z.lxor a b)) 0 (take (length client) (zip server client)).

Definition prefix_match (server client : list Z) : bool :=
  (length client <=? length server)%nat && (nonce_diff server client =? 0).

Definition xor_bytes (a b : list Z) : list Z := zip_with Z.lxor a b.

(** The keys of a password. *)
Definition client_key_of (salted_password : list Z) : list Z := hmac_sha256 salted_password (str "Client Key").
Definition server_key_of (salted_password : list Z) : list Z := hmac_sha256 salted_password (str "Server Key").

Definition scram_client_final (state : AuthState) (server_first : list Z) : result (AuthState * list Z) Error :=
  let? server_first_str := ok_or (from_utf8 server_first) "invalid UTF-8 in server-first message" in
  let? f := server_first_fields (split 44 server_first_str) (mk_first None None None) in
  let? server_nonce := ok_or (server_nonce f) "missing nonce in server-first message" in
  let? salt_b64 := ok_or (salt_b64 f) "missing salt in server-first message" in
  let? iterations := ok_or (iterations f) "missing iterations in server-first message" in
  if negb (prefix_match (utf8 server_nonce) (utf8 (client_nonce state)))
  then Err (Authentication (str "server nonce doesn't match client nonce"))
  else
    let? salt := ok_or (decode64 (utf8 salt_b64)) "invalid base64 in salt" in
    let salted_password := pbkdf2_sha256 (password state) salt iterations in
    let client_key := client_key_of salted_password in
    let server_key := server_key_of salted_password in
    let stored_key := sha256 client_key in
    let channel_binding_b64 := encode64 (str "n,,") in
    let client_final_without_proof := str "c=" ++ channel_binding_b64 ++ str ",r=" ++ server_nonce in
    let auth_message :=
      client_first_bare state ++ str "," ++ server_first_str ++ str "," ++ client_final_without_proof in
    let client_signature := hmac_sha256 stored_key (utf8 auth_message) in
    let client_proof := xor_bytes client_key client_signature in
    let client_final := client_final_without_proof ++ str ",p=" ++ encode64 client_proof in
    Ok (mk_auth (password state) (client_nonce state) (client_first_bare state) (Some server_first_str)
          (Some auth_message) (Some server_key),
        utf8 client_final).

Definition scram_verify_server (state : AuthState) (server_final : list Z) : result unit Error :=
  let? server_final_str := ok_or (from_utf8 server_final) "invalid UTF-8 in server-final message" in
  let? server_sig_b64 := ok_or (strip_prefix (str "v=") server_final_str) "invalid server-final message format" in
  let? server_sig := ok_or (decode64 (utf8 server_sig_b64)) "invalid base64 in server signature" in
  let? server_key := ok_or (server_key state) "missing server key in auth state" in
  let? auth_message := ok_or (auth_message state) "missing auth message in auth state" in
  let expected_sig := hmac_sha256 server_key (utf8 auth_message) in
  if bool_decide (server_sig = expected_sig) then Ok tt
  else Err (Authentication (str "server signature verification failed")).

End auth.

(** ** [RawConnection::startup] *)

(** The connection with the three fields that only the handshake writes. *)
Record Conn : Type := mk_full {
  raw : RawConnection;
  process_id : Z;
  secret_key : Z;
  server_params : gmap (list Z) (list Z);
}.

Definition new_conn (s : Stream) : Conn := mk_full (new s) 0 0 ∅.

Definition parameter_status (name : list Z) (c : Conn) : option (list Z) := server_params c !! name.

Definition U (A : Type) : Type := Conn -> outcome (result A Error * Conn).

Definition uret {A} (a : A) : U A := fun c => Val (Ok a, c).
Definition ubind {A B} (m : U A) (f : A -> U B) : U B := fun c =>
  let! r := m c in
  match r with
  | (Ok a, c) => f a c
  | (Err e, c) => Val (Err e, c)
  end.

Notation "'let~' x ':=' m 'in' k" := (ubind m (fun x => k))
  (at level 10, x name, m at level 100, k at level 200) : rust_scope.

Definition on_raw {A} (m : C A) : U A := fun c =>
  let! r := m (raw c) in
  Val (r.1, mk_full r.2 (process_id c) (secret_key c) (server_params c)).

Definition lift {A} (r : result A Error) : U A := fun c => Val (r, c).

(** [body.mechanisms().collect()]: a name takes at least one byte. *)
Fixpoint mechanisms_loop (fuel : nat) (buf : list Z) : outcome (list (list Z)) :=
  match fuel with
  | O => Panic
  | S fuel =>
      let! r := SaslMechanisms.next buf in
      match r with
      | (None, _) => Val []
      | (Some mechanism, buf) =>
          let! mechanisms := mechanisms_loop fuel buf in
          Val (mechanism :: mechanisms)
      end
  end.

Definition mechanisms (data : list Z) : outcome (list (list Z)) := mechanisms_loop (S (length data)) data.

Definition SCRAM_SHA_256 : list Z := str "SCRAM-SHA-256".

Section startup.
Context `{Crypto} (overflow_checks : bool) (usize_max : Z) (debug_strs : list (list Z) -> list Z)
  (rng : nat -> list Z) (params : list (list Z * list Z)) (password : option (list Z)).

Definition respond (message : list Z -> outcome (list Z)) : U unit :=
  let~ _ := on_raw (emit message) in on_raw flush.

Definition user : list Z :=
  match list_find (fun p => p.1 = str "user") params with
  | Some (_, (_, v)) => v
  | None => []
  end.

Definition record_key (process_id secret_key : Z) : U unit := fun c =>
  Val (Ok tt, mk_full (raw c) process_id secret_key (server_params c)).

Definition record_parameter (name value : list Z) : U unit := fun c =>
  Val (Ok tt, mk_full (raw c) (process_id c) (secret_key c) (<[name := value]> (server_params c))).

(** The body of the loop: what it leaves in [auth_state], with how often the random
    generator was asked, or [None] when [startup] returns. *)
Definition on_message (msg : Message) (draws : nat) (auth_state : option AuthState) :
    U (option (nat * option AuthState)) :=
  match msg with
  | AuthenticationOk => uret (Some (draws, auth_state))
  | AuthenticationCleartextPassword =>
      let~ password := lift (ok_or password "server requested cleartext password but none provided") in
      let~ _ := respond (Frontend.password_message overflow_checks (utf8 password)) in
      uret (Some (draws, auth_state))
  | AuthenticationMd5Password salt =>
      let~ password := lift (ok_or password "server requested MD5 password but none provided") in
      let md5_response := compute_md5_password user password salt in
      let~ _ := respond (Frontend.password_message overflow_checks (utf8 md5_response)) in
      uret (Some (draws, auth_state))
  | AuthenticationSasl data =>
      let~ password := lift (ok_or password "server requested SASL authentication but no password provided") in
      let~ mechanisms := (fun c => let! ms := mechanisms data in Val (Ok ms, c)) in
      if bool_decide (SCRAM_SHA_256 ∈ mechanisms) then
        let '(state, client_first) := scram_client_first (rng draws) password in
        let~ _ := respond (Frontend.sasl_initial_response overflow_checks SCRAM_SHA_256 client_first) in
        uret (Some (S draws, Some state))
      else lift (Err (Authentication (str "server offered unsupported SASL mechanisms: " ++ debug_strs mechanisms)))
  | AuthenticationSaslContinue data =>
      let~ state := lift (ok_or auth_state "received SASL continue without initial state") in
      let~ next := lift (scram_client_final state data) in
      let~ _ := respond (Frontend.sasl_response overflow_checks next.2) in
      uret (Some (draws, Some next.1))
  | AuthenticationSaslFinal data =>
      let~ state := lift (ok_or auth_state "received SASL final without state") in
      let~ _ := lift (scram_verify_server state data) in
      uret (Some (draws, None))
  | BackendKeyData data =>
      let~ _ := record_key (BackendKeyDataBody.process_id data) (BackendKeyDataBody.secret_key data) in
      uret (Some (draws, auth_state))
  | ParameterStatus body =>
      let~ _ := match parameter_status_name body, parameter_status_value body with
                | Ok name, Ok value => record_parameter name value
                | _, _ => uret tt
                end in
      uret (Some (draws, auth_state))
  | ReadyForQuery _ => uret None
  | ErrorResponse body =>
      let~ err := on_raw (consume_error usize_max body) in lift (Err err)
  | _ => lift (Err (Protocol (str "unexpected message during startup")))
  end.

Fixpoint startup_loop (fuel draws : nat) (auth_state : option AuthState) : U unit := fun c =>
  match fuel with
  | O => Panic
  | S fuel =>
      (let~ msg := on_raw (read_message usize_max) in
       let~ next := on_message msg draws auth_state in
       match next with
       | None => uret tt
       | Some (draws, auth_state) => startup_loop fuel draws auth_state
       end) c
  end.

Definition startup_bytes : list (list Z * list Z) := (fun p => (utf8 p.1, utf8 p.2)) <$> params.

Definition startup : U unit :=
  let~ _ := respond (Frontend.startup_message startup_bytes) in
  fun c => startup_loop (budget (raw c)) 0 None c.

End startup.

(** ** The other side, as RFC 5802 has it *)

Module RfcServer.
Section server.
Context `{Crypto}.

(** What a server keeps of a password. *)
Record Stored : Type := mk { salt : list Z; count : Z; stored_key : list Z; server_key : list Z }.

Definition enroll (password salt : list Z) (count : Z) : Stored :=
  let salted := pbkdf2_sha256 password salt count in
  mk salt count (sha256 (hmac_sha256 salted (str "Client Key"))) (hmac_sha256 salted (str "Server Key")).

Definition first (st : Stored) (nonce : list Z) : list Z :=
  str "r=" ++ nonce ++ str ",s=" ++ encode64 (salt st) ++ str ",i=" ++ fmt_u (count st).

(** The signature sent back to a client whose proof is that of the stored key. *)
Definition signature (st : Stored) (auth_message : list Z) : list Z := hmac_sha256 (server_key st) (utf8 auth_message).

Definition answer (st : Stored) (nonce client_first_bare server_first client_final : list Z) : option (list Z) :=
  match split 44 client_final with
  | [channel; echoed; last] =>
      if bool_decide (channel = str "c=" ++ encode64 (str "n,,")) && bool_decide (echoed = str "r=" ++ nonce) then
        proof ← strip_prefix (str "p=") last ≫= decode64;
        let auth_message := client_first_bare ++ str "," ++ server_first ++ str "," ++ channel ++ str "," ++ echoed in
        let client_key := zip_with Z.lxor proof (hmac_sha256 (stored_key st) (utf8 auth_message)) in
        if bool_decide (sha256 client_key = stored_key st)
        then Some (str "v=" ++ encode64 (signature st auth_message)) else None
      else None
  | _ => None
  end.

End server.
End RfcServer.

(** ** Bytes and texts of the exchange *)

(** What RFC 5802 lets a nonce consist of. *)
Definition plain (c : Z) : Prop := 33 <= c <= 126 /\ c <> 44.

Lemma base64_plain s : Forall base64_char s -> Forall plain s.
Proof. apply Forall_impl. unfold base64_char, plain. lia. Qed.

Lemma plain_ascii s : Forall plain s -> Forall is_ascii s.
Proof. apply Forall_impl. unfold is_ascii, plain. lia. Qed.

Lemma plain_no_comma s : Forall plain s -> 44 ∉ s.
Proof. intros H Hin. rewrite list.Forall_forall in H. apply H in Hin. unfold plain in Hin. lia. Qed.

Lemma digits_plain n : 0 <= n -> Forall plain (fmt_u n).
Proof. intros Hn. eapply Forall_impl; [| by apply fmt_u_digits]. unfold plain. cbn. lia. Qed.

Lemma no_comma_app s t : 44 ∉ s -> 44 ∉ t -> 44 ∉ s ++ t.
Proof. rewrite elem_of_app. tauto. Qed.

Lemma strip_prefix_other c p d s : c <> d -> strip_prefix (c :: p) (d :: s) = None.
Proof. intros H. unfold strip_prefix. rewrite bool_decide_eq_false_2; [done |]. intros [k Hk]. injection Hk as Hk _. done. Qed.

Lemma strip_prefix_some p s t : strip_prefix p s = Some t -> s = p ++ t.
Proof.
  unfold strip_prefix. case_bool_decide as H; [| done]. destruct H as [k ->]. rewrite drop_app_length. congruence.
Qed.

(** A byte is taken back by the same byte. *)
Lemma xor_bytes_cancel a b : length a = length b -> zip_with Z.lxor (xor_bytes a b) b = a.
Proof.
  revert b. induction a as [| x a IH]; intros [| y b] Hl; try done. unfold xor_bytes in *. cbn [zip_with].
  rewrite Z.lxor_assoc, Z.lxor_nilpotent, Z.lxor_0_r. f_equal. apply IH. by injection Hl.
Qed.

Lemma lxor_byte a b : is_byte a -> is_byte b -> is_byte (Z.lxor a b).
Proof.
  unfold is_byte. intros Ha Hb. split; [apply Z.lxor_nonneg; lia |].
  destruct (Z.eq_dec (Z.lxor a b) 0) as [-> | Hne]; [lia |].
  assert (0 <= Z.lxor a b) by (apply Z.lxor_nonneg; lia).
  change 256 with (2 ^ 8). apply Z.log2_lt_pow2; [lia |].
  eapply Z.le_lt_trans; [apply Z.log2_lxor; lia |].
  assert (Hl : forall x, 0 <= x < 256 -> Z.log2 x < 8).
  { intros x Hx. destruct (Z.eq_dec x 0) as [-> | ?]; [done |]. apply Z.log2_lt_pow2; lia. }
  apply Z.max_lub_lt; auto.
Qed.

Lemma xor_bytes_bytes a b : Forall is_byte a -> Forall is_byte b -> Forall is_byte (xor_bytes a b).
Proof.
  intros Ha. revert b. induction Ha as [| x a Hx _ IH]; intros b Hb; [done |]. destruct Hb as [| y b Hy Hb]; [done |].
  constructor; [by apply lxor_byte | by apply IH].
Qed.

(** The comparison in constant time is a comparison. *)
Lemma diff_zero l d : foldl (fun diff '(a, b) => Z.lor diff (Z.lxor a b)) d l = 0 <-> d = 0 /\ Forall (fun '(a, b) => a = b) l.
Proof.
  revert d. induction l as [| [a b] l IH]; intros d; cbn [foldl].
  { split; [by intros -> | tauto]. }
  rewrite IH, Z.lor_eq_0_iff, Z.lxor_eq_0_iff, list.Forall_cons. tauto.
Qed.

Lemma prefix_match_spec server client : prefix_match server client = true <-> client `prefix_of` server.
Proof.
  unfold prefix_match, nonce_diff. rewrite andb_true_iff, Nat.leb_le, Z.eqb_eq, diff_zero. split.
  - intros (Hl & _ & Hf). revert server Hl Hf. induction client as [| c client IH]; intros server Hl Hf; [apply prefix_nil |].
    destruct server as [| s server]; [cbn in Hl; lia |]. cbn [length zip_with take] in *.
    change (zip (s :: server) (c :: client)) with ((s, c) :: zip server client) in Hf. cbn [take] in Hf.
    apply Forall_cons_1 in Hf as [-> Hf]. apply prefix_cons, IH; [lia | done].
  - intros [k ->]. rewrite length_app. split_and!; [lia | done |].
    induction client as [| c client IH]; [done |].
    change (zip ((c :: client) ++ k) (c :: client)) with ((c, c) :: zip (client ++ k) client). cbn [length take]. by constructor.
Qed.

(** ** The SCRAM exchange *)

Section scram.
Context `{CryptoLaws}.

(** What the client sends before its proof, and what both sides sign. *)
Definition without_proof (nonce : list Z) : list Z := str "c=" ++ encode64 (str "n,,") ++ str ",r=" ++ nonce.

Definition signed (bare server_first nonce : list Z) : list Z :=
  bare ++ str "," ++ server_first ++ str "," ++ without_proof nonce.

Definition proof_of (password salt : list Z) (count : Z) (message : list Z) : list Z :=
  let client_key := client_key_of (pbkdf2_sha256 password salt count) in
  xor_bytes client_key (hmac_sha256 (sha256 client_key) (utf8 message)).

Lemma client_final_eq state sf text nonce s64 count salt :
  from_utf8 sf = Some text ->
  server_first_fields (split 44 text) (mk_first None None None) = Ok (mk_first (Some nonce) (Some s64) (Some count)) ->
  utf8 (client_nonce state) `prefix_of` utf8 nonce -> decode64 (utf8 s64) = Some salt ->
  let message := signed (client_first_bare state) text nonce in
  scram_client_final state sf
  = Ok (mk_auth (password state) (client_nonce state) (client_first_bare state) (Some text) (Some message)
          (Some (RfcServer.server_key (RfcServer.enroll (password state) salt count))),
        utf8 (without_proof nonce ++ str ",p=" ++ encode64 (proof_of (password state) salt count message))).
Proof.
  intros Ht Hf Hp Hs message. unfold scram_client_final. rewrite Ht. cbn [ok_or result_bind]. rewrite Hf.
  cbn [result_bind server_nonce salt_b64 iterations ok_or].
  rewrite (proj2 (prefix_match_spec _ _) Hp). cbn [negb]. rewrite Hs. reflexivity.
Qed.

(** Whatever the server's first message is, a client that answers it found the fields
    in it and its own nonce in front of the server's. *)
Lemma fields_in parts f f' :
  server_first_fields parts f = Ok f' ->
  (forall n, server_nonce f' = Some n -> server_nonce f = Some n \/ str "r=" ++ n ∈ parts)
  /\ (forall s, salt_b64 f' = Some s -> salt_b64 f = Some s \/ str "s=" ++ s ∈ parts)
  /\ (forall i, iterations f' = Some i ->
        iterations f = Some i \/ exists text, parse_u 32 text = Some i /\ str "i=" ++ text ∈ parts).
Proof.
  revert f. induction parts as [| part parts IH]; intros f; cbn [server_first_fields]; [intros [= ->]; tauto |].
  assert (Hrest : forall g, server_first_fields parts g = Ok f' ->
    (forall n, server_nonce f' = Some n -> server_nonce g = Some n \/ str "r=" ++ n ∈ part :: parts)
    /\ (forall s, salt_b64 f' = Some s -> salt_b64 g = Some s \/ str "s=" ++ s ∈ part :: parts)
    /\ (forall i, iterations f' = Some i ->
          iterations g = Some i \/ exists text, parse_u 32 text = Some i /\ str "i=" ++ text ∈ part :: parts)).
  { intros g Hg. destruct (IH g Hg) as (Hn & Hs & Hi). split_and!.
    - intros n En. destruct (Hn n En); [by left | right; by apply elem_of_cons; right].
    - intros s Es. destruct (Hs s Es); [by left | right; by apply elem_of_cons; right].
    - intros i Ei. destruct (Hi i Ei) as [| (text & ? & ?)]; [by left | right; exists text; split; [done |]].
      by apply elem_of_cons; right. }
  destruct (strip_prefix (str "r=") part) as [v |] eqn:Er.
  { apply strip_prefix_some in Er as ->. intros Hg. destruct (Hrest _ Hg) as (Hn & Hs & Hi). split_and!; [| done | done].
    intros n En. destruct (Hn n En) as [[= <-] |]; [right; apply elem_of_cons; by left | by right]. }
  destruct (strip_prefix (str "s=") part) as [v |] eqn:Es.
  { apply strip_prefix_some in Es as ->. intros Hg. destruct (Hrest _ Hg) as (Hn & Hs & Hi). split_and!; [done | | done].
    intros n En. destruct (Hs n En) as [[= <-] |]; [right; apply elem_of_cons; by left | by right]. }
  destruct (strip_prefix (str "i=") part) as [v |] eqn:Ei; [| apply Hrest].
  destruct (parse_u 32 v) as [i |] eqn:Ep; [| done]. apply strip_prefix_some in Ei as ->.
  intros Hg. destruct (Hrest _ Hg) as (Hn & Hs & Hi). split_and!; [done | done |].
  intros j Ej. destruct (Hi j Ej) as [[= <-] |]; [right; exists v; split; [done |]; apply elem_of_cons; by left | by right].
Qed.

(** The fields a client has found in the server's first message. *)
Definition found (text nonce s64 : list Z) (count : Z) : Prop :=
  str "r=" ++ nonce ∈ split 44 text /\ str "s=" ++ s64 ∈ split 44 text
  /\ exists digits, parse_u 32 digits = Some count /\ str "i=" ++ digits ∈ split 44 text.

Lemma ok_or_ok {A} (o : option A) m a : ok_or o m = Ok a -> o = Some a.
Proof. destruct o; [by intros [= ->] | done]. Qed.

Lemma result_bind_ok {A B E} (r : result A E) (f : A -> result B E) b :
  result_bind r f = Ok b -> exists a, r = Ok a /\ f a = Ok b.
Proof. destruct r as [a |]; [eauto | done]. Qed.

Lemma client_final_found state sf state' final :
  scram_client_final state sf = Ok (state', final) ->
  exists text nonce s64 count salt,
    from_utf8 sf = Some text /\ found text nonce s64 count /\ decode64 (utf8 s64) = Some salt
    /\ utf8 (client_nonce state) `prefix_of` utf8 nonce
    /\ auth_message state' = Some (signed (client_first_bare state) text nonce)
    /\ server_key state' = Some (RfcServer.server_key (RfcServer.enroll (password state) salt count))
    /\ final = utf8 (without_proof nonce ++ str ",p="
                     ++ encode64 (proof_of (password state) salt count (signed (client_first_bare state) text nonce))).
Proof.
  intros Hr. pose proof Hr as Hrun. unfold scram_client_final in Hr.
  apply result_bind_ok in Hr as (text & Ht%ok_or_ok & Hr). apply result_bind_ok in Hr as ([nonce0 s0 i0] & Hf & Hr).
  cbn [server_nonce salt_b64 iterations] in Hr.
  apply result_bind_ok in Hr as (nonce & ->%ok_or_ok & Hr). apply result_bind_ok in Hr as (s64 & ->%ok_or_ok & Hr).
  apply result_bind_ok in Hr as (count & ->%ok_or_ok & Hr).
  destruct (prefix_match _ _) eqn:Hp; cbn [negb] in Hr; [| done]. apply prefix_match_spec in Hp.
  apply result_bind_ok in Hr as (salt & Hs%ok_or_ok & _).
  rewrite (client_final_eq state sf text nonce s64 count salt Ht Hf Hp Hs) in Hrun. injection Hrun as <- <-.
  destruct (fields_in _ _ _ Hf) as (Hn & Hsalt & Hi). exists text, nonce, s64, count, salt. split_and!; try done.
  unfold found. split_and!.
  - by destruct (Hn nonce eq_refl).
  - by destruct (Hsalt s64 eq_refl).
  - by destruct (Hi count eq_refl).
Qed.

(** The client takes exactly the signature of the key it derived. *)
Lemma verify_iff state sfin message key :
  auth_message state = Some message -> server_key state = Some key ->
  scram_verify_server state sfin = Ok tt
  <-> exists sig, from_utf8 sfin = Some (str "v=" ++ sig) /\ decode64 (utf8 sig) = Some (hmac_sha256 key (utf8 message)).
Proof.
  intros Hm Hk. unfold scram_verify_server. rewrite Hm, Hk. split.
  - intros Hr. apply result_bind_ok in Hr as (text & Ht%ok_or_ok & Hr).
    apply result_bind_ok in Hr as (sig & Hsig%ok_or_ok & Hr). apply strip_prefix_some in Hsig as ->.
    apply result_bind_ok in Hr as (bytes & Hb%ok_or_ok & Hr). cbn [ok_or result_bind] in Hr.
    case_bool_decide as He; [| done]. exists sig. by rewrite <- He.
  - intros (sig & -> & Hd). cbn [ok_or result_bind]. rewrite strip_prefix_app. cbn [ok_or result_bind].
    rewrite Hd. cbn [ok_or result_bind]. by rewrite bool_decide_eq_true_2.
Qed.

Lemma encode64_plain bytes : Forall is_byte bytes -> Forall plain (encode64 bytes).
Proof. intros H1. by apply base64_plain, encode64_chars. Qed.

Lemma str_plain s : forallb (fun c => (33 <=? c) && (c <=? 126) && negb (c =? 44)) (str s) = true -> Forall plain (str s).
Proof.
  intros H1. apply list.Forall_forall. intros c Hc. rewrite forallb_forall in H1. apply list_elem_of_In, H1 in Hc.
  unfold plain. lia.
Qed.

Lemma str_ascii s : forallb (fun c => (0 <=? c) && (c <? 128)) (str s) = true -> Forall is_ascii (str s).
Proof.
  intros H1. apply list.Forall_forall. intros c Hc. rewrite forallb_forall in H1. apply list_elem_of_In, H1 in Hc.
  unfold is_ascii. lia.
Qed.

(** The parts of the server's first message, and of the client's last. *)
Lemma first_parts st nonce : Forall plain nonce -> Forall is_byte (RfcServer.salt st) -> 0 <= RfcServer.count st ->
  split 44 (RfcServer.first st nonce)
  = [str "r=" ++ nonce; str "s=" ++ encode64 (RfcServer.salt st); str "i=" ++ fmt_u (RfcServer.count st)].
Proof.
  intros Hn Hs Hc.
  replace (RfcServer.first st nonce)
    with ((str "r=" ++ nonce) ++ 44 :: (str "s=" ++ encode64 (RfcServer.salt st)) ++ 44 :: (str "i=" ++ fmt_u (RfcServer.count st)))
    by (unfold RfcServer.first; rewrite <- !app_assoc; reflexivity).
  rewrite split_at by (apply no_comma_app; apply plain_no_comma; [by apply str_plain | done]).
  rewrite split_at by (apply no_comma_app; apply plain_no_comma; [by apply str_plain | by apply encode64_plain]).
  rewrite split_none by (apply no_comma_app; apply plain_no_comma; [by apply str_plain | by apply digits_plain]). done.
Qed.

Lemma first_ascii st nonce : Forall plain nonce -> Forall is_byte (RfcServer.salt st) -> 0 <= RfcServer.count st ->
  Forall is_ascii (RfcServer.first st nonce).
Proof.
  intros Hn Hs Hc. unfold RfcServer.first. rewrite !list.Forall_app. split_and!; try by apply str_ascii.
  - by apply plain_ascii.
  - by apply plain_ascii, encode64_plain.
  - by apply plain_ascii, digits_plain.
Qed.

Lemma first_found st nonce : Forall plain nonce -> Forall is_byte (RfcServer.salt st) -> in_u 32 (RfcServer.count st) ->
  server_first_fields (split 44 (RfcServer.first st nonce)) (mk_first None None None)
  = Ok (mk_first (Some nonce) (Some (encode64 (RfcServer.salt st))) (Some (RfcServer.count st))).
Proof.
  intros Hn Hs Hc. rewrite first_parts by (done || (unfold in_u in Hc; lia)). cbn [server_first_fields].
  rewrite strip_prefix_app. change (str "s=" ++ ?x) with (115 :: 61 :: x). change (str "i=" ++ ?x) with (105 :: 61 :: x).
  change (str "r=") with [114; 61]. change (str "s=") with [115; 61]. change (str "i=") with [105; 61].
  rewrite (strip_prefix_other 114 _ 115), (strip_prefix_other 114 _ 105), (strip_prefix_other 115 _ 105) by done.
  change (115 :: 61 :: ?x) with ([115; 61] ++ x). change (105 :: 61 :: ?x) with ([105; 61] ++ x).
  rewrite !strip_prefix_app, parse_u_fmt_u by done. done.
Qed.

Lemma answer_proof st nonce bare sf proof key :
  Forall plain nonce -> Forall is_byte proof -> let message := signed bare sf nonce in
  zip_with Z.lxor proof (hmac_sha256 (RfcServer.stored_key st) (utf8 message)) = key ->
  sha256 key = RfcServer.stored_key st ->
  RfcServer.answer st nonce bare sf (without_proof nonce ++ str ",p=" ++ encode64 proof)
  = Some (str "v=" ++ encode64 (RfcServer.signature st message)).
Proof.
  intros Hn Hp message Hk Hs. unfold RfcServer.answer, without_proof.
  assert (Hb : Forall is_byte (str "n,,")) by (by repeat constructor).
  replace ((str "c=" ++ encode64 (str "n,,") ++ str ",r=" ++ nonce) ++ str ",p=" ++ encode64 proof)
    with ((str "c=" ++ encode64 (str "n,,")) ++ 44 :: (str "r=" ++ nonce) ++ 44 :: (str "p=" ++ encode64 proof))
    by (rewrite <- !app_assoc; reflexivity).
  rewrite split_at by (apply no_comma_app; apply plain_no_comma; [by apply str_plain | by apply encode64_plain]).
  rewrite split_at by (apply no_comma_app; apply plain_no_comma; [by apply str_plain | done]).
  rewrite split_none by (apply no_comma_app; apply plain_no_comma; [by apply str_plain | by apply encode64_plain]).
  rewrite !bool_decide_eq_true_2 by done. cbn [andb]. rewrite strip_prefix_app. cbn [mbind option_bind].
  rewrite decode64_encode by done. cbn [mbind option_bind].
  replace (bare ++ str "," ++ sf ++ str "," ++ (str "c=" ++ encode64 (str "n,,")) ++ str "," ++ str "r=" ++ nonce) with message
    by (unfold message, signed, without_proof; by rewrite <- !app_assoc).
  rewrite Hk. by rewrite bool_decide_eq_true_2.
Qed.

Lemma length_utf8_ascii s : Forall is_ascii s -> length (utf8 s) = length s.
Proof. intros H1. by rewrite utf8_ascii. Qed.

Lemma without_proof_ascii nonce : Forall plain nonce -> Forall is_ascii (without_proof nonce).
Proof.
  intros Hn. unfold without_proof. rewrite !list.Forall_app. split_and!; try by apply str_ascii.
  - apply plain_ascii, encode64_plain. by repeat constructor.
  - by apply plain_ascii.
Qed.

(** A server and a client that have the same password take each other's messages. *)
Lemma exchange bytes p salt count suffix :
  Forall is_byte bytes -> Forall plain suffix -> Forall is_byte salt -> in_u 32 count ->
  let nonce := encode64 bytes ++ suffix in
  let st := RfcServer.enroll p salt count in
  let state := (scram_client_first bytes p).1 in
  let sf := RfcServer.first st nonce in
  exists state' final v,
    scram_client_final state (utf8 sf) = Ok (state', utf8 final)
    /\ RfcServer.answer st nonce (client_first_bare state) sf final = Some v
    /\ scram_verify_server state' (utf8 v) = Ok tt
    /\ (length (utf8 final) <= 86 + length nonce)%nat /\ (length (utf8 v) <= 70)%nat.
Proof.
  intros Hb Hsuf Hsalt Hc nonce st state sf.
  assert (Hn : Forall plain nonce) by (apply list.Forall_app; split; [by apply encode64_plain | done]).
  assert (Hascii : Forall is_ascii sf) by (apply first_ascii; [done | done | unfold in_u in Hc; cbn; lia]).
  set (message := signed (client_first_bare state) sf nonce). set (proof := proof_of p salt count message).
  assert (Hkey : forall key data, Forall is_byte (hmac_sha256 key data)) by (intros; apply hmac_digest).
  assert (Hproof : Forall is_byte proof) by (by apply xor_bytes_bytes; unfold client_key_of).
  assert (Lproof : length proof = 32%nat).
  { unfold proof, proof_of, xor_bytes, client_key_of. rewrite length_zip_with.
    by rewrite !(fun k d => proj2 (hmac_digest k d)). }
  exists (mk_auth p (client_nonce state) (client_first_bare state) (Some sf) (Some message) (Some (RfcServer.server_key st))),
    (without_proof nonce ++ str ",p=" ++ encode64 proof), (str "v=" ++ encode64 (RfcServer.signature st message)).
  assert (Hsig : Forall is_byte (RfcServer.signature st message)) by apply Hkey.
  assert (Hv : Forall is_ascii (str "v=" ++ encode64 (RfcServer.signature st message))).
  { apply list.Forall_app. split; [by apply str_ascii | by apply plain_ascii, encode64_plain]. }
  pose proof (encode64_length proof) as L1. assert (L2 : (length (encode64 (str "n,,")) <= 10)%nat) by exact (encode64_length (str "n,,")).
  pose proof (encode64_length (RfcServer.signature st message)) as L3.
  unfold RfcServer.signature in L3 at 2. rewrite (proj2 (hmac_digest _ _)) in L3. rewrite Lproof in L1.
  split_and!.
  - apply (client_final_eq state (utf8 sf) sf nonce (encode64 salt) count salt).
    + by apply from_utf8_utf8, is_ascii_char.
    + by apply first_found.
    + unfold nonce. rewrite utf8_app. by eexists.
    + rewrite utf8_ascii by (by apply plain_ascii, encode64_plain). by apply decode64_encode.
  - apply (answer_proof st nonce (client_first_bare state) sf proof (client_key_of (pbkdf2_sha256 p salt count)) Hn Hproof); [| done].
    apply xor_bytes_cancel. unfold client_key_of. by rewrite !(fun k d => proj2 (hmac_digest k d)).
  - eapply verify_iff; [done | done |]. exists (encode64 (RfcServer.signature st message)).
    split; [by apply from_utf8_utf8, is_ascii_char |].
    rewrite utf8_ascii by (by apply plain_ascii, encode64_plain). by rewrite decode64_encode.
  - rewrite length_utf8_ascii.
    + unfold without_proof. rewrite !length_app. change (length (str "c=")) with 2%nat.
      change (length (str ",r=")) with 3%nat. change (length (str ",p=")) with 3%nat. lia.
    + rewrite !list.Forall_app. split_and!; [by apply without_proof_ascii | by apply str_ascii | by apply plain_ascii, encode64_plain].
  - rewrite length_utf8_ascii, length_app by done. change (length (str "v=")) with 2%nat. lia.
Qed.

End scram.

(** ** The handshake over the wire *)

(** From [c] the client has sent [bytes], and has [rest] of the server's still to read. *)
Definition reached (um : Z) (c c' : Conn) (bytes rest : list Z) : Prop :=
  receives um (raw c') rest /\ accepting (raw c') /\ write_buf (raw c') = []
  /\ desynchronized (raw c') = desynchronized (raw c)
  /\ sent (stream (raw c')) = sent (stream (raw c)) ++ bytes.

Definition same_info (c c' : Conn) : Prop :=
  process_id c' = process_id c /\ secret_key c' = secret_key c /\ server_params c' = server_params c.

Definition encode_mechanisms (ms : list (list Z)) : list Z := (ms ≫= fun m => cstr (utf8 m)) ++ [0].

(** A mechanism has a name. *)
Definition mechanism_ok (m : list Z) : Prop := text_ok m /\ m <> [].

Lemma mechanisms_encode ms : Forall mechanism_ok ms -> mechanisms (encode_mechanisms ms) = Val ms.
Proof.
  intros Hms. unfold mechanisms.
  assert (Hl : (length ms <= length (encode_mechanisms ms))%nat).
  { unfold encode_mechanisms. rewrite length_app. clear. induction ms as [| m ms IH]; [cbn; lia |].
    rewrite bind_cons, length_app, length_cstr. cbn in *. lia. }
  revert Hl. generalize (length (encode_mechanisms ms)) as n. induction Hms as [| m ms [Hm Hne] _ IH]; intros n Hl.
  - destruct n; reflexivity.
  - destruct n as [| n]; [cbn in Hl; lia |]. remember (S n) as k. cbn [mechanisms_loop]. unfold SaslMechanisms.next.
    replace (encode_mechanisms (m :: ms)) with (cstr (utf8 m) ++ encode_mechanisms ms)
      by (unfold encode_mechanisms; rewrite bind_cons, <- app_assoc; done).
    pose proof (utf8_no_nul m Hm) as Hnul.
    assert (Hb : exists b bs, utf8 m = b :: bs /\ b <> 0).
    { destruct m as [| c m]; [done |]. destruct (encode_char_cons c) as (b & bs & Hc).
      exists b, (bs ++ utf8 m). assert (E : utf8 (c :: m) = b :: bs ++ utf8 m) by (unfold utf8; rewrite bind_cons, Hc; done).
      split; [done |]. intros ->. apply Hnul. rewrite E. by left. }
    destruct Hb as (b & bs & Hb & Hb0).
    rewrite (index_val 0 _ b) by (rewrite Hb; done). cbn [outcome_bind].
    rewrite (proj2 (Nat.eqb_neq _ 0)) by (rewrite length_app, length_cstr; lia).
    rewrite (proj2 (Z.eqb_neq b 0) Hb0), memchr_cstr by done.
    rewrite slice_range_val by (rewrite length_app, length_cstr; lia). cbn [outcome_bind].
    unfold slice. rewrite Nat.sub_0_r, drop_0, Backend.take_cstr. rewrite from_utf8_utf8 by (by destruct Hm).
    rewrite slice_from_val by (rewrite length_app, length_cstr; lia). cbn [outcome_bind]. rewrite drop_cstr. subst k.
    rewrite IH by (cbn in Hl; lia). done.
Qed.

Section wire.
Context `{CryptoLaws} (oc : bool) (um : Z) (Hu : 2 ^ 32 - 1 <= um) (debug_strs : list (list Z) -> list Z)
  (rng : nat -> list Z) (params : list (list Z * list Z)) (password : option (list Z)).

Abbreviation loop := (startup_loop oc um debug_strs rng params password).
Abbreviation handle := (on_message oc um debug_strs rng params password).

Lemma respond_appends message bytes c :
  (forall buf, message buf = Val (buf ++ bytes)) -> accepting (raw c) ->
  exists c', respond message c = Val (Ok tt, c') /\ sends (raw c) (raw c') (write_buf (raw c) ++ bytes) /\ same_info c c'.
Proof.
  intros Hm Ha. unfold respond, ubind, on_raw, emit. rewrite Hm. cbn [outcome_bind fst snd].
  match goal with |- context [flush ?d] => destruct (flush_sends d Ha) as (r & -> & Hs) end. cbn [outcome_bind fst snd].
  eexists. split; [done |]. split; [exact Hs | done].
Qed.

(** A message off the front of what the server sent. *)
Lemma loop_reads fuel d s c0 c bytes m rest :
  reached um c0 c bytes (encode m ++ rest) -> msg_ok m ->
  exists c', loop (S fuel) d s c = ubind (handle m d s) (fun next =>
      match next with None => uret tt | Some (d, s) => loop fuel d s end) c'
    /\ reached um c0 c' bytes rest /\ same_info c c'.
Proof.
  intros (Hr & Ha & Hw & Hd & Hs) Hm. cbn [startup_loop]. unfold ubind at 1, on_raw at 1.
  destruct (read_message_encode um Hu (raw c) m rest Hr Hm) as (r & -> & Hr' & (Ew & Es & Eb & Ed)). cbn [outcome_bind fst snd].
  eexists. split; [reflexivity |]. split; [| done]. unfold reached, accepting in *. cbn [raw].
  rewrite Ew, Es, Eb, Ed. done.
Qed.

(** A message that is answered. *)
Lemma loop_answers fuel d s d' s' c0 c bytes m rest reply :
  reached um c0 c bytes (encode m ++ rest) -> msg_ok m -> sendable reply ->
  (forall c, handle m d s c = ubind (respond (Frontend.write oc reply)) (fun _ => uret (Some (d', s'))) c) ->
  exists c', loop (S fuel) d s c = loop fuel d' s' c' /\ reached um c0 c' (bytes ++ frame reply) rest /\ same_info c c'.
Proof.
  intros Hr Hm Hs Hh. destruct (loop_reads fuel d s c0 c bytes m rest Hr Hm) as (c1 & -> & (Hr1 & Ha & Hw & Hd & Hse) & Hi).
  unfold ubind at 1. rewrite Hh. unfold ubind at 1.
  destruct (respond_appends (Frontend.write oc reply) (frame reply) c1 (fun buf => write_frame oc reply buf Hs) Ha) as (c2 & -> & (Er & Eb & Ed & Ha2 & Hw2 & Es) & Hi2). cbn [outcome_bind uret].
  exists c2. split; [done |]. split.
  - unfold reached. split_and!; [by apply (receives_same um (raw c1)) | done | done | congruence |].
    rewrite Es, Hse, Hw. by rewrite <- app_assoc.
  - unfold same_info in *. destruct Hi as (? & ? & ?), Hi2 as (? & ? & ?). split_and!; congruence.
Qed.

(** A message that is only taken note of. *)
Lemma loop_notes fuel d s d' s' c0 c bytes m rest (note : Conn -> Conn) :
  reached um c0 c bytes (encode m ++ rest) -> msg_ok m ->
  (forall c, raw (note c) = raw c) ->
  (forall c, handle m d s c = Val (Ok (Some (d', s')), note c)) ->
  exists c1, loop (S fuel) d s c = loop fuel d' s' (note c1) /\ reached um c0 (note c1) bytes rest /\ same_info c c1.
Proof.
  intros Hr Hm Hn Hh. destruct (loop_reads fuel d s c0 c bytes m rest Hr Hm) as (c1 & -> & Hr1 & Hi).
  exists c1. unfold ubind. rewrite Hh. cbn [outcome_bind]. split; [done |]. split; [| done].
  unfold reached in *. by rewrite Hn.
Qed.

(** The session parameters of a server, as it reports them. *)
Definition status_message (p : list Z * list Z) : Message := ParameterStatus (ParameterStatusBody.mk (utf8 p.1) (utf8 p.2)).

Definition status_ok (p : list Z * list Z) : Prop := text_ok p.1 /\ text_ok p.2 /\ msg_ok (status_message p).

Definition record_all (statuses : list (list Z * list Z)) (m : gmap (list Z) (list Z)) : gmap (list Z) (list Z) :=
  foldl (fun m p => <[p.1 := p.2]> m) m statuses.

Lemma handle_status p d s c : status_ok p ->
  handle (status_message p) d s c
  = Val (Ok (Some (d, s)), mk_full (raw c) (process_id c) (secret_key c) (<[p.1 := p.2]> (server_params c))).
Proof.
  intros ([Hn _] & [Hv _] & _). unfold status_message, on_message, parameter_status_name, parameter_status_value.
  cbn [ParameterStatusBody.name ParameterStatusBody.value]. by rewrite !str_of_utf8.
Qed.

Lemma loop_statuses statuses fuel d s c0 c bytes rest :
  Forall status_ok statuses ->
  reached um c0 c bytes ((statuses ≫= fun p => encode (status_message p)) ++ rest) ->
  exists c', loop (length statuses + fuel) d s c = loop fuel d s c' /\ reached um c0 c' bytes rest
    /\ process_id c' = process_id c /\ secret_key c' = secret_key c
    /\ server_params c' = record_all statuses (server_params c).
Proof.
  intros Hs. revert c. induction Hs as [| p statuses Hp _ IH]; intros c Hc; [by exists c |].
  rewrite bind_cons, <- app_assoc in Hc.
  destruct (loop_notes (length statuses + fuel) d s d s c0 c bytes (status_message p) _
    (fun c => mk_full (raw c) (process_id c) (secret_key c) (<[p.1 := p.2]> (server_params c))) Hc (proj2 (proj2 Hp)))
    as (c1 & E1 & Hc1 & (Ep & Ek & Em)); [done | intros; by apply handle_status |].
  destruct (IH _ Hc1) as (c' & E' & Hc' & Hi). exists c'. cbn [length Nat.add]. rewrite E1, E'. split; [done |].
  split; [done |]. cbn [process_id secret_key server_params] in Hi. rewrite Ep, Ek, Em in Hi. exact Hi.
Qed.

(** The last two messages of a handshake. *)
Lemma loop_ends fuel d s c0 c bytes key st rest :
  reached um c0 c bytes (encode (BackendKeyData key) ++ encode (ReadyForQuery st) ++ rest) ->
  fields_ok (BackendKeyData key) -> in_u 8 st ->
  exists c', loop (S (S fuel)) d s c = Val (Ok tt, c') /\ reached um c0 c' bytes rest
    /\ process_id c' = BackendKeyDataBody.process_id key /\ secret_key c' = BackendKeyDataBody.secret_key key
    /\ server_params c' = server_params c.
Proof.
  intros Hr Hk Hst.
  assert (Hm : msg_ok (BackendKeyData key)).
  { split; [done |]. destruct key. cbn [body]. rewrite length_app, !length_to_be. lia. }
  destruct (loop_notes (S fuel) d s d s c0 c bytes (BackendKeyData key) _
    (fun c => mk_full (raw c) (BackendKeyDataBody.process_id key) (BackendKeyDataBody.secret_key key) (server_params c)) Hr Hm)
    as (c1 & -> & Hc1 & (_ & _ & Em)); [done | done |].
  destruct (loop_reads fuel d s c0 _ bytes (ReadyForQuery st) rest Hc1 (ready_ok st Hst)) as (c2 & -> & Hc2 & (Ep & Ek & Es)).
  exists c2. split; [done |]. split; [done |]. cbn [process_id secret_key server_params] in *. split_and!; congruence.
Qed.

End wire.

(** The untagged first message. *)
Definition startup_frame (params : list (list Z * list Z)) : list Z :=
  let body := to_be 4 196608 ++ (startup_bytes params ≫= fun '(n, v) => cstr n ++ cstr v) ++ [0] in
  to_be 4 (4 + Z.of_nat (length body)) ++ body.

Definition startup_fits (params : list (list Z * list Z)) : Prop := Z.of_nat (length (startup_frame params)) < 2 ^ 31.

Lemma startup_message_appends params buf : startup_fits params ->
  Frontend.startup_message (startup_bytes params) buf = Val (buf ++ startup_frame params).
Proof.
  unfold startup_fits, startup_frame. rewrite startup_message_framed. cbv zeta. rewrite length_app, length_to_be. intros Hl.
  destruct (Z.ltb_spec (4 + Z.of_nat (length (to_be 4 196608 ++ (startup_bytes params ≫= fun '(n, v) => cstr n ++ cstr v) ++ [0]))) (2 ^ 31));
    [done | lia].
Qed.

(** [startup] has sent its first message when the loop begins. *)
Lemma startup_begins `{Crypto} oc um debug_strs rng params password c received :
  startup_fits params -> accepting (raw c) -> receives um (raw c) received ->
  exists c', startup oc um debug_strs rng params password c
      = startup_loop oc um debug_strs rng params password (S (length received)) 0 None c'
    /\ reached um c c' (write_buf (raw c) ++ startup_frame params) received /\ same_info c c'.
Proof.
  intros Hf Ha Hr. unfold startup, ubind.
  destruct (respond_appends (Frontend.startup_message (startup_bytes params)) (startup_frame params) c
    (fun buf => startup_message_appends params buf Hf) Ha) as (c1 & -> & (Er & Eb & Ed & Ha1 & Hw & Es) & Hi).
  cbn [outcome_bind]. apply (receives_same um _ (raw c1) _ Er Eb) in Hr. rewrite (budget_wire um _ _ Hr).
  exists c1. by split_and!.
Qed.

Section authentication.
Context `{CryptoLaws} (oc : bool) (um : Z) (Hu : 2 ^ 32 - 1 <= um) (debug_strs : list (list Z) -> list Z)
  (rng : nat -> list Z) (params : list (list Z * list Z)) (p : list Z).

Abbreviation loop := (startup_loop oc um debug_strs rng params (Some p)).
Abbreviation handle := (on_message oc um debug_strs rng params (Some p)).

Definition first_reply (bytes : list Z) : list Z := utf8 (str "n,," ++ str "n=,r=" ++ encode64 bytes).

Lemma first_reply_sendable bytes : Forall is_byte bytes -> length bytes = 18%nat ->
  sendable (SaslInitialResponse SCRAM_SHA_256 (first_reply bytes)).
Proof.
  intros Hb Hl. split; [done |]. cbn [msg_body]. rewrite !length_app, length_cstr, length_to_be. unfold first_reply.
  pose proof (encode64_length bytes) as L. rewrite length_utf8_ascii.
  - rewrite !length_app. change (length (str "n,,")) with 3%nat. change (length (str "n=,r=")) with 5%nat.
    change (length SCRAM_SHA_256) with 13%nat. lia.
  - rewrite !list.Forall_app. split_and!; [by apply str_ascii .. | by apply plain_ascii, encode64_plain].
Qed.

Lemma loop_offer fuel s c0 c bytes mechs rest :
  Forall mechanism_ok mechs -> SCRAM_SHA_256 ∈ mechs -> Forall is_byte (rng 0%nat) -> length (rng 0%nat) = 18%nat ->
  msg_ok (AuthenticationSasl (encode_mechanisms mechs)) ->
  reached um c0 c bytes (encode (AuthenticationSasl (encode_mechanisms mechs)) ++ rest) ->
  exists c', loop (S fuel) 0%nat s c = loop fuel 1%nat (Some (scram_client_first (rng 0%nat) p).1) c'
    /\ reached um c0 c' (bytes ++ frame (SaslInitialResponse SCRAM_SHA_256 (first_reply (rng 0%nat)))) rest /\ same_info c c'.
Proof.
  intros Hms Hin Hb Hl Hm Hr. eapply (loop_answers oc um Hu); [exact Hr | done | by apply first_reply_sendable |].
  intros d. cbn [on_message]. unfold ubind at 1, lift at 1. cbn [ok_or outcome_bind]. unfold ubind at 1.
  rewrite mechanisms_encode by done. cbn [outcome_bind]. by rewrite bool_decide_eq_true_2.
Qed.

Lemma loop_challenge fuel draws state state' c0 c bytes sf final rest :
  scram_client_final state sf = Ok (state', utf8 final) ->
  msg_ok (AuthenticationSaslContinue sf) -> sendable (SaslResponse (utf8 final)) ->
  reached um c0 c bytes (encode (AuthenticationSaslContinue sf) ++ rest) ->
  exists c', loop (S fuel) draws (Some state) c = loop fuel draws (Some state') c'
    /\ reached um c0 c' (bytes ++ frame (SaslResponse (utf8 final))) rest /\ same_info c c'.
Proof.
  intros Hf Hm Hs Hr. eapply (loop_answers oc um Hu); [exact Hr | done | exact Hs |].
  intros d. cbn [on_message]. unfold ubind at 1, lift at 1. cbn [ok_or outcome_bind]. unfold ubind at 1, lift at 1.
  rewrite Hf. done.
Qed.

Lemma loop_final fuel draws state c0 c bytes v rest :
  scram_verify_server state v = Ok tt -> msg_ok (AuthenticationSaslFinal v) ->
  reached um c0 c bytes (encode (AuthenticationSaslFinal v) ++ rest) ->
  exists c', loop (S fuel) draws (Some state) c = loop fuel draws None c' /\ reached um c0 c' bytes rest /\ same_info c c'.
Proof.
  intros Hv Hm Hr. destruct (loop_notes oc um Hu debug_strs rng params (Some p) fuel draws (Some state) draws None c0 c bytes
    (AuthenticationSaslFinal v) rest id Hr Hm) as (c1 & E & H1); [done | | by exists c1].
  intros d. cbn [on_message]. unfold ubind at 1, lift at 1. cbn [ok_or outcome_bind]. unfold ubind, lift. by rewrite Hv.
Qed.

Lemma loop_ok fuel draws s c0 c bytes rest :
  reached um c0 c bytes (encode AuthenticationOk ++ rest) ->
  exists c', loop (S fuel) draws s c = loop fuel draws s c' /\ reached um c0 c' bytes rest /\ same_info c c'.
Proof.
  intros Hr. destruct (loop_notes oc um Hu debug_strs rng params (Some p) fuel draws s draws s c0 c bytes
    AuthenticationOk rest id Hr) as (c1 & E & H1); [done | done | done | by exists c1].
Qed.

End authentication.

Lemma same_info_trans a b c : same_info a b -> same_info b c -> same_info a c.
Proof. unfold same_info. intros (? & ? & ?) (? & ? & ?). split_and!; congruence. Qed.

Lemma encode_pos m : (0 < length (encode m))%nat.
Proof. unfold encode. cbn [length]. lia. Qed.

Lemma length_statuses (statuses : list (list Z * list Z)) :
  (length statuses <= length (statuses ≫= fun p => encode (status_message p)))%nat.
Proof.
  induction statuses as [| p statuses IH]; [done |]. rewrite bind_cons, length_app. unfold encode at 1. cbn [length]. lia.
Qed.

(** The handshake of a server that has the password. *)
Lemma handshake `{CryptoLaws} oc um debug_strs rng params p mechs sf v final state' statuses key st rest c :
  2 ^ 32 - 1 <= um -> startup_fits params -> Forall is_byte (rng 0%nat) -> length (rng 0%nat) = 18%nat ->
  Forall mechanism_ok mechs -> SCRAM_SHA_256 ∈ mechs ->
  scram_client_final (scram_client_first (rng 0%nat) p).1 sf = Ok (state', utf8 final) ->
  scram_verify_server state' v = Ok tt -> sendable (SaslResponse (utf8 final)) ->
  msg_ok (AuthenticationSasl (encode_mechanisms mechs)) -> msg_ok (AuthenticationSaslContinue sf) ->
  msg_ok (AuthenticationSaslFinal v) -> Forall status_ok statuses -> fields_ok (BackendKeyData key) -> in_u 8 st ->
  accepting (raw c) ->
  receives um (raw c) (encode (AuthenticationSasl (encode_mechanisms mechs)) ++ encode (AuthenticationSaslContinue sf)
    ++ encode (AuthenticationSaslFinal v) ++ encode AuthenticationOk ++ (statuses ≫= fun p => encode (status_message p))
    ++ encode (BackendKeyData key) ++ encode (ReadyForQuery st) ++ rest) ->
  exists c', startup oc um debug_strs rng params (Some p) c = Val (Ok tt, c')
    /\ reached um c c' (write_buf (raw c) ++ startup_frame params
         ++ frame (SaslInitialResponse SCRAM_SHA_256 (first_reply (rng 0%nat))) ++ frame (SaslResponse (utf8 final))) rest
    /\ process_id c' = BackendKeyDataBody.process_id key /\ secret_key c' = BackendKeyDataBody.secret_key key
    /\ server_params c' = record_all statuses (server_params c).
Proof.
  intros Hu Hf Hb Hl Hms Hin Hcf Hv Hsend Hm1 Hm2 Hm3 Hss Hk Hst Ha Hr.
  destruct (startup_begins oc um debug_strs rng params (Some p) c _ Hf Ha Hr) as (c1 & -> & H1 & I1).
  match goal with |- context [startup_loop _ _ _ _ _ _ ?n] =>
    assert (exists k, n = S (S (S (S (length statuses + S (S k)))))) as [k Hn] end.
  { pose proof (length_statuses statuses) as L.
    match goal with |- exists k, S ?n = _ => assert (6 + length statuses <= n)%nat as Hle end.
    { rewrite !length_app.
      pose proof (encode_pos (AuthenticationSasl (encode_mechanisms mechs))). pose proof (encode_pos (AuthenticationSaslContinue sf)).
      pose proof (encode_pos (AuthenticationSaslFinal v)). pose proof (encode_pos AuthenticationOk).
      pose proof (encode_pos (BackendKeyData key)). pose proof (encode_pos (ReadyForQuery st)). lia. }
    match goal with |- exists k, S ?n = _ => exists (n - (5 + length statuses))%nat; lia end. }
  rewrite Hn. clear Hn.
  destruct (loop_offer oc um Hu debug_strs rng params p (S (S (S (length statuses + S (S k))))) None c c1 _ mechs _ Hms Hin Hb Hl Hm1 H1) as (c2 & -> & H2 & I2).
  destruct (loop_challenge oc um Hu debug_strs rng params p (S (S (length statuses + S (S k)))) 1%nat _ state' c c2 _ sf final _ Hcf Hm2 Hsend H2) as (c3 & -> & H3 & I3).
  destruct (loop_final oc um Hu debug_strs rng params p (S (length statuses + S (S k))) 1%nat state' c c3 _ v _ Hv Hm3 H3) as (c4 & -> & H4 & I4).
  destruct (loop_ok oc um Hu debug_strs rng params p (length statuses + S (S k)) 1 None c c4 _ _ H4) as (c5 & -> & H5 & I5).
  destruct (loop_statuses oc um Hu debug_strs rng params (Some p) statuses (S (S k)) 1%nat None c c5 _ _ Hss H5) as (c6 & -> & H6 & Ep & Ek & Es).
  destruct (loop_ends oc um Hu debug_strs rng params (Some p) k 1%nat None c c6 _ key st rest H6 Hk Hst) as (c7 & -> & H7 & Ep' & Ek' & Es').
  exists c7. split; [done |]. rewrite <- !app_assoc in H7. split; [exact H7 |]. split_and!; [done | done |].
  rewrite Es', Es. f_equal.
  destruct (same_info_trans _ _ _ I1 (same_info_trans _ _ _ I2 (same_info_trans _ _ _ I3 (same_info_trans _ _ _ I4 I5)))) as (_ & _ & ?). done.
Qed.

(** ** Whatever the server and the transport do *)

Lemma split_part_length d s part : part ∈ split d s -> (length (utf8 part) <= length (utf8 s))%nat.
Proof.
  revert part. induction s as [| c s IH]; intros part; cbn [split].
  { intros ->%list_elem_of_singleton. done. }
  assert (E : length (utf8 (c :: s)) = (length (encode_char c) + length (utf8 s))%nat)
    by (unfold utf8; by rewrite bind_cons, length_app).
  rewrite E. destruct (c =? d).
  - intros [-> | H]%elem_of_cons; [cbn; lia | apply IH in H; lia].
  - destruct (split d s) as [| q qs].
    + intros ->%list_elem_of_singleton. unfold utf8. rewrite bind_cons, app_nil_r. lia.
    + intros [-> | H]%elem_of_cons.
      * specialize (IH q ltac:(by left)). unfold utf8 in *. rewrite bind_cons, length_app. lia.
      * specialize (IH part ltac:(by right)). lia.
Qed.

Section total.
Context `{CryptoLaws} (oc : bool) (um : Z) (Hu : 2 ^ 32 - 1 <= um) (debug_strs : list (list Z) -> list Z)
  (rng : nat -> list Z) (params : list (list Z * list Z)) (password : option (list Z)).
Context (Hrng : forall n, Forall is_byte (rng n) /\ length (rng n) = 18%nat)
  (Hpw : forall p, password = Some p -> Z.of_nat (length (utf8 p)) < 2 ^ 30).

Definition utotal {A} (m : U A) : Prop :=
  forall c, bounded um (raw c) -> exists r c', m c = Val (r, c') /\ moves um (raw c) (raw c').

Lemma utotal_ret {A} (a : A) : utotal (uret a).
Proof. intros c Hc. exists (Ok a), c. by split. Qed.

Lemma utotal_lift {A} (r : result A Error) : utotal (lift r).
Proof. intros c Hc. exists r, c. by split. Qed.

Lemma utotal_bind {A B} (m : U A) (f : A -> U B) : utotal m -> (forall a, utotal (f a)) -> utotal (ubind m f).
Proof.
  intros Hm Hf c Hc. unfold ubind. destruct (Hm c Hc) as (r & c1 & -> & H1). cbn [outcome_bind].
  destruct r as [a | e]; [| eauto]. destruct (Hf a c1) as (r & c2 & -> & H2); [by destruct H1 |].
  exists r, c2. split; [done | by eapply moves_trans].
Qed.

(** A value that is not there ends the handshake. *)
Lemma utotal_lift_bind {A B} (r : result A Error) (f : A -> U B) :
  (forall a, r = Ok a -> utotal (f a)) -> utotal (ubind (lift r) f).
Proof. intros Hf c Hc. unfold ubind, lift. cbn [outcome_bind]. destruct r as [a | e]; [by apply Hf | by exists (Err e), c]. Qed.

Lemma utotal_raw {A} (m : C A) : total um m -> utotal (on_raw m).
Proof. intros Hm c Hc. unfold on_raw. destruct (Hm (raw c) Hc) as (r & c' & -> & Hmv). cbn [outcome_bind]. eexists _, _. by split. Qed.

Lemma utotal_respond m bytes : (forall buf, m buf = Val (buf ++ bytes)) -> utotal (respond m).
Proof.
  intros Hm. apply utotal_bind; [| intros _; apply utotal_raw, total_flush].
  apply utotal_raw. intros c Hc. unfold emit. rewrite Hm. eexists _, _. by split.
Qed.

Lemma utotal_note (note : Conn -> Conn) : (forall c, raw (note c) = raw c) -> utotal (fun c => Val (Ok tt, note c)).
Proof. intros Hn c Hc. exists (Ok tt), (note c). split; [done |]. by rewrite Hn. Qed.

Lemma total_mechanisms data : exists ms, mechanisms data = Val ms.
Proof.
  unfold mechanisms. assert (Hl : (length data < S (length data))%nat) by lia. revert Hl.
  generalize (S (length data)) as n. intros n. revert data. induction n as [| n IH]; intros data Hl; [lia |].
  cbn [mechanisms_loop]. pose proof (sasl_next_no_panic data) as Hp. destruct (SaslMechanisms.next data) as [[[m |] buf] |] eqn:E;
    cbn [outcome_bind]; [| eauto | done].
  destruct (IH buf) as (ms & ->); [| cbn [outcome_bind]; eauto].
  revert E. unfold SaslMechanisms.next. destruct data as [| b data]; [done |]. cbn [length Nat.eqb].
  rewrite (index_val 0 _ b) by done. cbn [outcome_bind]. destruct (b =? 0); [done |].
  destruct (memchr 0 (b :: data)) as [pos |] eqn:Em; [| done]. apply memchr_lt in Em.
  rewrite slice_range_val by lia. cbn [outcome_bind]. destruct (from_utf8 _); [| done].
  rewrite slice_from_val by lia. cbn [outcome_bind]. intros [= _ <-]. rewrite length_drop. cbn [length] in *. lia.
Qed.

Lemma password_sendable text : Z.of_nat (length text) < 2 ^ 30 -> sendable (PasswordMessage text).
Proof. intros Hl. split; [done |]. cbn [msg_body]. rewrite length_cstr. lia. Qed.

Lemma md5_password_length u p salt : length (utf8 (compute_md5_password u p salt)) = 35%nat.
Proof.
  unfold compute_md5_password, hex_encode. set (h := md5 _). destruct (md5_digest (utf8 (md5 (utf8 p ++ utf8 u) ≫= hex_byte) ++ salt)) as [Hb Hl].
  fold h in Hb, Hl. rewrite length_utf8_ascii.
  - rewrite length_app, length_hex, Hl. done.
  - apply list.Forall_app. split; [by apply str_ascii |]. clear - Hb. induction Hb as [| b bs Hb _ IH]; [constructor |].
    rewrite bind_cons. apply list.Forall_app. split; [| done]. unfold hex_byte, hex_digit, is_byte in *.
    repeat constructor; unfold is_ascii; repeat case_match; Z.div_mod_to_equations; lia.
Qed.

Lemma final_sendable state sf state' final : Forall is_byte sf -> Z.of_nat (length sf) < 2 ^ 30 ->
  scram_client_final state sf = Ok (state', final) -> sendable (SaslResponse final).
Proof.
  intros Hb Hl Hf. destruct (client_final_found _ _ _ _ Hf) as (text & nonce & s64 & count & salt & Ht & (Hin & _) & _ & _ & _ & _ & ->).
  apply split_part_length in Hin. destruct (from_utf8_sound _ _ Hb Ht) as [_ Hsf]. rewrite <- Hsf, utf8_app, length_app in Hin.
  split; [done |]. cbn [msg_body]. set (proof := proof_of _ _ _ _).
  assert (Hproof : Forall is_byte proof) by (apply xor_bytes_bytes; unfold client_key_of; apply hmac_digest).
  assert (Lproof : length proof = 32%nat).
  { unfold proof, proof_of, xor_bytes, client_key_of. rewrite length_zip_with. by rewrite !(fun k d => proj2 (hmac_digest k d)). }
  pose proof (encode64_length proof) as L1. assert (L2 : (length (encode64 (str "n,,")) <= 10)%nat) by exact (encode64_length (str "n,,")).
  unfold without_proof. rewrite !utf8_app, !length_app.
  rewrite (length_utf8_ascii (encode64 proof)) by (by apply plain_ascii, encode64_plain).
  rewrite (length_utf8_ascii (encode64 (str "n,,"))) by (apply plain_ascii, encode64_plain; by repeat constructor).
  change (length (utf8 (str "c="))) with 2%nat. change (length (utf8 (str ",r="))) with 3%nat. change (length (utf8 (str ",p="))) with 3%nat.
  rewrite Lproof in L1. lia.
Qed.

Lemma utotal_write {A} m (k : U A) : sendable m -> utotal k -> utotal (let~ _ := respond (Frontend.write oc m) in k).
Proof. intros Hm Hk. apply utotal_bind; [| done]. apply (utotal_respond _ (frame m)). intros buf. by apply write_frame. Qed.

Lemma total_message msg draws s : Forall is_byte (encode msg) -> Z.of_nat (length (encode msg)) < 2 ^ 30 ->
  utotal (on_message oc um debug_strs rng params password msg draws s).
Proof.
  intros Hb Hl. unfold encode in Hb, Hl. apply Forall_cons_1 in Hb as [_ [_ Hb]%Forall_app]. cbn [length] in Hl. rewrite length_app in Hl.
  destruct msg; cbn [on_message body] in *; try by apply utotal_ret || by apply utotal_lift.
  - apply utotal_lift_bind. intros p Hp%ok_or_ok.
    apply (utotal_write (PasswordMessage (utf8 p))); [by apply password_sendable, Hpw | apply utotal_ret].
  - apply utotal_lift_bind. intros p Hp%ok_or_ok.
    apply (utotal_write (PasswordMessage (utf8 (compute_md5_password (user params) p salt)))); [| apply utotal_ret].
    apply password_sendable. rewrite md5_password_length. lia.
  - apply utotal_lift_bind. intros p Hp%ok_or_ok. destruct (total_mechanisms data) as [ms Hms].
    apply utotal_bind; [intros c Hc; rewrite Hms; exists (Ok ms), c; by split |]. intros mechs.
    case_bool_decide; [| apply utotal_lift]. unfold scram_client_first.
    apply (utotal_write (SaslInitialResponse SCRAM_SHA_256 (first_reply (rng draws)))); [| apply utotal_ret].
    destruct (Hrng draws). by apply first_reply_sendable.
  - apply utotal_lift_bind. intros state Hs. apply utotal_lift_bind. intros [state' final] Hf.
    apply (utotal_write (SaslResponse final)); [| apply utotal_ret]. rewrite length_app in Hl. apply Forall_app in Hb as [_ Hb].
    apply (final_sendable _ _ _ _ Hb ltac:(lia) Hf).
  - apply utotal_lift_bind. intros state _. apply utotal_lift_bind. intros _ _. apply utotal_ret.
  - apply utotal_bind; [by apply (utotal_note (fun c => mk_full (raw c) _ _ _)) | intros _; apply utotal_ret].
  - apply utotal_bind; [apply utotal_raw, total_consume_error, Hu | intros e; apply utotal_lift].
  - apply utotal_bind; [| intros _; apply utotal_ret].
    repeat case_match; try apply utotal_ret. by apply (utotal_note (fun c => mk_full (raw c) _ _ _)).
Qed.

Lemma total_loop fuel draws s c :
  bounded um (raw c) -> (length (wire (raw c)) < fuel)%nat -> Z.of_nat (length (wire (raw c))) < 2 ^ 30 ->
  exists r c', startup_loop oc um debug_strs rng params password fuel draws s c = Val (r, c') /\ moves um (raw c) (raw c').
Proof.
  revert draws s c. induction fuel as [| fuel IH]; intros draws s c Hc Hf Hl; [lia |]. cbn [startup_loop].
  unfold ubind at 1, on_raw. destruct (read_message_total um Hu (raw c) Hc) as (r & c1 & Hr & Hm & Hlt). rewrite Hr. cbn [outcome_bind fst snd].
  destruct r as [msg | e]; [| by eexists _, _]. specialize (Hlt eq_refl).
  destruct (read_message_sound um Hu (raw c) msg c1 Hc Hr) as [_ Hw].
  assert (Hbytes : Forall is_byte (encode msg)) by (destruct Hc as [Hc _]; rewrite Hw in Hc; by apply Forall_app in Hc as [? _]).
  unfold ubind at 1.
  destruct (total_message msg draws s Hbytes ltac:(rewrite Hw, length_app in Hl; lia)
    (mk_full c1 (process_id c) (secret_key c) (server_params c)) ltac:(by destruct Hm)) as (r & c2 & -> & Hm2). cbn [outcome_bind].
  cbn [raw] in Hm2. assert (Hm3 : moves um (raw c) (raw c2)) by (by eapply moves_trans).
  destruct r as [[[d s'] |] | e]; [| by eexists _, _ ..].
  destruct (IH d s' c2) as (r & c3 & -> & Hm4).
  - by destruct Hm2.
  - destruct Hm2 as (_ & ? & _). lia.
  - destruct Hm3 as (_ & ? & _). lia.
  - exists r, c3. split; [done | by eapply moves_trans].
Qed.

End total.

(** ** A client without a password *)

Lemma drain_sent um n c r c' : drain_until_ready_bounded um n c = Val (r, c') -> sent (stream c') = sent (stream c).
Proof.
  revert c. induction n as [| n IH]; intros c; cbn [drain_until_ready_bounded]; [by intros [= _ <-] |].
  destruct (read_message um c) as [[res c1] |] eqn:Hr; cbn [outcome_bind]; [| done].
  destruct (read_message_only um c res c1 Hr) as (_ & Hs & _). rewrite <- Hs.
  destruct res as [m |]; [| by intros [= _ <-]]. destruct m; try apply IH. by intros [= _ <-].
Qed.

Lemma consume_error_sent um body c r c' : consume_error um body c = Val (r, c') -> sent (stream c') = sent (stream c).
Proof.
  unfold consume_error, cbind. destruct (parse_error_response body); cbn [outcome_bind]; [| done].
  destruct (drain_until_ready_bounded um POST_ERROR_DRAIN_CAP c) as [[res c1] |] eqn:Hd; cbn [outcome_bind]; [| done].
  apply drain_sent in Hd. destruct res; unfold cret; by intros [= _ <-].
Qed.

Section quiet.
Context `{Crypto} (oc : bool) (um : Z) (debug_strs : list (list Z) -> list Z)
  (rng : nat -> list Z) (params : list (list Z * list Z)).

Lemma message_quiet msg draws c r c' :
  on_message oc um debug_strs rng params None msg draws None c = Val (r, c') ->
  sent (stream (raw c')) = sent (stream (raw c)) /\ (forall d s, r = Ok (Some (d, s)) -> s = None).
Proof.
  destruct msg; cbn [on_message]; unfold ubind, lift, uret; cbn [ok_or outcome_bind]; try (intros [= <- <-]; split; [done | congruence]).
  - unfold on_raw. destruct (consume_error um storage (raw c)) as [[res c1] |] eqn:E; cbn [outcome_bind fst snd]; [| done].
    apply consume_error_sent in E. destruct res; intros [= <- <-]; by split.
  - repeat case_match; cbn [outcome_bind] in *; simplify_eq; intros [= <- <-]; (split; [done | congruence]).
Qed.

Lemma loop_quiet fuel draws c r c' :
  startup_loop oc um debug_strs rng params None fuel draws None c = Val (r, c') -> sent (stream (raw c')) = sent (stream (raw c)).
Proof.
  revert draws c. induction fuel as [| fuel IH]; intros draws c; cbn [startup_loop]; [done |]. unfold ubind at 1, on_raw.
  destruct (read_message um (raw c)) as [[res c1] |] eqn:Hr; cbn [outcome_bind fst snd]; [| done].
  destruct (read_message_only um _ res c1 Hr) as (_ & Hs & _). rewrite <- Hs.
  destruct res as [msg | e]; [| by intros [= _ <-]]. unfold ubind.
  destruct (on_message _ _ _ _ _ _ _ _ _ _) as [[res c2] |] eqn:Hm; cbn [outcome_bind]; [| done].
  apply message_quiet in Hm as [Hm Hn]. cbn [raw] in Hm. rewrite <- Hm.
  destruct res as [[[d s] |] | e]; [| by intros [= _ <-] ..]. rewrite (Hn d s eq_refl). apply IH.
Qed.

(** What a write sends is a prefix of what it was given. *)
Lemma flush_prefix c r c' : flush c = Val (r, c') -> exists k, sent (stream c') = sent (stream c) ++ take k (write_buf c).
Proof.
  unfold flush. destruct (write_buf c) as [| b buf] eqn:Hb; [intros [= _ <-]; exists 0%nat; by rewrite app_nil_r |].
  unfold cbind, on_stream, write_all. intros Hf.
  assert (Hall : take (length (b :: buf)) (b :: buf) = b :: buf) by apply firstn_all.
  destruct (writes (stream c)) as [| [[n e] |] ws]; cbn [outcome_bind] in Hf; [| injection Hf as _ <-; by exists n |];
    exists (length (b :: buf)); rewrite Hall; revert Hf; unfold flush_transport, clear_write_buf; cbn [stream writes];
    repeat case_match; simplify_eq; cbn [outcome_bind]; by intros [= _ <-].
Qed.

Lemma respond_prefix message bytes c r c' :
  (forall buf, message buf = Val (buf ++ bytes)) -> respond message c = Val (r, c') ->
  exists k, sent (stream (raw c')) = sent (stream (raw c)) ++ take k (write_buf (raw c) ++ bytes).
Proof.
  intros Hm. unfold respond, ubind, on_raw, emit. rewrite Hm. cbn [outcome_bind fst snd raw].
  match goal with |- context [flush ?d] => destruct (flush d) as [[res c1] |] eqn:Hf end; cbn [outcome_bind fst snd]; [| done].
  apply flush_prefix in Hf. by intros [= _ <-].
Qed.

End quiet.

(** ** The properties *)

(** C9. A client and an RFC 5802 server that hold the same password authenticate each
    other, however the transport cuts the server's bytes: the server takes the client's
    proof, the client takes the server's signature, [startup] sends exactly the startup
    message, the client's first and the client's last message, keeps the key data and the
    last value of each parameter, and leaves what follows to the first request. Against
    any other server, a client that gets through both of its steps was answered with its
    own nonce in front, and with the signature over the exchange that only the server key
    of its password gives, under the salt and count it was sent. But [startup] does not
    ask for that step: a server that offers SCRAM, proves nothing and says
    [AuthenticationOk] is taken as authenticated. *)
Theorem scram_authenticates `{CryptoLaws} oc um debug_strs rng params p salt count suffix mechs :
  2 ^ 32 - 1 <= um -> startup_fits params -> Forall is_byte (rng 0%nat) -> length (rng 0%nat) = 18%nat ->
  Forall plain suffix -> Z.of_nat (length suffix) < 2 ^ 30 -> Forall is_byte salt -> in_u 32 count ->
  Forall mechanism_ok mechs -> SCRAM_SHA_256 ∈ mechs ->
  let nonce := encode64 (rng 0%nat) ++ suffix in
  let stored := RfcServer.enroll p salt count in
  let bare := str "n=,r=" ++ encode64 (rng 0%nat) in
  let sf := RfcServer.first stored nonce in
  let offer := AuthenticationSasl (encode_mechanisms mechs) in
  let challenge := AuthenticationSaslContinue (utf8 sf) in
  msg_ok offer -> msg_ok challenge ->
  (exists final v, RfcServer.answer stored nonce bare sf final = Some v
   /\ forall c statuses key st rest,
        accepting (raw c) -> Forall status_ok statuses -> fields_ok (BackendKeyData key) -> in_u 8 st ->
        receives um (raw c) (encode offer ++ encode challenge ++ encode (AuthenticationSaslFinal (utf8 v))
          ++ encode AuthenticationOk ++ (statuses ≫= fun p => encode (status_message p))
          ++ encode (BackendKeyData key) ++ encode (ReadyForQuery st) ++ rest) ->
        exists c', startup oc um debug_strs rng params (Some p) c = Val (Ok tt, c')
          /\ reached um c c' (write_buf (raw c) ++ startup_frame params
               ++ frame (SaslInitialResponse SCRAM_SHA_256 (utf8 (str "n,," ++ bare))) ++ frame (SaslResponse (utf8 final))) rest
          /\ process_id c' = BackendKeyDataBody.process_id key /\ secret_key c' = BackendKeyDataBody.secret_key key
          /\ server_params c' = record_all statuses (server_params c))
  /\ (forall sf' state final sfin,
        scram_client_final (scram_client_first (rng 0%nat) p).1 sf' = Ok (state, final) ->
        scram_verify_server state sfin = Ok tt ->
        exists text n s64 i salt' sig, from_utf8 sf' = Some text /\ found text n s64 i /\ decode64 (utf8 s64) = Some salt'
          /\ utf8 (encode64 (rng 0%nat)) `prefix_of` utf8 n /\ from_utf8 sfin = Some (str "v=" ++ sig)
          /\ decode64 (utf8 sig) = Some (RfcServer.signature (RfcServer.enroll p salt' i) (signed bare text n)))
  /\ (forall c st rest, accepting (raw c) -> in_u 8 st ->
        receives um (raw c) (encode offer ++ encode AuthenticationOk ++ encode (ReadyForQuery st) ++ rest) ->
        exists c', startup oc um debug_strs rng params (Some p) c = Val (Ok tt, c')).
Proof.
  intros Hu Hf Hb Hl Hsuf Hsl Hsalt Hc Hms Hin nonce stored bare sf offer challenge Hoffer Hchal. split_and!.
  - destruct (exchange (rng 0%nat) p salt count suffix Hb Hsuf Hsalt Hc) as (state' & final & v & Hcf & Hans & Hv & Lf & Lv).
    exists final, v. split; [exact Hans |]. intros c statuses key st rest Ha Hss Hk Hst Hr.
    apply (handshake oc um debug_strs rng params p mechs (utf8 sf) (utf8 v) final state' statuses key st rest c); try done.
    + split; [done |]. cbn [msg_body]. rewrite length_app in Lf. pose proof (encode64_length (rng 0%nat)). lia.
    + split; [done |]. cbn [body]. rewrite length_app, length_to_be. lia.
  - intros sf' state final sfin Hcf Hv. apply client_final_found in Hcf as (text & n & s64 & i & salt' & Ht & Hfound & Hs & Hp & Hm & Hk & _).
    apply (verify_iff _ _ _ _ Hm Hk) in Hv as (sig & Hsig & Hd). by exists text, n, s64, i, salt', sig.
  - intros c st rest Ha Hst Hr. destruct (startup_begins oc um debug_strs rng params (Some p) c _ Hf Ha Hr) as (c1 & -> & H1 & _).
    match goal with |- context [startup_loop _ _ _ _ _ _ ?n] => assert (exists k, n = S (S (S k))) as [k ->] end.
    { rewrite !length_app. pose proof (encode_pos offer). pose proof (encode_pos AuthenticationOk). pose proof (encode_pos (ReadyForQuery st)).
      match goal with |- exists k, S ?n = _ => exists (n - 2)%nat; lia end. }
    destruct (loop_offer oc um Hu debug_strs rng params p (S (S k)) None c c1 _ mechs _ Hms Hin Hb Hl Hoffer H1) as (c2 & -> & H2 & _).
    destruct (loop_ok oc um Hu debug_strs rng params p (S k) 1%nat (Some (scram_client_first (rng 0%nat) p).1) c c2 _ _ H2)
      as (c3 & -> & H3 & _).
    destruct (loop_reads oc um Hu debug_strs rng params (Some p) k 1%nat (Some (scram_client_first (rng 0%nat) p).1) c c3 _ _ _ H3
      (ready_ok st Hst)) as (c4 & -> & _). by exists c4.
Qed.

(** C27. [startup] returns, whatever bytes the server sends, however they are cut and
    wherever the transport fails: it neither panics nor runs on, and reads no more than
    was sent. A client that was given no password sends nothing after its startup
    message, whatever the server asks for. *)
Theorem startup_guarded `{CryptoLaws} oc um debug_strs rng params password c :
  2 ^ 32 - 1 <= um -> bounded um (raw c) -> startup_fits params ->
  (forall n, Forall is_byte (rng n) /\ length (rng n) = 18%nat) ->
  (forall p, password = Some p -> Z.of_nat (length (utf8 p)) < 2 ^ 30) -> Z.of_nat (length (wire (raw c))) < 2 ^ 30 ->
  exists r c', startup oc um debug_strs rng params password c = Val (r, c') /\ bounded um (raw c')
    /\ (length (wire (raw c')) <= length (wire (raw c)))%nat
    /\ (password = None ->
        exists k, sent (stream (raw c')) = sent (stream (raw c)) ++ take k (write_buf (raw c) ++ startup_frame params)).
Proof.
  intros Hu Hb Hf Hrng Hpw Hl. unfold startup, ubind.
  destruct (utotal_respond um (Frontend.startup_message (startup_bytes params)) (startup_frame params)
    (fun buf => startup_message_appends params buf Hf) c Hb) as (r & c1 & Hr & Hm1). rewrite Hr. cbn [outcome_bind].
  destruct (respond_prefix _ (startup_frame params) c r c1 (fun buf => startup_message_appends params buf Hf) Hr) as [k Hk].
  pose proof Hm1 as (Hb1 & Hl1 & _). destruct r as [[] | e].
  - destruct (total_loop oc um Hu debug_strs rng params password Hrng Hpw (budget (raw c1)) 0 None c1 Hb1) as (r & c2 & H2 & (Hb2 & Hl2 & _)).
    + unfold budget, wire. rewrite length_app. lia.
    + lia.
    + exists r, c2. rewrite H2. split_and!; [done | done | lia |]. intros ->. exists k. by rewrite (loop_quiet _ _ _ _ _ _ _ _ _ _ H2).
  - exists (Err e), c1. split_and!; [done | done | lia |]. intros _. by exists k.
Qed.

(** Hexadecimal digits for [base64], and sums for the hashes. *)
Definition sum (data : list Z) : Z := foldr Z.add 0 data `mod` 256.

Definition toy_crypto : Crypto :=
  mk_crypto (fun data => replicate 16 (sum data)) (fun data => replicate 32 (sum data))
    (fun key data => replicate 32 (sum (key ++ data))) (fun password salt _ n => take n (password ++ salt ++ replicate n 0))
    (fun bytes => bytes ≫= hex_byte) (fun s => Rows.hex_loop s []).

Lemma sum_bytes n data : Forall is_byte (replicate n (sum data)) /\ length (replicate n (sum data)) = n.
Proof.
  split; [| apply length_replicate]. apply Forall_replicate. unfold sum, is_byte. pose proof (Z.mod_pos_bound (foldr Z.add 0 data) 256). lia.
Qed.

Lemma hex_byte_chars b : is_byte b -> Forall base64_char (hex_byte b).
Proof.
  intros Hb. assert (Hd : forall d, 0 <= d < 16 -> base64_char (hex_digit d)).
  { intros d Hd. unfold hex_digit, base64_char. case_match; lia. }
  unfold hex_byte, is_byte in *. constructor; [| constructor; [| constructor]]; apply Hd; Z.div_mod_to_equations; lia.
Qed.

#[local] Instance toy_laws : @CryptoLaws toy_crypto.
Proof.
  constructor; cbn.
  - intros. apply (sum_bytes 16).
  - intros. apply (sum_bytes 32).
  - intros bytes Hb. induction Hb as [| b bytes Hb _ IH]; [constructor |]. rewrite bind_cons. apply list.Forall_app. split; [| done]. by apply hex_byte_chars.
  - intros bytes. rewrite length_hex. lia.
  - intros bytes Hb. by rewrite hex_loop_read.
Qed.

#[local] Existing Instance toy_crypto.

(** A client of user [u] with password [pw], and the server it is enrolled with. *)
Definition sample_rng (n : nat) : list Z := replicate 18 (Z.of_nat n `mod` 256).
Definition sample_params : list (list Z * list Z) := [(str "user", str "u")].
Definition sample_conn : Conn := new_conn (mk_stream [Data (encode (AuthenticationSasl (encode_mechanisms [SCRAM_SHA_256])))] [] [] []).

Lemma sample_rng_ok n : Forall is_byte (sample_rng n) /\ length (sample_rng n) = 18%nat.
Proof.
  split; [| apply length_replicate]. apply Forall_replicate. unfold is_byte. apply Z.mod_pos_bound. lia.
Qed.

Lemma scram_authenticates_witness :
  exists final v, RfcServer.answer (RfcServer.enroll (str "pw") [1; 2] 4096) (encode64 (sample_rng 0) ++ str "x")
      (str "n=,r=" ++ encode64 (sample_rng 0))
      (RfcServer.first (RfcServer.enroll (str "pw") [1; 2] 4096) (encode64 (sample_rng 0) ++ str "x")) final = Some v.
Proof.
  destruct (scram_authenticates true (2 ^ 64 - 1) (fun _ => []) sample_rng sample_params (str "pw") [1; 2] 4096 (str "x") [SCRAM_SHA_256])
    as [(final & v & Ha & _) _].
  - lia.
  - vm_compute. done.
  - apply sample_rng_ok.
  - apply sample_rng_ok.
  - by apply str_plain.
  - vm_compute. done.
  - by repeat constructor.
  - unfold in_u. lia.
  - constructor; [| constructor]. split; [| done]. split; [by apply is_ascii_char, str_ascii |].
    apply (bool_decide_unpack _). vm_compute. done.
  - by left.
  - split; [done |]. vm_compute. done.
  - split; [done |]. vm_compute. done.
  - by exists final, v.
Defined.

Lemma startup_guarded_witness :
  exists r c', startup true (2 ^ 64 - 1) (fun _ => []) sample_rng sample_params None sample_conn = Val (r, c')
    /\ exists k, sent (stream (raw c')) = take k (startup_frame sample_params).
Proof.
  destruct (startup_guarded true (2 ^ 64 - 1) (fun _ => []) sample_rng sample_params None sample_conn) as (r & c' & Hr & _ & _ & Hq).
  - lia.
  - split; [| vm_compute; done]. apply (bool_decide_unpack _). vm_compute. done.
  - vm_compute. done.
  - apply sample_rng_ok.
  - done.
  - vm_compute. done.
  - exists r, c'. split; [exact Hr |]. exact (Hq eq_refl).
Defined.

