(* ===== verification/Session.v ===== *)
(** * Connections: databases, batches, transactions, statistics

    [hyperdb-api/src/connection.rs] with its guard [hyperdb-api/src/transaction.rs] and
    the endpoints of [transport.rs]. A connection runs commands on a client it owns; the
    client is an interface here, [SqlClient], which that of [Client] implements. The
    contract [TxServer] says what the transaction commands mean to a server. The
    queries that return rows are in [Rowsets]. *)

From stdpp Require Import strings.
From S2P Require Import Prelude Text SqlTypes SqlEscape Backend Frontend Connection Rows Client Api.

(** ** The client of a connection *)

(** [Client::exec], with its error converted, and [Client::close]. *)
Class SqlClient (K : Type) := {
  run : list Z -> K -> outcome (result Z Api.Error * K);
  close_client : K -> outcome (result unit Api.Error * K);
}.
#[export] Hint Mode SqlClient ! : typeclass_instances.

Definition Op (K A : Type) : Type := K -> outcome (result A Api.Error * K).

Definition op_ret {K A} (a : A) : Op K A := fun k => Val (Ok a, k).
Definition op_fail {K A} (e : Api.Error) : Op K A := fun k => Val (Err e, k).
Definition op_bind {K A B} (m : Op K A) (f : A -> Op K B) : Op K B := fun k =>
  let! r := m k in
  match r with
  | (Ok a, k) => f a k
  | (Err e, k) => Val (Err e, k)
  end.

Notation "'let%' x ':=' m 'in' k" := (op_bind m (fun x => k))
  (at level 10, x name, m at level 100, k at level 200).

(** ** Endpoints ([transport.rs]) *)

Inductive TransportType : Type := Tcp | UnixSocket | NamedPipe | Grpc.
Inductive Os : Type := Unix | Windows | OtherOs.

Definition starts_with (s prefix : list Z) : bool := bool_decide (prefix `prefix_of` s).

Definition detect_transport_type (os : Os) (endpoint : list Z) : TransportType :=
  if starts_with endpoint (str "https://") || starts_with endpoint (str "http://") then Grpc
  else
    match os with
    | Unix => if starts_with endpoint (str "tab.domain://") || starts_with endpoint [47] then UnixSocket else Tcp
    | Windows => if starts_with endpoint (str "tab.pipe://") || starts_with endpoint [92; 92] then NamedPipe else Tcp
    | OtherOs => Tcp
    end.

(** The part before the last [d] and what follows it. *)
Fixpoint split_last (d : Z) (s : list Z) : option (list Z * list Z) :=
  match s with
  | [] => None
  | c :: s =>
      match split_last d s with
      | Some (a, b) => Some (c :: a, b)
      | None => if c =? d then Some ([], s) else None
      end
  end.

Definition parse_endpoint (endpoint : list Z) : list Z * Z :=
  match split_last 58 endpoint with
  | Some (host, port) => (host, default 7483 (parse_u 16 port))
  | None => (endpoint, 7483)
  end.

(** ** [Path::file_stem], on Unix *)

Fixpoint split_on (d : Z) (s piece : list Z) : list (list Z) :=
  match s with
  | [] => [reverse piece]
  | c :: s => if c =? d then reverse piece :: split_on d s [] else split_on d s (c :: piece)
  end.

(** The components: empty ones and [.] are dropped, except a [.] that comes first. *)
Definition components (path : list Z) : list (list Z) :=
  match split_on 47 path [] with
  | [] => []
  | first :: rest =>
      (if bool_decide (first = []) then [] else [first])
      ++ filter (fun p => p <> [] /\ p <> [46]) rest
  end.

Definition file_name (path : list Z) : option (list Z) :=
  name ← list.last (components path);
  if bool_decide (name = [46] \/ name = [46; 46]) then None else Some name.

(** Up to the last dot, unless it is the first char. *)
Definition file_stem (path : list Z) : option (list Z) :=
  name ← file_name path;
  Some (match split_last 46 name with
        | Some ([], _) | None => name
        | Some (stem, _) => stem
        end).

Definition db_alias (path : list Z) : list Z := default (str "db") (file_stem path).

(** ** Commands *)

Inductive CreateMode : Type := DoNotCreate | Create | CreateIfNotExists | CreateAndReplace.

Definition is_already_exists_error (e : Api.Error) : bool :=
  match sqlstate e with
  | Some code => bool_decide (code ∈ [str "42P04"; str "42710"; str "42P06"; str "42P07"])
  | None => false
  end.

Section session.
Context {K : Type} `{SqlClient K} (overflow_checks : bool) (show : Api.Error -> list Z).

Definition run_unit (sql : list Z) : Op K unit := let% _ := run sql in op_ret tt.

(** [let _ = self.execute_command(..)]. *)
Definition run_ignored (sql : list Z) : Op K unit := fun k =>
  let! r := run sql k in Val (Ok tt, r.2).

Definition handle_creation_mode (path : list Z) (mode : CreateMode) : Op K unit :=
  match mode with
  | DoNotCreate => op_ret tt
  | Create => run_unit (str "CREATE DATABASE " ++ escape_sql_path path)
  | CreateIfNotExists => fun k =>
      let! r := run (str "CREATE DATABASE IF NOT EXISTS " ++ escape_sql_path path) k in
      match r with
      | (Ok _, k) => Val (Ok tt, k)
      | (Err e, k) =>
          if is_already_exists_error e then Val (Ok tt, k)
          else Val (Err (Internal (str "Failed to create database '" ++ path ++ str "': " ++ show e)), k)
      end
  | CreateAndReplace =>
      let% _ := run_ignored (str "DROP DATABASE IF EXISTS " ++ escape_sql_path path) in
      run_unit (str "CREATE DATABASE " ++ escape_sql_path path)
  end.

Definition attach_and_set_path (path : list Z) : Op K unit :=
  let alias := db_alias path in
  let% _ := run_unit (str "ATTACH DATABASE " ++ escape_sql_path path ++ str " AS " ++ escape_sql_path alias) in
  run_unit (str "SET search_path TO " ++ escape_sql_path alias ++ str ", public").

(** What [connect_with_endpoint] does once it has a client. *)
Definition open_database (path : list Z) (mode : CreateMode) : Op K unit :=
  let% _ := handle_creation_mode path mode in attach_and_set_path path.

Definition create_database (path : list Z) : Op K unit :=
  run_unit (str "CREATE DATABASE IF NOT EXISTS " ++ escape_sql_path path).
Definition drop_database (path : list Z) : Op K unit :=
  run_unit (str "DROP DATABASE IF EXISTS " ++ escape_sql_path path).
Definition attach_database (path : list Z) (alias : option (list Z)) : Op K unit :=
  run_unit (match alias with
            | Some alias => str "ATTACH DATABASE " ++ escape_sql_path path ++ str " AS " ++ escape_sql_path alias
            | None => str "ATTACH DATABASE " ++ escape_sql_path path
            end).
Definition detach_database (alias : list Z) : Op K unit := run_unit (str "DETACH DATABASE " ++ escape_sql_path alias).
Definition detach_all_databases : Op K unit := run_unit (str "DETACH ALL DATABASES").
Definition copy_database (source destination : list Z) : Op K unit :=
  run_unit (str "CREATE DATABASE " ++ escape_sql_path destination ++ str " FROM " ++ escape_sql_path source).
Definition ping : Op K unit := run_unit (str "SELECT 1").
Definition unload_database : Op K unit := run_unit (str "UNLOAD DATABASE").
Definition unload_release : Op K unit := run_unit (str "UNLOAD RELEASE").

Definition batch_error (i n : nat) (stmt : list Z) (e : Api.Error) : Api.Error :=
  Internal (str "execute_batch failed at statement " ++ fmt_u (Z.of_nat i) ++ str " of " ++ fmt_u (Z.of_nat n)
    ++ str ": " ++ take 80 stmt ++ str ": " ++ show e).

(** The loop of [execute_batch] over statement [i] and those after it; [total] is a
    [u64]. *)
Fixpoint batch_loop (statements : list (list Z)) (i n : nat) (total : Z) : Op K Z :=
  match statements with
  | [] => op_ret total
  | stmt :: statements =>
      match trim stmt with
      | [] => batch_loop statements (S i) n total
      | _ => fun k =>
          let! r := run stmt k in
          match r with
          | (Ok count, k) =>
              let! total := arith_u overflow_checks 64 (total + count) in
              batch_loop statements (S i) n total k
          | (Err e, k) => Val (Err (batch_error (S i) n stmt e), k)
          end
      end
  end.

Definition execute_batch (statements : list (list Z)) : Op K Z :=
  batch_loop statements 0 (length statements) 0.

(** [Connection::close]: [tcp] is false for gRPC, where nothing is attached and there
    is nothing to close. *)
Definition close_failed (e : Api.Error) : Api.Error := Internal (str "Failed to close connection: " ++ show e).
Definition detach_failed (e : Api.Error) : Api.Error :=
  Internal (str "Failed to detach database during close: " ++ show e).

Definition close_connection (tcp : bool) (database : option (list Z)) : Op K unit := fun k =>
  let! r := match database, tcp with
            | Some path, true =>
                let! r := run (str "DETACH DATABASE " ++ escape_sql_path (db_alias path)) k in
                Val (match r.1 with Err e => Some e | Ok _ => None end, r.2)
            | _, _ => Val (None, k)
            end in
  let '(detach_err, k) := r in
  let! r := if tcp then close_client k else Val (Ok tt, k) in
  match r with
  | (Err e, k) => Val (Err (close_failed e), k)
  | (Ok _, k) => Val (match detach_err with Some e => Err (detach_failed e) | None => Ok tt end, k)
  end.

(** ** Transactions *)

Definition BEGIN : list Z := str "BEGIN TRANSACTION".
Definition COMMIT : list Z := str "COMMIT".
Definition ROLLBACK : list Z := str "ROLLBACK".

Definition begin_transaction_unguarded : Op K unit := run_unit BEGIN.
Definition commit_unguarded : Op K unit := run_unit COMMIT.
Definition rollback_unguarded : Op K unit := run_unit ROLLBACK.

(** The guard; the connection it borrows is passed along. *)
Record Transaction : Type := mk_transaction { completed : bool }.

Definition transaction : Op K Transaction := let% _ := begin_transaction_unguarded in op_ret (mk_transaction false).

(** A failed rollback is logged. *)
Definition drop_transaction (t : Transaction) : K -> outcome K := fun k =>
  if completed t then Val k else let! r := rollback_unguarded k in Val r.2.

(** [commit] and [rollback] consume the guard, which is dropped after them. *)
Definition commit (t : Transaction) : Op K unit := fun k =>
  let t := mk_transaction true in
  let! r := commit_unguarded k in
  let! k := drop_transaction t r.2 in
  Val (r.1, k).

Definition rollback (t : Transaction) : Op K unit := fun k =>
  let t := mk_transaction true in
  let! r := rollback_unguarded k in
  let! k := drop_transaction t r.2 in
  Val (r.1, k).

(** A caller that runs [commands] through the guard, leaves at the first error by [?]
    with the guard dropped, and otherwise ends the transaction as [fin] says. *)
Inductive Finish : Type := Commit | Rollback | Drop.

Fixpoint run_commands (commands : list (list Z)) : Op K unit :=
  match commands with
  | [] => op_ret tt
  | sql :: commands => let% _ := run sql in run_commands commands
  end.

Definition in_guard (commands : list (list Z)) (fin : Finish) : Op K unit := fun k =>
  let! r := transaction k in
  match r with
  | (Err e, k) => Val (Err e, k)
  | (Ok t, k) =>
      let! r := run_commands commands k in
      match r with
      | (Err e, k) => let! k := drop_transaction t k in Val (Err e, k)
      | (Ok _, k) =>
          match fin with
          | Commit => commit t k
          | Rollback => rollback t k
          | Drop => let! k := drop_transaction t k in Val (Ok tt, k)
          end
      end
  end.
End session.

#[global] Arguments run_unit : simpl never.

(** The client of [Client], with its mutex not poisoned. A command is the list of its
    chars here. *)
#[export] Instance raw_client (oc : bool) (um : Z) (show_io : io_payload -> list Z) : SqlClient RawConnection := {
  run sql c :=
    let! r := exec oc um false (utf8 sql) c in
    Val (match r with (Ok (n, _), c) => (Ok n, c) | (Err e, c) => (Err (from_client show_io e), c) end);
  close_client c :=
    let! r := Client.close false c in
    Val (match r with (Ok _, c) => (Ok tt, c) | (Err e, c) => (Err (from_client show_io e), c) end);
}.

(** ** What a connection asks of its client *)

Inductive Request : Type := Ran (sql : list Z) | ClosedClient.

(** A client that records the requests made of it. *)
#[export] Instance logged {K} `{SqlClient K} : SqlClient (K * list Request) := {
  run sql kl := let! r := run sql kl.1 in Val (r.1, (r.2, kl.2 ++ [Ran sql]));
  close_client kl := let! r := close_client kl.1 in Val (r.1, (r.2, kl.2 ++ [ClosedClient]));
}.

(** A client whose methods return. *)
Class TotalClient (K : Type) `{SqlClient K} := {
  run_total : forall sql (k : K), exists r k', run sql k = Val (r, k');
  close_total : forall (k : K), exists r k', close_client k = Val (r, k');
}.

(** What transactions mean to a server, which keeps a [committed] state and, in a
    transaction, a [working] one: documented behaviour of the commands. Those that are
    [transactional] only change the working state; a command that defines tables is not,
    for the server commits it at once. A failed command leaves the transaction open; a
    failed COMMIT may have taken effect. *)
Class TxServer (K S : Type) `{SqlClient K} := {
  committed : K -> S;
  working : K -> option S;
  effect : list Z -> S -> S;
  transactional : list Z -> Prop;
  tx_begin (k : K) r k' :
    working k = None -> run BEGIN k = Val (r, k') ->
    committed k' = committed k /\ (is_ok r = true -> working k' = Some (committed k));
  tx_command sql (k : K) w r k' :
    transactional sql -> working k = Some w -> run sql k = Val (r, k') ->
    committed k' = committed k /\ exists w', working k' = Some w' /\ (is_ok r = true -> w' = effect sql w);
  tx_commit (k : K) w r k' :
    working k = Some w -> run COMMIT k = Val (r, k') ->
    (committed k' = w /\ working k' = None) \/ (is_ok r = false /\ committed k' = committed k);
  tx_rollback (k : K) w r k' :
    working k = Some w -> run ROLLBACK k = Val (r, k') ->
    committed k' = committed k /\ (is_ok r = true -> working k' = None);
}.

(** The commands applied one after the other. *)
Definition applied (K : Type) {S} `{TxServer K S} (commands : list (list Z)) (s : S) : S :=
  foldl (fun s sql => effect (K := K) sql s) s commands.

Section guards.
Context {K : Type} `{TotalClient K}.

(** The commands up to the first that fails, with the counts of those that succeeded
    and how it all ended. *)
Inductive ran_commands : list (list Z) -> K -> list (list Z) -> list Z -> result unit Api.Error -> K -> Prop :=
| RanAll k : ran_commands [] k [] [] (Ok tt) k
| RanNext sql commands k n k1 ran counts r k2 :
    run sql k = Val (Ok n, k1) -> ran_commands commands k1 ran counts r k2 ->
    ran_commands (sql :: commands) k (sql :: ran) (n :: counts) r k2
| RanFailing sql commands k e k1 :
    run sql k = Val (Err e, k1) -> ran_commands (sql :: commands) k [sql] [] (Err e) k1.

Lemma run_commands_ran commands k log :
  exists ran counts r k', ran_commands commands k ran counts r k' /\
    run_commands commands (k, log) = Val (r, (k', log ++ (Ran <$> ran))) /\ run_commands commands k = Val (r, k').
Proof.
  revert k log. induction commands as [| sql commands IH]; intros k log.
  { exists [], [], (Ok tt), k. split_and!; [constructor | | done]. cbn. by rewrite app_nil_r. }
  destruct (run_total sql k) as (r & k1 & Hr). cbn [run_commands]. unfold op_bind. cbn [run logged fst snd].
  rewrite Hr. cbn [outcome_bind fst snd]. destruct r as [n | e].
  - destruct (IH k1 (log ++ [Ran sql])) as (ran & counts & r & k2 & Hran & -> & ->). exists (sql :: ran), (n :: counts), r, k2.
    split; [by econstructor |]. by rewrite <- app_assoc.
  - exists [sql], [], (Err e), k1. split_and!; [by constructor | done | done].
Qed.

Lemma ran_prefix commands k ran counts r k' :
  ran_commands commands k ran counts r k' -> ran `prefix_of` commands /\ (r = Ok tt -> ran = commands).
Proof.
  induction 1 as [k | sql commands k n k1 ran counts r k2 _ _ [Hp Hall] | sql commands k e k1 _].
  - done.
  - split; [by apply prefix_cons | intros Hr; by rewrite Hall].
  - split; [apply prefix_cons, prefix_nil | done].
Qed.
End guards.

(** How a use of the guard runs: BEGIN fails and nothing follows; or the commands run up
    to the first that fails and one ending request comes last, whose result is the
    caller's unless a command failed or the guard was just dropped. *)
Definition ending (v : result unit Api.Error) (fin : Finish) : list Z :=
  match v, fin with Ok _, Commit => COMMIT | _, _ => ROLLBACK end.

Definition ended (v : result unit Api.Error) (fin : Finish) (w : result Z Api.Error) : result unit Api.Error :=
  match v with
  | Err e => Err e
  | Ok _ => match fin, w with Drop, _ | _, Ok _ => Ok tt | _, Err e => Err e end
  end.

Inductive guarded {K} `{SqlClient K} (commands : list (list Z)) (fin : Finish) (k : K) :
  result unit Api.Error -> K -> list Request -> Prop :=
| NotBegun e k' :
    run BEGIN k = Val (Err e, k') -> guarded commands fin k (Err e) k' [Ran BEGIN]
| Guarded n k1 ran counts v k2 w k' :
    run BEGIN k = Val (Ok n, k1) -> ran_commands commands k1 ran counts v k2 ->
    ran `prefix_of` commands -> (v = Ok tt -> ran = commands) ->
    run (ending v fin) k2 = Val (w, k') ->
    guarded commands fin k (ended v fin w) k' (Ran BEGIN :: (Ran <$> ran) ++ [Ran (ending v fin)]).

(** The guard, with the log of requests and without it. *)
Lemma guard_runs {K} `{TotalClient K} commands fin (k : K) log :
  exists r k' requests, in_guard commands fin (k, log) = Val (r, (k', log ++ requests))
    /\ in_guard commands fin k = Val (r, k') /\ guarded commands fin k r k' requests.
Proof.
  destruct (run_total BEGIN k) as (b & k1 & Hb).
  unfold in_guard, transaction, begin_transaction_unguarded, run_unit, op_bind, op_ret. cbn [run logged fst snd]. rewrite Hb.
  cbn [outcome_bind fst snd]. destruct b as [n | e]; cbn [outcome_bind].
  2: { exists (Err e), k1, [Ran BEGIN]. split_and!; [done | done |]. by constructor. }
  destruct (run_commands_ran commands k1 (log ++ [Ran BEGIN])) as (ran & counts & v & k2 & Hran & -> & ->). cbn [outcome_bind].
  destruct (ran_prefix _ _ _ _ _ _ Hran) as [Hp Hall].
  assert (exists w k', run (ending v fin) k2 = Val (w, k')) as (w & k' & Hend) by apply run_total.
  pose proof (Guarded _ fin k n k1 ran counts v k2 w k' Hb Hran Hp Hall Hend) as G.
  exists (ended v fin w), k', (Ran BEGIN :: (Ran <$> ran) ++ [Ran (ending v fin)]). clear Hran Hall.
  assert (Hlog : ((log ++ [Ran BEGIN]) ++ (Ran <$> ran)) ++ [Ran (ending v fin)]
                 = log ++ Ran BEGIN :: (Ran <$> ran) ++ [Ran (ending v fin)]) by (by rewrite <- !app_assoc).
  rewrite <- Hlog. clear Hlog.
  match goal with |- ?A /\ ?B /\ _ => enough (A /\ B) as [??] by done end. clear G.
  unfold commit, rollback, drop_transaction, commit_unguarded, rollback_unguarded, run_unit, op_bind, op_ret.
  cbn [completed run logged fst snd].
  destruct v as [[] | e]; [destruct fin |]; cbn [ending ended] in *; rewrite ?Hend; cbn [outcome_bind fst snd]; by destruct w.
Qed.

(** ** Batches *)

Definition live (sql : list Z) : Prop := trim sql <> [].
#[export] Instance live_dec sql : Decision (live sql).
Proof. unfold live. apply _. Defined.

(** What a batch returns, once the statements [ran] have run: statement [i] of them is
    the one that failed. *)
Definition batch_result (show : Api.Error -> list Z) (statements ran : list (list Z)) (i n : nat) (total : Z)
    (v : result unit Api.Error) (r : result Z Api.Error) : Prop :=
  match v with
  | Ok _ => ran = filter live statements /\ r = Ok (wrap_u 64 total)
  | Err e => exists j stmt, statements !! j = Some stmt /\ ran = filter live (take (S j) statements)
      /\ r = Err (batch_error show (S (i + j)) n stmt e)
  end.

Lemma counts_nonneg counts : Forall (in_u 64) counts -> 0 <= foldr Z.add 0 counts.
Proof. induction 1 as [| c l [? _] _ IH]; cbn [foldr]; lia. Qed.

Lemma batch_result_skipped show stmt statements ran i n total v r : ~ live stmt ->
  batch_result show statements ran (S i) n total v r -> batch_result show (stmt :: statements) ran i n total v r.
Proof.
  intros Hl. unfold batch_result. rewrite filter_cons_False by done. destruct v as [[] | e]; [done |].
  intros (j & st & Hj & -> & ->). exists (S j), st. cbn [take]. rewrite filter_cons_False by done. by rewrite Nat.add_succ_r.
Qed.

Lemma batch_result_ran show stmt statements ran i n total total' v r : live stmt -> wrap_u 64 total = wrap_u 64 total' ->
  batch_result show statements ran (S i) n total v r -> batch_result show (stmt :: statements) (stmt :: ran) i n total' v r.
Proof.
  intros Hl Htotal. unfold batch_result. rewrite filter_cons_True by done. destruct v as [[] | e].
  - intros [-> ->]. by rewrite Htotal.
  - intros (j & st & Hj & -> & ->). exists (S j), st. cbn [take]. rewrite filter_cons_True by done. by rewrite Nat.add_succ_r.
Qed.

Lemma batch_loop_ran {K} `{TotalClient K} oc show statements i n total (k : K) log : in_u 64 total ->
  exists ran counts v k', ran_commands (filter live statements) k ran counts v k' /\
    (Forall (in_u 64) counts -> let sum := total + foldr Z.add 0 counts in
     (oc = false \/ in_u 64 sum -> exists r,
        batch_loop oc show statements i n total (k, log) = Val (r, (k', log ++ (Ran <$> ran)))
        /\ batch_result show statements ran i n sum v r)
     /\ (oc = true -> ~ in_u 64 sum -> batch_loop oc show statements i n total (k, log) = Panic)).
Proof.
  revert i total k log. induction statements as [| stmt rest IH]; intros i total k log Ht.
  { exists [], [], (Ok tt), k. split; [constructor |]. intros _. cbn [foldr]. rewrite Z.add_0_r.
    split; [| done]. intros _. exists (Ok total). cbn. by rewrite app_nil_r, wrap_u_id. }
  cbn [batch_loop]. rewrite filter_cons. destruct (decide (live stmt)) as [Hl | Hl].
  - assert (exists c w, trim stmt = c :: w) as (c & w & ->) by (unfold live in Hl; destruct (trim stmt); [done | eauto]).
    cbn [run logged fst snd]. destruct (run_total stmt k) as ([m | e] & k1 & Hr); rewrite Hr; cbn [outcome_bind fst snd].
    + destruct (IH (S i) (wrap_u 64 (total + m)) k1 (log ++ [Ran stmt])) as (ran & counts & v & k2 & Hran & Hsum);
        [by apply wrap_u_range |].
      exists (stmt :: ran), (m :: counts), v, k2. split; [by econstructor |].
      intros [Hm Hc]%Forall_cons_1. specialize (Hsum Hc). cbn zeta in *. cbn [foldr]. rewrite Z.add_assoc.
      pose proof (counts_nonneg counts Hc). set (s := foldr Z.add 0 counts) in *.
      destruct (decide (in_u 64 (total + m))) as [Hin | Hout].
      * rewrite arith_u_in, (wrap_u_id 64 (total + m)) in * by done. cbn [outcome_bind].
        destruct Hsum as [Hok Hpanic]. split; [| done]. intros Hoc. destruct (Hok Hoc) as (r & -> & Hres).
        exists r. split; [by rewrite <- app_assoc | by eapply batch_result_ran].
      * assert (~ in_u 64 (total + m + s)) as Hbig by (unfold in_u in *; lia). destruct oc.
        { rewrite arith_u_out by done. split; [by intros [|] | done]. }
        rewrite arith_u_wrap. cbn [outcome_bind]. split; [intros _ | done].
        destruct (proj1 Hsum (or_introl eq_refl)) as (r & -> & Hres). exists r.
        split; [by rewrite <- app_assoc | eapply batch_result_ran; [done | apply wrap_u_add_l | done]].
    + exists [stmt], [], (Err e), k1. split; [by constructor |]. intros _. cbn [foldr]. rewrite Z.add_0_r. split; [| done]. intros _.
      eexists. split; [done |]. exists 0%nat, stmt. cbn [take lookup list_lookup]. rewrite filter_cons_True by done.
      by rewrite Nat.add_0_r.
  - assert (trim stmt = []) as -> by (unfold live in Hl; destruct (trim stmt); [done | by destruct Hl]).
    destruct (IH (S i) total k log Ht) as (ran & counts & v & k2 & Hran & Hsum). exists ran, counts, v, k2. split; [done |].
    intros Hc. destruct (Hsum Hc) as [Hok Hpanic]. split; [| done]. intros Hoc. destruct (Hok Hoc) as (r & -> & Hres).
    exists r. split; [done | by apply batch_result_skipped].
Qed.

(** ** Closing *)

(** [close] detaches the alias of its own database, if it has one, and closes the client
    exactly once, last, whatever the detach did; a failed close is the error returned,
    before a failed detach. *)
Lemma close_requests {K} `{TotalClient K} show tcp database (k : K) log :
  exists r k', close_connection show tcp database (k, log)
      = Val (r, (k', log ++ (match database, tcp with
                             | Some path, true => [Ran (str "DETACH DATABASE " ++ escape_sql_path (db_alias path))]
                             | _, _ => []
                             end) ++ (if tcp then [ClosedClient] else [])))
    /\ (tcp = true -> exists k1 v, close_client k1 = Val (v, k') /\
          (forall e, v = Err e -> r = Err (close_failed show e)) /\ (r = Ok tt -> is_ok v = true)).
Proof.
  unfold close_connection. destruct tcp; [| exists (Ok tt), k; destruct database; cbn; by rewrite app_nil_r].
  destruct database as [path |]; cbn [run close_client logged fst snd outcome_bind].
  - destruct (run_total (str "DETACH DATABASE " ++ escape_sql_path (db_alias path)) k) as (d & k1 & ->).
    cbn [outcome_bind fst snd]. destruct (close_total k1) as (v & k' & Hc). rewrite Hc. cbn [outcome_bind fst snd].
    destruct v as [[] | e]; cbn [outcome_bind]; (eexists _, k'; rewrite <- app_assoc; split; [reflexivity |]);
      intros _; exists k1; (eexists; split; [exact Hc | naive_solver]).
  - destruct (close_total k) as (v & k' & Hc). rewrite Hc. cbn [outcome_bind fst snd].
    destruct v as [[] | e]; (eexists _, k'; split; [reflexivity |]);
      intros _; exists k; (eexists; split; [exact Hc | naive_solver]).
Qed.

(** ** A server in memory, for the witnesses

    It appends every command to its state; the command [FAULT] fails. *)
Record Memory : Type := mk_memory { stored : list (list Z); pending : option (list (list Z)); open_client : bool }.

Definition FAULT : list Z := str "FAULT".
Definition fault : Api.Error := Internal FAULT.

Definition memory_run (sql : list Z) (m : Memory) : result Z Api.Error * Memory :=
  if bool_decide (sql = BEGIN) then
    match pending m with
    | None => (Ok 0, mk_memory (stored m) (Some (stored m)) (open_client m))
    | Some _ => (Err fault, m)
    end
  else if bool_decide (sql = COMMIT) then
    match pending m with
    | Some w => (Ok 0, mk_memory w None (open_client m))
    | None => (Err fault, m)
    end
  else if bool_decide (sql = ROLLBACK) then (Ok 0, mk_memory (stored m) None (open_client m))
  else if bool_decide (sql = FAULT) then (Err fault, m)
  else match pending m with
       | Some w => (Ok 1, mk_memory (stored m) (Some (w ++ [sql])) (open_client m))
       | None => (Ok 1, mk_memory (stored m ++ [sql]) None (open_client m))
       end.

#[export] Instance memory_client : SqlClient Memory := {
  run sql m := Val (memory_run sql m);
  close_client m := Val (Ok tt, mk_memory (stored m) None false);
}.

#[export] Instance memory_total : TotalClient Memory.
Proof. split; intros; eexists _, _; [exact (f_equal Val (surjective_pairing _)) | reflexivity]. Defined.

#[export] Instance memory_server : TxServer Memory (list (list Z)).
Proof.
  refine {| committed := stored; working := pending; effect sql s := s ++ [sql]; transactional sql := sql ∉ [BEGIN; COMMIT; ROLLBACK] |}.
  - intros k r k' Hw. cbn. unfold memory_run. rewrite bool_decide_true by done. rewrite Hw. by intros [= <- <-].
  - intros sql k w r k' [Hb [Hc Hr]%not_elem_of_cons]%not_elem_of_cons Hw. apply not_elem_of_cons in Hr as [Hr _].
    cbn. unfold memory_run. rewrite (bool_decide_false (sql = BEGIN)), (bool_decide_false (sql = COMMIT)),
      (bool_decide_false (sql = ROLLBACK)), Hw by done.
    case_bool_decide; intros [= <- <-]; cbn; naive_solver.
  - intros k w r k' Hw. cbn. unfold memory_run. rewrite bool_decide_false, bool_decide_true, Hw by done.
    intros [= <- <-]. by left.
  - intros k w r k' Hw. cbn. unfold memory_run. rewrite !bool_decide_false, bool_decide_true by done.
    by intros [= <- <-].
Defined.

(** ** The properties *)

(** A batch runs its statements in order up to the first that fails, leaving out the
    blank ones, and counts the rows they affected. The sum is a [u64]: below [2 ^ 64] it is
    exact; past that it wraps around when the build has no overflow checks and the
    method panics when it has, with the statements already run. The error of a failed
    statement names its position among all the statements, blank ones included. *)
Theorem batch_counts {K} `{TotalClient K} oc show statements (k : K) log :
  exists ran counts v k', ran_commands (filter live statements) k ran counts v k' /\
    (Forall (in_u 64) counts -> let sum := foldr Z.add 0 counts in
     (oc = false \/ sum < 2 ^ 64 -> exists r,
        execute_batch oc show statements (k, log) = Val (r, (k', log ++ (Ran <$> ran)))
        /\ batch_result show statements ran 0 (length statements) sum v r)
     /\ (oc = true -> 2 ^ 64 <= sum -> execute_batch oc show statements (k, log) = Panic)).
Proof.
  destruct (batch_loop_ran oc show statements 0 (length statements) 0 k log) as (ran & counts & v & k' & Hran & Hb); [done |].
  exists ran, counts, v, k'. split; [done |]. intros Hc. destruct (Hb Hc) as [Hok Hpanic]. rewrite Z.add_0_l in *.
  pose proof (counts_nonneg counts Hc).
  split; [intros [? | ?]; apply Hok; [by left | right; unfold in_u; lia] | intros; apply Hpanic; unfold in_u; [done | lia]].
Qed.

(** ** Atomicity *)

Section atomic.
Context {K S : Type} `{TotalClient K} `{!TxServer K S}.

(** Inside a transaction nothing is committed, and what succeeded has its effect. *)
Lemma ran_in_transaction commands k ran counts v k' w :
  ran_commands commands k ran counts v k' -> Forall (transactional (K := K)) commands -> working k = Some w ->
  committed k' = committed k /\ exists w', working k' = Some w'
    /\ (v = Ok tt -> w' = applied K commands w).
Proof.
  intros Hran. revert w. induction Hran as [k | sql commands k n k1 ran counts r k2 Hr _ IH | sql commands k e k1 Hr];
    intros w Hp Hw.
  - split; [done |]. by exists w.
  - apply Forall_cons_1 in Hp as [Hsql Hp]. destruct (tx_command _ _ _ _ _ Hsql Hw Hr) as (Hc & w1 & Hw1 & He).
    destruct (IH w1 Hp Hw1) as (Hc2 & w2 & Hw2 & Hv). split; [congruence |]. exists w2. split; [done |].
    intros Hok. rewrite (Hv Hok), He by done. done.
  - apply Forall_cons_1 in Hp as [Hsql _]. destruct (tx_command _ _ _ _ _ Hsql Hw Hr) as (Hc & w1 & Hw1 & _).
    split; [done |]. by exists w1.
Qed.
End atomic.

(** Whether a transaction is left open: none is, unless the last of the requests, which is
    the command that should have begun or ended it, failed at the server. *)
Definition left_closed {K S} `{TxServer K S} (k' : K) (requests : list Request) : Prop :=
  working k' = None
  \/ exists sql k1 e, list.last requests = Some (Ran sql) /\ sql ∈ [BEGIN; COMMIT; ROLLBACK] /\ run sql k1 = Val (Err e, k').

(** C8. A transaction is ended exactly once, and it is atomic. Whatever the commands of
    the caller do, the guard asks for BEGIN first; if that fails it asks for nothing more,
    and its error is returned. Otherwise the commands run in order up to the first that
    fails, and exactly one more request is made: COMMIT if they all succeeded and the
    caller commits, whose result is then the caller's, and ROLLBACK in every other case.
    Against a server that keeps the contract of its transaction commands, a committed
    transaction has applied all the commands, in order; one that is rolled back, dropped or
    left by an error has changed nothing that is committed, unless it is the COMMIT itself
    that reported an error, when it is all or nothing. And no transaction stays open, with
    its work pending, unless the BEGIN, COMMIT or ROLLBACK that came last failed itself. *)
Theorem transaction_atomic {K S} `{TotalClient K} `{!TxServer K S} commands fin (k : K) log :
  working k = None -> Forall (transactional (K := K)) commands ->
  exists r k' requests, in_guard commands fin (k, log) = Val (r, (k', log ++ requests))
    /\ in_guard commands fin k = Val (r, k') /\ guarded commands fin k r k' requests /\ left_closed k' requests /\
    let all := applied K commands (committed k) in
    match r with
    | Ok _ => committed k' = match fin with Commit => all | _ => committed k end
    | Err _ => committed k' = committed k \/ (fin = Commit /\ committed k' = all)
    end.
Proof.
  intros Hidle Hp. destruct (guard_runs commands fin k log) as (r & k' & requests & Hlog & Hrun & Hcase).
  exists r, k', requests. split; [done |]. split; [done |]. split; [done |].
  destruct Hcase as [e k' Hb | n k1 ran counts v k2 w k' Hb Hran _ _ Hend].
  { split; [right; exists BEGIN, k, e; split_and!; [done | set_solver | done] |]. left. by apply (tx_begin _ _ _ Hidle Hb). }
  destruct (tx_begin _ _ _ Hidle Hb) as [Hc1 Hw1]. specialize (Hw1 eq_refl).
  destruct (ran_in_transaction _ _ _ _ _ _ _ Hran Hp Hw1) as (Hc2 & w2 & Hw2 & Hv).
  split.
  { destruct w as [c | e]; [| right; exists (ending v fin), k2, e].
    - left. unfold ending in *. destruct v as [[] | e]; [destruct fin |];
        try (by apply (tx_rollback _ _ _ _ Hw2 Hend)).
      destruct (tx_commit _ _ _ _ Hw2 Hend) as [[_ Hn] | [? _]]; done.
    - rewrite app_comm_cons, list.last_snoc. split_and!; [done | | done]. destruct v, fin; set_solver. }
  cbn zeta. destruct v as [[] | e]; cbn [ended ending] in *; [| left; destruct (tx_rollback _ _ _ _ Hw2 Hend); congruence].
  specialize (Hv eq_refl). destruct fin.
  - destruct (tx_commit _ _ _ _ Hw2 Hend) as [[Hc _] | [Hok Hc]]; destruct w; try done;
      [congruence | right; split; congruence | left; congruence].
  - destruct (tx_rollback _ _ _ _ Hw2 Hend) as [Hc _]. destruct w; [| left]; congruence.
  - destruct (tx_rollback _ _ _ _ Hw2 Hend) as [Hc _]. congruence.
Qed.

Lemma transaction_atomic_witness :
  transactional (K := Memory) (str "INSERT 1") /\
  let commands := [str "INSERT 1"; str "INSERT 2"] in
  exists r k' requests, in_guard commands Commit (mk_memory [] None true, []) = Val (r, (k', [] ++ requests))
    /\ in_guard commands Commit (mk_memory [] None true) = Val (r, k') /\ guarded commands Commit (mk_memory [] None true) r k' requests
    /\ left_closed k' requests /\
    let all := applied Memory commands [] in
    match r with
    | Ok _ => stored k' = all
    | Err _ => stored k' = [] \/ (Commit = Commit /\ stored k' = all)
    end.
Proof.
  assert (H1 : transactional (K := Memory) (str "INSERT 1")) by (apply (bool_decide_unpack (str "INSERT 1" ∉ [BEGIN; COMMIT; ROLLBACK])); vm_compute; done).
  assert (H2 : transactional (K := Memory) (str "INSERT 2")) by (apply (bool_decide_unpack (str "INSERT 2" ∉ [BEGIN; COMMIT; ROLLBACK])); vm_compute; done).
  split; [exact H1 |].
  exact (transaction_atomic [str "INSERT 1"; str "INSERT 2"] Commit (mk_memory [] None true) [] eq_refl
           (Forall_cons _ _ _ H1 (Forall_cons _ _ _ H2 (Forall_nil _)))).
Defined.
