(* ===== verification/TableDef.v ===== *)
(** * Table definitions ([hyperdb-api/src/table_definition.rs])

    Columns, constraints and tables, and the SQL they render to. The theorem reads
    the rendered statement with the lexer of [SqlClassify]: its tokens depend on
    the types, the nullability and the number of columns, and not on what the
    names hold. *)

From stdpp Require Import strings.
From S2P Require Import Prelude Text SqlClassify SqlEscape SqlTypes.

(** ** Data *)

Inductive Nullability : Type := Nullable | NotNullable.

Definition is_nullable (n : Nullability) : bool :=
  match n with
  | Nullable => true
  | NotNullable => false
  end.

Inductive Persistence : Type := Permanent | Temporary.

Inductive SqlTypeOrName : Type :=
| ASqlType (t : SqlType)
| TypeName (s : list Z).

Inductive TableConstraint : Type :=
| AssumedPrimaryKey (columns : list (list Z))
| AssumedUnique (columns : list (list Z)).

Record ColumnDefinition : Type := mk_column {
  col_name : list Z;
  sql_type_or_name : SqlTypeOrName;
  nullable : bool;
  collation : option (list Z);
  default_expr : option (list Z);
}.

Record TableDefinition : Type := mk_table {
  table_name : list Z;
  schema : option (list Z);
  database : option (list Z);
  columns : list ColumnDefinition;
  persistence : Persistence;
  constraints : list TableConstraint;
}.

(** ** Columns *)

Definition column_new (name type_name : list Z) (nullable : bool) : ColumnDefinition :=
  mk_column name (TypeName type_name) nullable None None.

Definition with_sql_type (name : list Z) (t : SqlType) (n : Nullability) : ColumnDefinition :=
  mk_column name (ASqlType t) (is_nullable n) None None.

Definition with_collation (name : list Z) (t : SqlType) (c : list Z) (n : Nullability) : ColumnDefinition :=
  mk_column name (ASqlType t) (is_nullable n) (Some c) None.

Definition column_nullable (name : list Z) (t : SqlType) : ColumnDefinition := with_sql_type name t Nullable.
Definition column_not_null (name : list Z) (t : SqlType) : ColumnDefinition := with_sql_type name t NotNullable.

Definition nullability (c : ColumnDefinition) : Nullability := if nullable c then Nullable else NotNullable.

Definition sql_type (c : ColumnDefinition) : option SqlType :=
  match sql_type_or_name c with
  | ASqlType t => Some t
  | TypeName _ => None
  end.

Definition type_name (c : ColumnDefinition) : list Z :=
  match sql_type_or_name c with
  | ASqlType t => display t
  | TypeName s => s
  end.

Definition set_default_expr (e : list Z) (c : ColumnDefinition) : ColumnDefinition :=
  mk_column (col_name c) (sql_type_or_name c) (nullable c) (collation c) (Some e).
Definition clear_default_expr (c : ColumnDefinition) : ColumnDefinition :=
  mk_column (col_name c) (sql_type_or_name c) (nullable c) (collation c) None.
Definition set_collation (co : list Z) (c : ColumnDefinition) : ColumnDefinition :=
  mk_column (col_name c) (sql_type_or_name c) (nullable c) (Some co) (default_expr c).
Definition set_sql_type (t : SqlType) (c : ColumnDefinition) : ColumnDefinition :=
  mk_column (col_name c) (ASqlType t) (nullable c) (collation c) (default_expr c).

(** ** Tables *)

Definition table_new (name : list Z) : TableDefinition := mk_table name None None [] Permanent [].

Definition from_table_name (t : TableName.t) : TableDefinition :=
  mk_table (Name.unescaped (TableName.table t)) (Name.unescaped <$> TableName.schema t)
    (Name.unescaped <$> TableName.database t) [] Permanent [].

Definition with_schema (s : list Z) (t : TableDefinition) : TableDefinition :=
  mk_table (table_name t) (Some s) (database t) (columns t) (persistence t) (constraints t).
Definition with_database (d : list Z) (t : TableDefinition) : TableDefinition :=
  mk_table (table_name t) (schema t) (Some d) (columns t) (persistence t) (constraints t).
Definition with_persistence (p : Persistence) (t : TableDefinition) : TableDefinition :=
  mk_table (table_name t) (schema t) (database t) (columns t) p (constraints t).
Definition add_column_def (c : ColumnDefinition) (t : TableDefinition) : TableDefinition :=
  mk_table (table_name t) (schema t) (database t) (columns t ++ [c]) (persistence t) (constraints t).
Definition add_nullable_column (name : list Z) (ty : SqlType) (t : TableDefinition) : TableDefinition :=
  add_column_def (with_sql_type name ty Nullable) t.
Definition add_required_column (name : list Z) (ty : SqlType) (t : TableDefinition) : TableDefinition :=
  add_column_def (with_sql_type name ty NotNullable) t.
Definition add_nullable_column_with_collation (name : list Z) (ty : SqlType) (c : list Z) (t : TableDefinition)
    : TableDefinition := add_column_def (with_collation name ty c Nullable) t.
Definition add_required_column_with_collation (name : list Z) (ty : SqlType) (c : list Z) (t : TableDefinition)
    : TableDefinition := add_column_def (with_collation name ty c NotNullable) t.
Definition add_column_with_sql_type (name : list Z) (ty : SqlType) (nullable : bool) (t : TableDefinition)
    : TableDefinition := add_column_def (mk_column name (ASqlType ty) nullable None None) t.
Definition push_constraint (c : TableConstraint) (t : TableDefinition) : TableDefinition :=
  mk_table (table_name t) (schema t) (database t) (columns t) (persistence t) (constraints t ++ [c]).
Definition set_constraints (cs : list TableConstraint) (t : TableDefinition) : TableDefinition :=
  mk_table (table_name t) (schema t) (database t) (columns t) (persistence t) cs.
Definition set_table_name (name : list Z) (t : TableDefinition) : TableDefinition :=
  mk_table name (schema t) (database t) (columns t) (persistence t) (constraints t).

Definition column_count_of (t : TableDefinition) : nat := length (columns t).

Definition column (t : TableDefinition) (index : nat) : outcome ColumnDefinition :=
  match columns t !! index with
  | Some c => Val c
  | None => Panic
  end.

Definition has_name (name : list Z) (c : ColumnDefinition) : bool := bool_decide (col_name c = name).

Definition column_by_name (t : TableDefinition) (name : list Z) : option ColumnDefinition :=
  snd <$> list_find (has_name name) (columns t).

Definition column_position_by_name (t : TableDefinition) (name : list Z) : option nat :=
  fst <$> list_find (has_name name) (columns t).

Definition qualified_name (t : TableDefinition) : list Z :=
  match database t, schema t with
  | Some db, Some schema =>
      SqlIdentifier db ++ str "." ++ SqlIdentifier schema ++ str "." ++ SqlIdentifier (table_name t)
  | None, Some schema => SqlIdentifier schema ++ str "." ++ SqlIdentifier (table_name t)
  | Some db, None => SqlIdentifier db ++ str "." ++ SqlIdentifier (table_name t)
  | None, None => SqlIdentifier (table_name t)
  end.

Definition to_table_name (t : TableDefinition) : result TableName.t (list Z) :=
  let? table := TableName.try_new (table_name t) in
  let? table := match schema t with Some s => TableName.with_schema table s | None => Ok table end in
  match database t with Some d => TableName.with_database table d | None => Ok table end.

(** ** SQL *)

Fixpoint join (sep : list Z) (l : list (list Z)) : list Z :=
  match l with
  | [] => []
  | [x] => x
  | x :: l => x ++ sep ++ join sep l
  end.

Definition constraint_columns (c : TableConstraint) : list (list Z) :=
  match c with
  | AssumedPrimaryKey columns | AssumedUnique columns => columns
  end.

Definition constraint_sql (c : TableConstraint) : list Z :=
  let keyword := match c with
                 | AssumedPrimaryKey _ => str "ASSUMED PRIMARY KEY"
                 | AssumedUnique _ => str "ASSUMED UNIQUE"
                 end in
  keyword ++ str " (" ++ join (str ", ") (QuotedIdentifier <$> constraint_columns c) ++ str ")".

(** What the loop writes for one column. *)
Definition column_sql (c : ColumnDefinition) : list Z :=
  QuotedIdentifier (col_name c) ++ str " " ++ type_name c
  ++ match collation c with
     | Some collation => str " COLLATE " ++ QuotedIdentifier collation
     | None => []
     end
  ++ (if nullable c then [] else str " NOT NULL")
  ++ match default_expr c with
     | Some e => str " DEFAULT " ++ e
     | None => []
     end.

(** The loop, from column [i]. *)
Fixpoint columns_sql (i : nat) (cols : list ColumnDefinition) : list Z :=
  match cols with
  | [] => []
  | c :: cols => (if (0 <? i)%nat then str ", " else []) ++ column_sql c ++ columns_sql (S i) cols
  end.

Definition create_keyword (p : Persistence) (fail_if_exists : bool) : list Z :=
  match p with
  | Permanent => if fail_if_exists then str "CREATE TABLE " else str "CREATE TABLE IF NOT EXISTS "
  | Temporary =>
      if fail_if_exists then str "CREATE TEMPORARY TABLE "
      else str "CREATE TEMPORARY TABLE IF NOT EXISTS "
  end.

(** The error is the text of an [Error::InvalidTableDefinition]. *)
Definition to_create_sql (t : TableDefinition) (fail_if_exists : bool) : result (list Z) (list Z) :=
  match columns t with
  | [] => Err (str "Table must have at least one column")
  | _ =>
      Ok (create_keyword (persistence t) fail_if_exists ++ qualified_name t ++ str " ("
          ++ columns_sql 0 (columns t)
          ++ concat ((fun c => str ", " ++ constraint_sql c) <$> constraints t)
          ++ str ")")
  end.

Definition to_drop_sql (t : TableDefinition) (fail_if_not_exists : bool) : list Z :=
  (if fail_if_not_exists then str "DROP TABLE " else str "DROP TABLE IF EXISTS ") ++ qualified_name t.

(** ** The tokens of a definition *)

Definition words (l : list string) : list Item := (fun w => Word (str w)) <$> l.

Definition digits (n : Z) : list Item := replicate (length (fmt_u n)) Other.

Definition type_items (t : SqlType) : list Item :=
  match t with
  | Bool => words ["BOOLEAN"]%string
  | BigInt => words ["BIGINT"]%string
  | SmallInt => words ["SMALLINT"]%string
  | Int => words ["INTEGER"]%string
  | Numeric p s => words ["NUMERIC"]%string ++ [Group (digits p ++ [Other] ++ digits s)]
  | Double => words ["DOUBLE"; "PRECISION"]%string
  | Float => words ["REAL"]%string
  | Oid => words ["OID"]%string
  | ByteA => words ["BYTEA"]%string
  | Text => words ["TEXT"]%string
  | Varchar (Some n) => words ["VARCHAR"]%string ++ [Group (digits n)]
  | Varchar None => words ["VARCHAR"]%string
  | Char n => words ["CHAR"]%string ++ [Group (digits n)]
  | Json => words ["JSON"]%string
  | Date => words ["DATE"]%string
  | Interval => words ["INTERVAL"]%string
  | Time => words ["TIME"]%string
  | Timestamp => words ["TIMESTAMP"]%string
  | TimestampTz => words ["TIMESTAMPTZ"]%string
  | Geography => words ["GEOGRAPHY"]%string
  | Unsupported => words ["UNSUPPORTED"]%string
  end.

(** What of a column, a constraint and a table the tokens can depend on. *)
Record column_shape : Type := { shape_type : SqlType; shape_nullable : bool; shape_collated : bool }.

Record table_shape : Type := {
  shape_persistence : Persistence;
  shape_qualifiers : nat;
  shape_columns : list column_shape;
  shape_constraints : list (bool * nat);
}.

Definition column_items (c : column_shape) : list Item :=
  [Other] ++ type_items (shape_type c)
  ++ (if shape_collated c then words ["COLLATE"%string] ++ [Other] else [])
  ++ (if shape_nullable c then [] else words ["NOT"; "NULL"]%string).

Definition constraint_items (c : bool * nat) : list Item :=
  (if c.1 then words ["ASSUMED"; "PRIMARY"; "KEY"]%string else words ["ASSUMED"; "UNIQUE"]%string)
  ++ [Group (replicate (2 * c.2 - 1) Other)].

Fixpoint columns_items (i : nat) (l : list column_shape) : list Item :=
  match l with
  | [] => []
  | c :: l => (if (0 <? i)%nat then [Other] else []) ++ column_items c ++ columns_items (S i) l
  end.

Definition keyword_items (p : Persistence) (fail_if_exists : bool) : list Item :=
  words (match p with
         | Permanent => ["CREATE"; "TABLE"]%string
         | Temporary => ["CREATE"; "TEMPORARY"; "TABLE"]%string
         end)
  ++ words (if fail_if_exists then [] else ["IF"; "NOT"; "EXISTS"]%string).

(** The tokens of [to_create_sql], of the shape alone. *)
Definition create_items (t : table_shape) (fail_if_exists : bool) : list Item :=
  keyword_items (shape_persistence t) fail_if_exists
  ++ replicate (2 * shape_qualifiers t + 1) Other
  ++ [Group (columns_items 0 (shape_columns t)
             ++ concat ((fun c => [Other] ++ constraint_items c) <$> shape_constraints t))].

Definition drop_items (qualifiers : nat) (fail_if_not_exists : bool) : list Item :=
  words ["DROP"; "TABLE"]%string ++ words (if fail_if_not_exists then [] else ["IF"; "EXISTS"]%string)
  ++ replicate (2 * qualifiers + 1) Other.

Definition is_some {A} (o : option A) : bool := match o with Some _ => true | None => false end.

Definition shape_of_column (c : ColumnDefinition) : column_shape :=
  {| shape_type := default Unsupported (sql_type c); shape_nullable := nullable c;
     shape_collated := is_some (collation c) |}.

Definition shape_of_constraint (c : TableConstraint) : bool * nat :=
  (match c with AssumedPrimaryKey _ => true | AssumedUnique _ => false end,
   length (constraint_columns c)).

Definition qualifiers (t : TableDefinition) : nat :=
  ((if is_some (schema t) then 1 else 0) + (if is_some (database t) then 1 else 0))%nat.

Definition shape_of (t : TableDefinition) : table_shape :=
  {| shape_persistence := persistence t; shape_qualifiers := qualifiers t;
     shape_columns := shape_of_column <$> columns t;
     shape_constraints := shape_of_constraint <$> constraints t |}.

(** Names of chars, columns given by a [SqlType] of non-negative parameters, and
    no default: a type name and a default are SQL that the caller wrote. *)
Definition column_ok (c : ColumnDefinition) : Prop :=
  Forall is_char (col_name c) /\ (exists t, sql_type_or_name c = ASqlType t /\ type_wf t) /\
  (forall co, collation c = Some co -> Forall is_char co) /\ default_expr c = None.

Definition name_ok (t : TableDefinition) : Prop :=
  Forall is_char (table_name t) /\ (forall s, schema t = Some s -> Forall is_char s) /\
  (forall d, database t = Some d -> Forall is_char d).

Definition table_ok (t : TableDefinition) : Prop :=
  name_ok t /\ Forall column_ok (columns t) /\
  Forall (fun c => Forall (Forall is_char) (constraint_columns c)) (constraints t).

(** ** Texts and their tokens *)

(** The chars that end a word. *)
Definition delimited (post : list Z) : Prop :=
  match post with
  | [] => True
  | c :: _ => c ∈ [32; 40; 41; 44; 46]
  end.

Definition anything (post : list Z) : Prop := True.

(** Before any text that [follow] allows, and inside at most [n] groups, [s] is
    lexed as [items]. *)
Definition lexes (n : nat) (follow : list Z -> Prop) (s : list Z) (items : list Item) : Prop :=
  Forall is_char s /\
  forall post top stack, Forall is_char post -> follow post -> (length stack <= n)%nat ->
    lex (length (utf8 (s ++ post))) (top :: stack) (utf8 (s ++ post)) =
    lex (length (utf8 post)) ((top ++ items) :: stack) (utf8 post).

Lemma lexes_nil n follow : lexes n follow [] [].
Proof. split; [done |]. intros post top stack _ _ _. by rewrite app_nil_r. Qed.

Lemma lexes_app n follow follow' s s' items items' :
  lexes n follow s items -> lexes n follow' s' items' ->
  (forall post, follow' post -> follow (s' ++ post)) -> lexes n follow' (s ++ s') (items ++ items').
Proof.
  intros [Hs H] [Hs' H'] Hf. split; [by apply Forall_app_2 |].
  intros post top stack Hp Hfp Hst. rewrite <- app_assoc, H; [| by apply Forall_app_2 | by apply Hf | done].
  rewrite H' by done. by rewrite app_assoc.
Qed.

Lemma lexes_parse n follow s items : lexes n follow s items -> follow [] -> SqlClassify.parse s = Val (Some items).
Proof.
  intros [_ H] Hf. specialize (H [] [] [] (Forall_nil_2 _) Hf ltac:(cbn; lia)).
  rewrite app_nil_r in H. unfold SqlClassify.parse. by rewrite H.
Qed.

(** A char that the lexer takes alone. *)
Lemma lexes_char n c items :
  is_ascii c -> (forall rest, scan c rest =
    Val (Some match items with [] => Skip rest | i :: _ => Token i rest end)) ->
  (length items <= 1)%nat -> lexes n anything [c] items.
Proof.
  intros Hc Hscan Hl. split; [constructor; [| done]; unfold is_char, is_ascii in *; lia |].
  intros post top stack Hp _ _. cbn [app].
  assert (He : utf8 (c :: post) = c :: utf8 post).
  { change (utf8 (c :: post)) with (encode_char c ++ utf8 post).
    unfold encode_char, is_ascii in *. by bool_eval. }
  rewrite He. cbn [length lex]. unfold lex_step. rewrite Hscan.
  destruct items as [| i [| ? ?]]; cbn in *; [by rewrite app_nil_r | done | lia].
Qed.

Lemma lexes_space n : lexes n anything (str " ") [].
Proof. apply lexes_char; [by apply ascii_lit | done | cbn; lia]. Qed.

Lemma lexes_comma n : lexes n anything (str ",") [Other].
Proof. apply lexes_char; [by apply ascii_lit | done | cbn; lia]. Qed.

Lemma lexes_dot n : lexes n anything (str ".") [Other].
Proof. apply lexes_char; [by apply ascii_lit | done | cbn; lia]. Qed.

Lemma lexes_identifier n s : Forall is_char s -> lexes n delimited (QuotedIdentifier s) [Other].
Proof.
  intros Hs. split.
  - assert (H34 : is_char 34) by (left; lia). unfold QuotedIdentifier, quoted.
    constructor; [done |]. apply Forall_app_2; [| by constructor].
    induction Hs as [| c s Hc Hs IH]; [done |]. cbn [double_quotes].
    case_match; repeat (apply Forall_cons_2; [done |]); done.
  - intros post top stack Hp Hd _. apply identifier_token; [done | done |].
    destruct post as [| c post]; [done |]. cbn in *. intros [= ->]. set_solver.
Qed.

(** A word of upper-case letters and underscores. *)
Definition is_upper (c : Z) : bool := ((65 <=? c) && (c <=? 90)) || (c =? 95).

Lemma is_upper_alnum c : is_upper c = true -> is_ascii_alphanumeric c || (c =? 95) = true.
Proof.
  unfold is_upper, is_ascii_alphanumeric, is_ascii_alphabetic. intros [-> | ->]%orb_true_iff; [done |].
  apply orb_true_r.
Qed.

Lemma is_upper_ascii c : is_upper c = true -> is_ascii c.
Proof. unfold is_upper, is_ascii. rewrite orb_true_iff, andb_true_iff, !Z.leb_le, Z.eqb_eq. lia. Qed.

Lemma upper_uppercase w : Forall (fun c => is_upper c = true) w -> to_ascii_uppercase w = w.
Proof.
  induction 1 as [| c w Hc _ IH]; [done |]. cbn. f_equal; [| exact IH].
  unfold is_upper in Hc. destruct (Z.leb_spec 97 c), (Z.leb_spec c 122); try done.
  apply orb_true_iff in Hc as [[? ?]%andb_true_iff | ?%Z.eqb_eq]; rewrite ?Z.leb_le in *; lia.
Qed.

Lemma delimited_head c post : delimited (c :: post) ->
  is_ascii c /\ is_ascii_alphanumeric c || (c =? 95) = false /\ c <> 39.
Proof.
  unfold delimited. rewrite !elem_of_cons, elem_of_nil.
  intros [-> | [-> | [-> | [-> | [-> | []]]]]]; (split; [by apply ascii_lit | done]).
Qed.

Lemma skip_identifier_word w post fuel :
  Forall (fun c => is_upper c = true) w -> delimited post -> Forall is_char post ->
  (length (w ++ utf8 post) <= fuel)%nat -> skip_identifier fuel (w ++ utf8 post) = Val (utf8 post).
Proof.
  intros Hw Hd Hp. revert fuel. induction Hw as [| c w Hc Hw IH]; intros fuel Hf.
  - destruct post as [| c post]; [by destruct fuel |].
    destruct (delimited_head _ _ Hd) as ([Hc1 Hc2] & Hc & _).
    assert (He : utf8 (c :: post) = c :: utf8 post).
    { change (utf8 (c :: post)) with (encode_char c ++ utf8 post). unfold encode_char. by bool_eval. }
    cbn [app] in *. rewrite He in *. destruct fuel; [simpl in Hf; lia |]. cbn. rewrite Hc. by bool_eval.
  - cbn [app] in *. destruct fuel; [simpl in Hf; lia |]. cbn. rewrite (is_upper_alnum _ Hc).
    apply IH. simpl in Hf. lia.
Qed.

Lemma lexes_word n w : w <> [] -> Forall (fun c => is_upper c = true) w -> lexes n delimited w [Word w].
Proof.
  intros Hne Hw. assert (Ha : Forall is_ascii w) by (eapply Forall_impl; [exact is_upper_ascii | done]).
  split; [by apply is_ascii_char |]. intros post top stack Hp Hd _.
  rewrite utf8_app, (utf8_ascii w) by done. destruct w as [| c w]; [done |].
  apply Forall_cons_1 in Hw as Hcw. destruct Hcw as [Hc Hw'].
  cbn [app length lex]. unfold lex_step.
  assert (Hscan : scan c (w ++ utf8 post) = word_at (c :: w ++ utf8 post)).
  { assert (Hq : (w ++ utf8 post) !! 0%nat <> Some 39).
    { destruct w as [| d w].
      - cbn [app]. apply (utf8_head 39); [by apply ascii_lit | done |]. destruct post as [| d post]; [done |].
        cbn. intros [= ->]. by destruct (delimited_head _ _ Hd) as (_ & _ & ?).
      - cbn. intros [= ->]. apply Forall_cons_1 in Hw' as [Hd' _]. done. }
    revert Hq. generalize (w ++ utf8 post). clear - Hc. intros rest Hq. unfold scan.
    assert (Hin : c ∈ [65; 66; 67; 68; 69; 70; 71; 72; 73; 74; 75; 76; 77; 78; 79; 80; 81; 82; 83;
                       84; 85; 86; 87; 88; 89; 90; 95]).
    { unfold is_upper in Hc. rewrite orb_true_iff, andb_true_iff, !Z.leb_le, Z.eqb_eq in Hc.
      rewrite !elem_of_cons. lia. }
    rewrite (bool_decide_eq_false_2 (rest !! 0%nat = Some 39)) by done. rewrite andb_false_r.
    rewrite !elem_of_cons, elem_of_nil in Hin. by repeat destruct Hin as [-> | Hin]. }
  rewrite Hscan. unfold word_at. change (c :: w ++ utf8 post) with ((c :: w) ++ utf8 post).
  rewrite (skip_identifier_word (c :: w)) by done. cbn [outcome_bind].
  rewrite length_app, Nat.add_sub, take_app_length, upper_uppercase by done.
  cbn -[lex length]. apply lex_fuel; [rewrite length_app; lia | done | by apply utf8_valid].
Qed.

(** A decimal digit is a token of its own. *)
Lemma lexes_digits n ds :
  Forall (fun c => 48 <= c <= 57) ds -> lexes n anything ds (replicate (length ds) Other).
Proof.
  induction 1 as [| c ds Hc Hds IH]; [apply lexes_nil |].
  apply (lexes_app n anything anything [c] ds [Other]); [| exact IH | done].
  apply lexes_char; [unfold is_ascii; lia | | cbn; lia]. intros rest.
  assert (Hin : c ∈ [48; 49; 50; 51; 52; 53; 54; 55; 56; 57]) by (rewrite !elem_of_cons; lia).
  rewrite !elem_of_cons, elem_of_nil in Hin. by repeat destruct Hin as [-> | Hin].
Qed.

(** A parenthesised text is one token. *)
Lemma lexes_group n s items : (n < 256)%nat -> lexes (S n) delimited s items -> lexes n anything (str "(" ++ s ++ str ")") [Group items].
Proof.
  intros Hn [Hs H]. assert (Hc : is_char 40 /\ is_char 41) by (split; left; lia).
  split; [apply Forall_cons_2; [by apply Hc |]; apply Forall_app_2; [done |]; by constructor; [apply Hc |] |].
  intros post top stack Hp _ Hst.
  assert (Hopen : forall l, utf8 (40 :: l) = 40 :: utf8 l) by done.
  assert (Hclose : forall l, utf8 (41 :: l) = 41 :: utf8 l) by done.
  rewrite <- !app_assoc. change (str "(" ++ s ++ str ")" ++ post) with (40 :: s ++ 41 :: post).
  rewrite Hopen. cbn [length lex]. unfold lex_step at 1. cbn -[lex utf8 Nat.ltb length].
  destruct (Nat.ltb_spec MAX_GROUP_DEPTH (length (top :: stack))) as [Hlt | _].
  { unfold MAX_GROUP_DEPTH in Hlt. cbn in Hlt. lia. }
  rewrite H; [| constructor; [apply Hc | done] | cbn; set_solver | cbn; lia].
  rewrite Hclose. cbn [length lex]. by unfold lex_step.
Qed.

(** Words with a space after each, and with one before each. *)
Definition upper_word (w : string) : Prop := str w <> [] /\ Forall (fun c => is_upper c = true) (str w).

#[local] Instance upper_word_dec w : Decision (upper_word w).
Proof. unfold upper_word. apply _. Defined.

Lemma lexes_words_after n l :
  Forall upper_word l -> lexes n anything (concat ((fun w => str w ++ str " ") <$> l)) (words l).
Proof.
  induction 1 as [| w l [Hne Hw] _ IH]; [apply lexes_nil |]. cbn [fmap list_fmap concat words].
  apply (lexes_app n anything anything _ _ [Word (str w)]); [| exact IH | done].
  rewrite <- (app_nil_r [Word (str w)]).
  apply (lexes_app n delimited anything); [by apply lexes_word | apply lexes_space |].
  intros post _. cbn. set_solver.
Qed.

Lemma lexes_words_before n l :
  Forall upper_word l -> lexes n delimited (concat ((fun w => str " " ++ str w) <$> l)) (words l).
Proof.
  induction 1 as [| w l [Hne Hw] Hl IH]; [apply lexes_nil |]. cbn [fmap list_fmap concat words].
  apply (lexes_app n delimited delimited _ _ [Word (str w)]); [| exact IH |].
  - rewrite <- (app_nil_l [Word (str w)]).
    apply (lexes_app n anything delimited); [apply lexes_space | by apply lexes_word | done].
  - intros post Hp. destruct l; [done |]. cbn. set_solver.
Qed.

Ltac upper := apply (bool_decide_unpack _); vm_compute; exact I.

Lemma lexes_weaken n s items : lexes n anything s items -> lexes n delimited s items.
Proof. intros [Hs H]. split; [done |]. intros post top stack Hp _. by apply H. Qed.

(** One word, of a string constant. *)
Lemma lexes_const n w : upper_word w -> lexes n delimited (str w) (words [w]).
Proof. intros [Hne Hw]. by apply lexes_word. Qed.

(** A word and a parenthesised text. *)
Lemma lexes_call n w s items :
  (n < 256)%nat -> upper_word w -> lexes (S n) delimited s items ->
  lexes n anything (str w ++ str "(" ++ s ++ str ")") (words [w] ++ [Group items]).
Proof.
  intros Hn Hw Hs. apply (lexes_app n delimited anything); [by apply lexes_const | by apply lexes_group |].
  intros post _. cbn. set_solver.
Qed.

Lemma lexes_number n z : 0 <= z -> lexes n anything (fmt_u z) (digits z).
Proof. intros Hz. by apply lexes_digits, fmt_u_digits. Qed.

Lemma lexes_comma_space n : lexes n anything (str ", ") [Other].
Proof.
  change (str ", ") with (str "," ++ str " "). rewrite <- (app_nil_r [Other]).
  apply (lexes_app n anything anything); [apply lexes_comma | apply lexes_space | done].
Qed.

Lemma lexes_type n t : (n < 256)%nat -> type_wf t -> lexes n delimited (display t) (type_items t).
Proof.
  intros Hn Ht. destruct t; try (apply lexes_const; upper); unfold display, type_items.
  - destruct Ht as [[Hp _] [Hs _]].
    replace (str "NUMERIC(" ++ fmt_u precision ++ str ", " ++ fmt_u scale ++ str ")")
      with (str "NUMERIC" ++ str "(" ++ (fmt_u precision ++ str ", " ++ fmt_u scale) ++ str ")")
      by (rewrite <- !app_assoc; done).
    apply lexes_weaken, lexes_call; [done | upper |]. apply lexes_weaken.
    apply (lexes_app _ anything anything); [by apply lexes_number | | done].
    apply (lexes_app _ anything anything); [apply lexes_comma_space | by apply lexes_number | done].
  - apply (lexes_app n anything delimited (str "DOUBLE ") (str "PRECISION")
      (words ["DOUBLE"%string]) (words ["PRECISION"%string]));
      [apply (lexes_words_after n ["DOUBLE"%string]); upper | apply lexes_const; upper | done].
  - destruct max_length as [k |]; [| apply lexes_const; upper].
    change (str "VARCHAR(") with (str "VARCHAR" ++ str "("). rewrite <- app_assoc.
    apply lexes_weaken, lexes_call; [done | upper |]. apply lexes_weaken, lexes_number. by destruct Ht.
  - change (str "CHAR(") with (str "CHAR" ++ str "("). rewrite <- app_assoc.
    apply lexes_weaken, lexes_call; [done | upper |]. apply lexes_weaken, lexes_number. by destruct Ht.
Qed.

(** What follows a name begins with a delimiter. *)
Lemma delimited_app s post : delimited s -> s <> [] -> delimited (s ++ post).
Proof. by destruct s. Qed.

Lemma lexes_column n c :
  (n < 256)%nat -> column_ok c -> lexes n delimited (column_sql c) (column_items (shape_of_column c)).
Proof.
  intros Hn (Hname & (t & Ht & Hwf) & Hco & Hd). unfold column_sql, column_items, type_name, sql_type.
  rewrite Hd, app_nil_r. cbn [shape_of_column shape_type shape_nullable shape_collated].
  unfold sql_type. rewrite Ht. cbn [default].
  apply (lexes_app _ delimited delimited _ _ [Other]); [by apply lexes_identifier | |
    intros post _; cbn; set_solver].
  apply (lexes_app _ anything delimited _ _ []); [apply lexes_space | | done].
  apply (lexes_app _ delimited delimited); [by apply lexes_type | |].
  - apply (lexes_app _ delimited delimited).
    + destruct (collation c) as [co |]; [| apply lexes_nil].
      apply (lexes_app _ anything delimited); [| by apply lexes_identifier, Hco | done].
      apply (lexes_app _ anything anything _ _ [] _ (lexes_space n)); [| done].
      apply (lexes_words_after n ["COLLATE"%string]). upper.
    + destruct (nullable c); [apply lexes_nil |].
      apply (lexes_words_before n ["NOT"; "NULL"]%string). upper.
    + intros post Hp. destruct (nullable c); [done | cbn; set_solver].
  - intros post Hp. destruct (collation c), (nullable c); cbn; try done; set_solver.
Qed.

Lemma lexes_columns n i cols :
  (n < 256)%nat -> Forall column_ok cols ->
  lexes n delimited (columns_sql i cols) (columns_items i (shape_of_column <$> cols)).
Proof.
  intros Hn H. revert i. induction H as [| c cols Hc _ IH]; intros i; [apply lexes_nil |].
  cbn [columns_sql columns_items fmap list_fmap].
  apply (lexes_app _ anything delimited); [destruct (0 <? i)%nat | | done].
  - apply lexes_comma_space.
  - apply lexes_nil.
  - apply (lexes_app _ delimited delimited); [by apply lexes_column | apply IH |].
    intros post Hp. destruct cols; [done |]. cbn. set_solver.
Qed.

Lemma lexes_join n l :
  Forall (Forall is_char) l ->
  lexes n delimited (join (str ", ") (QuotedIdentifier <$> l)) (replicate (2 * length l - 1) Other).
Proof.
  induction 1 as [| c l Hc Hl IH]; [apply lexes_nil |]. destruct l as [| d l].
  - by apply lexes_identifier.
  - replace (2 * length (c :: d :: l) - 1)%nat with (1 + (1 + (2 * length (d :: l) - 1)))%nat by (cbn; lia).
    rewrite !replicate_add. cbn [fmap list_fmap join].
    apply (lexes_app _ delimited delimited); [by apply lexes_identifier | |].
    + apply (lexes_app _ anything delimited); [apply lexes_comma_space | exact IH | done].
    + intros post _. cbn. set_solver.
Qed.

Lemma lexes_constraint n c :
  (n < 256)%nat -> Forall (Forall is_char) (constraint_columns c) ->
  lexes n anything (constraint_sql c) (constraint_items (shape_of_constraint c)).
Proof.
  intros Hn Hc. unfold constraint_sql, constraint_items.
  change (str " (") with (str " " ++ str "("). rewrite <- app_assoc.
  assert (Hg : lexes n anything (str "(" ++ join (str ", ") (QuotedIdentifier <$> constraint_columns c) ++ str ")")
    [Group (replicate (2 * (shape_of_constraint c).2 - 1) Other)]).
  { apply lexes_group; [done |]. by apply lexes_join. }
  destruct c; cbn [shape_of_constraint fst].
  - change (str "ASSUMED PRIMARY KEY") with (str "ASSUMED " ++ str "PRIMARY " ++ str "KEY").
    rewrite (app_assoc (_ ++ _ ++ _) (str " ")).
    apply (lexes_app n anything anything); [| exact Hg | done].
    apply (lexes_words_after n ["ASSUMED"; "PRIMARY"; "KEY"]%string). upper.
  - change (str "ASSUMED UNIQUE") with (str "ASSUMED " ++ str "UNIQUE").
    rewrite (app_assoc (_ ++ _) (str " ")).
    apply (lexes_app n anything anything); [| exact Hg | done].
    apply (lexes_words_after n ["ASSUMED"; "UNIQUE"]%string). upper.
Qed.

Lemma lexes_constraints n l :
  (n < 256)%nat -> Forall (fun c => Forall (Forall is_char) (constraint_columns c)) l ->
  lexes n delimited (concat ((fun c => str ", " ++ constraint_sql c) <$> l))
    (concat ((fun c => [Other] ++ constraint_items c) <$> (shape_of_constraint <$> l))).
Proof.
  intros Hn. induction 1 as [| c l Hc _ IH]; [apply lexes_nil |]. cbn [fmap list_fmap concat].
  apply (lexes_app _ anything delimited); [| exact IH | done].
  apply (lexes_app _ anything anything); [apply lexes_comma_space | by apply lexes_constraint | done].
Qed.

Lemma lexes_qualified n t :
  name_ok t -> lexes n delimited (qualified_name t) (replicate (2 * qualifiers t + 1) Other).
Proof.
  intros (Hn & Hs & Hd). unfold qualified_name, qualifiers.
  assert (Hdot : forall s rest k, Forall is_char s -> lexes n delimited rest (replicate k Other) ->
    lexes n delimited (SqlIdentifier s ++ str "." ++ rest) (replicate (S (S k)) Other)).
  { intros s rest k Hc Hr. change (S (S k)) with (1 + (1 + k))%nat. rewrite !replicate_add.
    apply (lexes_app _ delimited delimited); [by apply lexes_identifier | |].
    - apply (lexes_app _ anything delimited); [apply lexes_dot | exact Hr | done].
    - intros post _. cbn. set_solver. }
  assert (H1 : lexes n delimited (SqlIdentifier (table_name t)) (replicate 1 Other))
    by (by apply lexes_identifier).
  destruct (database t) as [d |], (schema t) as [s |]; cbn [is_some Nat.add Nat.mul].
  - apply (Hdot d _ 3%nat); [by apply Hd |]. by apply (Hdot s _ 1%nat); [apply Hs |].
  - by apply (Hdot d _ 1%nat); [apply Hd |].
  - by apply (Hdot s _ 1%nat); [apply Hs |].
  - exact H1.
Qed.

Lemma lexes_keyword n p f : lexes n anything (create_keyword p f) (keyword_items p f).
Proof.
  destruct p, f; unfold create_keyword, keyword_items, words; rewrite <- ?fmap_app; cbn [app];
    [apply (lexes_words_after n ["CREATE"; "TABLE"]%string)
    | apply (lexes_words_after n ["CREATE"; "TABLE"; "IF"; "NOT"; "EXISTS"]%string)
    | apply (lexes_words_after n ["CREATE"; "TEMPORARY"; "TABLE"]%string)
    | apply (lexes_words_after n ["CREATE"; "TEMPORARY"; "TABLE"; "IF"; "NOT"; "EXISTS"]%string)]; upper.
Qed.

Lemma lexes_create t f sql :
  table_ok t -> to_create_sql t f = Ok sql -> lexes 0 delimited sql (create_items (shape_of t) f).
Proof.
  intros (Hname & Hcols & Hcons) Hsql. pose proof Hsql as Hne. unfold to_create_sql in Hsql.
  assert (Hgroup : lexes 0 anything
    (str "(" ++ (columns_sql 0 (columns t)
       ++ concat ((fun c => str ", " ++ constraint_sql c) <$> constraints t)) ++ str ")")
    [Group (columns_items 0 (shape_of_column <$> columns t)
       ++ concat ((fun c => [Other] ++ constraint_items c) <$> (shape_of_constraint <$> constraints t)))]).
  { apply lexes_group; [lia |].
    apply (lexes_app _ delimited delimited); [by apply lexes_columns; [lia |] | by apply lexes_constraints; [lia |] |].
    intros post Hp. destruct (constraints t); [done | cbn; set_solver]. }
  assert (Heq : sql = create_keyword (persistence t) f ++ qualified_name t ++ str " " ++ str "("
    ++ (columns_sql 0 (columns t)
        ++ concat ((fun c => str ", " ++ constraint_sql c) <$> constraints t)) ++ str ")").
  { apply (f_equal (fun r => match r with Ok s => s | Err s => s end)) in Hsql.
    rewrite <- Hsql. destruct (columns t) eqn:Hc; [by unfold to_create_sql in Hne; rewrite Hc in Hne |].
    change (str " (") with (str " " ++ str "("). by rewrite <- !app_assoc. }
  rewrite Heq. apply (lexes_app _ anything delimited); [apply lexes_keyword | | done].
  apply (lexes_app _ delimited delimited); [by apply lexes_qualified | |].
  - apply (lexes_app 0 anything delimited (str " ") _ [] [_]); [apply lexes_space | | done].
    by apply lexes_weaken.
  - intros post _. cbn. set_solver.
Qed.

Lemma lexes_drop t f : name_ok t -> lexes 0 delimited (to_drop_sql t f) (drop_items (qualifiers t) f).
Proof.
  intros Hname. unfold to_drop_sql, drop_items. rewrite app_assoc.
  apply (lexes_app _ anything delimited); [| by apply lexes_qualified | done].
  destruct f; unfold words; rewrite <- ?fmap_app; cbn [app].
  - apply (lexes_words_after 0 ["DROP"; "TABLE"]%string). upper.
  - apply (lexes_words_after 0 ["DROP"; "TABLE"; "IF"; "EXISTS"]%string). upper.
Qed.

(** A statement that starts with a keyword of data definition and has no
    semicolon. *)
Lemma classify_ddl sql w rest :
  w ∈ ["CREATE"; "DROP"]%string -> Semicolon ∉ rest ->
  SqlClassify.parse sql = Val (Some (Word (str w) :: rest)) ->
  classify_statement sql = Val Ddl /\ is_read_only_sql sql = Val false.
Proof.
  intros Hw Hs Hp. assert (Hk : classify_statement sql = Val Ddl).
  { unfold classify_statement. rewrite Hp. cbn [outcome_bind]. unfold classify_items, classify_items_with.
    rewrite split_no_semicolon by (rewrite not_elem_of_cons; done). f_equal. rewrite classify_single_eq.
    rewrite !elem_of_cons, elem_of_nil in Hw. by destruct Hw as [-> | [-> | []]]. }
  split; [done |]. unfold is_read_only_sql. by rewrite Hk.
Qed.

Lemma words_no_semicolon l : Semicolon ∉ words l.
Proof. unfold words. rewrite list_elem_of_fmap. by intros (w & ? & _). Qed.

Lemma other_no_semicolon n : Semicolon ∉ replicate n Other.
Proof. by intros [? _]%elem_of_replicate. Qed.

Lemma create_items_head s f :
  exists rest, create_items s f = Word (str "CREATE") :: rest /\ Semicolon ∉ rest.
Proof.
  unfold create_items, keyword_items. destruct (shape_persistence s); eexists; (split; [reflexivity |]);
    rewrite ?not_elem_of_app; cbn; rewrite ?not_elem_of_cons, ?not_elem_of_app;
    split_and?; done || apply words_no_semicolon || apply other_no_semicolon || set_solver.
Qed.

(** ** Properties *)

(** C24. What names hold cannot change a rendered statement. Whatever chars the
    names of a table, its columns, collations and constraints are made of, the
    lexer reads [to_create_sql] as tokens given by the table's shape alone: the
    keywords, one token for each name, and one group with the columns, their types
    and the constraints; [to_drop_sql] likewise. Both are classified as data
    definition, and so refused by the read-only tools. Only a table with no
    columns is an error. *)
Theorem create_sql_tokens t fail_if_exists :
  table_ok t ->
  (columns t = [] /\ to_create_sql t fail_if_exists = Err (str "Table must have at least one column") \/
   exists sql, to_create_sql t fail_if_exists = Ok sql /\
     SqlClassify.parse sql = Val (Some (create_items (shape_of t) fail_if_exists)) /\
     classify_statement sql = Val Ddl /\ is_read_only_sql sql = Val false) /\
  SqlClassify.parse (to_drop_sql t fail_if_exists) = Val (Some (drop_items (qualifiers t) fail_if_exists)) /\
  classify_statement (to_drop_sql t fail_if_exists) = Val Ddl.
Proof.
  intros Hok. split.
  - destruct (columns t) as [| c cols] eqn:Hcols; [left; split; [done |]; unfold to_create_sql; by rewrite Hcols |].
    right. assert (Hsome : exists sql, to_create_sql t fail_if_exists = Ok sql)
      by (unfold to_create_sql; rewrite Hcols; by eexists).
    destruct Hsome as [sql Hsql]. exists sql. split; [done |].
    pose proof (lexes_parse _ _ _ _ (lexes_create _ _ _ Hok Hsql) I) as Hp. split; [done |].
    destruct (create_items_head (shape_of t) fail_if_exists) as (rest & Heq & Hns).
    apply (classify_ddl _ "CREATE" rest); [set_solver | done | by rewrite Hp, Heq].
  - pose proof (lexes_parse _ _ _ _ (lexes_drop t fail_if_exists (proj1 Hok)) I) as Hp. split; [done |].
    eapply (classify_ddl _ "DROP"); [set_solver | | exact Hp]. cbn. rewrite !not_elem_of_cons, not_elem_of_app.
    split_and!; [done | apply words_no_semicolon | apply other_no_semicolon].
Qed.

(** A table of two columns whose names try to end the statement. *)
Definition hostile_table : TableDefinition :=
  push_constraint (AssumedPrimaryKey [str "id"])
    (add_nullable_column [34; 41; 59; 45; 45] (Numeric 10 2)
       (add_required_column (str "id") Int (with_schema (str "a.b") (table_new [39; 34; 0xE9])))).

Lemma create_sql_tokens_witness :
  exists sql, to_create_sql hostile_table true = Ok sql /\
    SqlClassify.parse sql = Val (Some (create_items (shape_of hostile_table) true)) /\
    classify_statement sql = Val Ddl.
Proof.
  assert (Hok : table_ok hostile_table).
  { assert (Hc : forall l, bool_decide (Forall is_char l) = true -> Forall is_char l)
      by (intros l H; by apply bool_decide_eq_true in H).
    split_and!; [split_and! | | ].
    - apply Hc. vm_compute. reflexivity.
    - intros s [= <-]. apply Hc. vm_compute. reflexivity.
    - done.
    - repeat constructor; try (apply Hc; vm_compute; reflexivity); try done; eexists; split; done.
    - constructor; [| done]. constructor; [| done]. apply Hc. vm_compute. reflexivity. }
  destruct (create_sql_tokens hostile_table true Hok) as [[[? ?] | (sql & H1 & H2 & H3 & _)] _]; [done |].
  exists sql. split; [exact H1 | split; [exact H2 | exact H3]].
Defined.
