(* ===== verification/Catalog.v ===== *)
(** * The catalog of a database

    [hyperdb-api/src/catalog.rs] and [table_copy.rs]: what the connection says of its
    schemas and tables, read from [pg_catalog], and the copy of a table that reproduces
    its definition. A connection is a client whose queries return rows of cells; where
    the source breaks the line of a query there is a space. *)

From stdpp Require Import strings gmap.
From S2P Require Import Prelude Text SqlEscape SqlTypes TableDef Api Session.

(** ** Rows *)

(** A cell as [Row::get] sees it. *)
Inductive Cell : Type :=
| CellNull
| CellText (s : list Z)
| CellBool (b : bool)
| CellInt (z : Z).

Definition Row : Type := list Cell.

(** The chunks that [next_chunk] returns, one of which may be an error. *)
Definition Rowset : Type := list (result (list Row) Api.Error).

Class CatalogClient (K : Type) := {
  catalog_client :: SqlClient K;
  execute_query : list Z -> Op K Rowset;
}.
#[export] Hint Mode CatalogClient ! : typeclass_instances.

Definition get_string (r : Row) (i : nat) : option (list Z) := match r !! i with Some (CellText s) => Some s | _ => None end.
Definition get_bool (r : Row) (i : nat) : option bool := match r !! i with Some (CellBool b) => Some b | _ => None end.
Definition get_i32 (r : Row) (i : nat) : option Z :=
  match r !! i with Some (CellInt z) => if in_ib 32 z then Some z else None | _ => None end.
Definition get_i64 (r : Row) (i : nat) : option Z :=
  match r !! i with Some (CellInt z) => if in_ib 64 z then Some z else None | _ => None end.

(** The loop over [next_chunk]. *)
Fixpoint all_rows (rs : Rowset) : result (list Row) Api.Error :=
  match rs with
  | [] => Ok []
  | Err e :: _ => Err e
  | Ok chunk :: rs => let? rest := all_rows rs in Ok (chunk ++ rest)
  end.

Definition any_row (rs : Rowset) : result bool Api.Error :=
  match rs with
  | [] => Ok false
  | Err e :: _ => Err e
  | Ok [] :: _ => Ok false
  | Ok _ :: _ => Ok true
  end.

(** [Error::from] of the error of a name. *)
Definition named {K A} (r : result A (list Z)) : Op K A :=
  match r with Ok a => op_ret a | Err m => op_fail (InvalidName m) end.

Definition lifted {K A} (r : result A Api.Error) : Op K A := match r with Ok a => op_ret a | Err e => op_fail e end.

(** A value with its single quotes doubled, between quotes. *)
Definition literal (s : list Z) : list Z := quoted 39 s.

Definition db_prefix (db : option DatabaseName.t) : list Z :=
  match db with Some db => DatabaseName.display db ++ str "." | None => [] end.

Definition schema_or_public (n : TableName.t) : list Z := default (str "public") (Name.unescaped <$> TableName.schema n).

Section catalog.
Context {K : Type} `{CatalogClient K}.

Definition unit_command (sql : list Z) : Op K unit := let% _ := run sql in op_ret tt.

Definition query_rows (sql : list Z) : Op K (list Row) := let% rs := execute_query sql in lifted (all_rows rs).

(** ** Schemas and names *)

Definition create_schema (schema : result SchemaName.t (list Z)) : Op K unit :=
  let% schema := named schema in unit_command (str "CREATE SCHEMA IF NOT EXISTS " ++ SchemaName.display schema).

Definition HIDDEN : list Z := str " WHERE nspname NOT IN ('pg_catalog', 'pg_temp', 'information_schema')".

Definition names_of (sql : list Z) : Op K (list (list Z)) :=
  let% rows := query_rows sql in op_ret (omap (fun r => get_string r 0) rows).

Definition get_schema_names (database : option (result DatabaseName.t (list Z))) : Op K (list (list Z)) :=
  let% database := match database with Some db => let% db := named db in op_ret (Some db) | None => op_ret None end in
  names_of (str "SELECT nspname FROM " ++ db_prefix database ++ str "pg_catalog.pg_namespace" ++ HIDDEN).

Definition table_names_sql (schema : SchemaName.t) : list Z :=
  str "SELECT tablename FROM " ++ db_prefix (SchemaName.database schema) ++ str "pg_catalog.pg_tables WHERE schemaname = "
  ++ literal (Name.unescaped (SchemaName.schema schema)).

Definition get_table_names (schema : result SchemaName.t (list Z)) : Op K (list (list Z)) :=
  let% schema := named schema in names_of (table_names_sql schema).

Definition has_schema (schema : result SchemaName.t (list Z)) : Op K bool :=
  let% schema := named schema in
  let% rs := execute_query (str "SELECT 1 FROM " ++ db_prefix (SchemaName.database schema)
                            ++ str "pg_catalog.pg_namespace WHERE nspname = " ++ literal (Name.unescaped (SchemaName.schema schema))) in
  lifted (any_row rs).

Definition has_table (table_name : result TableName.t (list Z)) : Op K bool :=
  let% t := named table_name in
  let% rs := execute_query (str "SELECT 1 FROM " ++ db_prefix (TableName.database t) ++ str "pg_catalog.pg_tables WHERE schemaname = "
                            ++ literal (schema_or_public t) ++ str " AND tablename = " ++ literal (Name.unescaped (TableName.table t))) in
  lifted (any_row rs).

Definition get_database_names : Op K (list (list Z)) := names_of (str "SELECT datname FROM pg_catalog.pg_database").

Definition drop_schema (schema_name : result SchemaName.t (list Z)) (cascade : bool) : Op K unit :=
  let% s := named schema_name in unit_command (str "DROP SCHEMA " ++ SchemaName.display s ++ (if cascade then str " CASCADE" else [])).

Definition drop_schema_if_exists (schema_name : result SchemaName.t (list Z)) (cascade : bool) : Op K unit :=
  let% s := named schema_name in
  unit_command (str "DROP SCHEMA IF EXISTS " ++ SchemaName.display s ++ (if cascade then str " CASCADE" else [])).

(** ** Constraints *)

Record PendingConstraint : Type := mk_pending { contype : list Z; conname : list Z; validated : bool; con_columns : list (list Z) }.

Record ReflectedConstraints : Type := mk_reflected { supported : list TableConstraint; unreproducible : list (list Z * list (list Z)) }.

Definition constraint_kind (code : list Z) : list Z :=
  if bool_decide (code = str "p") then str "enforced PRIMARY KEY"
  else if bool_decide (code = str "u") then str "enforced UNIQUE"
  else if bool_decide (code = str "c") then str "CHECK"
  else if bool_decide (code = str "f") then str "FOREIGN KEY"
  else if bool_decide (code = str "x") then str "EXCLUSION"
  else str "constraint of type '" ++ code ++ str "'".

Definition push_constraint (out : ReflectedConstraints) (pending : PendingConstraint) : ReflectedConstraints :=
  if bool_decide (contype pending = str "p") && negb (validated pending)
  then mk_reflected (supported out ++ [AssumedPrimaryKey (con_columns pending)]) (unreproducible out)
  else if bool_decide (contype pending = str "u") && negb (validated pending)
  then mk_reflected (supported out ++ [AssumedUnique (con_columns pending)]) (unreproducible out)
  else mk_reflected (supported out) (unreproducible out ++ [(constraint_kind (contype pending), con_columns pending)]).

(** One row of a constraint: its name, its code, a column, whether it is enforced. *)
Definition group_row (st : ReflectedConstraints * option PendingConstraint) (r : Row) : ReflectedConstraints * option PendingConstraint :=
  let name := default [] (get_string r 0) in
  let type := default [] (get_string r 1) in
  let attname := default [] (get_string r 2) in
  let valid := default false (get_bool r 3) in
  match st.2 with
  | Some pending =>
      if bool_decide (contype pending = type /\ conname pending = name)
      then (st.1, Some (mk_pending (contype pending) (conname pending) (validated pending) (con_columns pending ++ [attname])))
      else (push_constraint st.1 pending, Some (mk_pending type name valid [attname]))
  | None => (st.1, Some (mk_pending type name valid [attname]))
  end.

Definition group_rows (rows : list Row) : ReflectedConstraints :=
  match foldl group_row (mk_reflected [] [], None) rows with
  | (out, Some pending) => push_constraint out pending
  | (out, None) => out
  end.

Definition catalog_prefix (n : TableName.t) : list Z := db_prefix (TableName.database n) ++ str "pg_catalog".

Definition constraints_sql (n : TableName.t) : list Z :=
  let cat := catalog_prefix n in
  str "SELECT con.conname, CAST(con.contype AS TEXT) AS contype, a.attname, con.convalidated FROM " ++ cat
  ++ str ".pg_constraint con JOIN " ++ cat ++ str ".pg_class c ON con.conrelid = c.oid JOIN " ++ cat
  ++ str ".pg_namespace n ON c.relnamespace = n.oid, unnest(con.conkey) WITH ORDINALITY AS k(attnum, ord) JOIN " ++ cat
  ++ str ".pg_attribute a ON a.attrelid = con.conrelid AND a.attnum = k.attnum WHERE n.nspname = " ++ literal (schema_or_public n)
  ++ str " AND c.relname = " ++ literal (Name.unescaped (TableName.table n)) ++ str " ORDER BY con.contype, con.conname, k.ord".

Definition get_table_constraints (n : TableName.t) : Op K ReflectedConstraints :=
  let% rows := query_rows (constraints_sql n) in op_ret (group_rows rows).

(** ** Definitions *)

Definition DEFAULT_COLLATION : list Z := str "default".

Definition columns_query (n : TableName.t) : list Z :=
  let cat := catalog_prefix n in
  str "SELECT a.attname, t.typname, NOT a.attnotnull as is_nullable, a.atttypid, a.atttypmod, ad.adsrc, coll.collname FROM " ++ cat
  ++ str ".pg_attribute a JOIN " ++ cat ++ str ".pg_type t ON a.atttypid = t.oid JOIN " ++ cat
  ++ str ".pg_class c ON a.attrelid = c.oid JOIN " ++ cat ++ str ".pg_namespace n ON c.relnamespace = n.oid LEFT JOIN " ++ cat
  ++ str ".pg_attrdef ad ON ad.adrelid = a.attrelid AND ad.adnum = a.attnum LEFT JOIN " ++ cat
  ++ str ".pg_collation coll ON coll.oid = a.attcollation WHERE n.nspname = " ++ literal (schema_or_public n)
  ++ str " AND c.relname = " ++ literal (Name.unescaped (TableName.table n)) ++ str " AND a.attnum > 0 AND NOT a.attisdropped ORDER BY a.attnum".

(** The column of a row. A modifier that is not of its type is a panic. *)
Definition column_of_row (r : Row) : outcome ColumnDefinition :=
  let! t := from_oid_and_modifier (wrap_u 32 (default 0 (get_i32 r 3))) (default (-1) (get_i32 r 4)) in
  let collation := match get_string r 6 with
                   | Some c => if bool_decide (c = DEFAULT_COLLATION) then None else Some c
                   | None => None
                   end in
  Val (mk_column (default [] (get_string r 0)) (ASqlType t) (default false (get_bool r 2)) collation (get_string r 5)).

Fixpoint columns_of_rows (rows : list Row) : outcome (list ColumnDefinition) :=
  match rows with
  | [] => Val []
  | r :: rows => let! c := column_of_row r in let! cols := columns_of_rows rows in Val (c :: cols)
  end.

Definition get_table_definition (table_name : result TableName.t (list Z)) : Op K TableDefinition :=
  let% n := named table_name in
  let table := Name.unescaped (TableName.table n) in
  let% rows := query_rows (columns_query n) in
  let% columns := (fun k => let! cols := columns_of_rows rows in Val (Ok cols, k)) in
  match columns with
  | [] => op_fail (NotFound (str "Table " ++ schema_or_public n ++ str "." ++ table))
  | _ =>
      let% reflected := get_table_constraints n in
      op_ret (mk_table table (Some (schema_or_public n)) (Name.unescaped <$> TableName.database n) columns Permanent (supported reflected))
  end.

Definition get_column_names (table_name : result TableName.t (list Z)) : Op K (list (list Z)) :=
  let% def := get_table_definition table_name in op_ret (col_name <$> columns def).

(** [query_count]: the first cell, or 0. *)
Definition get_row_count (table_name : result TableName.t (list Z)) : Op K Z :=
  let% n := named table_name in
  let% rs := execute_query (str "SELECT COUNT(*) FROM " ++ TableName.display n) in
  let% rows := lifted (match rs with [] => Ok [] | chunk :: _ => chunk end) in
  op_ret (default 0 (head rows ≫= fun r => get_i64 r 0)).

Definition created (def : TableDefinition) (fail_if_exists : bool) : Op K unit :=
  match to_create_sql def fail_if_exists with
  | Ok sql => unit_command sql
  | Err m => op_fail (InvalidTableDefinition m)
  end.

Definition create_table (def : TableDefinition) : Op K unit := created def true.
Definition create_table_if_not_exists (def : TableDefinition) : Op K unit := created def false.

Definition drop_table (table_name : result TableName.t (list Z)) : Op K unit :=
  let% n := named table_name in unit_command (str "DROP TABLE " ++ TableName.display n).
Definition drop_table_if_exists (table_name : result TableName.t (list Z)) : Op K unit :=
  let% n := named table_name in unit_command (str "DROP TABLE IF EXISTS " ++ TableName.display n).

(** ** Copies ([table_copy.rs]) *)

Inductive UnpreservedReason : Type := NonPortableDefault | UnsupportedConstraint.

Definition reason_text (r : UnpreservedReason) : list Z :=
  match r with
  | NonPortableDefault => str "DEFAULT expression is database-qualified and would not resolve in the destination database"
  | UnsupportedConstraint => str "constraint cannot be reproduced by CREATE TABLE"
  end.

Record UnpreservedItem : Type := mk_item { item_table : list Z; item_column : list Z; reason : UnpreservedReason; item_detail : list Z }.

Definition item_text (i : UnpreservedItem) : list Z :=
  match item_column i with
  | [] => item_table i ++ str ": " ++ reason_text (reason i) ++ str " (" ++ item_detail i ++ str ")"
  | c => item_table i ++ str "." ++ c ++ str ": " ++ reason_text (reason i) ++ str " (" ++ item_detail i ++ str ")"
  end.

Record CopyTableReport : Type := mk_report {
  rows_copied : Z;
  not_null_columns : Z;
  default_columns : Z;
  collated_columns : Z;
  assumed_primary_keys : Z;
  assumed_unique_constraints : Z;
  unpreserved : list UnpreservedItem;
}.

Definition no_report : CopyTableReport := mk_report 0 0 0 0 0 0 [].

Definition is_fully_preserved (r : CopyTableReport) : bool := bool_decide (unpreserved r = []).

(** [saturating_add] of a [u64] or a [usize]. *)
Definition saturating_add (a b : Z) : Z := Z.min (a + b) (2 ^ 64 - 1).

Definition merge_reports (a b : CopyTableReport) : CopyTableReport :=
  mk_report (saturating_add (rows_copied a) (rows_copied b)) (saturating_add (not_null_columns a) (not_null_columns b))
    (saturating_add (default_columns a) (default_columns b)) (saturating_add (collated_columns a) (collated_columns b))
    (saturating_add (assumed_primary_keys a) (assumed_primary_keys b))
    (saturating_add (assumed_unique_constraints a) (assumed_unique_constraints b)) (unpreserved a ++ unpreserved b).

Definition is_portable_default (expr : list Z) : bool := negb (bool_decide (34 ∈ expr)).

Definition lost_constraint (origin : list Z) (c : list Z * list (list Z)) : UnpreservedItem :=
  mk_item origin [] UnsupportedConstraint (c.1 ++ str " (" ++ join (str ", ") c.2 ++ str ")").

Definition lost_default (origin : list Z) (c : ColumnDefinition) : option UnpreservedItem :=
  match default_expr c with
  | Some e => if is_portable_default e then None else Some (mk_item origin (col_name c) NonPortableDefault e)
  | None => None
  end.

Definition keep_default (c : ColumnDefinition) : ColumnDefinition :=
  match default_expr c with
  | Some e => if is_portable_default e then c else clear_default_expr c
  | None => c
  end.

(** What the loop over the columns adds to the report. *)
Definition report_column (origin : list Z) (r : CopyTableReport) (c : ColumnDefinition) : CopyTableReport :=
  mk_report (rows_copied r)
    (if nullable c then not_null_columns r else saturating_add (not_null_columns r) 1)
    (match default_expr c with
     | Some e => if is_portable_default e then saturating_add (default_columns r) 1 else default_columns r
     | None => default_columns r
     end)
    (match collation c with Some _ => saturating_add (collated_columns r) 1 | None => collated_columns r end)
    (assumed_primary_keys r) (assumed_unique_constraints r)
    (unpreserved r ++ match lost_default origin c with Some i => [i] | None => [] end).

Definition report_constraint (r : CopyTableReport) (c : TableConstraint) : CopyTableReport :=
  match c with
  | AssumedPrimaryKey _ =>
      mk_report (rows_copied r) (not_null_columns r) (default_columns r) (collated_columns r)
        (saturating_add (assumed_primary_keys r) 1) (assumed_unique_constraints r) (unpreserved r)
  | AssumedUnique _ =>
      mk_report (rows_copied r) (not_null_columns r) (default_columns r) (collated_columns r)
        (assumed_primary_keys r) (saturating_add (assumed_unique_constraints r) 1) (unpreserved r)
  end.

Definition with_rows (n : Z) (r : CopyTableReport) : CopyTableReport :=
  mk_report n (not_null_columns r) (default_columns r) (collated_columns r) (assumed_primary_keys r)
    (assumed_unique_constraints r) (unpreserved r).

Definition origin_of (n : TableName.t) : list Z := schema_or_public n ++ str "." ++ Name.unescaped (TableName.table n).

(** The definition at its destination. *)
Definition retarget (def : TableDefinition) (n : TableName.t) : TableDefinition :=
  mk_table (Name.unescaped (TableName.table n)) (Name.unescaped <$> TableName.schema n) (Name.unescaped <$> TableName.database n)
    (keep_default <$> columns def) (persistence def) (constraints def).

Definition report_of (source : TableName.t) (def : TableDefinition) (lost : list (list Z * list (list Z))) : CopyTableReport :=
  let origin := origin_of source in
  let report := mk_report 0 0 0 0 0 0 (lost_constraint origin <$> lost) in
  foldl report_constraint (foldl (report_column origin) report (columns def)) (constraints def).

Definition copy_rows_sql (source destination : TableName.t) (cols : list ColumnDefinition) : list Z :=
  let columns := join (str ", ") (QuotedIdentifier ∘ col_name <$> cols) in
  str "INSERT INTO " ++ TableName.display destination ++ str " (" ++ columns ++ str ") SELECT " ++ columns ++ str " FROM "
  ++ TableName.display source.

Definition copy_table (source destination : result TableName.t (list Z)) : Op K CopyTableReport :=
  let% source := named source in
  let% destination := named destination in
  let% def := get_table_definition (Ok source) in
  let% reflected := get_table_constraints source in
  let target := retarget def destination in
  let% _ := create_table target in
  let% rows := run (copy_rows_sql source destination (columns target)) in
  op_ret (with_rows rows (report_of source def (unreproducible reflected))).

(** The rest forwards to the connection. *)
Definition create_database (path : list Z) : Op K unit := Session.create_database path.
Definition drop_database (path : list Z) : Op K unit := Session.drop_database path.
Definition attach_database (path : list Z) (alias : option (list Z)) : Op K unit := Session.attach_database path alias.
Definition detach_database (alias : list Z) : Op K unit := Session.detach_database alias.
Definition detach_all_databases : Op K unit := Session.detach_all_databases.
End catalog.

(** ** What the catalog stores *)

(** A type that its object identifier and modifier determine. *)
Definition stored_type (t : SqlType) : Prop :=
  match t with
  | Numeric p s => 1 <= p <= MAX_PRECISION /\ 0 <= s <= p
  | Varchar (Some n) | Char n => 0 <= n /\ in_i 32 (n + 4)
  | Unsupported => False
  | _ => True
  end.

Definition modifier_of (t : SqlType) : Z :=
  match t with
  | Numeric p s => p * 2 ^ 16 + s + 4
  | Varchar (Some n) | Char n => n + 4
  | _ => -1
  end.

Definition stored_column (c : ColumnDefinition) : Prop :=
  collation c <> Some DEFAULT_COLLATION /\ exists t, sql_type_or_name c = ASqlType t /\ stored_type t.

Definition text_or_null (s : option (list Z)) : Cell := match s with Some s => CellText s | None => CellNull end.

(** The row of [pg_attribute] for a column. *)
Definition column_row (c : ColumnDefinition) : Row :=
  let t := default Unsupported (sql_type c) in
  [CellText (col_name c); CellText (type_name c); CellBool (nullable c); CellInt (internal_oid t); CellInt (modifier_of t);
   text_or_null (default_expr c); CellText (default DEFAULT_COLLATION (collation c))].

Lemma stored_type_read t : stored_type t ->
  in_i 32 (internal_oid t) /\ 0 <= internal_oid t /\ in_i 32 (modifier_of t) /\ from_oid_and_modifier (internal_oid t) (modifier_of t) = Val t.
Proof.
  intros Ht. destruct t as [ | | | | p s | | | | | | [n |] | n | | | | | | | | ]; try done;
    try (split_and!; [unfold in_i; cbn; lia | cbn; lia | unfold in_i; cbn; lia | vm_compute; reflexivity]).
  - destruct (modifier_exact false 0 0 ltac:(unfold in_i; cbn; lia)) as (_ & Hn & _ & _). destruct Ht as [Hp Hs].
    destruct (Hn p s) as [_ Hr]. specialize (Hr Hp Hs). unfold MAX_PRECISION in Hp. split; [split; vm_compute; congruence |].
    split; [vm_compute; congruence |]. split; [| done]. unfold in_i, modifier_of. change (2 ^ (32 - 1)) with 2147483648.
    change (2 ^ 16) with 65536. lia.
  - destruct (modifier_exact false 0 0 ltac:(unfold in_i; cbn; lia)) as (_ & _ & Hn & _). destruct Ht as [Hp Hs].
    destruct (Hn n Hp Hs) as (_ & _ & Hr & _). split; [split; vm_compute; congruence |]. split; [vm_compute; congruence |]. by split.
  - destruct (modifier_exact false 0 0 ltac:(unfold in_i; cbn; lia)) as (_ & _ & Hn & _). destruct Ht as [Hp Hs].
    destruct (Hn n Hp Hs) as (_ & _ & _ & Hr). cbn [internal_oid modifier_of]. destruct (Z.eqb_spec n 1) as [-> |];
      (split; [split; vm_compute; congruence |]; split; [vm_compute; congruence |]; by split).
Qed.

Lemma column_read c : stored_column c -> column_of_row (column_row c) = Val c.
Proof.
  intros [Hcoll (t & Hty & Ht)]. destruct (stored_type_read t Ht) as (Ho & Ho0 & Hm & Hr). unfold column_of_row, column_row.
  unfold sql_type. rewrite Hty. cbn [default from_option id get_i32 get_string get_bool lookup list_lookup].
  rewrite (proj2 (in_ib_spec 32 _) Ho), (proj2 (in_ib_spec 32 _) Hm). cbn [default from_option id].
  rewrite wrap_u_id by (unfold in_u, in_i in *; lia). rewrite Hr. cbn [outcome_bind].
  destruct c as [name ty null coll def]. cbn in *. subst ty. destruct coll as [co |]; cbn.
  - rewrite bool_decide_eq_false_2 by congruence. by destruct def.
  - rewrite bool_decide_eq_true_2 by done. by destruct def.
Qed.

Lemma columns_read cols : Forall stored_column cols -> columns_of_rows (column_row <$> cols) = Val cols.
Proof. induction 1 as [| c cols Hc _ IH]; [done |]. cbn [fmap list_fmap columns_of_rows]. rewrite column_read by done. cbn. by rewrite IH. Qed.

(** The rows of a constraint, one per column. *)
Definition constraint_rows (p : PendingConstraint) : list Row :=
  (fun c => [CellText (conname p); CellText (contype p); CellText c; CellBool (validated p)]) <$> con_columns p.

(** The constraints of a table in the order of the query: each has a column, and no
    two have the same code and name. *)
Definition well_grouped (ps : list PendingConstraint) : Prop :=
  Forall (fun p => con_columns p <> []) ps /\ NoDup ((fun p => (contype p, conname p)) <$> ps).

Definition reflect_constraints (ps : list PendingConstraint) : ReflectedConstraints := foldl push_constraint (mk_reflected [] []) ps.

Lemma group_more p seen cols out :
  foldl group_row (out, Some (mk_pending (contype p) (conname p) (validated p) seen))
    ((fun c => [CellText (conname p); CellText (contype p); CellText c; CellBool (validated p)]) <$> cols)
  = (out, Some (mk_pending (contype p) (conname p) (validated p) (seen ++ cols))).
Proof.
  revert seen. induction cols as [| c cols IH]; intros seen; [by rewrite app_nil_r |]. cbn [fmap list_fmap foldl].
  unfold group_row at 2. cbn [snd fst get_string lookup list_lookup default from_option id contype conname validated con_columns].
  rewrite bool_decide_eq_true_2 by done. rewrite IH. by rewrite <- app_assoc.
Qed.

Lemma group_one p out last :
  con_columns p <> [] -> (forall q, last = Some q -> (contype q, conname q) <> (contype p, conname p)) ->
  foldl group_row (out, last) (constraint_rows p)
  = (match last with Some q => push_constraint out q | None => out end, Some p).
Proof.
  intros Hc Hl. unfold constraint_rows. destruct p as [ty nm v [| c cols]]; [done |]. cbn [con_columns contype conname validated fmap list_fmap foldl].
  pose proof (fun o => group_more (mk_pending ty nm v []) [c] cols o) as Hm. cbn [contype conname validated] in Hm.
  destruct last as [q |]; unfold group_row at 2; cbn [snd fst get_string get_bool lookup list_lookup default from_option id]; [| by rewrite Hm].
  rewrite bool_decide_eq_false_2; [by rewrite Hm |]. intros [H1 H2]. by apply (Hl q); cbn; congruence.
Qed.

Lemma group_rows_of ps : well_grouped ps -> group_rows (ps ≫= constraint_rows) = reflect_constraints ps.
Proof.
  intros [Hne Hnd]. unfold group_rows, reflect_constraints.
  assert (H : forall ps out last, Forall (fun p => con_columns p <> []) ps ->
    NoDup ((fun p => (contype p, conname p)) <$> (match last with Some q => q :: ps | None => ps end)) ->
    match foldl group_row (out, last) (ps ≫= constraint_rows) with (out, Some p) => push_constraint out p | (out, None) => out end
    = foldl push_constraint (match last with Some q => push_constraint out q | None => out end) ps).
  { clear. induction ps as [| p ps IH]; intros out last Hne Hnd; [by destruct last |].
    apply Forall_cons_1 in Hne as [Hp Hne]. cbn [mbind list_bind foldl]. rewrite foldl_app, group_one; [| done |].
    - rewrite IH; [done | done |]. destruct last; [| done]. cbn [fmap list_fmap] in Hnd. by apply list.NoDup_cons in Hnd as [_ Hnd].
    - intros q ->. cbn [fmap list_fmap] in Hnd. apply list.NoDup_cons in Hnd as [Hq _]. intros Heq. apply Hq. rewrite Heq. by left. }
  by apply (H ps _ None).
Qed.

(** ** The contract of a server *)

(** A table of the server. *)
Record Stored (R : Type) : Type := mk_stored { st_columns : list ColumnDefinition; st_constraints : list PendingConstraint; st_rows : R }.
Arguments mk_stored {R} _ _ _.
Arguments st_columns {R} _.
Arguments st_constraints {R} _.
Arguments st_rows {R} _.

Definition well_stored {R} (st : Stored R) : Prop :=
  st_columns st <> [] /\ Forall stored_column (st_columns st) /\ well_grouped (st_constraints st).

(** Where a table is: the database, if it is named, the schema and the table. A name of
    one part is that of a table of the schema [public], one of two has its schema, and one
    of three its database. *)
Definition Place : Type := option (list Z) * list Z * list Z.

Definition place_of (parts : list (list Z)) : option Place :=
  match parts with
  | [t] => Some (None, str "public", t)
  | [s; t] => Some (None, s, t)
  | [d; s; t] => Some (Some d, s, t)
  | _ => None
  end.

(** The parts of a name and of a list, as SQL writes them. *)
Definition dotted (parts : list (list Z)) : list Z :=
  match parts with [] => [] | p :: parts => quoted 34 p ++ (parts ≫= fun p => 46 :: quoted 34 p) end.
Definition commas (l : list (list Z)) : list Z :=
  match l with [] => [] | x :: l => x ++ (l ≫= fun x => str ", " ++ x) end.

(** A column and a key in a CREATE TABLE. *)
Definition column_text (c : ColumnDefinition) : list Z :=
  quoted 34 (col_name c) ++ [32] ++ type_name c
  ++ match collation c with Some co => str " COLLATE " ++ quoted 34 co | None => [] end
  ++ (if nullable c then [] else str " NOT NULL")
  ++ match default_expr c with Some e => str " DEFAULT " ++ e | None => [] end.

Definition key_text (key : TableConstraint) : list Z :=
  match key with
  | AssumedPrimaryKey cols => str "ASSUMED PRIMARY KEY (" ++ commas (quoted 34 <$> cols) ++ str ")"
  | AssumedUnique cols => str "ASSUMED UNIQUE (" ++ commas (quoted 34 <$> cols) ++ str ")"
  end.

Definition create_text (parts : list (list Z)) (cols : list ColumnDefinition) (keys : list TableConstraint) : list Z :=
  str "CREATE TABLE " ++ dotted parts ++ str " (" ++ commas ((column_text <$> cols) ++ (key_text <$> keys)) ++ str ")".

Definition insert_text (into : list (list Z)) (cols : list (list Z)) (from : list (list Z)) : list Z :=
  let cols := commas (quoted 34 <$> cols) in
  str "INSERT INTO " ++ dotted into ++ str " (" ++ cols ++ str ") SELECT " ++ cols ++ str " FROM " ++ dotted from.

(** The queries of the catalog of the database of a place. *)
Definition pg_catalog (p : Place) : list Z :=
  match p.1.1 with Some d => quoted 34 d ++ [46] | None => [] end ++ str "pg_catalog".

Definition columns_text (p : Place) : list Z :=
  str "SELECT a.attname, t.typname, NOT a.attnotnull as is_nullable, a.atttypid, a.atttypmod, ad.adsrc, coll.collname FROM " ++ pg_catalog p
  ++ str ".pg_attribute a JOIN " ++ pg_catalog p ++ str ".pg_type t ON a.atttypid = t.oid JOIN " ++ pg_catalog p
  ++ str ".pg_class c ON a.attrelid = c.oid JOIN " ++ pg_catalog p ++ str ".pg_namespace n ON c.relnamespace = n.oid LEFT JOIN " ++ pg_catalog p
  ++ str ".pg_attrdef ad ON ad.adrelid = a.attrelid AND ad.adnum = a.attnum LEFT JOIN " ++ pg_catalog p
  ++ str ".pg_collation coll ON coll.oid = a.attcollation WHERE n.nspname = " ++ quoted 39 p.1.2
  ++ str " AND c.relname = " ++ quoted 39 p.2 ++ str " AND a.attnum > 0 AND NOT a.attisdropped ORDER BY a.attnum".

Definition constraints_text (p : Place) : list Z :=
  str "SELECT con.conname, CAST(con.contype AS TEXT) AS contype, a.attname, con.convalidated FROM " ++ pg_catalog p
  ++ str ".pg_constraint con JOIN " ++ pg_catalog p ++ str ".pg_class c ON con.conrelid = c.oid JOIN " ++ pg_catalog p
  ++ str ".pg_namespace n ON c.relnamespace = n.oid, unnest(con.conkey) WITH ORDINALITY AS k(attnum, ord) JOIN " ++ pg_catalog p
  ++ str ".pg_attribute a ON a.attrelid = con.conrelid AND a.attnum = k.attnum WHERE n.nspname = " ++ quoted 39 p.1.2
  ++ str " AND c.relname = " ++ quoted 39 p.2 ++ str " ORDER BY con.contype, con.conname, k.ord".

(** The key that a constraint of the catalog is, if it is one that is only assumed. *)
Definition assumed_key (c : PendingConstraint) : option TableConstraint :=
  if validated c then None
  else if decide (contype c = str "p") then Some (AssumedPrimaryKey (con_columns c))
  else if decide (contype c = str "u") then Some (AssumedUnique (con_columns c))
  else None.

(** What the documentation of the server says of its statements, for any names and any
    definition it can read back ([readable]: the types are its own and the defaults are
    expressions of literals). Queries change no table; a statement that fails may have
    taken effect all the same, as when the connection dies, but never in part. A CREATE
    TABLE makes the table it names, which was not there, with the columns and keys it
    says; an INSERT of all the columns of a table, in order, from the same columns of
    another adds all its rows and returns how many they are. *)
Class CopyServer (K R : Type) `{CatalogClient K} := {
  tables : K -> gmap Place (Stored R);
  no_rows : R;
  appended : R -> R -> R;
  row_total : R -> Z;
  readable : list ColumnDefinition -> list TableConstraint -> Prop;
  run_returns sql (k : K) : exists r k', run sql k = Val (r, k');
  query_returns sql (k : K) : exists r k', execute_query sql k = Val (r, k');
  query_keeps sql (k : K) r k' : execute_query sql k = Val (r, k') -> tables k' = tables k;
  columns_law p (k : K) rs rows k' :
    execute_query (columns_text p) k = Val (Ok rs, k') -> all_rows rs = Ok rows ->
    rows = default [] ((fun st => column_row <$> st_columns st) <$> tables k !! p);
  constraints_law p (k : K) rs rows k' :
    execute_query (constraints_text p) k = Val (Ok rs, k') -> all_rows rs = Ok rows ->
    rows = default [] ((fun st => st_constraints st ≫= constraint_rows) <$> tables k !! p);
  create_law parts p cols keys (k : K) r k' :
    place_of parts = Some p -> readable cols keys -> run (create_text parts cols keys) k = Val (r, k') ->
    let done := tables k !! p = None
                /\ exists ps, tables k' = <[p := mk_stored cols ps no_rows]> (tables k) /\ assumed_key <$> ps ≡ₚ Some <$> keys in
    if is_ok r then done else tables k' = tables k \/ done;
  insert_law into from q p cols st st' (k : K) r k' :
    place_of into = Some q -> place_of from = Some p -> tables k !! p = Some st -> tables k !! q = Some st' ->
    col_name <$> st_columns st = cols -> col_name <$> st_columns st' = cols ->
    run (insert_text into cols from) k = Val (r, k') ->
    let done := tables k' = <[q := mk_stored (st_columns st') (st_constraints st') (appended (st_rows st') (st_rows st))]> (tables k) in
    match r with
    | Ok n => n = row_total (st_rows st) /\ done
    | Err _ => tables k' = tables k \/ done
    end;
}.

(** ** Copies *)

(** A count that stops at the largest [usize]. *)
Definition counted {A} (f : A -> bool) (l : list A) : Z := Z.min (Z.of_nat (length (filter (fun a => f a = true) l))) (2 ^ 64 - 1).

Definition has {A} (o : option A) : bool := match o with Some _ => true | None => false end.

Definition is_primary (c : TableConstraint) : bool := match c with AssumedPrimaryKey _ => true | _ => false end.

Lemma fold_counted {A} (step : CopyTableReport -> A -> CopyTableReport) (g : CopyTableReport -> Z) (f : A -> bool) l r :
  (forall r c, g (step r c) = if f c then saturating_add (g r) 1 else g r) -> 0 <= g r <= 2 ^ 64 - 1 ->
  g (foldl step r l) = Z.min (g r + Z.of_nat (length (filter (fun a => f a = true) l))) (2 ^ 64 - 1).
Proof.
  intros Hg. revert r. induction l as [| c l IH]; intros r Hr; cbn [foldl]; [cbn; lia |].
  assert (Hs : g (step r c) = if f c then Z.min (g r + 1) (2 ^ 64 - 1) else g r) by apply Hg.
  rewrite IH by (rewrite Hs; destruct (f c); lia). rewrite Hs. destruct (f c) eqn:Hf.
  - rewrite list.filter_cons_True by done. cbn [length]. lia.
  - rewrite list.filter_cons_False by congruence. lia.
Qed.

Lemma fold_same {A B} (step : CopyTableReport -> A -> CopyTableReport) (g : CopyTableReport -> B) l r :
  (forall r c, g (step r c) = g r) -> g (foldl step r l) = g r.
Proof. intros Hg. revert r. induction l as [| c l IH]; intros r; [done |]. cbn [foldl]. by rewrite IH. Qed.

Lemma fold_lost origin l r :
  unpreserved (foldl (report_column origin) r l) = unpreserved r ++ omap (lost_default origin) l.
Proof.
  revert r. induction l as [| c l IH]; intros r; [by rewrite app_nil_r |]. cbn [foldl omap list_omap]. rewrite IH. cbn [report_column unpreserved].
  rewrite <- app_assoc. by destruct (lost_default origin c).
Qed.

(** What becomes of a column: its default is left out if it names a database, which is
    when it has a quoted identifier. *)
Definition destination_column (c : ColumnDefinition) : ColumnDefinition :=
  mk_column (col_name c) (sql_type_or_name c) (nullable c) (collation c)
    (match default_expr c with Some e => if decide (34 ∈ e) then None else Some e | None => None end).

Definition place_text (p : Place) : list Z := p.1.2 ++ str "." ++ p.2.

(** The line of a report for a constraint and for a default that was left out. *)
Definition constraint_line (p : Place) (c : PendingConstraint) : UnpreservedItem :=
  mk_item (place_text p) [] UnsupportedConstraint (constraint_kind (contype c) ++ str " (" ++ commas (con_columns c) ++ str ")").

Definition default_line (p : Place) (c : ColumnDefinition) : option UnpreservedItem :=
  match default_expr c with
  | Some e => if decide (34 ∈ e) then Some (mk_item (place_text p) (col_name c) NonPortableDefault e) else None
  | None => None
  end.

(** What the report of a copy says of the source. *)
Definition reported (p : Place) (cols : list ColumnDefinition) (keys : list TableConstraint) (lost : list PendingConstraint) (rows : Z)
    (r : CopyTableReport) : Prop :=
  rows_copied r = rows
  /\ not_null_columns r = counted (fun c => negb (nullable c)) cols
  /\ default_columns r = counted (fun c => has (default_expr (destination_column c))) cols
  /\ collated_columns r = counted (fun c => has (collation c)) cols
  /\ assumed_primary_keys r = counted is_primary keys
  /\ assumed_unique_constraints r = counted (fun c => negb (is_primary c)) keys
  /\ unpreserved r = (constraint_line p <$> lost) ++ omap (default_line p) cols.

Lemma commas_join l : commas l = join (str ", ") l.
Proof.
  destruct l as [| x l]; [done |]. cbn [commas]. revert x. induction l as [| y l IH]; intros x; [apply app_nil_r |].
  change (join (str ", ") (x :: y :: l)) with (x ++ str ", " ++ join (str ", ") (y :: l)). rewrite <- IH.
  cbn [mbind list_bind]. by rewrite !app_assoc.
Qed.

Lemma portable_no_quote e : is_portable_default e = negb (bool_decide (34 ∈ e)).
Proof. done. Qed.

Lemma keep_destination c : keep_default c = destination_column c.
Proof.
  destruct c as [name ty null co [e |]]; unfold keep_default, destination_column; cbn [default_expr]; [| done].
  unfold is_portable_default. destruct (decide (34 ∈ e)); [rewrite bool_decide_eq_true_2 | rewrite bool_decide_eq_false_2]; done.
Qed.

Lemma keep_destinations (cols : list ColumnDefinition) : keep_default <$> cols = destination_column <$> cols.
Proof. apply list_fmap_ext. intros i c _. apply keep_destination. Qed.

Lemma lost_default_line p c : lost_default (place_text p) c = default_line p c.
Proof.
  unfold lost_default, default_line. destruct (default_expr c) as [e |]; [| done]. unfold is_portable_default.
  destruct (decide (34 ∈ e)); [rewrite bool_decide_eq_true_2 | rewrite bool_decide_eq_false_2]; done.
Qed.

(** The constraints of the catalog, split into the keys and the rest. *)
Definition unassumed (ps : list PendingConstraint) : list PendingConstraint := filter (fun c => assumed_key c = None) ps.

Lemma reflected_split ps : reflect_constraints ps
  = mk_reflected (omap assumed_key ps) ((fun c => (constraint_kind (contype c), con_columns c)) <$> unassumed ps).
Proof.
  unfold reflect_constraints, unassumed.
  assert (H : forall out, foldl push_constraint out ps = mk_reflected (supported out ++ omap assumed_key ps)
    (unreproducible out ++ ((fun c => (constraint_kind (contype c), con_columns c)) <$> filter (fun c => assumed_key c = None) ps))).
  { induction ps as [| c ps IH]; intros out; [cbn; rewrite !app_nil_r; by destruct out |]. cbn [foldl omap list_omap]. rewrite IH.
    assert (Hc : push_constraint out c = match assumed_key c with
                 | Some key => mk_reflected (supported out ++ [key]) (unreproducible out)
                 | None => mk_reflected (supported out) (unreproducible out ++ [(constraint_kind (contype c), con_columns c)])
                 end).
    { unfold push_constraint, assumed_key. destruct (validated c); rewrite ?andb_false_r, ?andb_true_r; [done |].
      case_bool_decide; [by rewrite decide_True | rewrite decide_False by done]. case_bool_decide; [by rewrite decide_True | by rewrite decide_False]. }
    rewrite Hc. destruct (assumed_key c) as [key |] eqn:Ha; cbn [supported unreproducible].
    - rewrite list.filter_cons_False by congruence. by rewrite <- app_assoc.
    - rewrite list.filter_cons_True by done. cbn [fmap list_fmap]. by rewrite <- app_assoc. }
  apply H.
Qed.

Lemma lost_lines p (ps : list PendingConstraint) : lost_constraint (place_text p) <$> ((fun c => (constraint_kind (contype c), con_columns c)) <$> ps) = constraint_line p <$> ps.
Proof. rewrite <- list_fmap_compose. apply list_fmap_ext. intros i c _. unfold compose, lost_constraint, constraint_line. by rewrite commas_join. Qed.

Lemma report_of_reported source p def ps n :
  origin_of source = place_text p ->
  reported p (columns def) (constraints def) (unassumed ps) n (with_rows n (report_of source def (unreproducible (reflect_constraints ps)))).
Proof.
  intros Ho. rewrite reflected_split. cbn [unreproducible]. unfold report_of, reported, counted. rewrite Ho, lost_lines.
  set (r0 := mk_report 0 0 0 0 0 0 (constraint_line p <$> unassumed ps)). set (step := report_column (place_text p)).
  cbn [with_rows rows_copied not_null_columns default_columns collated_columns assumed_primary_keys assumed_unique_constraints unpreserved].
  split; [done |]. repeat split.
  - rewrite fold_same by (intros ? []; done). rewrite (fold_counted step not_null_columns (fun c => negb (nullable c))); [done | | cbn; lia].
    intros r c. cbn. by destruct (nullable c).
  - rewrite fold_same by (intros ? []; done).
    rewrite (fold_counted step default_columns (fun c => has (default_expr (destination_column c)))); [done | | cbn; lia].
    intros r c. cbn. destruct (default_expr c) as [e |]; [| done]. unfold is_portable_default.
    destruct (decide (34 ∈ e)); [rewrite bool_decide_eq_true_2 | rewrite bool_decide_eq_false_2]; done.
  - rewrite fold_same by (intros ? []; done). rewrite (fold_counted step collated_columns (fun c => has (collation c))); [done | | cbn; lia].
    intros r c. cbn. by destruct (collation c).
  - rewrite (fold_counted report_constraint assumed_primary_keys is_primary); [| by intros ? [] | ]; rewrite fold_same; done || (cbn; lia).
  - rewrite (fold_counted report_constraint assumed_unique_constraints (fun c => negb (is_primary c))); [| by intros ? [] | ];
      rewrite fold_same; done || (cbn; lia).
  - rewrite (fold_same report_constraint) by (intros ? []; done). unfold step. rewrite fold_lost. cbn [unpreserved r0]. f_equal.
    induction (columns def) as [| c cols IH]; [done |]. cbn [omap list_omap]. by rewrite lost_default_line, IH.
Qed.

(** A copy loses nothing exactly if its report lists nothing. *)
Lemma lost_nothing p (cols : list ColumnDefinition) : omap (default_line p) cols = [] <-> destination_column <$> cols = cols.
Proof.
  induction cols as [| c cols IH]; [done |]. cbn [omap list_omap fmap list_fmap].
  assert (Hc : default_line p c = None <-> destination_column c = c).
  { unfold default_line, destination_column. destruct c as [name ty null co [e |]]; cbn; [| done]. by destruct (decide (34 ∈ e)). }
  destruct (default_line p c) as [l |].
  - split; [done |]. intros [= Hd _]. by apply Hc in Hd.
  - rewrite IH, (proj1 Hc eq_refl). split; [by intros -> | by intros [= ?]].
Qed.

Lemma nil_fmap {A B} (f : A -> B) (l : list A) : f <$> l = [] <-> l = [].
Proof. by destruct l. Qed.

(** ** Names and texts *)

(** A name of one, two or three parts, as the constructors make it. *)
Definition named_by (parts : list (list Z)) : result TableName.t (list Z) :=
  match parts with
  | [t] => TableName.try_new t
  | [s; t] => let? x := TableName.try_new t in TableName.with_schema x s
  | [d; s; t] => let? x := TableName.try_new t in let? x := TableName.with_schema x s in TableName.with_database x d
  | _ => Err (str "too many parts")
  end.

Lemma try_new_name name n : Name.try_new name = Ok n -> n = Name.mk (quoted 34 name) name.
Proof. unfold Name.try_new, escape_name. destruct name as [| c s]; [done |]. destruct (_ <? _)%nat; [done |]. by intros [= <-]. Qed.

(** What is read from a name is its place, and what it is printed as its parts. *)
Record reads_as (n : TableName.t) (parts : list (list Z)) (p : Place) : Prop := {
  read_database : Name.unescaped <$> TableName.database n = p.1.1;
  read_schema : schema_or_public n = p.1.2;
  read_table : Name.unescaped (TableName.table n) = p.2;
  read_display : TableName.display n = dotted parts;
  read_qualified : forall cols pers keys,
    qualified_name (mk_table (Name.unescaped (TableName.table n)) (Name.unescaped <$> TableName.schema n)
                      (Name.unescaped <$> TableName.database n) cols pers keys) = dotted parts;
  read_catalog : catalog_prefix n = pg_catalog p;
}.

Lemma named_reads parts n p : named_by parts = Ok n -> place_of parts = Some p -> reads_as n parts p.
Proof.
  assert (Hone : forall t x, TableName.try_new t = Ok x -> x = TableName.mk None None (Name.mk (quoted 34 t) t)).
  { intros t x. unfold TableName.try_new. destruct (Name.try_new t) as [m |] eqn:Hm; [| done]. apply try_new_name in Hm as ->. by intros [= <-]. }
  assert (Htwo : forall x s y, TableName.with_schema x s = Ok y -> y = TableName.mk (TableName.database x) (Some (Name.mk (quoted 34 s) s)) (TableName.table x)).
  { intros x s y. unfold TableName.with_schema. destruct (Name.try_new s) as [m |] eqn:Hm; [| done]. apply try_new_name in Hm as ->. by intros [= <-]. }
  assert (Hthree : forall x d y, TableName.with_database x d = Ok y -> y = TableName.mk (Some (Name.mk (quoted 34 d) d)) (TableName.schema x) (TableName.table x)).
  { intros x d y. unfold TableName.with_database, DatabaseName.try_new. destruct (Name.try_new d) as [m |] eqn:Hm; [| done].
    apply try_new_name in Hm as ->. by intros [= <-]. }
  destruct parts as [| a [| b [| c [| ]]]]; try done; cbn [named_by place_of].
  - intros ->%Hone [= <-]. split; try done; cbn; by rewrite ?app_nil_r.
  - destruct (TableName.try_new b) as [x |] eqn:Hx; [| done]. apply Hone in Hx as ->. cbn [result_bind]. intros ->%Htwo [= <-].
    split; try done; cbn; intros; by rewrite ?app_nil_r, <- ?app_assoc.
  - destruct (TableName.try_new c) as [x |] eqn:Hx; [| done]. apply Hone in Hx as ->. cbn [result_bind].
    destruct (TableName.with_schema _ b) as [y |] eqn:Hy; [| done]. apply Htwo in Hy as ->. cbn [result_bind]. intros ->%Hthree [= <-].
    split; try done; cbn; intros; rewrite ?app_nil_r; rewrite <- ?app_assoc; by repeat (cbn [app]; rewrite <- ?app_assoc).
Qed.

Lemma columns_sql_text i cols : columns_sql (S i) cols = (cols ≫= fun c => str ", " ++ column_text c).
Proof. revert i. induction cols as [| c cols IH]; intros i; [done |]. cbn [columns_sql mbind list_bind]. by rewrite IH, <- app_assoc. Qed.

Lemma key_sql_text key : constraint_sql key = key_text key.
Proof. unfold constraint_sql, key_text. destruct key as [cols | cols]; cbn [constraint_columns]; by rewrite commas_join. Qed.

Lemma create_sql_text n parts p cols keys : reads_as n parts p -> cols <> [] ->
  to_create_sql (mk_table (Name.unescaped (TableName.table n)) (Name.unescaped <$> TableName.schema n)
                   (Name.unescaped <$> TableName.database n) cols Permanent keys) true = Ok (create_text parts cols keys).
Proof.
  intros Hn Hne. unfold to_create_sql. cbn [columns persistence constraints]. rewrite (read_qualified _ _ _ Hn).
  destruct cols as [| c cols]; [done |]. unfold create_text. do 4 f_equal. cbn [columns_sql Nat.ltb Nat.leb app fmap list_fmap commas].
  rewrite columns_sql_text. rewrite bind_app.
  assert (Hcols : (cols ≫= fun c => str ", " ++ column_text c) = ((column_text <$> cols) ≫= fun x => str ", " ++ x)).
  { clear. induction cols as [| c cols IH]; [done |]. cbn [fmap list_fmap mbind list_bind]. by rewrite IH. }
  assert (Hkeys : concat ((fun c => str ", " ++ constraint_sql c) <$> keys) = ((key_text <$> keys) ≫= fun x => str ", " ++ x)).
  { clear. induction keys as [| c keys IH]; [done |]. cbn [fmap list_fmap concat mbind list_bind]. by rewrite IH, key_sql_text. }
  rewrite Hcols, Hkeys. change (column_sql c) with (column_text c). by rewrite <- !app_assoc.
Qed.

Lemma copy_rows_text source destination from into p q cols :
  reads_as source from p -> reads_as destination into q ->
  copy_rows_sql source destination cols = insert_text into (col_name <$> cols) from.
Proof.
  intros Hs Hd. unfold copy_rows_sql, insert_text. rewrite (read_display _ _ _ Hs), (read_display _ _ _ Hd), commas_join.
  by rewrite list_fmap_compose.
Qed.

Lemma queries_text n parts p : reads_as n parts p -> columns_query n = columns_text p /\ constraints_sql n = constraints_text p.
Proof.
  intros Hn. unfold columns_query, constraints_sql, columns_text, constraints_text, literal.
  by rewrite (read_catalog _ _ _ Hn), (read_schema _ _ _ Hn), (read_table _ _ _ Hn).
Qed.

(** ** Copies against the contract *)

Section copies.
Context {K R : Type} `{!CatalogClient K} `{!CopyServer K R} (source : TableName.t) (from : list (list Z)) (p : Place).
Context (Hsource : reads_as source from p).

Definition source_stored (k : K) : Prop := forall st, tables k !! p = Some st -> well_stored st.

Lemma query_rows_runs sql (k : K) :
  exists r k', query_rows sql k = Val (r, k') /\ tables k' = tables k
    /\ forall rows, r = Ok rows -> exists rs, execute_query sql k = Val (Ok rs, k') /\ all_rows rs = Ok rows.
Proof.
  destruct (query_returns sql k) as (r & k' & Hr). pose proof (query_keeps _ _ _ _ Hr) as Hk. unfold query_rows, op_bind. rewrite Hr. cbn [outcome_bind].
  destruct r as [rs | err]; [| by exists (Err err), k']. destruct (all_rows rs) as [rows | err] eqn:Ha; cbn [lifted];
    eexists _, k'; (split; [reflexivity |]); (split; [done |]); intros rows' [= <-]. eauto.
Qed.

Lemma constraints_run (k : K) :
  source_stored k -> exists r k', get_table_constraints source k = Val (r, k') /\ tables k' = tables k
    /\ forall out, r = Ok out -> out = default (mk_reflected [] []) ((fun st => reflect_constraints (st_constraints st)) <$> tables k !! p).
Proof.
  intros Hsrc. unfold get_table_constraints. rewrite (proj2 (queries_text _ _ _ Hsource)).
  destruct (query_rows_runs (constraints_text p) k) as (r & k' & Hr & Hk & Hrows). unfold op_bind. rewrite Hr. cbn [outcome_bind].
  destruct r as [rows | err]; [| by exists (Err err), k']. eexists _, k'. split; [reflexivity |]. split; [done |]. intros out [= <-].
  destruct (Hrows rows eq_refl) as (rs & Hrs & Ha). rewrite (constraints_law p k rs rows k') by done.
  destruct (tables k !! p) as [st |] eqn:Hst; [| done]. cbn. by apply group_rows_of, Hsrc.
Qed.

(** What [get_table_definition] reads. *)
Definition definition_of (st : Stored R) : TableDefinition :=
  mk_table p.2 (Some p.1.2) p.1.1 (st_columns st) Permanent (supported (reflect_constraints (st_constraints st))).

Lemma definition_runs (k : K) :
  source_stored k -> exists r k', get_table_definition (Ok source) k = Val (r, k') /\ tables k' = tables k
    /\ match tables k !! p with
       | None => is_ok r = false
       | Some st => forall def, r = Ok def -> def = definition_of st
       end.
Proof.
  intros Hsrc. unfold get_table_definition. cbn [named]. unfold op_bind at 1. cbn [op_ret outcome_bind].
  rewrite (proj1 (queries_text _ _ _ Hsource)).
  destruct (query_rows_runs (columns_text p) k) as (r & k1 & Hr & Hk & Hrows). unfold op_bind at 1. rewrite Hr. cbn [outcome_bind].
  destruct r as [rows | err].
  2: { exists (Err err), k1. split; [done |]. split; [done |]. by destruct (tables k !! p). }
  destruct (Hrows rows eq_refl) as (rs & Hrs & Ha). pose proof (columns_law p k rs rows k1 Hrs Ha) as Hlaw.
  destruct (tables k !! p) as [st |] eqn:Hst; cbn [default from_option fmap option_fmap option_map id] in Hlaw; subst rows.
  - destruct (Hsrc st Hst) as (Hne & Hcols & _). unfold op_bind at 1. rewrite columns_read by done. cbn [outcome_bind].
    destruct (constraints_run k1 ltac:(intros s' Hs'; apply Hsrc; congruence)) as (r & k2 & Hr2 & Hk2 & Hout). destruct (st_columns st) as [| c cols] eqn:Hc; [done |].
    unfold op_bind. rewrite Hr2. cbn [outcome_bind]. destruct r as [out | err]; [| exists (Err err), k2; split; [done | split; [congruence | done]]].
    eexists _, k2. split; [reflexivity |]. split; [congruence |]. intros def [= <-]. unfold definition_of. rewrite Hc.
    rewrite (read_table _ _ _ Hsource), (read_schema _ _ _ Hsource), (read_database _ _ _ Hsource). f_equal.
    specialize (Hout out eq_refl). rewrite Hk, Hst in Hout. by subst out.
  - unfold op_bind. cbn. eexists _, k1. split; [reflexivity |]. done.
Qed.
End copies.

(** C15. [copy_table] reproduces a table or says what it did not. Against a server that
    keeps the contract of the statements of a copy, and for names of one, two or three
    parts, a successful copy has made the table the destination names (in its own schema
    and database, or the default ones, never those of the source), which did not exist:
    its columns are those of the source, in their order, with their types, nullability and
    collations, its defaults those that do not name a database, its keys those of the
    source, its rows the rows of the source. The report says how many rows those are,
    counts what was carried over and lists each default and each constraint that was not;
    it is empty exactly if nothing was lost. A copy that fails has changed nothing, or has
    left the destination behind, empty or full; a source that is not there is an error. *)
Theorem copy_table_faithful {K R} `{!CatalogClient K} `{!CopyServer K R} from into source destination p q (k : K) :
  named_by from = Ok source -> named_by into = Ok destination -> place_of from = Some p -> place_of into = Some q ->
  (forall st, tables k !! p = Some st -> well_stored st
     /\ readable (K := K) (destination_column <$> st_columns st) (omap assumed_key (st_constraints st))) ->
  exists r k', copy_table (Ok source) (Ok destination) k = Val (r, k') /\
  match tables k !! p with
  | None => is_ok r = false /\ tables k' = tables k
  | Some st =>
      let cols := destination_column <$> st_columns st in
      let keys := omap assumed_key (st_constraints st) in
      let lost := unassumed (st_constraints st) in
      let copied := fun ps rows => <[q := mk_stored cols ps rows]> (tables k) in
      match r with
      | Ok report =>
          tables k !! q = None
          /\ (exists ps, tables k' = copied ps (appended no_rows (st_rows st)) /\ assumed_key <$> ps ≡ₚ Some <$> keys)
          /\ reported p (st_columns st) keys lost (row_total (K := K) (st_rows st)) report
          /\ (is_fully_preserved report = true <-> cols = st_columns st /\ lost = [])
      | Err _ =>
          tables k' = tables k
          \/ (tables k !! q = None
              /\ exists ps rows, tables k' = copied ps rows /\ (rows = no_rows \/ rows = appended no_rows (st_rows st)))
      end
  end.
Proof.
  intros Hfrom Hinto Hp Hq Hst0. pose proof (named_reads _ _ _ Hfrom Hp) as Hs. pose proof (named_reads _ _ _ Hinto Hq) as Hd.
  assert (Hsrc : source_stored p k) by (intros st Hst; by apply Hst0).
  unfold copy_table. cbn [named]. unfold op_bind at 1 2. cbn [op_ret outcome_bind].
  destruct (definition_runs source from p Hs k Hsrc) as (r & k1 & Hr & Hk1 & Hdef). unfold op_bind at 1. rewrite Hr. cbn [outcome_bind].
  destruct r as [def | err].
  2: { exists (Err err), k1. split; [done |]. destruct (tables k !! p); [by left | done]. }
  destruct (tables k !! p) as [st |] eqn:Hst; [| done]. specialize (Hdef def eq_refl). subst def.
  destruct (Hst0 st eq_refl) as [Hwell Hread].
  destruct (constraints_run source from p Hs k1 ltac:(intros s' Hs'; apply Hsrc; congruence)) as (r & k2 & Hr2 & Hk2 & Hout).
  unfold op_bind at 1. rewrite Hr2. cbn [outcome_bind].
  destruct r as [out | err]; [| exists (Err err), k2; split; [done | left; congruence]].
  specialize (Hout out eq_refl). rewrite Hk1, Hst in Hout. cbn in Hout. subst out.
  assert (Htarget : retarget (definition_of p st) destination
            = mk_table (Name.unescaped (TableName.table destination)) (Name.unescaped <$> TableName.schema destination)
                (Name.unescaped <$> TableName.database destination) (destination_column <$> st_columns st) Permanent (omap assumed_key (st_constraints st))).
  { unfold retarget, definition_of. cbn [columns persistence constraints]. by rewrite keep_destinations, reflected_split. }
  rewrite Htarget. clear Htarget. unfold create_table, created.
  rewrite (create_sql_text _ _ _ _ _ Hd) by (destruct Hwell as [Hne _]; by destruct (st_columns st)). unfold unit_command.
  destruct (run_returns (create_text into (destination_column <$> st_columns st) (omap assumed_key (st_constraints st))) k2) as (r & k3 & Hr3).
  unfold op_bind at 1 2. rewrite Hr3. cbn [outcome_bind].
  pose proof (create_law into q _ _ k2 r k3 Hq Hread Hr3) as Hlaw. cbv zeta in Hlaw. rewrite Hk2, Hk1 in Hlaw.
  destruct r as [n | err]; cbn [is_ok] in Hlaw; cbn [op_ret].
  2: { exists (Err err), k3. split; [done |]. destruct Hlaw as [H | (Hnone & ps & Ht & _)]; [by left |]. right. split; [done |].
       exists ps, no_rows. auto. }
  destruct Hlaw as (Hnone & ps & Ht & Hps). cbn [outcome_bind].
  assert (Hne : p <> q) by congruence.
  assert (Hs3 : tables k3 !! p = Some st) by (rewrite Ht, lookup_insert_ne; congruence).
  assert (Hd3 : tables k3 !! q = Some (mk_stored (destination_column <$> st_columns st) ps no_rows)) by (by rewrite Ht, lookup_insert_eq).
  cbn [columns]. rewrite (copy_rows_text source destination from into p q _ Hs Hd).
  assert (Hnames : col_name <$> (destination_column <$> st_columns st) = col_name <$> st_columns st) by (by rewrite <- list_fmap_compose).
  rewrite Hnames. destruct (run_returns (insert_text into (col_name <$> st_columns st) from) k3) as (r & k4 & Hr4).
  unfold op_bind, op_ret. cbn [outcome_bind]. rewrite Hr4. cbn [outcome_bind].
  pose proof (insert_law into from q p _ st _ k3 r k4 Hq Hp Hs3 Hd3 eq_refl Hnames Hr4) as Hlaw. cbn [st_columns st_constraints st_rows] in Hlaw. cbv zeta in Hlaw.
  rewrite Ht, insert_insert_eq in Hlaw. destruct r as [m | err].
  2: { exists (Err err), k4. split; [done |]. right. split; [done |]. destruct Hlaw as [H | H]; eexists ps, _; (split; [exact H | auto]). }
  destruct Hlaw as [-> Hlaw]. eexists _, k4. split; [reflexivity |]. split; [done |]. split; [by exists ps |].
  pose proof (report_of_reported source p (definition_of p st) (st_constraints st) (row_total (K := K) (st_rows st))) as Hrep.
  specialize (Hrep ltac:(unfold origin_of, place_text; by rewrite (read_schema _ _ _ Hs), (read_table _ _ _ Hs))).
  cbn [columns constraints definition_of] in Hrep. rewrite (reflected_split (st_constraints st)) in Hrep at 1. cbn [supported] in Hrep.
  split; [exact Hrep |]. destruct Hrep as (_ & _ & _ & _ & _ & _ & Hun). unfold is_fully_preserved. rewrite bool_decide_eq_true, Hun.
  rewrite app_nil, (lost_nothing p), (nil_fmap (constraint_line p)). tauto.
Qed.

(** ** Texts are read back in one way *)

Lemma doubled_inj c s s' r r' : head r <> Some c -> head r' <> Some c ->
  double_quotes c s ++ c :: r = double_quotes c s' ++ c :: r' -> s = s' /\ r = r'.
Proof.
  intros Hr Hr'. revert s'. induction s as [| a s IH]; intros [| b s']; cbn [double_quotes app].
  - by intros [= ->].
  - destruct (Z.eqb_spec b c) as [-> | Hb]; cbn [app]; intros H; [injection H as ->; by destruct Hr | injection H; congruence].
  - destruct (Z.eqb_spec a c) as [-> | Ha]; cbn [app]; intros H; [injection H as <-; by destruct Hr' | injection H; congruence].
  - destruct (Z.eqb_spec a c) as [-> | Ha], (Z.eqb_spec b c) as [-> | Hb]; cbn [app]; intros H; try (injection H; congruence).
    + injection H as H. by apply IH in H as [-> ->].
    + injection H as -> H. by apply IH in H as [-> ->].
Qed.

Lemma quoted_inj c s s' r r' : head r <> Some c -> head r' <> Some c -> quoted c s ++ r = quoted c s' ++ r' -> s = s' /\ r = r'.
Proof.
  intros Hr Hr'. unfold quoted. cbn [app]. rewrite <- !app_assoc. intros [= H]. by apply doubled_inj in H.
Qed.

(** Quoted items after a mark each, and what follows. *)
Lemma marked_inj m (l l' : list (list Z)) r r' d : head m = Some d -> d <> 34 -> head r <> Some 34 -> head r <> Some d -> head r' <> Some 34 -> head r' <> Some d ->
  (l ≫= fun x => m ++ quoted 34 x) ++ r = (l' ≫= fun x => m ++ quoted 34 x) ++ r' -> l = l' /\ r = r'.
Proof.
  intros Hm Hd Hr Hrd Hr' Hrd'. destruct m as [| d' m]; [done |]. injection Hm as ->.
  revert l'. induction l as [| x l IH]; intros [| y l']; cbn [mbind list_bind app]; rewrite <- ?app_assoc.
  - done.
  - intros ->. by destruct Hrd.
  - intros <-. by destruct Hrd'.
  - intros [= H]. apply app_inv_head in H. apply quoted_inj in H as [-> H].
    + apply IH in H as [-> ->]. done.
    + destruct l; cbn; [done | congruence].
    + destruct l'; cbn; [done | congruence].
Qed.

Lemma dotted_inj l l' r r' : l <> [] -> l' <> [] -> head r <> Some 34 -> head r <> Some 46 -> head r' <> Some 34 -> head r' <> Some 46 ->
  dotted l ++ r = dotted l' ++ r' -> l = l' /\ r = r'.
Proof.
  destruct l as [| x l], l' as [| y l']; try done. intros _ _ Hr Hrd Hr' Hrd'. cbn [dotted]. rewrite <- !app_assoc. intros H.
  apply quoted_inj in H as [-> H]; [| destruct l; cbn [mbind list_bind app]; done | destruct l'; cbn [mbind list_bind app]; done].
  apply (marked_inj [46] l l' r r' 46) in H as [-> ->]; done.
Qed.

Lemma commas_inj l l' r r' : head r <> Some 34 -> head r <> Some 44 -> head r' <> Some 34 -> head r' <> Some 44 ->
  commas (quoted 34 <$> l) ++ r = commas (quoted 34 <$> l') ++ r' -> l = l' /\ r = r'.
Proof.
  intros Hr Hrd Hr' Hrd'.
  assert (Hb : forall l : list (list Z), (quoted 34 <$> l) ≫= (fun x => str ", " ++ x) = l ≫= fun x => str ", " ++ quoted 34 x).
  { clear. induction l as [| x l IH]; [done |]. cbn [fmap list_fmap mbind list_bind]. by rewrite IH. }
  destruct l as [| x l], l' as [| y l']; cbn [fmap list_fmap commas]; [done | | |].
  - cbn [app]. intros ->. by destruct Hr.
  - cbn [app]. intros <-. by destruct Hr'.
  - unfold fmap in Hb. rewrite !Hb, <- !app_assoc. intros H.
    apply quoted_inj in H as [-> H]; [| destruct l; cbn [mbind list_bind app]; done | destruct l'; cbn [mbind list_bind app]; done].
    apply (marked_inj (str ", ") l l' r r' 44) in H as [-> ->]; done.
Qed.

Lemma place_nonempty parts p : place_of parts = Some p -> parts <> [].
Proof. by intros H ->. Qed.

Lemma create_text_inj parts parts' cols keys : parts <> [] -> parts' <> [] -> create_text parts cols keys = create_text parts' cols keys -> parts = parts'.
Proof. intros H H'. unfold create_text. intros Heq%app_inv_head. by apply dotted_inj in Heq as [-> _]. Qed.

Lemma insert_text_inj into into' cols cols' from from' : into <> [] -> into' <> [] -> from <> [] -> from' <> [] ->
  insert_text into cols from = insert_text into' cols' from' -> into = into' /\ cols = cols' /\ from = from'.
Proof.
  intros H1 H2 H3 H4. unfold insert_text. cbv zeta. intros H%app_inv_head. apply dotted_inj in H as [-> H]; try done. apply app_inv_head in H.
  apply commas_inj in H as [-> H]; try done. apply app_inv_head in H. apply app_inv_head in H. apply app_inv_head in H.
  rewrite <- (app_nil_r (dotted from)), <- (app_nil_r (dotted from')) in H. by apply dotted_inj in H as [-> _].
Qed.

(** The catalog of a place and what follows it. *)
Lemma pg_catalog_inj (p p' : Place) r r' : pg_catalog p ++ r = pg_catalog p' ++ r' -> p.1.1 = p'.1.1 /\ r = r'.
Proof.
  unfold pg_catalog. destruct (p.1.1) as [d |], (p'.1.1) as [d' |]; cbn [app]; rewrite <- ?app_assoc; try done.
  - intros H. apply quoted_inj in H as [-> H]; [| done | done]. by injection H as ->.
  - intros H%app_inv_head. done.
Qed.

Ltac place_texts :=
  repeat match goal with
  | H : str _ ++ _ = str _ ++ _ |- _ => apply app_inv_head in H
  | H : pg_catalog _ ++ _ = pg_catalog _ ++ _ |- _ => apply pg_catalog_inj in H as [? H]
  | H : quoted 39 _ ++ _ = quoted 39 _ ++ _ |- _ => apply quoted_inj in H as [? H]; [| done | done]
  end.

Lemma columns_text_inj p p' : columns_text p = columns_text p' -> p = p'.
Proof. destruct p as [[d s] t], p' as [[d' s'] t']. unfold columns_text. intros H. place_texts. cbn [fst snd] in *. congruence. Qed.

Lemma constraints_text_inj p p' : constraints_text p = constraints_text p' -> p = p'.
Proof. destruct p as [[d s] t], p' as [[d' s'] t']. unfold constraints_text. intros H. place_texts. cbn [fst snd] in *. congruence. Qed.

Lemma queries_differ p p' : constraints_text p <> columns_text p'.
Proof. intros H. apply (f_equal (take 8)) in H. vm_compute in H. discriminate H. Qed.

Lemma statements_differ parts cols keys into names from : create_text parts cols keys <> insert_text into names from.
Proof. done. Qed.

(** ** A server in memory *)

#[local] Abbreviation Shelf := (gmap Place (Stored (list (list Z)))).

(** The constraints it stores for the keys of a definition. *)
Definition restated (keys : list TableConstraint) : list PendingConstraint :=
  imap (fun i c => mk_pending (if is_primary c then str "p" else str "u") (fmt_u (Z.of_nat i)) false (constraint_columns c)) keys.

Lemma restated_keys keys : assumed_key <$> restated keys = Some <$> keys.
Proof.
  unfold restated. generalize 0%nat as n. intros n.
  assert (H : forall f : nat -> list Z, assumed_key <$> imap (fun i c => mk_pending (if is_primary c then str "p" else str "u") (f i) false (constraint_columns c)) keys
    = Some <$> keys); [| apply H].
  clear. induction keys as [| c keys IH]; intros f; [done |]. rewrite imap_cons. cbn [fmap list_fmap]. unfold compose. f_equal; [by destruct c |]. apply (IH (fun i => f (S i))).
Qed.

(** It reads one definition, that of the copy it is made for. *)
Section shelf.
Context (from into : list (list Z)) (p q : Place) (Hp : place_of from = Some p) (Hq : place_of into = Some q).
Context (cols : list ColumnDefinition) (keys : list TableConstraint).

Definition refused : Api.Error := Server None (str "refused") None None.

Definition shelf_run (sql : list Z) (k : Shelf) : result Z Api.Error * Shelf :=
  if bool_decide (sql = create_text into cols keys) then
    match k !! q with
    | None => (Ok 0, <[q := mk_stored cols (restated keys) []]> k)
    | Some _ => (Err refused, k)
    end
  else if bool_decide (sql = insert_text into (col_name <$> cols) from) then
    match k !! p, k !! q with
    | Some st, Some st' =>
        (Ok (Z.of_nat (length (st_rows st))), <[q := mk_stored (st_columns st') (st_constraints st') (st_rows st' ++ st_rows st)]> k)
    | _, _ => (Err refused, k)
    end
  else (Err refused, k).

(** The table a query asks for. *)
Definition asked (text : Place -> list Z) (sql : list Z) (k : Shelf) : option (Stored (list (list Z))) :=
  snd <$> find (fun e => bool_decide (text e.1 = sql)) (map_to_list k).

Definition shelf_query (sql : list Z) (k : Shelf) : Rowset :=
  match asked columns_text sql k, asked constraints_text sql k with
  | Some st, _ => [Ok (column_row <$> st_columns st)]
  | None, Some st => [Ok (st_constraints st ≫= constraint_rows)]
  | None, None => []
  end.

Definition shelf_client : SqlClient Shelf := {| run := fun sql k => Val (shelf_run sql k); close_client := fun k => Val (Ok tt, k) |}.
Definition shelf_connection : CatalogClient Shelf :=
  {| catalog_client := shelf_client; execute_query := fun sql k => Val (Ok (shelf_query sql k), k) |}.

Lemma asked_place (text : Place -> list Z) (p' : Place) (k : Shelf) : (forall x y, text x = text y -> x = y) -> asked text (text p') k = k !! p'.
Proof.
  intros Hinj. unfold asked. destruct (find _ _) as [[x st] |] eqn:Hf; cbn.
  - apply List.find_some in Hf as [Hin Hx%bool_decide_eq_true]. cbn in Hx. apply Hinj in Hx as ->.
    apply list_elem_of_In, elem_of_map_to_list in Hin. done.
  - destruct (k !! p') as [st |] eqn:Hst; [| done]. apply elem_of_map_to_list, list_elem_of_In in Hst.
    apply (List.find_none _ _ Hf) in Hst. cbn in Hst. by rewrite bool_decide_eq_true_2 in Hst.
Qed.

Lemma asked_other (text : Place -> list Z) (sql : list Z) (k : Shelf) : (forall x, text x <> sql) -> asked text sql k = None.
Proof.
  intros Hno. unfold asked. destruct (find _ _) as [[x st] |] eqn:Hf; [| done].
  apply List.find_some in Hf as [_ Hx%bool_decide_eq_true]. by destruct (Hno x).
Qed.

Definition shelf_server : @CopyServer Shelf (list (list Z)) shelf_connection.
Proof.
  refine {| tables := (fun k : Shelf => k) : @Shelf -> _; no_rows := []; appended := app; row_total rows := Z.of_nat (length rows);
            readable c ks := c = cols /\ ks = keys |}.
  - intros sql k. cbn. destruct (shelf_run sql k) as [r k']. eauto.
  - intros sql k. cbn. eauto.
  - intros sql k r k' [= <- <-]. done.
  - intros p' k rs rows k' [= <- <-]. unfold shelf_query. rewrite asked_place by apply columns_text_inj.
    rewrite (asked_other constraints_text) by (intros x; apply queries_differ).
    destruct (k !! p'); cbn [all_rows result_bind]; [rewrite app_nil_r |]; by intros [= <-].
  - intros p' k rs rows k' [= <- <-]. unfold shelf_query. rewrite (asked_other columns_text) by (intros x Hx; by apply (queries_differ p' x)).
    rewrite asked_place by apply constraints_text_inj.
    destruct (k !! p'); cbn [all_rows result_bind]; [rewrite app_nil_r |]; by intros [= <-].
  - intros parts q' c ks k r k' Hq' [-> ->] [= Hr]. unfold shelf_run in Hr. case_bool_decide as Hc.
    + apply create_text_inj in Hc as ->; [| by eapply place_nonempty | by eapply place_nonempty]. assert (q' = q) as -> by congruence.
      destruct (k !! q) eqn:Hkq; injection Hr as <- <-; cbn; [by left |]. split; [done |]. exists (restated keys). split; [done |]. by rewrite restated_keys.
    + rewrite bool_decide_eq_false_2 in Hr by apply statements_differ. injection Hr as <- <-. by left.
  - intros into' from' q' p' names st st' k r k' Hq' Hp' Hst Hst' Hn Hn' [= Hr]. unfold shelf_run in Hr.
    rewrite bool_decide_eq_false_2 in Hr by (intros Hx; by apply (statements_differ into cols keys into' names from')). case_bool_decide as Hc.
    + apply insert_text_inj in Hc as (-> & _ & ->); [| by eapply place_nonempty ..]. assert (q' = q) as -> by congruence. assert (p' = p) as -> by congruence.
      rewrite Hst, Hst' in Hr. by injection Hr as <- <-.
    + injection Hr as <- <-. by left.
Defined.
End shelf.

(** A table with a key, a decimal, a collation, a default of another database and a
    constraint that cannot be restated. *)
Definition orders : list (list Z) := [str "public"; str "orders"].
Definition backup_orders : list (list Z) := [str "backup"; str "public"; str "orders"].
Definition now_of_db : list Z := 34 :: str "db" ++ 34 :: str ".now()".
Definition sample_stored : Stored (list (list Z)) :=
  mk_stored
    [mk_column (str "id") (ASqlType Int) false None None;
     mk_column (str "price") (ASqlType (Numeric 12 2)) true None (Some (str "0"));
     mk_column (str "at") (ASqlType Timestamp) true None (Some now_of_db);
     mk_column (str "name") (ASqlType (Varchar (Some 20))) true (Some (str "en_US")) None]
    [mk_pending (str "p") [] false [str "id"]; mk_pending (str "u") (str "k") true [str "price"; str "at"]]
    [str "row 1"; str "row 2"].
Definition sample_place : Place := (None, str "public", str "orders").
Definition sample_target : Place := (Some (str "backup"), str "public", str "orders").
Definition sample_shelf : gmap Place (Stored (list (list Z))) := {[ sample_place := sample_stored ]}.

Definition sample_connection : CatalogClient (gmap Place (Stored (list (list Z)))) :=
  shelf_connection orders backup_orders sample_place sample_target (destination_column <$> st_columns sample_stored) [AssumedPrimaryKey [str "id"]].
Definition sample_server : @CopyServer _ (list (list Z)) sample_connection :=
  shelf_server orders backup_orders sample_place sample_target eq_refl eq_refl _ _.

Lemma sample_well_stored : well_stored sample_stored.
Proof.
  split; [done |]. split.
  - assert (Hvar : in_i 32 (20 + 4)) by (split; vm_compute; congruence).
    repeat (apply list.Forall_cons; split; [split; [done | eexists; split; [reflexivity |]] |]); [done | | done | done | done].
    split; split; vm_compute; congruence.
  - split; [repeat constructor; done |]. apply (bool_decide_unpack _). vm_compute. done.
Qed.

Definition plain_part (s : string) : Name.t := Name.mk (quoted 34 (str s)) (str s).
Definition orders_name : TableName.t := TableName.mk None (Some (plain_part "public")) (plain_part "orders").
Definition backup_name : TableName.t := TableName.mk (Some (plain_part "backup")) (Some (plain_part "public")) (plain_part "orders").

Lemma copy_table_faithful_witness :
  exists report k',
    @copy_table _ sample_connection (Ok orders_name) (Ok backup_name) sample_shelf = Val (Ok report, k')
    /\ is_fully_preserved report = false /\ length (unpreserved report) = 2%nat /\ k' !! sample_target <> None
    /\ reported sample_place (st_columns sample_stored) [AssumedPrimaryKey [str "id"]] [mk_pending (str "u") (str "k") true [str "price"; str "at"]] 2 report.
Proof.
  destruct (@copy_table_faithful _ _ sample_connection sample_server orders backup_orders orders_name backup_name sample_place sample_target sample_shelf)
    as (r & k' & Hrun & H); [vm_compute; reflexivity | vm_compute; reflexivity | reflexivity | reflexivity | |].
  - intros st Hst. vm_compute in Hst. injection Hst as <-. split; [exact sample_well_stored | split; reflexivity].
  - assert (Hc : match @copy_table _ sample_connection (Ok orders_name) (Ok backup_name) sample_shelf with
                 | Val (Ok report, k') => negb (is_fully_preserved report) && (length (unpreserved report) =? 2)%nat && has (k' !! sample_target)
                 | _ => false end = true) by (vm_compute; reflexivity).
    rewrite Hrun in Hc. destruct r as [report |]; [| discriminate Hc]. rewrite !andb_true_iff, negb_true_iff, Nat.eqb_eq in Hc.
    destruct Hc as [[H1 H2] H3]. exists report, k'. destruct H as (_ & _ & Hrep & _). split_and!; [exact Hrun | exact H1 | exact H2 | |].
    + intros Hn. rewrite Hn in H3. discriminate H3.
    + exact Hrep.
Defined.
