(* ===== verification/Inserter.v ===== *)
(** * The bulk inserter ([hyperdb-api/src/inserter.rs])

    [InsertChunk] encodes rows into a buffer, [Inserter] cuts the buffer into chunks
    and streams them over a COPY of its connection. The connection is an interface,
    [CopyWriter], with its contract [CopyWriterSpec]; [CopyInWriter] of
    [client.rs] over [RawConnection] implements it. The specification is a table
    of rows that grows by cells; the inserter refines it, whatever the chunks. *)

From stdpp Require Import strings.
From S2P Require Import Prelude Text HyperCopy HyperTypes SqlEscape Calendar Backend Frontend Connection Decimal TableDef.

(** ** Errors *)

(** The variants of [hyperdb_api::Error] the inserter makes, and those it gets
    [From] the client's. *)
Inductive ApiError : Type :=
| InvalidTableDefinition (message : list Z)
| ConversionError (message : list Z)
| FeatureNotSupportedError (message : list Z)
| Internal (message : list Z)
| FromClient (e : Connection.Error).

Definition too_many_columns : ApiError := InvalidTableDefinition (str "Too many columns in row").

Definition null_not_allowed : ApiError :=
  InvalidTableDefinition (str "Cannot add NULL to non-nullable column").

Definition value_too_long (n : nat) : ApiError :=
  ConversionError (str "Value length " ++ fmt_u (Z.of_nat n)
    ++ str " exceeds HyperBinary 4-byte length limit (" ++ fmt_u (2 ^ 32 - 1) ++ str ")").

Definition wrong_column_count (expected got : nat) : ApiError :=
  InvalidTableDefinition (str "Expected " ++ fmt_u (Z.of_nat expected) ++ str " columns, got "
    ++ fmt_u (Z.of_nat got)).

Definition incomplete_row : ApiError := InvalidTableDefinition (str "Incomplete row at execute time").

(** ** Limits *)

Definition CHUNK_SIZE_LIMIT : Z := 16 * 1024 * 1024.
Definition CHUNK_ROW_LIMIT : Z := 64000.

(** ** [InsertChunk] *)

Module InsertChunk.

Record t : Type := mk {
  buffer : list Z;
  header_written : bool;
  column_index : nat;
  column_count : nat;
  row_count : nat;
  column_nullable : list bool;
}.

(** A method's result and the chunk it leaves. *)
Definition Op : Type := t -> outcome (result unit ApiError * t).

(** The assertion is [debug_assert_eq!]. *)
Definition new (debug_assertions : bool) (column_count : nat) (column_nullable : list bool) : outcome t :=
  if debug_assertions && negb (column_count =? length column_nullable)%nat then Panic
  else Val (mk [] false 0 column_count 0 column_nullable).

Definition from_table_definition (debug_assertions : bool) (table_def : TableDefinition) : outcome t :=
  new debug_assertions (column_count_of table_def) (nullable <$> columns table_def).

Definition should_flush (c : t) : bool :=
  (CHUNK_ROW_LIMIT <=? Z.of_nat (row_count c)) || (CHUNK_SIZE_LIMIT <=? Z.of_nat (length (buffer c))).

Definition is_empty (c : t) : bool := (row_count c =? 0)%nat.

Definition take (c : t) : option (list Z) * t :=
  if (row_count c =? 0)%nat then (None, c)
  else (Some (buffer c),
        mk [] (header_written c) (column_index c) (column_count c) 0 (column_nullable c)).

Definition clear (c : t) : t := mk [] false 0 (column_count c) 0 (column_nullable c).

Definition ensure_header (c : t) : t :=
  if header_written c then c
  else mk (write_header (buffer c)) true (column_index c) (column_count c) (row_count c) (column_nullable c).

Definition current_column_nullable (c : t) : bool :=
  match column_nullable c !! column_index c with
  | Some b => b
  | None => true
  end.

(** [self.column_index += 1], with what was written. *)
Definition advance (buf : list Z) (c : t) : t :=
  mk buf (header_written c) (S (column_index c)) (column_count c) (row_count c) (column_nullable c).

Definition add_null : Op := fun c =>
  if (column_count c <=? column_index c)%nat then Val (Err too_many_columns, c)
  else if negb (current_column_nullable c) then Val (Err null_not_allowed, c)
  else
    let c := ensure_header c in
    Val (Ok tt, advance (HyperCopy.write_null (buffer c)) c).

(** The shape the other methods share: [write] for a nullable column, [write_nn]
    for a NOT NULL one. *)
Definition add_with (write write_nn : list Z -> outcome (list Z)) : Op := fun c =>
  if (column_count c <=? column_index c)%nat then Val (Err too_many_columns, c)
  else
    let c := ensure_header c in
    let! buf := (if current_column_nullable c then write (buffer c) else write_nn (buffer c)) in
    Val (Ok tt, advance buf c).

Definition add_bool (value : bool) : Op :=
  let int_value := if value then 1 else 0 in
  add_with (fun b => Val (write_i8 b int_value)) (fun b => Val (write_i8_not_null b int_value)).

Definition add_i16 (value : Z) : Op :=
  add_with (fun b => Val (write_i16 b value)) (fun b => Val (write_i16_not_null b value)).
Definition add_i32 (value : Z) : Op :=
  add_with (fun b => Val (write_i32 b value)) (fun b => Val (write_i32_not_null b value)).
Definition add_i64 (value : Z) : Op :=
  add_with (fun b => Val (write_i64 b value)) (fun b => Val (write_i64_not_null b value)).
Definition add_f32 (bits : Z) : Op :=
  add_with (fun b => Val (write_f32 b bits)) (fun b => Val (write_f32_not_null b bits)).
Definition add_f64 (bits : Z) : Op :=
  add_with (fun b => Val (write_f64 b bits)) (fun b => Val (write_f64_not_null b bits)).

Definition add_bytes (value : list Z) : Op := fun c =>
  if (column_count c <=? column_index c)%nat then Val (Err too_many_columns, c)
  else if 2 ^ 32 - 1 <? Z.of_nat (length value) then Val (Err (value_too_long (length value)), c)
  else
    let c := ensure_header c in
    let! buf := (if current_column_nullable c then write_varbinary (buffer c) value
                 else write_varbinary_not_null (buffer c) value) in
    Val (Ok tt, advance buf c).

Definition add_str (value : list Z) : Op := add_bytes value.

Definition add_data128 (value : list Z) : Op :=
  add_with (fun b => Val (write_data128 b value)) (fun b => Val (write_data128_not_null b value)).

Definition add_date (value : Date) : Op := add_i32 (to_julian_day value).
Definition add_time (value : Time) : Op := add_i64 (time_to_microseconds value).

(** [to_microseconds] is computed after the header is ensured. *)
Definition add_timestamp (overflow_checks : bool) (value : Timestamp) : Op :=
  add_with (fun b => let! micros := to_microseconds overflow_checks value in Val (write_i64 b micros))
           (fun b => let! micros := to_microseconds overflow_checks value in Val (write_i64_not_null b micros)).

Definition add_offset_timestamp (overflow_checks : bool) (value : OffsetTimestamp) : Op :=
  add_timestamp overflow_checks (timestamp value).

Definition add_interval (value : Interval) : Op := add_data128 (interval_encode value).

Definition add_geography (value : list Z) : Op := add_bytes value.

Definition end_row : Op := fun c =>
  if negb (column_index c =? column_count c)%nat
  then Val (Err (wrong_column_count (column_count c) (column_index c)), c)
  else Val (Ok tt, mk (buffer c) (header_written c) 0 (column_count c) (S (row_count c)) (column_nullable c)).

End InsertChunk.

(** ** The interface to the connection *)

(** [Client::copy_in] and the methods of [CopyInWriter]; [K] is the connection the
    writer holds. *)
Class CopyWriter (K : Type) := {
  copy_in : list Z -> list (list Z) -> K -> outcome (result unit Connection.Error * K);
  send : list Z -> K -> outcome (result unit Connection.Error * K);
  send_direct : list Z -> K -> outcome (result unit Connection.Error * K);
  flush_stream : K -> outcome (result unit Connection.Error * K);
  finish : K -> outcome (result Z Connection.Error * K);
  cancel : list Z -> K -> outcome (result unit Connection.Error * K);
  drop_writer : K -> outcome K;
}.

(** What a connection promises: from [ready k] a COPY opens, [opened k k' p] says
    that [k'] came from [k] with [p] the COPY data sent so far, and finishing closes
    it with that data and the server's count. *)
Class CopyWriterSpec (K : Type) `{CopyWriter K} (table : list Z) (cols : list (list Z)) := {
  ready : K -> Prop;
  opened : K -> K -> list Z -> Prop;
  closed : K -> K -> list Z -> Z -> Prop;
  copy_in_opened : forall k, ready k ->
    exists k', copy_in table cols k = Val (Ok tt, k') /\ opened k k' [];
  send_opened : forall k k1 p data, opened k k1 p -> Z.of_nat (length data) + 4 < 2 ^ 31 ->
    exists k2, send data k1 = Val (Ok tt, k2) /\ opened k k2 (p ++ data);
  send_direct_opened : forall k k1 p data, opened k k1 p -> Z.of_nat (length data) + 4 < 2 ^ 31 ->
    exists k2, send_direct data k1 = Val (Ok tt, k2) /\ opened k k2 (p ++ data);
  flush_opened : forall k k1 p, opened k k1 p ->
    exists k2, flush_stream k1 = Val (Ok tt, k2) /\ opened k k2 p;
  finish_closed : forall k k1 p, opened k k1 p ->
    exists k2 n, finish k1 = Val (Ok n, k2) /\ closed k k2 p n;
}.

(** ** [Inserter] *)

Section inserter.
Context {K : Type} `{CopyWriter K} (overflow_checks debug_assertions : bool).

(** [writer] tells whether a COPY is open on [connection]. *)
Record Inserter : Type := mk_inserter {
  connection : K;
  table_def : TableDefinition;
  chunk : InsertChunk.t;
  row_count : Z;
  chunk_count : Z;
  writer : bool;
}.

Definition Op : Type := Inserter -> outcome (result unit ApiError * Inserter).

(** [connection.tcp_client()] is [None] on a gRPC connection. *)
Definition inserter_new (connection : option K) (table_def : TableDefinition) :
    outcome (result Inserter ApiError) :=
  if (column_count_of table_def =? 0)%nat
  then Val (Err (InvalidTableDefinition (str "Table definition must have at least one column")))
  else
    match connection with
    | None => Val (Err (FeatureNotSupportedError
        (str "Inserter requires a TCP connection. gRPC connections do not support COPY operations.")))
    | Some connection =>
        let! chunk := InsertChunk.from_table_definition debug_assertions table_def in
        Val (Ok (mk_inserter connection table_def chunk 0 0 false))
    end.

Definition with_chunk (chunk : InsertChunk.t) (i : Inserter) : Inserter :=
  mk_inserter (connection i) (table_def i) chunk (row_count i) (chunk_count i) (writer i).
Definition with_connection (connection : K) (i : Inserter) : Inserter :=
  mk_inserter connection (table_def i) (chunk i) (row_count i) (chunk_count i) (writer i).
Definition with_writer (connection : K) (i : Inserter) : Inserter :=
  mk_inserter connection (table_def i) (chunk i) (row_count i) (chunk_count i) true.

(** The [add_*] methods forward to the chunk. *)
Definition on_chunk (op : InsertChunk.Op) : Op := fun i =>
  let! r := op (chunk i) in
  Val (r.1, with_chunk r.2 i).

(** [self.writer = Some(client.copy_in(...)?)], when there is none yet. *)
Definition ensure_writer : Op := fun i =>
  if writer i then Val (Ok tt, i)
  else
    let! r := copy_in (qualified_name (table_def i)) (col_name <$> columns (table_def i)) (connection i) in
    match r with
    | (Ok _, k) => Val (Ok tt, with_writer k i)
    | (Err e, k) => Val (Err (FromClient e), with_connection k i)
    end.

(** A call of the writer, and [?]. *)
Definition on_writer (f : K -> outcome (result unit Connection.Error * K)) : Op := fun i =>
  let! r := f (connection i) in
  match r with
  | (Ok _, k) => Val (Ok tt, with_connection k i)
  | (Err e, k) => Val (Err (FromClient e), with_connection k i)
  end.

Definition ibind (m1 m2 : Op) : Op := fun i =>
  let! r := m1 i in
  match r with
  | (Ok _, i) => m2 i
  | (Err e, i) => Val (Err e, i)
  end.

Definition flush : Op := fun i =>
  if InsertChunk.is_empty (chunk i) then Val (Ok tt, i)
  else
    let '(buffer, taken) := InsertChunk.take (chunk i) in
    let i := with_chunk taken i in
    match buffer with
    | None => Val (Ok tt, i)
    | Some buffer =>
        ibind ensure_writer
          (ibind (on_writer (send_direct buffer))
             (ibind (on_writer flush_stream)
                (fun i => Val (Ok tt, mk_inserter (connection i) (table_def i) (chunk i)
                                        (row_count i) (chunk_count i + 1) (writer i))))) i
    end.

Definition end_row : Op :=
  ibind (on_chunk InsertChunk.end_row) (fun i =>
    let i := mk_inserter (connection i) (table_def i) (chunk i) (row_count i + 1) (chunk_count i) (writer i) in
    if InsertChunk.should_flush (chunk i) then flush i else Val (Ok tt, i)).

(** Dropping the inserter drops an open writer. *)
Definition drop_inserter (i : Inserter) : outcome K :=
  if writer i then drop_writer (connection i) else Val (connection i).

Definition execute (i : Inserter) : outcome (result Z ApiError * K) :=
  if negb (InsertChunk.column_index (chunk i) =? 0)%nat
  then let! k := drop_inserter i in Val (Err incomplete_row, k)
  else if row_count i =? 0 then let! k := drop_inserter i in Val (Ok 0, k)
  else
    let! r := ibind ensure_writer
      (ibind (fun i => if negb (InsertChunk.is_empty (chunk i))
                       then on_writer (send (InsertChunk.buffer (chunk i))) i else Val (Ok tt, i))
         (on_writer (send (write_trailer [])))) i in
    match r with
    | (Err e, i) => let! k := drop_inserter i in Val (Err e, k)
    | (Ok _, i) =>
        let! r := finish (connection i) in
        match r with
        | (Ok rows, k) => Val (Ok rows, k)
        | (Err e, k) => Val (Err (FromClient e), k)
        end
    end.

(** A failure to cancel is only logged. *)
Definition cancel_in_place (i : Inserter) : outcome Inserter :=
  if writer i then
    let! r := cancel (str "Inserter cancelled") (connection i) in
    Val (mk_inserter r.2 (table_def i) (chunk i) (row_count i) (chunk_count i) false)
  else Val i.

End inserter.
Arguments Inserter : clear implicits.

(** ** [CopyInWriter] ([client.rs]) *)

Section copy_in_writer.
Context (overflow_checks : bool) (usize_max : Z).

(** The [Drop] of a writer that was neither finished nor cancelled. *)
Definition copy_in_writer_drop (panicking : bool) (k : RawConnection) : outcome RawConnection :=
  if panicking then Val (set_desync k)
  else
    let! r := cancel_copy overflow_checks usize_max
                (str "CopyInWriter dropped without finish() or cancel()") k in
    match r with
    | (Ok _, k) => Val k
    | (Err _, k) => Val (set_desync k)
    end.

Definition raw_copy_writer : CopyWriter RawConnection := {|
  copy_in := start_copy_in overflow_checks usize_max;
  send := send_copy_data overflow_checks;
  send_direct := send_copy_data_direct;
  flush_stream := Connection.flush_stream;
  finish := finish_copy usize_max;
  cancel := cancel_copy overflow_checks usize_max;
  drop_writer := copy_in_writer_drop false;
|}.

End copy_in_writer.

(** ** Values and calls ([IntoValue], [add_row]) *)

(** The values a chunk encodes by itself. *)
Inductive ChunkValue : Type :=
| VNull
| VBool (b : bool)
| VI16 (z : Z)
| VI32 (z : Z)
| VI64 (z : Z)
| VF32 (bits : Z)
| VF64 (bits : Z)
| VStr (s : list Z)
| VBytes (bs : list Z)
| VData128 (bs : list Z)
| VDate (d : Date)
| VTime (t : Time)
| VTimestamp (ts : Timestamp)
| VOffsetTimestamp (o : OffsetTimestamp)
| VInterval (i : Interval)
| VGeography (bs : list Z).

(** A decimal needs the type of its column. *)
Inductive Value : Type :=
| VChunk (v : ChunkValue)
| VNumeric (n : Numeric.t).

Coercion VChunk : ChunkValue >-> Value.

(** The methods of [InsertChunk] by value. *)
Definition chunk_value (overflow_checks : bool) (v : ChunkValue) : InsertChunk.Op :=
  match v with
  | VNull => InsertChunk.add_null
  | VBool b => InsertChunk.add_bool b
  | VI16 z => InsertChunk.add_i16 z
  | VI32 z => InsertChunk.add_i32 z
  | VI64 z => InsertChunk.add_i64 z
  | VF32 bits => InsertChunk.add_f32 bits
  | VF64 bits => InsertChunk.add_f64 bits
  | VStr s => InsertChunk.add_str s
  | VBytes bs => InsertChunk.add_bytes bs
  | VData128 bs => InsertChunk.add_data128 bs
  | VDate d => InsertChunk.add_date d
  | VTime t => InsertChunk.add_time t
  | VTimestamp ts => InsertChunk.add_timestamp overflow_checks ts
  | VOffsetTimestamp o => InsertChunk.add_offset_timestamp overflow_checks o
  | VInterval i => InsertChunk.add_interval i
  | VGeography bs => InsertChunk.add_geography bs
  end.

(** [numeric_for_column] and its errors. *)
Definition unknown_precision (col_name : list Z) (column_index : nat) : ApiError :=
  ConversionError (str "Cannot determine numeric precision for column '" ++ col_name ++ str "' at index "
    ++ fmt_u (Z.of_nat column_index)
    ++ str ". Ensure the column is defined with explicit SqlType including precision."
    ++ [10; 10] ++ str "Example fix:" ++ [10] ++ str "  table_def.add_column_with_type(" ++ [34] ++ col_name ++ [34]
    ++ str ", SqlType::Numeric { precision: 10, scale: 2 }, true);").

Definition cannot_be_stored (value : list Z) (col_name : list Z) (col_scale : Z) (reason : list Z) : ApiError :=
  ConversionError (str "Numeric value " ++ value ++ str " cannot be stored in column '" ++ col_name
    ++ str "' with scale " ++ fmt_u col_scale ++ str ": " ++ reason).

Definition out_of_i64 (unscaled precision : Z) : ApiError :=
  ConversionError (str "Numeric value " ++ fmt_i unscaled ++ str " is out of range for i64 storage (precision "
    ++ fmt_u precision ++ str ")").

Definition column_name_at (tdef : TableDefinition) (column_index : nat) : list Z :=
  match columns tdef !! column_index with
  | Some c => col_name c
  | None => str "<unknown>"
  end.

(** The precision and scale of a column that has them. *)
Definition numeric_type_at (tdef : TableDefinition) (column_index : nat) : option (Z * Z) :=
  c ← columns tdef !! column_index;
  t ← sql_type c;
  p ← SqlTypes.precision t;
  s ← SqlTypes.scale t;
  Some (p, s).

Definition numeric_for_column (tdef : TableDefinition) (column_index : nat) (value : Numeric.t) :
    outcome (result (Z * Z) ApiError) :=
  match numeric_type_at tdef column_index with
  | None => Val (Err (unknown_precision (column_name_at tdef column_index) column_index))
  | Some (precision, col_scale) =>
      match rescale_numeric value col_scale with
      | Ok unscaled => Val (Ok (precision, unscaled))
      | Err reason =>
          let! text := Numeric.display value in
          Val (Err (cannot_be_stored text (column_name_at tdef column_index) col_scale reason))
      end
  end.

Section calls.
Context {K : Type} `{CopyWriter K} (overflow_checks : bool).

Definition add_numeric (value : Numeric.t) : Op (K := K) := fun i =>
  let! r := numeric_for_column (table_def i) (InsertChunk.column_index (chunk i)) value in
  match r with
  | Err e => Val (Err e, i)
  | Ok (precision, unscaled) =>
      if precision <=? SqlTypes.SMALL_NUMERIC_MAX_PRECISION then
        if in_ib 64 unscaled then on_chunk (InsertChunk.add_i64 unscaled) i
        else Val (Err (out_of_i64 unscaled precision), i)
      else on_chunk (InsertChunk.add_data128 (to_le 16 unscaled)) i
  end.

(** [value.add_to_inserter(self)]. *)
Definition add_value (v : Value) : Op (K := K) :=
  match v with
  | VChunk v => on_chunk (chunk_value overflow_checks v)
  | VNumeric n => add_numeric n
  end.

Fixpoint add_values (values : list Value) : Op (K := K) :=
  match values with
  | [] => fun i => Val (Ok tt, i)
  | v :: values => ibind (add_value v) (add_values values)
  end.

Definition column_count_mismatch (expected got : nat) : ApiError :=
  InvalidTableDefinition (str "Column count mismatch: expected " ++ fmt_u (Z.of_nat expected)
    ++ str " columns but got " ++ fmt_u (Z.of_nat got)).

Definition add_row (values : list Value) : Op (K := K) := fun i =>
  let column_count := column_count_of (table_def i) in
  if negb (length values =? column_count)%nat
  then Val (Err (column_count_mismatch column_count (length values)), i)
  else ibind (add_values values) end_row i.

(** A call of the public interface. *)
Inductive Call : Type :=
| Add (v : Value)
| EndRow
| Flush
| AddRow (values : list Value).

Definition run_call (c : Call) : Op (K := K) :=
  match c with
  | Add v => add_value v
  | EndRow => end_row
  | Flush => flush
  | AddRow values => add_row values
  end.

(** A program that looks at each result and goes on. *)
Fixpoint run_calls (calls : list Call) (i : Inserter K) :
    outcome (list (result unit ApiError) * Inserter K) :=
  match calls with
  | [] => Val ([], i)
  | c :: calls =>
      let! r := run_call c i in
      let! rs := run_calls calls r.2 in
      Val (r.1 :: rs.1, rs.2)
  end.
End calls.

(** ** The specification: rows of cells *)

(** The bytes of a value, but for the indicator of a nullable column; [None] for
    NULL. *)
Definition payload (v : ChunkValue) : option (list Z) :=
  match v with
  | VNull => None
  | VBool b => Some (to_le 1 (if b then 1 else 0))
  | VI16 z => Some (to_le 2 z)
  | VI32 z | VF32 z => Some (to_le 4 z)
  | VI64 z | VF64 z => Some (to_le 8 z)
  | VStr bs | VBytes bs | VGeography bs => Some (to_le 4 (Z.of_nat (length bs)) ++ bs)
  | VData128 bs => Some bs
  | VDate d => Some (to_le 4 (d + JULIAN_DAY_EPOCH))
  | VTime t => Some (to_le 8 t)
  | VTimestamp ts => Some (to_le 8 (ts + EPOCH_OFFSET_MICROS))
  | VOffsetTimestamp o => Some (to_le 8 (timestamp o + EPOCH_OFFSET_MICROS))
  | VInterval i => Some (interval_encode i)
  end.

(** The values whose length does not fit. *)
Definition long_value (v : ChunkValue) : option nat :=
  match v with
  | VStr bs | VBytes bs | VGeography bs =>
      if 2 ^ 32 - 1 <? Z.of_nat (length bs) then Some (length bs) else None
  | _ => None
  end.

(** A timestamp whose Julian form is an [i64], beyond which the code overflows, and
    the arrays of 16 bytes. *)
Definition chunk_value_ok (v : ChunkValue) : Prop :=
  match v with
  | VData128 bs => length bs = 16%nat
  | VTimestamp ts => in_i 64 (ts + EPOCH_OFFSET_MICROS)
  | VOffsetTimestamp o => in_i 64 (timestamp o + EPOCH_OFFSET_MICROS)
  | _ => True
  end.

Definition value_ok (v : Value) : Prop :=
  match v with
  | VChunk v => chunk_value_ok v
  | VNumeric n => Numeric.wf n
  end.

Record Rows : Type := mk_rows { finished : list (list (list Z)); current : list (list Z) }.

(** A decimal is the integer that stores it in its column. *)
Definition stored_value (tdef : TableDefinition) (column_index : nat) (v : Value) : result ChunkValue ApiError :=
  match v with
  | VNumeric n =>
      match numeric_type_at tdef column_index with
      | None => Err (unknown_precision (column_name_at tdef column_index) column_index)
      | Some (p, s) =>
          match rescale_numeric n s with
          | Err reason => Err (cannot_be_stored (numeric_text n) (column_name_at tdef column_index) s reason)
          | Ok u =>
              if p <=? SqlTypes.SMALL_NUMERIC_MAX_PRECISION
              then if in_ib 64 u then Ok (VI64 u) else Err (out_of_i64 u p)
              else Ok (VData128 (to_le 16 u))
          end
      end
  | VChunk v => Ok v
  end.

Section spec.
Context (tdef : TableDefinition).

Definition nullables : list bool := nullable <$> columns tdef.

Definition width : nat := length nullables.

Definition spec_cell (v : ChunkValue) (s : Rows) : result unit ApiError * Rows :=
  match nullables !! length (current s) with
  | None => (Err too_many_columns, s)
  | Some nullable =>
      match long_value v, payload v, nullable with
      | Some n, _, _ => (Err (value_too_long n), s)
      | None, None, false => (Err null_not_allowed, s)
      | None, None, true => (Ok tt, mk_rows (finished s) (current s ++ [[1]]))
      | None, Some bs, false => (Ok tt, mk_rows (finished s) (current s ++ [bs]))
      | None, Some bs, true => (Ok tt, mk_rows (finished s) (current s ++ [0 :: bs]))
      end
  end.

Definition spec_add (v : Value) (s : Rows) : result unit ApiError * Rows :=
  match stored_value tdef (length (current s)) v with
  | Ok v => spec_cell v s
  | Err e => (Err e, s)
  end.

Definition spec_end_row (s : Rows) : result unit ApiError * Rows :=
  if (length (current s) =? width)%nat then (Ok tt, mk_rows (finished s ++ [current s]) [])
  else (Err (wrong_column_count width (length (current s))), s).

Fixpoint spec_add_values (values : list Value) (s : Rows) : result unit ApiError * Rows :=
  match values with
  | [] => (Ok tt, s)
  | v :: values =>
      match spec_add v s with
      | (Ok _, s) => spec_add_values values s
      | (Err e, s) => (Err e, s)
      end
  end.

Definition spec_add_row (values : list Value) (s : Rows) : result unit ApiError * Rows :=
  if (length values =? width)%nat then
    match spec_add_values values s with
    | (Ok _, s) => spec_end_row s
    | (Err e, s) => (Err e, s)
    end
  else (Err (column_count_mismatch width (length values)), s).

Definition spec_call (c : Call) (s : Rows) : result unit ApiError * Rows :=
  match c with
  | Add v => spec_add v s
  | EndRow => spec_end_row s
  | Flush => (Ok tt, s)
  | AddRow values => spec_add_row values s
  end.

Fixpoint spec_calls (calls : list Call) (s : Rows) : list (result unit ApiError) * Rows :=
  match calls with
  | [] => ([], s)
  | c :: calls =>
      let r := spec_call c s in
      let rs := spec_calls calls r.2 in
      (r.1 :: rs.1, rs.2)
  end.

(** The COPY data of the table so far: one header, then every cell. *)
Definition cells (s : Rows) : list (list Z) := concat (finished s) ++ current s.

Definition stream_of (s : Rows) : list Z :=
  match cells s with
  | [] => []
  | cs => HYPER_BINARY_HEADER ++ concat cs
  end.
End spec.

Definition call_ok (c : Call) : Prop :=
  match c with
  | Add v => value_ok v
  | AddRow values => Forall value_ok values
  | _ => True
  end.

Definition no_rows : Rows := mk_rows [] [].

(** ** The specification's stream *)

Lemma cells_add f cur b : cells (mk_rows f (cur ++ [b])) = cells (mk_rows f cur) ++ [b].
Proof. unfold cells. cbn. by rewrite app_assoc. Qed.

(** A new cell goes to the end of the stream, behind the header. *)
Lemma stream_of_add s b :
  stream_of (mk_rows (finished s) (current s ++ [b]))
  = (if bool_decide (cells s = []) then HYPER_BINARY_HEADER else stream_of s) ++ b.
Proof.
  unfold stream_of. destruct s as [f cur]. cbn [finished current]. rewrite cells_add.
  destruct (cells (mk_rows f cur)) as [| c cs] eqn:E.
  - rewrite bool_decide_true by done. cbn. by rewrite app_nil_r.
  - rewrite bool_decide_false by done. cbn [app]. change (c :: cs ++ [b]) with ((c :: cs) ++ [b]).
    rewrite concat_app. cbn [concat]. by rewrite app_nil_r, !app_assoc.
Qed.

Lemma stream_of_nil s : cells s = [] -> stream_of s = [].
Proof. unfold stream_of. by intros ->. Qed.

Lemma cells_end_row s : cells (mk_rows (finished s ++ [current s]) []) = cells s.
Proof. unfold cells. cbn [finished current]. rewrite concat_app. cbn [concat]. by rewrite !app_nil_r. Qed.

Lemma stream_of_end_row s : stream_of (mk_rows (finished s ++ [current s]) []) = stream_of s.
Proof. unfold stream_of. by rewrite cells_end_row. Qed.

Section monotone.
Context (tdef : TableDefinition).
#[local] Abbreviation nullables := (nullables tdef).

Definition grows (s s' : Rows) : Prop := (length (stream_of s) <= length (stream_of s'))%nat.

Lemma grows_add s b : grows s (mk_rows (finished s) (current s ++ [b])).
Proof.
  unfold grows. rewrite stream_of_add. case_bool_decide as E; [by rewrite (stream_of_nil s E); simpl; lia |].
  rewrite length_app. lia.
Qed.

Lemma grows_spec_cell v s : grows s (spec_cell tdef v s).2.
Proof.
  unfold spec_cell. repeat case_match; cbn [snd]; try apply grows_add; unfold grows; lia.
Qed.

Lemma grows_spec_add v s : grows s (spec_add tdef v s).2.
Proof. unfold spec_add. case_match; [apply grows_spec_cell | unfold grows; simpl; lia]. Qed.

Lemma grows_spec_end_row s : grows s (spec_end_row tdef s).2.
Proof.
  unfold spec_end_row, grows. case_match; cbn [snd]; [| lia]. rewrite stream_of_end_row. lia.
Qed.

Lemma grows_spec_add_values vs s : grows s (spec_add_values tdef vs s).2.
Proof.
  revert s. induction vs as [| v vs IH]; intros s; [unfold grows; simpl; lia |]. cbn [spec_add_values].
  pose proof (grows_spec_add v s) as Hv. destruct (spec_add tdef v s) as [[[] | e] s']; [| done].
  cbn [snd] in Hv. specialize (IH s'). unfold grows in *. lia.
Qed.

Lemma grows_spec_call c s : grows s (spec_call tdef c s).2.
Proof.
  destruct c as [v | | | vs]; cbn [spec_call]; [apply grows_spec_add | apply grows_spec_end_row | unfold grows; simpl; lia |].
  unfold spec_add_row. case_match; [| unfold grows; simpl; lia].
  pose proof (grows_spec_add_values vs s) as Hv.
  destruct (spec_add_values tdef vs s) as [[[] | e] s']; [| done]. cbn [snd] in Hv.
  pose proof (grows_spec_end_row s') as He. unfold grows in *. lia.
Qed.

Lemma grows_spec_calls cs s : grows s (spec_calls tdef cs s).2.
Proof.
  revert s. induction cs as [| c cs IH]; intros s; [unfold grows; simpl; lia |]. cbn [spec_calls snd].
  pose proof (grows_spec_call c s). specialize (IH (spec_call tdef c s).2). unfold grows in *. lia.
Qed.
(** Only whole rows are finished. *)
Lemma spec_add_finished v s : finished (spec_add tdef v s).2 = finished s.
Proof. unfold spec_add, spec_cell. by repeat case_match. Qed.

Lemma spec_add_values_finished vs s : finished (spec_add_values tdef vs s).2 = finished s.
Proof.
  revert s. induction vs as [| v vs IH]; intros s; [done |]. cbn [spec_add_values].
  pose proof (spec_add_finished v s) as Hv. destruct (spec_add tdef v s) as [[[] | e] s']; [| done].
  by rewrite IH.
Qed.

Definition rows_wide (s : Rows) : Prop := Forall (fun row => length row = length nullables) (finished s).

Lemma spec_end_row_wide s : rows_wide s -> rows_wide (spec_end_row tdef s).2.
Proof.
  intros Hs. unfold spec_end_row, width. destruct (Nat.eqb_spec (length (current s)) (length nullables)); [| done].
  apply Forall_app. split; [done | by apply Forall_singleton].
Qed.

Lemma spec_call_wide c s : rows_wide s -> rows_wide (spec_call tdef c s).2.
Proof.
  intros Hs. destruct c as [v | | | vs]; cbn [spec_call].
  - unfold rows_wide. by rewrite spec_add_finished.
  - by apply spec_end_row_wide.
  - done.
  - unfold spec_add_row. case_match; [| done]. pose proof (spec_add_values_finished vs s) as Hv.
    destruct (spec_add_values tdef vs s) as [[[] | e] s']; cbn [snd] in *;
      [apply spec_end_row_wide |]; unfold rows_wide; by rewrite Hv.
Qed.

Lemma spec_calls_wide cs s : rows_wide s -> rows_wide (spec_calls tdef cs s).2.
Proof.
  revert s. induction cs as [| c cs IH]; intros s Hs; [done |]. by apply IH, spec_call_wide.
Qed.
End monotone.

#[local] Arguments cells : simpl never.
#[local] Arguments stream_of : simpl never.

(** ** The refinement *)

Section refinement.
Context {K : Type} `{!CopyWriter K} (oc : bool) (tdef : TableDefinition)
  `{!CopyWriterSpec K (qualified_name tdef) (col_name <$> columns tdef)} (k0 : K).

#[local] Abbreviation nullables := (nullables tdef).

(** The inserter [i] holds the rows [s]: what was sent and what is buffered make
    up the stream. *)
Record sim (i : Inserter K) (s : Rows) : Prop := {
  sim_table : table_def i = tdef;
  sim_count : InsertChunk.column_count (chunk i) = length nullables;
  sim_nullable : InsertChunk.column_nullable (chunk i) = nullables;
  sim_index : InsertChunk.column_index (chunk i) = length (current s);
  sim_current : (length (current s) <= length nullables)%nat;
  sim_header : InsertChunk.header_written (chunk i) = negb (bool_decide (cells s = []));
  sim_rows : row_count i = Z.of_nat (length (finished s));
  sim_buffer : InsertChunk.row_count (chunk i) = 0%nat -> current s = [] -> InsertChunk.buffer (chunk i) = [];
  sim_chunk : InsertChunk.row_count (chunk i) <> 0%nat -> finished s <> [];
  sim_sent : if writer i
             then finished s <> [] /\ exists p, opened k0 (connection i) p /\ p ++ InsertChunk.buffer (chunk i) = stream_of s
             else connection i = k0 /\ InsertChunk.buffer (chunk i) = stream_of s;
}.

Definition fits (s : Rows) : Prop := Z.of_nat (length (stream_of s)) + 4 < 2 ^ 31.

Lemma ensure_header_buffer i s :
  sim i s ->
  (if writer i then exists p, opened k0 (connection i) p
       /\ p ++ InsertChunk.buffer (InsertChunk.ensure_header (chunk i))
          = if bool_decide (cells s = []) then HYPER_BINARY_HEADER else stream_of s
   else connection i = k0 /\ InsertChunk.buffer (InsertChunk.ensure_header (chunk i))
          = if bool_decide (cells s = []) then HYPER_BINARY_HEADER else stream_of s).
Proof.
  intros Hs. pose proof (sim_sent i s Hs) as Hsent. unfold InsertChunk.ensure_header. rewrite (sim_header i s Hs).
  case_bool_decide as E; cbn [negb].
  - rewrite (stream_of_nil s E) in Hsent. cbn. unfold write_header. destruct (writer i).
    + destruct Hsent as (_ & p & Ho & [-> Hb]%app_eq_nil). exists []. by rewrite Hb.
    + destruct Hsent as [? ->]. done.
  - destruct (writer i); [by destruct Hsent |]. done.
Qed.

Lemma sim_add_cell i s b :
  sim i s -> (length (current s) < length nullables)%nat ->
  let c := InsertChunk.ensure_header (chunk i) in
  sim (with_chunk (InsertChunk.advance (InsertChunk.buffer c ++ b) c) i)
      (mk_rows (finished s) (current s ++ [b])).
Proof.
  intros Hs Hl c. pose proof (ensure_header_buffer i s Hs) as Hb. fold c in Hb.
  assert (Hc : InsertChunk.column_count c = length nullables /\ InsertChunk.column_nullable c = nullables
            /\ InsertChunk.column_index c = length (current s)
            /\ InsertChunk.row_count c = InsertChunk.row_count (chunk i)
            /\ InsertChunk.header_written c = true).
  { pose proof (sim_count i s Hs). pose proof (sim_nullable i s Hs). pose proof (sim_index i s Hs).
    unfold c, InsertChunk.ensure_header. destruct (InsertChunk.header_written (chunk i)) eqn:E; by cbn. }
  destruct Hc as (Hc1 & Hc2 & Hc3 & Hc4 & Hc5).
  constructor; cbn [with_chunk InsertChunk.advance chunk table_def row_count writer connection finished current
    InsertChunk.column_count InsertChunk.column_nullable InsertChunk.column_index InsertChunk.header_written
    InsertChunk.row_count InsertChunk.buffer].
  - by apply (sim_table i s).
  - done.
  - done.
  - rewrite Hc3, length_app. simpl. lia.
  - rewrite length_app. simpl. lia.
  - rewrite cells_add, Hc5, bool_decide_false; [done |]. by destruct (cells _).
  - by apply (sim_rows i s).
  - intros _ E. by apply app_eq_nil in E as [_ ?].
  - rewrite Hc4. by apply (sim_chunk i s).
  - rewrite stream_of_add. pose proof (sim_sent i s Hs) as Hsent. destruct (writer i).
    + destruct Hsent as [Hf _]. split; [done |]. destruct Hb as (p & Ho & Hp). exists p.
      split; [done |]. by rewrite app_assoc, Hp.
    + destruct Hb as [? ->]. done.
Qed.

(** The methods that write one cell. *)
Lemma add_with_sim w wn b i s :
  (forall buf, w buf = Val (buf ++ 0 :: b)) -> (forall buf, wn buf = Val (buf ++ b)) -> sim i s ->
  exists i', on_chunk (InsertChunk.add_with w wn) i
      = Val (match nullables !! length (current s) with None => Err too_many_columns | _ => Ok tt end, i')
    /\ sim i' match nullables !! length (current s) with
              | None => s
              | Some true => mk_rows (finished s) (current s ++ [0 :: b])
              | Some false => mk_rows (finished s) (current s ++ [b])
              end.
Proof.
  intros Hw Hwn Hs. unfold on_chunk, InsertChunk.add_with.
  rewrite (sim_count i s Hs), (sim_index i s Hs).
  destruct (Nat.leb_spec (length nullables) (length (current s))) as [Hge | Hlt].
  - rewrite lookup_ge_None_2 by done. cbn [outcome_bind fst snd]. exists i. split; [| done].
    do 2 f_equal. by destruct i.
  - destruct (lookup_lt_is_Some_2 nullables (length (current s)) Hlt) as [nl Hnl]. rewrite Hnl.
    assert (Hcn : InsertChunk.current_column_nullable (InsertChunk.ensure_header (chunk i)) = nl).
    { unfold InsertChunk.current_column_nullable, InsertChunk.ensure_header.
      destruct (InsertChunk.header_written (chunk i)); cbn;
        by rewrite (sim_nullable i s Hs), (sim_index i s Hs), Hnl. }
    cbv zeta. rewrite Hcn. destruct nl; rewrite ?Hw, ?Hwn; cbn [outcome_bind fst snd];
      eexists; (split; [done | by apply sim_add_cell]).
Qed.

Lemma to_le_wrap_i n w z : (0 < n)%nat -> w = 8 * Z.of_nat n -> to_le n (wrap_i w z) = to_le n z.
Proof.
  intros Hn ->. by rewrite <- to_le_wrap_u, wrap_u_wrap_i, to_le_wrap_u by lia.
Qed.

Lemma add_bytes_sim bs i s :
  sim i s ->
  exists i', on_chunk (InsertChunk.add_bytes bs) i = Val ((spec_cell tdef (VBytes bs) s).1, i')
    /\ sim i' (spec_cell tdef (VBytes bs) s).2.
Proof.
  intros Hs. destruct (Z.ltb_spec (2 ^ 32 - 1) (Z.of_nat (length bs))) as [Hlong | Hok].
  - unfold spec_cell, on_chunk, InsertChunk.add_bytes. cbn [long_value payload].
    rewrite (proj2 (Z.ltb_lt _ _) Hlong), (sim_count i s Hs), (sim_index i s Hs).
    exists i. destruct (Nat.leb_spec (length nullables) (length (current s))) as [Hge | Hlt].
    + rewrite lookup_ge_None_2 by done. split; [| done]. cbn. do 2 f_equal. by destruct i.
    + destruct (lookup_lt_is_Some_2 nullables (length (current s)) Hlt) as [nl ->]. split; [| done].
      cbn. do 2 f_equal. by destruct i.
  - assert (Hw : forall buf, write_varbinary buf bs = Val (buf ++ 0 :: to_le 4 (Z.of_nat (length bs)) ++ bs)
              /\ write_varbinary_not_null buf bs = Val (buf ++ to_le 4 (Z.of_nat (length bs)) ++ bs)).
    { intros buf. unfold write_varbinary, write_varbinary_not_null, copy_len.
      by rewrite (proj2 (in_ub_spec 32 _)) by (unfold in_u; lia). }
    destruct (add_with_sim (fun b => write_varbinary b bs) (fun b => write_varbinary_not_null b bs)
      (to_le 4 (Z.of_nat (length bs)) ++ bs) i s) as (i' & Hr & Hs'); [apply Hw | apply Hw | done |].
    assert (Hlt : (2 ^ 32 - 1 <? Z.of_nat (length bs)) = false) by (by apply Z.ltb_ge).
    exists i'. unfold spec_cell. cbn [long_value payload]. rewrite Hlt. split.
    + revert Hr. unfold on_chunk, InsertChunk.add_with, InsertChunk.add_bytes. rewrite Hlt.
      destruct (_ <=? _)%nat; intros ->; by destruct (nullables !! _) as [[|] |].
    + by destruct (nullables !! _) as [[|] |].
Qed.

Lemma add_null_sim i s :
  sim i s ->
  exists i', on_chunk InsertChunk.add_null i = Val ((spec_cell tdef VNull s).1, i')
    /\ sim i' (spec_cell tdef VNull s).2.
Proof.
  intros Hs. unfold spec_cell, on_chunk, InsertChunk.add_null. cbn [long_value payload].
  rewrite (sim_count i s Hs), (sim_index i s Hs). unfold InsertChunk.current_column_nullable.
  rewrite (sim_nullable i s Hs), (sim_index i s Hs).
  destruct (Nat.leb_spec (length nullables) (length (current s))) as [Hge | Hlt].
  - rewrite lookup_ge_None_2 by done. exists i. split; [| done]. cbn. do 2 f_equal. by destruct i.
  - destruct (lookup_lt_is_Some_2 nullables (length (current s)) Hlt) as [[|] ->]; cbn [negb].
    + eexists. split; [done |]. by apply sim_add_cell.
    + exists i. split; [| done]. cbn. do 2 f_equal. by destruct i.
Qed.

(** Adding a value but a decimal is adding its cell. *)
Lemma add_cell_sim v i s :
  sim i s -> chunk_value_ok v ->
  exists i', on_chunk (chunk_value oc v) i = Val ((spec_cell tdef v s).1, i')
    /\ sim i' (spec_cell tdef v s).2.
Proof.
  intros Hs Hv.
  assert (Hcell : forall w wn b, payload v = Some b -> long_value v = None ->
    (forall buf, w buf = Val (buf ++ 0 :: b)) -> (forall buf, wn buf = Val (buf ++ b)) ->
    exists i', on_chunk (InsertChunk.add_with w wn) i = Val ((spec_cell tdef v s).1, i')
      /\ sim i' (spec_cell tdef v s).2).
  { intros w wn b Hp Hl Hw Hwn. destruct (add_with_sim w wn b i s Hw Hwn Hs) as (i' & -> & Hs').
    exists i'. unfold spec_cell. rewrite Hp, Hl. by destruct (nullables !! _) as [[|] |]. }
  destruct v; try (by apply add_null_sim); try (by apply add_bytes_sim);
    try (by apply (Hcell _ _ _ eq_refl eq_refl)); cbn [chunk_value].
  - unfold InsertChunk.add_date, InsertChunk.add_i32, to_julian_day. apply (Hcell _ _ _ eq_refl eq_refl);
      intros buf; unfold write_i32, write_i32_not_null; by rewrite to_le_wrap_i by (done || lia).
  - unfold InsertChunk.add_time, InsertChunk.add_i64, time_to_microseconds. apply (Hcell _ _ _ eq_refl eq_refl);
      intros buf; unfold write_i64, write_i64_not_null; by rewrite to_le_wrap_i by (done || lia).
  - apply (Hcell _ _ _ eq_refl eq_refl); intros buf; unfold to_microseconds, i64; by rewrite arith_i_val.
  - unfold InsertChunk.add_offset_timestamp.
    apply (Hcell _ _ _ eq_refl eq_refl); intros buf; unfold to_microseconds, i64; by rewrite arith_i_val.
Qed.

(** Adding a value is adding its cell, a decimal as its column stores it. *)
Lemma add_value_sim v i s :
  sim i s -> value_ok v ->
  exists i', add_value oc v i = Val ((spec_add tdef v s).1, i') /\ sim i' (spec_add tdef v s).2.
Proof.
  intros Hs Hv. destruct v as [v | n]; [by apply add_cell_sim |].
  unfold spec_add, stored_value. cbn [add_value value_ok] in *. unfold add_numeric, numeric_for_column.
  rewrite (sim_table i s Hs), (sim_index i s Hs).
  destruct (numeric_type_at tdef (length (current s))) as [[p sc] |]; [| by exists i].
  destruct (rescale_numeric n sc) as [u | reason].
  - cbn [outcome_bind]. destruct (p <=? SqlTypes.SMALL_NUMERIC_MAX_PRECISION).
    + destruct (in_ib 64 u); [| by exists i]. by apply (add_cell_sim (VI64 u)).
    + apply (add_cell_sim (VData128 (to_le 16 u))); [done | apply length_to_le].
  - rewrite display_eq by done. by exists i.
Qed.

(** Flushing moves the buffer into the COPY. *)
Lemma flush_sim i s :
  ready k0 -> sim i s -> fits s -> exists i', flush i = Val (Ok tt, i') /\ sim i' s.
Proof.
  intros Hready Hs Hf. unfold flush, InsertChunk.is_empty, InsertChunk.take.
  destruct (Nat.eqb_spec (InsertChunk.row_count (chunk i)) 0) as [H0 | H0]; [eauto |].
  set (i1 := with_chunk _ i). set (data := InsertChunk.buffer (chunk i)).
  assert (Hopen : exists i2 p, ensure_writer i1 = Val (Ok tt, i2) /\ opened k0 (connection i2) p
            /\ p ++ data = stream_of s /\ i2 = with_writer (connection i2) i1).
  { pose proof (sim_sent i s Hs) as Hsent. unfold ensure_writer. cbn [i1 with_chunk writer connection table_def].
    destruct (writer i) eqn:Hw.
    - destruct Hsent as (_ & p & Ho & Hp). exists i1, p. split_and!; [done | done | done |].
      unfold with_writer, i1, with_chunk. cbn. by rewrite Hw.
    - destruct Hsent as [-> Hb]. rewrite (sim_table i s Hs).
      destruct (copy_in_opened k0 Hready) as (k & -> & Ho). cbn [outcome_bind].
      eexists _, []. split; [done |]. by cbn. }
  destruct Hopen as (i2 & p & He & Ho & Hp & Hi2).
  assert (Hdata : Z.of_nat (length data) + 4 < 2 ^ 31).
  { unfold fits in Hf. rewrite <- Hp, length_app in Hf. lia. }
  destruct (send_direct_opened k0 _ p data Ho Hdata) as (k3 & Hsend & Ho3).
  destruct (flush_opened k0 k3 _ Ho3) as (k4 & Hfl & Ho4).
  eexists. split.
  - unfold ibind at 1. rewrite He. cbn [outcome_bind]. unfold ibind at 1, on_writer at 1. rewrite Hsend.
    cbn [outcome_bind]. unfold ibind, on_writer. cbn [with_connection connection]. rewrite Hfl.
    cbn [outcome_bind]. done.
  - rewrite Hi2. constructor; cbn; try (by destruct Hs).
    split; [by apply (sim_chunk i s Hs) |]. exists (p ++ data). split; [done |]. by rewrite app_nil_r.
Qed.

(** A row that has all its cells becomes a finished one. *)
Lemma end_row_keeps i s :
  sim i s -> length (current s) = length nullables ->
  let c := chunk i in
  sim (mk_inserter (connection i) (table_def i)
         (InsertChunk.mk (InsertChunk.buffer c) (InsertChunk.header_written c) 0 (InsertChunk.column_count c)
            (S (InsertChunk.row_count c)) (InsertChunk.column_nullable c))
         (row_count i + 1) (chunk_count i) (writer i))
      (mk_rows (finished s ++ [current s]) []).
Proof.
  intros Hs Heq. destruct Hs. constructor; cbn; rewrite ?cells_end_row, ?stream_of_end_row; try done.
  - lia.
  - rewrite length_app. simpl. lia.
  - intros _. by destruct (finished s).
  - destruct (writer i); [| done]. split; [by destruct (finished s) |]. by destruct sim_sent0.
Qed.

Lemma end_row_sim i s :
  ready k0 -> sim i s -> fits s ->
  exists i', end_row i = Val ((spec_end_row tdef s).1, i') /\ sim i' (spec_end_row tdef s).2.
Proof.
  intros Hready Hs Hf. unfold end_row, ibind, on_chunk, InsertChunk.end_row, spec_end_row, width.
  rewrite (sim_count i s Hs), (sim_index i s Hs).
  destruct (Nat.eqb_spec (length (current s)) (length nullables)) as [Heq | Hne]; cbn [negb outcome_bind fst snd].
  2: { exists i. split; [| done]. do 2 f_equal. by destruct i. }
  pose proof (end_row_keeps i s Hs Heq) as Hs1. cbv zeta in Hs1. rewrite (sim_count i s Hs) in Hs1.
  cbn [with_chunk connection table_def chunk row_count chunk_count writer].
  destruct (InsertChunk.should_flush _); [| eauto].
  apply flush_sim; [done | done |]. unfold fits. by rewrite stream_of_end_row.
Qed.

Lemma add_values_sim vs i s :
  sim i s -> Forall value_ok vs ->
  exists i', add_values oc vs i = Val ((spec_add_values tdef vs s).1, i')
    /\ sim i' (spec_add_values tdef vs s).2.
Proof.
  intros Hs Hvs. revert i s Hs. induction Hvs as [| v vs Hv _ IH]; intros i s Hs; [by exists i |].
  cbn [add_values spec_add_values]. unfold ibind. destruct (add_value_sim v i s Hs Hv) as (i1 & -> & Hs1).
  cbn [outcome_bind]. destruct (spec_add tdef v s) as [[[] | e] s1]; cbn [fst snd] in *; [by apply IH | eauto].
Qed.

(** Every call does to the inserter what it does to the rows. *)
Lemma call_sim c i s :
  ready k0 -> sim i s -> call_ok c -> fits (spec_call tdef c s).2 ->
  exists i', run_call oc c i = Val ((spec_call tdef c s).1, i') /\ sim i' (spec_call tdef c s).2.
Proof.
  intros Hready Hs Hc Hf. destruct c as [v | | | vs]; cbn [run_call spec_call call_ok] in *.
  - by apply add_value_sim.
  - apply end_row_sim; [done | done |]. unfold fits in *. pose proof (grows_spec_end_row tdef s). unfold grows in *. lia.
  - by apply flush_sim.
  - unfold add_row, spec_add_row, width in *. rewrite (sim_table i s Hs).
    assert (Hlen : length nullables = column_count_of tdef) by apply length_fmap.
    rewrite Hlen in *. destruct (Nat.eqb_spec (length vs) (column_count_of tdef)) as [_ | _]; cbn [negb]; [| eauto].
    unfold ibind. destruct (add_values_sim vs i s Hs Hc) as (i1 & -> & Hs1). cbn [outcome_bind].
    destruct (spec_add_values tdef vs s) as [[[] | e] s1]; cbn [fst snd] in *; [| eauto].
    apply end_row_sim; [done | done |]. unfold fits in *. pose proof (grows_spec_end_row tdef s1). unfold grows in *. lia.
Qed.

Lemma calls_sim cs i s :
  ready k0 -> sim i s -> Forall call_ok cs -> fits (spec_calls tdef cs s).2 ->
  exists i', run_calls oc cs i = Val ((spec_calls tdef cs s).1, i') /\ sim i' (spec_calls tdef cs s).2.
Proof.
  intros Hready Hs Hcs. revert i s Hs. induction Hcs as [| c cs Hc _ IH]; intros i s Hs Hf; [by exists i |].
  cbn [run_calls spec_calls snd fst] in *.
  assert (Hf1 : fits (spec_call tdef c s).2).
  { pose proof (grows_spec_calls tdef cs (spec_call tdef c s).2). unfold fits, grows in *. lia. }
  destruct (call_sim c i s Hready Hs Hc Hf1) as (i1 & -> & Hs1). cbn [outcome_bind snd fst].
  destruct (IH i1 _ Hs1 Hf) as (i2 & -> & Hs2). cbn [outcome_bind snd fst]. eauto.
Qed.

(** A fresh inserter holds no rows. *)
Lemma new_sim debug i :
  inserter_new debug (Some k0) tdef = Val (Ok i) -> sim i no_rows.
Proof.
  unfold inserter_new. case_match; [done |]. unfold InsertChunk.from_table_definition, InsertChunk.new.
  case_match; cbn [outcome_bind]; [done |]. intros [= <-].
  constructor; cbn; try done; [| lia]. symmetry. apply length_fmap.
Qed.

Lemma new_ok debug :
  columns tdef <> [] -> exists i, inserter_new debug (Some k0) tdef = Val (Ok i).
Proof.
  intros Hne. unfold inserter_new, InsertChunk.from_table_definition, InsertChunk.new, column_count_of.
  rewrite length_fmap, Nat.eqb_refl, andb_false_r. cbn [outcome_bind].
  destruct (Nat.eqb_spec (length (columns tdef)) 0) as [H0 |]; [by apply nil_length_inv in H0 | eauto].
Qed.

(** Executing refuses a row in progress, does nothing without rows, and otherwise
    closes the COPY with the whole stream. *)
Lemma execute_sim i s :
  ready k0 -> sim i s -> fits s ->
  match current s, finished s with
  | _ :: _, _ => execute i = let! k := drop_inserter i in Val (Err incomplete_row, k)
  | [], [] => execute i = Val (Ok 0, k0)
  | [], _ => exists n k, execute i = Val (Ok n, k) /\ closed k0 k (stream_of s) n
  end.
Proof.
  intros Hready Hs Hf. unfold execute. rewrite (sim_index i s Hs), (sim_rows i s Hs).
  pose proof (sim_sent i s Hs) as Hsent. pose proof (sim_buffer i s Hs) as Hbuf.
  destruct (current s) as [| cell cur] eqn:Hcur; [| done]. cbn [length Nat.eqb negb].
  destruct (finished s) as [| row rows] eqn:Hfin; cbn [length].
  { cbn. unfold drop_inserter. destruct (writer i); [by destruct Hsent |]. by destruct Hsent as [-> _]. }
  destruct (Z.eqb_spec (Z.of_nat (S (length rows))) 0) as [| _]; [lia |].
  set (data := InsertChunk.buffer (chunk i)) in *.
  assert (Hopen : exists i2 p, ensure_writer i = Val (Ok tt, i2) /\ opened k0 (connection i2) p
            /\ p ++ data = stream_of s /\ chunk i2 = chunk i).
  { unfold ensure_writer. destruct (writer i) eqn:Hw.
    - destruct Hsent as (_ & p & Ho & Hp). by exists i, p.
    - destruct Hsent as [-> Hb]. rewrite (sim_table i s Hs).
      destruct (copy_in_opened k0 Hready) as (k & -> & Ho). cbn [outcome_bind]. by eexists _, []. }
  destruct Hopen as (i2 & p & He & Ho & Hp & Hchunk).
  assert (Hdata : Z.of_nat (length data) + 4 < 2 ^ 31).
  { unfold fits in Hf. rewrite <- Hp, length_app in Hf. lia. }
  assert (Hsend : exists i3, (if negb (InsertChunk.is_empty (chunk i2))
       then on_writer (send (InsertChunk.buffer (chunk i2))) i2 else Val (Ok tt, i2)) = Val (Ok tt, i3)
       /\ opened k0 (connection i3) (stream_of s)).
  { rewrite Hchunk. unfold InsertChunk.is_empty. fold data.
    destruct (Nat.eqb_spec (InsertChunk.row_count (chunk i)) 0) as [H0 | H0]; cbn [negb].
    - rewrite (Hbuf H0 eq_refl), app_nil_r in Hp. exists i2. by rewrite <- Hp.
    - destruct (send_opened k0 _ p data Ho Hdata) as (k3 & Hsd & Ho3). unfold on_writer. rewrite Hsd.
      cbn [outcome_bind]. eexists. split; [done |]. by rewrite <- Hp. }
  destruct Hsend as (i3 & Hsd & Ho3).
  destruct (send_opened k0 _ _ (write_trailer []) Ho3) as (k4 & Htr & Ho4); [done |].
  unfold write_trailer in Ho4. rewrite app_nil_r in Ho4.
  destruct (finish_closed k0 k4 _ Ho4) as (k5 & n & Hfin' & Hclosed).
  exists n, k5. split; [| done].
  unfold ibind at 1. rewrite He. cbn [outcome_bind]. unfold ibind at 1. rewrite Hsd. cbn [outcome_bind].
  unfold on_writer. rewrite Htr. cbn [outcome_bind with_connection connection]. by rewrite Hfin'.
Qed.
End refinement.

(** ** The connection keeps the contract *)

(** The COPY data frames of some chunks. *)
Definition data_frames (chunks : list (list Z)) : list Z := chunks ≫= fun data => frame (MsgCopyData data).

Lemma data_frames_app c1 c2 : data_frames (c1 ++ c2) = data_frames c1 ++ data_frames c2.
Proof. apply bind_app. Qed.

Section raw.
Context (oc : bool) (um : Z) (Hu : 2 ^ 32 - 1 <= um) (table : list Z) (cols : list (list Z)).

(** The server accepts the COPY, and at its end reports [n] rows. *)
Context (response : CopyResponseBody.t) (n st : Z) (rest : list Z).
Context (Hquery : text_fits (copy_in_query table cols (str "HYPERBINARY"))).
Context (Hresponse : msg_ok (CopyInResponse response)) (Hn : in_u 64 n) (Hst : in_u 8 st).

Definition copy_query : list Z := frame (Query (copy_in_query table cols (str "HYPERBINARY"))).
Definition copy_tag : list Z := str "COPY " ++ fmt_u n.
Definition copy_end : list Z := encode (CommandComplete copy_tag) ++ encode (ReadyForQuery st) ++ rest.

Definition raw_ready (c : RawConnection) : Prop :=
  is_healthy c = true /\ accepting c /\ receives um c (encode (CopyInResponse response) ++ copy_end).

Definition raw_opened (c c1 : RawConnection) (p : list Z) : Prop :=
  is_healthy c1 = true /\ accepting c1 /\ receives um c1 copy_end
  /\ exists chunks, concat chunks = p
     /\ sent (stream c1) ++ write_buf c1 = sent (stream c) ++ write_buf c ++ copy_query ++ data_frames chunks.

Definition raw_closed (c c2 : RawConnection) (p : list Z) (rows : Z) : Prop :=
  rows = n /\ is_healthy c2 = true /\ receives um c2 rest /\ write_buf c2 = []
  /\ exists chunks, concat chunks = p
     /\ sent (stream c2)
        = sent (stream c) ++ write_buf c ++ copy_query ++ data_frames chunks ++ frame MsgCopyDone.

Lemma copy_tag_ascii : Forall (fun c => 32 <= c <= 90) copy_tag.
Proof.
  unfold copy_tag. apply Forall_app. split; [repeat constructor; discriminate |].
  eapply Forall_impl; [| apply fmt_u_digits; destruct Hn; lia]. cbn. lia.
Qed.

Lemma copy_tag_ok : msg_ok (CommandComplete copy_tag).
Proof.
  split.
  - cbn [fields_ok]. intros H0%list_elem_of_In. pose proof copy_tag_ascii as H.
    apply (proj1 (List.Forall_forall _ _) H) in H0. lia.
  - cbn [body]. unfold cstr. rewrite length_app. unfold copy_tag. rewrite length_app.
    pose proof (fmt_u_length n 20 ltac:(unfold in_u in Hn; lia) ltac:(lia)). simpl length. lia.
Qed.

Lemma copy_count_tag : copy_count copy_tag = Some n.
Proof.
  unfold copy_count. assert (Ha : Forall is_ascii copy_tag).
  { eapply Forall_impl; [| apply copy_tag_ascii]. unfold is_ascii. cbn. lia. }
  rewrite <- (utf8_ascii copy_tag Ha), from_utf8_utf8 by (by apply is_ascii_char).
  unfold copy_tag. rewrite (take_app_exact _ _ 5), (drop_app_exact _ _ 5) by done.
  rewrite bool_decide_true by done. rewrite trim_id; [by apply parse_u_fmt_u |].
  eapply Forall_impl; [| apply fmt_u_digits; destruct Hn; lia]. unfold is_whitespace. cbn. intros c Hc.
  repeat (rewrite orb_false_iff; split); lia.
Qed.
Lemma receives_read_only c c' :
  is_healthy c = true -> read_only c c' -> accepting c ->
  is_healthy c' = true /\ accepting c' /\ sent (stream c') = sent (stream c) /\ write_buf c' = write_buf c.
Proof.
  unfold is_healthy, accepting. intros Hh (Hw & Hs & Hb & Hd) Ha. rewrite Hd, Hw. done.
Qed.

Lemma raw_copy_in c :
  raw_ready c -> exists c', start_copy_in oc um table cols c = Val (Ok tt, c') /\ raw_opened c c' [].
Proof.
  intros (Hh & Ha & Hr). unfold start_copy_in, start_copy_in_with_format, start_copy_in_raw.
  destruct (start_simple_query_sends oc _ c Hh Ha Hquery) as (c1 & Hs & (Hr1 & Hb1 & Hd1 & Ha1 & Hw1 & Hs1)).
  revert Hs. unfold start_simple_query, cbind.
  destruct (ensure_healthy c) as [[[|] c2] |]; cbn [outcome_bind]; [| done | done].
  destruct (emit _ c2) as [[[|] c3] |]; cbn [outcome_bind]; [| done | done]. intros ->. cbn [outcome_bind].
  apply (receives_same um _ c1) in Hr; [| done | done].
  unfold budget. cbn [await_copy_in]. unfold cbind.
  destruct (read_message_encode um Hu c1 _ _ Hr Hresponse) as (c' & -> & Hr' & Hro). cbn [outcome_bind cret].
  destruct (receives_read_only c1 c') as (Hh' & Ha' & Hs' & Hw'); [| done | done |].
  { unfold is_healthy in *. congruence. }
  exists c'. split; [done |]. split_and!; try done. exists []. split; [done |].
  rewrite Hs', Hw', Hs1, Hw1. unfold copy_query, data_frames. by rewrite bind_nil_eq, !app_nil_r.
Qed.

Lemma raw_send c c1 p data :
  raw_opened c c1 p -> Z.of_nat (length data) + 4 < 2 ^ 31 ->
  exists c2, send_copy_data oc data c1 = Val (Ok tt, c2) /\ raw_opened c c2 (p ++ data).
Proof.
  intros (Hh & Ha & Hr & chunks & Hp & Hs) Hl.
  exists (mk_conn (stream c1) (read_buf c1) (write_buf c1 ++ frame (MsgCopyData data)) (desynchronized c1)).
  split; [apply (emit_frame oc (MsgCopyData data)); split; [done | cbn; lia] |].
  split_and!; try done. exists (chunks ++ [data]).
  rewrite concat_app, data_frames_app. cbn [concat stream write_buf]. rewrite Hp, app_nil_r. split; [done |].
  rewrite (app_assoc (sent _)), Hs. unfold data_frames.
  by rewrite bind_cons_eq, bind_nil_eq, app_nil_r, <- !app_assoc.
Qed.

Lemma on_stream_write_all bs c :
  accepting c ->
  exists ws, on_stream (write_all bs) c
    = Val (Ok tt, mk_conn (mk_stream (reads (stream c)) ws (sent (stream c) ++ bs) (cancels (stream c))) (read_buf c) (write_buf c)
                    (desynchronized c))
    /\ Forall (fun w => w = None) ws.
Proof.
  intros Ha. unfold on_stream. destruct (write_all_accepting bs (stream c) Ha) as (ws & -> & Hws). eauto.
Qed.

Lemma raw_send_direct c c1 p data :
  raw_opened c c1 p -> Z.of_nat (length data) + 4 < 2 ^ 31 ->
  exists c2, send_copy_data_direct data c1 = Val (Ok tt, c2) /\ raw_opened c c2 (p ++ data).
Proof.
  intros (Hh & Ha & Hr & chunks & Hp & Hs) Hl. unfold send_copy_data_direct.
  assert (Hpend : exists ws, (match write_buf c1 with
       | [] => Val (Ok tt, c1)
       | buf => (let+ _ := or_desync (on_stream (write_all buf)) in clear_write_buf) c1
       end) = Val (Ok tt, mk_conn (mk_stream (reads (stream c1)) ws (sent (stream c1) ++ write_buf c1) (cancels (stream c1))) (read_buf c1) []
                            (desynchronized c1))
       /\ Forall (fun w => w = None) ws).
  { destruct (write_buf c1) as [| b buf] eqn:Hw.
    - exists (writes (stream c1)). split; [| done]. rewrite app_nil_r, <- Hw. by destruct c1 as [[] ? ? ?].
    - destruct (on_stream_write_all (b :: buf) c1 Ha) as (ws & Ho & Hws). exists ws. split; [| done].
      unfold cbind, or_desync. by rewrite Ho. }
  destruct Hpend as (ws & Hpend & Hws). unfold cbind at 1. rewrite Hpend. cbn [outcome_bind].
  rewrite (proj2 (in_ub_spec 32 _)) by (unfold in_u; lia). cbn [negb].
  set (c2 := mk_conn _ _ _ _). unfold cbind, or_desync.
  destruct (on_stream_write_all (100 :: to_be 4 (4 + Z.of_nat (length data))) c2 Hws) as (ws2 & -> & Hws2).
  cbn [outcome_bind]. set (c3 := mk_conn _ _ _ _).
  destruct (on_stream_write_all data c3 Hws2) as (ws3 & -> & Hws3). cbn [outcome_bind].
  eexists. split; [done |]. split_and!; try done. exists (chunks ++ [data]).
  rewrite concat_app, data_frames_app. cbn [concat c2 c3 stream sent write_buf].
  rewrite Hp, !app_nil_r, Hs. split; [done |].
  unfold data_frames. rewrite bind_cons_eq, bind_nil_eq, app_nil_r. unfold frame. cbn [msg_tag msg_body].
  by rewrite <- !app_assoc.
Qed.

Lemma raw_flush c c1 p :
  raw_opened c c1 p -> exists c2, Connection.flush_stream c1 = Val (Ok tt, c2) /\ raw_opened c c2 p.
Proof.
  intros (Hh & Ha & Hr & chunks & Hp & Hs). unfold Connection.flush_stream, on_stream.
  destruct (flush_transport_accepting (stream c1) Ha) as (ws & -> & Hws). eexists. split; [done |].
  split_and!; try done. by exists chunks.
Qed.

Lemma finish_loop_end fuel c :
  (2 <= fuel)%nat -> receives um c copy_end ->
  exists c', finish_loop um fuel 0 c = Val (Ok n, c') /\ receives um c' rest /\ read_only c c'.
Proof.
  intros Hf Hr. destruct fuel as [| [| fuel]]; [lia | lia |].
  cbn [finish_loop]. unfold cbind, read_message_or_desync, or_desync.
  destruct (read_message_encode um Hu c _ _ Hr copy_tag_ok) as (c4 & -> & Hr4 & Hro4). cbn [outcome_bind].
  rewrite copy_count_tag.
  destruct (read_message_encode um Hu c4 _ _ Hr4 (ready_ok st Hst)) as (c5 & -> & Hr5 & Hro5).
  cbn [outcome_bind cret]. exists c5. split_and!; [done | done | by etransitivity].
Qed.

Lemma raw_finish c c1 p :
  raw_opened c c1 p -> exists c2 rows, finish_copy um c1 = Val (Ok rows, c2) /\ raw_closed c c2 p rows.
Proof.
  intros (Hh & Ha & Hr & chunks & Hp & Hs). unfold finish_copy.
  rewrite (cbind_ok _ _ _ _ _ (ensure_healthy_ok c1 Hh)).
  assert (Hfd : forall c c', Connection.flush c = Val (Ok tt, c') -> flush_or_desync c = Val (Ok tt, c')).
  { intros d d' E. unfold flush_or_desync, or_desync. by rewrite E. }
  destruct (flush_sends c1 Ha) as (c2 & Hf2 & (Hr2 & Hb2 & Hd2 & Ha2 & Hw2 & Hs2)).
  rewrite (cbind_ok _ _ _ _ _ (Hfd _ _ Hf2)).
  rewrite (cbind_ok _ _ _ _ _ (emit_frame oc MsgCopyDone c2 ltac:(by split))).
  match goal with |- context [emit] => idtac | |- _ =>
    destruct (flush_sends (mk_conn (stream c2) (read_buf c2) (write_buf c2 ++ frame MsgCopyDone) (desynchronized c2)) Ha2)
      as (c3 & Hf3 & (Hr3 & Hb3 & Hd3 & Ha3 & Hw3 & Hs3)) end.
  rewrite (cbind_ok _ _ _ _ _ (Hfd _ _ Hf3)). cbn [stream read_buf write_buf desynchronized] in *.
  apply (receives_same um _ c3) in Hr; [| congruence | congruence].
  destruct (finish_loop_end POST_ERROR_DRAIN_CAP c3) as (c5 & Hl & Hr5 & Hro); [unfold POST_ERROR_DRAIN_CAP; lia | done |].
  exists c5, n. split; [done |].
  destruct (receives_read_only c3 c5) as (Hh' & Ha' & Hs' & Hw'); [| done | done |].
  { unfold is_healthy in *. congruence. }
  unfold raw_closed. split_and!; try done; [congruence |]. exists chunks. split; [done |].
  rewrite Hs', Hs3, Hs2, Hw2. cbn [app]. rewrite Hs. by rewrite <- !app_assoc.
Qed.

Definition raw_contract : @CopyWriterSpec RawConnection (raw_copy_writer oc um) table cols :=
  Build_CopyWriterSpec RawConnection (raw_copy_writer oc um) table cols raw_ready raw_opened raw_closed
    raw_copy_in raw_send raw_send_direct raw_flush raw_finish.
End raw.

(** With columns, the stream of whole rows is the header and their cells. *)
Lemma stream_of_rows tdef s :
  columns tdef <> [] -> rows_wide tdef s -> current s = [] -> finished s <> [] ->
  stream_of s = HYPER_BINARY_HEADER ++ concat (concat (finished s)).
Proof.
  intros Hne Hw Hcur Hfin. unfold stream_of, cells. rewrite Hcur, app_nil_r.
  destruct (concat (finished s)) as [| cell cs] eqn:E; [exfalso | done].
  unfold rows_wide in Hw. destruct (finished s) as [| row rows]; [done |].
  apply Forall_cons_1 in Hw as [Hw _]. cbn [concat] in E. apply app_eq_nil in E as [-> _].
  unfold nullables in Hw. rewrite length_fmap in Hw. by destruct (columns tdef).
Qed.

(** ** The properties *)

(** C22. The inserter is the table of its rows, however it cuts them into chunks. For
    any connection that keeps the contract and any calls, each call returns what the
    specification does: a row with too many or too few columns, a NULL in a NOT
    NULL column or a value that is too long is refused and adds nothing. Executing
    refuses a row in progress, touches nothing when there are no rows, and otherwise
    closes the COPY with one header and every cell of every row, in order, once. *)
Theorem inserter_refines {K} `{!CopyWriter K} oc debug tdef
    `{!CopyWriterSpec K (qualified_name tdef) (col_name <$> columns tdef)} k0 calls :
  let spec := spec_calls tdef calls no_rows in
  columns tdef <> [] -> ready k0 -> Forall call_ok calls -> fits spec.2 ->
  exists i i', inserter_new debug (Some k0) tdef = Val (Ok i)
    /\ run_calls oc calls i = Val (spec.1, i')
    /\ match current spec.2, finished spec.2 with
       | _ :: _, _ => execute i' = let! k := drop_inserter i' in Val (Err incomplete_row, k)
       | [], [] => execute i' = Val (Ok 0, k0)
       | [], _ => exists n k, execute i' = Val (Ok n, k) /\ closed k0 k (stream_of spec.2) n
       end.
Proof.
  intros spec Hne Hready Hcs Hf. destruct (new_ok tdef k0 debug Hne) as [i Hi]. exists i.
  destruct (calls_sim oc tdef k0 calls i no_rows Hready (new_sim tdef k0 debug i Hi) Hcs Hf) as (i' & Hr & Hs).
  exists i'. split_and!; [done | done | by apply (execute_sim tdef k0)].
Qed.

(** A table of an optional number and a required text. *)
Definition sample_table : TableDefinition :=
  add_required_column (str "name") SqlTypes.Text
    (add_nullable_column (str "id") SqlTypes.Int (with_schema (str "s") (table_new (str "t")))).

Definition sample_response : CopyResponseBody.t := CopyResponseBody.mk 0 0 [].

(** The server accepts the COPY, in two reads, and reports two rows. *)
Definition sample_server : RawConnection :=
  new (mk_stream [Data (take 4 (encode (CopyInResponse sample_response)));
                  Data (drop 4 (encode (CopyInResponse sample_response)) ++ copy_end 2 73 [])] [] [] []).

Definition sample_calls : list Call :=
  [AddRow [VChunk (VI32 7); VChunk (VStr [97])]; Flush; Add VNull; Add VNull; Add (VStr []); EndRow].

Lemma sample_contract :
  @CopyWriterSpec RawConnection (raw_copy_writer true (2 ^ 64 - 1)) (qualified_name sample_table)
    (col_name <$> columns sample_table).
Proof.
  apply (raw_contract true (2 ^ 64 - 1)) with (response := sample_response) (n := 2) (st := 73) (rest := []).
  - lia.
  - vm_compute. done.
  - split; vm_compute; intuition discriminate.
  - vm_compute. intuition discriminate.
  - vm_compute. intuition discriminate.
Defined.

Lemma sample_ready : raw_ready (2 ^ 64 - 1) sample_response 2 73 [] sample_server.
Proof.
  split_and!; [done | constructor |]. unfold receives. split_and!.
  - repeat constructor; vm_compute; discriminate.
  - vm_compute. done.
  - vm_compute. repeat constructor; discriminate.
  - vm_compute. discriminate.
Qed.

Lemma inserter_refines_witness :
  exists (i i' : Inserter RawConnection),
    @run_calls RawConnection (raw_copy_writer true (2 ^ 64 - 1)) true sample_calls i
    = Val ([Ok tt; Ok tt; Ok tt; Err null_not_allowed; Ok tt; Ok tt], i').
Proof.
  destruct (@inserter_refines RawConnection (raw_copy_writer true (2 ^ 64 - 1)) true true sample_table
    sample_contract sample_server sample_calls) as (i & i' & _ & Hr & _).
  - done.
  - exact sample_ready.
  - repeat constructor.
  - vm_compute. done.
  - exists i, i'. exact Hr.
Defined.

(** C3. On the wire: against a server that accepts the COPY and reports [n] rows, the
    inserter's program sends the COPY statement, CopyData messages whose contents
    together are the header and the cells of all rows, and CopyDone; it returns the
    server's count and leaves the connection healthy, in step with the server. *)
Theorem inserter_wire oc um debug tdef response n st rest c calls :
  let spec := spec_calls tdef calls no_rows in
  let query := copy_in_query (qualified_name tdef) (col_name <$> columns tdef) (str "HYPERBINARY") in
  2 ^ 32 - 1 <= um -> columns tdef <> [] -> text_fits query -> msg_ok (CopyInResponse response) ->
  in_u 64 n -> in_u 8 st -> is_healthy c = true -> accepting c ->
  receives um c (encode (CopyInResponse response) ++ encode (CommandComplete (copy_tag n))
                 ++ encode (ReadyForQuery st) ++ rest) ->
  Forall call_ok calls -> fits spec.2 -> current spec.2 = [] -> finished spec.2 <> [] ->
  exists i i' c' chunks,
    @inserter_new RawConnection debug (Some c) tdef = Val (Ok i)
    /\ @run_calls RawConnection (raw_copy_writer oc um) oc calls i = Val (spec.1, i')
    /\ @execute RawConnection (raw_copy_writer oc um) i' = Val (Ok n, c')
    /\ is_healthy c' = true /\ receives um c' rest
    /\ sent (stream c') = sent (stream c) ++ write_buf c
         ++ frame (Query query) ++ data_frames chunks ++ frame MsgCopyDone
    /\ concat chunks = HYPER_BINARY_HEADER ++ concat (concat (finished spec.2)).
Proof.
  intros spec query Hu Hne Hq Hresp Hn Hst Hh Ha Hr Hcs Hf Hcur Hfin.
  pose (contract := raw_contract oc um Hu _ _ response n st rest Hq Hresp Hn Hst).
  destruct (new_ok tdef c debug Hne) as [i Hi].
  assert (Hready : @ready _ _ _ _ contract c) by done.
  destruct (@calls_sim _ _ oc tdef contract c calls i no_rows Hready (@new_sim _ _ tdef contract c debug i Hi) Hcs Hf)
    as (i' & Hrun & Hs).
  pose proof (@execute_sim _ _ tdef contract c i' _ Hready Hs Hf) as He. fold spec in He, Hs.
  pose proof (stream_of_rows tdef spec.2 Hne (spec_calls_wide tdef calls no_rows (Forall_nil_2 _))
                Hcur Hfin) as Hstream.
  rewrite Hcur in He. destruct (finished spec.2) as [| row rows] eqn:Hrows; [done |].
  destruct He as (m & c' & He & (-> & Hh' & Hr' & _ & chunks & Hch & Hsent)).
  exists i, i', c', chunks. split_and!; try done.
  by rewrite Hch, Hstream.
Qed.

(** The calls without the row that is refused. *)
Lemma inserter_wire_witness :
  let raw := raw_copy_writer true (2 ^ 64 - 1) in
  exists (i i' : Inserter RawConnection) c' chunks,
    @run_calls RawConnection raw true sample_calls i
    = Val ([Ok tt; Ok tt; Ok tt; Err null_not_allowed; Ok tt; Ok tt], i')
    /\ @execute RawConnection raw i' = Val (Ok 2, c') /\ is_healthy c' = true
    /\ concat chunks = HYPER_BINARY_HEADER ++ [0; 7; 0; 0; 0; 1; 0; 0; 0; 97; 1; 0; 0; 0; 0].
Proof.
  destruct (inserter_wire true (2 ^ 64 - 1) true sample_table sample_response 2 73 [] sample_server sample_calls)
    as (i & i' & c' & chunks & _ & Hrun & He & Hh & _ & _ & Hch).
  - lia.
  - done.
  - vm_compute. done.
  - split; vm_compute; intuition discriminate.
  - vm_compute. intuition discriminate.
  - vm_compute. intuition discriminate.
  - done.
  - constructor.
  - apply sample_ready.
  - repeat constructor.
  - vm_compute. done.
  - done.
  - done.
  - exists i, i', c', chunks. split_and!; [exact Hrun | exact He | exact Hh | exact Hch].
Defined.

(** A flush that cannot open its COPY drops the rows it took: the error is
    returned, the buffer is empty while the rows stay counted, and when a COPY opens
    later, executing sends no row and reports success with the server's count. *)
Theorem failed_flush_loses_rows {K} `{CopyWriter K} (i : Inserter K) e k1 k2 k3 k4 n :
  writer i = false -> InsertChunk.row_count (chunk i) <> 0%nat ->
  InsertChunk.column_index (chunk i) = 0%nat -> row_count i <> 0 ->
  copy_in (qualified_name (table_def i)) (col_name <$> columns (table_def i)) (connection i) = Val (Err e, k1) ->
  exists i1, flush i = Val (Err (FromClient e), i1)
    /\ InsertChunk.buffer (chunk i1) = [] /\ row_count i1 = row_count i
    /\ (copy_in (qualified_name (table_def i)) (col_name <$> columns (table_def i)) k1 = Val (Ok tt, k2) ->
        send [] k2 = Val (Ok tt, k3) -> finish k3 = Val (Ok n, k4) ->
        execute i1 = Val (Ok n, k4)).
Proof.
  intros Hw Hrows Hcol Hcount Hc. unfold flush, InsertChunk.is_empty, InsertChunk.take.
  destruct (Nat.eqb_spec (InsertChunk.row_count (chunk i)) 0) as [| _]; [done |].
  unfold ibind at 1, ensure_writer. cbn [with_chunk writer connection table_def]. rewrite Hw, Hc.
  cbn [outcome_bind]. eexists. split; [done |]. split; [done |]. split; [done |].
  intros Hc2 Hs Hf. unfold execute. cbn. rewrite Hcol. cbn [Nat.eqb negb].
  destruct (Z.eqb_spec (row_count i) 0) as [| _]; [done |].
  unfold ibind at 1, ensure_writer. cbn. rewrite Hw, Hc2. cbn [outcome_bind].
  unfold ibind, on_writer, write_trailer. cbn. rewrite Hs. cbn [outcome_bind with_connection connection]. by rewrite Hf.
Qed.

(** A connection on which the first COPY is refused, counting what is sent. *)
Definition flaky_writer : CopyWriter (nat * list Z) := {|
  copy_in := fun _ _ k => Val (if (k.1 =? 0)%nat then Err (Io (Msg "refused")) else Ok tt, (S k.1, k.2));
  send := fun data k => Val (Ok tt, (k.1, k.2 ++ data));
  send_direct := fun data k => Val (Ok tt, (k.1, k.2 ++ data));
  flush_stream := fun k => Val (Ok tt, k);
  finish := fun k => Val (Ok 0, k);
  cancel := fun _ k => Val (Ok tt, k);
  drop_writer := fun k => Val k;
|}.

(** What a chunk's writer of a fixed cell does, undisturbed. *)
Lemma add_with_cell c w wn cell :
  (forall buf, w buf = Val (buf ++ 0 :: cell)) -> (forall buf, wn buf = Val (buf ++ cell)) ->
  (InsertChunk.column_index c < InsertChunk.column_count c)%nat ->
  exists c', InsertChunk.add_with w wn c = Val (Ok tt, c')
    /\ InsertChunk.buffer c' = InsertChunk.buffer (InsertChunk.ensure_header c)
         ++ (if InsertChunk.current_column_nullable c then [0] else []) ++ cell
    /\ InsertChunk.column_index c' = S (InsertChunk.column_index c).
Proof.
  intros Hw Hwn Hlt. unfold InsertChunk.add_with. rewrite (proj2 (Nat.leb_gt _ _) Hlt). cbv zeta.
  assert (Hs : InsertChunk.current_column_nullable (InsertChunk.ensure_header c) = InsertChunk.current_column_nullable c
            /\ InsertChunk.column_index (InsertChunk.ensure_header c) = InsertChunk.column_index c)
    by (unfold InsertChunk.ensure_header; by destruct (InsertChunk.header_written c)).
  destruct Hs as [-> Hi]. destruct (InsertChunk.current_column_nullable c); rewrite ?Hw, ?Hwn; cbn [outcome_bind];
    eexists; (split; [reflexivity |]); cbn; by rewrite Hi.
Qed.

(** The cell of a decimal: 8 bytes up to 18 digits, else 16. *)
Definition numeric_width (precision : Z) : nat :=
  if precision <=? SqlTypes.SMALL_NUMERIC_MAX_PRECISION then 8%nat else 16%nat.

(** The chunk method [add_numeric] ends in. *)
Lemma numeric_cell_written c p u :
  (InsertChunk.column_index c < InsertChunk.column_count c)%nat ->
  exists c', (if p <=? SqlTypes.SMALL_NUMERIC_MAX_PRECISION then InsertChunk.add_i64 u
              else InsertChunk.add_data128 (to_le 16 u)) c = Val (Ok tt, c')
    /\ InsertChunk.buffer c' = InsertChunk.buffer (InsertChunk.ensure_header c)
         ++ (if InsertChunk.current_column_nullable c then [0] else []) ++ to_le (numeric_width p) u
    /\ InsertChunk.column_index c' = S (InsertChunk.column_index c).
Proof. intros Hlt. unfold numeric_width. by destruct (p <=? _); apply add_with_cell. Qed.

Lemma numeric_cell_read p u s :
  in_i (8 * Z.of_nat (numeric_width p)) u ->
  Numeric.from_binary_with_scale (to_le (numeric_width p) u) s = Ok (Numeric.mk u s).
Proof.
  intros Hu. unfold Numeric.from_binary_with_scale. rewrite length_to_le.
  assert (Hw : i_of_le (to_le (numeric_width p) u) = u)
    by (apply i_of_le_to_le; [unfold numeric_width; by case_match; lia | done]).
  revert Hw. unfold numeric_width. by destruct (p <=? _); intros Hw; unfold Numeric.decode_int64, Numeric.decode; rewrite Hw.
Qed.

(** C33. A decimal arrives as the number it is. In a column declared NUMERIC(p, s)
    [add_numeric] succeeds exactly when some integer that fits the column's storage,
    64 bits up to 18 digits and 128 beyond, is at scale [s] the same decimal number,
    the scales being at most 38 apart. Then it appends one cell of that width, after
    the indicator of a nullable column, and reading the cell back with the column's
    scale gives that number; otherwise the inserter is left as it was. In any other
    column it is refused. *)
Theorem numeric_stored {K} (i : Inserter K) n :
  Numeric.wf n -> (InsertChunk.column_index (chunk i) < InsertChunk.column_count (chunk i))%nat ->
  match numeric_type_at (table_def i) (InsertChunk.column_index (chunk i)) with
  | None => exists e, add_numeric n i = Val (Err e, i)
  | Some (p, s) => 0 <= s ->
      (exists u c', add_numeric n i = Val (Ok tt, with_chunk c' i)
        /\ InsertChunk.column_index c' = S (InsertChunk.column_index (chunk i))
        /\ InsertChunk.buffer c' = InsertChunk.buffer (InsertChunk.ensure_header (chunk i))
             ++ (if InsertChunk.current_column_nullable (chunk i) then [0] else []) ++ to_le (numeric_width p) u
        /\ Numeric.from_binary_with_scale (to_le (numeric_width p) u) s = Ok (Numeric.mk u s)
        /\ u * 10 ^ Numeric.scale n = Numeric.value n * 10 ^ s)
      \/ (exists e, add_numeric n i = Val (Err e, i))
         /\ forall u, Z.abs (Numeric.scale n - s) <= 38 -> in_i (8 * Z.of_nat (numeric_width p)) u ->
              u * 10 ^ Numeric.scale n <> Numeric.value n * 10 ^ s
  end.
Proof.
  intros Hn Hlt. unfold add_numeric, numeric_for_column.
  destruct (numeric_type_at _ _) as [[p s] |] eqn:Ht; [intros Hs | by eexists].
  assert (Hw : forall u, in_i (8 * Z.of_nat (numeric_width p)) u -> in_i 128 u)
    by (unfold numeric_width, in_i; intros u; case_match; simpl; lia).
  destruct (rescale_numeric n s) as [u | reason] eqn:Hr.
  - pose proof (proj1 (rescale_iff n s u Hn Hs) Hr) as (_ & Hu & Heq). cbn [outcome_bind].
    destruct (numeric_cell_written (chunk i) p u Hlt) as (c' & Hc & Hbuf & Hidx).
    assert (Hin : in_i (8 * Z.of_nat (numeric_width p)) u \/
                  (p <=? SqlTypes.SMALL_NUMERIC_MAX_PRECISION) = true /\ in_ib 64 u = false).
    { unfold numeric_width. destruct (p <=? _); [| by left]. destruct (in_ib 64 u) eqn:E; [left | by right].
      by apply in_ib_spec in E. }
    destruct Hin as [Hin | [Hsmall Hbig]]; [| rewrite Hsmall, Hbig].
    + left. exists u, c'. split; [| split_and!; [done | done | by apply numeric_cell_read | done]].
      revert Hc Hin. unfold numeric_width, on_chunk. destruct (p <=? _); intros Hc Hin; [| by rewrite Hc].
      rewrite (proj2 (in_ib_spec 64 u)) by exact Hin. by rewrite Hc.
    + right. split; [by eexists |]. intros w Hfar Hwin Hweq.
      pose proof (proj2 (rescale_iff n s w Hn Hs) (conj Hfar (conj (Hw w Hwin) Hweq))) as Hok.
      assert (w = u) as -> by congruence. revert Hwin. unfold numeric_width. rewrite Hsmall. intros Hwin.
      apply (in_ib_spec 64) in Hwin. congruence.
  - right. rewrite display_eq by done. split; [by eexists |]. intros u Hfar Hu Hueq.
    pose proof (proj2 (rescale_iff n s u Hn Hs) (conj Hfar (conj (Hw u Hu) Hueq))) as Hok. congruence.
Qed.

Definition priced_table : TableDefinition := add_nullable_column (str "price") (SqlTypes.Numeric 10 2) (table_new (str "t")).

Lemma numeric_stored_witness :
  let i := mk_inserter tt priced_table (InsertChunk.mk [] false 0 1 0 [true]) 0 0 false in
  exists c', add_numeric (Numeric.mk 12345 1) i = Val (Ok tt, with_chunk c' i)
    /\ InsertChunk.buffer c' = HYPER_BINARY_HEADER ++ [0] ++ to_le 8 123450.
Proof.
  intros i.
  destruct (numeric_stored i (Numeric.mk 12345 1)) as [(u & c' & Hadd & _ & Hbuf & _ & Heq) | [_ Hno]].
  - split; unfold in_i, in_u; simpl; lia.
  - simpl. lia.
  - lia.
  - exists c'. split; [exact Hadd |]. assert (u = 123450) as -> by (cbn in Heq; lia). exact Hbuf.
  - exfalso. apply (Hno 123450); [by vm_compute | unfold in_i; cbn; lia | by vm_compute].
Defined.
