(* ===== verification/Mapped.v ===== *)
(** * Inserting through expressions

    [ColumnMapping], [MappedInserter] and [StagingTable] of
    [hyperdb-api/src/inserter.rs]: rows go into a temporary table by COPY and from there
    into the target by INSERT ... SELECT. A statement must not run while the COPY of the
    inner inserter holds the lock of the connection; [locking] is a connection that
    has that lock. *)

From stdpp Require Import strings.
From S2P Require Import Prelude Text SqlEscape Backend Frontend Connection Api Session TableDef Inserter.

(** ** [ColumnMapping] *)

Record ColumnMapping : Type := mk_mapping { column_name : list Z; expression : option (list Z) }.

Definition mapping_new (column_name : list Z) : ColumnMapping := mk_mapping column_name None.
Definition with_expression (column_name expression : list Z) : ColumnMapping := mk_mapping column_name (Some expression).
Definition is_direct (m : ColumnMapping) : bool := match expression m with None => true | Some _ => false end.

Definition to_select_item (m : ColumnMapping) : list Z :=
  match expression m with
  | Some expr => expr ++ str " AS " ++ quoted 34 (column_name m)
  | None => quoted 34 (column_name m)
  end.

(** ** [StagingTable] *)

Record StagingTable : Type := mk_staging { staging_name : list Z; dropped : bool }.

Definition drop_sql (name : list Z) : list Z := str "DROP TABLE IF EXISTS " ++ SqlIdentifier name.

(** The errors of an inserter as those of the API. *)
Definition lift (show_io : io_payload -> list Z) (e : ApiError) : Api.Error :=
  match e with
  | InvalidTableDefinition m => Api.InvalidTableDefinition m
  | ConversionError m => Api.Conversion m
  | FeatureNotSupportedError m => Api.FeatureNotSupported m
  | Inserter.Internal m => Api.Internal m
  | FromClient e => from_client show_io e
  end.

Section mapped.
Context {K : Type} `{SqlClient K} `{CopyWriter K} (debug_assertions : bool) (show_io : io_payload -> list Z).

Definition drop_now (s : StagingTable) (k : K) : outcome (result unit Api.Error * StagingTable * K) :=
  if dropped s then Val (Ok tt, s, k)
  else
    let! r := run (drop_sql (staging_name s)) k in
    Val (match r.1 with Ok _ => Ok tt | Err e => Err e end, mk_staging (staging_name s) true, r.2).

(** [Drop]: [busy] is the answer of the try-lock, which a live stream of the same
    thread may hold. Failures are logged. *)
Definition drop_staging (panicking busy : bool) (s : StagingTable) (k : K) : outcome K :=
  if dropped s || panicking || busy then Val k
  else let! r := run (drop_sql (staging_name s)) k in Val r.2.

(** ** [MappedInserter] *)

Record MappedInserter : Type := mk_mapped {
  inner : Inserter K;
  target_table : TableName.t;
  mappings : list ColumnMapping;
  staging : StagingTable;
}.

Definition staging_table_name (pid counter : Z) : list Z :=
  str "_hyper_staging_" ++ fmt_u pid ++ str "_" ++ fmt_u counter.

Definition staging_def (name : list Z) (inserter_def : TableDefinition) : TableDefinition :=
  with_persistence Temporary (set_table_name name inserter_def).

(** [counter] is what [fetch_add] returned; the connection is not gRPC's. *)
Definition mapped_new (pid counter : Z) (k : K) (inserter_def : TableDefinition) (target_table : TableName.t)
    (mappings : list ColumnMapping) : outcome (result MappedInserter Api.Error * K) :=
  let name := staging_table_name pid counter in
  let def := staging_def name inserter_def in
  match to_create_sql def true with
  | Err m => Val (Err (Api.InvalidTableDefinition m), k)
  | Ok create_sql =>
      let! r := run create_sql k in
      match r with
      | (Err e, k) => Val (Err e, k)
      | (Ok _, k) =>
          let staging := mk_staging name false in
          let! r := inserter_new debug_assertions (Some k) def in
          match r with
          | Err e => let! k := drop_staging false false staging k in Val (Err (lift show_io e), k)
          | Ok inner => Val (Ok (mk_mapped inner target_table mappings staging), k)
          end
      end
  end.

(** The [add_*] methods and [end_row] forward to [inner]. *)
Definition mapped_call (overflow_checks : bool) (c : Call) (m : MappedInserter) :
    outcome (result unit Api.Error * MappedInserter) :=
  let! r := run_call overflow_checks c (inner m) in
  Val (match r.1 with Ok _ => Ok tt | Err e => Err (lift show_io e) end,
       mk_mapped r.2 (target_table m) (mappings m) (staging m)).

Definition insert_sql (m : MappedInserter) : list Z :=
  str "INSERT INTO " ++ TableName.display (target_table m)
  ++ str " (" ++ join (str ", ") ((fun c => SqlIdentifier (column_name c)) <$> mappings m)
  ++ str ") SELECT " ++ join (str ", ") (to_select_item <$> mappings m)
  ++ str " FROM " ++ SqlIdentifier (staging_name (staging m)).

(** Leaving by [?] drops [staging]. *)
Definition mapped_execute (busy : bool) (m : MappedInserter) : outcome (result Z Api.Error * K) :=
  let! r := execute (inner m) in
  match r with
  | (Err e, k) => let! k := drop_staging false busy (staging m) k in Val (Err (lift show_io e), k)
  | (Ok _, k) =>
      let! r := run (insert_sql m) k in
      match r with
      | (Err e, k) => let! k := drop_staging false busy (staging m) k in Val (Err e, k)
      | (Ok row_count, k) =>
          let! r := drop_now (staging m) k in
          let '(v, s, k) := r in
          let! k := drop_staging false busy s k in
          Val (match v with Ok _ => Ok row_count | Err e => Err e end, k)
      end
  end.

(** The fields drop after it, [inner] first. *)
Definition mapped_cancel (busy : bool) (m : MappedInserter) : outcome K :=
  let! inner := cancel_in_place (inner m) in
  let! r := drop_now (staging m) (connection inner) in
  let '(_, s, k) := r in
  let! k := drop_inserter (with_connection k inner) in
  drop_staging false busy s k.

(** A mapped inserter that goes out of scope, on a thread that does not panic. *)
Definition drop_mapped (busy : bool) (m : MappedInserter) : outcome K :=
  let! k := drop_inserter (inner m) in
  drop_staging false busy (staging m) k.
End mapped.
Arguments MappedInserter : clear implicits.

(** ** The lock of the connection

    A COPY holds the lock from the moment it opens until its writer is finished,
    cancelled or dropped. A request that would wait for it never returns, since the
    thread that waits is the one that holds it: [Panic] stands for that. *)

Record Locked (K : Type) : Type := mk_locked { unlocked : K; held : bool; statements : list (list Z) }.
Arguments mk_locked {K} _ _ _.
Arguments unlocked {K} _.
Arguments held {K} _.
Arguments statements {K} _.

#[export] Instance locking_client {K} `{SqlClient K} : SqlClient (Locked K) := {
  run sql l :=
    if held l then Panic
    else let! r := run sql (unlocked l) in Val (r.1, mk_locked r.2 false (statements l ++ [sql]));
  close_client l :=
    if held l then Panic
    else let! r := close_client (unlocked l) in Val (r.1, mk_locked r.2 false (statements l));
}.

(** A call of a writer there is none of does not type-check in the source. *)
Definition of_writer {K A} (f : K -> outcome (A * K)) (still : bool) (l : Locked K) : outcome (A * Locked K) :=
  if held l then let! r := f (unlocked l) in Val (r.1, mk_locked r.2 still (statements l)) else Panic.

#[export] Instance locking_writer {K} `{CopyWriter K} : CopyWriter (Locked K) := {
  copy_in table cols l :=
    if held l then Panic
    else let! r := copy_in table cols (unlocked l) in Val (r.1, mk_locked r.2 (is_ok r.1) (statements l));
  send data := of_writer (send data) true;
  send_direct data := of_writer (send_direct data) true;
  flush_stream := of_writer flush_stream true;
  finish := of_writer finish false;
  cancel message := of_writer (cancel message) false;
  drop_writer l :=
    if held l then let! k := drop_writer (unlocked l) in Val (mk_locked k false (statements l)) else Panic;
}.

(** ** The inserter under the lock *)

Section locked.
Context {K : Type} `{SqlClient K} `{CopyWriter K} (log : list (list Z)).

(** The lock is held exactly while the inserter has a writer. *)
Definition lock (i : Inserter K) : Inserter (Locked K) :=
  mk_inserter (mk_locked (connection i) (writer i) log) (table_def i) (chunk i) (row_count i) (chunk_count i) (writer i).

(** Where [P] holds, [m] under the lock does what [m'] does without. *)
Definition unhindered (P : Inserter K -> Prop) (m : Op (K := Locked K)) (m' : Op (K := K)) : Prop :=
  forall i, P i -> m (lock i) = let! r := m' i in Val (r.1, lock r.2).

Definition always (i : Inserter K) : Prop := True.
Definition has_writer (i : Inserter K) : Prop := writer i = true.

Lemma unhindered_weaken P Q m m' : (forall i, P i -> Q i) -> unhindered Q m m' -> unhindered P m m'.
Proof. intros Hpq Hm i Hi. apply Hm, Hpq, Hi. Qed.

Lemma unhindered_ibind P Q m1 m1' m2 m2' :
  unhindered P m1 m1' -> (forall i i', P i -> m1' i = Val (Ok tt, i') -> Q i') -> unhindered Q m2 m2' ->
  unhindered P (ibind m1 m2) (ibind m1' m2').
Proof.
  intros H1 Hq H2 i Hi. unfold ibind. rewrite (H1 i Hi). destruct (m1' i) as [[[[] | e] i'] |] eqn:E; cbn [outcome_bind fst snd];
    [| done | done]. apply H2. by eapply Hq.
Qed.

Lemma unhindered_ok P : unhindered P (fun i => Val (Ok tt, i)) (fun i => Val (Ok tt, i)).
Proof. by intros i _. Qed.

Lemma unhindered_on_chunk op : unhindered always (on_chunk op) (on_chunk op).
Proof. intros i _. unfold on_chunk. cbn [lock chunk]. by destruct (op (chunk i)) as [[r c] |]. Qed.

Lemma unhindered_ensure_writer : unhindered always ensure_writer ensure_writer.
Proof.
  intros i _. unfold ensure_writer. cbn [lock writer table_def connection].
  destruct (writer i) eqn:Hw; [by cbn; unfold lock; rewrite Hw |]. cbn [copy_in locking_writer held unlocked statements].
  destruct (copy_in _ _ (connection i)) as [[[[] | e] k] |]; cbn; [done | | done].
  unfold lock, with_connection. cbn. by rewrite Hw.
Qed.

Lemma ensure_writer_opens i i' : ensure_writer i = Val (Ok tt, i') -> has_writer i'.
Proof.
  unfold ensure_writer, has_writer. destruct (writer i) eqn:Hw; [by intros [= <-] |].
  destruct (copy_in _ _ _) as [[[[] | e] k] |]; cbn; [by intros [= <-] | done | done].
Qed.

Lemma unhindered_on_writer f : unhindered has_writer (on_writer (of_writer f true)) (on_writer f).
Proof.
  intros i Hw. unfold on_writer, of_writer, has_writer in *. cbn [lock connection held unlocked statements]. rewrite Hw.
  destruct (f (connection i)) as [[[[] | e] k] |]; cbn; [| | done]; unfold lock, with_connection; cbn; by rewrite Hw.
Qed.

Lemma on_writer_keeps f i i' : has_writer i -> on_writer f i = Val (Ok tt, i') -> has_writer i'.
Proof.
  unfold on_writer, has_writer. intros Hw. destruct (f _) as [[[[] | e] k] |]; cbn; [by intros [= <-] | done | done].
Qed.

Lemma unhindered_flush : unhindered always flush flush.
Proof.
  intros i _. unfold flush. change (chunk (lock i)) with (chunk i). destruct (InsertChunk.is_empty (chunk i)); [done |].
  destruct (InsertChunk.take (chunk i)) as [[buffer |] taken]; [| done]. change (with_chunk taken (lock i)) with (lock (with_chunk taken i)).
  eapply (unhindered_ibind always has_writer); [exact unhindered_ensure_writer | by intros ? ? _ ?%ensure_writer_opens | | done].
  eapply (unhindered_ibind _ has_writer); [apply unhindered_on_writer | apply on_writer_keeps |].
  eapply (unhindered_ibind _ always); [apply unhindered_on_writer | done | by intros ? _].
Qed.

Lemma unhindered_end_row : unhindered always end_row end_row.
Proof.
  eapply (unhindered_ibind _ always); [apply unhindered_on_chunk | done |]. intros i _. cbn [lock chunk].
  destruct (InsertChunk.should_flush (chunk i)); [| done].
  apply (unhindered_flush (mk_inserter (connection i) (table_def i) (chunk i) (Inserter.row_count i + 1) (chunk_count i) (writer i))).
  done.
Qed.

Lemma unhindered_add_value oc v : unhindered always (add_value oc v) (add_value oc v).
Proof.
  destruct v as [v | n]; [apply unhindered_on_chunk |]. intros i _. cbn [add_value]. unfold add_numeric.
  cbn [lock table_def chunk]. destruct (numeric_for_column _ _ _) as [[[precision unscaled] | e] |]; cbn [outcome_bind]; [| done | done].
  repeat case_match; try done; by apply unhindered_on_chunk.
Qed.

Lemma unhindered_add_values oc values : unhindered always (add_values oc values) (add_values oc values).
Proof.
  induction values as [| v values IH]; [apply unhindered_ok |].
  eapply (unhindered_ibind _ always); [apply unhindered_add_value | done | exact IH].
Qed.

Lemma unhindered_call oc c : unhindered always (run_call oc c) (run_call oc c).
Proof.
  destruct c as [v | | | values]; [apply unhindered_add_value | apply unhindered_end_row | apply unhindered_flush |].
  intros i _. cbn [run_call]. unfold add_row. cbn [lock table_def]. destruct (negb _); [done |].
  eapply (unhindered_ibind _ always); [apply unhindered_add_values | done | apply unhindered_end_row | done].
Qed.

Lemma drop_locked i : drop_inserter (lock i) = let! k := drop_inserter i in Val (mk_locked k false log).
Proof. unfold drop_inserter. cbn. destruct (writer i) eqn:Hw; cbn; rewrite ?Hw; [by destruct (drop_writer _) | done]. Qed.

Lemma cancel_locked i : cancel_in_place (lock i) = let! i := cancel_in_place i in Val (lock i).
Proof.
  unfold cancel_in_place. cbn. destruct (writer i) eqn:Hw; cbn; [| by unfold lock; rewrite Hw].
  by destruct (cancel _ _) as [[? ?] |].
Qed.

(** Executing closes the COPY whatever happens. *)
Lemma execute_locked i : execute (lock i) = let! r := execute i in Val (r.1, mk_locked r.2 false log).
Proof.
  unfold execute. rewrite !drop_locked. cbn [lock chunk Inserter.row_count].
  destruct (negb _); [by destruct (drop_inserter i) |]. destruct (_ =? 0); [by destruct (drop_inserter i) |].
  match goal with |- context [outcome_bind (ibind ?a ?b (lock i)) _] => set (m := ibind a b) end.
  match goal with |- context [outcome_bind (ibind ?a ?b i) _] => set (m' := ibind a b) end.
  assert (unhindered always m m' /\ forall j, m' i = Val (Ok tt, j) -> has_writer j) as [Hm Hopen].
  { split.
    - eapply (unhindered_ibind _ has_writer); [apply unhindered_ensure_writer | by intros ? ? _ ?%ensure_writer_opens |].
      eapply (unhindered_ibind _ has_writer); [| | apply unhindered_on_writer].
      + intros j Hj. cbn [lock chunk]. destruct (negb _); [by apply unhindered_on_writer | done].
      + intros j j' Hj. destruct (negb _); [by apply on_writer_keeps | by intros [= <-]].
    - intros j. subst m'. unfold ibind at 1. destruct (ensure_writer i) as [[[[] | e] i1] |] eqn:E; cbn [outcome_bind]; [| done | done].
      apply ensure_writer_opens in E. unfold ibind.
      destruct (negb _); [destruct (on_writer _ i1) as [[[[] | e] i2] |] eqn:E2; cbn [outcome_bind]; [| done | done];
        apply on_writer_keeps in E2; [| done] |]; by apply on_writer_keeps. }
  rewrite (Hm i I). destruct (m' i) as [[[[] | e] j] |] eqn:Ej; cbn [outcome_bind fst snd]; [| by rewrite drop_locked; destruct (drop_inserter j) | done].
  specialize (Hopen j eq_refl). unfold has_writer in Hopen. cbn [lock connection]. cbn [finish locking_writer of_writer held unlocked statements]. unfold of_writer. cbn. rewrite Hopen.
  by destruct (finish (connection j)) as [[[n | e] k] |].
Qed.
End locked.

(** ** Statements of a mapped inserter *)

(** A writer whose methods return. *)
Class TotalWriter (K : Type) `{CopyWriter K} := {
  copy_in_total : forall table cols (k : K), exists r k', copy_in table cols k = Val (r, k');
  send_total : forall data (k : K), exists r k', send data k = Val (r, k');
  finish_total : forall k : K, exists r k', finish k = Val (r, k');
  cancel_total : forall message (k : K), exists r k', cancel message k = Val (r, k');
  drop_writer_total : forall k : K, exists k', drop_writer k = Val k';
}.

Section totals.
Context {K : Type} `{TotalWriter K}.

Lemma drop_total i : exists k, drop_inserter i = Val k.
Proof. unfold drop_inserter. destruct (writer i); [apply drop_writer_total | eauto]. Qed.

Lemma on_writer_total f (i : Inserter K) :
  (forall k, exists r k', f k = Val (r, k')) -> exists r i', on_writer f i = Val (r, i').
Proof. intros Hf. unfold on_writer. destruct (Hf (connection i)) as ([[] | e] & k & ->); cbn; eauto. Qed.

Lemma ensure_writer_total (i : Inserter K) : exists r i', ensure_writer i = Val (r, i').
Proof.
  unfold ensure_writer. destruct (writer i); [eauto |].
  destruct (copy_in_total (qualified_name (table_def i)) (col_name <$> columns (table_def i)) (connection i)) as ([[] | e] & k & ->);
    cbn; eauto.
Qed.

Lemma ibind_total (m1 m2 : Op (K := K)) i :
  (exists r i', m1 i = Val (r, i')) -> (forall i, exists r i', m2 i = Val (r, i')) -> exists r i', ibind m1 m2 i = Val (r, i').
Proof. intros (r & i' & H1) H2. unfold ibind. rewrite H1. cbn. destruct r; eauto. Qed.

Lemma execute_total (i : Inserter K) : exists r k, execute i = Val (r, k).
Proof.
  unfold execute. destruct (drop_total i) as [k Hk]. rewrite Hk. cbn [outcome_bind].
  destruct (negb _); [eauto |]. destruct (_ =? 0); [eauto |].
  match goal with |- context [outcome_bind (ibind ?a ?b i) _] => destruct (ibind_total a b i) as (r & j & ->) end.
  - apply ensure_writer_total.
  - intros j. apply ibind_total; [destruct (negb _); [apply on_writer_total, send_total | eauto] | intros; apply on_writer_total, send_total].
  - cbn [outcome_bind]. destruct r as [[] | e]; [| destruct (drop_total j) as [kj ->]; cbn; eauto].
    destruct (finish_total (connection j)) as ([n | e] & kf & ->); cbn; eauto.
Qed.

Lemma cancel_in_place_total (i : Inserter K) : exists i', cancel_in_place i = Val i' /\ writer i' = false.
Proof.
  unfold cancel_in_place. destruct (writer i) eqn:Hw; [| eauto].
  destruct (cancel_total (str "Inserter cancelled") (connection i)) as (r & k & ->). cbn. eauto.
Qed.
End totals.

Section statements.
Context {K : Type} `{TotalClient K} `{TotalWriter K} (show_io : io_payload -> list Z).

(** What the destructor of a staging table that is not dropped yet does: nothing if a
    stream holds the lock, so that the server drops it with the session. *)
Definition left_to_drop (busy : bool) (name : list Z) (k k' : K) (ran : list (list Z)) : Prop :=
  if busy then k' = k /\ ran = [] else (exists d, run (drop_sql name) k = Val (d, k')) /\ ran = [drop_sql name].

Lemma drop_staging_locked busy name (k : K) log :
  exists k' ran, drop_staging false busy (mk_staging name false) (mk_locked k false log) = Val (mk_locked k' false (log ++ ran))
    /\ left_to_drop busy name k k' ran.
Proof.
  unfold drop_staging, left_to_drop. cbn [dropped orb staging_name]. destruct busy; [exists k, []; by rewrite app_nil_r |].
  destruct (run_total (drop_sql name) k) as (r & k' & Hr). exists k', [drop_sql name]. cbn [run locking_client held unlocked statements].
  rewrite Hr. eauto.
Qed.

Definition begun (i : Inserter K) (target : TableName.t) (maps : list ColumnMapping) (name : list Z) (log : list (list Z)) :
    MappedInserter (Locked K) := mk_mapped (lock log i) target maps (mk_staging name false).

(** How an execution goes on when the COPY has ended with [copied], and what it returns:
    the error of the first of its steps that fails, or the rows inserted. *)
Definition executed (busy : bool) (m : MappedInserter (Locked K)) (copied : result Z ApiError) (k0 : K)
    (r : result Z Api.Error) (k : K) (ran : list (list Z)) : Prop :=
  let name := staging_name (staging m) in
  match copied with
  | Err e => r = Err (lift show_io e) /\ left_to_drop busy name k0 k ran
  | Ok _ =>
      exists inserted k1 rest, run (insert_sql m) k0 = Val (inserted, k1) /\ ran = insert_sql m :: rest /\
        match inserted with
        | Err e => r = Err e /\ left_to_drop busy name k1 k rest
        | Ok count =>
            exists dropped, run (drop_sql name) k1 = Val (dropped, k) /\ rest = [drop_sql name]
              /\ r = match dropped with Ok _ => Ok count | Err e => Err e end
        end
  end.

(** C23. A mapped inserter never waits for itself, and cleans up once. Whatever its calls
    did, no statement runs while its COPY holds the lock of the connection, so that none of
    its methods hangs; the lock is free when it is gone. Its calls run no statement of
    their own. Executing ends the COPY. If the COPY fails, the INSERT does not run and its
    error is returned; if the COPY succeeds, the INSERT runs, once; if that fails its error
    is returned; and if it succeeds the DROP of the staging table runs, and the rows
    inserted are returned unless the DROP fails, which gives its error. After a failure
    the destructor runs the DROP, and its failure is not told. Cancelling ends the COPY
    and runs the DROP alone; going out of scope drops the writer and leaves the table to
    its destructor, which leaves it to the server if a live stream holds the lock. *)
Theorem mapped_statements busy i target maps name log :
  let m := begun i target maps name log in
  (forall oc c, mapped_call show_io oc c m = let! r := run_call oc c i in
     Val (match r.1 with Ok _ => Ok tt | Err e => Err (lift show_io e) end, begun r.2 target maps name log))
  /\ (exists copied (k0 : K) r k ran, execute i = Val (copied, k0)
        /\ mapped_execute show_io busy m = Val (r, mk_locked k false (log ++ ran)) /\ executed busy m copied k0 r k ran)
  /\ (exists i' d (k : K), cancel_in_place i = Val i' /\ run (drop_sql name) (connection i') = Val (d, k)
        /\ mapped_cancel busy m = Val (mk_locked k false (log ++ [drop_sql name])))
  /\ exists (k0 k : K) ran, drop_inserter i = Val k0 /\ left_to_drop busy name k0 k ran
       /\ drop_mapped busy m = Val (mk_locked k false (log ++ ran)).
Proof.
  intros m. split_and!.
  - intros oc c. unfold mapped_call, m, begun. cbn [inner]. rewrite unhindered_call by done.
    by destruct (run_call oc c i) as [[[[] | e] i'] |].
  - unfold mapped_execute. cbn [m begun inner staging]. rewrite execute_locked.
    destruct (execute_total i) as ([n | e] & k0 & He); rewrite He; cbn [outcome_bind fst snd].
    2: { destruct (drop_staging_locked busy name k0 log) as (k' & ran & -> & Hran). by eexists _, k0, _, k', ran. }
    fold (begun i target maps name log). fold m. cbn [run locking_client held unlocked statements].
    destruct (run_total (insert_sql m) k0) as ([count | e] & k1 & Hins); rewrite Hins; cbn [outcome_bind fst snd].
    2: { destruct (drop_staging_locked busy name k1 (log ++ [insert_sql m])) as (k' & ran & -> & Hran).
         eexists _, k0, _, k', (insert_sql m :: ran). cbn [outcome_bind]. rewrite <- app_assoc. split_and!; [done.. |]. by eexists _, k1, ran. }
    unfold drop_now. cbn [dropped staging_name run locking_client held unlocked statements].
    destruct (run_total (drop_sql name) k1) as (d & k2 & Hd); rewrite Hd. cbn [outcome_bind fst snd].
    unfold drop_staging. cbn [dropped orb outcome_bind]. eexists _, k0, _, k2, [insert_sql m; drop_sql name].
    rewrite <- app_assoc. split_and!; [done.. |]. eexists _, k1, _. split_and!; [exact Hins | done |]. exists d. by destruct d.
  - unfold mapped_cancel. cbn [m begun inner staging]. rewrite cancel_locked.
    destruct (cancel_in_place_total i) as (i' & -> & Hw). cbn [outcome_bind lock connection]. unfold drop_now.
    cbn [dropped staging_name run locking_client held unlocked statements]. rewrite Hw.
    destruct (run_total (drop_sql name) (connection i')) as (d & k & Hd). rewrite Hd. cbn [outcome_bind fst snd].
    unfold drop_inserter. cbn [with_connection writer lock connection]. rewrite Hw. by exists i', d, k.
  - unfold drop_mapped. cbn [m begun inner staging]. rewrite drop_locked. destruct (drop_total i) as [k0 ->]. cbn [outcome_bind].
    destruct (drop_staging_locked busy name k0 log) as (k & ran & -> & Hran). by exists k0, k, ran.
Qed.
End statements.

(** Making one runs the CREATE of the staging table alone, on the free lock. *)
Lemma mapped_new_statements {K} `{TotalClient K} `{CopyWriter K} debug show_io pid counter (k : K) log def target maps sql :
  to_create_sql (staging_def (staging_table_name pid counter) def) true = Ok sql ->
  exists r k', mapped_new debug show_io pid counter (mk_locked k false log) def target maps = Val (r, mk_locked k' false (log ++ [sql]))
    /\ match r with
       | Ok m => exists i, m = begun i target maps (staging_table_name pid counter) (log ++ [sql])
           /\ table_def i = staging_def (staging_table_name pid counter) def
       | Err e => run sql k = Val (Err e, k')
       end.
Proof.
  intros Hsql. unfold mapped_new. rewrite Hsql. cbn [run locking_client held unlocked statements].
  destruct (run_total sql k) as ([n | e] & k' & Hr); rewrite Hr; cbn [outcome_bind fst snd]; [| by exists (Err e), k'].
  assert (Hcols : columns def <> []) by (unfold to_create_sql in Hsql; cbn in Hsql; by destruct (columns def)).
  unfold inserter_new, InsertChunk.from_table_definition, InsertChunk.new, column_count_of. cbn [columns staging_def with_persistence set_table_name].
  rewrite length_fmap, Nat.eqb_refl, andb_false_r. destruct (Nat.eqb_spec (length (columns def)) 0) as [Hl |]; [by apply nil_length_inv in Hl |].
  cbn [outcome_bind]. eexists (Ok _), k'. split; [reflexivity |]. by eexists (mk_inserter k' _ _ 0 0 false).
Qed.

(** The CREATE and the COPY name the staging table with the schema and the database of
    the definition it was cloned from, the INSERT and the DROP without: they name the
    same only if there are none. *)
Lemma staging_names name def :
  qualified_name (staging_def name def) = SqlIdentifier name <-> schema def = None /\ database def = None.
Proof.
  unfold qualified_name, staging_def, with_persistence, set_table_name. cbn [schema database table_name].
  assert (Hlong : forall a b : list Z, a ++ str "." ++ b <> b).
  { intros a b E. apply (f_equal length) in E. rewrite !length_app in E. change (length (str ".")) with 1%nat in E. lia. }
  split; [| by intros [-> ->]]. destruct (database def) as [d |], (schema def) as [s |]; intros E; try done; exfalso.
  - rewrite !(app_assoc _ _ (str "." ++ SqlIdentifier name)) in E. by apply Hlong in E.
  - by apply Hlong in E.
  - by apply Hlong in E.
Qed.

(** The server in memory takes a COPY and keeps nothing of it. *)
#[export] Instance memory_writer : CopyWriter Memory := {
  copy_in _ _ m := Val (Ok tt, m);
  send _ m := Val (Ok tt, m);
  send_direct _ m := Val (Ok tt, m);
  flush_stream m := Val (Ok tt, m);
  finish m := Val (Ok 1, m);
  cancel _ m := Val (Ok tt, m);
  drop_writer m := Val m;
}.

#[export] Instance memory_total_writer : TotalWriter Memory.
Proof. split; intros; eexists; try eexists; reflexivity. Defined.

Definition sample_staging : Inserter Memory :=
  mk_inserter (mk_memory [] None true) sample_table (InsertChunk.mk [1] true 0 2 1 [true; false]) 1 0 true.
Definition sample_target : TableName.t := TableName.mk None None (Name.mk (str "t") (str "t")).

Lemma mapped_statements_witness :
  let m := begun sample_staging sample_target [mapping_new (str "id")] (str "s") [] in
  exists copied k0 r (k : Memory) ran, execute sample_staging = Val (copied, k0)
    /\ mapped_execute (fun _ => []) false m = Val (r, mk_locked k false ([] ++ ran)) /\ executed (fun _ => []) false m copied k0 r k ran.
Proof.
  destruct (mapped_statements (fun _ => []) false sample_staging sample_target [mapping_new (str "id")] (str "s") []) as (_ & He & _).
  exact He.
Defined.
