(* ===== verification/Sender.v ===== *)
(** * Parallel chunks ([ChunkSender] of [hyperdb-api/src/inserter.rs])

    Threads fill [InsertChunk]s of their own and hand them to a [ChunkSender],
    whose mutex puts them one after the other into a single COPY. Sending happens
    inside the lock, so a run of any number of threads is the sequence of its
    sends in the order of the lock; the counters are added to after the lock is
    released, and additions commute. A send that panics is a panic of the run: the
    poisoned mutex that later sends would report is not seen. The theorem says what the COPY holds,
    including what it holds of rows that were not ended. *)

From stdpp Require Import strings.
From S2P Require Import Prelude Text HyperCopy Calendar Connection TableDef Inserter.

(** ** [ChunkSender] *)

Record ChunkSender (K : Type) : Type := mk_sender {
  sender_connection : K;
  is_tcp : bool;
  sender_table : list Z;
  sender_columns : list (list Z);
  sender_writer : bool;
  header_sent : bool;
  total_rows : Z;
  chunks_sent : Z;
}.
Arguments mk_sender {K} _ _ _ _ _ _ _ _.
Arguments sender_connection {K} _.
Arguments is_tcp {K} _.
Arguments sender_table {K} _.
Arguments sender_columns {K} _.
Arguments sender_writer {K} _.
Arguments header_sent {K} _.
Arguments total_rows {K} _.
Arguments chunks_sent {K} _.

Definition no_columns : ApiError := InvalidTableDefinition (str "Table definition must have at least one column").

Definition not_tcp : ApiError := FeatureNotSupportedError
  (str "ChunkSender requires a TCP connection. gRPC connections do not support COPY operations.").

Section sender.
Context {K : Type} `{!CopyWriter K} (usize_bits : Z).

Definition sender_new (connection : K) (tcp : bool) (tdef : TableDefinition) : result (ChunkSender K) ApiError :=
  if (column_count_of tdef =? 0)%nat then Err no_columns
  else Ok (mk_sender connection tcp (qualified_name tdef) (col_name <$> columns tdef) false false 0 0).

Definition with_state (connection : K) (writer header : bool) (s : ChunkSender K) : ChunkSender K :=
  mk_sender connection (is_tcp s) (sender_table s) (sender_columns s) writer header (total_rows s) (chunks_sent s).

(** The COPY is opened by the first chunk that has rows. *)
Definition open_writer (s : ChunkSender K) : outcome (result unit ApiError * ChunkSender K) :=
  if sender_writer s then Val (Ok tt, s)
  else if negb (is_tcp s) then Val (Err not_tcp, s)
  else
    let! r := copy_in (sender_table s) (sender_columns s) (sender_connection s) in
    match r with
    | (Ok _, k) => Val (Ok tt, with_state k true (header_sent s) s)
    | (Err e, k) => Val (Err (FromClient e), with_state k false (header_sent s) s)
    end.

(** The header is stripped from every chunk but the first. *)
Definition data_to_send (is_first : bool) (buffer : list Z) : list Z :=
  if is_first then buffer
  else if (HYPER_BINARY_HEADER_SIZE <? length buffer)%nat
          && bool_decide (take HYPER_BINARY_HEADER_SIZE buffer = HYPER_BINARY_HEADER)
  then drop HYPER_BINARY_HEADER_SIZE buffer
  else buffer.

(** The chunk is consumed, whatever happens. *)
Definition send_chunk (chunk : InsertChunk.t) (s : ChunkSender K) : outcome (result unit ApiError * ChunkSender K) :=
  let row_count := InsertChunk.row_count chunk in
  match (InsertChunk.take chunk).1 with
  | None => Val (Ok tt, s)
  | Some buffer =>
      let! r := open_writer s in
      match r with
      | (Err e, s) => Val (Err e, s)
      | (Ok _, s) =>
          let is_first := negb (header_sent s) in
          let s := with_state (sender_connection s) (sender_writer s) true s in
          let! r := send_direct (data_to_send is_first buffer) (sender_connection s) in
          match r with
          | (Err e, k) => Val (Err (FromClient e), with_state k (sender_writer s) true s)
          | (Ok _, k) =>
              let! r := flush_stream k in
              match r with
              | (Err e, k) => Val (Err (FromClient e), with_state k (sender_writer s) true s)
              | (Ok _, k) =>
                  Val (Ok tt, mk_sender k (is_tcp s) (sender_table s) (sender_columns s) (sender_writer s) true
                                (wrap_u 64 (total_rows s + Z.of_nat row_count))
                                (wrap_u usize_bits (chunks_sent s + 1)))
              end
          end
      end
  end.

(** [finish] consumes the sender; a failed send drops the writer. *)
Definition sender_finish (s : ChunkSender K) : outcome (result Z ApiError * K) :=
  if sender_writer s then
    let! r := send (write_trailer []) (sender_connection s) in
    match r with
    | (Err e, k) => let! k := drop_writer k in Val (Err (FromClient e), k)
    | (Ok _, k) =>
        let! r := finish k in
        match r with
        | (Ok rows, k) => Val (Ok rows, k)
        | (Err e, k) => Val (Err (FromClient e), k)
        end
    end
  else Val (Ok 0, sender_connection s).

(** The sends in the order of the lock, stopping at a failure. *)
Fixpoint send_chunks (chunks : list InsertChunk.t) (s : ChunkSender K) :
    outcome (result unit ApiError * ChunkSender K) :=
  match chunks with
  | [] => Val (Ok tt, s)
  | c :: chunks =>
      let! r := send_chunk c s in
      match r with
      | (Ok _, s) => send_chunks chunks s
      | (Err e, s) => Val (Err e, s)
      end
  end.
End sender.

(** ** A thread that fills a chunk *)

Inductive ChunkCall : Type :=
| ChunkAdd (v : ChunkValue)
| ChunkEndRow
| ChunkClear.

Definition run_chunk_call (oc : bool) (c : ChunkCall) : InsertChunk.Op :=
  match c with
  | ChunkAdd v => chunk_value oc v
  | ChunkEndRow => InsertChunk.end_row
  | ChunkClear => fun c => Val (Ok tt, InsertChunk.clear c)
  end.

Fixpoint run_chunk_calls (oc : bool) (calls : list ChunkCall) (c : InsertChunk.t) :
    outcome (list (result unit ApiError) * InsertChunk.t) :=
  match calls with
  | [] => Val ([], c)
  | call :: calls =>
      let! r := run_chunk_call oc call c in
      let! rs := run_chunk_calls oc calls r.2 in
      Val (r.1 :: rs.1, rs.2)
  end.

(** The rows it has filled in. *)
Definition spec_chunk_call (tdef : TableDefinition) (c : ChunkCall) (s : Rows) : result unit ApiError * Rows :=
  match c with
  | ChunkAdd v => spec_cell tdef v s
  | ChunkEndRow => spec_end_row tdef s
  | ChunkClear => (Ok tt, no_rows)
  end.

Fixpoint spec_chunk_calls (tdef : TableDefinition) (calls : list ChunkCall) (s : Rows) :
    list (result unit ApiError) * Rows :=
  match calls with
  | [] => ([], s)
  | c :: calls =>
      let r := spec_chunk_call tdef c s in
      let rs := spec_chunk_calls tdef calls r.2 in
      (r.1 :: rs.1, rs.2)
  end.

Definition chunk_call_ok (c : ChunkCall) : Prop :=
  match c with
  | ChunkAdd v => chunk_value_ok v
  | _ => True
  end.

(** Whether a chunk has a row, so that it is sent. *)
Definition has_row (s : Rows) : bool := negb (bool_decide (finished s = [])).

(** The cells a chunk contributes: those of its rows and of the row in progress, if
    it has a row at all. *)
Definition chunk_cells (s : Rows) : list (list Z) :=
  match finished s with
  | [] => []
  | _ => cells s
  end.

(** ** Chunks and their rows *)

(** A chunk that nobody sends is an inserter without a connection. *)
Definition no_writer : CopyWriter unit := {|
  copy_in := fun _ _ k => Val (Err (Protocol []), k);
  send := fun _ k => Val (Ok tt, k);
  send_direct := fun _ k => Val (Ok tt, k);
  flush_stream := fun k => Val (Ok tt, k);
  finish := fun k => Val (Ok 0, k);
  cancel := fun _ k => Val (Ok tt, k);
  drop_writer := fun k => Val k;
|}.

#[local] Existing Instance no_writer.

Lemma no_writer_contract table cols : CopyWriterSpec unit table cols.
Proof.
  refine {| ready := fun _ => False; opened := fun _ _ _ => False; closed := fun _ _ _ _ => False |}; done.
Qed.

#[local] Existing Instance no_writer_contract.

Section chunks.
Context (oc : bool) (tdef : TableDefinition).

Definition as_inserter (c : InsertChunk.t) (s : Rows) : Inserter unit :=
  mk_inserter tt tdef c (Z.of_nat (length (finished s))) 0 false.

(** The chunk [c] holds the rows [s]. *)
Definition chunk_holds (c : InsertChunk.t) (s : Rows) : Prop :=
  sim tdef tt (as_inserter c s) s /\ Forall (fun cell => cell <> []) (cells s) /\ rows_wide tdef s
  /\ InsertChunk.row_count c = length (finished s).

Lemma cell_nonempty v bs : chunk_value_ok v -> payload v = Some bs -> bs <> [].
Proof.
  assert (Hn : forall n (l : list Z), length l = S n -> l <> []) by (by intros n []).
  intros Hv. destruct v; cbn in *; intros [= <-]; try (eapply Hn, length_to_le); try done;
    try (intros H; apply (f_equal length) in H; rewrite length_app, length_to_le in H; simpl in H; lia).
  by apply (Hn 15%nat).
Qed.

(** Adding a cell leaves the row count alone. *)
Lemma ensure_header_rows c : InsertChunk.row_count (InsertChunk.ensure_header c) = InsertChunk.row_count c.
Proof. unfold InsertChunk.ensure_header. by destruct (InsertChunk.header_written c). Qed.

Lemma chunk_value_rows v c r c' : chunk_value oc v c = Val (r, c') -> InsertChunk.row_count c' = InsertChunk.row_count c.
Proof.
  assert (Hwith : forall w wn, InsertChunk.add_with w wn c = Val (r, c') -> InsertChunk.row_count c' = InsertChunk.row_count c).
  { intros w wn. unfold InsertChunk.add_with. case_match; [by intros [= <- <-] |]. cbv zeta.
    destruct (if InsertChunk.current_column_nullable _ then _ else _) as [buf |]; [| done].
    intros [= <- <-]. apply ensure_header_rows. }
  assert (Hbytes : forall bs, InsertChunk.add_bytes bs c = Val (r, c') -> InsertChunk.row_count c' = InsertChunk.row_count c).
  { intros bs. unfold InsertChunk.add_bytes. repeat (case_match; [by intros [= <- <-] |]).
    destruct (if InsertChunk.current_column_nullable _ then _ else _) as [buf |]; [| done].
    intros [= <- <-]. apply ensure_header_rows. }
  destruct v; cbn [chunk_value]; try apply Hwith; try apply Hbytes.
  unfold InsertChunk.add_null. repeat (case_match; [by intros [= <- <-] |]). intros [= <- <-]. apply ensure_header_rows.
Qed.

Lemma spec_cell_keeps v s :
  finished (spec_cell tdef v s).2 = finished s /\
  (chunk_value_ok v -> Forall (fun cell => cell <> []) (cells s) ->
   Forall (fun cell => cell <> []) (cells (spec_cell tdef v s).2)).
Proof.
  split; [unfold spec_cell; by repeat case_match |]. intros Hv Hs.
  assert (Hadd : forall b, b <> [] -> Forall (fun cell => cell <> []) (cells (mk_rows (finished s) (current s ++ [b])))).
  { intros b Hb. rewrite cells_add. apply Forall_app_2; [by destruct s | by apply Forall_singleton]. }
  unfold spec_cell. destruct (_ !! _) as [nl |]; [| done]. destruct (long_value v); [done |].
  destruct (payload v) as [bs |] eqn:E; destruct nl; cbn [snd]; try done; apply Hadd; try done.
  by apply (cell_nonempty v).
Qed.

Lemma chunk_add_holds v c s :
  chunk_holds c s -> chunk_value_ok v ->
  exists c', chunk_value oc v c = Val ((spec_cell tdef v s).1, c') /\ chunk_holds c' (spec_cell tdef v s).2.
Proof.
  intros (Hs & Hne & Hw & Hrow) Hv. destruct (spec_cell_keeps v s) as [Hfin Hcells].
  destruct (add_cell_sim oc tdef tt v _ s Hs Hv) as (i' & Hon & Hs'). unfold on_chunk in Hon.
  cbn [as_inserter chunk] in Hon. destruct (chunk_value oc v c) as [[r c'] |] eqn:E; [| done].
  injection Hon as <- <-. exists c'. split; [done |]. split_and!.
  - unfold as_inserter in *. by rewrite Hfin.
  - by apply Hcells.
  - unfold rows_wide. by rewrite Hfin.
  - by rewrite Hfin, (chunk_value_rows v c _ c' E).
Qed.

Lemma chunk_end_holds c s :
  chunk_holds c s ->
  exists c', InsertChunk.end_row c = Val ((spec_end_row tdef s).1, c') /\ chunk_holds c' (spec_end_row tdef s).2.
Proof.
  intros (Hs & Hne & Hw & Hrow). unfold InsertChunk.end_row, spec_end_row, width.
  pose proof (sim_count _ _ _ _ Hs) as Hc. pose proof (sim_index _ _ _ _ Hs) as Hi. cbn [as_inserter chunk] in Hc, Hi.
  rewrite Hc, Hi. destruct (Nat.eqb_spec (length (current s)) (length (nullables tdef))) as [Heq | Hneq]; cbn [negb fst snd].
  2: { exists c. done. }
  eexists. split; [reflexivity |]. split_and!.
  - pose proof (end_row_keeps tdef tt _ s Hs Heq) as Hk. cbv zeta in Hk. cbn [as_inserter chunk] in Hk.
    rewrite Hc in Hk. unfold as_inserter. cbn [finished]. rewrite length_app. cbn [length].
    replace (Z.of_nat (length (finished s) + 1)) with (Z.of_nat (length (finished s)) + 1) by lia. exact Hk.
  - by rewrite cells_end_row.
  - pose proof (spec_end_row_wide tdef s Hw) as Hwide. unfold spec_end_row, width in Hwide. by rewrite Heq, Nat.eqb_refl in Hwide.
  - cbn [InsertChunk.row_count finished]. rewrite length_app. cbn [length]. lia.
Qed.

(** An empty chunk for the table. *)
Lemma empty_holds c :
  InsertChunk.column_count c = length (nullables tdef) -> InsertChunk.column_nullable c = nullables tdef ->
  chunk_holds (InsertChunk.clear c) no_rows.
Proof.
  intros Hc Hn. split_and!; [| constructor | constructor | done]. constructor; cbn; try done. lia.
Qed.

Lemma new_holds debug c : InsertChunk.from_table_definition debug tdef = Val c -> chunk_holds c no_rows.
Proof.
  unfold InsertChunk.from_table_definition, InsertChunk.new. case_match; [done |]. intros [= <-].
  set (c := InsertChunk.mk _ _ _ _ _ _). change c with (InsertChunk.clear c). apply empty_holds; [| done].
  symmetry. apply length_fmap.
Qed.

Lemma chunk_call_holds call c s :
  chunk_holds c s -> chunk_call_ok call ->
  exists c', run_chunk_call oc call c = Val ((spec_chunk_call tdef call s).1, c')
    /\ chunk_holds c' (spec_chunk_call tdef call s).2.
Proof.
  intros Hc Hok. destruct call as [v | |]; cbn [run_chunk_call spec_chunk_call].
  - by apply chunk_add_holds.
  - by apply chunk_end_holds.
  - eexists. split; [done |]. destruct Hc as (Hs & _). apply empty_holds; [by apply (sim_count _ _ _ _ Hs) | by apply (sim_nullable _ _ _ _ Hs)].
Qed.

Lemma chunk_calls_hold calls c s :
  chunk_holds c s -> Forall chunk_call_ok calls ->
  exists c', run_chunk_calls oc calls c = Val ((spec_chunk_calls tdef calls s).1, c')
    /\ chunk_holds c' (spec_chunk_calls tdef calls s).2.
Proof.
  intros Hc Hok. revert c s Hc. induction Hok as [| call calls Hcall _ IH]; intros c s Hc; [by exists c |].
  cbn [run_chunk_calls spec_chunk_calls fst snd].
  destruct (chunk_call_holds call c s Hc Hcall) as (c1 & -> & Hc1). cbn [outcome_bind fst snd].
  destruct (IH c1 _ Hc1) as (c2 & -> & Hc2). cbn [outcome_bind fst snd]. eauto.
Qed.

(** What a chunk with rows gives the sender. *)
Lemma chunk_taken c s :
  columns tdef <> [] -> chunk_holds c s ->
  match finished s with
  | [] => (InsertChunk.take c).1 = None
  | _ => (InsertChunk.take c).1 = Some (HYPER_BINARY_HEADER ++ concat (cells s))
         /\ stream_of s = HYPER_BINARY_HEADER ++ concat (cells s) /\ concat (cells s) <> []
  end.
Proof.
  intros Hcols (Hs & Hne & Hw & Hrow). unfold InsertChunk.take. rewrite Hrow.
  destruct (finished s) as [| row rows] eqn:Hf; [done |]. cbn [length Nat.eqb fst].
  assert (Hcell : exists cell cs, cells s = cell :: cs).
  { unfold rows_wide in Hw. rewrite Hf in Hw. apply Forall_cons_1 in Hw as [Hw _]. unfold nullables in Hw.
    rewrite length_fmap in Hw. unfold cells. rewrite Hf. cbn [concat].
    destruct row as [| cell row]; [| by eexists _, _].
    exfalso. apply Hcols, nil_length_inv. by rewrite <- Hw. }
  destruct Hcell as (cell & cs & Hcells).
  assert (Hstream : stream_of s = HYPER_BINARY_HEADER ++ concat (cells s)) by (unfold stream_of; by rewrite Hcells).
  pose proof (sim_sent _ _ _ _ Hs) as Hsent. cbn [as_inserter writer chunk] in Hsent.
  split_and!; [by rewrite (proj2 Hsent), Hstream | done |].
  rewrite Hcells in *. apply Forall_cons_1 in Hne as [Hne _]. cbn [concat]. by destruct cell.
Qed.
End chunks.

(** The header of a later chunk goes, since something follows it. *)
Lemma data_stripped data : data <> [] -> data_to_send false (HYPER_BINARY_HEADER ++ data) = data.
Proof.
  intros Hne. unfold data_to_send. rewrite length_app, take_app_length', drop_app_length' by done.
  rewrite bool_decide_true by done. destruct data; [done |]. cbn [length].
  rewrite (proj2 (Nat.ltb_lt _ _)); [done |]. change (length HYPER_BINARY_HEADER) with 19%nat.
  unfold HYPER_BINARY_HEADER_SIZE. lia.
Qed.

(** ** The sender *)

Section sending.
Context {K : Type} `{!CopyWriter K} (usize_bits : Z) (tdef : TableDefinition).
Context `{!CopyWriterSpec K (qualified_name tdef) (col_name <$> columns tdef)} (k0 : K).

(** The cells [sent] went through the sender, of [n] rows in [m] chunks. *)
Record sending (s : ChunkSender K) (sent : list (list Z)) (n m : Z) : Prop := {
  sending_tcp : is_tcp s = true;
  sending_table : sender_table s = qualified_name tdef;
  sending_columns : sender_columns s = col_name <$> columns tdef;
  sending_rows : total_rows s = wrap_u 64 n;
  sending_chunks : chunks_sent s = wrap_u usize_bits m;
  sending_copy : if sender_writer s
                 then header_sent s = true /\ sent <> []
                      /\ opened k0 (sender_connection s) (HYPER_BINARY_HEADER ++ concat sent)
                 else header_sent s = false /\ sent = [] /\ sender_connection s = k0;
}.

Lemma send_chunk_holds c rows s sent n m :
  columns tdef <> [] -> ready k0 -> chunk_holds tdef c rows -> fits rows -> sending s sent n m ->
  exists s', send_chunk usize_bits c s = Val (Ok tt, s')
    /\ sending s' (sent ++ chunk_cells rows) (n + Z.of_nat (length (finished rows))) (m + if has_row rows then 1 else 0).
Proof.
  intros Hcols Hready Hc Hfits Hs. pose proof (chunk_taken tdef c rows Hcols Hc) as Htake.
  destruct Hc as (_ & _ & _ & Hrow). unfold send_chunk, chunk_cells, has_row. rewrite Hrow.
  destruct (finished rows) as [| row rest] eqn:Hfin.
  { rewrite Htake. exists s. split; [done |]. cbn [length negb]. rewrite app_nil_r, !Z.add_0_r. exact Hs. }
  destruct Htake as (-> & Hstream & Hne). set (data := concat (cells rows)) in *.
  assert (Hopen : exists s1 p, open_writer s = Val (Ok tt, s1) /\ opened k0 (sender_connection s1) p
     /\ p ++ data_to_send (negb (header_sent s1)) (HYPER_BINARY_HEADER ++ data) = HYPER_BINARY_HEADER ++ concat (sent ++ cells rows)
     /\ s1 = with_state (sender_connection s1) true (header_sent s) s).
  { pose proof (sending_copy s sent n m Hs) as Hcopy. unfold open_writer. destruct (sender_writer s) eqn:Hw.
    - destruct Hcopy as (Hh & _ & Ho). exists s, (HYPER_BINARY_HEADER ++ concat sent). split_and!; [done | done | |].
      + rewrite Hh. cbn [negb]. rewrite data_stripped by done. by rewrite <- app_assoc, concat_app.
      + unfold with_state. destruct s. cbn in *. by rewrite Hw.
    - destruct Hcopy as (Hh & -> & Hk). rewrite (sending_tcp s _ _ _ Hs), (sending_table s _ _ _ Hs), (sending_columns s _ _ _ Hs), Hk.
      cbn [negb]. destruct (copy_in_opened k0 Hready) as (k & -> & Ho). cbn [outcome_bind].
      eexists _, []. split; [done |]. cbn [with_state sender_connection header_sent]. by rewrite Hh. }
  destruct Hopen as (s1 & p & -> & Ho & Hp & Hs1). cbn [outcome_bind with_state sender_connection].
  set (sent_data := data_to_send _ _) in *.
  assert (Hlen : Z.of_nat (length sent_data) + 4 < 2 ^ 31).
  { unfold fits in Hfits. rewrite Hstream, length_app in Hfits. fold data in Hfits.
    assert (length sent_data <= length (HYPER_BINARY_HEADER ++ data))%nat; [| rewrite length_app in *; lia].
    unfold sent_data, data_to_send. repeat case_match; rewrite ?length_drop; lia. }
  destruct (send_direct_opened k0 _ p sent_data Ho Hlen) as (k2 & -> & Ho2). cbn [outcome_bind].
  destruct (flush_opened k0 k2 _ Ho2) as (k3 & -> & Ho3). cbn [outcome_bind].
  eexists. split; [done |]. rewrite Hs1. constructor; cbn; try (by destruct Hs).
  - rewrite (sending_rows s sent n m Hs). by rewrite wrap_u_add_l.
  - rewrite (sending_chunks s sent n m Hs). by rewrite wrap_u_add_l.
  - split; [done |]. split; [| rewrite Hp in Ho3; exact Ho3].
    intros [_ E]%app_eq_nil. apply Hne. unfold data. by rewrite E.
Qed.

Lemma send_chunks_hold chunks rows s sent n m :
  columns tdef <> [] -> ready k0 -> Forall2 (chunk_holds tdef) chunks rows -> Forall fits rows -> sending s sent n m ->
  exists s', send_chunks usize_bits chunks s = Val (Ok tt, s')
    /\ sending s' (sent ++ concat (chunk_cells <$> rows))
         (n + Z.of_nat (length (concat (finished <$> rows)))) (m + Z.of_nat (length (filter has_row rows))).
Proof.
  intros Hcols Hready Hc. revert s sent n m. induction Hc as [| c r chunks rows Hcr _ IH]; intros s sent n m Hf Hs.
  { exists s. split; [done |]. cbn. by rewrite app_nil_r, !Z.add_0_r. }
  apply Forall_cons_1 in Hf as [Hf Hfs]. cbn [send_chunks].
  destruct (send_chunk_holds c r s sent n m Hcols Hready Hcr Hf Hs) as (s1 & -> & Hs1). cbn [outcome_bind].
  destruct (IH s1 _ _ _ Hfs Hs1) as (s2 & -> & Hs2). exists s2. split; [done |].
  rewrite !fmap_cons. cbn [concat]. rewrite length_app, Nat2Z.inj_add, Z.add_assoc, app_assoc.
  replace (m + Z.of_nat (length (filter has_row (r :: rows)))) with (m + (if has_row r then 1 else 0) + Z.of_nat (length (filter has_row rows)));
    [exact Hs2 |]. rewrite filter_cons. case_decide as Hd; destruct (has_row r); try done; try (by exfalso; apply Hd); cbn [length]; lia.
Qed.
End sending.

(** ** Properties *)

(** C34. Chunks that any threads fill arrive as one COPY. Whatever calls filled the
    chunks, each call having returned what the specification of rows returns, and
    in whatever order the lock lets the sends through, the sender opens one COPY
    for the first chunk that has a row and closes it with one header and then the
    cells of the chunks in that order, each once; without rows it opens none. It counts
    the rows that were ended and the chunks that have one, and returns the count that
    ending the COPY gave, which is the server's. The cells of a row that its thread did not end are sent too, when its chunk has
    another row, although no count includes them: a chunk that stops inside a row
    shifts the columns of all that follow. *)
Theorem sender_stream {K} `{!CopyWriter K} usize_bits oc debug tdef
    `{!CopyWriterSpec K (qualified_name tdef) (col_name <$> columns tdef)} k0 (programs : list (list ChunkCall)) :
  let rows := (fun calls => (spec_chunk_calls tdef calls no_rows).2) <$> programs in
  columns tdef <> [] -> ready k0 -> Forall (Forall chunk_call_ok) programs -> Forall fits rows ->
  exists chunks s s',
    Forall2 (fun calls c => exists c0, InsertChunk.from_table_definition debug tdef = Val c0
       /\ run_chunk_calls oc calls c0 = Val ((spec_chunk_calls tdef calls no_rows).1, c)) programs chunks
    /\ sender_new k0 true tdef = Ok s
    /\ send_chunks usize_bits chunks s = Val (Ok tt, s')
    /\ total_rows s' = wrap_u 64 (Z.of_nat (length (concat (finished <$> rows))))
    /\ chunks_sent s' = wrap_u usize_bits (Z.of_nat (length (filter has_row rows)))
    /\ match concat (chunk_cells <$> rows) with
       | [] => sender_finish s' = Val (Ok 0, k0)
       | cs => exists k1 n k, send (write_trailer []) (sender_connection s') = Val (Ok tt, k1) /\ finish k1 = Val (Ok n, k)
           /\ sender_finish s' = Val (Ok n, k) /\ closed k0 k (HYPER_BINARY_HEADER ++ concat cs) n
       end.
Proof.
  intros rows Hcols Hready Hok Hf.
  assert (Hnew : exists c0, InsertChunk.from_table_definition debug tdef = Val c0).
  { unfold InsertChunk.from_table_definition, InsertChunk.new, column_count_of. rewrite length_fmap, Nat.eqb_refl, andb_false_r. eauto. }
  destruct Hnew as [c0 Hc0].
  assert (Hfill : exists chunks, Forall2 (fun calls c => run_chunk_calls oc calls c0
      = Val ((spec_chunk_calls tdef calls no_rows).1, c)) programs chunks /\ Forall2 (chunk_holds tdef) chunks rows).
  { unfold rows. clear rows Hf. induction Hok as [| calls programs Hcalls _ (chunks & H1 & H2)]; [by exists [] |].
    destruct (chunk_calls_hold oc tdef calls c0 no_rows (new_holds tdef debug c0 Hc0) Hcalls) as (c & Hrun & Hc).
    exists (c :: chunks). split; by constructor. }
  destruct Hfill as (chunks & Hrun & Hholds).
  assert (Hs0 : exists s, sender_new k0 true tdef = Ok s /\ sending usize_bits tdef k0 s [] 0 0).
  { unfold sender_new, column_count_of. destruct (Nat.eqb_spec (length (columns tdef)) 0) as [H0 |].
    - by apply nil_length_inv in H0.
    - eexists. split; [done |]. by constructor. }
  destruct Hs0 as (s & Hnews & Hs).
  destruct (send_chunks_hold usize_bits tdef k0 chunks rows s [] 0 0 Hcols Hready Hholds Hf Hs) as (s' & Hsend & Hs').
  exists chunks, s, s'. split_and!; [| done | done | by apply (sending_rows _ tdef k0 s' _ _ _ Hs') | by apply (sending_chunks _ tdef k0 s' _ _ _ Hs') |].
  - eapply Forall2_impl; [| exact Hrun]. intros calls c H. by exists c0.
  - pose proof (sending_copy _ tdef k0 s' _ _ _ Hs') as Hcopy. cbn [app] in Hcopy. unfold sender_finish.
    destruct (concat (chunk_cells <$> rows)) as [| cell cs]; destruct (sender_writer s').
    + by destruct Hcopy as (_ & ? & _).
    + by destruct Hcopy as (_ & _ & ->).
    + destruct Hcopy as (_ & _ & Ho). destruct (send_opened k0 _ _ (write_trailer []) Ho) as (k1 & Hsent & Ho1); [by vm_compute |].
      rewrite Hsent. cbn [outcome_bind]. destruct (finish_closed k0 k1 _ Ho1) as (k2 & n & Hfinish & Hclosed). rewrite Hfinish. cbn [outcome_bind].
      exists k1, n, k2. split_and!; [done.. |]. unfold write_trailer in Hclosed. cbn [app] in Hclosed. by rewrite app_nil_r in Hclosed.
    + by destruct Hcopy as (_ & ? & _).
Qed.

(** Two threads; the first stops inside its second row. *)
Definition sample_programs : list (list ChunkCall) :=
  [[ChunkAdd (VI32 7); ChunkAdd (VStr [97]); ChunkEndRow; ChunkAdd VNull]; [];
   [ChunkAdd VNull; ChunkAdd (VStr []); ChunkAdd VNull; ChunkEndRow]].

Lemma sender_stream_witness :
  let raw := raw_copy_writer true (2 ^ 64 - 1) in
  exists chunks (s s' : ChunkSender RawConnection) n k,
    @sender_new RawConnection sample_server true sample_table = Ok s
    /\ @send_chunks RawConnection raw 64 chunks s = Val (Ok tt, s') /\ total_rows s' = 2 /\ chunks_sent s' = 2
    /\ @sender_finish RawConnection raw s' = Val (Ok n, k)
    /\ @closed _ _ _ _ sample_contract sample_server k
         (HYPER_BINARY_HEADER ++ [0; 7; 0; 0; 0; 1; 0; 0; 0; 97; 1] ++ [1; 0; 0; 0; 0]) n.
Proof.
  destruct (@sender_stream RawConnection (raw_copy_writer true (2 ^ 64 - 1)) 64 true true sample_table
    sample_contract sample_server sample_programs) as (chunks & s & s' & _ & Hnew & Hsend & Hrows & Hchunks & Hend).
  - done.
  - exact sample_ready.
  - repeat constructor.
  - repeat constructor; vm_compute; reflexivity.
  - destruct Hend as (_ & n & k & _ & _ & Hfin & Hclosed). exists chunks, s, s', n, k.
    split_and!; [exact Hnew | exact Hsend | exact Hrows | exact Hchunks | exact Hfin | exact Hclosed].
Defined.
