(* ===== verification/Pool.v ===== *)
(** * The synchronous connection pool ([hyperdb-api/src/pool.rs])

    [ConnectionPool] is a mutex, a condition variable and the state they guard. A
    pool is modelled with the threads that use it: a thread is where it stands in
    a call ([pc]), one step is what a thread does between two points where another
    thread can run (a critical section, a notification, a network round trip), and
    what the network and the scheduler decide is the step's [event]. The theorems
    hold for every number of threads and every interleaving: no connection is
    handed out twice, the size is exact and bounded, the database is created by
    one connection, and no waiter sleeps beside a connection it could have. *)

From stdpp Require Import strings.
From S2P Require Import Prelude Text.

(** [hyperdb-api/src/connection.rs]. *)
Inductive CreateMode : Type := DoNotCreate | Create | CreateIfNotExists | CreateAndReplace.

#[export] Instance CreateMode_eq_dec : EqDecision CreateMode.
Proof. solve_decision. Defined.

(** [None] is [NoProbe] here; the closure of [Custom] is part of what a
    connection does when probed ([Probe]). *)
Inductive SyncRecycleStrategy : Type := SelectOne | Ping | NoProbe | Custom.

(** The fields that [open] only hands to the connection builder (endpoint,
    database, credentials, TLS) play no part in the pool. A duration is a number
    of nanoseconds, an instant one since the start of the clock. *)
Record SyncPoolConfig : Type := {
  create_mode : CreateMode;
  max_size : nat;
  recycle_strategy : SyncRecycleStrategy;
  wait_timeout : option Z;
  max_lifetime : option Z;
  idle_timeout : option Z;
  min_idle : option nat;
}.

(** [SyncPoolConfig::new]. *)
Definition default_config : SyncPoolConfig :=
  {| create_mode := DoNotCreate; max_size := 16; recycle_strategy := SelectOne;
     wait_timeout := None; max_lifetime := None; idle_timeout := None; min_idle := None |}.

(** A connection is its number, in the order of opening. *)
Record IdleConn : Type := { conn : nat; created : Z; last_used : Z }.

(** [SyncPooledConnection]. *)
Record Guard : Type := { guard_conn : nat; guard_created : Z }.

(** The back of the deque is the head of [idle]. *)
Record SyncPoolState : Type := {
  idle : list IdleConn;
  size : nat;
  initialized : bool;
  init_in_progress : bool;
}.

(** The state [build] starts with. *)
Definition new_state : SyncPoolState :=
  {| idle := []; size := 0; initialized := false; init_in_progress := false |}.

Record PoolStatus : Type := { status_idle : nat; status_size : nat; status_max_size : nat }.

Definition status (cfg : SyncPoolConfig) (s : SyncPoolState) : PoolStatus :=
  {| status_idle := length (idle s); status_size := size s; status_max_size := max_size cfg |}.

Section pool.
(** The errors of connections. *)
Context {E : Type}.
Context (cfg : SyncPoolConfig).

Inductive Error : Type :=
| Timeout (message : list Z)
| NotAlive (message : list Z)
| FromConnection (e : E).

Definition timed_out : Error := Timeout (str "timed out waiting for an available pool connection").

(** What a connection answers when probed; a user's check may panic. *)
Record Probe : Type := {
  is_alive : bool;
  select_one : result unit E;
  ping : result unit E;
  check : outcome (result unit E);
}.

(** The [?] on a connection's answer. *)
Definition from_conn (r : result unit E) : result unit Error :=
  match r with
  | Ok x => Ok x
  | Err e => Err (FromConnection e)
  end.

Definition recycle (pr : Probe) : outcome (result unit Error) :=
  if negb (is_alive pr) then Val (Err (NotAlive (str "pooled connection is no longer alive")))
  else match recycle_strategy cfg with
       | SelectOne => Val (from_conn (select_one pr))
       | Ping => Val (from_conn (ping pr))
       | NoProbe => Val (Ok tt)
       | Custom => let! r := check pr in Val (from_conn r)
       end.

(** [now] is the clock that [elapsed] reads; it saturates at zero. *)
Definition elapsed (now since : Z) : Z := Z.max 0 (now - since).

Definition should_evict (now : Z) (i : IdleConn) (live_size : nat) : bool :=
  match max_lifetime cfg with
  | Some max => max <=? elapsed now (created i)
  | None => false
  end ||
  match idle_timeout cfg with
  | Some t => (t <=? elapsed now (last_used i)) && (default 0 (min_idle cfg) <? live_size)%nat
  | None => false
  end.

(** The mode [open] asks for. *)
Definition open_mode (first : bool) : CreateMode := if first then create_mode cfg else DoNotCreate.

(** ** The critical sections *)

Inductive Action : Type :=
| Reuse (i : IdleConn)
| CreateConn (first : bool)
| Wait.

(** The decision at the head of [get_timeout]'s loop. *)
Definition decide_action (s : SyncPoolState) : Action * SyncPoolState :=
  match idle s with
  | i :: rest =>
      (Reuse i, {| idle := rest; size := size s; initialized := initialized s;
                   init_in_progress := init_in_progress s |})
  | [] =>
      if negb (initialized s) then
        if init_in_progress s then (Wait, s)
        else (CreateConn true,
              {| idle := []; size := S (size s); initialized := initialized s;
                 init_in_progress := true |})
      else if (size s <? max_size cfg)%nat then
        (CreateConn false,
         {| idle := []; size := S (size s); initialized := initialized s;
            init_in_progress := init_in_progress s |})
      else (Wait, s)
  end.

(** The check before parking. *)
Definition available (s : SyncPoolState) : bool :=
  negb (bool_decide (idle s = [])) ||
  (initialized s && (size s <? max_size cfg)%nat) ||
  (negb (initialized s) && negb (init_in_progress s)).

Definition checkin (c : nat) (created now : Z) (s : SyncPoolState) : SyncPoolState :=
  {| idle := {| conn := c; created := created; last_used := now |} :: idle s;
     size := size s; initialized := initialized s; init_in_progress := init_in_progress s |}.

Definition discard (s : SyncPoolState) : SyncPoolState :=
  {| idle := idle s; size := Nat.pred (size s); initialized := initialized s;
     init_in_progress := init_in_progress s |}.

(** After the first connection opened. *)
Definition land (s : SyncPoolState) : SyncPoolState :=
  {| idle := idle s; size := size s; initialized := true; init_in_progress := false |}.

(** After an [open] failed. *)
Definition fail (first : bool) (s : SyncPoolState) : SyncPoolState :=
  {| idle := idle s; size := Nat.pred (size s); initialized := initialized s;
     init_in_progress := if first then false else init_in_progress s |}.

(** ** Threads *)

(** What a thread does after [notify_one], and after [notify_all]. *)
Inductive after_one : Type :=
| Retry (deadline : option Z)
| Leave.

Inductive after_all : Type :=
| Hand (c : nat)
| Fail (e : Error).

Inductive pc : Type :=
| Outside
| Deciding (deadline : option Z)
| Reusing (deadline : option Z) (i : IdleConn)
| Validating (deadline : option Z) (i : IdleConn) (live_size : nat)
| Probing (deadline : option Z) (i : IdleConn)
| Discarding (k : after_one)
| CheckingIn (c : nat) (created : Z)
| Opening (first : bool)
| Landing (c : nat)
| Failing (first : bool) (e : Error)
| Waiting (deadline : option Z)
| Parked (deadline : option Z)
| Woken (deadline : option Z)
| NotifyingOne (k : after_one)
| NotifyingAll (k : after_all)
| Finishing (c : nat) (created : option Z)
| Returned (r : result nat Error)
| Unwound.

Definition resume_one (k : after_one) : pc :=
  match k with
  | Retry deadline => Deciding deadline
  | Leave => Outside
  end.

Definition resume_all (k : after_all) : pc :=
  match k with
  | Hand c => Finishing c None
  | Fail e => Returned (Err e)
  end.

Definition wake (c : pc) : pc :=
  match c with
  | Parked deadline => Woken deadline
  | c => c
  end.

Definition is_parked (c : pc) : bool :=
  match c with
  | Parked _ => true
  | _ => false
  end.

(** The pool with its threads, the guards they hold, the connections taken out
    of it, the attempts to open one with their modes and successes, the number of
    connections opened, and the clock. *)
Record Pool : Type := {
  state : SyncPoolState;
  threads : list pc;
  guards : list Guard;
  taken : list nat;
  opens : list (CreateMode * bool);
  next : nat;
  now : Z;
}.

(** [build], with [n] threads. *)
Definition build (n : nat) : Pool :=
  {| state := new_state; threads := replicate n Outside; guards := []; taken := [];
     opens := []; next := 0; now := 0 |}.

Definition goto (i : nat) (c : pc) (p : Pool) : Pool :=
  {| state := state p; threads := <[i := c]> (threads p); guards := guards p; taken := taken p;
     opens := opens p; next := next p; now := now p |}.

Definition with_state (s : SyncPoolState) (p : Pool) : Pool :=
  {| state := s; threads := threads p; guards := guards p; taken := taken p;
     opens := opens p; next := next p; now := now p |}.

Definition with_guards (gs : list Guard) (ts : list nat) (p : Pool) : Pool :=
  {| state := state p; threads := threads p; guards := gs; taken := ts;
     opens := opens p; next := next p; now := now p |}.

Definition opened (mode : CreateMode) (ok : bool) (p : Pool) : Pool :=
  {| state := state p; threads := threads p; guards := guards p; taken := taken p;
     opens := opens p ++ [(mode, ok)]; next := if ok then S (next p) else next p; now := now p |}.

Definition notify_all (p : Pool) : Pool :=
  {| state := state p; threads := wake <$> threads p; guards := guards p; taken := taken p;
     opens := opens p; next := next p; now := now p |}.

Definition tick (d : Z) (p : Pool) : Pool :=
  {| state := state p; threads := threads p; guards := guards p; taken := taken p;
     opens := opens p; next := next p; now := now p + d |}.

(** What the caller, the network or the scheduler decides. [notify_one] wakes one
    of the parked threads, [Wake None] is for none. *)
Inductive event : Type :=
| Run
| Get (timeout : option Z)
| DropGuard (k : nat) (alive : bool)
| Take (k : nat)
| Probed (pr : Probe)
| Opened (r : result unit E)
| Wake (j : option nat)
| TimedOut
| Spurious.

(** ** Steps *)

(** [get_timeout] from the decision on. *)
Definition act (i : nat) (deadline : option Z) (p : Pool) : Pool :=
  let '(a, s) := decide_action (state p) in
  let p := with_state s p in
  match a with
  | Reuse c => goto i (Reusing deadline c) p
  | CreateConn first => goto i (Opening first) p
  | Wait => goto i (Waiting deadline) p
  end.

(** [Action::Wait]. *)
Definition park (i : nat) (deadline : option Z) (p : Pool) : Pool :=
  if available (state p) then goto i (Deciding deadline) p
  else match deadline with
       | Some d => if d <=? now p then goto i (Returned (Err timed_out)) p
                   else goto i (Parked deadline) p
       | None => goto i (Parked deadline) p
       end.

(** The end of the recycle probe. *)
Definition probed (i : nat) (deadline : option Z) (c : IdleConn) (pr : Probe) (p : Pool) : Pool :=
  match recycle pr with
  | Val (Ok _) => goto i (Finishing (conn c) (Some (created c))) p
  | Val (Err _) => goto i (Discarding (Retry deadline)) p
  | Panic => goto i Unwound p
  end.

(** The end of [open]. *)
Definition open (i : nat) (first : bool) (r : result unit E) (p : Pool) : Pool :=
  match r with
  | Ok _ => goto i (if first then Landing (next p) else Finishing (next p) None)
              (opened (open_mode first) true p)
  | Err e => goto i (Failing first (FromConnection e)) (opened (open_mode first) false p)
  end.

(** The guard is made and returned. *)
Definition finish (i : nat) (c : nat) (created : option Z) (p : Pool) : Pool :=
  let g := {| guard_conn := c; guard_created := default (now p) created |} in
  goto i (Returned (Ok c)) (with_guards (guards p ++ [g]) (taken p) p).

(** [SyncPooledConnection::drop]. *)
Definition drop_guard (i k : nat) (alive : bool) (p : Pool) : option Pool :=
  g ← guards p !! k;
  let p := with_guards (delete k (guards p)) (taken p) p in
  Some (goto i (if alive then CheckingIn (guard_conn g) (guard_created g) else Discarding Leave) p).

(** [SyncPooledConnection::take]. *)
Definition take_guard (i k : nat) (p : Pool) : option Pool :=
  g ← guards p !! k;
  Some (goto i (Discarding Leave)
          (with_guards (delete k (guards p)) (guard_conn g :: taken p) p)).

Definition notify_one (i : nat) (k : after_one) (j : option nat) (p : Pool) : option Pool :=
  match j with
  | Some j =>
      match threads p !! j with
      | Some (Parked deadline) => Some (goto i (resume_one k) (goto j (Woken deadline) p))
      | _ => None
      end
  | None => if existsb is_parked (threads p) then None else Some (goto i (resume_one k) p)
  end.

(** One step of thread [i]; [None] when the event does not fit where it is. *)
Definition exec (i : nat) (e : event) (p : Pool) : option Pool :=
  c ← threads p !! i;
  match c, e with
  | Outside, Get t | Returned _, Get t => Some (goto i (Deciding ((Z.add (now p)) <$> t)) p)
  | Outside, DropGuard k alive | Returned _, DropGuard k alive => drop_guard i k alive p
  | Outside, Take k | Returned _, Take k => take_guard i k p
  | Deciding deadline, Run => Some (act i deadline p)
  | Reusing deadline c, Run => Some (goto i (Validating deadline c (size (state p))) p)
  | Validating deadline c live_size, Run =>
      Some (goto i (if should_evict (now p) c live_size then Discarding (Retry deadline)
                    else Probing deadline c) p)
  | Probing deadline c, Probed pr => Some (probed i deadline c pr p)
  | Discarding k, Run => Some (goto i (NotifyingOne k) (with_state (discard (state p)) p))
  | CheckingIn c created, Run =>
      Some (goto i (NotifyingOne Leave) (with_state (checkin c created (now p) (state p)) p))
  | Opening first, Opened r => Some (open i first r p)
  | Landing c, Run => Some (goto i (NotifyingAll (Hand c)) (with_state (land (state p)) p))
  | Failing first e, Run =>
      Some (goto i (NotifyingAll (Fail e)) (with_state (fail first (state p)) p))
  | Waiting deadline, Run => Some (park i deadline p)
  | Parked (Some d), TimedOut =>
      if d <=? now p then Some (goto i (Returned (Err timed_out)) p) else None
  | Parked deadline, Spurious => Some (goto i (Woken deadline) p)
  | Woken deadline, Run => Some (goto i (Deciding deadline) p)
  | NotifyingOne k, Wake j => notify_one i k j p
  | NotifyingAll k, Run => Some (goto i (resume_all k) (notify_all p))
  | Finishing c created, Run => Some (finish i c created p)
  | _, _ => None
  end.

Inductive step : Pool -> Pool -> Prop :=
| step_thread i e p p' : exec i e p = Some p' -> step p p'
| step_clock d p : 0 <= d -> step p (tick d p).

(** The states any threads can bring a new pool into. *)
Definition reachable (p : Pool) : Prop := exists n, rtc step (build n) p.

(** A thread's own activity: everything but the calls of the user, spurious
    wake-ups and timeouts. *)
Definition is_internal (e : event) : bool :=
  match e with
  | Run | Probed _ | Opened _ | Wake _ => true
  | _ => false
  end.

Definition internal (p p' : Pool) : Prop := exists i e, is_internal e = true /\ exec i e p = Some p'.

(** A thread that waits for nothing but its user or a notification. *)
Definition is_quiet (c : pc) : bool :=
  match c with
  | Outside | Returned _ | Parked _ | Unwound => true
  | _ => false
  end.

Definition quiescent (p : Pool) : Prop := Forall (fun c => is_quiet c = true) (threads p).

(** ** A call on its own *)

Fixpoint first_parked (ts : list pc) : option nat :=
  match ts with
  | [] => None
  | c :: ts => if is_parked c then Some 0%nat else S <$> first_parked ts
  end.

(** What happens next to a thread in a call, when each connection answers as
    [probe] says and the server as [r]. *)
Definition solo_event (probe : nat -> Probe) (r : result unit E) (p : Pool) (c : pc) : option event :=
  match c with
  | Outside | Returned _ | Parked _ | Unwound => None
  | Probing _ c => Some (Probed (probe (conn c)))
  | Opening _ => Some (Opened r)
  | NotifyingOne _ => Some (Wake (first_parked (threads p)))
  | _ => Some Run
  end.

(** At most [fuel] steps of thread [i], the others standing still. *)
Fixpoint solo (probe : nat -> Probe) (r : result unit E) (fuel i : nat) (p : Pool) : Pool :=
  match fuel with
  | O => p
  | S fuel =>
      match (c ← threads p !! i; e ← solo_event probe r p c; exec i e p) with
      | Some p => solo probe r fuel i p
      | None => p
      end
  end.

(** The idle connections in the order they are tried: those left, the size after
    the discarded ones, and the one that passes, if any, or a check's panic. *)
Fixpoint checkout (probe : nat -> Probe) (t : Z) (idle : list IdleConn) (size : nat)
  : list IdleConn * nat * outcome (option IdleConn) :=
  match idle with
  | [] => ([], size, Val None)
  | c :: rest =>
      if should_evict t c size then checkout probe t rest (Nat.pred size)
      else match recycle (probe (conn c)) with
           | Val (Ok _) => (rest, size, Val (Some c))
           | Val (Err _) => checkout probe t rest (Nat.pred size)
           | Panic => (rest, size, Panic)
           end
  end.

(** The results of a call that is not disturbed: the thread, the state, the
    guards and the attempts to open. *)
Definition get_spec (probe : nat -> Probe) (r : result unit E) (deadline : option Z) (p : Pool)
  : pc * SyncPoolState * list Guard * list (CreateMode * bool) :=
  let s := state p in
  let st idle size ini prog :=
    {| idle := idle; size := size; initialized := ini; init_in_progress := prog |} in
  let fresh := {| guard_conn := next p; guard_created := now p |} in
  let '(rest, n, chosen) := checkout probe (now p) (idle s) (size s) in
  match chosen with
  | Panic => (Unwound, st rest n (initialized s) (init_in_progress s), guards p, opens p)
  | Val (Some c) =>
      (Returned (Ok (conn c)), st rest n (initialized s) (init_in_progress s),
       guards p ++ [{| guard_conn := conn c; guard_created := created c |}], opens p)
  | Val None =>
      if if initialized s then (max_size cfg <=? n)%nat else init_in_progress s then
        (match deadline with
         | Some d => if d <=? now p then Returned (Err timed_out) else Parked deadline
         | None => Parked deadline
         end, st rest n (initialized s) (init_in_progress s), guards p, opens p)
      else
        let mode := if initialized s then DoNotCreate else create_mode cfg in
        let prog := initialized s && init_in_progress s in
        match r with
        | Ok _ => (Returned (Ok (next p)), st rest (S n) true prog, guards p ++ [fresh],
                   opens p ++ [(mode, true)])
        | Err e => (Returned (Err (FromConnection e)), st rest n (initialized s) prog, guards p,
                    opens p ++ [(mode, false)])
        end
  end.

(** ** Counting over the threads *)

Definition total (f : pc -> nat) (p : Pool) : nat := sum_list_with f (threads p).

(** The connection a thread has in hand. *)
Definition held (c : pc) : list nat :=
  match c with
  | Reusing _ i | Validating _ i _ | Probing _ i => [conn i]
  | CheckingIn c _ | Landing c | Finishing c _ => [c]
  | NotifyingAll (Hand c) => [c]
  | _ => []
  end.

(** The slots of the pool's size a thread accounts for. *)
Definition slots (c : pc) : nat :=
  match c with
  | Reusing _ _ | Validating _ _ _ | Probing _ _ | Discarding _ | CheckingIn _ _
  | Opening _ | Landing _ | Failing _ _ | Finishing _ _ | Unwound => 1
  | NotifyingAll (Hand _) => 1
  | _ => 0
  end.

(** Threads in the first connection's handshake, and past its success. *)
Definition handshake (c : pc) : nat :=
  match c with
  | Opening true | Landing _ | Failing true _ => 1
  | _ => 0
  end.

Definition landing (c : pc) : nat :=
  match c with
  | Landing _ => 1
  | _ => 0
  end.

Definition unwound (c : pc) : nat :=
  match c with
  | Unwound => 1
  | _ => 0
  end.

Definition parked (c : pc) : nat :=
  match c with
  | Parked _ => 1
  | _ => 0
  end.

(** Threads that will look at the state again, and those they will wake. *)
Definition lookers (c : pc) : nat :=
  match c with
  | Deciding _ | Woken _ => 1
  | NotifyingOne (Retry _) => 2
  | NotifyingOne _ => 1
  | _ => 0
  end.

Definition broadcasting (c : pc) : nat :=
  match c with
  | NotifyingAll _ => 1
  | _ => 0
  end.

Lemma sum_list_with_insert {A} (f : A -> nat) l i a b :
  l !! i = Some a -> (sum_list_with f (<[i := b]> l) + f a = sum_list_with f l + f b)%nat.
Proof.
  revert i. induction l as [| x l IH]; intros [| i] H; simplify_eq/=; [lia |].
  specialize (IH i H). lia.
Qed.

Lemma sum_list_with_lookup {A} (f : A -> nat) l i a :
  l !! i = Some a -> (f a <= sum_list_with f l)%nat.
Proof.
  revert i. induction l as [| x l IH]; intros [| i] H; simplify_eq/=; [lia |].
  specialize (IH i H). lia.
Qed.

Lemma sum_list_with_ext {A} (f g : A -> nat) l :
  (forall a, f a = g a) -> sum_list_with f l = sum_list_with g l.
Proof. intros H. induction l; simpl; auto. Qed.

Lemma sum_list_with_le {A} (f g : A -> nat) l :
  (forall a, f a <= g a)%nat -> (sum_list_with f l <= sum_list_with g l)%nat.
Proof. intros H. induction l as [| a l IH]; simpl; [lia |]. specialize (H a). lia. Qed.

Lemma sum_list_with_fmap {A B} (f : B -> nat) (g : A -> B) l :
  sum_list_with f (g <$> l) = sum_list_with (f ∘ g) l.
Proof. induction l; simpl; auto. Qed.

Lemma total_goto f i c c' p :
  threads p !! i = Some c -> (total f (goto i c' p) + f c = total f p + f c')%nat.
Proof. apply sum_list_with_insert. Qed.

Lemma total_lookup f i c p : threads p !! i = Some c -> (f c <= total f p)%nat.
Proof. apply sum_list_with_lookup. Qed.

Lemma total_notify_all f p : (forall c, f (wake c) = f c) -> total f (notify_all p) = total f p.
Proof. intros H. unfold total. simpl. rewrite sum_list_with_fmap. by apply sum_list_with_ext. Qed.

Lemma total_parked_notify_all p : total parked (notify_all p) = 0%nat.
Proof.
  unfold total. simpl. rewrite sum_list_with_fmap. induction (threads p) as [| c l IH]; [done |].
  simpl. rewrite IH. by destruct c.
Qed.

(** ** The invariant *)

(** The slots a thread that decides now would find. *)
Definition free (s : SyncPoolState) : nat :=
  (length (idle s) +
   if initialized s then max_size cfg - size s else if init_in_progress s then 0 else 1)%nat.

(** The attempts to open: failures in the configured mode, its one success, and
    then only [DoNotCreate]. *)
Definition opens_ok (p : Pool) : Prop :=
  exists n rest,
    opens p = replicate n (create_mode cfg, false) ++ rest /\
    (if initialized (state p)
     then exists l, rest = (create_mode cfg, true) :: l /\ Forall (fun o => o.1 = DoNotCreate) l
     else rest = replicate (total landing p) (create_mode cfg, true)).

Record invariant (p : Pool) : Prop := {
  inv_size : size (state p) = (length (idle (state p)) + length (guards p) + total slots p)%nat;
  inv_bound : (size (state p) <= Nat.max 1 (max_size cfg))%nat;
  inv_handshake : total handshake p = if init_in_progress (state p) then 1%nat else 0%nat;
  inv_init : initialized (state p) = true -> init_in_progress (state p) = false;
  inv_uninit : initialized (state p) = false -> size (state p) = total handshake p;
  inv_wake : total parked p = 0%nat \/ (0 < total broadcasting p)%nat \/
             (free (state p) <= total lookers p)%nat;
  inv_opens : opens_ok p;
}.

Lemma total_replicate f n : f Outside = 0%nat -> total f (build n) = 0%nat.
Proof. intros H. unfold total. simpl. induction n; simpl; [done | lia]. Qed.

Lemma invariant_build n : invariant (build n).
Proof.
  constructor; rewrite ?total_replicate by done; simpl; try (done || lia).
  exists 0%nat, []. by rewrite total_replicate.
Qed.

Lemma total_update f i c c' p p' :
  threads p !! i = Some c -> threads p' = <[i := c']> (threads p) ->
  (total f p' + f c = total f p + f c')%nat.
Proof. intros H Ht. unfold total. rewrite Ht. by apply sum_list_with_insert. Qed.

Lemma opens_ok_same p p' :
  opens p' = opens p -> initialized (state p') = initialized (state p) ->
  total landing p' = total landing p -> opens_ok p -> opens_ok p'.
Proof. intros Ho Hi Hl. unfold opens_ok. by rewrite Ho, Hi, Hl. Qed.

(** The counts of [q], which is [p] with one thread moved. *)
Ltac counts Hc p q :=
  pose proof (total_update slots _ _ _ p q Hc eq_refl);
  pose proof (total_update handshake _ _ _ p q Hc eq_refl);
  pose proof (total_update landing _ _ _ p q Hc eq_refl);
  pose proof (total_update parked _ _ _ p q Hc eq_refl);
  pose proof (total_update lookers _ _ _ p q Hc eq_refl);
  pose proof (total_update broadcasting _ _ _ p q Hc eq_refl).

(** [moved Hc] gives the counts of the pool in the goal after one thread moved
    from where [Hc] says it was, and its other fields, and forgets how it was
    made. *)
Ltac moved Hc :=
  match type of Hc with
  | threads ?p !! ?i = Some ?c =>
    match goal with
    | |- invariant ?q =>
      let q' := fresh "q" in
      let Hs := fresh "Hstate" in
      let Hg := fresh "Hguards" in
      let Ho := fresh "Hopens" in
      pose (q' := q); change (invariant q');
      counts Hc p q';
      (let s := eval cbn in (state q) in assert (Hs : state q' = s) by reflexivity);
      (let g := eval cbn in (guards q) in assert (Hg : guards q' = g) by reflexivity);
      (let o := eval cbn in (opens q) in assert (Ho : opens q' = o) by reflexivity);
      cbn [slots handshake landing parked lookers broadcasting resume_one resume_all] in *;
      clearbody q'
    end
  end.

(** The components of the invariant after a step that opened nothing and landed
    nothing. *)
Ltac inv_solve :=
  match goal with
  | H : invariant _ |- _ => destruct H; constructor
  end;
  try match goal with
      | Hs : state ?q = _, Hok : opens_ok ?p |- opens_ok ?q =>
          apply (opens_ok_same p q);
          [congruence | rewrite Hs; cbn [initialized]; congruence | lia | exact Hok]
      end;
  repeat match goal with
  | H : state ?q = _ |- context [state ?q] => rewrite H
  | H : guards ?q = _ |- context [guards ?q] => rewrite H
  end;
  unfold free in *; cbn [size idle initialized init_in_progress] in *;
  rewrite ?length_app, ?length_cons in *; cbn [length] in *.

Ltac inv_lia :=
  intros; try congruence;
  repeat match goal with |- context [if ?b then _ else _] => destruct b eqn:? end;
  repeat match goal with
  | H : ?b = ?v -> _, H' : ?b = ?v |- _ => specialize (H H')
  | H : init_in_progress ?s = _ |- _ => progress rewrite H in *
  | H : initialized ?s = _ |- _ => progress rewrite H in *
  | H : idle ?s = _ |- _ => progress rewrite H in *
  end;
  simpl length in *; try congruence; lia.

Lemma invariant_stay i c c' p :
  threads p !! i = Some c -> slots c' = slots c -> handshake c' = handshake c ->
  landing c' = landing c -> (parked c' <= parked c)%nat -> (lookers c <= lookers c')%nat ->
  (broadcasting c <= broadcasting c')%nat ->
  invariant p -> invariant (goto i c' p).
Proof.
  intros Hc Hs Hh Hl Hp Hk Hb Hi. moved Hc. inv_solve; inv_lia.
Qed.

Ltac stay := eapply invariant_stay; [eassumption | cbn; lia .. | eassumption].

(** The decision takes what a looker was counted for. *)
Lemma invariant_act i deadline p :
  threads p !! i = Some (Deciding deadline) -> invariant p -> invariant (act i deadline p).
Proof.
  intros Hc Hi. unfold act, decide_action.
  destruct (idle (state p)) as [| c rest] eqn:Hidle.
  - destruct (initialized (state p)) eqn:Hini; [| destruct (init_in_progress (state p)) eqn:Hprog];
      cbn [negb].
    + destruct (Nat.ltb_spec (size (state p)) (max_size cfg)); moved Hc; inv_solve; inv_lia.
    + moved Hc. inv_solve; inv_lia.
    + moved Hc. inv_solve; inv_lia.
  - moved Hc. inv_solve; inv_lia.
Qed.

Lemma available_free s : (initialized s = true -> init_in_progress s = false) ->
  available s = (0 <? free s)%nat.
Proof.
  intros Hi. unfold available, free. destruct s as [[| c l] n [] []]; simpl in *;
    try (specialize (Hi eq_refl)); try done; try (case_bool_decide; done);
    try (destruct (Nat.ltb_spec n (max_size cfg)), (Nat.ltb_spec 0 (max_size cfg - n)); done || lia).
Qed.

Lemma invariant_park i deadline p :
  threads p !! i = Some (Waiting deadline) -> invariant p -> invariant (park i deadline p).
Proof.
  intros Hc Hi. unfold park. rewrite available_free by apply (inv_init _ Hi).
  destruct (Nat.ltb_spec 0 (free (state p))) as [Hf | Hf]; [stay |].
  assert (Hpark : invariant (goto i (Parked deadline) p)).
  { unfold free in Hf. moved Hc. inv_solve; inv_lia. }
  destruct deadline as [d |]; [| done]. destruct (d <=? now p); [| done].
  stay.
Qed.

Lemma invariant_probed i deadline c pr p :
  threads p !! i = Some (Probing deadline c) -> invariant p -> invariant (probed i deadline c pr p).
Proof.
  intros Hc Hi. unfold probed. by destruct (recycle pr) as [[] |]; eapply invariant_stay.
Qed.

(** A slot of a thread that is not in the handshake leaves the handshake with
    fewer than all of them. *)
Lemma total_handshake_slots i c p :
  threads p !! i = Some c -> (total handshake p + (slots c - handshake c) <= total slots p)%nat.
Proof.
  unfold total. generalize (threads p) as l. intros l. revert i.
  assert (Hle : forall c, (handshake c <= slots c)%nat) by (intros []; cbn; try case_match; lia).
  induction l as [| d l IH]; intros [| i] Hc; simplify_eq/=.
  - pose proof (sum_list_with_le handshake slots l Hle). pose proof (Hle c). lia.
  - specialize (IH i Hc). pose proof (Hle d). lia.
Qed.

Lemma invariant_discarding i k p :
  threads p !! i = Some (Discarding k) -> invariant p ->
  invariant (goto i (NotifyingOne k) (with_state (discard (state p)) p)).
Proof.
  intros Hc Hi. pose proof (total_handshake_slots _ _ _ Hc). cbn [slots handshake] in *.
  unfold discard. destruct k; moved Hc; inv_solve; inv_lia.
Qed.

Lemma invariant_checkin i c created p :
  threads p !! i = Some (CheckingIn c created) -> invariant p ->
  invariant (goto i (NotifyingOne Leave) (with_state (checkin c created (now p) (state p)) p)).
Proof. intros Hc Hi. unfold checkin. pose proof (total_handshake_slots _ _ _ Hc). moved Hc. inv_solve; inv_lia. Qed.

Lemma total_landing_le p : (total landing p <= total handshake p)%nat.
Proof. apply sum_list_with_le. intros [| | | | | | | [] | | [] | | | | | | | |]; cbn; lia. Qed.

(** A thread of the handshake: it runs alone, and before anything is initialized. *)
Lemma handshake_alone i c p :
  invariant p -> threads p !! i = Some c -> handshake c = 1%nat ->
  init_in_progress (state p) = true /\ initialized (state p) = false /\
  total handshake p = 1%nat /\ total landing p = landing c.
Proof.
  intros [] Hc Hh. pose proof (total_lookup handshake _ _ _ Hc).
  destruct (init_in_progress (state p)) eqn:Hp; [| lia].
  destruct (initialized (state p)) eqn:Hi; [by specialize (inv_init0 eq_refl) |].
  split_and!; [done | done | done |]. revert inv_handshake0 Hc Hh. clear. unfold total.
  generalize (threads p) as l. intros l. revert i.
  assert (Hle : forall c, (landing c <= handshake c)%nat) by (intros []; cbn; try case_match; lia).
  induction l as [| d l IH]; intros [| i] Hl Hc Hh; simplify_eq/=.
  - pose proof (sum_list_with_le landing handshake l Hle). lia.
  - pose proof (sum_list_with_lookup handshake _ _ _ Hc). pose proof (Hle d).
    rewrite (IH i); [lia | lia | done | done].
Qed.

Lemma opens_ok_land p p' :
  opens p' = opens p -> initialized (state p') = true -> initialized (state p) = false ->
  total landing p = 1%nat -> opens_ok p -> opens_ok p'.
Proof.
  intros Ho Hi' Hi Hl (n & rest & Heq & Hrest). unfold opens_ok. rewrite Ho, Hi'.
  rewrite Hi, Hl in Hrest. exists n, rest. split; [done |]. by exists [].
Qed.

Lemma invariant_land i c p :
  threads p !! i = Some (Landing c) -> invariant p ->
  invariant (goto i (NotifyingAll (Hand c)) (with_state (land (state p)) p)).
Proof.
  intros Hc Hi. destruct (handshake_alone _ _ _ Hi Hc) as (Hp & Hini & Hone & Hl); [done |].
  unfold land. moved Hc. inv_solve; try inv_lia.
  eapply opens_ok_land; [eassumption | by rewrite Hstate | done | done | done].
Qed.

Lemma invariant_fail i first e p :
  threads p !! i = Some (Failing first e) -> invariant p ->
  invariant (goto i (NotifyingAll (Fail e)) (with_state (fail first (state p)) p)).
Proof.
  intros Hc Hi. pose proof (total_handshake_slots _ _ _ Hc). unfold fail. destruct first.
  - destruct (handshake_alone _ _ _ Hi Hc) as (Hp & Hini & Hone & Hl); [done |].
    cbn [handshake landing slots] in *. moved Hc. inv_solve; inv_lia.
  - cbn [handshake slots] in *. moved Hc. inv_solve; inv_lia.
Qed.

Lemma opens_ok_first p p' ok :
  opens p' = opens p ++ [(create_mode cfg, ok)] ->
  initialized (state p) = false -> initialized (state p') = false ->
  total landing p = 0%nat -> total landing p' = (if ok then 1 else 0)%nat ->
  opens_ok p -> opens_ok p'.
Proof.
  intros Ho Hi Hi' Hl Hl' (n & rest & Heq & Hrest). unfold opens_ok. rewrite Ho, Hi', Hl'.
  rewrite Hi, Hl in Hrest. cbn in Hrest. subst rest. rewrite app_nil_r in Heq. rewrite Heq.
  destruct ok; [by exists n, [(create_mode cfg, true)] |].
  exists (S n), []. split; [| done]. by rewrite app_nil_r, replicate_S_end.
Qed.

Lemma opens_ok_later p p' ok :
  opens p' = opens p ++ [(DoNotCreate, ok)] ->
  initialized (state p) = true -> initialized (state p') = true ->
  opens_ok p -> opens_ok p'.
Proof.
  intros Ho Hi Hi' (n & rest & Heq & Hrest). unfold opens_ok. rewrite Ho, Hi'. rewrite Hi in Hrest.
  destruct Hrest as (l & -> & Hl). exists n, ((create_mode cfg, true) :: l ++ [(DoNotCreate, ok)]).
  split; [by rewrite Heq, <- app_assoc |]. eexists. split; [done |].
  apply Forall_app_2; [done |]. by repeat constructor.
Qed.

(** A connection opened after the first is opened in an initialized pool. *)
Lemma later_initialized i c p :
  invariant p -> threads p !! i = Some c -> (handshake c < slots c)%nat ->
  initialized (state p) = true.
Proof.
  intros [] Hc Hlt. pose proof (total_handshake_slots _ _ _ Hc).
  destruct (initialized (state p)) eqn:Hi; [done |]. specialize (inv_uninit0 eq_refl). lia.
Qed.

Lemma invariant_open i first r p :
  threads p !! i = Some (Opening first) -> invariant p -> invariant (open i first r p).
Proof.
  intros Hc Hi. unfold open, open_mode. destruct first.
  - destruct (handshake_alone _ _ _ Hi Hc) as (Hp & Hini & Hone & Hl); [done |].
    cbn [handshake landing slots] in *. destruct r; moved Hc; inv_solve; try inv_lia.
    + eapply (opens_ok_first p _ true); eauto; congruence || lia.
    + eapply (opens_ok_first p _ false); eauto; congruence || lia.
  - pose proof (later_initialized _ _ _ Hi Hc ltac:(cbn; lia)) as Hini.
    destruct r; moved Hc; inv_solve; try inv_lia.
    + eapply (opens_ok_later p _ true); eauto; congruence.
    + eapply (opens_ok_later p _ false); eauto; congruence.
Qed.

Lemma invariant_finish i c cr p :
  threads p !! i = Some (Finishing c cr) -> invariant p -> invariant (finish i c cr p).
Proof. intros Hc Hi. unfold finish. moved Hc. inv_solve; inv_lia. Qed.

(** Where a thread that is not in a call of the pool stands. *)
Definition at_rest (c : pc) : bool :=
  match c with
  | Outside | Returned _ => true
  | _ => false
  end.

Ltac at_rest Hr := match type of Hr with at_rest ?c = true => destruct c; try discriminate Hr end.

Lemma length_delete_guard k (gs : list Guard) g :
  gs !! k = Some g -> length gs = S (length (delete k gs)).
Proof. intros Hg. rewrite length_delete by eauto. apply lookup_lt_Some in Hg. lia. Qed.

Lemma invariant_drop i k alive p p' c :
  threads p !! i = Some c -> at_rest c = true -> drop_guard i k alive p = Some p' ->
  invariant p -> invariant p'.
Proof.
  intros Hc Hr Hd Hi. apply bind_Some in Hd as (g & Hg & [= <-]).
  pose proof (length_delete_guard _ _ _ Hg).
  at_rest Hr; destruct alive; moved Hc; inv_solve; inv_lia.
Qed.

Lemma invariant_take i k p p' c :
  threads p !! i = Some c -> at_rest c = true -> take_guard i k p = Some p' ->
  invariant p -> invariant p'.
Proof.
  intros Hc Hr Hd Hi. apply bind_Some in Hd as (g & Hg & [= <-]).
  pose proof (length_delete_guard _ _ _ Hg). at_rest Hr; moved Hc; inv_solve; inv_lia.
Qed.

Lemma total_parked_none p : existsb is_parked (threads p) = false -> total parked p = 0%nat.
Proof.
  unfold total. induction (threads p) as [| c l IH]; [done |]. simpl.
  intros [Hc Hl]%orb_false_iff. rewrite IH by done. by destruct c.
Qed.

Lemma invariant_notify_one i k j p p' :
  threads p !! i = Some (NotifyingOne k) -> notify_one i k j p = Some p' ->
  invariant p -> invariant p'.
Proof.
  intros Hc Hn Hi. unfold notify_one in Hn. destruct j as [j |].
  - destruct (threads p !! j) as [[] |] eqn:Hj; simplify_eq.
    pose (p1 := goto j (Woken deadline) p).
    assert (Hc1 : threads p1 !! i = Some (NotifyingOne k)).
    { simpl. by rewrite list_lookup_insert_ne by congruence. }
    counts Hj p p1. cbn [slots handshake landing parked lookers broadcasting] in *.
    assert (Hs1 : state p1 = state p) by done. assert (Hg1 : guards p1 = guards p) by done.
    assert (Ho1 : opens p1 = opens p) by done.
    change (goto j (Woken deadline) p) with p1. clearbody p1.
    destruct k; moved Hc1; inv_solve; inv_lia.
  - destruct (existsb is_parked (threads p)) eqn:Hp; simplify_eq.
    apply total_parked_none in Hp. destruct k; moved Hc; inv_solve; inv_lia.
Qed.

Lemma invariant_notify_all i k p :
  threads p !! i = Some (NotifyingAll k) -> invariant p ->
  invariant (goto i (resume_all k) (notify_all p)).
Proof.
  intros Hc Hi. assert (Hc1 : threads (notify_all p) !! i = Some (NotifyingAll k)).
  { simpl. by rewrite list_lookup_fmap, Hc. }
  pose proof (total_notify_all slots p ltac:(by intros [])).
  pose proof (total_notify_all handshake p ltac:(by intros [])).
  pose proof (total_notify_all landing p ltac:(by intros [])).
  pose proof (total_parked_notify_all p).
  destruct k; moved Hc1; inv_solve; inv_lia.
Qed.

Lemma invariant_exec i e p p' : exec i e p = Some p' -> invariant p -> invariant p'.
Proof.
  unfold exec. intros (c & Hc & He)%bind_Some Hi.
  destruct c as [| | | | | | | | | | | [] | | | | | |], e; try discriminate He;
    try (injection He as <-); try (stay || (eauto using invariant_act, invariant_probed, invariant_discarding,
      invariant_checkin, invariant_land, invariant_fail, invariant_park, invariant_open,
      invariant_finish, invariant_notify_all; fail)).
  - eapply invariant_drop; eauto; done.
  - eapply invariant_take; eauto; done.
  - destruct (should_evict _ _ _); stay.
  - destruct (_ <=? _); simplify_eq; stay.
  - eapply invariant_notify_one; eauto.
  - eapply invariant_drop; eauto; done.
  - eapply invariant_take; eauto; done.
Qed.

(** ** Ownership *)

(** Every place a connection can be in. *)
Definition owned (p : Pool) : list nat :=
  (conn <$> idle (state p)) ++ (guard_conn <$> guards p) ++ concat (held <$> threads p) ++ taken p.

Record exclusive (p : Pool) : Prop := {
  excl_nodup : NoDup (owned p);
  excl_next : Forall (fun c => c < next p)%nat (owned p);
}.

Lemma exclusive_sub p p' :
  next p' = next p -> owned p' ⊆+ owned p -> exclusive p -> exclusive p'.
Proof.
  intros Hn (k & Hk)%submseteq_Permutation [Hd Hf]. rewrite Hk in Hd, Hf. rewrite <- Hn in Hf.
  split; [by apply list.NoDup_app in Hd as [] | by apply Forall_app in Hf as []].
Qed.

(** The connections of the threads other than [i]. *)
Definition others (i : nat) (ts : list pc) : list nat := concat (held <$> delete i ts).

Lemma held_split i c ts :
  ts !! i = Some c -> concat (held <$> ts) ≡ₚ held c ++ others i ts.
Proof.
  intros Hc. unfold others. rewrite (delete_Permutation ts i c Hc) at 1. done.
Qed.

Lemma others_insert i c ts : others i (<[i := c]> ts) = others i ts.
Proof.
  unfold others. do 2 f_equal. revert i. induction ts as [| d ts IH]; intros [| i]; simpl; try done.
  by rewrite IH.
Qed.

Lemma held_goto i c c' ts :
  ts !! i = Some c -> concat (held <$> <[i := c']> ts) ≡ₚ held c' ++ others i ts.
Proof.
  intros Hc. rewrite <- (others_insert i c'). apply held_split.
  apply list_lookup_insert_eq. by eapply lookup_lt_Some.
Qed.

Lemma held_same i c c' ts :
  ts !! i = Some c -> held c' = held c -> concat (held <$> <[i := c']> ts) = concat (held <$> ts).
Proof.
  intros Hc Hh. rewrite list_fmap_insert, Hh. f_equal. apply list_insert_id.
  by rewrite list_lookup_fmap, Hc.
Qed.

Lemma held_wake (ts : list pc) : held <$> (wake <$> ts) = held <$> ts.
Proof. rewrite <- list_fmap_compose. apply list_fmap_ext. by intros _ [] _. Qed.

(** [owns Hc] puts the ownership of a pool in which one thread moved next to that
    of the pool before. *)
Ltac owns Hc :=
  unfold owned; cbn [state threads guards taken opens next goto with_state with_guards opened idle];
  rewrite (held_goto _ _ _ _ Hc), (held_split _ _ _ Hc); cbn [held app fmap list_fmap].

(** A step that moves a thread and no connection. *)
Lemma exclusive_move i c c' p p' :
  threads p !! i = Some c -> threads p' = <[i := c']> (threads p) ->
  idle (state p') = idle (state p) -> guards p' = guards p -> taken p' = taken p ->
  next p' = next p -> held c' ⊆+ held c -> exclusive p -> exclusive p'.
Proof.
  intros Hc Ht Hi Hg Hta Hn Hh. apply exclusive_sub; [done |]. unfold owned.
  rewrite Ht, Hi, Hg, Hta, (held_goto _ _ _ _ Hc), (held_split _ _ _ Hc).
  do 2 (apply submseteq_app; [done |]). apply submseteq_app; [| done]. by apply submseteq_app.
Qed.

Ltac no_move Hc :=
  eapply (exclusive_move _ _ _ _ _ Hc); [done .. | cbn; solve_submseteq | eassumption].

Lemma exclusive_act i deadline p :
  threads p !! i = Some (Deciding deadline) -> exclusive p -> exclusive (act i deadline p).
Proof.
  intros Hc. unfold act, decide_action.
  destruct (idle (state p)) as [| c rest] eqn:Hidle; repeat case_match; simplify_eq;
    apply exclusive_sub; try done; owns Hc; rewrite Hidle; cbn; solve_submseteq.
Qed.

Lemma exclusive_open i first r p :
  threads p !! i = Some (Opening first) -> exclusive p -> exclusive (open i first r p).
Proof.
  intros Hc Hx. unfold open. destruct r as [[] | e].
  - assert (Hp : owned (goto i (if first then Landing (next p) else Finishing (next p) None)
      (opened (open_mode first) true p)) ≡ₚ next p :: owned p).
    { unfold owned. cbn. rewrite (held_goto _ _ _ _ Hc), (held_split _ _ _ Hc).
      destruct first; cbn; solve_Permutation. }
    destruct Hx as [Hd Hf]. split; rewrite Hp.
    + apply list.NoDup_cons. split; [| done]. intros Hin. rewrite list.Forall_forall in Hf. specialize (Hf _ Hin). lia.
    + cbn. constructor; [lia |]. eapply Forall_impl; [| exact Hf]. cbn. lia.
  - revert Hx. apply exclusive_sub; [done |]. owns Hc. destruct first; cbn; solve_submseteq.
Qed.

Lemma exclusive_finish i c cr p :
  threads p !! i = Some (Finishing c cr) -> exclusive p -> exclusive (finish i c cr p).
Proof.
  intros Hc. apply exclusive_sub; [done |]. unfold finish. owns Hc. rewrite fmap_app. cbn.
  solve_submseteq.
Qed.

Lemma exclusive_checkin i c cr p :
  threads p !! i = Some (CheckingIn c cr) -> exclusive p ->
  exclusive (goto i (NotifyingOne Leave) (with_state (checkin c cr (now p) (state p)) p)).
Proof. intros Hc. apply exclusive_sub; [done |]. owns Hc. cbn. solve_submseteq. Qed.

Lemma guards_split k p g :
  guards p !! k = Some g ->
  guard_conn <$> guards p ≡ₚ guard_conn g :: (guard_conn <$> delete k (guards p)).
Proof. intros Hg. rewrite (delete_Permutation _ _ _ Hg) at 1. done. Qed.

Lemma exclusive_drop i k alive p p' c :
  threads p !! i = Some c -> at_rest c = true -> drop_guard i k alive p = Some p' ->
  exclusive p -> exclusive p'.
Proof.
  intros Hc Hr (g & Hg & [= <-])%bind_Some. apply exclusive_sub; [by destruct alive |].
  at_rest Hr; owns Hc; rewrite (guards_split _ _ _ Hg); destruct alive; cbn; solve_submseteq.
Qed.

Lemma exclusive_take i k p p' c :
  threads p !! i = Some c -> at_rest c = true -> take_guard i k p = Some p' ->
  exclusive p -> exclusive p'.
Proof.
  intros Hc Hr (g & Hg & [= <-])%bind_Some. apply exclusive_sub; [done |].
  at_rest Hr; owns Hc; rewrite (guards_split _ _ _ Hg); cbn; solve_submseteq.
Qed.

Lemma exclusive_notify_one i k j p p' :
  threads p !! i = Some (NotifyingOne k) -> notify_one i k j p = Some p' ->
  exclusive p -> exclusive p'.
Proof.
  intros Hc Hn Hx. unfold notify_one in Hn. destruct j as [j |].
  - destruct (threads p !! j) as [[] |] eqn:Hj; simplify_eq.
    assert (Hc1 : threads (goto j (Woken deadline) p) !! i = Some (NotifyingOne k)).
    { simpl. by rewrite list_lookup_insert_ne by congruence. }
    assert (exclusive (goto j (Woken deadline) p)) by no_move Hj. destruct k; no_move Hc1.
  - destruct (existsb _ _); simplify_eq. destruct k; no_move Hc.
Qed.

Lemma exclusive_notify_all i k p :
  threads p !! i = Some (NotifyingAll k) -> exclusive p ->
  exclusive (goto i (resume_all k) (notify_all p)).
Proof.
  intros Hc Hx. assert (Hc1 : threads (notify_all p) !! i = Some (NotifyingAll k)).
  { simpl. by rewrite list_lookup_fmap, Hc. }
  assert (exclusive (notify_all p)).
  { revert Hx. apply exclusive_sub; [done |]. unfold owned. cbn. by rewrite held_wake. }
  destruct k; no_move Hc1.
Qed.

Lemma exclusive_exec i e p p' : exec i e p = Some p' -> exclusive p -> exclusive p'.
Proof.
  unfold exec. intros (c & Hc & He)%bind_Some Hx.
  destruct c as [| | | | | | | | | | | [] | | | | | |], e; try discriminate He;
    try (injection He as <-);
    try (no_move Hc || (eauto using exclusive_act, exclusive_checkin, exclusive_open, exclusive_finish,
                    exclusive_notify_all; fail)).
  - eapply exclusive_drop; eauto; done.
  - eapply exclusive_take; eauto; done.
  - destruct (should_evict _ _ _); no_move Hc.
  - unfold probed. destruct (recycle pr) as [[] |]; no_move Hc.
  - unfold park. repeat case_match; no_move Hc.
  - destruct (_ <=? _); simplify_eq; no_move Hc.
  - eapply exclusive_notify_one; eauto.
  - eapply exclusive_drop; eauto; done.
  - eapply exclusive_take; eauto; done.
Qed.

(** ** Progress *)

(** The releases of a slot or a connection that can still happen without a call:
    a thread that retries may end with one, an idle connection may be discarded. *)
Definition releases (c : pc) : nat :=
  match c with
  | Deciding _ | Waiting _ | Parked _ | Woken _ | NotifyingOne (Retry _)
  | Discarding Leave | Opening _ | Landing _ | Failing _ _ => 1
  | Reusing _ _ | Validating _ _ _ | Probing _ _ | Discarding (Retry _) | CheckingIn _ _ => 2
  | _ => 0
  end.

Definition all_releases (p : Pool) : nat := length (idle (state p)) + total releases p.

(** The steps a thread can take before the next release, among [n] threads. *)
Definition weight (available : bool) (n : nat) (c : pc) : nat :=
  match c with
  | Outside | Returned _ | Parked _ | Unwound => 0
  | Discarding _ | CheckingIn _ _ | Landing _ | Failing _ _ | Finishing _ _ => 1
  | Probing _ _ | Opening _ => 2
  | Validating _ _ _ => 3
  | Reusing _ _ => 4
  | Deciding _ => 5
  | Waiting _ => if available then 6 else 1
  | Woken _ => 6
  | NotifyingOne _ => 12
  | NotifyingAll _ => 2 + 6 * n
  end.

Definition activity (n : nat) (p : Pool) : nat := total (weight (available (state p)) n) p.

(** One step either releases, or brings a thread closer to the next release. *)
Definition progress (p p' : Pool) : Prop :=
  length (threads p') = length (threads p) /\
  ((all_releases p' < all_releases p)%nat \/
   (all_releases p' <= all_releases p)%nat /\
   (activity (length (threads p)) p' < activity (length (threads p)) p)%nat).

#[local] Arguments Nat.ltb : simpl never.

Lemma weight_mono (a a' : bool) n c : (a' = true -> a = true) -> (weight a' n c <= weight a n c)%nat.
Proof. intros H. destruct c, a, a'; cbn; try lia; discriminate (H eq_refl). Qed.

Lemma total_others_mono f g i c p :
  (forall c, f c <= g c)%nat -> threads p !! i = Some c ->
  (total f p + g c <= total g p + f c)%nat.
Proof.
  intros Hfg. unfold total. generalize (threads p) as l. intros l. revert i.
  induction l as [| d l IH]; intros [| i] Hc; simplify_eq/=.
  - pose proof (sum_list_with_le f g l Hfg). lia.
  - specialize (IH i Hc). pose proof (Hfg d). lia.
Qed.

(** A step of one thread that makes nothing available. *)
Lemma progress_move i c c' p p' :
  threads p !! i = Some c -> threads p' = <[i := c']> (threads p) ->
  (length (idle (state p')) + releases c' <= length (idle (state p)) + releases c)%nat ->
  (available (state p') = true -> available (state p) = true) ->
  (forall n, weight (available (state p')) n c' < weight (available (state p)) n c)%nat ->
  progress p p'.
Proof.
  intros Hc Ht Hr Ha Hw. split; [by rewrite Ht, length_insert |]. right.
  pose proof (total_update releases _ _ _ _ _ Hc Ht). unfold all_releases, activity. split; [lia |].
  set (n := length (threads p)).
  pose proof (total_update (weight (available (state p')) n) _ _ _ _ _ Hc Ht).
  pose proof (total_others_mono _ _ _ _ _ (fun c => weight_mono _ _ n c Ha) Hc).
  specialize (Hw n). lia.
Qed.

(** A release. *)
Lemma progress_release i c c' p p' :
  threads p !! i = Some c -> threads p' = <[i := c']> (threads p) ->
  (length (idle (state p')) + releases c' < length (idle (state p)) + releases c)%nat ->
  progress p p'.
Proof.
  intros Hc Ht Hr. split; [by rewrite Ht, length_insert |]. left.
  pose proof (total_update releases _ _ _ _ _ Hc Ht). unfold all_releases. lia.
Qed.

Lemma progress_act i deadline p :
  threads p !! i = Some (Deciding deadline) -> progress p (act i deadline p).
Proof.
  intros Hc. unfold act, decide_action. destruct (idle (state p)) as [| c rest] eqn:Hidle.
  - destruct (initialized (state p)) eqn:Hini; [| destruct (init_in_progress (state p)) eqn:Hp];
      cbn [negb]; [destruct (Nat.ltb_spec (size (state p)) (max_size cfg)) |..];
      eapply progress_move; try exact Hc; try done;
      cbn; unfold available; cbn; rewrite ?Hidle, ?Hini, ?Hp; cbn; try lia; try done.
    + by rewrite (proj2 (Nat.ltb_lt (size (state p)) _)) by done.
    + rewrite (proj2 (Nat.ltb_ge _ _)) by done. cbn. lia.
  - eapply progress_move; [exact Hc | done | cbn; rewrite Hidle; cbn; lia | | cbn; lia].
    unfold available. by rewrite Hidle.
Qed.

Lemma progress_park i deadline p :
  threads p !! i = Some (Waiting deadline) -> progress p (park i deadline p).
Proof.
  intros Hc. unfold park. destruct (available (state p)) eqn:Ha;
    [| destruct deadline as [d |]; [destruct (d <=? now p) |]];
    eapply progress_move; try exact Hc; try done; cbn; try rewrite Ha; cbn; lia.
Qed.

Ltac advance Hc := eapply (progress_move _ _ _ _ _ Hc); [done | cbn; lia | done | cbn; lia].
Ltac release Hc := eapply (progress_release _ _ _ _ _ Hc); [done | cbn; lia].

Lemma progress_notify_one i k j p p' :
  threads p !! i = Some (NotifyingOne k) -> notify_one i k j p = Some p' -> progress p p'.
Proof.
  intros Hc Hn. unfold notify_one in Hn. destruct j as [j |].
  - destruct (threads p !! j) as [[] |] eqn:Hj; simplify_eq.
    pose (p1 := goto j (Woken deadline) p).
    assert (Hc1 : threads p1 !! i = Some (NotifyingOne k)).
    { simpl. by rewrite list_lookup_insert_ne by congruence. }
    set (p2 := goto i (resume_one k) p1).
    split; [cbn; by rewrite !length_insert |]. right. unfold all_releases, activity.
    set (n := length (threads p)). set (a := available (state p)).
    change (goto i (resume_one k) (goto j (Woken deadline) p)) with p2.
    change (available (state p2)) with a. change (idle (state p2)) with (idle (state p)).
    pose proof (total_update releases _ _ _ p p1 Hj eq_refl).
    pose proof (total_update releases _ _ _ p1 p2 Hc1 eq_refl).
    pose proof (total_update (weight a n) _ _ _ p p1 Hj eq_refl).
    pose proof (total_update (weight a n) _ _ _ p1 p2 Hc1 eq_refl).
    clearbody p2 p1. destruct k; cbn [releases weight resume_one] in *; lia.
  - destruct (existsb _ _); simplify_eq. destruct k; advance Hc.
Qed.

Lemma total_wake_weight a n p :
  (total (weight a n) (notify_all p) <= total (weight a n) p + 6 * length (threads p))%nat.
Proof.
  unfold total. cbn. rewrite sum_list_with_fmap. induction (threads p) as [| c l IH]; cbn; [lia |].
  destruct c; cbn in *; lia.
Qed.

Lemma progress_notify_all i k p :
  threads p !! i = Some (NotifyingAll k) -> progress p (goto i (resume_all k) (notify_all p)).
Proof.
  intros Hc. pose (p1 := notify_all p).
  assert (Hc1 : threads p1 !! i = Some (NotifyingAll k)).
  { simpl. by rewrite list_lookup_fmap, Hc. }
  set (p2 := goto i (resume_all k) p1). split; [cbn; by rewrite length_insert, length_fmap |]. right.
  unfold all_releases, activity.
  set (n := length (threads p)). set (a := available (state p)).
  change (goto i (resume_all k) (notify_all p)) with p2.
  change (available (state p2)) with a. change (idle (state p2)) with (idle (state p)).
  pose proof (total_notify_all releases p ltac:(by intros [])).
  pose proof (total_update releases _ _ _ p1 p2 Hc1 eq_refl).
  pose proof (total_wake_weight a n p).
  pose proof (total_update (weight a n) _ _ _ p1 p2 Hc1 eq_refl).
  clearbody p2. subst p1. destruct k; cbn [releases weight resume_all] in *; lia.
Qed.

Lemma internal_progress p p' : internal p p' -> progress p p'.
Proof.
  intros (i & e & He & (c & Hc & Hx)%bind_Some).
  destruct c as [| | | | | | | | | | | [] | | | | | |], e; try discriminate; try (injection Hx as <-);
    try (by eauto using progress_act, progress_park, progress_notify_one, progress_notify_all).
  - advance Hc.
  - destruct (should_evict _ _ _); advance Hc.
  - unfold probed. destruct (recycle pr) as [[] |]; advance Hc.
  - destruct k; release Hc.
  - release Hc.
  - unfold open. destruct r, first; advance Hc.
  - release Hc.
  - release Hc.
  - advance Hc.
  - unfold finish. advance Hc.
Qed.

Lemma internal_sn p : sn internal p.
Proof.
  remember (length (threads p)) as n eqn:Hn.
  remember (all_releases p) as r eqn:Hr. remember (activity n p) as a eqn:Ha.
  revert a p Hn Hr Ha. induction (lt_wf r) as [r _ IHr]. intros a.
  induction (lt_wf a) as [a _ IHa]. intros p Hn Hr Ha.
  constructor. intros p' [Hlen H]%internal_progress. rewrite <- Hn in H.
  destruct H as [Hlt | [Hle Hlt]].
  - eapply (IHr (all_releases p')); [lia | congruence | done | done].
  - destruct (decide (all_releases p' = r)) as [Heq |].
    + eapply (IHa (activity n p')); [lia | congruence | done | done].
    + eapply (IHr (all_releases p')); [lia | congruence | done | done].
Qed.

(** A thread that is not quiet has a step. *)
Lemma not_quiet_step i c p :
  threads p !! i = Some c -> is_quiet c = false -> exists e p', is_internal e = true /\ exec i e p = Some p'.
Proof.
  intros Hc Hq. unfold exec. rewrite Hc. cbn.
  pose (pr := {| is_alive := false; select_one := Ok tt; ping := Ok tt; check := Panic |}).
  destruct c; try discriminate Hq;
    try (exists Run; by eauto); try (exists (Probed pr); by eauto); try (exists (Opened (Ok tt)); by eauto).
  destruct (existsb is_parked (threads p)) eqn:Hp.
  - apply existsb_exists in Hp as (d & Hin & Hd). destruct d; try discriminate Hd.
    apply list_elem_of_In, list_elem_of_lookup in Hin as (j & Hj).
    exists (Wake (Some j)). unfold notify_one. rewrite Hj. eauto.
  - exists (Wake None). unfold notify_one. rewrite Hp. eauto.
Qed.

Lemma normal_quiescent p : nf internal p -> quiescent p.
Proof.
  intros Hnf. apply Forall_lookup. intros i c Hc. destruct (is_quiet c) eqn:Hq; [done |].
  destruct (not_quiet_step i c p Hc Hq) as (e & p' & He & Hx).
  destruct Hnf. exists p'. by exists i, e.
Qed.

(** ** Reachable states *)

Lemma invariant_step p p' : step p p' -> invariant p -> invariant p'.
Proof.
  intros [i e q q' He | d q Hd] Hi; [by eapply invariant_exec |].
  destruct Hi as [? ? ? ? ? ? (n & rest & Ho & Hr)]. by constructor; [.. | exists n, rest].
Qed.

Lemma reachable_invariant p : reachable p -> invariant p.
Proof.
  intros [n H]. pose proof (invariant_build n) as Hi. induction H; eauto using invariant_step.
Qed.

Lemma exclusive_step p p' : step p p' -> exclusive p -> exclusive p'.
Proof. intros [i e q q' He | d q Hd] Hi; [by eapply exclusive_exec |]. by destruct Hi. Qed.

Lemma exclusive_build n : exclusive (build n).
Proof.
  assert (owned (build n) = []) as Ho.
  { unfold owned. cbn. rewrite app_nil_r. by induction n. }
  split; rewrite Ho; constructor.
Qed.

Lemma reachable_exclusive p : reachable p -> exclusive p.
Proof.
  intros [n H]. pose proof (exclusive_build n) as Hi. induction H; eauto using exclusive_step.
Qed.

Lemma internal_step p p' : internal p p' -> step p p'.
Proof. intros (i & e & _ & H). by eapply step_thread. Qed.

Lemma reachable_internal p p' : reachable p -> rtc internal p p' -> reachable p'.
Proof.
  intros [n H] Hi. exists n. induction Hi as [| p p1 p2 Hi _ IH]; [done |].
  apply IH. eapply rtc_r; [done | by apply internal_step].
Qed.

(** ** A call on its own *)

Lemma first_parked_spec ts :
  match first_parked ts with
  | Some j => exists deadline, ts !! j = Some (Parked deadline)
  | None => existsb is_parked ts = false
  end.
Proof.
  induction ts as [| c ts IH]; [done |]. cbn. destruct c; cbn; eauto; destruct (first_parked ts); done.
Qed.

(** Waking changes nothing else. *)
Lemma exec_notify_one i k p :
  threads p !! i = Some (NotifyingOne k) ->
  exists ts, exec i (Wake (first_parked (threads p))) p =
    Some (goto i (resume_one k)
      {| state := state p; threads := ts; guards := guards p; taken := taken p;
         opens := opens p; next := next p; now := now p |}) /\ length ts = length (threads p).
Proof.
  intros Hc. unfold exec. rewrite Hc. cbn. pose proof (first_parked_spec (threads p)) as Hf.
  unfold notify_one. destruct (first_parked (threads p)) as [j |].
  - destruct Hf as [d Hj]. rewrite Hj. exists (<[j := Woken d]> (threads p)).
    split; [done | by rewrite length_insert].
  - rewrite Hf. exists (threads p). split; [by destruct p | done].
Qed.

Lemma solo_S probe r fuel i p c e p1 :
  threads p !! i = Some c -> solo_event probe r p c = Some e -> exec i e p = Some p1 ->
  solo probe r (S fuel) i p = solo probe r fuel i p1.
Proof. intros Hc He Hx. cbn. rewrite Hc. cbn. rewrite He. cbn. by rewrite Hx. Qed.

Lemma solo_stop probe r fuel i p c :
  threads p !! i = Some c -> solo_event probe r p c = None -> solo probe r fuel i p = p.
Proof. intros Hc He. destruct fuel; [done |]. cbn. rewrite Hc. cbn. by rewrite He. Qed.

Lemma threads_goto i c p :
  (i < length (threads p))%nat -> threads (goto i c p) !! i = Some c.
Proof. intros H. cbn. by apply list_lookup_insert_eq. Qed.

Definition observe (i : nat) (p : Pool) : option pc * SyncPoolState * list Guard * list (CreateMode * bool) :=
  (threads p !! i, state p, guards p, opens p).

(** One step of the thread that runs alone, from where [Hc] says it is. *)
Ltac solo_step Hc :=
  erewrite solo_S; [| exact Hc | reflexivity | unfold exec; rewrite Hc; reflexivity].
Ltac solo_next :=
  let Hc := fresh "Hc" in
  match goal with
  | |- context [solo _ _ _ ?i (goto ?i ?c ?p)] =>
      assert (Hc : threads (goto i c p) !! i = Some c)
        by (apply threads_goto; cbn; repeat rewrite ?length_insert, ?length_fmap; lia)
  end;
  first [ solo_step Hc; cbv beta iota zeta delta [open finish resume_one resume_all from_conn open_mode]
        | rewrite (solo_stop _ _ _ _ _ _ Hc) by reflexivity ];
  clear Hc.

Lemma solo_create probe r fuel i deadline p :
  threads p !! i = Some (Deciding deadline) -> idle (state p) = [] ->
  (if initialized (state p) then (max_size cfg <=? size (state p))%nat
   else init_in_progress (state p)) = false ->
  let '(c, s, g, o) := get_spec probe r deadline p in
  observe i (solo probe r (5 + fuel) i p) = (Some c, s, g, o).
Proof.
  intros Hc Hidle Hav. assert (Hlen := lookup_lt_Some _ _ _ Hc). unfold get_spec. rewrite Hidle.
  cbn [checkout]. rewrite Hav. cbn [plus]. solo_step Hc. unfold act, decide_action. rewrite Hidle.
  destruct (initialized (state p)) eqn:Hini; cbn [negb].
  - apply Nat.leb_gt in Hav. rewrite (proj2 (Nat.ltb_lt (size (state p)) _)) by done.
    destruct r as [[] | e]; repeat solo_next; unfold observe;
      rewrite threads_goto by (cbn; repeat rewrite ?length_insert, ?length_fmap; lia); done.
  - rewrite Hav. destruct r as [[] | e]; repeat solo_next; unfold observe;
      rewrite threads_goto by (cbn; repeat rewrite ?length_insert, ?length_fmap; lia); done.
Qed.

Lemma solo_wait probe r fuel i deadline p :
  threads p !! i = Some (Deciding deadline) -> idle (state p) = [] ->
  (if initialized (state p) then (max_size cfg <=? size (state p))%nat
   else init_in_progress (state p)) = true ->
  let '(c, s, g, o) := get_spec probe r deadline p in
  observe i (solo probe r (5 + fuel) i p) = (Some c, s, g, o).
Proof.
  intros Hc Hidle Hav. assert (Hlen := lookup_lt_Some _ _ _ Hc). unfold get_spec. rewrite Hidle.
  cbn [checkout]. rewrite Hav.
  assert (Hact : act i deadline p = goto i (Waiting deadline) (with_state (state p) p)).
  { unfold act, decide_action. rewrite Hidle. destruct (initialized (state p)); cbn [negb].
    - apply Nat.leb_le in Hav. by rewrite (proj2 (Nat.ltb_ge _ _)) by done.
    - by rewrite Hav. }
  assert (Ha : available (state p) = false).
  { unfold available. rewrite Hidle. cbn. destruct (initialized (state p)); cbn.
    - apply Nat.leb_le in Hav. by rewrite (proj2 (Nat.ltb_ge _ _)) by done.
    - by rewrite Hav. }
  cbn [plus]. solo_step Hc. rewrite Hact. solo_next. unfold park.
  change (state (goto i (Waiting deadline) (with_state (state p) p))) with (state p).
  change (now (goto i (Waiting deadline) (with_state (state p) p))) with (now p). rewrite Ha.
  destruct (state p) as [? ? ? ?] eqn:Hs; cbn in Hidle; subst.
  destruct deadline as [d |]; [destruct (d <=? now p) |]; solo_next; unfold observe;
    rewrite threads_goto by (cbn; rewrite length_insert; lia); cbn; done.
Qed.

Lemma solo_discard probe r fuel i deadline p :
  threads p !! i = Some (Discarding (Retry deadline)) ->
  exists p1, solo probe r (2 + fuel) i p = solo probe r fuel i p1 /\
    threads p1 !! i = Some (Deciding deadline) /\ state p1 = discard (state p) /\
    guards p1 = guards p /\ opens p1 = opens p /\ next p1 = next p /\ now p1 = now p.
Proof.
  intros Hc. assert (Hlen := lookup_lt_Some _ _ _ Hc). cbn [plus]. solo_step Hc.
  set (q := goto i _ _). assert (Hq : threads q !! i = Some (NotifyingOne (Retry deadline))).
  { apply threads_goto. done. }
  destruct (exec_notify_one i _ q Hq) as (ts & Hx & Hts).
  erewrite solo_S; [| exact Hq | reflexivity | exact Hx].
  eexists. split; [done |]. split; [| done]. apply threads_goto. cbn. rewrite Hts. cbn.
  by rewrite length_insert.
Qed.

Lemma solo_reuse probe r fuel i deadline p c rest :
  threads p !! i = Some (Deciding deadline) -> idle (state p) = c :: rest ->
  let s := {| idle := rest; size := size (state p); initialized := initialized (state p);
              init_in_progress := init_in_progress (state p) |} in
  let q pc := goto i pc (goto i (Validating deadline c (size (state p)))
                (goto i (Reusing deadline c) (with_state s p))) in
  solo probe r (4 + fuel) i p =
    if should_evict (now p) c (size (state p)) then solo probe r (1 + fuel) i (q (Discarding (Retry deadline)))
    else solo probe r fuel i (probed i deadline c (probe (conn c)) (q (Probing deadline c))).
Proof.
  intros Hc Hidle s q. assert (Hlen := lookup_lt_Some _ _ _ Hc).
  change (4 + fuel)%nat with (S (S (S (S fuel)))). solo_step Hc. unfold act, decide_action.
  rewrite Hidle. fold s. solo_next. solo_next. cbn [now goto with_state size state].
  change (size s) with (size (state p)). destruct (should_evict (now p) c (size (state p))); [done |]. solo_next. done.
Qed.

Lemma get_spec_eq probe r deadline p p' :
  guards p = guards p' -> opens p = opens p' -> next p = next p' -> now p = now p' ->
  initialized (state p) = initialized (state p') ->
  init_in_progress (state p) = init_in_progress (state p') ->
  checkout probe (now p) (idle (state p)) (size (state p)) =
  checkout probe (now p') (idle (state p')) (size (state p')) ->
  get_spec probe r deadline p = get_spec probe r deadline p'.
Proof. intros Hg Ho Hn Ht Hi Hp Hc. unfold get_spec. by rewrite Hc, Hg, Ho, Hn, Ht, Hi, Hp. Qed.

Lemma solo_get probe r fuel i deadline l p :
  idle (state p) = l -> threads p !! i = Some (Deciding deadline) ->
  let '(c, s, g, o) := get_spec probe r deadline p in
  observe i (solo probe r (6 * length l + 5 + fuel) i p) = (Some c, s, g, o).
Proof.
  revert p fuel. induction l as [| c rest IH]; intros p fuel Hidle Hc.
  { destruct (if initialized (state p) then (max_size cfg <=? size (state p))%nat
              else init_in_progress (state p)) eqn:Hav; [by apply solo_wait | by apply solo_create]. }
  assert (Hlen := lookup_lt_Some _ _ _ Hc).
  pose (s1 := {| idle := rest; size := size (state p); initialized := initialized (state p);
                 init_in_progress := init_in_progress (state p) |}).
  assert (Hnext : forall fuel q ts, threads q !! i = Some (Discarding (Retry deadline)) ->
    q = goto i (Discarding (Retry deadline))
          {| state := s1; threads := ts; guards := guards p; taken := taken p;
             opens := opens p; next := next p; now := now p |} ->
    checkout probe (now p) (c :: rest) (size (state p)) =
      checkout probe (now p) rest (Nat.pred (size (state p))) ->
    let '(c, s, g, o) := get_spec probe r deadline p in
    observe i (solo probe r (2 + (6 * length rest + 5 + fuel)) i q) = (Some c, s, g, o)).
  { intros fuel' q ts Hq -> Hco.
    destruct (solo_discard probe r (6 * length rest + 5 + fuel') i deadline _ Hq)
      as (p1 & -> & Hc1 & Hs & Hg & Ho & Hn & Ht).
    rewrite (get_spec_eq probe r deadline p p1); rewrite ?Hs, ?Hg, ?Ho, ?Hn, ?Ht, ?Hidle; try done.
    apply IH; [by rewrite Hs | done]. }
  replace (6 * length (c :: rest) + 5 + fuel)%nat with (4 + (2 + (6 * length rest + 5 + fuel)))%nat
    by (cbn [length]; lia).
  rewrite (solo_reuse _ _ _ _ _ _ _ _ Hc Hidle).
  destruct (should_evict (now p) c (size (state p))) eqn:Hev.
  - replace (1 + (2 + (6 * length rest + 5 + fuel)))%nat
      with (2 + (6 * length rest + 5 + (1 + fuel)))%nat by lia.
    eapply Hnext.
    + apply threads_goto. cbn. by rewrite !length_insert.
    + reflexivity.
    + cbn. by rewrite Hev.
  - unfold probed. destruct (recycle (probe (conn c))) as [[[] | e] |] eqn:Hrec.
    + cbn [plus]. repeat solo_next. unfold observe, get_spec. rewrite Hidle. cbn [checkout].
      rewrite Hev, Hrec. rewrite threads_goto by (cbn; rewrite !length_insert; lia). done.
    + eapply Hnext.
      * apply threads_goto. cbn. by rewrite !length_insert.
      * reflexivity.
      * cbn. by rewrite Hev, Hrec.
    + cbn [plus]. solo_next. unfold observe, get_spec. rewrite Hidle. cbn [checkout].
      rewrite Hev, Hrec. rewrite threads_goto by (cbn; rewrite !length_insert; lia). done.
Qed.

(** ** Properties *)

Lemma quiet_slots c : is_quiet c = true -> slots c = unwound c /\ handshake c = 0%nat /\
  lookers c = 0%nat /\ broadcasting c = 0%nat.
Proof. by destruct c. Qed.

Lemma quiescent_totals p : quiescent p ->
  total slots p = total unwound p /\ total handshake p = 0%nat /\
  total lookers p = 0%nat /\ total broadcasting p = 0%nat.
Proof.
  unfold quiescent, total. induction 1 as [| c l Hc Hl IH]; [done |]. cbn.
  apply quiet_slots in Hc. lia.
Qed.

Lemma quiescent_normal p : quiescent p -> nf internal p.
Proof.
  intros Hq (p' & i & e & He & (c & Hc & Hx)%bind_Some).
  pose proof (Forall_lookup_1 _ _ _ _ Hq Hc) as Hqc.
  destruct c as [| | | | | | | | | | | [] | | | | | |]; try discriminate Hqc; by destruct e.
Qed.

(** C25. No connection is in two places: whatever the threads do, the idle
    connections, those of the guards, those a call has in hand and those taken out
    of the pool are different, and all were opened by the pool. *)
Theorem pool_exclusive p :
  reachable p -> NoDup (owned p) /\ Forall (fun c => c < next p)%nat (owned p).
Proof. by intros [Hd Hn]%reachable_exclusive. Qed.

(** The pool's size counts the idle connections, the guards and the slots of
    calls in progress, and never exceeds [max_size], or one when that is zero;
    between calls it is the idle connections and the guards, and one for every
    call that a user's check left by a panic. *)
Theorem pool_bounded p :
  reachable p ->
  size (state p) = (length (idle (state p)) + length (guards p) + total slots p)%nat /\
  (size (state p) <= Nat.max 1 (max_size cfg))%nat /\
  (quiescent p ->
   size (state p) = (length (idle (state p)) + length (guards p) + total unwound p)%nat).
Proof.
  intros [Hs Hb _ _ _ _ _]%reachable_invariant. split_and!; [done | done |].
  intros (<- & _)%quiescent_totals. done.
Qed.

(** The configured create mode is used by one connection: the attempts to
    open are failures in that mode, then one success in it, then only
    [DoNotCreate]; and no two threads are ever in the handshake. *)
Theorem handshake_once p :
  reachable p ->
  (total handshake p <= 1)%nat /\
  exists n rest, opens p = replicate n (create_mode cfg, false) ++ rest /\
    (rest = [] \/
     exists l, rest = (create_mode cfg, true) :: l /\ Forall (fun o => o.1 = DoNotCreate) l).
Proof.
  intros [_ _ Hh _ _ _ (n & rest & Ho & Hr)]%reachable_invariant.
  pose proof (total_landing_le p). split; [destruct (init_in_progress _); lia |].
  exists n, rest. split; [done |]. destruct (initialized (state p)); [by right |].
  destruct (total landing p) as [| [| k]] eqn:Hl; cbn in Hr; subst.
  - by left.
  - right. by exists [].
  - destruct (init_in_progress _); lia.
Qed.

(** C2. No waiter sleeps beside a connection it could have. Left to themselves,
    the threads always come to rest, whatever the network answers and whoever a
    notification wakes; and a thread that is still parked then waits because all
    [max_size] slots are held by guards, or were lost to panics of a check. *)
Theorem no_lost_wakeup p :
  reachable p ->
  sn internal p /\
  forall p', rtc internal p p' -> nf internal p' ->
    quiescent p' /\
    forall j deadline, threads p' !! j = Some (Parked deadline) ->
      idle (state p') = [] /\ initialized (state p') = true /\
      (max_size cfg <= length (guards p') + total unwound p')%nat.
Proof.
  intros Hp. split; [apply internal_sn |]. intros p' Hi Hnf.
  pose proof (normal_quiescent _ Hnf) as Hq. split; [done |]. intros j d Hj.
  pose proof (reachable_invariant _ (reachable_internal _ _ Hp Hi)) as [Hs _ Hh _ Hu Hw _].
  destruct (quiescent_totals _ Hq) as (Hsl & Hh0 & Hl & Hb).
  pose proof (total_lookup parked _ _ _ Hj) as Hpk. cbn in Hpk. unfold free in Hw.
  assert (Hidle : idle (state p') = []) by (apply length_zero_iff_nil; lia).
  rewrite Hidle in *. destruct (initialized (state p')) eqn:Hini.
  - cbn in *. split_and!; [done | done | lia].
  - destruct (init_in_progress (state p')); cbn in *; lia.
Qed.

(** What a call of [get_timeout] does when nothing disturbs it, on every
    branch: it tries the idle connections, the last returned first, discards
    those that are too old or fail the probe and hands out the first that passes;
    with none left it opens one if it is the first or there is room, and gives the
    slot back if that fails; and otherwise waits until its deadline. It ends within
    six steps for every idle connection and five more. *)
Theorem get_alone probe r i t p c :
  threads p !! i = Some c -> at_rest c = true ->
  exists p', exec i (Get t) p = Some p' /\
    let '(c', s, g, o) := get_spec probe r (Z.add (now p) <$> t) p in
    observe i (solo probe r (6 * length (idle (state p)) + 5) i p') = (Some c', s, g, o).
Proof.
  intros Hc Hr. assert (Hlen := lookup_lt_Some _ _ _ Hc).
  exists (goto i (Deciding (Z.add (now p) <$> t)) p). split.
  - unfold exec. rewrite Hc. by at_rest Hr.
  - rewrite (get_spec_eq _ _ _ _ (goto i (Deciding (Z.add (now p) <$> t)) p)) by done.
    replace (6 * length (idle (state p)) + 5)%nat
      with (6 * length (idle (state p)) + 5 + 0)%nat by lia.
    apply solo_get; [done | by apply threads_goto].
Qed.

Lemma unwound_exec i e p p' : exec i e p = Some p' -> (total unwound p <= total unwound p')%nat.
Proof.
  intros Hx. assert (Hle : forall i c c' q, threads q !! i = Some c -> unwound c = 0%nat ->
    (total unwound q <= total unwound (goto i c' q))%nat).
  { clear. intros i c c' q Hc Hu. pose proof (total_goto unwound i c c' q Hc). lia. }
  unfold exec in Hx. apply bind_Some in Hx as (c & Hc & Hx).
  destruct c as [| | | | | | | | | | | [] | | | | | |], e; try discriminate Hx;
    unfold drop_guard, take_guard, notify_one in Hx;
    try (apply bind_Some in Hx as (g & _ & Hx)); repeat case_match; simplify_eq;
    unfold act, park, probed, open, finish; repeat case_match; simplify_eq;
    try (by eapply (Hle _ _ _ _ Hc)); try (eapply (Hle _ _ _ (with_state _ _) Hc); done).
  - match goal with H : threads p !! _ = Some (Parked ?d) |- _ =>
      etrans; [by apply (Hle _ _ (Woken d) _ H) |] end.
    eapply (Hle _ (NotifyingOne k)); [| done]. cbn.
    rewrite list_lookup_insert_ne by congruence. exact Hc.
  - rewrite <- (total_notify_all unwound p) by (by intros []). eapply (Hle _ (NotifyingAll k)); [| done]. cbn.
    rewrite list_lookup_fmap, Hc. done.
Qed.

Lemma unwound_steps p p' : rtc step p p' -> (total unwound p <= total unwound p')%nat.
Proof.
  induction 1 as [| p p1 p2 [i e q q' Hx | d q Hd] _ IH]; [lia | |].
  - pose proof (unwound_exec _ _ _ _ Hx). lia.
  - exact IH.
Qed.

(** A check that panics takes its slot with it: once as many panicked as the
    pool has slots, no call is ever handed a connection again. *)
Theorem panics_use_up_the_pool p p' :
  reachable p -> (Nat.max 1 (max_size cfg) <= total unwound p)%nat -> rtc step p p' ->
  guards p' = [] /\ idle (state p') = [].
Proof.
  intros [n Hp] Hu Hs. pose proof (unwound_steps _ _ Hs) as Hle.
  assert (Hr : reachable p') by (exists n; by etrans).
  destruct (reachable_invariant _ Hr) as [Hsz Hb _ _ _ _ _].
  assert (total unwound p' <= total slots p')%nat.
  { apply sum_list_with_le. intros []; cbn; try case_match; lia. }
  split; apply length_zero_iff_nil; lia.
Qed.

(** A schedule: the threads that move, with their events. *)
Fixpoint run_events (l : list (nat * event)) (p : Pool) : option Pool :=
  match l with
  | [] => Some p
  | (i, e) :: l => p ← exec i e p; run_events l p
  end.

Lemma run_events_reachable n l p : run_events l (build n) = Some p -> reachable p.
Proof.
  intros H. exists n. revert H. generalize (build n) as q. induction l as [| [i e] l IH]; intros q H.
  - injection H as ->. done.
  - apply bind_Some in H as (q' & Hx & H). econstructor; [by eapply step_thread | by apply IH].
Qed.

End pool.

(** ** The properties at work *)

Definition one_slot : SyncPoolConfig :=
  {| create_mode := CreateIfNotExists; max_size := 1; recycle_strategy := Custom;
     wait_timeout := None; max_lifetime := None; idle_timeout := None; min_idle := None |}.

(** Thread 0 opens the first connection. *)
Definition opening : list (nat * @event unit) :=
  [(0%nat, Get None); (0%nat, Run); (0%nat, Opened (Ok tt)); (0%nat, Run); (0%nat, Run); (0%nat, Run)].

(** Thread 1 asks for one too, and waits. *)
Definition waiting : list (nat * @event unit) :=
  opening ++ [(1%nat, Get None); (1%nat, Run); (1%nat, Run)].

Definition panicking_check : @Probe unit :=
  {| is_alive := true; select_one := Ok tt; ping := Ok tt; check := Panic |}.

(** The connection comes back and is asked for again, and the check panics. *)
Definition unwinding : list (nat * @event unit) :=
  opening ++ [(0%nat, DropGuard 0 true); (0%nat, Run); (0%nat, Wake None); (0%nat, Get None);
              (0%nat, Run); (0%nat, Run); (0%nat, Run); (0%nat, Probed panicking_check)].

Definition after_events (l : list (nat * @event unit)) : Pool :=
  default (build 2) (run_events one_slot l (build 2)).

Lemma pool_exclusive_witness :
  reachable one_slot (after_events waiting) /\ NoDup (owned (after_events waiting)).
Proof.
  assert (H : reachable one_slot (after_events waiting)).
  { apply (run_events_reachable _ 2 waiting). vm_compute. reflexivity. }
  split; [exact H |]. exact (proj1 (pool_exclusive _ _ H)).
Defined.

Lemma no_lost_wakeup_witness :
  threads (after_events waiting) !! 1%nat = Some (Parked None) /\
  (1 <= length (guards (after_events waiting)) + total unwound (after_events waiting))%nat.
Proof.
  assert (H : reachable one_slot (after_events waiting)).
  { apply (run_events_reachable _ 2 waiting). vm_compute. reflexivity. }
  assert (Hq : nf (internal one_slot) (after_events waiting)).
  { apply quiescent_normal. repeat constructor. }
  split; [reflexivity |].
  destruct (proj2 (no_lost_wakeup _ _ H) _ (rtc_refl _ _) Hq) as [_ Hw].
  exact (proj2 (proj2 (Hw 1%nat None eq_refl))).
Defined.

