(* ===== verification/KvStore.v ===== *)
(** * The key-value store ([hyperdb-api/src/kv_store.rs])

    [KvStore] keeps named maps in one SQL table. The connection is an interface,
    [SqlConnection]; [KvServer] is its contract: what a server's SQL means for the
    statements the store sends, when the statements, the COMMIT or the reading of a
    result may each fail. The specification is a finite map from store and key to
    value; the theorems say that the store implements it and that every call is
    atomic. Other sessions are left out: the table has no unique constraint, and the
    source says that two processes can double-insert. *)

From stdpp Require Import strings gmap sorting.
From S2P Require Import Prelude Text SqlClassify SqlEscape.

(** ** Names *)

Inductive Error : Type :=
| InvalidName (message : list Z)
| Serialization (message : list Z)
| Internal (message : list Z)
| Conversion (message : list Z)
| Server (message : list Z).

Definition KV_TABLE : list Z := str "_hyperdb_kv_store".
Definition KV_MAX_NAME_BYTES : nat := 512.
Definition KV_CHARSET : list Z := str "A-Z a-z 0-9 _ . -".

Definition is_name_byte (b : Z) : bool :=
  is_ascii_alphanumeric b || (b =? 95) || (b =? 46) || (b =? 45).

(** [{:#04x}] of a byte. *)
Definition hex_digit (d : Z) : Z := if d <? 10 then 48 + d else 87 + d.
Definition fmt_hex_byte (b : Z) : list Z := str "0x" ++ [hex_digit (b / 16); hex_digit (b `mod` 16)].

Definition empty_name (kind : list Z) : Error := InvalidName (str "KV " ++ kind ++ str " must not be empty").
Definition long_name (kind : list Z) (n : nat) : Error :=
  InvalidName (str "KV " ++ kind ++ str " exceeds " ++ fmt_u (Z.of_nat KV_MAX_NAME_BYTES)
    ++ str "-byte limit (" ++ fmt_u (Z.of_nat n) ++ str " bytes)").
Definition bad_byte (kind : list Z) (bad : Z) : Error :=
  InvalidName (str "KV " ++ kind ++ str " contains an invalid byte " ++ fmt_hex_byte bad
    ++ str "; allowed: " ++ KV_CHARSET).

Definition validate_kv_name (name kind : list Z) : result unit Error :=
  match name with
  | [] => Err (empty_name kind)
  | _ =>
      let bytes := utf8 name in
      if (KV_MAX_NAME_BYTES <? length bytes)%nat then Err (long_name kind (length bytes))
      else match filter (fun b => is_name_byte b = false) bytes with
           | bad :: _ => Err (bad_byte kind bad)
           | [] => Ok tt
           end
  end.

#[global] Arguments validate_kv_name : simpl never.

Definition kv_create_table_sql (table_ref : list Z) : list Z :=
  str "CREATE TABLE IF NOT EXISTS " ++ table_ref
  ++ str " (store_name TEXT NOT NULL, key TEXT NOT NULL, value TEXT)".

Definition kv_target_prefix (database : list Z) : result (list Z) Error :=
  match escape_name database, escape_name (str "public") with
  | Ok database, Ok public => Ok (database ++ str "." ++ public)
  | Err e, _ | _, Err e => Err (InvalidName e)
  end.

(** ** The interface to the connection *)

(** A cell of a row as [Row::get] sees it, and a [Rowset]: the chunks that
    [next_chunk] returns, one of which may be an error. *)
Inductive Cell : Type :=
| SqlNull
| SqlText (s : list Z)
| SqlInt (z : Z).

Definition Row : Type := list Cell.
Definition Rowset : Type := list (result (list Row) Error).

(** [Connection::execute_command], [execute_query], and [command_params] and
    [query_params] with text parameters. *)
Class SqlConnection (K : Type) := {
  execute_command : list Z -> K -> result Z Error * K;
  execute_query : list Z -> K -> result Rowset Error * K;
  command_params : list Z -> list (list Z) -> K -> result Z Error * K;
  query_params : list Z -> list (list Z) -> K -> result Rowset Error * K;
}.

Definition get_string (r : Row) (i : nat) : option (list Z) :=
  match r !! i with
  | Some (SqlText s) => Some s
  | _ => None
  end.

Definition get_i64 (r : Row) (i : nat) : option Z :=
  match r !! i with
  | Some (SqlInt z) => Some z
  | _ => None
  end.

(** [Rowset::first_row], [Rowset::scalar] and the loop over [next_chunk] that
    collects something of each row. *)
Definition first_row (rs : Rowset) : result (option Row) Error :=
  match rs with
  | [] => Ok None
  | Err e :: _ => Err e
  | Ok chunk :: _ => Ok (head chunk)
  end.

Definition scalar (rs : Rowset) : result (option Z) Error :=
  match first_row rs with
  | Err e => Err e
  | Ok None => Err (Conversion (str "Query returned no rows"))
  | Ok (Some r) => Ok (get_i64 r 0)
  end.

Fixpoint collect {A} (f : Row -> option A) (rs : Rowset) (acc : list A) : result (list A) Error :=
  match rs with
  | [] => Ok acc
  | Err e :: _ => Err e
  | Ok chunk :: rs => collect f rs (acc ++ omap f chunk)
  end.

(** ** [KvStore] *)

Record KvStore : Type := mk_store { store_name : list Z; table_ref : list Z }.

Record SetOutcome : Type := mk_set { created : bool }.
Record BatchSetOutcome : Type := mk_batch_set { batch_created : nat; overwritten : nat }.
Record BatchGuardOutcome : Type := mk_batch_guard { written : nat; skipped : nat }.

Definition key_kind : list Z := str "key".
#[global] Arguments key_kind : simpl never.

Section operations.
Context {K : Type} `{!SqlConnection K}.

Definition Op (A : Type) : Type := K -> result A Error * K.

Definition ret {A} (a : A) : Op A := fun k => (Ok a, k).
Definition lift {A} (r : result A Error) : Op A := fun k => (r, k).

(** The [?] operator. *)
Definition bind {A B} (m : Op A) (f : A -> Op B) : Op B := fun k =>
  match m k with
  | (Ok a, k) => f a k
  | (Err e, k) => (Err e, k)
  end.

#[local] Notation "'let#' x ':=' m 'in' f" := (bind m (fun x => f)) (at level 10, x pattern, f at level 200).

Definition begin_transaction_unguarded : Op unit :=
  let# _ := execute_command (str "BEGIN TRANSACTION") in ret tt.
Definition commit_unguarded : Op unit := let# _ := execute_command (str "COMMIT") in ret tt.
Definition rollback_unguarded : Op unit := let# _ := execute_command (str "ROLLBACK") in ret tt.

(** The shape of [pop] and of the batches: an error of the body is kept whatever
    the rollback does. *)
Definition in_transaction {A} (body : Op A) : Op A :=
  let# _ := begin_transaction_unguarded in
  fun k =>
    match body k with
    | (Ok a, k) => (let# _ := commit_unguarded in ret a) k
    | (Err e, k) => let '(_, k) := rollback_unguarded k in (Err e, k)
    end.

Definition open (name table_ref : list Z) : Op KvStore :=
  let# _ := lift (validate_kv_name name (str "store name")) in
  let# _ := execute_command (kv_create_table_sql table_ref) in
  ret (mk_store name table_ref).

Definition new (name : list Z) : Op KvStore := open name KV_TABLE.

Definition with_target (name target : list Z) : Op KvStore := open name (target ++ str "." ++ KV_TABLE).

Definition get (self : KvStore) (key : list Z) : Op (option (list Z)) :=
  let# _ := lift (validate_kv_name key key_kind) in
  let# rs := query_params (str "SELECT value FROM " ++ table_ref self ++ str " WHERE store_name = $1 AND key = $2")
               [store_name self; key] in
  let# row := lift (first_row rs) in
  ret (row ≫= fun r => get_string r 0).

Definition update_sql (t : list Z) : list Z :=
  str "UPDATE " ++ t ++ str " SET value = $3 WHERE store_name = $1 AND key = $2".

Definition insert_sql (t : list Z) : list Z :=
  str "INSERT INTO " ++ t ++ str " (store_name, key, value) SELECT $1, $2, $3 WHERE NOT EXISTS (SELECT 1 FROM "
  ++ t ++ str " WHERE store_name = $4 AND key = $5)".

Definition delete_sql (t : list Z) : list Z :=
  str "DELETE FROM " ++ t ++ str " WHERE store_name = $1 AND key = $2".

Definition upsert (self : KvStore) (key value : list Z) : Op bool :=
  let store := store_name self in
  let# updated := command_params (update_sql (table_ref self)) [store; key; value] in
  let# _ := (if updated =? 0
             then let# _ := command_params (insert_sql (table_ref self)) [store; key; value; store; key] in ret tt
             else ret tt) in
  ret (updated =? 0).

Definition set (self : KvStore) (key value : list Z) : Op SetOutcome :=
  let# _ := lift (validate_kv_name key key_kind) in
  let# created := upsert self key value in
  ret (mk_set created).

Definition set_if_absent (self : KvStore) (key value : list Z) : Op bool :=
  let# _ := lift (validate_kv_name key key_kind) in
  let store := store_name self in
  let# inserted := command_params (insert_sql (table_ref self)) [store; key; value; store; key] in
  ret (0 <? inserted).

Definition delete (self : KvStore) (key : list Z) : Op bool :=
  let# _ := lift (validate_kv_name key key_kind) in
  let# affected := command_params (delete_sql (table_ref self)) [store_name self; key] in
  ret (0 <? affected).

Definition exists_key (self : KvStore) (key : list Z) : Op bool :=
  let# _ := lift (validate_kv_name key key_kind) in
  let# rs := query_params (str "SELECT 1 FROM " ++ table_ref self
               ++ str " WHERE store_name = $1 AND key = $2 LIMIT 1") [store_name self; key] in
  let# row := lift (first_row rs) in
  ret (match row with Some _ => true | None => false end).

Definition size (self : KvStore) : Op Z :=
  let# rs := query_params (str "SELECT COUNT(*) FROM " ++ table_ref self ++ str " WHERE store_name = $1")
               [store_name self] in
  let# n := lift (scalar rs) in
  ret (default 0 n).

Definition keys (self : KvStore) : Op (list (list Z)) :=
  let# rs := query_params (str "SELECT key FROM " ++ table_ref self
               ++ str " WHERE store_name = $1 ORDER BY key ASC") [store_name self] in
  lift (collect (fun r => get_string r 0) rs []).

Definition byte_size (self : KvStore) : Op Z :=
  let# rs := query_params (str "SELECT COALESCE(SUM(OCTET_LENGTH(value)), 0) FROM " ++ table_ref self
               ++ str " WHERE store_name = $1") [store_name self] in
  let# n := lift (scalar rs) in
  ret (default 0 n).

Definition entry_of (r : Row) : option (list Z * list Z) :=
  match get_string r 0 with
  | Some k => Some (k, default [] (get_string r 1))
  | None => None
  end.

Definition entries (self : KvStore) : Op (list (list Z * list Z)) :=
  let# rs := query_params (str "SELECT key, value FROM " ++ table_ref self
               ++ str " WHERE store_name = $1 ORDER BY key ASC") [store_name self] in
  lift (collect entry_of rs []).

Definition clear (self : KvStore) : Op Z :=
  command_params (str "DELETE FROM " ++ table_ref self ++ str " WHERE store_name = $1") [store_name self].

Definition pop_inner (self : KvStore) : Op (option (list Z * list Z)) :=
  let# rs := query_params (str "SELECT key, value FROM " ++ table_ref self
               ++ str " WHERE store_name = $1 ORDER BY key ASC LIMIT 1") [store_name self] in
  let# row := lift (first_row rs) in
  match row with
  | None => ret None
  | Some r =>
      match get_string r 0 with
      | None => lift (Err (Internal (str "kv pop: key column was unexpectedly NULL")))
      | Some key =>
          let value := default [] (get_string r 1) in
          let# _ := command_params (delete_sql (table_ref self)) [store_name self; key] in
          ret (Some (key, value))
      end
  end.

Definition pop (self : KvStore) : Op (option (list Z * list Z)) := in_transaction (pop_inner self).

(** The loop that validates every key first. *)
Fixpoint validate_all (entries : list (list Z * list Z)) : result unit Error :=
  match entries with
  | [] => Ok tt
  | (key, _) :: entries => let? _ := validate_kv_name key key_kind in validate_all entries
  end.

Fixpoint set_loop (self : KvStore) (entries : list (list Z * list Z)) (outcome : BatchSetOutcome) :
    Op BatchSetOutcome :=
  match entries with
  | [] => ret outcome
  | (key, value) :: entries =>
      let# created := upsert self key value in
      set_loop self entries
        (if created then mk_batch_set (S (batch_created outcome)) (overwritten outcome)
         else mk_batch_set (batch_created outcome) (S (overwritten outcome)))
  end.

Definition set_batch (self : KvStore) (entries : list (list Z * list Z)) : Op BatchSetOutcome :=
  let# _ := lift (validate_all entries) in
  in_transaction (set_loop self entries (mk_batch_set 0 0)).

Fixpoint guard_loop (self : KvStore) (entries : list (list Z * list Z)) (outcome : BatchGuardOutcome) :
    Op BatchGuardOutcome :=
  match entries with
  | [] => ret outcome
  | (key, value) :: entries =>
      let# wrote := set_if_absent self key value in
      guard_loop self entries
        (if wrote then mk_batch_guard (S (written outcome)) (skipped outcome)
         else mk_batch_guard (written outcome) (S (skipped outcome)))
  end.

Definition set_batch_if_absent (self : KvStore) (entries : list (list Z * list Z)) : Op BatchGuardOutcome :=
  let# _ := lift (validate_all entries) in
  in_transaction (guard_loop self entries (mk_batch_guard 0 0)).

(** [serde_json] is a parameter of the two methods that use it. *)
Definition get_as {T} (from_str : list Z -> result T (list Z)) (self : KvStore) (key : list Z) : Op (option T) :=
  let# json := get self key in
  match json with
  | Some json => lift (match from_str json with Ok v => Ok (Some v) | Err e => Err (Serialization e) end)
  | None => ret None
  end.

Definition set_as {T} (to_string : T -> result (list Z) (list Z)) (self : KvStore) (key : list Z) (value : T) :
    Op SetOutcome :=
  let# _ := lift (validate_kv_name key key_kind) in
  let# json := lift (match to_string value with Ok json => Ok json | Err e => Err (Serialization e) end) in
  let# created := upsert self key json in
  ret (mk_set created).

(** [Connection::kv_store], [kv_store_in] and [kv_list_stores]. *)
Definition kv_store (name : list Z) : Op KvStore := new name.

Definition kv_store_in (database name : list Z) : Op KvStore :=
  let# target := lift (kv_target_prefix database) in
  with_target name target.

Definition kv_list_stores_impl (table_ref : list Z) : Op (list (list Z)) :=
  let# _ := execute_command (kv_create_table_sql table_ref) in
  let# rs := execute_query (str "SELECT DISTINCT store_name FROM " ++ table_ref ++ str " ORDER BY store_name ASC") in
  lift (collect (fun r => get_string r 0) rs []).

Definition kv_list_stores : Op (list (list Z)) := kv_list_stores_impl KV_TABLE.

Definition kv_list_stores_in (database : list Z) : Op (list (list Z)) :=
  let# target := lift (kv_target_prefix database) in
  kv_list_stores_impl (target ++ str "." ++ KV_TABLE).

End operations.
Arguments Op : clear implicits.

(** ** What the server promises *)

(** A row of the table; the value is the only column that may be NULL. *)
Record KvRow : Type := mk_row { row_store : list Z; row_key : list Z; row_value : option (list Z) }.

#[export] Instance KvRow_eq_dec : EqDecision KvRow.
Proof. solve_decision. Defined.

Definition in_store (s : list Z) (r : KvRow) : Prop := row_store r = s.
Definition is_at (s key : list Z) (r : KvRow) : Prop := row_store r = s /\ row_key r = key.

#[export] Instance in_store_dec s r : Decision (in_store s r).
Proof. unfold in_store. apply _. Defined.
#[export] Instance is_at_dec s key r : Decision (is_at s key r).
Proof. unfold is_at. apply _. Defined.

(** The statements of the store that change rows, and their SQL with parameters. *)
Inductive Command : Type :=
| Update (s key value : list Z)
| InsertAbsent (s key value : list Z)
| DeleteKey (s key : list Z)
| DeleteStore (s : list Z).

Definition command_sql (t : list Z) (c : Command) : list Z * list (list Z) :=
  match c with
  | Update s key value => (update_sql t, [s; key; value])
  | InsertAbsent s key value => (insert_sql t, [s; key; value; s; key])
  | DeleteKey s key => (delete_sql t, [s; key])
  | DeleteStore s => (str "DELETE FROM " ++ t ++ str " WHERE store_name = $1", [s])
  end.

Definition set_value (value : list Z) (r : KvRow) : KvRow := mk_row (row_store r) (row_key r) (Some value).

(** What SQL makes of them: the number of rows affected and the rows after. *)
Definition effect (c : Command) (rows : list KvRow) : Z * list KvRow :=
  match c with
  | Update s key value =>
      (Z.of_nat (length (filter (is_at s key) rows)),
       (fun r => if decide (is_at s key r) then set_value value r else r) <$> rows)
  | InsertAbsent s key value =>
      match filter (is_at s key) rows with
      | [] => (1, mk_row s key (Some value) :: rows)
      | _ => (0, rows)
      end
  | DeleteKey s key =>
      (Z.of_nat (length (filter (is_at s key) rows)), filter (fun r => ~ is_at s key r) rows)
  | DeleteStore s => (Z.of_nat (length (filter (in_store s) rows)), filter (fun r => ~ in_store s r) rows)
  end.

Inductive Query : Type :=
| SelectValue (s key : list Z)
| SelectOne (s key : list Z)
| SelectCount (s : list Z)
| SelectKeys (s : list Z)
| SelectBytes (s : list Z)
| SelectEntries (s : list Z)
| SelectFirst (s : list Z)
| SelectStores.

Definition query_sql (t : list Z) (q : Query) : list Z * list (list Z) :=
  match q with
  | SelectValue s key => (str "SELECT value FROM " ++ t ++ str " WHERE store_name = $1 AND key = $2", [s; key])
  | SelectOne s key => (str "SELECT 1 FROM " ++ t ++ str " WHERE store_name = $1 AND key = $2 LIMIT 1", [s; key])
  | SelectCount s => (str "SELECT COUNT(*) FROM " ++ t ++ str " WHERE store_name = $1", [s])
  | SelectKeys s => (str "SELECT key FROM " ++ t ++ str " WHERE store_name = $1 ORDER BY key ASC", [s])
  | SelectBytes s =>
      (str "SELECT COALESCE(SUM(OCTET_LENGTH(value)), 0) FROM " ++ t ++ str " WHERE store_name = $1", [s])
  | SelectEntries s => (str "SELECT key, value FROM " ++ t ++ str " WHERE store_name = $1 ORDER BY key ASC", [s])
  | SelectFirst s => (str "SELECT key, value FROM " ++ t ++ str " WHERE store_name = $1 ORDER BY key ASC LIMIT 1", [s])
  | SelectStores => (str "SELECT DISTINCT store_name FROM " ++ t ++ str " ORDER BY store_name ASC", [])
  end.

Definition cell_of (v : option (list Z)) : Cell :=
  match v with
  | Some s => SqlText s
  | None => SqlNull
  end.

Definition octet_length (v : option (list Z)) : Z :=
  match v with
  | Some s => Z.of_nat (length (utf8 s))
  | None => 0
  end.

Definition sum_Z (l : list Z) : Z := foldr Z.add 0 l.

Section answers.
Context (key_le : relation (list Z)).

(** The rows of [s] in the order of their keys. *)
Definition ordered (s : list Z) (rows l : list KvRow) : Prop :=
  l ≡ₚ filter (in_store s) rows /\ Sorted (fun a b => key_le (row_key a) (row_key b)) l.

(** The result that SQL gives a query; ties are in any order. *)
Definition answers (q : Query) (rows : list KvRow) (rs : list Row) : Prop :=
  match q with
  | SelectValue s key => rs ≡ₚ (fun r => [cell_of (row_value r)]) <$> filter (is_at s key) rows
  | SelectOne s key => rs = (fun _ => [SqlInt 1]) <$> take 1 (filter (is_at s key) rows)
  | SelectCount s => rs = [[SqlInt (Z.of_nat (length (filter (in_store s) rows)))]]
  | SelectKeys s => exists l, ordered s rows l /\ rs = (fun r => [SqlText (row_key r)]) <$> l
  | SelectBytes s =>
      rs = [[SqlInt (sum_Z ((fun r => octet_length (row_value r)) <$> filter (in_store s) rows))]]
  | SelectEntries s =>
      exists l, ordered s rows l /\ rs = (fun r => [SqlText (row_key r); cell_of (row_value r)]) <$> l
  | SelectFirst s =>
      exists l, ordered s rows l /\ rs = (fun r => [SqlText (row_key r); cell_of (row_value r)]) <$> take 1 l
  | SelectStores =>
      exists l, NoDup l /\ Sorted key_le l /\ (forall s, s ∈ l <-> exists r, r ∈ rows /\ row_store r = s)
        /\ rs = (fun s => [SqlText s]) <$> l
  end.
End answers.

(** A result arrives in chunks that are not empty, unless reading it fails. *)
Inductive arrives : Rowset -> list Row -> Prop :=
| arrives_end : arrives [] []
| arrives_chunk chunk rs rows : chunk <> [] -> arrives rs rows -> arrives (Ok chunk :: rs) (chunk ++ rows)
| arrives_error e rs rows : arrives (Err e :: rs) rows.

Inductive TxnState : Type := Idle | Active | Failed.

(** The session sees the rows [visible] of the table; [durable] are the rows that
    remain if it goes. A statement that fails changes nothing, or, outside a
    transaction, was executed before the failure reached the client; a failed
    COMMIT may have committed; what fails inside a transaction makes it fail. *)
Class KvServer (K : Type) {conn : SqlConnection K} (t : list Z) (key_le : relation (list Z)) := {
  visible : K -> list KvRow;
  durable : K -> list KvRow;
  txn : K -> TxnState;
  law_idle k : txn k = Idle -> visible k ≡ₚ durable k;
  law_command c k r k' :
    command_params (command_sql t c).1 (command_sql t c).2 k = (r, k') ->
    match r, txn k with
    | Ok n, Idle =>
        n = (effect c (visible k)).1 /\ txn k' = Idle /\ durable k' ≡ₚ (effect c (visible k)).2
    | Ok n, Active =>
        n = (effect c (visible k)).1 /\ txn k' = Active /\ visible k' ≡ₚ (effect c (visible k)).2
        /\ durable k' ≡ₚ durable k
    | Err _, Idle => txn k' = Idle /\ (durable k' ≡ₚ durable k \/ durable k' ≡ₚ (effect c (visible k)).2)
    | Err _, Active | Err _, Failed => txn k' = Failed /\ durable k' ≡ₚ durable k
    | Ok _, Failed => False
    end;
  law_query q k r k' :
    match q with
    | SelectStores => execute_query (query_sql t q).1 k
    | _ => query_params (query_sql t q).1 (query_sql t q).2 k
    end = (r, k') ->
    durable k' ≡ₚ durable k /\
    (txn k' = txn k /\ visible k' ≡ₚ visible k \/ txn k = Active /\ txn k' = Failed) /\
    (forall rs, r = Ok rs -> exists rows, answers key_le q (visible k) rows /\ arrives rs rows);
  law_create k r k' :
    txn k = Idle -> execute_command (kv_create_table_sql t) k = (r, k') -> txn k' = Idle /\ durable k' ≡ₚ durable k;
  law_begin k r k' :
    txn k = Idle -> execute_command (str "BEGIN TRANSACTION") k = (r, k') ->
    durable k' ≡ₚ durable k /\ (is_ok r = true -> txn k' = Active /\ visible k' ≡ₚ visible k);
  law_commit k r k' :
    execute_command (str "COMMIT") k = (r, k') ->
    match txn k with
    | Active => if is_ok r then txn k' = Idle /\ durable k' ≡ₚ visible k
                else durable k' ≡ₚ durable k \/ durable k' ≡ₚ visible k
    | Failed => durable k' ≡ₚ durable k /\ (is_ok r = true -> txn k' = Idle)
    | Idle => True
    end;
  law_rollback k r k' :
    txn k <> Idle -> execute_command (str "ROLLBACK") k = (r, k') -> durable k' ≡ₚ durable k;
}.

(** ** The specification: a finite map *)

Abbreviation Map := (gmap (list Z * list Z) (list Z)).

(** The entries of one store. *)
Definition entries_of (s : list Z) (m : Map) : list ((list Z * list Z) * list Z) :=
  filter (fun p => p.1.1 = s) (map_to_list m).

Inductive Call : Type :=
| Open (s : list Z)
| Get (s key : list Z)
| Set_ (s key value : list Z)
| SetIfAbsent (s key value : list Z)
| Delete (s key : list Z)
| Exists_ (s key : list Z)
| Size (s : list Z)
| Keys (s : list Z)
| ByteSize (s : list Z)
| Entries (s : list Z)
| Clear (s : list Z)
| Pop (s : list Z)
| SetBatch (s : list Z) (entries : list (list Z * list Z))
| SetBatchIfAbsent (s : list Z) (entries : list (list Z * list Z))
| ListStores.

Inductive Output : Type :=
| OStore (s : KvStore)
| OValue (v : option (list Z))
| OSet (o : SetOutcome)
| OBool (b : bool)
| OInt (n : Z)
| ONames (l : list (list Z))
| OEntries (l : list (list Z * list Z))
| OPop (e : option (list Z * list Z))
| OBatch (o : BatchSetOutcome)
| OGuard (o : BatchGuardOutcome).

Definition map_op {K A B} (f : A -> B) (m : Op K A) : Op K B := bind m (fun a => ret (f a)).

(** A call on a store of the table [t]. *)
Definition run_call {K} `{!SqlConnection K} (t : list Z) (c : Call) : Op K Output :=
  let st s := mk_store s t in
  match c with
  | Open s => map_op OStore (open s t)
  | Get s key => map_op OValue (get (st s) key)
  | Set_ s key value => map_op OSet (set (st s) key value)
  | SetIfAbsent s key value => map_op OBool (set_if_absent (st s) key value)
  | Delete s key => map_op OBool (delete (st s) key)
  | Exists_ s key => map_op OBool (exists_key (st s) key)
  | Size s => map_op OInt (size (st s))
  | Keys s => map_op ONames (keys (st s))
  | ByteSize s => map_op OInt (byte_size (st s))
  | Entries s => map_op OEntries (entries (st s))
  | Clear s => map_op OInt (clear (st s))
  | Pop s => map_op OPop (pop (st s))
  | SetBatch s es => map_op OBatch (set_batch (st s) es)
  | SetBatchIfAbsent s es => map_op OGuard (set_batch_if_absent (st s) es)
  | ListStores => map_op ONames (kv_list_stores_impl t)
  end.

(** Insertion of pairs in order: how many were new, how many were there, the map. *)
Fixpoint insert_all (overwrite : bool) (s : list Z) (es : list (list Z * list Z)) (m : Map) : nat * nat * Map :=
  match es with
  | [] => (0%nat, 0%nat, m)
  | (key, value) :: es =>
      match m !! (s, key) with
      | None => let '(a, b, m) := insert_all overwrite s es (<[(s, key) := value]> m) in (S a, b, m)
      | Some _ =>
          let '(a, b, m) := insert_all overwrite s es (if overwrite then <[(s, key) := value]> m else m) in
          (a, S b, m)
      end
  end.

Section spec.
Context (key_le : relation (list Z)).

(** What a call returns on the map [m], and the map after it. *)
Definition spec (t : list Z) (c : Call) (m : Map) (o : Output) (m' : Map) : Prop :=
  match c, o with
  | Open s, OStore st => st = mk_store s t /\ m' = m
  | Get s key, OValue v => v = m !! (s, key) /\ m' = m
  | Set_ s key value, OSet o =>
      created o = bool_decide (m !! (s, key) = None) /\ m' = <[(s, key) := value]> m
  | SetIfAbsent s key value, OBool b =>
      b = bool_decide (m !! (s, key) = None) /\ m' = if b then <[(s, key) := value]> m else m
  | Delete s key, OBool b => b = bool_decide (is_Some (m !! (s, key))) /\ m' = base.delete (s, key) m
  | Exists_ s key, OBool b => b = bool_decide (is_Some (m !! (s, key))) /\ m' = m
  | Size s, OInt n => n = Z.of_nat (length (entries_of s m)) /\ m' = m
  | Keys s, ONames l => l ≡ₚ (fun p => p.1.2) <$> entries_of s m /\ Sorted key_le l /\ m' = m
  | ByteSize s, OInt n =>
      n = sum_Z ((fun p => Z.of_nat (length (utf8 p.2))) <$> entries_of s m) /\ m' = m
  | Entries s, OEntries l =>
      l ≡ₚ (fun p => (p.1.2, p.2)) <$> entries_of s m /\ Sorted (fun a b => key_le a.1 b.1) l /\ m' = m
  | Clear s, OInt n =>
      n = Z.of_nat (length (entries_of s m)) /\ m' = filter (fun p => p.1.1 <> s) m
  | Pop s, OPop None => entries_of s m = [] /\ m' = m
  | Pop s, OPop (Some (key, value)) =>
      m !! (s, key) = Some value /\ m' = base.delete (s, key) m /\
      (forall key', is_Some (m !! (s, key')) -> key' = key \/ key_le key key')
  | SetBatch s es, OBatch o => insert_all true s es m = (batch_created o, overwritten o, m')
  | SetBatchIfAbsent s es, OGuard o => insert_all false s es m = (written o, skipped o, m')
  | ListStores, ONames l =>
      NoDup l /\ Sorted key_le l /\ (forall s, s ∈ l <-> entries_of s m <> []) /\ m' = m
  | _, _ => False
  end.
End spec.

(** ** Rows and maps *)

Definition row_of (p : (list Z * list Z) * list Z) : KvRow := mk_row p.1.1 p.1.2 (Some p.2).

(** The rows of the table are the entries of the map: a key has one row, and no
    value is NULL. *)
Definition rep (rows : list KvRow) (m : Map) : Prop := rows ≡ₚ row_of <$> map_to_list m.

#[export] Instance rep_proper : Proper ((≡ₚ) ==> (=) ==> iff) rep.
Proof. intros r1 r2 Hr m ? <-. unfold rep. by rewrite Hr. Qed.

Lemma filter_permutation_length {A} (P : A -> Prop) `{!forall x, Decision (P x)} (l1 l2 : list A) :
  l1 ≡ₚ l2 -> length (filter P l1) = length (filter P l2).
Proof. by intros ->. Qed.

Lemma effect_permutation c rows rows' :
  rows ≡ₚ rows' -> (effect c rows).1 = (effect c rows').1 /\ (effect c rows).2 ≡ₚ (effect c rows').2.
Proof.
  intros H. destruct c as [s key value | s key value | s key | s]; cbn [effect fst snd];
    [| | split; [by rewrite (filter_permutation_length _ _ _ H) | by rewrite H] ..].
  - split; [by rewrite (filter_permutation_length _ _ _ H) | by rewrite H].
  - assert (Hf : filter (is_at s key) rows ≡ₚ filter (is_at s key) rows') by by rewrite H.
    destruct (filter (is_at s key) rows) as [| r l].
    + apply Permutation_nil in Hf as ->. by rewrite H.
    + destruct (filter (is_at s key) rows') as [| r' l']; [symmetry in Hf; by apply Permutation_nil in Hf | done].
Qed.

Lemma rep_present rows m s key value :
  rep rows m -> m !! (s, key) = Some value ->
  exists rest, rows ≡ₚ mk_row s key (Some value) :: rest /\ rep rest (base.delete (s, key) m)
    /\ Forall (fun r => ~ is_at s key r) rest.
Proof.
  intros H Hm. exists (row_of <$> map_to_list (base.delete (s, key) m)). split_and!.
  - rewrite H. by rewrite <- (map_to_list_delete m (s, key) value Hm).
  - by unfold rep.
  - apply list.Forall_forall. intros r ([[s' key'] v'] & -> & Hin%elem_of_map_to_list)%list_elem_of_fmap [Hs Hk].
    cbn in Hs, Hk. subst. by rewrite lookup_delete_eq in Hin.
Qed.

Lemma rep_absent rows m s key :
  rep rows m -> m !! (s, key) = None -> Forall (fun r => ~ is_at s key r) rows.
Proof.
  intros H Hm. apply list.Forall_forall. intros r Hr. rewrite H in Hr.
  apply list_elem_of_fmap in Hr as ([[s' key'] v'] & -> & Hin%elem_of_map_to_list). intros [Hs Hk].
  cbn in Hs, Hk. subst. congruence.
Qed.

Lemma filter_at_none s key rows :
  Forall (fun r => ~ is_at s key r) rows ->
  filter (is_at s key) rows = [] /\ filter (fun r => ~ is_at s key r) rows = rows.
Proof.
  intros H. split; [induction H; [done |]; by rewrite filter_cons_False |].
  induction H; [done |]. rewrite filter_cons_True by done. by f_equal.
Qed.

Lemma update_none s key value rows :
  Forall (fun r => ~ is_at s key r) rows ->
  (fun r => if decide (is_at s key r) then set_value value r else r) <$> rows = rows.
Proof. induction 1 as [| r rows Hr _ IH]; [done |]. cbn. rewrite decide_False by done. by f_equal. Qed.

Lemma rep_insert rows m s key value :
  rep rows (base.delete (s, key) m) -> rep (mk_row s key (Some value) :: rows) (<[(s, key) := value]> m).
Proof.
  unfold rep. intros ->. rewrite <- insert_delete_eq, map_to_list_insert by apply lookup_delete_eq. done.
Qed.

(** The rows of one store are its entries. *)
Lemma filter_store s (l : list ((list Z * list Z) * list Z)) :
  filter (in_store s) (row_of <$> l) = row_of <$> filter (fun p => p.1.1 = s) l /\
  filter (fun r => ~ in_store s r) (row_of <$> l) = row_of <$> filter (fun p => p.1.1 <> s) l.
Proof.
  induction l as [| p l [IH1 IH2]]; [done |]. rewrite fmap_cons. destruct (decide (p.1.1 = s)).
  - rewrite (filter_cons_True (in_store s)), (filter_cons_True (fun p => p.1.1 = s)) by done.
    rewrite (filter_cons_False (fun r => ~ in_store s r)), (filter_cons_False (fun p => p.1.1 <> s)) by (by intros []).
    by rewrite fmap_cons, IH1.
  - rewrite (filter_cons_False (in_store s)), (filter_cons_False (fun p => p.1.1 = s)) by done.
    rewrite (filter_cons_True (fun r => ~ in_store s r)), (filter_cons_True (fun p => p.1.1 <> s)) by done.
    by rewrite fmap_cons, IH2.
Qed.

Lemma rep_store rows m s : rep rows m -> filter (in_store s) rows ≡ₚ row_of <$> entries_of s m.
Proof. unfold rep. intros ->. by rewrite (proj1 (filter_store s _)). Qed.

(** The statements on the map. *)
Definition command_map (c : Command) (m : Map) : Z * Map :=
  match c with
  | Update s key value =>
      match m !! (s, key) with
      | Some _ => (1, <[(s, key) := value]> m)
      | None => (0, m)
      end
  | InsertAbsent s key value =>
      match m !! (s, key) with
      | Some _ => (0, m)
      | None => (1, <[(s, key) := value]> m)
      end
  | DeleteKey s key => (if decide (is_Some (m !! (s, key))) then 1 else 0, base.delete (s, key) m)
  | DeleteStore s => (Z.of_nat (length (entries_of s m)), filter (fun p => p.1.1 <> s) m)
  end.

Lemma map_to_list_filter (P : (list Z * list Z) * list Z -> Prop) `{!forall p, Decision (P p)} (m : Map) :
  map_to_list (filter P m) ≡ₚ filter P (map_to_list m).
Proof.
  apply NoDup_Permutation; [apply NoDup_map_to_list | apply list.NoDup_filter, NoDup_map_to_list |].
  intros [i x]. rewrite elem_of_map_to_list, map_lookup_filter_Some, list_elem_of_filter, elem_of_map_to_list. tauto.
Qed.

Lemma effect_rep c rows m :
  rep rows m -> (effect c rows).1 = (command_map c m).1 /\ rep (effect c rows).2 (command_map c m).2.
Proof.
  intros H.
  assert (Hkey : forall s key, match m !! (s, key) with
    | Some value => exists rest, rows ≡ₚ mk_row s key (Some value) :: rest /\ rep rest (base.delete (s, key) m)
        /\ Forall (fun r => ~ is_at s key r) rest
    | None => Forall (fun r => ~ is_at s key r) rows
    end).
  { intros s key. destruct (m !! (s, key)) eqn:E; [by apply rep_present | by apply (rep_absent _ m)]. }
  destruct c as [s key value | s key value | s key | s]; cbn [command_map]; [specialize (Hkey s key) .. | clear Hkey].
  - destruct (m !! (s, key)) as [v |] eqn:E.
    + destruct Hkey as (rest & Hp & Hrest & Hno).
      destruct (effect_permutation (Update s key value) _ _ Hp) as [-> Hrep]. rewrite Hrep.
      cbn [effect fst snd]. rewrite filter_cons_True by done. rewrite (proj1 (filter_at_none _ _ _ Hno)).
      rewrite fmap_cons, decide_True, update_none by done. split; [done |]. by apply rep_insert.
    + cbn [effect fst snd]. rewrite (proj1 (filter_at_none _ _ _ Hkey)), update_none by done. done.
  - destruct (m !! (s, key)) as [v |] eqn:E.
    + destruct Hkey as (rest & Hp & Hrest & Hno).
      destruct (effect_permutation (InsertAbsent s key value) _ _ Hp) as [-> Hrep]. rewrite Hrep.
      cbn [effect fst snd]. rewrite filter_cons_True by done. cbn [fst snd]. by rewrite <- Hp.
    + cbn [effect fst snd]. rewrite (proj1 (filter_at_none _ _ _ Hkey)). cbn [fst snd]. split; [done |].
      apply rep_insert. by rewrite delete_id.
  - destruct (m !! (s, key)) as [v |] eqn:E.
    + destruct Hkey as (rest & Hp & Hrest & Hno).
      destruct (effect_permutation (DeleteKey s key) _ _ Hp) as [-> Hrep]. rewrite Hrep.
      cbn [effect fst snd]. rewrite filter_cons_True by done. rewrite (proj1 (filter_at_none _ _ _ Hno)).
      rewrite filter_cons_False by (intros Hx; by apply Hx). rewrite (proj2 (filter_at_none _ _ _ Hno)).
      rewrite decide_True by eauto. done.
    + cbn [effect fst snd]. destruct (filter_at_none _ _ _ Hkey) as [-> ->].
      rewrite decide_False by (by intros [? ?]). by rewrite delete_id.
  - cbn [effect fst snd]. split.
    + by rewrite (Permutation_length (rep_store _ _ s H)), length_fmap.
    + unfold rep in *. rewrite H, (proj2 (filter_store s _)), map_to_list_filter. done.
Qed.

(** ** The operations on the map *)

Section refinement.
Context {K : Type} `{conn : !SqlConnection K} (t : list Z) (key_le : relation (list Z)).
Context `{server : !KvServer K t key_le}.

(** Between calls: no transaction, and the table holds the map [m]. *)
Definition holds (k : K) (m : Map) : Prop := txn k = Idle /\ rep (durable k) m.

(** In a transaction the session sees [m], and the table still holds what it held. *)
Definition within (k0 k : K) (m : Map) : Prop :=
  txn k = Active /\ rep (visible k) m /\ durable k ≡ₚ durable k0.

Definition lost (k0 k : K) : Prop := txn k = Failed /\ durable k ≡ₚ durable k0.

Definition send_command (c : Command) : Op K Z :=
  command_params (command_sql t c).1 (command_sql t c).2.

Lemma command_idle c k m r k' :
  holds k m -> send_command c k = (r, k') ->
  match r with
  | Ok n => n = (command_map c m).1 /\ holds k' (command_map c m).2
  | Err _ => holds k' m \/ holds k' (command_map c m).2
  end.
Proof.
  intros [Hidle Hrep] Hc. pose proof (law_command c k r k' Hc) as Hl. rewrite Hidle in Hl.
  pose proof (law_idle k Hidle) as Hv. assert (Hrv : rep (visible k) m) by by rewrite Hv.
  destruct (effect_rep c _ _ Hrv) as [Hn Hr]. unfold holds. destruct r as [n | e].
  - destruct Hl as (-> & -> & Hd). rewrite Hd. done.
  - destruct Hl as [-> [Hd | Hd]]; [left | right]; by rewrite Hd.
Qed.

Lemma command_within c k0 k m r k' :
  within k0 k m -> send_command c k = (r, k') ->
  match r with
  | Ok n => n = (command_map c m).1 /\ within k0 k' (command_map c m).2
  | Err _ => lost k0 k'
  end.
Proof.
  intros (Hact & Hrep & Hdur) Hc. pose proof (law_command c k r k' Hc) as Hl. rewrite Hact in Hl.
  destruct (effect_rep c _ _ Hrep) as [Hn Hr]. unfold within, lost. destruct r as [n | e].
  - destruct Hl as (-> & -> & Hv & Hd). rewrite Hv. split_and!; try done. by rewrite Hd.
  - destruct Hl as [-> Hd]. split; [done | by rewrite Hd].
Qed.

Lemma command_lost c k0 k r k' :
  lost k0 k -> send_command c k = (r, k') -> (exists e, r = Err e) /\ lost k0 k'.
Proof.
  intros [Hf Hd] Hc. pose proof (law_command c k r k' Hc) as Hl. rewrite Hf in Hl.
  destruct r as [n | e]; [done |]. destruct Hl as [Hf' Hd']. split; [eauto |]. split; [done | by rewrite Hd'].
Qed.

Definition ask (q : Query) : Op K Rowset :=
  match q with
  | SelectStores => execute_query (query_sql t q).1
  | _ => query_params (query_sql t q).1 (query_sql t q).2
  end.

Lemma ask_laws q k r k' :
  ask q k = (r, k') ->
  durable k' ≡ₚ durable k /\
  (txn k' = txn k /\ visible k' ≡ₚ visible k \/ txn k = Active /\ txn k' = Failed) /\
  (forall rs, r = Ok rs -> exists rows, answers key_le q (visible k) rows /\ arrives rs rows).
Proof. intros H. apply (law_query q k r k'). by destruct q. Qed.

(** Asking between calls changes nothing, and answers about the map. *)
Lemma ask_idle q k m r k' :
  holds k m -> ask q k = (r, k') ->
  holds k' m /\ (forall rs, r = Ok rs -> exists vis rows, rep vis m /\ answers key_le q vis rows /\ arrives rs rows).
Proof.
  intros [Hidle Hrep] Hq. destruct (ask_laws q k r k' Hq) as (Hd & Ht & Hrs). split.
  - split; [| by rewrite Hd]. destruct Ht as [[-> _] | [Ht _]]; congruence.
  - intros rs Hr. destruct (Hrs rs Hr) as (rows & Ha & Harr). exists (visible k), rows. split_and!; [| done | done].
    by rewrite (law_idle k Hidle).
Qed.

(** Reading results. *)
Lemma arrives_first rs rows r :
  arrives rs rows -> first_row rs = Ok r -> r = head rows.
Proof.
  intros Ha. destruct Ha as [| chunk rs rows Hne Ha | e rs rows]; cbn; [by intros [= <-] | | done].
  intros [= <-]. by destruct chunk.
Qed.

Lemma arrives_collect {A} (f : Row -> option A) rs rows acc l :
  arrives rs rows -> collect f rs acc = Ok l -> l = acc ++ omap f rows.
Proof.
  intros Ha. revert acc. induction Ha as [| chunk rs rows Hne Ha IH | e rs rows]; intros acc; cbn.
  - intros [= <-]. by rewrite app_nil_r.
  - intros H. rewrite (IH _ H), omap_app. by rewrite app_assoc.
  - done.
Qed.

(** The upsert, between calls and inside a transaction. *)
Lemma upsert_idle s key value k m r k' :
  holds k m -> upsert (mk_store s t) key value k = (r, k') ->
  match r with
  | Ok c => c = bool_decide (m !! (s, key) = None) /\ holds k' (<[(s, key) := value]> m)
  | Err _ => holds k' m \/ holds k' (<[(s, key) := value]> m)
  end.
Proof.
  intros Hk. unfold upsert, bind, ret. cbn [store_name table_ref].
  destruct (command_params _ _ k) as [[n | e] k1] eqn:H1;
    pose proof (command_idle (Update s key value) k m _ k1 Hk H1) as Hu; cbn [command_map] in Hu.
  - destruct (m !! (s, key)) as [v |] eqn:E; cbn [fst snd] in Hu; destruct Hu as [-> Hk1]; cbn [Z.eqb].
    + intros [= <- <-]. rewrite bool_decide_false by done. done.
    + destruct (command_params (insert_sql t) _ k1) as [[n | e] k2] eqn:H2;
        pose proof (command_idle (InsertAbsent s key value) k1 m _ k2 Hk1 H2) as Hi;
        cbn [command_map] in Hi; rewrite E in Hi; cbn [fst snd] in Hi; intros [= <- <-]; [| done].
      rewrite bool_decide_true by done. by destruct Hi.
  - intros [= <- <-]. destruct (m !! (s, key)); cbn [snd] in Hu; destruct Hu; auto.
Qed.

Lemma upsert_within s key value k0 k m r k' :
  within k0 k m -> upsert (mk_store s t) key value k = (r, k') ->
  match r with
  | Ok c => c = bool_decide (m !! (s, key) = None) /\ within k0 k' (<[(s, key) := value]> m)
  | Err _ => lost k0 k'
  end.
Proof.
  intros Hk. unfold upsert, bind, ret. cbn [store_name table_ref].
  destruct (command_params _ _ k) as [[n | e] k1] eqn:H1;
    pose proof (command_within (Update s key value) k0 k m _ k1 Hk H1) as Hu; cbn [command_map] in Hu.
  - destruct (m !! (s, key)) as [v |] eqn:E; cbn [fst snd] in Hu; destruct Hu as [-> Hk1]; cbn [Z.eqb].
    + intros [= <- <-]. rewrite bool_decide_false by done. done.
    + destruct (command_params (insert_sql t) _ k1) as [[n | e] k2] eqn:H2;
        pose proof (command_within (InsertAbsent s key value) k0 k1 m _ k2 Hk1 H2) as Hi;
        cbn [command_map] in Hi; rewrite ?E in Hi; cbn [fst snd] in Hi; intros [= <- <-]; [| done].
      rewrite bool_decide_true by done. by destruct Hi.
  - by intros [= <- <-].
Qed.

Lemma set_if_absent_within s key value k0 k m r k' :
  within k0 k m -> validate_kv_name key key_kind = Ok tt ->
  set_if_absent (mk_store s t) key value k = (r, k') ->
  match r with
  | Ok b => b = bool_decide (m !! (s, key) = None) /\ within k0 k' (if b then <[(s, key) := value]> m else m)
  | Err _ => lost k0 k'
  end.
Proof.
  intros Hk Hv. unfold set_if_absent, bind, ret, lift. rewrite Hv. cbn [store_name table_ref].
  destruct (command_params _ _ k) as [[n | e] k1] eqn:H1;
    pose proof (command_within (InsertAbsent s key value) k0 k m _ k1 Hk H1) as Hu; cbn [command_map] in Hu;
    intros [= <- <-]; [| done].
  destruct (m !! (s, key)) eqn:E; destruct Hu as [-> Hk1]; cbn [fst snd Z.ltb Z.compare] in *.
  - by rewrite bool_decide_false.
  - by rewrite bool_decide_true.
Qed.

(** The loops of the batches, from what they have counted. *)
Lemma set_loop_within s es o k0 k m r k' :
  within k0 k m -> set_loop (mk_store s t) es o k = (r, k') ->
  match r with
  | Ok o' => let '(a, b, m') := insert_all true s es m in
             o' = mk_batch_set (batch_created o + a) (overwritten o + b) /\ within k0 k' m'
  | Err _ => lost k0 k'
  end.
Proof.
  revert o k m. induction es as [| [key value] es IH]; intros o k m Hk; cbn [set_loop insert_all].
  { intros [= <- <-]. destruct o. by rewrite !Nat.add_0_r. }
  unfold bind. destruct (upsert _ key value k) as [[c | e] k1] eqn:Hu;
    pose proof (upsert_within s key value k0 k m _ k1 Hk Hu) as H1; [| by intros [= <- <-]].
  destruct H1 as [-> Hk1]. destruct (m !! (s, key)) as [v |]; intros Hl; specialize (IH _ _ _ Hk1 Hl);
    (destruct r as [o' |]; [| done]); destruct (insert_all true s es _) as [[a b] m'];
    destruct IH as [-> Hw]; (split; [| done]); cbn; f_equal; lia.
Qed.

Lemma guard_loop_within s es o k0 k m r k' :
  within k0 k m -> validate_all es = Ok tt -> guard_loop (mk_store s t) es o k = (r, k') ->
  match r with
  | Ok o' => let '(a, b, m') := insert_all false s es m in
             o' = mk_batch_guard (written o + a) (skipped o + b) /\ within k0 k' m'
  | Err _ => lost k0 k'
  end.
Proof.
  revert o k m. induction es as [| [key value] es IH]; intros o k m Hk Hv; cbn [guard_loop insert_all].
  { intros [= <- <-]. destruct o. by rewrite !Nat.add_0_r. }
  cbn [validate_all] in Hv. destruct (validate_kv_name key key_kind) as [[] |] eqn:Hkey; [| done].
  unfold bind. destruct (set_if_absent _ key value k) as [[c | e] k1] eqn:Hu;
    pose proof (set_if_absent_within s key value k0 k m _ k1 Hk Hkey Hu) as H1; [| by intros [= <- <-]].
  destruct H1 as [-> Hk1]. destruct (m !! (s, key)) as [v |]; intros Hl; specialize (IH _ _ _ Hk1 Hv Hl);
    (destruct r as [o' |]; [| done]); destruct (insert_all false s es _) as [[a b] m'];
    destruct IH as [-> Hw]; (split; [| done]); cbn; f_equal; lia.
Qed.

(** A transaction is all or nothing, whatever fails in it. *)
Lemma transaction {A} (body : Op K A) (P : A -> Map -> Prop) k m r k' :
  holds k m ->
  (forall k1 r1 k2, within k k1 m -> body k1 = (r1, k2) ->
     match r1 with
     | Ok a => (exists m', P a m' /\ within k k2 m') \/ (P a m /\ lost k k2)
     | Err _ => (exists m', within k k2 m') \/ lost k k2
     end) ->
  in_transaction body k = (r, k') ->
  match r with
  | Ok a => exists m', P a m' /\ holds k' m'
  | Err _ => exists m', rep (durable k') m' /\ (m' = m \/ exists a, P a m')
  end.
Proof.
  intros [Hidle Hrep] Hbody. unfold in_transaction, begin_transaction_unguarded, bind at 1 2, ret at 1.
  destruct (execute_command _ k) as [[n | e] k1] eqn:Hb; destruct (law_begin k _ k1 Hidle Hb) as [Hd1 Hact].
  2: { intros [= <- <-]. exists m. rewrite Hd1. auto. }
  destruct (Hact eq_refl) as [Hact1 Hv1].
  assert (Hw : within k k1 m) by (split_and!; [done | by rewrite Hv1, (law_idle k Hidle) | done]).
  destruct (body k1) as [[a | e] k2] eqn:Hbk; specialize (Hbody k1 _ k2 Hw Hbk).
  - unfold commit_unguarded, bind, ret. destruct (execute_command (str "COMMIT") k2) as [rc k3] eqn:Hc.
    pose proof (law_commit k2 rc k3 Hc) as Hlaw.
    destruct Hbody as [(m' & HP & Hact2 & Hrep2 & Hd2) | [HP [Hf Hd2]]].
    + rewrite Hact2 in Hlaw. destruct rc as [nc | ec]; cbn [is_ok] in Hlaw; intros [= <- <-].
      * destruct Hlaw as [Hi Hd]. exists m'. split; [done |]. split; [done | by rewrite Hd].
      * destruct Hlaw as [Hd | Hd]; [exists m | exists m']; (split; [by rewrite Hd, ?Hd2 | eauto]).
    + rewrite Hf in Hlaw. destruct Hlaw as [Hd Hi]. destruct rc as [nc | ec]; intros [= <- <-].
      * exists m. split; [done |]. split; [by apply Hi | by rewrite Hd, Hd2].
      * exists m. split; [by rewrite Hd, Hd2 | auto].
  - unfold rollback_unguarded, bind, ret. destruct (execute_command (str "ROLLBACK") k2) as [rr k3] eqn:Hr.
    assert (Hd : txn k2 <> Idle /\ durable k2 ≡ₚ durable k)
      by (destruct Hbody as [(m' & Hact2 & _ & Hd2) | [Hf Hd2]]; (split; [congruence | done])).
    pose proof (law_rollback k2 rr k3 (proj1 Hd) Hr) as Hd3.
    intros Heq. assert (k' = k3 /\ r = Err e) as [-> ->] by (by destruct rr; injection Heq).
    exists m. split; [by rewrite Hd3, (proj2 Hd) | auto].
Qed.

Lemma ordered_entries s vis m l :
  rep vis m -> ordered key_le s vis l ->
  l ≡ₚ row_of <$> entries_of s m /\ Sorted (fun a b => key_le (row_key a) (row_key b)) l.
Proof. intros Hr [Hp Hs]. split; [| done]. by rewrite Hp, rep_store. Qed.

Lemma in_entries s key value m : ((s, key), value) ∈ entries_of s m <-> m !! (s, key) = Some value.
Proof. unfold entries_of. rewrite list_elem_of_filter, elem_of_map_to_list. cbn. tauto. Qed.

Lemma entry_of_store s p m : p ∈ entries_of s m -> p = ((s, p.1.2), p.2).
Proof. unfold entries_of. rewrite list_elem_of_filter. intros [<- _]. by destruct p as [[? ?] ?]. Qed.

(** [pop] inside its transaction. *)
Lemma pop_inner_within `{!Transitive key_le} s k0 k m r k' :
  within k0 k m -> pop_inner (mk_store s t) k = (r, k') ->
  match r with
  | Ok a => (exists m', spec key_le t (Pop s) m (OPop a) m' /\ within k0 k' m')
            \/ (spec key_le t (Pop s) m (OPop a) m /\ lost k0 k')
  | Err _ => (exists m', within k0 k' m') \/ lost k0 k'
  end.
Proof.
  intros (Hact & Hrep & Hdur). unfold pop_inner, bind, lift, ret. cbn [table_ref store_name].
  destruct (query_params _ _ k) as [rq k1] eqn:Hq.
  destruct (ask_laws (SelectFirst s) k rq k1 Hq) as (Hd1 & Ht1 & Hrows).
  assert (Hk1 : within k0 k1 m \/ lost k0 k1).
  { destruct Ht1 as [[Ht Hv] | [_ Ht]]; [left; split; [congruence | by rewrite Hv, Hd1] | right; split; [congruence | by rewrite Hd1]]. }
  destruct rq as [rs | e]; [| intros [= <- <-]; destruct Hk1; eauto].
  destruct (Hrows rs eq_refl) as (rows & (l & Hord & ->) & Harr).
  destruct (ordered_entries s _ m l Hrep Hord) as [Hperm Hsorted].
  destruct (first_row rs) as [row | e] eqn:Hf; [| intros [= <- <-]; destruct Hk1; eauto].
  rewrite (arrives_first _ _ _ Harr Hf). destruct l as [| x l]; cbn [take fmap list_fmap head].
  - intros [= <- <-]. apply Permutation_nil in Hperm. apply fmap_nil_inv in Hperm.
    destruct Hk1; [left; exists m | right]; done.
  - assert (Hx : x ∈ row_of <$> entries_of s m) by (rewrite <- Hperm; by apply list_elem_of_here).
    apply list_elem_of_fmap in Hx as (p & -> & Hp). pose proof (entry_of_store s p m Hp) as Heq.
    destruct p as [[s' key] value]. cbn in Heq. injection Heq as ->. apply in_entries in Hp.
    unfold get_string. cbn [row_of row_key row_value lookup list_lookup cell_of default from_option fst snd].
    destruct (command_params _ _ k1) as [[n | e] k2] eqn:Hc.
    + intros [= <- <-]. destruct Hk1 as [Hw | Hl].
      * pose proof (command_within (DeleteKey s key) k0 k1 m _ k2 Hw Hc) as [_ Hw2].
        left. exists (base.delete (s, key) m). split; [| done]. cbn [spec]. split_and!; [done | done |].
        intros key' [value' Hm']. apply in_entries in Hm'.
        assert (Hin : row_of ((s, key'), value') ∈ row_of ((s, key), value) :: l)
          by (rewrite Hperm; apply list_elem_of_fmap; eauto).
        apply elem_of_cons in Hin as [Hin | Hin]; [left; by injection Hin | right].
        apply Sorted_StronglySorted in Hsorted; [| intros a b c; apply transitivity].
        apply StronglySorted_inv in Hsorted as [_ Hall]. rewrite list.Forall_forall in Hall. by apply (Hall _ Hin).
      * by destruct (command_lost (DeleteKey s key) k0 k1 _ k2 Hl Hc) as [[e ?] _].
    + intros [= <- <-]. right. destruct Hk1 as [Hw | Hl].
      * by pose proof (command_within (DeleteKey s key) k0 k1 m _ k2 Hw Hc).
      * by destruct (command_lost (DeleteKey s key) k0 k1 _ k2 Hl Hc).
Qed.

Lemma at_rows vis m s key :
  rep vis m -> filter (is_at s key) vis ≡ₚ match m !! (s, key) with
                                          | Some v => [mk_row s key (Some v)]
                                          | None => []
                                          end.
Proof.
  intros H. destruct (m !! (s, key)) as [v |] eqn:E.
  - destruct (rep_present vis m s key v H E) as (rest & -> & _ & Hno). rewrite filter_cons_True by done.
    by rewrite (proj1 (filter_at_none _ _ _ Hno)).
  - by rewrite (proj1 (filter_at_none _ _ _ (rep_absent vis m s key H E))).
Qed.

Lemma omap_rows {A B} (f : Row -> option B) (g : A -> Row) (h : A -> B) (l : list A) :
  (forall a, a ∈ l -> f (g a) = Some (h a)) -> omap f (g <$> l) = h <$> l.
Proof.
  induction l as [| a l IH]; intros H; [done |]. cbn. rewrite (H a) by (apply elem_of_cons; by left).
  f_equal. apply IH. intros b Hb. apply H, elem_of_cons. by right.
Qed.

Lemma sorted_fmap {A B} (R : relation B) (f : A -> B) (l : list A) : Sorted (fun a b => R (f a) (f b)) l -> Sorted R (f <$> l).
Proof. induction 1 as [| a l _ IH H]; [done |]. cbn. constructor; [done |]. by destruct H; constructor. Qed.

Lemma sum_permutation l l' : l ≡ₚ l' -> sum_Z l = sum_Z l'.
Proof. induction 1; cbn; unfold sum_Z in *; cbn; lia. Qed.

(** Calls that ask one query and look at its result. *)
Lemma query_call {A} q (body : Rowset -> Op K A) (f : Rowset -> result A Error) k m r k' :
  (forall rs k, body rs k = (f rs, k)) -> holds k m -> bind (ask q) body k = (r, k') ->
  holds k' m /\ forall a, r = Ok a ->
    exists vis rows rs, rep vis m /\ answers key_le q vis rows /\ arrives rs rows /\ f rs = Ok a.
Proof.
  intros Hb Hk. unfold bind. destruct (ask q k) as [[rs | e] k1] eqn:Hq; destruct (ask_idle q k m _ k1 Hk Hq) as [Hk1 Hrs].
  - rewrite Hb. intros [= <- <-]. split; [done |]. intros a Ha.
    destruct (Hrs rs eq_refl) as (vis & rows & H1 & H2 & H3). eauto 10.
  - intros [= <- <-]. by split.
Qed.

Definition on_row {A} (g : option Row -> A) (rs : Rowset) : result A Error :=
  match first_row rs with
  | Ok row => Ok (g row)
  | Err e => Err e
  end.

Lemma on_row_arrives {A} (g : option Row -> A) rs rows a : arrives rs rows -> on_row g rs = Ok a -> a = g (head rows).
Proof.
  intros Harr. unfold on_row. destruct (first_row rs) as [row |] eqn:E; [| done]. intros [= <-].
  by rewrite (arrives_first rs rows row Harr E).
Qed.

Definition on_scalar (rs : Rowset) : result Z Error :=
  match scalar rs with
  | Ok n => Ok (default 0 n)
  | Err e => Err e
  end.

Lemma on_scalar_arrives rs z n : arrives rs [[SqlInt z]] -> on_scalar rs = Ok n -> n = z.
Proof.
  intros Harr. unfold on_scalar, scalar. destruct (first_row rs) as [row |] eqn:E; [| done].
  rewrite (arrives_first rs _ row Harr E). cbn. congruence.
Qed.

Lemma query_refines q (c : Call) (body : Rowset -> Op K Output) f k m r k' :
  (forall rs k, body rs k = (f rs, k)) ->
  (forall vis rows rs o, rep vis m -> answers key_le q vis rows -> arrives rs rows -> f rs = Ok o ->
     spec key_le t c m o m) ->
  holds k m -> bind (ask q) body k = (r, k') ->
  holds k' m /\ forall o, r = Ok o -> spec key_le t c m o m.
Proof.
  intros Hb Hspec Hk Hr. destruct (query_call q body f k m r k' Hb Hk Hr) as [Hk' Ho]. split; [done |].
  intros o Heq. destruct (Ho o Heq) as (vis & rows & rs & H1 & H2 & H3 & H4). eauto.
Qed.

(** [map_op] over an operation that asks. *)
Lemma map_op_bind {A B C} (g : B -> C) (x : Op K A) (body : A -> Op K B) k :
  map_op g (bind x body) k = bind x (fun a => map_op g (body a)) k.
Proof. unfold map_op, bind. by destruct (x k) as [[a |] k1]. Qed.

Lemma exists_refines s key k m r k' :
  holds k m -> validate_kv_name key key_kind = Ok tt ->
  map_op OBool (exists_key (mk_store s t) key) k = (r, k') ->
  holds k' m /\ forall o, r = Ok o -> spec key_le t (Exists_ s key) m o m.
Proof.
  intros Hk Hv. unfold exists_key. rewrite map_op_bind. unfold bind at 1, lift at 1. rewrite Hv, map_op_bind.
  apply (query_refines (SelectOne s key) (Exists_ s key) _
    (on_row (fun row => OBool match row with Some _ => true | None => false end))); [| | done].
  - intros rs k0. unfold map_op, bind, lift, ret, on_row. by destruct (first_row rs).
  - intros vis rows rs o Hrep -> Harr Ho. rewrite (on_row_arrives _ _ _ _ Harr Ho). cbn [spec].
    pose proof (at_rows vis m s key Hrep) as Hp. split; [| done]. destruct (m !! (s, key)).
    + rewrite bool_decide_true by eauto. by apply Permutation_singleton_r in Hp as ->.
    + rewrite bool_decide_false by (by intros [? ?]). by apply Permutation_nil_r in Hp as ->.
Qed.

Lemma get_refines s key k m r k' :
  holds k m -> validate_kv_name key key_kind = Ok tt ->
  map_op OValue (get (mk_store s t) key) k = (r, k') ->
  holds k' m /\ forall o, r = Ok o -> spec key_le t (Get s key) m o m.
Proof.
  intros Hk Hv. unfold get. rewrite map_op_bind. unfold bind at 1, lift at 1. rewrite Hv, map_op_bind.
  apply (query_refines (SelectValue s key) (Get s key) _
    (on_row (fun row => OValue (row ≫= fun r => get_string r 0)))); [| | done].
  - intros rs k0. unfold map_op, bind, lift, ret, on_row. by destruct (first_row rs).
  - intros vis rows rs o Hrep Hrows Harr Ho. rewrite (on_row_arrives _ _ _ _ Harr Ho). cbn [spec].
    cbn [answers] in Hrows. rewrite (at_rows vis m s key Hrep) in Hrows. split; [| done].
    destruct (m !! (s, key)).
    + by apply Permutation_singleton_r in Hrows as ->.
    + by apply Permutation_nil_r in Hrows as ->.
Qed.

Lemma size_refines s k m r k' :
  holds k m -> map_op OInt (size (mk_store s t)) k = (r, k') ->
  holds k' m /\ forall o, r = Ok o -> spec key_le t (Size s) m o m.
Proof.
  intros Hk. unfold size. rewrite map_op_bind.
  apply (query_refines (SelectCount s) (Size s) _
    (fun rs => match on_scalar rs with Ok n => Ok (OInt n) | Err e => Err e end)); [| | done].
  - intros rs k0. unfold map_op, bind, lift, ret, on_scalar. by destruct (scalar rs).
  - intros vis rows rs o Hrep -> Harr. destruct (on_scalar rs) as [n |] eqn:E; [| done]. intros [= <-].
    rewrite (on_scalar_arrives _ _ _ Harr E). cbn [spec]. split; [| done].
    by rewrite (Permutation_length (rep_store vis m s Hrep)), length_fmap.
Qed.

Lemma byte_size_refines s k m r k' :
  holds k m -> map_op OInt (byte_size (mk_store s t)) k = (r, k') ->
  holds k' m /\ forall o, r = Ok o -> spec key_le t (ByteSize s) m o m.
Proof.
  intros Hk. unfold byte_size. rewrite map_op_bind.
  apply (query_refines (SelectBytes s) (ByteSize s) _
    (fun rs => match on_scalar rs with Ok n => Ok (OInt n) | Err e => Err e end)); [| | done].
  - intros rs k0. unfold map_op, bind, lift, ret, on_scalar. by destruct (scalar rs).
  - intros vis rows rs o Hrep -> Harr. destruct (on_scalar rs) as [n |] eqn:E; [| done]. intros [= <-].
    rewrite (on_scalar_arrives _ _ _ Harr E). cbn [spec]. split; [| done].
    apply sum_permutation. rewrite (rep_store vis m s Hrep), <- list_fmap_compose. done.
Qed.

Definition collected {A} (g : list A -> Output) (f : Row -> option A) (rs : Rowset) : result Output Error :=
  match collect f rs [] with
  | Ok l => Ok (g l)
  | Err e => Err e
  end.

Lemma collected_arrives {A} (g : list A -> Output) (f : Row -> option A) rs rows o :
  arrives rs rows -> collected g f rs = Ok o -> o = g (omap f rows).
Proof.
  intros Harr. unfold collected. destruct (collect f rs []) as [l |] eqn:E; [| done]. intros [= <-].
  by rewrite (arrives_collect f rs rows [] l Harr E).
Qed.

Lemma keys_refines s k m r k' :
  holds k m -> map_op ONames (keys (mk_store s t)) k = (r, k') ->
  holds k' m /\ forall o, r = Ok o -> spec key_le t (Keys s) m o m.
Proof.
  intros Hk. unfold keys. rewrite map_op_bind.
  apply (query_refines (SelectKeys s) (Keys s) _ (collected ONames (fun r => get_string r 0))); [| | done].
  - intros rs k0. unfold map_op, bind, lift, ret, collected. by destruct (collect _ rs []).
  - intros vis rows rs o Hrep (l & Hord & ->) Harr Ho. rewrite (collected_arrives _ _ _ _ _ Harr Ho).
    rewrite (omap_rows _ _ row_key) by done. destruct (ordered_entries s vis m l Hrep Hord) as [Hp Hs].
    cbn [spec]. split_and!; [| by apply sorted_fmap | done]. by rewrite Hp, <- list_fmap_compose.
Qed.

Lemma entries_refines s k m r k' :
  holds k m -> map_op OEntries (entries (mk_store s t)) k = (r, k') ->
  holds k' m /\ forall o, r = Ok o -> spec key_le t (Entries s) m o m.
Proof.
  intros Hk. unfold entries. rewrite map_op_bind.
  apply (query_refines (SelectEntries s) (Entries s) _ (collected OEntries entry_of)); [| | done].
  - intros rs k0. unfold map_op, bind, lift, ret, collected. by destruct (collect _ rs []).
  - intros vis rows rs o Hrep (l & Hord & ->) Harr Ho. rewrite (collected_arrives _ _ _ _ _ Harr Ho).
    rewrite (omap_rows _ _ (fun r => (row_key r, default [] (row_value r)))).
    2: { intros a _. unfold entry_of, get_string. cbn. by destruct (row_value a). }
    destruct (ordered_entries s vis m l Hrep Hord) as [Hp Hs].
    cbn [spec]. split_and!; [| by apply sorted_fmap | done]. by rewrite Hp, <- list_fmap_compose.
Qed.

(** [CREATE TABLE IF NOT EXISTS] before anything is stored or listed. *)
Lemma create_idle k m r k' : holds k m -> execute_command (kv_create_table_sql t) k = (r, k') -> holds k' m.
Proof. intros [Hi Hr] Hc. destruct (law_create k r k' Hi Hc) as [? Hd]. split; [done | by rewrite Hd]. Qed.

Lemma list_stores_refines k m r k' :
  holds k m -> map_op ONames (kv_list_stores_impl t) k = (r, k') ->
  holds k' m /\ forall o, r = Ok o -> spec key_le t ListStores m o m.
Proof.
  intros Hk. unfold kv_list_stores_impl. rewrite map_op_bind. unfold bind at 1.
  destruct (execute_command _ k) as [[n | e] k1] eqn:Hc; pose proof (create_idle k m _ k1 Hk Hc) as Hk1;
    [| by intros [= <- <-]].
  rewrite map_op_bind.
  apply (query_refines SelectStores ListStores _ (collected ONames (fun r => get_string r 0))); [| | done].
  - intros rs k0. unfold map_op, bind, lift, ret, collected. by destruct (collect _ rs []).
  - intros vis rows rs o Hrep (l & Hnd & Hs & Hin & ->) Harr Ho. rewrite (collected_arrives _ _ _ _ _ Harr Ho).
    rewrite (omap_rows _ _ (fun s => s)) by done. rewrite list_fmap_id. cbn [spec]. split_and!; [done | done | | done].
    intros s. rewrite Hin. split.
    + intros (r0 & Hr0 & Hst). assert (Hx : r0 ∈ filter (in_store s) vis) by (by apply list_elem_of_filter).
      rewrite (rep_store vis m s Hrep) in Hx. by destruct (entries_of s m); [apply elem_of_nil in Hx |].
    + intros Hne. destruct (entries_of s m) as [| p ps] eqn:E; [done |].
      assert (Hx : row_of p ∈ filter (in_store s) vis)
        by (rewrite (rep_store vis m s Hrep), E; apply elem_of_cons; by left).
      apply list_elem_of_filter in Hx as [? ?]. eauto.
Qed.

(** What a call leaves when it fails. *)
Definition whole (c : Call) (k' : K) (m : Map) : Prop :=
  exists m', rep (durable k') m' /\ (m' = m \/ exists o, spec key_le t c m o m').

Lemma whole_unchanged c k' m : holds k' m -> whole c k' m.
Proof. intros [_ H]. exists m. auto. Qed.

Lemma whole_done c k' m m' o : holds k' m' -> spec key_le t c m o m' -> whole c k' m.
Proof. intros [_ H] Hs. exists m'. eauto. Qed.

(** A call of one statement, from the reply [g] that it makes of the count. *)
Lemma command_call c cmd (body : Z -> Op K Output) (g : Z -> Output) k m r k' :
  (forall n k, body n k = (Ok (g n), k)) ->
  spec key_le t c m (g (command_map cmd m).1) (command_map cmd m).2 ->
  holds k m -> bind (send_command cmd) body k = (r, k') ->
  match r with
  | Ok o => exists m', spec key_le t c m o m' /\ holds k' m'
  | Err _ => whole c k' m
  end.
Proof.
  intros Hb Hs Hk. unfold bind. destruct (send_command cmd k) as [[n | e] k1] eqn:Hc;
    pose proof (command_idle cmd k m _ k1 Hk Hc) as H1.
  - rewrite Hb. intros [= <- <-]. destruct H1 as [-> H1]. eauto.
  - intros [= <- <-]. destruct H1 as [H1 | H1]; [by apply whole_unchanged | by apply (whole_done _ _ _ _ _ H1 Hs)].
Qed.

(** Every key a call names. *)
Definition call_keys (c : Call) : list (list Z) :=
  match c with
  | Get _ key | Set_ _ key _ | SetIfAbsent _ key _ | Delete _ key | Exists_ _ key => [key]
  | SetBatch _ es | SetBatchIfAbsent _ es => es.*1
  | _ => []
  end.

Definition valid_key (key : list Z) : bool := is_ok (validate_kv_name key key_kind).

Definition valid_call (c : Call) : bool :=
  forallb valid_key (call_keys c)
  && match c with Open s => is_ok (validate_kv_name s (str "store name")) | _ => true end.

Lemma valid_key_ok key : valid_key key = true -> validate_kv_name key key_kind = Ok tt.
Proof. unfold valid_key. by destruct (validate_kv_name key key_kind) as [[] |]. Qed.

Lemma validate_all_ok es : forallb valid_key es.*1 = true -> validate_all es = Ok tt.
Proof.
  induction es as [| [key v] es IH]; [done |]. cbn. intros [Hk Hes]%andb_true_iff.
  rewrite (valid_key_ok key Hk). by apply IH.
Qed.

Lemma validate_all_err es : forallb valid_key es.*1 = false -> exists msg, validate_all es = Err (InvalidName msg).
Proof.
  induction es as [| [key v] es IH]; [done |]. cbn. unfold valid_key at 1.
  assert (Hkey : forall e, validate_kv_name key key_kind = Err e -> exists msg, e = InvalidName msg).
  { unfold validate_kv_name. intros e. repeat case_match; intros [= <-]; eexists; reflexivity. }
  destruct (validate_kv_name key key_kind) as [[] | e]; [by apply IH |].
  intros _. destruct (Hkey e eq_refl) as [msg ->]. by eexists.
Qed.

Lemma set_refines s key value k m r k' :
  holds k m -> valid_key key = true -> map_op OSet (set (mk_store s t) key value) k = (r, k') ->
  match r with
  | Ok o => exists m', spec key_le t (Set_ s key value) m o m' /\ holds k' m'
  | Err _ => whole (Set_ s key value) k' m
  end.
Proof.
  intros Hk Hv. unfold set. rewrite map_op_bind. unfold bind at 1, lift. rewrite (valid_key_ok key Hv).
  rewrite map_op_bind. unfold bind. destruct (upsert _ key value k) as [[c | e] k1] eqn:Hu;
    pose proof (upsert_idle s key value k m _ k1 Hk Hu) as H1; intros [= <- <-].
  - destruct H1 as [-> H1]. exists (<[(s, key) := value]> m). done.
  - destruct H1 as [H1 | H1]; [by apply whole_unchanged |].
    by apply (whole_done _ _ _ _ (OSet (mk_set (bool_decide (m !! (s, key) = None)))) H1).
Qed.

(** The batches are transactions. *)
Lemma batch_refines {A} (c : Call) (body : Op K A) (g : A -> Output) k m r k' :
  holds k m ->
  (forall k1 r1 k2, within k k1 m -> body k1 = (r1, k2) ->
     match r1 with
     | Ok a => (exists m', spec key_le t c m (g a) m' /\ within k k2 m') \/ (spec key_le t c m (g a) m /\ lost k k2)
     | Err _ => (exists m', within k k2 m') \/ lost k k2
     end) ->
  map_op g (in_transaction body) k = (r, k') ->
  match r with
  | Ok o => exists m', spec key_le t c m o m' /\ holds k' m'
  | Err _ => whole c k' m
  end.
Proof.
  intros Hk Hbody. unfold map_op, bind at 1, ret at 1. destruct (in_transaction body k) as [[a | e] k1] eqn:Ht;
    pose proof (transaction body (fun a => spec key_le t c m (g a)) k m _ k1 Hk Hbody Ht) as H1; intros [= <- <-].
  - done.
  - destruct H1 as (m' & Hr & [-> | [a Ha]]); [by exists m; auto | exists m'; eauto].
Qed.

Lemma set_batch_refines s es k m r k' :
  holds k m -> forallb valid_key es.*1 = true -> map_op OBatch (set_batch (mk_store s t) es) k = (r, k') ->
  match r with
  | Ok o => exists m', spec key_le t (SetBatch s es) m o m' /\ holds k' m'
  | Err _ => whole (SetBatch s es) k' m
  end.
Proof.
  intros Hk Hv. unfold set_batch. rewrite map_op_bind. unfold bind at 1, lift. rewrite (validate_all_ok es Hv).
  apply batch_refines; [done |]. intros k1 r1 k2 Hw Hl. pose proof (set_loop_within s es _ k k1 m r1 k2 Hw Hl) as H1.
  destruct r1 as [o | e]; [left | by right]. cbn [spec]. destruct (insert_all true s es m) as [[a b] m'].
  destruct H1 as [-> Hw2]. exists m'. done.
Qed.

Lemma set_batch_if_absent_refines s es k m r k' :
  holds k m -> forallb valid_key es.*1 = true -> map_op OGuard (set_batch_if_absent (mk_store s t) es) k = (r, k') ->
  match r with
  | Ok o => exists m', spec key_le t (SetBatchIfAbsent s es) m o m' /\ holds k' m'
  | Err _ => whole (SetBatchIfAbsent s es) k' m
  end.
Proof.
  intros Hk Hv. unfold set_batch_if_absent. rewrite map_op_bind. unfold bind at 1, lift.
  rewrite (validate_all_ok es Hv). apply batch_refines; [done |]. intros k1 r1 k2 Hw Hl.
  pose proof (guard_loop_within s es _ k k1 m r1 k2 Hw (validate_all_ok es Hv) Hl) as H1.
  destruct r1 as [o | e]; [left | by right]. cbn [spec]. destruct (insert_all false s es m) as [[a b] m'].
  destruct H1 as [-> Hw2]. exists m'. done.
Qed.

(** A call that only reads. *)
Lemma read_refines c m (r : result Output Error) k' :
  (holds k' m /\ forall o, r = Ok o -> spec key_le t c m o m) ->
  match r with
  | Ok o => exists m', spec key_le t c m o m' /\ holds k' m'
  | Err _ => whole c k' m
  end.
Proof. intros [Hk Ho]. destruct r as [o |]; [eauto | by apply whole_unchanged]. Qed.

Lemma call_refines `{!Transitive key_le} c k m r k' :
  holds k m -> valid_call c = true -> run_call t c k = (r, k') ->
  match r with
  | Ok o => exists m', spec key_le t c m o m' /\ holds k' m'
  | Err _ => whole c k' m
  end.
Proof.
  intros Hk [Hv Hs]%andb_true_iff. destruct c as [s | s key | s key value | s key value | s key | s key | s | s | s | s | s | s | s es | s es |];
    cbn [run_call call_keys] in *;
    try (cbn in Hv; rewrite andb_true_r in Hv);
    try (intros Hr; apply read_refines; revert Hr;
         first [by apply get_refines, valid_key_ok | by apply exists_refines, valid_key_ok | by apply size_refines
               | by apply keys_refines | by apply byte_size_refines | by apply entries_refines
               | by apply list_stores_refines]);
    try (by apply set_refines); try (by apply set_batch_refines); try (by apply set_batch_if_absent_refines).
  - unfold open. rewrite map_op_bind. unfold bind at 1, lift.
    destruct (validate_kv_name s (str "store name")) as [[] |] eqn:E; [| done].
    rewrite map_op_bind. unfold bind. destruct (execute_command _ k) as [[n | e] k1] eqn:Hc;
      pose proof (create_idle k m _ k1 Hk Hc) as H1; intros [= <- <-]; [by exists m | by apply whole_unchanged].
  - unfold set_if_absent. rewrite map_op_bind. unfold bind at 1, lift. rewrite (valid_key_ok key Hv), map_op_bind.
    apply (command_call _ (InsertAbsent s key value) _ (fun n => OBool (0 <? n))); [done | | done].
    cbn [spec command_map]. by destruct (m !! (s, key)); [rewrite bool_decide_false | rewrite bool_decide_true].
  - unfold delete. rewrite map_op_bind. unfold bind at 1, lift. rewrite (valid_key_ok key Hv), map_op_bind.
    apply (command_call _ (DeleteKey s key) _ (fun n => OBool (0 <? n))); [done | | done].
    cbn [spec command_map fst snd]. by destruct (decide (is_Some (m !! (s, key))));
      [rewrite bool_decide_true | rewrite bool_decide_false].
  - unfold clear, map_op. by apply (command_call _ (DeleteStore s) _ OInt).
  - unfold pop. apply batch_refines; [done |]. intros k1 r1 k2 Hw. by apply pop_inner_within.
Qed.

Lemma invalid_refused c (k : K) : valid_call c = false -> exists msg, run_call t c k = (Err (InvalidName msg), k).
Proof.
  assert (Hname : forall name kind e, validate_kv_name name kind = Err e -> exists msg, e = InvalidName msg).
  { unfold validate_kv_name. intros name kind e. repeat case_match; intros [= <-]; eexists; reflexivity. }
  assert (Hone : forall A (g : A -> Output) name kind (body : Op K A),
    is_ok (validate_kv_name name kind) = false ->
    exists msg, map_op g (bind (lift (validate_kv_name name kind)) (fun _ => body)) k = (Err (InvalidName msg), k)).
  { intros A g name kind body H. unfold map_op, bind, lift.
    destruct (validate_kv_name name kind) as [[] | e] eqn:E; [done |].
    destruct (Hname _ _ _ E) as [msg ->]. by exists msg. }
  assert (Hall : forall A (g : A -> Output) es (body : Op K A), forallb valid_key es.*1 = false ->
    exists msg, map_op g (bind (lift (validate_all es)) (fun _ => body)) k = (Err (InvalidName msg), k)).
  { intros A g es body H. unfold map_op, bind, lift. destruct (validate_all_err es H) as [msg ->]. by exists msg. }
  unfold valid_call. destruct c; cbn [call_keys forallb]; rewrite ?andb_true_r; try done; cbn [andb];
    intros H; first [by apply Hone | by apply Hall].
Qed.
End refinement.

(** A program of calls that stops at the first error, and what it may do. *)
Fixpoint run_calls {K} `{!SqlConnection K} (t : list Z) (cs : list Call) : Op K (list Output) :=
  match cs with
  | [] => ret []
  | c :: cs => bind (run_call t c) (fun o => bind (run_calls t cs) (fun os => ret (o :: os)))
  end.

Inductive spec_run (key_le : relation (list Z)) (t : list Z) : list Call -> Map -> list Output -> Map -> Prop :=
| spec_run_nil m : spec_run key_le t [] m [] m
| spec_run_cons c cs m o m1 os m2 :
    spec key_le t c m o m1 -> spec_run key_le t cs m1 os m2 -> spec_run key_le t (c :: cs) m (o :: os) m2.

(** ** A server *)

(** Keys in the order of their chars. *)
Fixpoint key_leb (a b : list Z) : bool :=
  match a, b with
  | [], _ => true
  | _ :: _, [] => false
  | x :: a, y :: b => if x <? y then true else if y <? x then false else key_leb a b
  end.

Definition chars_le (a b : list Z) : Prop := key_leb a b = true.

#[export] Instance chars_le_dec : RelDecision chars_le.
Proof. intros a b. unfold chars_le. apply _. Defined.

#[export] Instance chars_le_trans : Transitive chars_le.
Proof.
  intros a. unfold chars_le. induction a as [| x a IH]; intros [| y b] [| z c]; cbn; try done.
  destruct (Z.ltb_spec x y), (Z.ltb_spec y x), (Z.ltb_spec y z), (Z.ltb_spec z y), (Z.ltb_spec x z), (Z.ltb_spec z x);
    try done; try lia. apply IH.
Qed.

#[export] Instance chars_le_total : Total chars_le.
Proof.
  intros a. unfold chars_le. induction a as [| x a IH]; intros [| y b]; cbn; auto.
  destruct (Z.ltb_spec x y), (Z.ltb_spec y x); auto; try lia.
Qed.

Definition row_le (a b : KvRow) : Prop := chars_le (row_key a) (row_key b).
#[export] Instance row_le_dec : RelDecision row_le.
Proof. intros a b. unfold row_le. apply _. Defined.
#[export] Instance row_le_trans : Transitive row_le.
Proof. intros a b c. unfold row_le. apply transitivity. Qed.
#[export] Instance row_le_total : Total row_le.
Proof. intros a b. unfold row_le. apply total. apply _. Qed.

(** A table in memory that refuses to store the key [full]. *)
Record Db : Type := mk_db { db_visible : list KvRow; db_durable : list KvRow; db_txn : TxnState }.

Definition refused (c : Command) : bool :=
  match c with
  | Update _ key _ | InsertAbsent _ key _ => bool_decide (key = str "full")
  | _ => false
  end.

Definition session (d : Db) : list KvRow :=
  match db_txn d with
  | Idle => db_durable d
  | _ => db_visible d
  end.

Definition db_command (c : Command) (d : Db) : result Z Error * Db :=
  let '(n, rows) := effect c (session d) in
  match refused c, db_txn d with
  | false, Idle => (Ok n, mk_db rows rows Idle)
  | false, Active => (Ok n, mk_db rows (db_durable d) Active)
  | true, Idle => (Err (Server (str "full")), d)
  | _, _ => (Err (Server (str "failed")), mk_db (session d) (db_durable d) Failed)
  end.

Definition in_chunks (rows : list Row) : Rowset :=
  match rows with
  | [] => []
  | _ => [Ok rows]
  end.

Definition db_sorted (s : list Z) (d : Db) : list KvRow := merge_sort row_le (filter (in_store s) (session d)).

Definition db_query (q : Query) (d : Db) : result Rowset Error * Db :=
  (Ok (in_chunks
    match q with
    | SelectValue s key => (fun r => [cell_of (row_value r)]) <$> filter (is_at s key) (session d)
    | SelectOne s key => (fun _ => [SqlInt 1]) <$> take 1 (filter (is_at s key) (session d))
    | SelectCount s => [[SqlInt (Z.of_nat (length (filter (in_store s) (session d))))]]
    | SelectKeys s => (fun r => [SqlText (row_key r)]) <$> db_sorted s d
    | SelectBytes s => [[SqlInt (sum_Z ((fun r => octet_length (row_value r)) <$> filter (in_store s) (session d)))]]
    | SelectEntries s => (fun r => [SqlText (row_key r); cell_of (row_value r)]) <$> db_sorted s d
    | SelectFirst s => (fun r => [SqlText (row_key r); cell_of (row_value r)]) <$> take 1 (db_sorted s d)
    | SelectStores => (fun s => [SqlText s]) <$> merge_sort chars_le (remove_dups (row_store <$> session d))
    end), d).

(** Statements are told apart by their text. *)
Definition parse_command (sql : list Z) (params : list (list Z)) : option Command :=
  match params with
  | [s] => if decide (sql = (command_sql KV_TABLE (DeleteStore s)).1) then Some (DeleteStore s) else None
  | [s; key] => if decide (sql = (command_sql KV_TABLE (DeleteKey s key)).1) then Some (DeleteKey s key) else None
  | [s; key; value] =>
      if decide (sql = (command_sql KV_TABLE (Update s key value)).1) then Some (Update s key value) else None
  | [s; key; value; _; _] =>
      if decide (sql = (command_sql KV_TABLE (InsertAbsent s key value)).1) then Some (InsertAbsent s key value) else None
  | _ => None
  end.

Definition parse_query (sql : list Z) (params : list (list Z)) : option Query :=
  match params with
  | [s] =>
      if decide (sql = (query_sql KV_TABLE (SelectCount s)).1) then Some (SelectCount s)
      else if decide (sql = (query_sql KV_TABLE (SelectKeys s)).1) then Some (SelectKeys s)
      else if decide (sql = (query_sql KV_TABLE (SelectBytes s)).1) then Some (SelectBytes s)
      else if decide (sql = (query_sql KV_TABLE (SelectEntries s)).1) then Some (SelectEntries s)
      else if decide (sql = (query_sql KV_TABLE (SelectFirst s)).1) then Some (SelectFirst s)
      else None
  | [s; key] =>
      if decide (sql = (query_sql KV_TABLE (SelectValue s key)).1) then Some (SelectValue s key)
      else if decide (sql = (query_sql KV_TABLE (SelectOne s key)).1) then Some (SelectOne s key)
      else None
  | _ => None
  end.

Definition syntax_error : Error := Server (str "syntax error").

#[export] Instance db_connection : SqlConnection Db := {|
  execute_command := fun sql d =>
    if decide (sql = str "BEGIN TRANSACTION") then (Ok 0, mk_db (session d) (db_durable d) Active)
    else if decide (sql = str "COMMIT") then
      match db_txn d with
      | Failed => (Ok 0, mk_db (db_durable d) (db_durable d) Idle)
      | _ => (Ok 0, mk_db (session d) (session d) Idle)
      end
    else if decide (sql = str "ROLLBACK") then (Ok 0, mk_db (db_durable d) (db_durable d) Idle)
    else (Ok 0, d);
  execute_query := fun sql d =>
    if decide (sql = (query_sql KV_TABLE SelectStores).1) then db_query SelectStores d else (Err syntax_error, d);
  command_params := fun sql params d =>
    match parse_command sql params with
    | Some c => db_command c d
    | None => (Err syntax_error, d)
    end;
  query_params := fun sql params d =>
    match parse_query sql params with
    | Some q => db_query q d
    | None => (Err syntax_error, d)
    end;
|}.

Lemma in_chunks_arrive rows : arrives (in_chunks rows) rows.
Proof.
  destruct rows as [| r rows]; [constructor |]. rewrite <- (app_nil_r (r :: rows)) at 2.
  apply arrives_chunk; [done | constructor].
Qed.

Lemma db_sorted_ordered s d : ordered chars_le s (session d) (db_sorted s d).
Proof.
  split; [apply merge_sort_Permutation |]. apply (Sorted_merge_sort row_le).
Qed.

Lemma db_answers q d rs d' :
  db_query q d = (Ok rs, d') -> exists rows, answers chars_le q (session d) rows /\ arrives rs rows.
Proof.
  intros [= <- <-]. eexists. split; [| apply in_chunks_arrive].
  destruct q; cbn [answers]; try done; try (eexists; split; [apply db_sorted_ordered | done]).
  exists (merge_sort chars_le (remove_dups (row_store <$> session d))). split_and!; [| | | done].
  - rewrite merge_sort_Permutation. apply NoDup_remove_dups.
  - apply (Sorted_merge_sort chars_le).
  - intros s. rewrite (merge_sort_Permutation chars_le), elem_of_remove_dups, list_elem_of_fmap. naive_solver.
Qed.

Lemma parse_command_sql c : parse_command (command_sql KV_TABLE c).1 (command_sql KV_TABLE c).2 = Some c.
Proof. destruct c; vm_compute; reflexivity. Qed.

Lemma parse_query_sql q :
  q <> SelectStores -> parse_query (query_sql KV_TABLE q).1 (query_sql KV_TABLE q).2 = Some q.
Proof. destruct q; intros H; try (vm_compute; reflexivity). done. Qed.

#[export] Instance db_server : KvServer Db KV_TABLE chars_le.
Proof.
  refine {| visible := session; durable := db_durable; txn := db_txn |}.
  - intros d H. unfold session. by rewrite H.
  - intros c d r d'. cbn [command_params db_connection]. rewrite parse_command_sql. unfold db_command.
    destruct (effect c (session d)) as [n rows]. destruct (refused c), (db_txn d) eqn:E; intros [= <- <-]; cbn;
      rewrite ?E; auto.
  - intros q d r d' Hq. assert (H : db_query q d = (r, d')).
    { destruct q; [rewrite <- Hq; cbn [query_params db_connection]; by rewrite parse_query_sql .. |].
      rewrite <- Hq. cbn [execute_query db_connection]. by rewrite decide_True. }
    pose proof H as H'. injection H' as <- <-. split_and!; [done | by left |].
    intros rs Hrs. apply (db_answers q d rs d). by rewrite <- Hrs.
  - intros d r d' Hi. cbn [execute_command db_connection].
    rewrite !decide_False by (vm_compute; discriminate). by intros [= <- <-].
  - intros d r d' Hi. cbn [execute_command db_connection]. rewrite decide_True by done.
    intros [= <- <-]. split; [done |]. intros _. by unfold session.
  - intros d r d'. cbn [execute_command db_connection].
    rewrite decide_False by (vm_compute; discriminate). rewrite decide_True by done. unfold session.
    destruct (db_txn d); intros [= <- <-]; cbn; auto.
  - intros d r d' Hi. cbn [execute_command db_connection].
    rewrite !decide_False by (vm_compute; discriminate). rewrite decide_True by done. by intros [= <- <-].
Defined.

Lemma name_bytes name :
  Forall is_char name ->
  (filter (fun b => is_name_byte b = false) (utf8 name) = [] <-> Forall (fun c => is_name_byte c = true) name).
Proof.
  assert (Hascii : forall c, is_name_byte c = true -> is_ascii c).
  { intros c. unfold is_name_byte, is_ascii. rewrite !orb_true_iff, !Z.eqb_eq.
    intros [[[H%alphanumeric_ascii | H] | H] | H]; [exact H | lia ..]. }
  induction 1 as [| c name Hc _ IH]; [done |]. change (utf8 (c :: name)) with (encode_char c ++ utf8 name).
  rewrite list.filter_app, app_nil, IH, list.Forall_cons. apply and_iff_compat_r. split.
  - destruct (is_name_byte c) eqn:E; [done |]. unfold encode_char, is_char in *. intros Hf. exfalso. revert Hf.
    assert (Hlead : forall b, 128 <= b < 256 -> is_name_byte b = false).
    { intros b Hb. destruct (is_name_byte b) eqn:Eb; [| done]. apply Hascii in Eb. unfold is_ascii in Eb. lia. }
    repeat case_match; rewrite filter_cons_True; try done; apply Hlead; Z.div_mod_to_equations; lia.
  - intros H. pose proof (Hascii c H) as Ha. unfold encode_char, is_ascii in *.
    rewrite (proj2 (Z.ltb_lt _ _)) by lia. by rewrite filter_cons_False by congruence.
Qed.

Lemma name_length name :
  Forall is_char name -> Forall (fun c => is_name_byte c = true) name -> length (utf8 name) = length name.
Proof.
  intros Hc H. rewrite utf8_ascii; [done |]. revert H. apply Forall_impl. intros c. unfold is_name_byte, is_ascii.
  rewrite !orb_true_iff, !Z.eqb_eq. intros [[[Hx%alphanumeric_ascii | Hx] | Hx] | Hx]; [exact Hx | lia ..].
Qed.

(** ** Properties *)

(** C4. The store is a finite map, and every call is atomic. On any connection to
    a server that keeps its contract, and whatever fails, a program of calls
    returns what the map from store and key to value returns, counts, orders and
    all, and leaves the table with the rows of the map it ends with, one for each
    key; if a call fails, the table holds the map after some of the calls, each of
    them whole: a batch or a [pop] is applied entirely or not at all, even when its
    COMMIT or its ROLLBACK is what fails. *)
Theorem kv_refines {K} `{conn : !SqlConnection K} t key_le `{server : !KvServer K t key_le, !Transitive key_le}
    calls (k : K) m r k' :
  holds t key_le k m -> run_calls t calls k = (r, k') ->
  match r with
  | Ok os => exists m', spec_run key_le t calls m os m' /\ holds t key_le k' m'
  | Err _ => exists complete rest os m',
      calls = complete ++ rest /\ spec_run key_le t complete m os m' /\ rep (durable k') m'
  end.
Proof.
  revert k m r k'. induction calls as [| c calls IH]; intros k m r k' Hk; cbn [run_calls].
  { intros [= <- <-]. exists m. split; [constructor | done]. }
  unfold bind at 1. destruct (run_call t c k) as [rc k1] eqn:Hc.
  assert (Hcall : match rc with
    | Ok o => exists m1, spec key_le t c m o m1 /\ holds t key_le k1 m1
    | Err _ => whole t key_le c k1 m end).
  { destruct (valid_call c) eqn:Hv; [by apply (call_refines t key_le c k m rc k1) |].
    destruct (invalid_refused t c k Hv) as [msg Hi]. rewrite Hc in Hi. injection Hi as -> ->.
    by apply whole_unchanged. }
  destruct rc as [o | e].
  - destruct Hcall as (m1 & Hs & Hk1). unfold bind, ret. destruct (run_calls t calls k1) as [[os | e] k2] eqn:Hr;
      specialize (IH k1 m1 _ _ Hk1 Hr); intros [= <- <-].
    + destruct IH as (m2 & Hrun & Hk2). exists m2. split; [by econstructor | done].
    + destruct IH as (complete & rest & os & m2 & -> & Hrun & Hrep). exists (c :: complete), rest, (o :: os), m2.
      split_and!; [done | by econstructor | done].
  - intros [= <- <-]. destruct Hcall as (m1 & Hrep & [-> | [o Hs]]).
    + exists [], (c :: calls), [], m. split_and!; [done | constructor | done].
    + exists [c], calls, [o], m1. split_and!; [done | econstructor; [done | constructor] | done].
Qed.

Definition sample_calls : list Call :=
  let s := str "s" in
  [Open s; SetBatch s [(str "b", [50]); (str "a", [49]); (str "b", [51])]; Set_ (str "r") (str "a") [57];
   SetIfAbsent s (str "a") [52]; Entries s; Size s; ByteSize s; Pop s; Get s (str "b"); Keys s; ListStores; Clear s].

Definition no_db : Db := mk_db [] [] Idle.

Lemma kv_refines_witness :
  (exists os m' d', run_calls KV_TABLE sample_calls no_db = (Ok os, d')
    /\ spec_run chars_le KV_TABLE sample_calls ∅ os m' /\ holds KV_TABLE chars_le d' m')
  /\ (exists complete rest os m',
       [Set_ [115] [97] [49]; SetBatch [115] [([98], [50]); (str "full", [51])]] = complete ++ rest
       /\ spec_run chars_le KV_TABLE complete ∅ os m' /\ rep [mk_row [115] [97] (Some [49])] m').
Proof.
  assert (H0 : holds KV_TABLE chars_le no_db ∅) by (split; [done | unfold rep; by rewrite map_to_list_empty]).
  split.
  - destruct (run_calls KV_TABLE sample_calls no_db) as [r d'] eqn:Hr.
    pose proof (kv_refines KV_TABLE chars_le sample_calls no_db ∅ r d' H0 Hr) as H.
    destruct r as [os | e]; [| exfalso; vm_compute in Hr; discriminate].
    destruct H as (m' & Hs & Hh). exists os, m', d'. done.
  - pose (calls := [Set_ [115] [97] [49]; SetBatch [115] [([98], [50]); (str "full", [51])]]).
    apply (kv_refines KV_TABLE chars_le calls no_db ∅ (Err (Server (str "failed")))
      (mk_db [mk_row [115] [97] (Some [49])] [mk_row [115] [97] (Some [49])] Idle) H0).
    vm_compute. reflexivity.
Defined.

(** Only names of 1 to 512 of the allowed characters get through, and a call
    with any other key, a batch with one among its keys, or a store of another
    name, fails with [InvalidName] before anything is sent: whatever the connection,
    it is left as it was. *)
Theorem names_checked :
  (forall name kind, Forall is_char name ->
     is_ok (validate_kv_name name kind) =
       bool_decide (name <> [] /\ (length name <= KV_MAX_NAME_BYTES)%nat
                    /\ Forall (fun c => is_name_byte c = true) name)) /\
  (forall K (conn : SqlConnection K) t c (k : K),
     valid_call c = false -> exists msg, run_call t c k = (Err (InvalidName msg), k)).
Proof.
  split; [| intros; by apply invalid_refused].
  intros name kind Hc. unfold validate_kv_name. destruct name as [| x name]; [by rewrite bool_decide_false by naive_solver |].
  pose proof (name_bytes (x :: name) Hc) as Hb. pose proof (name_length (x :: name) Hc) as Hl.
  cbv zeta. destruct (Nat.ltb_spec KV_MAX_NAME_BYTES (length (utf8 (x :: name)))) as [Hlong | Hshort].
  - cbn [is_ok]. symmetry. apply bool_decide_eq_false. intros (_ & Hlen & Hall). rewrite Hl in Hlong by done. lia.
  - destruct (filter _ (utf8 (x :: name))) as [| b bs] eqn:E; cbn [is_ok]; symmetry.
    + apply bool_decide_eq_true. rewrite <- Hb. split_and!; [done | | done]. rewrite <- Hl; [done | by apply Hb].
    + apply bool_decide_eq_false. intros (_ & _ & Hall). apply Hb in Hall. done.
Qed.

