(* ===== verification/Daemon.v ===== *)
(** * The daemon of the MCP server: its shutdown and its control channel

    [hyperdb-mcp/src/daemon/health.rs]. The first part is the pairing of
    [DaemonState::request_shutdown] with the accept loop of [HealthListener::run]: threads
    that store one flag and load the other, as a step function on events, under the memory
    order of the source and under a weaker one. The second part is the protocol that
    [handle_client] serves and its clients. Times and sockets are inputs. *)

From stdpp Require Import strings.
From S2P Require Import Prelude Text Client.

(** ** Threads and memory *)

(** [SeqCst] stores reach memory at once. [Buffered] ones wait in the store buffer of
    their thread, which later loads of other locations may overtake: all that release
    and acquire order allow on a machine with store buffers. *)
Inductive Order : Type := SeqCst | Buffered.

(** A call of [request_shutdown]: before its store, before [notify_one], before the load
    in [wake_accept_loop], before the spawn of the thread that connects, and after. *)
Inductive CallerPc : Type := NotCalled | Stored | Notified | Waking | Returned.

Record Caller : Type := mk_caller { cpc : CallerPc; store_pending : bool }.

(** [HealthListener::run]: before the registration, at the top of the loop, in the accept,
    at the check behind it, before the thread for a client, before the registration's
    [Drop], and after. *)
Inductive ListenerPc : Type := Starting | Checking | Accepting | Rechecking | Spawning | Clearing | Stopped.

(** [wakes] are connections of [ControlListener::wake] on their way, [lost] those that
    will never arrive; [clients] are connections of others. [permit] is that of
    [shutdown_notify], [woken] says that [run_daemon] took it. *)
Record Daemon : Type := mk_daemon {
  shutdown : bool;
  listener_registered : bool;
  permit : bool;
  woken : bool;
  wakes : nat;
  lost : nat;
  clients : nat;
  callers : list Caller;
  listener : ListenerPc;
  registration_pending : list bool;
}.

Definition daemon_new (n : nat) : Daemon :=
  mk_daemon false false false false 0 0 0 (replicate n (mk_caller NotCalled false)) Starting [].

(** What the listener's wait or spawn comes to. *)
Inductive Answer : Type := Go | FromWake | FromClient | TimedOut | AcceptError | SpawnPanics.

Inductive event : Type :=
| Call (i : nat)
| SpawnFails (i : nat)
| Drain (i : nat)
| DrainListener
| Lose
| Connect
| Await
| Listen (a : Answer).

Definition with_caller (i : nat) (c : Caller) (d : Daemon) : Daemon :=
  mk_daemon (shutdown d) (listener_registered d) (permit d) (woken d) (wakes d) (lost d) (clients d)
    (<[i := c]> (callers d)) (listener d) (registration_pending d).
Definition with_shutdown (d : Daemon) : Daemon :=
  mk_daemon true (listener_registered d) (permit d) (woken d) (wakes d) (lost d) (clients d)
    (callers d) (listener d) (registration_pending d).
Definition with_wakes (wakes lost : nat) (d : Daemon) : Daemon :=
  mk_daemon (shutdown d) (listener_registered d) (permit d) (woken d) wakes lost (clients d)
    (callers d) (listener d) (registration_pending d).
Definition with_clients (n : nat) (d : Daemon) : Daemon :=
  mk_daemon (shutdown d) (listener_registered d) (permit d) (woken d) (wakes d) (lost d) n
    (callers d) (listener d) (registration_pending d).
Definition with_notify (permit woken : bool) (d : Daemon) : Daemon :=
  mk_daemon (shutdown d) (listener_registered d) permit woken (wakes d) (lost d) (clients d)
    (callers d) (listener d) (registration_pending d).
Definition with_registered (b : bool) (pending : list bool) (d : Daemon) : Daemon :=
  mk_daemon (shutdown d) b (permit d) (woken d) (wakes d) (lost d) (clients d)
    (callers d) (listener d) pending.
Definition goto (pc : ListenerPc) (d : Daemon) : Daemon :=
  mk_daemon (shutdown d) (listener_registered d) (permit d) (woken d) (wakes d) (lost d) (clients d)
    (callers d) pc (registration_pending d).

Section order.
Context (o : Order).

(** [request_shutdown], step by step; [spawned] says whether the thread could be made. *)
Definition request_shutdown (i : nat) (spawned : bool) (c : Caller) (d : Daemon) : option Daemon :=
  match cpc c with
  | NotCalled =>
      Some (match o with
            | SeqCst => with_caller i (mk_caller Stored (store_pending c)) (with_shutdown d)
            | Buffered => with_caller i (mk_caller Stored true) d
            end)
  | Stored => Some (with_caller i (mk_caller Notified (store_pending c)) (with_notify true (woken d) d))
  | Notified =>
      Some (with_caller i (mk_caller (if listener_registered d then Waking else Returned) (store_pending c)) d)
  | Waking =>
      Some (with_caller i (mk_caller Returned (store_pending c))
              (if spawned then with_wakes (S (wakes d)) (lost d) d else with_wakes (wakes d) (S (lost d)) d))
  | Returned => None
  end.

(** [register_listener] and [clear_listener]. *)
Definition store_registered (b : bool) (d : Daemon) : Daemon :=
  match o with
  | SeqCst => with_registered b (registration_pending d) d
  | Buffered => with_registered (listener_registered d) (registration_pending d ++ [b]) d
  end.

(** [HealthListener::run], step by step. *)
Definition run_listener (a : Answer) (d : Daemon) : option Daemon :=
  match listener d, a with
  | Starting, Go => Some (goto Checking (store_registered true d))
  | Checking, Go => Some (goto (if shutdown d then Clearing else Accepting) d)
  | Accepting, FromWake => if (0 <? wakes d)%nat then Some (goto Rechecking (with_wakes (pred (wakes d)) (lost d) d)) else None
  | Accepting, FromClient => if (0 <? clients d)%nat then Some (goto Rechecking (with_clients (pred (clients d)) d)) else None
  | Accepting, TimedOut | Accepting, AcceptError => Some (goto Checking d)
  | Rechecking, Go => Some (goto (if shutdown d then Clearing else Spawning) d)
  | Spawning, Go => Some (goto Checking d)
  | Spawning, SpawnPanics => Some (goto Clearing d)
  | Clearing, Go => Some (goto Stopped (store_registered false d))
  | _, _ => None
  end.

(** One step; [None] when the event does not fit. *)
Definition exec (e : event) (d : Daemon) : option Daemon :=
  match e with
  | Call i => c ← callers d !! i; request_shutdown i true c d
  | SpawnFails i => c ← callers d !! i; match cpc c with Waking => request_shutdown i false c d | _ => None end
  | Drain i =>
      c ← callers d !! i;
      if store_pending c then Some (with_caller i (mk_caller (cpc c) false) (with_shutdown d)) else None
  | DrainListener =>
      match registration_pending d with
      | b :: pending => Some (with_registered b pending d)
      | [] => None
      end
  | Lose => if (0 <? wakes d)%nat then Some (with_wakes (pred (wakes d)) (S (lost d)) d) else None
  | Connect => Some (with_clients (S (clients d)) d)
  | Await => if permit d then Some (with_notify false true d) else None
  | Listen a => run_listener a d
  end.

Fixpoint exec_all (es : list event) (d : Daemon) : option Daemon :=
  match es with
  | [] => Some d
  | e :: es => d ← exec e d; exec_all es d
  end.

Definition reachable (d : Daemon) : Prop := exists n es, exec_all es (daemon_new n) = Some d.
End order.

(** ** The protocol *)

Definition PONG_TOKEN : list Z := str "hyperdb-mcp".

Definition pong_response (version : list Z) : list Z := str "PONG " ++ PONG_TOKEN ++ str " " ++ version ++ [10].

(** The parts of [DaemonState] the protocol touches; [last_activity] is a time. *)
Record State : Type := mk_state { last_activity : Z; shutdown_flag : bool; restart_requested : bool }.

Definition touch (now : Z) (s : State) : State := mk_state now (shutdown_flag s) (restart_requested s).
Definition idle_duration (now : Z) (s : State) : Z := now - last_activity s.
Definition set_shutdown (s : State) : State := mk_state (last_activity s) true (restart_requested s).
Definition request_restart (s : State) : State := mk_state (last_activity s) (shutdown_flag s) true.
Definition consume_restart_request (s : State) : bool * State :=
  (restart_requested s, mk_state (last_activity s) (shutdown_flag s) false).

Section protocol.
Context (version status : list Z) (now : Z).

Definition respond (line : list Z) (s : State) : list Z * State :=
  let cmd := trim line in
  if bool_decide (cmd = str "PING") then (pong_response version, s)
  else if bool_decide (cmd = str "HEARTBEAT") then (str "OK" ++ [10], touch now s)
  else if bool_decide (cmd = str "STOP") then (str "STOPPING" ++ [10], set_shutdown s)
  else if bool_decide (cmd = str "STATUS") then (status ++ [10], s)
  else if bool_decide (cmd = str "REPORT_HYPERD_ERROR") then (str "OK" ++ [10], request_restart s)
  else (str "ERR unknown command" ++ [10], s).

(** What [read_line] gives: a line, or its end or an error, which both end the loop. *)
Inductive Read : Type := Line (line : list Z) | NoMore.

(** The loop of [handle_client] on what it will read and whether its writes will succeed;
    the responses that were written. *)
Fixpoint handle_client (reads : list (Read * bool)) (s : State) : list (list Z) * State :=
  match reads with
  | (Line line, written) :: reads =>
      let '(response, s) := respond line s in
      if (written : bool) then let '(responses, s) := handle_client reads s in (response :: responses, s)
      else ([], s)
  | (NoMore, _) :: _ | [] => ([], s)
  end.
End protocol.

(** [ping_identified], on the response. *)
Definition ping_identified (response : list Z) : option (list Z) :=
  match split_whitespace response with
  | pong :: token :: rest =>
      if bool_decide (pong = str "PONG") && bool_decide (token = PONG_TOKEN) then Some (default [] (head rest)) else None
  | _ => None
  end.

(** ** Reading a response ([send_command_with_timeout]) *)

Definition MAX_HEALTH_RESPONSE_BYTES : nat := Z.to_nat (64 * 1024).

Inductive CommandError : Type := DeadlineExpired | RearmFailed | ClosedBeforeResponse | ResponseTooLong | ReadFailed | NotUtf8.

(** One round of the loop: whether the deadline has passed before it, whether the timeout
    could not be set, what the read gave, whether the deadline has passed after it. *)
Inductive Got : Type := Eof | Byte (b : Z) | Failed (timed_out : bool).
Record Round : Type := mk_round { late_before : bool; rearm_fails : bool; got : Got; late_after : bool }.

(** A script that ends is a peer that closes. *)
Fixpoint read_response (rounds : list Round) (response : list Z) : result (list Z) CommandError :=
  match rounds with
  | [] => if bool_decide (response = []) then Err ClosedBeforeResponse else Ok response
  | r :: rounds =>
      if late_before r then Err DeadlineExpired
      else if rearm_fails r then Err RearmFailed
      else match got r with
           | Eof => if bool_decide (response = []) then Err ClosedBeforeResponse else Ok response
           | Byte b =>
               if (length response =? MAX_HEALTH_RESPONSE_BYTES)%nat then Err ResponseTooLong
               else
                 let response := response ++ [b] in
                 if late_after r then Err DeadlineExpired
                 else if b =? 10 then Ok response else read_response rounds response
           | Failed timed_out => if timed_out || late_after r then Err DeadlineExpired else Err ReadFailed
           end
  end.

(** ** The invariant under [SeqCst] *)

Definition serving (pc : ListenerPc) : bool := match pc with Starting | Stopped => false | _ => true end.
Definition called (c : Caller) : Prop := cpc c <> NotCalled.
Definition past_notify (c : Caller) : Prop := cpc c ∈ [Notified; Waking; Returned].

Record settled (d : Daemon) : Prop := {
  inv_buffers : registration_pending d = [] /\ Forall (fun c => store_pending c = false) (callers d);
  inv_registered : listener_registered d = serving (listener d);
  inv_notify : Exists past_notify (callers d) -> permit d = true \/ woken d = true;
  inv_waiting : listener d = Accepting -> Exists (fun c => cpc c = Returned) (callers d) -> (0 < wakes d + lost d)%nat;
}.

Definition invariant (d : Daemon) : Prop := settled d /\ (Exists called (callers d) <-> shutdown d = true).

Lemma invariant_new n : invariant (daemon_new n).
Proof.
  assert (Hno : forall P : Caller -> Prop, ~ P (mk_caller NotCalled false) -> Exists P (replicate n (mk_caller NotCalled false)) -> False).
  { intros P HP (c & Hc & Hpc)%list.Exists_exists. apply elem_of_replicate in Hc as [-> _]. done. }
  split; [split |]; cbn.
  - split; [done | by apply Forall_replicate].
  - done.
  - intros H. exfalso. apply Hno in H; [done |]. unfold past_notify. cbn. set_solver.
  - done.
  - split; [| done]. intros H. exfalso. apply Hno in H; [done |]. by intros [].
Qed.

(** Replacing caller [i]. *)
Lemma exists_insert (P : Caller -> Prop) l i c c' :
  l !! i = Some c -> Exists P (<[i := c']> l) -> P c' \/ Exists P l.
Proof.
  intros Hi (x & (j & Hj)%list_elem_of_lookup & HP)%list.Exists_exists.
  apply list_lookup_insert_Some in Hj as [(_ & -> & _) | (_ & Hj)]; [by left | right].
  apply list.Exists_exists. exists x. split; [| done]. apply list_elem_of_lookup. eauto.
Qed.

Lemma exists_inserted (P : Caller -> Prop) l i c c' : l !! i = Some c -> P c' -> Exists P (<[i := c']> l).
Proof.
  intros Hi HP. apply list.Exists_exists. exists c'. split; [| done].
  apply list_elem_of_lookup. exists i. rewrite list_lookup_insert_eq; [done |]. by eapply lookup_lt_Some.
Qed.

Lemma invariant_caller i c pc d :
  callers d !! i = Some c -> settled d -> shutdown d = true -> pc <> NotCalled ->
  (past_notify (mk_caller pc false) -> permit d = true \/ woken d = true) ->
  (listener d = Accepting -> pc = Returned -> (0 < wakes d + lost d)%nat) ->
  invariant (with_caller i (mk_caller pc (store_pending c)) d).
Proof.
  intros Hi [[Hpend Hbuf] Hreg Hnot Hwait] Hs Hpc Hp Hr.
  assert (Hb : store_pending c = false) by (by eapply Forall_lookup_1 in Hbuf). rewrite Hb.
  split; [split |]; cbn; try done.
  - split; [done | by apply Forall_insert].
  - intros [Hx | Hx]%(exists_insert _ _ _ _ _ Hi); [by apply Hp | by apply Hnot].
  - intros Hl [Hx | Hx]%(exists_insert _ _ _ _ _ Hi); [by apply Hr | by apply Hwait].
  - split; [done | intros _]. by eapply exists_inserted.
Qed.

(** A step of [request_shutdown]. *)
Lemma invariant_call i spawned c d d' :
  callers d !! i = Some c -> request_shutdown SeqCst i spawned c d = Some d' -> invariant d -> invariant d'.
Proof.
  intros Hi Hstep [Hset Hshut].
  assert (Hs : cpc c <> NotCalled -> shutdown d = true)
    by (intros Hc; apply Hshut, list.Exists_exists; exists c; split; [by eapply list_elem_of_lookup_2 | done]).
  assert (Hpast : past_notify c -> permit d = true \/ woken d = true)
    by (intros Hc; apply (inv_notify d Hset), list.Exists_exists; exists c; split; [by eapply list_elem_of_lookup_2 | done]).
  unfold request_shutdown in Hstep. unfold past_notify in Hpast. destruct (cpc c); simplify_eq;
    try (specialize (Hs ltac:(done))); apply (invariant_caller _ c); cbn; try done.
  - by destruct Hset.
  - unfold past_notify. cbn. set_solver.
  - destruct Hset; split; cbn; [done | done | by left | done].
  - by left.
  - by destruct (listener_registered d).
  - intros _. apply Hpast. set_solver.
  - intros Hl Hr. rewrite (inv_registered d Hset), Hl in Hr. done.
  - by destruct spawned.
  - destruct Hset; split; destruct spawned; cbn in *; try done; intros; lia.
  - by destruct spawned.
  - intros _. destruct spawned; apply Hpast; set_solver.
  - intros _ _. destruct spawned; cbn; lia.
Qed.

Lemma invariant_listen a d d' : run_listener SeqCst a d = Some d' -> invariant d -> invariant d'.
Proof.
  intros Hstep [[[Hpend Hbuf] Hreg Hnot Hwait] Hshut].
  assert (Hnone : shutdown d = false -> ~ Exists (fun c => cpc c = Returned) (callers d)).
  { intros Hs (c & Hc & Hr)%list.Exists_exists. assert (shutdown d = true); [| congruence].
    apply Hshut, list.Exists_exists. exists c. split; [done |]. unfold called. by rewrite Hr. }
  unfold run_listener in Hstep. destruct (listener d) eqn:Hl, a; try done; repeat case_match; simplify_eq;
    (split; [split |]); cbn in *; try done; try (by intros; exfalso; eapply Hnone);
    match goal with H : shutdown d = _ |- _ => by rewrite H end.
Qed.

Lemma invariant_run e d d' : exec SeqCst e d = Some d' -> invariant d -> invariant d'.
Proof.
  intros Hstep Hinv. destruct e as [i | i | i | | | | | a]; cbn [exec] in Hstep.
  - destruct (callers d !! i) as [c |] eqn:Hi; [| done]. by eapply invariant_call.
  - destruct (callers d !! i) as [c |] eqn:Hi; [| done]. cbn in Hstep. destruct (cpc c); try done. by eapply invariant_call.
  - destruct (callers d !! i) as [c |] eqn:Hi; [| done]. cbn in Hstep. destruct Hinv as [[[_ Hbuf] _ _ _] _].
    eapply Forall_lookup_1 in Hbuf; [| exact Hi]. by rewrite Hbuf in Hstep.
  - destruct Hinv as [[[Hpend _] _ _ _] _]. by rewrite Hpend in Hstep.
  - destruct (Nat.ltb_spec 0 (wakes d)); [| done]. simplify_eq. destruct Hinv as [[Hb Hr Hn Hw] Hs].
    split; [split |]; cbn; try done. intros; lia.
  - simplify_eq. by destruct Hinv as [[Hb Hr Hn Hw] Hs]; split; [split |].
  - destruct (permit d); [| done]. simplify_eq. destruct Hinv as [[Hb Hr Hn Hw] Hs]. split; [split |]; cbn; try done. by right.
  - by eapply invariant_listen.
Qed.

Lemma invariant_reachable d : reachable SeqCst d -> invariant d.
Proof.
  intros (n & es & Hes). revert Hes. generalize (daemon_new n) (invariant_new n). induction es as [| e es IH]; intros d0 Hinv Hes.
  - by simplify_eq/=.
  - cbn [exec_all] in Hes. destruct (exec SeqCst e d0) as [d1 |] eqn:He; [| done]. eapply IH; [| exact Hes]. by eapply invariant_run.
Qed.

(** ** The listener stops *)

(** Its own steps to the end, once shutdown is requested. *)
Definition steps_left (pc : ListenerPc) : nat :=
  match pc with
  | Starting => 3 | Checking => 2 | Accepting => 3 | Rechecking => 2 | Spawning => 3 | Clearing => 1 | Stopped => 0
  end.

Definition turn (e : event) : nat := match e with Listen _ => 1 | _ => 0 end.

Lemma exec_progress e d d' : exec SeqCst e d = Some d' -> shutdown d = true ->
  shutdown d' = true /\ (turn e + steps_left (listener d') <= steps_left (listener d))%nat.
Proof.
  intros Hstep Hs. destruct e as [i | i | i | | | | | a]; cbn [exec turn] in *.
  - destruct (callers d !! i) as [c |]; [| done]. cbn in Hstep. unfold request_shutdown in Hstep.
    destruct (cpc c); simplify_eq; cbn; by rewrite ?Hs.
  - destruct (callers d !! i) as [c |]; [| done]. cbn in Hstep. unfold request_shutdown in Hstep.
    destruct (cpc c); simplify_eq; cbn; by rewrite ?Hs.
  - destruct (callers d !! i) as [c |]; [| done]. cbn in Hstep. destruct (store_pending c); simplify_eq; done.
  - destruct (registration_pending d); simplify_eq; done.
  - destruct (0 <? wakes d)%nat; simplify_eq; done.
  - by simplify_eq.
  - destruct (permit d); simplify_eq; done.
  - unfold run_listener in Hstep. destruct (listener d) eqn:Hl, a; try done; repeat case_match; simplify_eq;
      cbn; rewrite ?Hs; cbn; split; done || lia || congruence.
Qed.

(** It is never stuck: it can always go on, in an accept by its timeout. *)
Lemma exec_enabled d : listener d <> Stopped -> exists a d', exec SeqCst (Listen a) d = Some d'.
Proof.
  intros Hl. unfold exec, run_listener. destruct (listener d) eqn:E; try done;
    [exists Go | exists Go | exists TimedOut | exists Go | exists Go | exists Go]; rewrite ?E; eauto.
Qed.

Lemma exec_all_progress es d d' : exec_all SeqCst es d = Some d' -> shutdown d = true ->
  shutdown d' = true /\ (sum_list_with turn es + steps_left (listener d') <= steps_left (listener d))%nat.
Proof.
  revert d. induction es as [| e es IH]; intros d Hes Hs; [by simplify_eq/= |]. cbn [exec_all sum_list_with] in *.
  destruct (exec SeqCst e d) as [d1 |] eqn:He; [| done]. destruct (exec_progress _ _ _ He Hs) as [Hs1 H1].
  destruct (IH d1 Hes Hs1) as [Hs2 H2]. split; [done | lia].
Qed.

(** The run that loses its wake: the registration is still in its buffer when the caller
    looks for it, and the shutdown in the other when the listener does. *)
Definition lost_wake : Daemon := mk_daemon true true true false 0 0 0 [mk_caller Returned false] Accepting [].

Lemma lost_wake_reachable : reachable Buffered lost_wake.
Proof.
  exists 1%nat, [Listen Go; Listen Go; Call 0; Call 0; Call 0; Drain 0; DrainListener]. vm_compute. reflexivity.
Qed.

(** ** The properties *)

(** C19. A shutdown is never lost between its two flags. In every interleaving of callers
    of [request_shutdown] with the accept loop, once a call has returned while the
    listener waits in its accept, a wake connection is on its way to it, unless it was
    lost on the way or its thread could not be made; and the permit for the main loop
    was given. With a shutdown requested the listener can always go on, and stops within
    three turns of its own, even if every wait ends by its timeout. With stores that
    later loads may overtake, as release and acquire order allow, there is a run after
    which the listener waits, no wake is on its way, and every store has arrived. *)
Theorem shutdown_wakes :
  (forall d, reachable SeqCst d -> Exists (fun c => cpc c = Returned) (callers d) ->
     (listener d = Accepting -> (0 < wakes d + lost d)%nat) /\ (permit d = true \/ woken d = true) /\ shutdown d = true)
  /\ (forall d, reachable SeqCst d -> shutdown d = true ->
       (listener d <> Stopped -> exists a d', exec SeqCst (Listen a) d = Some d')
       /\ forall es d', exec_all SeqCst es d = Some d' -> (3 <= sum_list_with turn es)%nat -> listener d' = Stopped)
  /\ exists d, reachable Buffered d /\ listener d = Accepting /\ wakes d = 0%nat /\ lost d = 0%nat
       /\ callers d = [mk_caller Returned false] /\ registration_pending d = []
       /\ shutdown d = true /\ listener_registered d = true.
Proof.
  split_and!.
  - intros d [Hset Hshut]%invariant_reachable Hr.
    assert (Hmap : forall P : Caller -> Prop, (forall c, cpc c = Returned -> P c) -> Exists P (callers d))
      by (intros P HP; apply list.Exists_exists in Hr as (c & Hc & E); apply list.Exists_exists; eauto).
    split_and!; [by intros; apply inv_waiting | apply inv_notify, Hmap; [done |]; intros c E; unfold past_notify; rewrite E; set_solver |].
    apply Hshut, Hmap. intros c E. unfold called. by rewrite E.
  - intros d _ Hs. split; [apply exec_enabled |]. intros es d' Hes Hturns.
    destruct (exec_all_progress _ _ _ Hes Hs) as [_ Hle].
    assert (steps_left (listener d) <= 3)%nat by (destruct (listener d); cbn; lia).
    destruct (listener d'); cbn in Hle; [lia.. | done].
  - exists lost_wake. by split; [exact lost_wake_reachable |].
Qed.

(** ** The protocol *)

Lemma split_words_prefix w rest acc :
  Forall (fun c => is_whitespace c = false) w -> acc <> [] \/ w <> [] ->
  split_words (w ++ (32 :: rest)) acc = (reverse acc ++ w) :: split_words rest [].
Proof.
  intros Hw. revert acc. induction Hw as [| c w Hc _ IH]; intros acc Hne.
  - rewrite app_nil_r. cbn [app split_words]. change (is_whitespace 32) with true. destruct acc; [by destruct Hne | done].
  - cbn [app split_words]. rewrite Hc, IH by (by left). by rewrite reverse_cons, <- app_assoc.
Qed.

(** A daemon recognises a daemon, and nothing that only begins like one. *)
Lemma ping_pong version : ping_identified (pong_response version) = Some (default [] (head (split_whitespace version))).
Proof.
  unfold ping_identified, pong_response, split_whitespace.
  change (str "PONG " ++ PONG_TOKEN ++ str " " ++ version ++ [10])
    with (str "PONG" ++ (32 :: (PONG_TOKEN ++ (32 :: (version ++ [10]))))).
  rewrite split_words_prefix by (by repeat constructor || right).
  rewrite split_words_prefix by (by repeat constructor || right). cbn [reverse]. rewrite !bool_decide_true by done. cbn [andb].
  f_equal. f_equal. change (split_words (version ++ [10]) []) with (split_words (version ++ [10]) (@nil Z)).
  assert (H : forall s acc, split_words (s ++ [10]) acc = split_words s acc); [| by rewrite H].
  intros s. induction s as [| c s IH]; intros acc; cbn; [by destruct acc |]. destruct (is_whitespace c); [| apply IH].
  destruct acc; by rewrite IH.
Qed.

Lemma ping_identified_exact response version :
  ping_identified response = Some version ->
  exists rest, split_whitespace response = str "PONG" :: PONG_TOKEN :: rest /\ version = default [] (head rest).
Proof.
  unfold ping_identified. destruct (split_whitespace response) as [| a [| b rest]]; try done.
  case_bool_decide as Ha; [| done]. case_bool_decide as Hb; [| done]. cbn. intros [= <-]. exists rest. by rewrite Ha, Hb.
Qed.

(** A response is at most 64 KiB, and a newline ends it. *)
Lemma read_response_bounded rounds acc response :
  (length acc <= MAX_HEALTH_RESPONSE_BYTES)%nat -> (10 ∉ acc) -> read_response rounds acc = Ok response ->
  (length response <= MAX_HEALTH_RESPONSE_BYTES)%nat /\ response <> []
  /\ exists body, (10 ∉ body) /\ (response = body \/ response = body ++ [10]).
Proof.
  revert acc. induction rounds as [| r rounds IH]; intros acc Hl Hn; cbn [read_response].
  - case_bool_decide; [done |]. intros [= <-]. split_and!; [done | done | exists acc; auto].
  - destruct (late_before r), (rearm_fails r); try done. destruct (got r) as [| b | timed_out].
    + case_bool_decide; [done |]. intros [= <-]. split_and!; [done | done | exists acc; auto].
    + destruct (Nat.eqb_spec (length acc) MAX_HEALTH_RESPONSE_BYTES) as [| Hne]; [done |]. destruct (late_after r); [done |].
      assert (Hl' : (length (acc ++ [b]) <= MAX_HEALTH_RESPONSE_BYTES)%nat) by (rewrite length_app; cbn [length]; lia).
      destruct (Z.eqb_spec b 10) as [-> | Hb].
      * intros [= <-]. split_and!; [done | by destruct acc | exists acc; auto].
      * apply IH; [done |]. set_solver.
    + by destruct (timed_out || late_after r).
Qed.

(** STOP requests a shutdown and nothing else does; no other command is mistaken for one
    that changes the state. *)
Lemma respond_effects version status now line s :
  let s' := (respond version status now line s).2 in
  (shutdown_flag s' = true <-> shutdown_flag s = true \/ trim line = str "STOP")
  /\ (restart_requested s' = true <-> restart_requested s = true \/ trim line = str "REPORT_HYPERD_ERROR")
  /\ (last_activity s' = if bool_decide (trim line = str "HEARTBEAT") then now else last_activity s).
Proof.
  unfold respond. cbv zeta.
  assert (str "PING" <> str "STOP" /\ str "HEARTBEAT" <> str "STOP" /\ str "STATUS" <> str "STOP"
    /\ str "REPORT_HYPERD_ERROR" <> str "STOP" /\ str "PING" <> str "REPORT_HYPERD_ERROR"
    /\ str "HEARTBEAT" <> str "REPORT_HYPERD_ERROR" /\ str "STATUS" <> str "REPORT_HYPERD_ERROR"
    /\ str "PING" <> str "HEARTBEAT" /\ str "STATUS" <> str "HEARTBEAT" /\ str "REPORT_HYPERD_ERROR" <> str "HEARTBEAT") as Hne by (split_and!; discriminate).
  revert Hne. generalize (str "PING") (str "HEARTBEAT") (str "STOP") (str "STATUS") (str "REPORT_HYPERD_ERROR"). intros p h t u r Hne.
  repeat case_bool_decide; cbn; split_and!; intuition congruence.
Qed.

(** A report is consumed once. *)
Lemma restart_consumed_once s :
  consume_restart_request (request_restart s) = (true, (consume_restart_request (request_restart s)).2)
  /\ (consume_restart_request (consume_restart_request (request_restart s)).2).1 = false.
Proof. done. Qed.
