(* ===== verification/McpErrors.v ===== *)
(** * The errors of the MCP server

    [hyperdb-mcp/src/error.rs]: the codes a tool answers with and the classification
    of the errors of the API, with the two conversions of [engine.rs] for databases
    that are locked. *)

From stdpp Require Import strings.
From S2P Require Import Prelude Text SqlTypes Backend Connection Rows Api.

(** ** [ErrorCode] and [McpError] *)

Inductive ErrorCode : Type :=
| HyperdNotFound
| FileNotFound
| UnsupportedFormat
| SchemaMismatch
| SqlError
| TableNotFound
| EmptyData
| DiskFull
| PermissionDenied
| ReadOnlyViolation
| ConnectionLost
| InvalidArgument
| ResourceBusy
| InternalError.

#[export] Instance ErrorCode_eq_dec : EqDecision ErrorCode.
Proof. solve_decision. Defined.

Record McpError : Type := mk_error { code : ErrorCode; message : list Z; suggestion : option (list Z) }.

Definition default_suggestion (code : ErrorCode) : option (list Z) :=
  match code with
  | HyperdNotFound => Some (str "Set HYPERD_PATH to the hyperd executable (or its containing directory).")
  | FileNotFound => Some (str "Verify the file path exists and is accessible")
  | UnsupportedFormat => Some (str "Specify format explicitly: json, csv, parquet, or arrow_ipc")
  | SchemaMismatch => Some (str "Retry with an explicit schema override")
  | SqlError => Some (str "Check SQL syntax. Hyper uses the Data Cloud SQL dialect (PostgreSQL-compatible).")
  | TableNotFound => Some (str "Use the describe tool to list available tables")
  | EmptyData => None
  | DiskFull => Some (str "Check disk space. Use the status tool to see workspace size.")
  | PermissionDenied => Some (str "Check file permissions on the source or target path")
  | ReadOnlyViolation =>
      Some (str "Server is in read-only mode. Use query_data or query_file for one-shot analysis, or restart without --read-only.")
  | ConnectionLost =>
      Some (str "The hyperd connection was lost or fell out of wire-protocol sync. Retry the request " ++ [8212]
            ++ str " the server will tear down the engine and reconnect automatically.")
  | InvalidArgument =>
      Some (str "Check the tool argument shape and allowed values. The message identifies the offending field.")
  | ResourceBusy =>
      Some (str "The .hyper file may be held by another process. Run `hyperdb-mcp doctor` to inspect the configuration and possible owner; then close that possible owner or copy the file before attaching the copy.")
  | InternalError => None
  end.

Definition new (code : ErrorCode) (message : list Z) : McpError := mk_error code message (default_suggestion code).

Definition with_suggestion (e : McpError) (suggestion : list Z) : McpError :=
  mk_error (code e) (message e) (Some suggestion).

(** ** Classification by text *)

(** [str::to_lowercase], as far as it can be seen by searching for ASCII: outside ASCII
    only the Kelvin sign and the dotted capital I have lower cases with ASCII in them. *)
Definition lower_char (c : Z) : list Z :=
  if (65 <=? c) && (c <=? 90) then [c + 32]
  else if c =? 0x212A then [107]
  else if c =? 0x130 then [105; 0x307]
  else [c].

Definition to_lowercase (s : list Z) : list Z := s ≫= lower_char.

Definition contains_any (s : list Z) (patterns : list (list Z)) : bool := existsb (contains s) patterns.

Definition LOST : list (list Z) :=
  str <$> ["broken pipe"; "connection reset"; "connection refused"; "connection closed"; "unexpected eof"; "end of file";
           "unexpectedly closed"; "socket is not connected"; "desynchronized"]%string.

Definition is_connection_lost (msg : list Z) : bool := contains_any (to_lowercase msg) LOST.

Definition BUSY : list (list Z) :=
  str <$> ["already attached"; "database is in use"; "could not lock"; "already in use"; "file is locked"]%string.

Definition is_resource_busy (msg : list Z) : bool := contains_any (to_lowercase msg) BUSY.

(** ** [From<hyperdb_api::Error>] *)

(** A text between double quotes. *)
Definition in_quotes (s : string) : list Z := 34 :: str s ++ [34].

Definition OUT_OF_RANGE_HINT : list Z :=
  str "A numeric value exceeded its column's range. Retry with a partial schema override that widens the offending column, e.g. schema: {"
  ++ in_quotes "Population" ++ str ": " ++ in_quotes "BIGINT" ++ str "} or {" ++ in_quotes "Amount" ++ str ": " ++ in_quotes "NUMERIC(38,0)"
  ++ str "}. The override is a partial dictionary keyed by column name " ++ [8212]
  ++ str " unlisted columns keep their inferred type. Call inspect_file first if you don't know which column is too narrow.".

Definition INVALID_TEXT_HINT : list Z :=
  str "A value could not be parsed into its column type. Retry with a partial schema override forcing TEXT for the offending column, e.g. schema: {"
  ++ in_quotes "Id" ++ str ": " ++ in_quotes "TEXT" ++ str "}, and cast in SQL as needed.".

Definition JSON_VALUE_HINT : list Z :=
  str "JSON_VALUE is not implemented in this engine. Cast the TEXT value to json first, then use -> / ->> / JSON_EACH, e.g. `SELECT value::json ->> 'field' FROM _hyperdb_kv_store WHERE store_name = '...'`.".

Definition ONE_STATEMENT_HINT : list Z :=
  str "Hyper only accepts one SQL statement per call. Split your query into separate execute/query calls " ++ [8212]
  ++ str " one per statement.".

Definition STRUCTURED_HINT : list Z :=
  str "The -> / ->> operators need a structured type. Cast the TEXT value to json first, e.g. `value::json ->> 'field'`.".

Definition UNDEFINED_TABLE_HINT : list Z :=
  str "Referenced table does not exist. Run `describe` (with the same `database` you queried) to list available tables; unquoted names fold to lowercase. In query_data / query_file the loaded rows are exposed as `table_name` (default `data`), e.g. `SELECT * FROM data`.".

(** The codes that are routed on their own. *)
Definition by_sqlstate (code msg : list Z) : option McpError :=
  let lower := to_lowercase msg in
  if bool_decide (code = str "22003") then Some (with_suggestion (new SchemaMismatch msg) OUT_OF_RANGE_HINT)
  else if bool_decide (code = str "22P02") then Some (with_suggestion (new SchemaMismatch msg) INVALID_TEXT_HINT)
  else if bool_decide (code = str "0A000") then
    Some (if contains lower (str "json") then with_suggestion (new SqlError msg) JSON_VALUE_HINT
          else with_suggestion (new SqlError msg) ONE_STATEMENT_HINT)
  else if bool_decide (code = str "42601") then
    Some (if contains lower (str "structured data type") || contains lower (str "json")
          then with_suggestion (new SqlError msg) STRUCTURED_HINT else new SqlError msg)
  else if bool_decide (code = str "42P01") then Some (with_suggestion (new SqlError msg) UNDEFINED_TABLE_HINT)
  else None.

(** The fallback for the errors of a server. *)
Definition by_server_text (msg : list Z) : McpError :=
  let lower := to_lowercase msg in
  if contains msg (str "22003") || contains lower (str "numeric overflow") || contains lower (str "out of range")
  then with_suggestion (new SchemaMismatch msg) OUT_OF_RANGE_HINT
  else if contains msg (str "22P02") || contains lower (str "invalid input syntax")
  then with_suggestion (new SchemaMismatch msg) INVALID_TEXT_HINT
  else if contains msg (str "syntax error") || (contains msg (str "does not exist") && contains msg (str "column"))
  then new SqlError msg
  else if contains msg (str "No such file") || contains msg (str "not found") then new FileNotFound msg
  else new SqlError msg.

(** The fallback by variant. *)
Definition by_variant (err : Api.Error) (msg : list Z) : McpError :=
  match err with
  | Api.NotFound _ => new FileNotFound msg
  | Api.Server _ _ _ _ => by_server_text msg
  | Api.Config _ => new InvalidArgument msg
  | Api.InvalidName _ | Api.InvalidTableDefinition _ => new InvalidArgument msg
  | Api.Connection _ _ _ | Api.Closed _ _ | Api.Timeout _ | Api.Cancelled _ _ => new ConnectionLost msg
  | _ => new InternalError msg
  end.

Section conversion.
Context (show : Api.Error -> list Z).

Definition from_api (err : Api.Error) : McpError :=
  let msg := show err in
  let routed := match err with
                | Api.Server (Some code) _ _ _ => by_sqlstate code msg
                | _ => None
                end in
  match routed with
  | Some e => e
  | None =>
      if is_connection_lost msg then new ConnectionLost msg
      else if bool_decide (sqlstate err = None) && is_resource_busy msg then new ResourceBusy msg
      else by_variant err msg
  end.

(** ** Databases that are locked ([engine.rs]) *)

Definition is_attach_lock_conflict (err : Api.Error) : bool :=
  bool_decide (sqlstate err = Some (str "55006")) || is_resource_busy (show err).

Definition PERSISTENT_BUSY_HINT : list Z :=
  str "The persistent database may be held by another process. Run `hyperdb-mcp doctor` to inspect the configuration and possible owner, then close the possible owner or copy the file before retrying.".

Definition persistent_attach_error (err : Api.Error) (path : list Z) : McpError :=
  if is_attach_lock_conflict err
  then with_suggestion (new ResourceBusy (str "Failed to attach persistent database " ++ path ++ str ": " ++ show err))
         PERSISTENT_BUSY_HINT
  else from_api err.

Definition attach_lock_error (err : Api.Error) (path : list Z) : McpError :=
  if is_attach_lock_conflict err
  then new ResourceBusy (str "Failed to attach database " ++ path ++ str ": " ++ show err)
  else from_api err.
End conversion.

(** ** Lemmas *)

Lemma to_lowercase_app s t : to_lowercase (s ++ t) = to_lowercase s ++ to_lowercase t.
Proof. apply bind_app. Qed.

Definition is_lower (c : Z) : Prop := is_ascii c /\ ~ (65 <= c <= 90).

Lemma to_lowercase_id s : Forall is_lower s -> to_lowercase s = s.
Proof.
  induction 1 as [| c s [Ha Hu] _ IH]; [done |]. unfold to_lowercase in *. rewrite bind_cons, IH. unfold lower_char.
  unfold is_ascii in Ha. destruct (Z.leb_spec 65 c), (Z.leb_spec c 90), (Z.eqb_spec c 0x212A), (Z.eqb_spec c 0x130); cbn [andb app]; lia || done.
Qed.

(** A phrase in lower case that is part of a text is found in it. *)
Lemma contains_lower t s : Forall is_lower t -> occurs t s -> contains (to_lowercase s) t = true.
Proof.
  intros Ht (pre & post & ->). apply contains_occurs. rewrite !to_lowercase_app, (to_lowercase_id t) by done. auto.
Qed.

Lemma occurs_trans t s u : occurs t s -> occurs s u -> occurs t u.
Proof. intros Ht (pre & post & ->). auto. Qed.

Lemma contains_any_in s t l : t ∈ l -> contains s t = true -> contains_any s l = true.
Proof. intros Hin Ht. unfold contains_any. apply existsb_exists. exists t. by rewrite <- list_elem_of_In. Qed.

Lemma lost_found t s : t ∈ LOST -> occurs t s -> is_connection_lost s = true.
Proof.
  intros Hin Ho. eapply contains_any_in; [exact Hin |]. apply contains_lower; [| done].
  assert (Forall (Forall is_lower) LOST) as Hall.
  { apply (bool_decide_unpack (Forall (Forall (fun c => 0 <= c < 128 /\ ~ (65 <= c <= 90))) LOST)). vm_compute. done. }
  rewrite list.Forall_forall in Hall. by apply Hall.
Qed.

Definition ROUTED : list (list Z) := str <$> ["22003"; "22P02"; "0A000"; "42601"; "42P01"]%string.

Lemma by_sqlstate_other code msg : code ∉ ROUTED -> by_sqlstate code msg = None.
Proof.
  unfold ROUTED, by_sqlstate. cbn [fmap list_fmap]. rewrite !not_elem_of_cons.
  intros (? & ? & ? & ? & ? & _). by rewrite !bool_decide_false.
Qed.

Lemma by_sqlstate_routed s msg : s ∈ ROUTED ->
  exists e, by_sqlstate s msg = Some e /\ code e = if bool_decide (s ∈ take 2 ROUTED) then SchemaMismatch else SqlError.
Proof.
  unfold ROUTED, by_sqlstate. generalize (contains (to_lowercase msg) (str "json")), (contains (to_lowercase msg) (str "structured data type")).
  intros b1 b2. cbn [fmap list_fmap]. rewrite !elem_of_cons.
  intros [-> | [-> | [-> | [-> | [-> | []%elem_of_nil]]]]]; destruct b1, b2; eexists; split; reflexivity.
Qed.

Lemma from_api_message show e : message (from_api show e) = show e.
Proof.
  unfold from_api. set (msg := show e).
  assert (Hs : forall c e', by_sqlstate c msg = Some e' -> message e' = msg).
  { intros c e'. unfold by_sqlstate. repeat case_match; naive_solver. }
  assert (Ht : message (by_server_text msg) = msg) by (unfold by_server_text; repeat case_match; done).
  assert (Hv : message (by_variant e msg) = msg) by (destruct e; done).
  assert (Hrest : message (if is_connection_lost msg then new ConnectionLost msg
                           else if bool_decide (Api.sqlstate e = None) && is_resource_busy msg then new ResourceBusy msg
                           else by_variant e msg) = msg) by (repeat case_match; done).
  destruct e as [| | | [c |] | | | | | | | | | | | | | | | |]; try exact Hrest.
  destruct (by_sqlstate c msg) eqn:Hc; [by apply (Hs c) | exact Hrest].
Qed.

(** ** The property *)

Section classified.
Context (show_io : io_payload -> list Z) (debug_str : list Z -> list Z) (debug_type : SqlType -> list Z).

Definition classify_error (e : Api.Error) : McpError := from_api (display show_io debug_str debug_type) e.

(** The message of every variant is part of its text. *)
Lemma server_text s m detail hint : occurs m (display show_io debug_str debug_type (Server s m detail hint)).
Proof. cbn [display]. auto 10. Qed.

Lemma connection_text m src s : occurs m (display show_io debug_str debug_type (Api.Connection m src s)).
Proof. cbn [display]. auto 10. Qed.

Lemma contains_any_iff s patterns : contains_any s patterns = true <-> exists p, p ∈ patterns /\ occurs p s.
Proof.
  unfold contains_any. rewrite existsb_exists. setoid_rewrite list_elem_of_In. setoid_rewrite contains_occurs. done.
Qed.

End classified.
