(* ===== verification/Engine.v ===== *)
(** * The engine of the MCP server

    [hyperdb-mcp/src/engine.rs]: the connection a tool works on, bound to an ephemeral
    primary database with a persistent one attached beside it; the routing of a tool's
    [database] parameter, the search path, transactions. Spawning [hyperd] and the
    discovery of the daemon are left out: an engine starts from a connection. *)

From stdpp Require Import strings gmap.
From S2P Require Import Prelude Text SqlEscape Connection Api Session McpErrors.

(** ** What a tool does *)

(** A tool returns or panics, with the state it leaves either way. *)
Inductive Ran (A S : Type) : Type :=
| Returned (r : result A McpError) (s : S)
| Panicked (s : S).
Arguments Returned {A S} r s.
Arguments Panicked {A S} s.

Definition Tool (S A : Type) : Type := S -> Ran A S.

Definition ret {S A} (a : A) : Tool S A := Returned (Ok a).
Definition fail {S A} (e : McpError) : Tool S A := Returned (Err e).
Definition lift {S A} (r : result A McpError) : Tool S A := Returned r.

(** The [?] operator. *)
Definition tool_bind {S A B} (m : Tool S A) (f : A -> Tool S B) : Tool S B := fun s =>
  match m s with
  | Returned (Ok a) s => f a s
  | Returned (Err e) s => Returned (Err e) s
  | Panicked s => Panicked s
  end.

Lemma bind_returned {S A B} (m : Tool S A) (f : A -> Tool S B) s r s' :
  m s = Returned r s' ->
  tool_bind m f s = match r with Ok a => f a s' | Err e => Returned (Err e) s' end.
Proof. intros Hm. unfold tool_bind. rewrite Hm. by destruct r. Qed.

(** What an error does not stop: [if let Err(e) = m] and [let _ = m]. *)
Definition attempt {S A} (m : Tool S A) : Tool S (result A McpError) := fun s =>
  match m s with
  | Returned r s => Returned (Ok r) s
  | Panicked s => Panicked s
  end.

Notation "'let>' x ':=' m 'in' k" := (tool_bind m (fun x => k))
  (at level 10, x name, m at level 100, k at level 200).

Definition state_of {A S} (r : Ran A S) : S := match r with Returned _ s | Panicked s => s end.

(** ** What the engine asks of its connection *)

(** A cell of a row that [execute_query_to_json] returns; the others are not looked at. *)
Inductive Value : Type :=
| Null
| Number (z : Z)
| String (s : list Z)
| Boolean (b : bool)
| OtherValue.

Definition JsonRow : Type := list (list Z * Value).

Definition field (row : JsonRow) (name : list Z) : option Value :=
  snd <$> find (fun p => bool_decide (p.1 = name)) row.

Definition as_str (v : Value) : option (list Z) := match v with String s => Some s | _ => None end.
Definition as_bool (v : Value) : option bool := match v with Boolean b => Some b | _ => None end.
Definition as_i64 (v : Value) : option Z := match v with Number z => Some z | _ => None end.

(** The connection with the host it runs on: [execute_query] with its rows as JSON
    objects, and [Path::exists]. *)
Class McpConnection (K : Type) := {
  mcp_client :: SqlClient K;
  query_json : list Z -> K -> outcome (result (list JsonRow) Api.Error * K);
  path_exists : list Z -> K -> bool;
}.
#[export] Hint Mode McpConnection ! : typeclass_instances.

(** What a connection becomes by the requests made on it, whoever makes them. *)
Inductive requested {K} `{McpConnection K} (k k' : K) : Prop :=
| ByCommand sql r : run sql k = Val (r, k') -> requested k k'
| ByQuery sql r : query_json sql k = Val (r, k') -> requested k k'.
#[export] Hint Constructors requested : core.

Abbreviation reaches := (rtc requested).

Lemma reaches_run {K} `{McpConnection K} sql (k0 k : K) r k' : reaches k0 k -> run sql k = Val (r, k') -> reaches k0 k'.
Proof. intros Hk Hr. eapply rtc_r; [exact Hk | by eapply ByCommand]. Qed.

Lemma reaches_query {K} `{McpConnection K} sql (k0 k : K) r k' : reaches k0 k -> query_json sql k = Val (r, k') -> reaches k0 k'.
Proof. intros Hk Hr. eapply rtc_r; [exact Hk | by eapply ByQuery]. Qed.
#[export] Hint Resolve reaches_run reaches_query : core.

(** ** [Engine] *)

Record Engine (K : Type) : Type := mk_engine {
  connection : K;
  daemon : bool;
  ephemeral_path : list Z;
  persistent_path : option (list Z);
  persistent_was_created : bool;
  catalog_present_cache : gmap (list Z) bool;
}.
Arguments mk_engine {K} _ _ _ _ _ _.
Arguments connection {K} _.
Arguments daemon {K} _.
Arguments ephemeral_path {K} _.
Arguments persistent_path {K} _.
Arguments persistent_was_created {K} _.
Arguments catalog_present_cache {K} _.

Definition with_connection {K} (e : Engine K) (k : K) : Engine K :=
  mk_engine k (daemon e) (ephemeral_path e) (persistent_path e) (persistent_was_created e) (catalog_present_cache e).

Definition with_cache {K} (e : Engine K) (cache : gmap (list Z) bool) : Engine K :=
  mk_engine (connection e) (daemon e) (ephemeral_path e) (persistent_path e) (persistent_was_created e) cache.

Definition PERSISTENT_ALIAS : list Z := str "persistent".

Definition to_ascii_lower (c : Z) : Z := if (65 <=? c) && (c <=? 90) then c + 32 else c.
Definition to_ascii_lowercase (s : list Z) : list Z := to_ascii_lower <$> s.
Definition eq_ignore_ascii_case (s t : list Z) : bool := bool_decide (to_ascii_lowercase s = to_ascii_lowercase t).

(** The quoting of identifiers and of literals, with its quotes doubled inside. *)
Definition quote_ident (s : list Z) : list Z := quoted 34 s.
Definition sql_literal (s : list Z) : list Z := quoted 39 s.

(** [join] of strings. *)
Definition join (sep : list Z) (l : list (list Z)) : list Z :=
  match l with
  | [] => []
  | s :: l => s ++ (l ≫= fun t => sep ++ t)
  end.

Section engine.
Context {K : Type} `{McpConnection K} (show : Api.Error -> list Z).

(** A statement on the connection, with its error converted by [conv]. *)
Definition on_connection {A} (m : K -> outcome (result A Api.Error * K)) (conv : Api.Error -> McpError) : Tool (Engine K) A :=
  fun e =>
    match m (connection e) with
    | Val (Ok a, k) => Returned (Ok a) (with_connection e k)
    | Val (Err err, k) => Returned (Err (conv err)) (with_connection e k)
    | Panic => Panicked e
    end.

Definition execute_command (sql : list Z) : Tool (Engine K) Z := on_connection (run sql) (from_api show).
Definition execute_attach_command (sql path : list Z) : Tool (Engine K) Z :=
  on_connection (run sql) (fun err => attach_lock_error show err path).
Definition execute_query_to_json (sql : list Z) : Tool (Engine K) (list JsonRow) :=
  on_connection (query_json sql) (from_api show).

(** ** Starting *)

Definition path_stem (path : list Z) : list Z := default (str "scratch") (file_stem path).
Definition primary_db_name (e : Engine K) : list Z := path_stem (ephemeral_path e).
Definition has_persistent (e : Engine K) : bool := match persistent_path e with Some _ => true | None => false end.

Definition bootstrap_public_schema : Tool (Engine K) unit :=
  let> _ := on_connection (run (str "CREATE SCHEMA IF NOT EXISTS public"))
              (fun err => new InternalError (str "Failed to bootstrap public schema: " ++ show err)) in
  ret tt.

Definition set_search_path (name : list Z) : list Z := str "SET schema_search_path = " ++ sql_literal name.

(** Whether the file was created. *)
Definition attach_default_persistent (path primary : list Z) : Tool (Engine K) bool := fun e =>
  let file_was_created := negb (path_exists path (connection e)) in
  (let> _ := (if file_was_created
              then on_connection (run (str "CREATE DATABASE IF NOT EXISTS " ++ escape_sql_path path))
                     (fun err => persistent_attach_error show err path)
              else ret 0) in
   let> _ := on_connection (run (str "ATTACH DATABASE " ++ escape_sql_path path ++ str " AS " ++ 34 :: PERSISTENT_ALIAS ++ [34]))
               (fun err => persistent_attach_error show err path) in
   let> _ := on_connection (run (set_search_path primary))
               (fun err => new InternalError (str "Failed to pin schema_search_path: " ++ show err)) in
   ret file_was_created) e.

(** The rest of [new_with_mode], or of [try_daemon_mode], once there is a connection. *)
Definition start (k : K) (daemon : bool) (ephemeral_path : list Z) (persistent_path : option (list Z))
  : Ran unit (Engine K) :=
  (let> _ := bootstrap_public_schema in
   let> created := (match persistent_path with
                    | None => ret false
                    | Some path => attach_default_persistent path (path_stem ephemeral_path)
                    end) in
   fun e => Returned (Ok tt) (mk_engine (connection e) daemon ephemeral_path persistent_path created ∅))
    (mk_engine k daemon ephemeral_path persistent_path false ∅).

(** ** Routing *)

Definition resolve_target_db (requested : option (list Z)) (e : Engine K) : result (list Z) McpError :=
  match trim <$> requested with
  | None | Some [] => Ok (primary_db_name e)
  | Some other =>
      if eq_ignore_ascii_case other PERSISTENT_ALIAS then
        if has_persistent e then Ok PERSISTENT_ALIAS
        else Err (new InvalidArgument
                    (str "no persistent database in this session " ++ [8212] ++ str " hyperdb-mcp was started with --ephemeral-only"))
      else Ok (to_ascii_lowercase other)
  end.

(** ** The search path *)

(** [with_search_path]; the guard of [scoped_search_path] does the same around what
    follows it. A panic of [f] goes on once the path is restored. *)
Definition with_search_path {A} (alias : option (list Z)) (f : Tool (Engine K) A) : Tool (Engine K) A :=
  match alias with
  | None => f
  | Some alias => fun e =>
      (let> _ := execute_command (set_search_path alias) in
       fun e1 =>
         let result := f e1 in
         match execute_command (set_search_path (primary_db_name e)) (state_of result), result with
         | Panicked e2, _ | Returned _ e2, Panicked _ => Panicked e2
         | Returned _ e2, Returned r _ => Returned r e2
         end) e
  end.

(** ** Transactions *)

(** The guard rolls back when [f] panics, whatever that does. *)
Definition execute_in_transaction {A} (f : Tool (Engine K) A) : Tool (Engine K) A :=
  let> _ := execute_command BEGIN in
  fun e =>
    match f e with
    | Returned (Ok a) e => (let> _ := execute_command COMMIT in ret a) e
    | Returned (Err err) e => (let> _ := attempt (execute_command ROLLBACK) in fail err) e
    | Panicked e => Panicked (state_of (execute_command ROLLBACK e))
    end.

(** ** The cache of existing catalogs *)

(** Its mutex is never held while anything can panic. *)
Definition catalog_present_in (alias : list Z) (prober : Tool (Engine K) bool) : Tool (Engine K) bool := fun e =>
  let key := to_ascii_lowercase alias in
  match catalog_present_cache e !! key with
  | Some present => Returned (Ok present) e
  | None => (let> present := prober in
             fun e => Returned (Ok present) (with_cache e (<[key := present]> (catalog_present_cache e)))) e
  end.

Definition mark_catalog_present_for (alias : list Z) : Tool (Engine K) unit := fun e =>
  Returned (Ok tt) (with_cache e (<[to_ascii_lowercase alias := true]> (catalog_present_cache e))).

Definition clear_catalog_cache_for (alias : list Z) : Tool (Engine K) unit := fun e =>
  Returned (Ok tt) (with_cache e (delete (to_ascii_lowercase alias) (catalog_present_cache e))).
End engine.

#[global] Arguments execute_command : simpl never.
#[global] Arguments execute_attach_command : simpl never.
#[global] Arguments execute_query_to_json : simpl never.

(** ** Postconditions *)

(** Whatever [m] does from a state with [P], it returns a result and a state with [Q]. *)
Definition ensures {S A} (P : S -> Prop) (m : Tool S A) (Q : result A McpError -> S -> Prop) : Prop :=
  forall s, P s -> exists r s', m s = Returned r s' /\ Q r s'.

Lemma ensures_weaken {S A} (P P' : S -> Prop) (m : Tool S A) (Q Q' : result A McpError -> S -> Prop) :
  ensures P m Q -> (forall s, P' s -> P s) -> (forall r s, Q r s -> Q' r s) -> ensures P' m Q'.
Proof. intros Hm HP HQ s Hs. destruct (Hm s (HP s Hs)) as (r & s' & Hr & Hq). eauto. Qed.

Lemma ensures_ret {S A} (a : A) (Q : result A McpError -> S -> Prop) : ensures (Q (Ok a)) (ret a) Q.
Proof. intros s Hs. eexists _, _. eauto. Qed.

Lemma ensures_fail {S A} err (Q : result A McpError -> S -> Prop) : ensures (Q (Err err)) (fail err) Q.
Proof. intros s Hs. eexists _, _. eauto. Qed.

Lemma ensures_bind {S A B} (P : S -> Prop) (m : Tool S A) (f : A -> Tool S B) R (Q : result B McpError -> S -> Prop) :
  ensures P m R -> (forall a, ensures (R (Ok a)) (f a) Q) -> (forall err s, R (Err err) s -> Q (Err err) s) ->
  ensures P (tool_bind m f) Q.
Proof.
  intros Hm Hf He s Hs. destruct (Hm s Hs) as (r & s1 & Hr & HR). unfold tool_bind. rewrite Hr.
  destruct r as [a | err]; [exact (Hf a s1 HR) | eexists _, _; eauto].
Qed.

Lemma ensures_attempt {S A} (P : S -> Prop) (m : Tool S A) R (Q : result (result A McpError) McpError -> S -> Prop) :
  ensures P m R -> (forall r s, R r s -> Q (Ok r) s) -> ensures P (attempt m) Q.
Proof.
  intros Hm HQ s Hs. destruct (Hm s Hs) as (r & s1 & Hr & HR). unfold attempt. rewrite Hr. eexists _, _. eauto.
Qed.
