(* ===== verification/CopyQuery.v ===== *)
(** * Copying the result of a query into a table

    What [copy_query] of [hyperdb-mcp/src/server.rs] does to its target
    ([perform_copy] and below) with the staging tables of [scratch.rs]. The contract
    [TableServer] says what the statements mean to a server that may fail any of them,
    or die during it. *)

From stdpp Require Import strings gmap.
From S2P Require Import Prelude Text SqlEscape Connection Api Session McpErrors Engine.

(** ** Modes *)

Inductive CopyMode : Type := Create | Append | Replace.

Definition as_str (mode : CopyMode) : list Z :=
  match mode with Create => str "create" | Append => str "append" | Replace => str "replace" end.

Definition parse_mode_name (value default : option (list Z)) (allowed : list (list Z)) (tool : list Z)
  : result (list Z) McpError :=
  match value with
  | None =>
      match default with
      | Some d => Ok d
      | None => Err (new InvalidArgument (tool ++ str ": `mode` is required (one of: " ++ join (str ", ") allowed ++ str ")"))
      end
  | Some raw =>
      if bool_decide (raw ∈ allowed) then Ok raw
      else
        let hint := match find (fun a => eq_ignore_ascii_case a (trim raw)) allowed with
                    | Some a => str " (did you mean '" ++ a ++ str "'? mode values are exact lowercase)"
                    | None => []
                    end in
        Err (new InvalidArgument
               (tool ++ str ": invalid mode '" ++ raw ++ str "'; allowed values: " ++ join (str ", ") allowed ++ hint))
  end.

Definition COPY_MODES : list (list Z) := [str "create"; str "append"; str "replace"].

(** A name that [parse_mode_name] cannot return is a panic ([unreachable!]). *)
Definition parse (value : list Z) : outcome (result CopyMode McpError) :=
  match parse_mode_name (Some value) None COPY_MODES (str "copy_query") with
  | Err e => Val (Err e)
  | Ok m => if bool_decide (m = str "create") then Val (Ok Create)
            else if bool_decide (m = str "append") then Val (Ok Append)
            else if bool_decide (m = str "replace") then Val (Ok Replace)
            else Panic
  end.

(** ** Scratch tables *)

Definition COPY_PREFIX : list Z := str "__hyperdb_copy_".

Definition is_ident (c : Z) : bool := is_ascii_alphanumeric c || (c =? 95).

Definition safe_target (target : list Z) : list Z := (fun c => if is_ident c then c else 95) <$> target.

(** The process id, the clock and the counter are what the call finds. *)
Definition scratch_name (prefix target : list Z) (pid nanos counter : Z) : list Z :=
  prefix ++ safe_target target ++ 95 :: fmt_u pid ++ 95 :: fmt_u nanos ++ 95 :: fmt_u counter.

Section copy.
Context {K : Type} `{McpConnection K} (show : Api.Error -> list Z).

(** [ScratchTableGuard]: what runs under it has the engine and whether it is armed. *)
Definition guarded {A} (m : Tool (Engine K) A) : Tool (Engine K * bool) A := fun ea =>
  match m ea.1 with
  | Returned r e => Returned r (e, ea.2)
  | Panicked e => Panicked (e, ea.2)
  end.

Definition disarm : Tool (Engine K * bool) unit := fun ea => Returned (Ok tt) (ea.1, false).

(** The guard dropped: a failed DROP is logged. *)
Definition drop_guard (qualified : list Z) (armed : bool) : Tool (Engine K) unit :=
  if armed
  then let> _ := attempt (execute_command show (str "DROP TABLE IF EXISTS " ++ qualified)) in ret tt
  else ret tt.

Definition with_scratch {A} (qualified : list Z) (body : Tool (Engine K * bool) A) : Tool (Engine K) A := fun e =>
  match body (e, true) with
  | Returned r (e, armed) =>
      match drop_guard qualified armed e with
      | Returned _ e => Returned r e
      | Panicked e => Panicked e
      end
  | Panicked (e, armed) => Panicked (state_of (drop_guard qualified armed e))
  end.

(** ** The target *)

Definition qualified (db table : list Z) : list Z := quote_ident db ++ str "." ++ quote_ident (str "public") ++ str "." ++ quote_ident table.

Definition qualified_name (e : Engine K) (db : option (list Z)) (table : list Z) : list Z :=
  qualified (default (primary_db_name e) db) table.

Definition is_missing (err : McpError) : bool :=
  let m := to_lowercase (message err) in
  contains m (str "does not exist") || contains m (str "undefined table") || contains (message err) (str "42P01").

Definition target_exists (db : option (list Z)) (table : list Z) : Tool (Engine K) bool := fun e =>
  (let> r := attempt (execute_query_to_json show (str "SELECT 1 FROM " ++ qualified_name e db table ++ str " LIMIT 0")) in
   match r with
   | Ok _ => ret true
   | Err err => if is_missing err then ret false else fail err
   end) e.

Definition count_of (r : result (list JsonRow) McpError) : Z :=
  match r with
  | Ok (row :: _) => default 0 (field row (str "cnt") ≫= as_i64)
  | _ => 0
  end.

Definition count_rows (db : option (list Z)) (table : list Z) : Tool (Engine K) Z := fun e =>
  (let> r := attempt (execute_query_to_json show (str "SELECT COUNT(*) AS cnt FROM " ++ qualified_name e db table)) in
   ret (count_of r)) e.

(** ** Copying *)

Definition DUPLICATE_TABLE : list Z := str "server error (42P07)".

Definition create_table_as (qualified sql_body : list Z) : Tool (Engine K) unit :=
  let> r := attempt (execute_command show (str "CREATE TABLE " ++ qualified ++ str " AS " ++ sql_body)) in
  match r with
  | Ok _ => ret tt
  | Err e =>
      if starts_with (message e) DUPLICATE_TABLE then fail e
      else let> _ := attempt (execute_command show (str "DROP TABLE IF EXISTS " ++ qualified)) in fail e
  end.

Definition rename_sql (qualified new_name : list Z) : list Z :=
  str "ALTER TABLE " ++ qualified ++ str " RENAME TO " ++ quote_ident new_name.

(** [{err}] of an [McpError] starts with the [Debug] of its code, a parameter. *)
Context (show_error : McpError -> list Z).

Definition not_restored (swap_err restore_err : McpError) (backup_name : list Z) : McpError :=
  new (code swap_err)
    (str "copy_query replace failed (" ++ show_error swap_err ++ str ") and the original table could not be restored ("
     ++ show_error restore_err ++ str "); your data may still be in hidden table '" ++ backup_name
     ++ str "' (for a persistent or attached target; an ephemeral/local target's hidden table is discarded when the session ends)").

(** The names of the staging table and of the backup, as [scratch_name] gives them. *)
Definition replace_via_staging (db : option (list Z)) (target sql_body staging backup : list Z) : Tool (Engine K) unit := fun e =>
  let q := qualified_name e db target in
  let staging_q := qualified_name e db staging in
  let backup_q := qualified_name e db backup in
  with_scratch staging_q
    (let> _ := guarded (execute_command show (str "CREATE TABLE " ++ staging_q ++ str " AS " ++ sql_body)) in
     let> _ := guarded (execute_command show (rename_sql q backup)) in
     let> swap := attempt (guarded (execute_command show (rename_sql staging_q target))) in
     match swap with
     | Err swap_err =>
         let> restore := attempt (guarded (execute_command show (rename_sql backup_q target))) in
         match restore with
         | Ok _ => fail swap_err
         | Err restore_err => fail (not_restored swap_err restore_err backup)
         end
     | Ok _ =>
         let> _ := disarm in
         let> _ := attempt (guarded (execute_command show (str "DROP TABLE IF EXISTS " ++ backup_q))) in
         ret tt
     end) e.

Definition already_exists (target : list Z) : McpError :=
  new InvalidArgument (str "Target '" ++ target ++ str "' already exists. Use mode='append' to add rows or mode='replace' to replace it.").
Definition does_not_exist (target : list Z) : McpError :=
  new InvalidArgument (str "Target '" ++ target ++ str "' does not exist. Use mode='create' to create it from the query or mode='replace' to replace it.").

(** What is done once it is known whether the target exists. *)
Definition copy_step (mode : CopyMode) (exists_ : bool) (q : list Z) (db : option (list Z)) (target sql_body staging backup : list Z)
  : Tool (Engine K) unit :=
  match mode, exists_ with
  | Create, true => fail (already_exists target)
  | Create, false => create_table_as q sql_body
  | Append, false => fail (does_not_exist target)
  | Append, true => let> _ := execute_command show (str "INSERT INTO " ++ q ++ str " " ++ sql_body) in ret tt
  | Replace, true => replace_via_staging db target sql_body staging backup
  | Replace, false => create_table_as q sql_body
  end.

(** The rows of the target afterwards, which the answer reports with the names and the
    mode it was given. *)
Definition perform_copy (mode : CopyMode) (db : option (list Z)) (target sql_body staging backup : list Z)
  : Tool (Engine K) Z := fun e =>
  let q := qualified_name e db target in
  (let> exists_ := target_exists db target in
   let> _ := copy_step mode exists_ q db target sql_body staging backup in
   count_rows db target) e.
End copy.

(** ** The names of scratch tables *)

Lemma length_safe_target target : length (safe_target target) = length target.
Proof. apply length_fmap. Qed.

(** A scratch name is longer than the name of its target. *)
Lemma scratch_not_target prefix target pid nanos counter : scratch_name prefix target pid nanos counter <> target.
Proof.
  intros H. apply (f_equal length) in H. revert H. unfold scratch_name. rewrite !length_app, length_safe_target. cbn [length]. lia.
Qed.

Lemma fmt_u_no_underscore n : 0 <= n -> 95 ∉ fmt_u n.
Proof. intros Hn H. pose proof (fmt_u_digits n Hn) as Hd. rewrite list.Forall_forall in Hd. specialize (Hd _ H). cbn in Hd. lia. Qed.

(** The counter can be read back from a scratch name, so two calls of a process never
    give the same one. *)
Lemma scratch_names_differ prefix prefix' target pid nanos nanos' counter counter' :
  0 <= counter -> 0 <= counter' -> counter <> counter' ->
  scratch_name prefix target pid nanos counter <> scratch_name prefix' target pid nanos' counter'.
Proof.
  intros H H' Hne Heq.
  assert (Hlast : forall p n c, 0 <= c -> after_last 95 (scratch_name p target pid n c) = Some (fmt_u c)).
  { intros p n c Hc. unfold scratch_name.
    replace (p ++ safe_target target ++ 95 :: fmt_u pid ++ 95 :: fmt_u n ++ 95 :: fmt_u c)
      with ((p ++ safe_target target ++ 95 :: fmt_u pid ++ 95 :: fmt_u n) ++ 95 :: fmt_u c)
      by (rewrite <- !app_assoc; cbn [app]; by rewrite <- !app_assoc).
    by apply after_last_app, fmt_u_no_underscore. }
  pose proof (Hlast prefix nanos counter H) as H1. rewrite Heq, Hlast in H1 by done. apply Hne.
  injection H1 as H1. pose proof (fmt_u_val counter H) as V. pose proof (fmt_u_val counter' H') as V'. rewrite H1 in V'. congruence.
Qed.

(** ** The contract of the server *)

Definition create_as_sql (db name sql : list Z) : list Z := str "CREATE TABLE " ++ qualified db name ++ str " AS " ++ sql.
Definition drop_sql (db name : list Z) : list Z := str "DROP TABLE IF EXISTS " ++ qualified db name.
Definition insert_sql (db name sql : list Z) : list Z := str "INSERT INTO " ++ qualified db name ++ str " " ++ sql.
Definition probe_sql (db name : list Z) : list Z := str "SELECT 1 FROM " ++ qualified db name ++ str " LIMIT 0".

(** The tables of one database, and what the statements mean to it: documented
    behaviour of the server. A statement that fails has had no effect, but for a
    CREATE TABLE AS, which may leave a table behind, and for one during which the
    connection died, which may have had it. On a dead connection everything fails. *)
Class TableServer (K R : Type) `{McpConnection K} (show : Api.Error -> list Z) (db : list Z) := {
  tables : K -> gmap (list Z) R;
  dead : K -> Prop;
  answer : list Z -> gmap (list Z) R -> R;
  appended : R -> R -> R;
  run_returns sql (k : K) : exists r k', run sql k = Val (r, k');
  query_returns sql (k : K) : exists r k', query_json sql k = Val (r, k');
  dead_stays sql (k : K) r k' :
    dead k -> run sql k = Val (r, k') -> dead k' /\ is_ok r = false /\ tables k' = tables k;
  query_keeps sql (k : K) r k' :
    query_json sql k = Val (r, k') -> tables k' = tables k /\ (dead k -> dead k' /\ is_ok r = false);
  probe_law name (k : K) r k' :
    query_json (probe_sql db name) k = Val (r, k') ->
    match r with
    | Ok _ => is_Some (tables k !! name)
    | Err err => is_missing (from_api show err) = true -> tables k !! name = None \/ dead k'
    end;
  create_law name sql (k : K) r k' :
    run (create_as_sql db name sql) k = Val (r, k') ->
    match r with
    | Ok _ => tables k !! name = None /\ tables k' = <[name := answer sql (tables k)]> (tables k)
    | Err err => (tables k' = tables k /\
                    (is_Some (tables k !! name) -> dead k' \/ exists m d h, err = Server (Some (str "42P07")) m d h))
                 \/ (tables k !! name = None /\ exists x, tables k' = <[name := x]> (tables k))
    end;
  rename_law a b (k : K) r k' :
    run (rename_sql (qualified db a) b) k = Val (r, k') ->
    let renamed := exists x, tables k !! a = Some x /\ tables k !! b = None /\ tables k' = <[b := x]> (delete a (tables k)) in
    match r with Ok _ => renamed | Err _ => tables k' = tables k \/ (dead k' /\ renamed) end;
  drop_law name (k : K) r k' :
    run (drop_sql db name) k = Val (r, k') ->
    match r with
    | Ok _ => tables k' = delete name (tables k)
    | Err _ => tables k' = tables k \/ (dead k' /\ tables k' = delete name (tables k))
    end;
  insert_law name sql (k : K) r k' :
    run (insert_sql db name sql) k = Val (r, k') ->
    let inserted := exists x, tables k !! name = Some x /\ tables k' = <[name := appended x (answer sql (tables k))]> (tables k) in
    match r with Ok _ => inserted | Err _ => tables k' = tables k \/ (dead k' /\ inserted) end;
}.

Definition same_but {R} (names : list (list Z)) (m m' : gmap (list Z) R) : Prop :=
  forall name, name ∉ names -> m' !! name = m !! name.

(** ** Proofs *)

Section proofs.
Context {K R : Type} `{!McpConnection K} (show : Api.Error -> list Z) (show_error : McpError -> list Z) (db : list Z).
Context `{!TableServer K R show db}.

Definition converted {A} (r : result A Api.Error) : result A McpError :=
  match r with Ok a => Ok a | Err err => Err (from_api show err) end.

Lemma command_runs sql (e : Engine K) :
  exists r k, run sql (connection e) = Val (r, k)
    /\ execute_command show sql e = Returned (converted r) (with_connection e k).
Proof.
  destruct (run_returns sql (connection e)) as (r & k & Hr). exists r, k. split; [done |].
  unfold execute_command, on_connection. rewrite Hr. by destruct r.
Qed.

Lemma query_runs sql (e : Engine K) :
  exists r k, query_json sql (connection e) = Val (r, k)
    /\ execute_query_to_json show sql e = Returned (converted r) (with_connection e k).
Proof.
  destruct (query_returns sql (connection e)) as (r & k & Hr). exists r, k. split; [done |].
  unfold execute_query_to_json, on_connection. rewrite Hr. by destruct r.
Qed.

Lemma guarded_runs sql (e : Engine K) armed :
  exists r k, run sql (connection e) = Val (r, k)
    /\ guarded (execute_command show sql) (e, armed) = Returned (converted r) (with_connection e k, armed).
Proof.
  destruct (command_runs sql e) as (r & k & Hr & He). exists r, k. split; [done |]. unfold guarded. cbn [fst snd]. by rewrite He.
Qed.

(** A table is gone, or the connection was left so by a DROP of it that failed. *)
Definition swept (name : list Z) (k : K) : Prop :=
  tables k !! name = None \/ exists k0 err, run (drop_sql db name) k0 = Val (Err err, k).

Lemma dropped_swept name (k : K) r k' : run (drop_sql db name) k = Val (r, k') -> swept name k'.
Proof.
  intros Hr. pose proof (drop_law _ _ _ _ Hr) as Hd. destruct r as [n | err]; [left; rewrite Hd; by apply lookup_delete_eq |].
  right. by exists k, err.
Qed.

(** Dropping the guard only drops the staging table, and does when it is armed. *)
Lemma drop_guard_runs name armed (e : Engine K) :
  exists e', drop_guard show (qualified db name) armed e = Returned (Ok tt) e'
    /\ same_but [name] (tables (connection e)) (tables (connection e'))
    /\ (dead (connection e) -> dead (connection e'))
    /\ (armed = true -> swept name (connection e')).
Proof.
  destruct armed; [| exists e; done]. unfold drop_guard, attempt, tool_bind.
  destruct (command_runs (drop_sql db name) e) as (r & k & Hr & He). unfold drop_sql in He. rewrite He.
  exists (with_connection e k). split; [done |]. cbn [connection with_connection].
  pose proof (drop_law _ _ _ _ Hr) as Hd. split_and!.
  - intros t Ht. rewrite list_elem_of_singleton in Ht.
    destruct r; [| destruct Hd as [-> | [_ Hd]]; [done |]]; rewrite Hd; by apply lookup_delete_ne.
  - intros Hdead. by apply (dead_stays _ _ _ _ Hdead Hr).
  - intros _. by eapply dropped_swept.
Qed.

(** [create_table_as] leaves the tables alone but for its own, and that one too if it is
    there already. *)
Lemma create_table_as_runs name sql (e : Engine K) :
  (forall m d h, starts_with (show (Server (Some (str "42P07")) m d h)) DUPLICATE_TABLE = true) ->
  exists r e', create_table_as show (qualified db name) sql e = Returned r e'
    /\ let t := tables (connection e) in let t' := tables (connection e') in
       same_but [name] t t' /\ (is_Some (t !! name) -> t' = t /\ is_ok r = false) /\
       (is_ok r = true -> t' = <[name := answer sql t]> t) /\
       (forall err, r = Err err -> swept name (connection e') \/ starts_with (message err) DUPLICATE_TABLE = true).
Proof.
  intros Hshow. unfold create_table_as, attempt, tool_bind.
  destruct (command_runs (create_as_sql db name sql) e) as (r & k & Hr & He). unfold create_as_sql in He. rewrite He.
  pose proof (create_law _ _ _ _ _ Hr) as Hc. destruct r as [n | err]; cbn [converted].
  { exists (Ok tt), (with_connection e k). cbn [connection with_connection]. destruct Hc as [Hn Ht]. rewrite Ht.
    split_and!; [done | | intros [x Hx]; congruence | done | done].
    intros u Hu. rewrite list_elem_of_singleton in Hu. by apply lookup_insert_ne. }
  rewrite from_api_message. destruct (starts_with (show err) DUPLICATE_TABLE) eqn:Hdup.
  { exists (Err (from_api show err)), (with_connection e k). cbn [connection with_connection].
    assert (Hm : forall err', Err (A := unit) (from_api show err) = Err err' -> starts_with (message err') DUPLICATE_TABLE = true)
      by (intros err' [= <-]; by rewrite from_api_message).
    destruct Hc as [[Ht _] | [Hn [x Ht]]]; rewrite Ht; split_and!; try done; try (by right; apply Hm).
    - intros u Hu. rewrite list_elem_of_singleton in Hu. by apply lookup_insert_ne.
    - intros [y Hy]. congruence. }
  destruct (command_runs (drop_sql db name) (with_connection e k)) as (d & k' & Hd & He'). unfold drop_sql in He'. rewrite He'.
  exists (Err (from_api show err)), (with_connection e k'). cbn [connection with_connection] in *.
  pose proof (drop_law _ _ _ _ Hd) as Hdrop.
  assert (same_but [name] (tables k) (tables k')) as Hkk.
  { intros u Hu. rewrite list_elem_of_singleton in Hu.
    destruct d; [| destruct Hdrop as [-> | [_ Hdrop]]; [done |]]; rewrite Hdrop; by apply lookup_delete_ne. }
  split; [done |]. split_and!; [| | done | left; by eapply dropped_swept].
  - intros u Hu. rewrite (Hkk u Hu). destruct Hc as [[-> _] | [_ [x ->]]]; [done |].
    rewrite list_elem_of_singleton in Hu. by apply lookup_insert_ne.
  - intros [x Hx]. split; [| done]. destruct Hc as [[Ht Hpresent] | [Hn _]]; [| congruence].
    destruct (Hpresent (mk_is_Some _ _ Hx)) as [Hdead | (m & dt & h & ->)].
    + destruct (dead_stays _ _ _ _ Hdead Hd) as (_ & _ & ->). done.
    + by rewrite Hshow in Hdup.
Qed.
(** What is left of the old rows after a replacement that ended with [r], apart from
    the staging table. *)
Definition replaced (target staging backup sql : list Z) (old : R) {A} (r : result A McpError) (t t' : gmap (list Z) R) (lost : Prop) : Prop :=
  same_but [target; staging; backup] t t' /\
  match r with
  | Ok _ => t' !! target = Some (answer sql t) /\ t' !! staging = None /\ (t' !! backup = None \/ t' !! backup = Some old)
  | Err err => t' !! target = Some old \/ (t' !! backup = Some old /\ (lost \/ occurs backup (message err)))
  end.

Lemma same_but_refl (names : list (list Z)) (t : gmap (list Z) R) : same_but names t t.
Proof. done. Qed.

Lemma same_but_trans (names : list (list Z)) (t1 t2 t3 : gmap (list Z) R) : same_but names t1 t2 -> same_but names t2 t3 -> same_but names t1 t3.
Proof. intros H1 H2 u Hu. by rewrite H2, H1. Qed.

Lemma same_but_insert (names : list (list Z)) (name : list Z) (x : R) (t : gmap (list Z) R) : name ∈ names -> same_but names t (<[name := x]> t).
Proof. intros Hn u Hu. apply lookup_insert_ne. congruence. Qed.

Lemma same_but_delete (names : list (list Z)) (name : list Z) (t : gmap (list Z) R) : name ∈ names -> same_but names t (delete name t).
Proof. intros Hn u Hu. apply lookup_delete_ne. congruence. Qed.

Lemma same_but_weaken (names names' : list (list Z)) (t t' : gmap (list Z) R) :
  (forall u, u ∈ names -> u ∈ names') -> same_but names t t' -> same_but names' t t'.
Proof. intros Hs H u Hu. apply H. auto. Qed.

(** A rename, as it changes the rows at [a] and at [b]. *)
Lemma rename_runs a b (e : Engine K) :
  exists r k, run (rename_sql (qualified db a) b) (connection e) = Val (r, k)
    /\ (forall armed, guarded (execute_command show (rename_sql (qualified db a) b)) (e, armed) = Returned (converted r) (with_connection e k, armed))
    /\ (let renamed := exists x, tables (connection e) !! a = Some x /\ tables (connection e) !! b = None
                         /\ tables k = <[b := x]> (delete a (tables (connection e))) in
        match r with Ok _ => renamed | Err _ => tables k = tables (connection e) \/ (dead k /\ renamed) end)
    /\ (dead (connection e) -> dead k /\ is_ok r = false /\ tables k = tables (connection e)).
Proof.
  destruct (command_runs (rename_sql (qualified db a) b) e) as (r & k & Hr & He). exists r, k. split; [done |]. split_and!.
  - intros armed. unfold guarded. cbn [fst snd]. by rewrite He.
  - exact (rename_law _ _ _ _ _ Hr).
  - intros Hd. exact (dead_stays _ _ _ _ Hd Hr).
Qed.
(** The last two steps: from the old rows in the backup and the new ones in staging. *)
Lemma swap_runs (target staging backup sql : list Z) (e : Engine K) (t : gmap (list Z) R) (old : R) :
  NoDup [target; staging; backup] ->
  let t2 := tables (connection e) in
  same_but [target; staging; backup] t t2 -> t2 !! target = None -> t2 !! staging = Some (answer sql t) -> t2 !! backup = Some old ->
  exists r e' armed,
    (let> swap := attempt (guarded (execute_command show (rename_sql (qualified db staging) target))) in
     match swap with
     | Err swap_err =>
         let> restore := attempt (guarded (execute_command show (rename_sql (qualified db backup) target))) in
         match restore with
         | Ok _ => fail swap_err
         | Err restore_err => fail (not_restored show_error swap_err restore_err backup)
         end
     | Ok _ =>
         let> _ := disarm in
         let> _ := attempt (guarded (execute_command show (str "DROP TABLE IF EXISTS " ++ qualified db backup))) in
         ret tt
     end) (e, true) = Returned r (e', armed)
    /\ armed = negb (is_ok r)
    /\ replaced target staging backup sql old r t (tables (connection e')) (dead (connection e')).
Proof.
  intros Hnd t2 Hsame Ht Hs Hb.
  apply list.NoDup_cons in Hnd as [[Hts Htb]%not_elem_of_cons Hnd]. apply not_elem_of_cons in Htb as [Htb _].
  apply list.NoDup_cons in Hnd as [Hsb _]. rewrite list_elem_of_singleton in Hsb.
  destruct (rename_runs staging target e) as (r & k & _ & He & Hlaw & _). cbn zeta in Hlaw. fold t2 in Hlaw.
  assert (Hmoved : (exists x, t2 !! staging = Some x /\ t2 !! target = None /\ tables k = <[target := x]> (delete staging t2)) ->
                   tables k = <[target := answer sql t]> (delete staging t2)).
  { intros (x & Hx & _ & ->). rewrite Hs in Hx. by injection Hx as ->. }
  destruct r as [n | err].
  - apply Hmoved in Hlaw. unfold tool_bind at 1, attempt at 1. rewrite He. cbn [converted]. unfold tool_bind, disarm. cbn [fst].
    unfold attempt. change (str "DROP TABLE IF EXISTS " ++ qualified db backup) with (drop_sql db backup).
    destruct (guarded_runs (drop_sql db backup) (with_connection e k) false) as (d & k' & Hd & ->). cbn [connection with_connection] in *.
    exists (Ok tt), (with_connection e k'), false. cbn [connection with_connection]. split_and!; [done | done |].
    pose proof (drop_law _ _ _ _ Hd) as Hdrop.
    assert (tables k' = tables k \/ tables k' = delete backup (tables k)) as Hk' by (destruct d; tauto).
    unfold replaced. rewrite Hlaw in Hk'. split.
    + eapply same_but_trans; [exact Hsame |].
      destruct Hk' as [-> | ->]; [| eapply same_but_trans; [| by apply same_but_delete; set_solver]];
        (eapply same_but_trans; [apply (same_but_delete _ staging); set_solver | apply same_but_insert; set_solver]).
    + destruct Hk' as [-> | ->]; simplify_map_eq; auto.
  - unfold tool_bind at 1, attempt at 1. rewrite He. cbn [converted].
    destruct (rename_runs backup target (with_connection e k)) as (r' & k' & _ & He' & Hlaw' & Hdead). cbn zeta in Hlaw'.
    cbn [connection with_connection] in Hlaw', Hdead.
    assert (same_but [target; staging; backup] t (tables k) /\ tables k !! backup = Some old /\ (tables k !! target = None \/ dead k))
      as (Hk & Hkb & Hkt).
    { destruct Hlaw as [-> | [Hd Hm]]; [by auto |]. rewrite (Hmoved Hm). split_and!; [| by simplify_map_eq | by right].
      eapply same_but_trans; [exact Hsame |].
      eapply same_but_trans; [apply (same_but_delete _ staging); set_solver | apply same_but_insert; set_solver]. }
    assert (Hback : (exists x, tables k !! backup = Some x /\ tables k !! target = None /\ tables k' = <[target := x]> (delete backup (tables k))) ->
                    same_but [target; staging; backup] t (tables k') /\ tables k' !! target = Some old).
    { intros (x & Hx & _ & ->). rewrite Hkb in Hx. injection Hx as ->. split; [| by simplify_map_eq].
      eapply same_but_trans; [exact Hk |].
      eapply same_but_trans; [apply (same_but_delete _ backup); set_solver | apply same_but_insert; set_solver]. }
    unfold tool_bind, attempt. rewrite He'. destruct r' as [n' | err']; cbn [converted]; eexists _, _, _; (split; [reflexivity |]); (split; [done |]).
    + apply Hback in Hlaw' as [? ?]. split; [done | by left].
    + cbn [connection with_connection]. destruct Hlaw' as [Hsame' | [Hd' Hm]]; [| apply Hback in Hm as [? ?]; split; [done | by left]].
      unfold replaced. rewrite Hsame'. split; [done |]. right. split; [done |]. right. unfold not_restored, new. cbn [message]. auto 10.
Qed.
(** What the guard of the staging table does not spoil. *)
Lemma with_scratch_replaced (target staging backup sql : list Z) (old : R) {A} (body : Tool (Engine K * bool) A) (e : Engine K) (r : result A McpError) (e1 : Engine K) (armed : bool) (t : gmap (list Z) R) :
  NoDup [target; staging; backup] ->
  body (e, true) = Returned r (e1, armed) -> armed = negb (is_ok r) ->
  replaced target staging backup sql old r t (tables (connection e1)) (dead (connection e1)) ->
  exists e', with_scratch show (qualified db staging) body e = Returned r e'
    /\ replaced target staging backup sql old r t (tables (connection e')) (dead (connection e')) /\ swept staging (connection e').
Proof.
  intros Hnd Hb -> [Hsame Hr]. unfold with_scratch. rewrite Hb.
  destruct (drop_guard_runs staging (negb (is_ok r)) e1) as (e' & He' & Hd & Hdead & Hswept). rewrite He'. exists e'. split; [done |].
  destruct r as [a | err].
  { injection He' as <-. split; [done |]. left. apply Hr. }
  apply list.NoDup_cons in Hnd as [Hts Hnd]. apply list.NoDup_cons in Hnd as [Hsb _]. split; [| by apply Hswept].
  split; [eapply same_but_trans; [exact Hsame | eapply same_but_weaken; [| exact Hd]; set_solver] |].
  rewrite !Hd by set_solver. naive_solver.
Qed.

Lemma replace_runs odb (target staging backup sql : list Z) (e : Engine K) (old : R) :
  default (primary_db_name e) odb = db -> NoDup [target; staging; backup] ->
  let t := tables (connection e) in
  t !! target = Some old -> t !! staging = None -> t !! backup = None ->
  exists r e', replace_via_staging show show_error odb target sql staging backup e = Returned r e'
    /\ replaced target staging backup sql old r t (tables (connection e')) (dead (connection e')) /\ swept staging (connection e').
Proof.
  intros Hdb Hnd t Ht Hs Hb. unfold replace_via_staging, qualified_name. rewrite Hdb.
  pose proof Hnd as Hnd'. apply list.NoDup_cons in Hnd' as [[Hts Htb]%not_elem_of_cons Hnd']. apply not_elem_of_cons in Htb as [Htb _].
  apply list.NoDup_cons in Hnd' as [Hsb _]. rewrite list_elem_of_singleton in Hsb.
  match goal with |- exists r e', with_scratch _ _ ?b _ = _ /\ _ => set (body := b) end.
  enough (exists r e1 armed, body (e, true) = Returned r (e1, armed) /\ armed = negb (is_ok r)
            /\ replaced target staging backup sql old r t (tables (connection e1)) (dead (connection e1)))
    as (r & e1 & armed & Hrun & Harmed & Hr).
  { destruct (with_scratch_replaced _ _ _ _ _ _ _ _ _ _ _ Hnd Hrun Harmed Hr) as (e' & ? & ? & ?). by exists r, e'. }
  unfold body. unfold tool_bind at 1.
  destruct (guarded_runs (create_as_sql db staging sql) e true) as (r & k & Hr & He). unfold create_as_sql in He. rewrite He.
  pose proof (create_law _ _ _ _ _ Hr) as Hc. cbn zeta in Hc. fold t in Hc.
  destruct r as [n | err]; cbn [converted].
  2: { eexists _, _, _. split; [reflexivity |]. split; [done |]. cbn [connection with_connection].
       destruct Hc as [[-> _] | [_ [x ->]]]; (split; [| left; by simplify_map_eq]); [done |]. apply same_but_insert. set_solver. }
  destruct Hc as [_ Hk]. unfold tool_bind at 1.
  destruct (rename_runs target backup (with_connection e k)) as (r' & k' & _ & He' & Hlaw & _). rewrite He'. cbn zeta in Hlaw.
  cbn [connection with_connection] in Hlaw. rewrite Hk in Hlaw.
  assert (Hsame : same_but [target; staging; backup] t (tables k)) by (rewrite Hk; apply same_but_insert; set_solver).
  assert (Hmoved : (exists x, <[staging := answer sql t]> t !! target = Some x /\ <[staging := answer sql t]> t !! backup = None
                     /\ tables k' = <[backup := x]> (delete target (<[staging := answer sql t]> t))) ->
                   same_but [target; staging; backup] t (tables k') /\ tables k' !! target = None
                   /\ tables k' !! staging = Some (answer sql t) /\ tables k' !! backup = Some old).
  { intros (x & Hx & _ & Hk'). rewrite lookup_insert_ne in Hx by done. rewrite Ht in Hx. injection Hx as <-.
    rewrite Hk', <- Hk. split_and!; [| by simplify_map_eq | rewrite Hk; by simplify_map_eq | by simplify_map_eq].
    eapply same_but_trans; [exact Hsame |].
    eapply same_but_trans; [apply (same_but_delete _ target); set_solver | apply same_but_insert; set_solver]. }
  destruct r' as [n' | err']; cbn [converted].
  - apply Hmoved in Hlaw as (? & ? & ? & ?). by apply (swap_runs target staging backup sql (with_connection (with_connection e k) k') t old).
  - eexists _, _, _. split; [reflexivity |]. split; [done |]. cbn [connection with_connection].
    destruct Hlaw as [Hk' | [Hd Hm]].
    + rewrite Hk', <- Hk. split; [done |]. left. rewrite Hk. by simplify_map_eq.
    + apply Hmoved in Hm as (? & _ & _ & ?). split; [done |]. right. auto.
Qed.
(** The probe tells whether the target is there, unless it fails. *)
Lemma target_exists_runs odb name (e : Engine K) :
  default (primary_db_name e) odb = db ->
  exists r e', target_exists show odb name e = Returned r e' /\ tables (connection e') = tables (connection e)
    /\ primary_db_name e' = primary_db_name e /\ (dead (connection e) -> dead (connection e')) /\
    (r = Ok true -> is_Some (tables (connection e) !! name)) /\
    (r = Ok false -> tables (connection e) !! name = None \/ dead (connection e')).
Proof.
  intros Hdb. unfold target_exists, qualified_name, tool_bind, attempt. rewrite Hdb.
  destruct (query_runs (probe_sql db name) e) as (r & k & Hr & He). unfold probe_sql in He. rewrite He.
  pose proof (probe_law _ _ _ _ Hr) as Hp. destruct (query_keeps _ _ _ _ Hr) as [Hk Hd].
  destruct r as [rows | err]; cbn [converted]; [| destruct (is_missing (from_api show err)) eqn:Hm];
    (eexists _, (with_connection e k); split; [reflexivity |]); split_and!; try done; try apply Hd; try (intros _; exact Hp).
  intros _. by apply Hp.
Qed.

Lemma count_rows_runs odb name (e : Engine K) :
  exists n e', count_rows show odb name e = Returned (Ok n) e' /\ tables (connection e') = tables (connection e)
    /\ (dead (connection e) -> dead (connection e')).
Proof.
  unfold count_rows, tool_bind, attempt.
  match goal with |- context [execute_query_to_json show ?sql e] => destruct (query_runs sql e) as (r & k & Hr & He) end.
  rewrite He. destruct (query_keeps _ _ _ _ Hr) as [Hk Hd]. eexists _, (with_connection e k). split; [reflexivity |].
  split; [done |]. apply Hd.
Qed.

(** What a copy cleans up: the staging table never stays, and neither does a target that a
    copy could not fill, unless that DROP failed or the target was there all along. *)
Definition swept_up (mode : CopyMode) (target staging : list Z) {A} (r : result A McpError) (t : gmap (list Z) R) (k' : K) : Prop :=
  swept staging k' /\
  match t !! target, mode, r with
  | None, (Create | Replace), Err err => swept target k' \/ starts_with (message err) DUPLICATE_TABLE = true
  | _, _, _ => True
  end.

(** What a copy may do to the tables [t] before it. *)
Definition copied (mode : CopyMode) (target staging backup sql : list Z) {A} (r : result A McpError) (t t' : gmap (list Z) R) (lost : Prop) : Prop :=
  match t !! target, mode, r with
  | Some old, Replace, _ => replaced target staging backup sql old r t t' lost
  | Some old, Append, Ok _ => t' = <[target := appended old (answer sql t)]> t
  | Some old, Append, Err _ => t' = t \/ (lost /\ t' = <[target := appended old (answer sql t)]> t)
  | Some _, Create, _ | None, Append, _ => t' = t /\ is_ok r = false
  | None, _, Ok _ => t' = <[target := answer sql t]> t
  | None, _, Err _ => same_but [target] t t'
  end.

(** A copy that succeeded has no staging table. *)
Lemma copied_staging (mode : CopyMode) (target staging backup sql : list Z) {A} (a : A) (t t' : gmap (list Z) R) (lost : Prop) :
  staging <> target -> t !! staging = None -> copied mode target staging backup sql (Ok a) t t' lost -> t' !! staging = None.
Proof.
  intros Hne Hs. unfold copied. destruct (t !! target) as [old |], mode; try (by intros [_ ?]); try (intros ->; by rewrite lookup_insert_ne).
  intros (_ & _ & Hstaging & _). exact Hstaging.
Qed.

Lemma insert_runs name sql (e : Engine K) old :
  tables (connection e) !! name = Some old ->
  exists r e', (let> _ := execute_command show (insert_sql db name sql) in ret tt) e = Returned r e'
    /\ (let inserted := tables (connection e') = <[name := appended old (answer sql (tables (connection e)))]> (tables (connection e)) in
        match r with Ok _ => inserted | Err _ => tables (connection e') = tables (connection e) \/ (dead (connection e') /\ inserted) end).
Proof.
  intros Hold. unfold tool_bind. destruct (command_runs (insert_sql db name sql) e) as (r & k & Hr & ->).
  pose proof (insert_law _ _ _ _ _ Hr) as Hi. cbn zeta in Hi.
  assert (forall x, tables (connection e) !! name = Some x -> x = old) as Hx by (intros x Hx; congruence).
  destruct r as [n | err]; cbn [converted]; eexists _, (with_connection e k); (split; [reflexivity |]); cbn [connection with_connection].
  - destruct Hi as (x & ->%Hx & Hk). exact Hk.
  - destruct Hi as [Hk | (Hd & x & ->%Hx & Hk)]; [by left | by right].
Qed.

Lemma copy_step_runs mode exists_ odb (target sql staging backup : list Z) (e : Engine K) :
  (forall m d h, starts_with (show (Server (Some (str "42P07")) m d h)) DUPLICATE_TABLE = true) ->
  default (primary_db_name e) odb = db -> NoDup [target; staging; backup] ->
  let t := tables (connection e) in
  t !! staging = None -> t !! backup = None ->
  (exists_ = true -> is_Some (t !! target)) -> (exists_ = false -> t !! target = None \/ dead (connection e)) ->
  exists r e', copy_step show show_error mode exists_ (qualified db target) odb target sql staging backup e = Returned r e'
    /\ copied mode target staging backup sql r t (tables (connection e')) (dead (connection e'))
    /\ swept_up mode target staging r t (connection e').
Proof.
  intros Hshow Hdb Hnd t Hs Hb Ht Hf. unfold copy_step.
  assert (Hstaging : staging ∉ [target]).
  { apply list.NoDup_cons in Hnd as [[? _]%not_elem_of_cons _]. rewrite list_elem_of_singleton. by apply not_eq_sym. }
  assert (Hcreate : mode <> Append -> exists_ = false -> exists r e', create_table_as show (qualified db target) sql e = Returned r e'
            /\ copied mode target staging backup sql r t (tables (connection e')) (dead (connection e'))
            /\ swept_up mode target staging r t (connection e')).
  { intros Hm Hfalse. destruct (create_table_as_runs target sql e Hshow) as (r & e' & He & Hsame & Hpresent & Hok & Herr). exists r, e'. split; [done |].
    fold t in Hsame, Hpresent, Hok.
    assert (Hswept : swept staging (connection e')) by (left; by rewrite (Hsame staging Hstaging)).
    unfold copied, swept_up. destruct (t !! target) as [old |] eqn:Hold.
    - destruct (Hpresent (mk_is_Some _ _ eq_refl)) as [Hk Hr]. rewrite Hk. destruct mode; [done | done |].
      destruct r; [done |]. split; [split; [apply same_but_refl | by left] | done].
    - destruct mode; [| done |]; (destruct r; [split; [by apply Hok | done] | split; [done | split; [done | by apply Herr]]]). }
  destruct exists_.
  - destruct (Ht eq_refl) as [old Hold]. unfold copied, swept_up. rewrite Hold. destruct mode.
    + eexists _, e. split; [reflexivity |]. split; [done |]. split; [by left | done].
    + destruct (insert_runs target sql e old Hold) as (r & e' & He & Hi). unfold insert_sql in He. rewrite He.
      exists r, e'. split; [done |]. split; [destruct r; exact Hi |]. split; [| done]. left.
      assert (forall x : R, <[target := x]> t !! staging = None) as Hn by (intros x; by rewrite lookup_insert_ne by set_solver).
      cbn zeta in Hi. fold t in Hi. destruct r; [by rewrite Hi |]. by destruct Hi as [-> | [_ ->]].
    + destruct (replace_runs odb target staging backup sql e old Hdb Hnd Hold Hs Hb) as (r & e' & ? & ? & ?). by exists r, e'.
  - destruct mode; [by apply Hcreate | | by apply Hcreate].
    eexists _, e. split; [reflexivity |]. unfold copied, swept_up. fold t. split; [destruct (t !! target); [by left | done] |].
    split; [by left | by destruct (t !! target)].
Qed.

Lemma copy_runs mode odb (target sql staging backup : list Z) (e : Engine K) :
  (forall m d h, starts_with (show (Server (Some (str "42P07")) m d h)) DUPLICATE_TABLE = true) ->
  default (primary_db_name e) odb = db -> NoDup [target; staging; backup] ->
  let t := tables (connection e) in
  t !! staging = None -> t !! backup = None ->
  exists r e', perform_copy show show_error mode odb target sql staging backup e = Returned r e'
    /\ copied mode target staging backup sql r t (tables (connection e')) (dead (connection e'))
    /\ swept_up mode target staging r t (connection e').
Proof.
  intros Hshow Hdb Hnd t Hs Hb. unfold perform_copy, tool_bind, qualified_name. rewrite Hdb.
  destruct (target_exists_runs odb target e Hdb) as (x & e1 & -> & Ht1 & Hp & _ & Htrue & Hfalse). fold t in Ht1, Htrue, Hfalse.
  destruct x as [x | err].
  2: { exists (Err err), e1. split; [done |]. unfold copied, replaced, swept_up, swept. rewrite Ht1.
       destruct (t !! target) eqn:Ho, mode; auto 6 using same_but_refl. }
  destruct (copy_step_runs mode x odb target sql staging backup e1) as (r & e2 & -> & Hcopied & Hswept);
    try done; try (by rewrite Ht1); try (by rewrite Hp).
  { intros ->. rewrite Ht1. by apply Htrue. }
  { intros ->. rewrite Ht1. by apply Hfalse. }
  rewrite Ht1 in Hcopied, Hswept. destruct r as [[] | err]; [| by exists (Err err), e2].
  destruct (count_rows_runs odb target e2) as (n & e3 & -> & Ht3 & Hd3). exists (Ok n), e3. split; [done |].
  assert (Hclean : swept_up mode target staging (Ok n) t (connection e3)).
  { split; [left; rewrite Ht3 | by destruct (t !! target), mode]. eapply copied_staging; [| exact Hs | exact Hcopied].
    intros ->. apply list.NoDup_cons in Hnd as [Hn _]. apply Hn. by left. }
  split; [| done]. rewrite Ht3. revert Hcopied. unfold copied, replaced. by destruct (t !! target), mode.
Qed.
End proofs.

(** ** A server in memory, for the witness

    A table is the list of the queries it was filled from. Its [faults] say which of
    the next statements fail. *)
Record Desk : Type := mk_desk { held : gmap (list Z) (list (list Z)); faults : list bool }.

Definition strip (p s : list Z) : option (list Z) := if starts_with s p then Some (drop (length p) s) else None.

(** The name before the closing quote and what is behind it. *)
Fixpoint unquote (q : Z) (s : list Z) : option (list Z * list Z) :=
  match s with
  | [] => None
  | c :: s1 =>
      if c =? q then
        match s1 with
        | d :: s2 => if d =? q then (fun p => (q :: p.1, p.2)) <$> unquote q s2 else Some ([], s1)
        | [] => Some ([], [])
        end
      else (fun p => (c :: p.1, p.2)) <$> unquote q s1
  end.

Inductive Command : Type :=
| CreateAs (name sql : list Z)
| Rename (a b : list Z)
| Drop (name : list Z)
| InsertInto (name sql : list Z)
| Other.

Definition qualifier (db : list Z) : list Z := quote_ident db ++ str "." ++ quote_ident (str "public") ++ str "." ++ [34].

Definition named (db verb sql : list Z) : option (list Z * list Z) := s ← strip (verb ++ qualifier db) sql; unquote 34 s.

Definition parse_command (db sql : list Z) : Command :=
  match named db (str "CREATE TABLE ") sql with
  | Some (name, rest) => match strip (str " AS ") rest with Some body => CreateAs name body | None => Other end
  | None =>
  match named db (str "ALTER TABLE ") sql with
  | Some (a, rest) => match strip (str " RENAME TO " ++ [34]) rest ≫= unquote 34 with Some (b, []) => Rename a b | _ => Other end
  | None =>
  match named db (str "DROP TABLE IF EXISTS ") sql with
  | Some (name, _) => Drop name
  | None =>
  match named db (str "INSERT INTO ") sql with
  | Some (name, rest) => match strip (str " ") rest with Some body => InsertInto name body | None => Other end
  | None => Other
  end end end end.

Lemma strip_app p s : strip p (p ++ s) = Some s.
Proof. unfold strip, starts_with. rewrite bool_decide_true by (by exists s). by rewrite drop_app_length. Qed.

Lemma unquote_doubled q n rest : head rest <> Some q -> unquote q (double_quotes q n ++ q :: rest) = Some (n, rest).
Proof.
  intros Hr. induction n as [| c n IH]; cbn [double_quotes app].
  - cbn [unquote]. rewrite Z.eqb_refl. destruct rest as [| d rest]; [done |]. destruct (Z.eqb_spec d q); [by subst | done].
  - destruct (Z.eqb_spec c q) as [-> | Hc]; cbn [app unquote].
    + rewrite Z.eqb_refl. by rewrite IH.
    + apply Z.eqb_neq in Hc. rewrite Hc. by rewrite IH.
Qed.

Lemma named_qualified db verb name rest : head rest <> Some 34 -> named db verb (verb ++ qualified db name ++ rest) = Some (name, rest).
Proof.
  intros Hr. unfold named, qualified, quote_ident at 3, quoted.
  replace (verb ++ (quote_ident db ++ str "." ++ quote_ident (str "public") ++ str "." ++ 34 :: double_quotes 34 name ++ [34]) ++ rest)
    with ((verb ++ qualifier db) ++ double_quotes 34 name ++ 34 :: rest)
    by (unfold qualifier; rewrite <- !app_assoc; cbn [app]; rewrite <- !app_assoc; done).
  rewrite strip_app. cbn [mbind option_bind]. by apply unquote_doubled.
Qed.

(** Two verbs that differ at their first char. *)
Lemma named_other db verb c s : head verb <> Some c -> verb <> [] -> named db verb (c :: s) = None.
Proof.
  intros Hc Hv. unfold named, strip, starts_with. destruct verb as [| d verb]; [done |].
  rewrite bool_decide_false; [done |]. intros [k Hk]. cbn in Hk, Hc. congruence.
Qed.

Lemma parse_create db name sql : parse_command db (create_as_sql db name sql) = CreateAs name sql.
Proof. unfold parse_command, create_as_sql. rewrite named_qualified by done. by rewrite strip_app. Qed.

Ltac other_verb := rewrite (named_other _ _ _ _) by done.

Lemma parse_rename db a b : parse_command db (rename_sql (qualified db a) b) = Rename a b.
Proof.
  unfold parse_command, rename_sql. change (str "ALTER TABLE ") with (65 :: str "LTER TABLE ") at 1. cbn [app]. other_verb.
  change (65 :: str "LTER TABLE " ++ ?x) with (str "ALTER TABLE " ++ x). rewrite named_qualified by done.
  replace (str " RENAME TO " ++ quote_ident b) with ((str " RENAME TO " ++ [34]) ++ double_quotes 34 b ++ 34 :: [])
    by (unfold quote_ident, quoted; by rewrite <- app_assoc).
  rewrite strip_app. cbn [mbind option_bind]. by rewrite unquote_doubled.
Qed.

Lemma parse_drop db name : parse_command db (drop_sql db name) = Drop name.
Proof.
  unfold parse_command, drop_sql. change (str "DROP TABLE IF EXISTS ") with (68 :: str "ROP TABLE IF EXISTS ") at 1 2. cbn [app].
  do 2 other_verb. change (68 :: str "ROP TABLE IF EXISTS " ++ ?x) with (str "DROP TABLE IF EXISTS " ++ x).
  rewrite <- (app_nil_r (qualified db name)). by rewrite named_qualified.
Qed.

Lemma parse_insert db name sql : parse_command db (insert_sql db name sql) = InsertInto name sql.
Proof.
  unfold parse_command, insert_sql. change (str "INSERT INTO ") with (73 :: str "NSERT INTO ") at 1 2 3. cbn [app].
  do 3 other_verb. change (73 :: str "NSERT INTO " ++ ?x) with (str "INSERT INTO " ++ x).
  rewrite named_qualified by done. by rewrite strip_app.
Qed.

Definition duplicate : Api.Error := Server (Some (str "42P07")) (str "exists") None None.
Definition undefined : Api.Error := Server (Some (str "42P01")) (str "missing") None None.

Definition desk_run (db sql : list Z) (d : Desk) : result Z Api.Error * Desk :=
  let t := held d in
  let fails := default false (head (faults d)) in
  let next t := mk_desk t (tail (faults d)) in
  match parse_command db sql with
  | CreateAs name body =>
      match t !! name with
      | Some _ => (Err duplicate, next t)
      | None => if fails then (Err fault, next (<[name := []]> t)) else (Ok 0, next (<[name := [body]]> t))
      end
  | Rename a b =>
      match t !! a, t !! b with
      | Some x, None => if fails then (Err fault, next t) else (Ok 0, next (<[b := x]> (delete a t)))
      | _, _ => (Err fault, next t)
      end
  | Drop name => if fails then (Err fault, next t) else (Ok 0, next (delete name t))
  | InsertInto name body =>
      match t !! name with
      | Some x => if fails then (Err fault, next t) else (Ok 1, next (<[name := x ++ [body]]> t))
      | None => (Err fault, next t)
      end
  | Other => (if fails then Err fault else Ok 0, next t)
  end.

Definition desk_query (db sql : list Z) (d : Desk) : result (list JsonRow) Api.Error * Desk :=
  match named db (str "SELECT 1 FROM ") sql with
  | Some (name, _) => (match held d !! name with Some _ => Ok [] | None => Err undefined end, d)
  | None => (Ok [], d)
  end.

#[export] Instance desk_connection (db : list Z) : McpConnection Desk := {
  mcp_client := {| run sql d := Val (desk_run db sql d); close_client d := Val (Ok tt, d) |};
  query_json sql d := Val (desk_query db sql d);
  path_exists _ _ := true;
}.

#[export] Instance desk_server show db : @TableServer Desk (list (list Z)) (desk_connection db) show db.
Proof.
  refine {| tables := held; dead _ := False; answer sql _ := [sql]; appended x y := x ++ y |}.
  - intros sql k. eexists _, _. exact (f_equal Val (surjective_pairing _)).
  - intros sql k. eexists _, _. exact (f_equal Val (surjective_pairing _)).
  - done.
  - intros sql k r k'. cbn [query_json desk_connection run mcp_client]. unfold desk_query. destruct (named _ _ _) as [[name rest] |]; intros [= <- <-]; by split.
  - intros name k r k'. cbn [query_json desk_connection run mcp_client]. unfold desk_query, probe_sql. rewrite named_qualified by done.
    destruct (held k !! name) eqn:Hn; intros [= <- <-]; [done | by left].
  - intros name sql k r k'. cbn [query_json desk_connection run mcp_client]. unfold desk_run. rewrite parse_create. destruct (held k !! name) eqn:Hn; [| destruct (default _ _)];
      intros [= <- <-]; cbn [held]; [| eauto 10 | done].
    left. split; [done |]. intros _. right. by eexists _, _, _.
  - intros a b k r k'. cbn [query_json desk_connection run mcp_client]. unfold desk_run. rewrite parse_rename.
    destruct (held k !! a) eqn:Ha, (held k !! b) eqn:Hb; try destruct (default _ _); intros [= <- <-]; cbn [held]; eauto 10.
  - intros name k r k'. cbn [query_json desk_connection run mcp_client]. unfold desk_run. rewrite parse_drop. destruct (default _ _); intros [= <- <-]; cbn [held]; auto.
  - intros name sql k r k'. cbn [query_json desk_connection run mcp_client]. unfold desk_run. rewrite parse_insert. destruct (held k !! name) eqn:Hn; [destruct (default _ _) |];
      intros [= <- <-]; cbn [held]; eauto 10.
Defined.

(** ** The property *)

(** C10. [copy_query] never loses rows and cleans up. Whatever statement fails, and whenever
    the connection dies, a copy touches no table but its target and its two scratch
    tables, whose names it does not share with any table. [create] leaves a target
    that exists as it was; [append] adds the rows of the query or none; and after
    [replace] the target holds the rows of the query, as they were when the copy
    began, or, with an error, its old rows, or else the old rows are in the backup
    table and the connection is dead or the error names that table. In every case the
    staging table is gone, unless the DROP that comes last, when the guard is dropped,
    failed; and so is, after an error, a target that was not there before and that the
    server had begun to fill. *)
Theorem copy_keeps_data {K R} `{!McpConnection K} show_io debug_str debug_type show_error (db : list Z)
    `{!TableServer K R (display show_io debug_str debug_type) db} mode odb (target sql : list Z) (pid nanos nanos' counter : Z) (e : Engine K) :
  default (primary_db_name e) odb = db -> 0 <= counter ->
  let staging := scratch_name COPY_PREFIX target pid nanos counter in
  let backup := scratch_name (COPY_PREFIX ++ str "bak_") target pid nanos' (counter + 1) in
  let t := tables (db := db) (connection e) in
  t !! staging = None -> t !! backup = None ->
  exists r e', perform_copy (display show_io debug_str debug_type) show_error mode odb target sql staging backup e = Returned r e'
    /\ copied (display show_io debug_str debug_type) db mode target staging backup sql r t (tables (db := db) (connection e')) (dead (connection e'))
    /\ swept_up (display show_io debug_str debug_type) db mode target staging r t (connection e').
Proof.
  intros Hdb Hc staging backup t Hs Hb. apply copy_runs; try done.
  rewrite !list.NoDup_cons, !not_elem_of_cons.
  split_and!; try apply not_elem_of_nil; try apply list.NoDup_nil; try done.
  - apply not_eq_sym, scratch_not_target.
  - apply not_eq_sym, scratch_not_target.
  - apply scratch_names_differ; lia.
Qed.

(** The statements after the CREATE TABLE fail one after the other. *)
Definition sample_desk : Desk := mk_desk {[ str "t" := [str "SELECT 1"] ]} [false; false; true; true].
Definition sample_engine : Engine Desk := mk_engine sample_desk false (str "/tmp/scratch.hyper") None false ∅.
Definition sample_staging : list Z := scratch_name COPY_PREFIX (str "t") 7 11 0.
Definition sample_backup : list Z := scratch_name (COPY_PREFIX ++ str "bak_") (str "t") 7 12 1.

Definition sample_show : Api.Error -> list Z := display (fun _ => []) (fun s => s) (fun _ => []).
Definition sample_server : @TableServer Desk (list (list Z)) (desk_connection (str "scratch")) sample_show (str "scratch") :=
  desk_server sample_show (str "scratch").

Lemma copy_keeps_data_witness :
  held sample_desk !! sample_staging = None /\ held sample_desk !! sample_backup = None
  /\ exists r e',
    @perform_copy Desk (desk_connection (str "scratch")) sample_show message Replace None
      (str "t") (str "SELECT 2") sample_staging sample_backup sample_engine = Returned r e'
    /\ @copied Desk _ _ sample_show (str "scratch") sample_server Replace (str "t") sample_staging sample_backup
         (str "SELECT 2") Z r (held sample_desk) (held (connection e')) False
    /\ @swept_up Desk _ _ sample_show (str "scratch") sample_server Replace (str "t") sample_staging Z r (held sample_desk) (connection e').
Proof.
  split; [vm_compute; reflexivity |]. split; [vm_compute; reflexivity |].
  exact (@copy_keeps_data Desk (list (list Z)) (desk_connection (str "scratch")) (fun _ => []) (fun s => s) (fun _ => []) message
           (str "scratch") sample_server Replace None (str "t") (str "SELECT 2")
           7 11 12 0 sample_engine eq_refl ltac:(lia) ltac:(vm_compute; reflexivity) ltac:(vm_compute; reflexivity)).
Defined.
