(* ===== verification/TableCatalog.v ===== *)
(** * The table catalog of the MCP server

    [hyperdb-mcp/src/table_catalog.rs]: every database a tool loads into has a table
    [_table_catalog] with a row per user table. The engine is that of [Engine]; the
    clock, and the parsers of timestamps, which belong to chrono, are parameters. *)

From stdpp Require Import strings gmap.
From S2P Require Import Prelude Text SqlEscape Connection Api Session McpErrors Engine.

Definition TABLE_CATALOG_TABLE : list Z := str "_table_catalog".

(** ** Routing *)

Definition resolve_catalog_alias (has_persistent : bool) (target_db : option (list Z)) : option (list Z) :=
  match target_db with
  | None | Some [] => if has_persistent then Some PERSISTENT_ALIAS else None
  | Some a =>
      if eq_ignore_ascii_case a PERSISTENT_ALIAS then if has_persistent then Some PERSISTENT_ALIAS else None
      else Some (to_ascii_lowercase a)
  end.

Definition catalog_of (alias : list Z) : list Z :=
  quote_ident alias ++ str "." ++ quote_ident (str "public") ++ str "." ++ quote_ident TABLE_CATALOG_TABLE.

Definition qualified_catalog_in (has_persistent : bool) (target_db : option (list Z)) : option (list Z) :=
  let alias := match target_db with
               | None | Some [] => if has_persistent then Some PERSISTENT_ALIAS else None
               | Some a =>
                   if eq_ignore_ascii_case a PERSISTENT_ALIAS
                   then if negb has_persistent then None else Some PERSISTENT_ALIAS
                   else Some (to_ascii_lowercase a)
               end in
  catalog_of <$> alias.

(** ** Entries *)

Record CatalogEntry (Time : Type) : Type := mk_entry {
  table_name : list Z;
  source_url : option (list Z);
  source_description : option (list Z);
  purpose : option (list Z);
  load_tool : option (list Z);
  load_params : option (list Z);
  license : option (list Z);
  loaded_at : Time;
  last_refreshed_at : Time;
  row_count : option Z;
  notes : option (list Z);
  created_by : option (list Z);
  last_modified_by : option (list Z);
  data_url : option (list Z);
}.
Arguments mk_entry {Time} _ _ _ _ _ _ _ _ _ _ _ _ _ _.
Arguments table_name {Time} _.
Arguments row_count {Time} _.

Record MetadataFields : Type := mk_fields {
  set_source_url : option (list Z);
  set_source_description : option (list Z);
  set_purpose : option (list Z);
  set_license : option (list Z);
  set_notes : option (list Z);
  set_data_url : option (list Z);
}.

Definition is_none {A} (o : option A) : bool := match o with None => true | Some _ => false end.

Definition is_empty (f : MetadataFields) : bool :=
  is_none (set_source_url f) && is_none (set_source_description f) && is_none (set_purpose f)
  && is_none (set_license f) && is_none (set_notes f) && is_none (set_data_url f).

(** ** The names that are not the user's *)

Definition HYPERDB_INTERNAL_PREFIX : list Z := str "_hyperdb_".
Definition INTERNAL_SCRATCH_PREFIXES : list (list Z) := [str "_tmp_"; str "__hyperdb_merge_"; str "__hyperdb_copy_"].

Definition is_internal_table (name : list Z) : bool :=
  starts_with name HYPERDB_INTERNAL_PREFIX || existsb (starts_with name) INTERNAL_SCRATCH_PREFIXES.

(** ** A [BTreeMap] of names *)

(** The order of [str], which for UTF-8 is that of the chars. *)
Fixpoint str_lt (s t : list Z) : bool :=
  match s, t with
  | _, [] => false
  | [], _ :: _ => true
  | a :: s, b :: t => (a <? b) || ((a =? b) && str_lt s t)
  end.

Definition Names : Type := list (list Z * list Z).

Fixpoint btree_insert (name alias : list Z) (m : Names) : Names :=
  match m with
  | [] => [(name, alias)]
  | (n, a) :: rest =>
      if bool_decide (name = n) then (n, alias) :: rest
      else if str_lt name n then (name, alias) :: m
      else (n, a) :: btree_insert name alias rest
  end.

(** ** SQL *)

Definition CATALOG_COLUMNS : list Z :=
  str "(table_name         TEXT NOT NULL, source_url         TEXT, source_description TEXT, purpose            TEXT, load_tool          TEXT, load_params        TEXT, license            TEXT, loaded_at          TIMESTAMP NOT NULL, last_refreshed_at  TIMESTAMP NOT NULL, row_count          BIGINT, notes              TEXT, created_by         TEXT, last_modified_by   TEXT, data_url           TEXT)".

Definition create_catalog_sql (qualified : list Z) : list Z :=
  str "CREATE TABLE IF NOT EXISTS " ++ qualified ++ str " " ++ CATALOG_COLUMNS.

Definition ADDED_COLUMNS : list (list Z) := [str "created_by TEXT"; str "last_modified_by TEXT"; str "data_url TEXT"].

Definition ENTRY_COLUMNS : list Z :=
  str "table_name, source_url, source_description, purpose, load_tool, load_params, license, loaded_at, last_refreshed_at, row_count, notes, created_by, last_modified_by, data_url".

Definition sql_literal_or_null_if_empty (s : list Z) : list Z := match s with [] => str "NULL" | _ => sql_literal s end.
Definition opt_sql_literal (v : option (list Z)) : list Z := match v with Some s => sql_literal s | None => str "NULL" end.
Definition count_sql (n : option Z) : list Z := match n with Some n => fmt_i n | None => str "NULL" end.

(** ** Operations *)

Fixpoint collect {A E} (l : list (result A E)) : result (list A) E :=
  match l with
  | [] => Ok []
  | Err e :: _ => Err e
  | Ok a :: l => match collect l with Ok l => Ok (a :: l) | Err e => Err e end
  end.

(** [for x in l { m(x)?; }]. *)
Fixpoint for_each {S A} (l : list A) (m : A -> Tool S unit) : Tool S unit :=
  match l with
  | [] => ret tt
  | x :: l => let> _ := m x in for_each l m
  end.

Section catalog.
Context {K : Type} `{McpConnection K} (show : Api.Error -> list Z).
Context {Time : Type} (parse_rfc3339 parse_naive_fraction parse_naive : list Z -> option Time) (parse_error : list Z -> list Z).

Definition parse_timestamp (s : list Z) : result Time McpError :=
  match parse_rfc3339 s with
  | Some t => Ok t
  | None =>
      match parse_naive_fraction s with
      | Some t => Ok t
      | None =>
          match parse_naive s with
          | Some t => Ok t
          | None => Err (new InternalError (str "Could not parse timestamp '" ++ s ++ str "': " ++ parse_error s))
          end
      end
  end.

Definition str_field (row : JsonRow) (name : list Z) : option (list Z) := field row name ≫= as_str.

Definition row_to_entry (row : JsonRow) : result (CatalogEntry Time) McpError :=
  match str_field row (str "table_name") with
  | None => Err (new InternalError (str "_table_catalog row missing 'table_name'"))
  | Some name =>
      match parse_timestamp (default [] (str_field row (str "loaded_at"))) with
      | Err e => Err e
      | Ok loaded_at =>
          match parse_timestamp (default [] (str_field row (str "last_refreshed_at"))) with
          | Err e => Err e
          | Ok last_refreshed_at =>
              Ok (mk_entry name (str_field row (str "source_url")) (str_field row (str "source_description"))
                    (str_field row (str "purpose")) (str_field row (str "load_tool")) (str_field row (str "load_params"))
                    (str_field row (str "license")) loaded_at last_refreshed_at (field row (str "row_count") ≫= as_i64)
                    (str_field row (str "notes")) (str_field row (str "created_by")) (str_field row (str "last_modified_by"))
                    (str_field row (str "data_url")))
          end
      end
  end.

(** What a routing needs of the engine it runs on. *)
Definition routed {A B} (route : bool -> option A) (m : option A -> Tool (Engine K) B) : Tool (Engine K) B := fun e =>
  m (route (has_persistent e)) e.

Definition ensure_exists_in (target_db : option (list Z)) : Tool (Engine K) unit :=
  routed (fun p => qualified_catalog_in p target_db) (fun q =>
    match q with
    | None => ret tt
    | Some qualified =>
        let> _ := execute_command show (create_catalog_sql qualified) in
        let> _ := for_each ADDED_COLUMNS (fun col =>
                    let> _ := attempt (execute_command show (str "ALTER TABLE " ++ qualified ++ str " ADD COLUMN " ++ col)) in ret tt) in
        routed (fun p => resolve_catalog_alias p target_db) (fun a =>
          match a with Some alias => mark_catalog_present_for alias | None => ret tt end)
    end).

Definition table_present_in (target_db : option (list Z)) : Tool (Engine K) bool :=
  routed (fun p => resolve_catalog_alias p target_db) (fun a =>
    match a with
    | None => ret false
    | Some alias =>
        catalog_present_in alias
          (let> rows := execute_query_to_json show
                          (str "SELECT tablename FROM " ++ quote_ident alias
                           ++ str ".pg_catalog.pg_tables WHERE schemaname = 'public' AND tablename = " ++ sql_literal TABLE_CATALOG_TABLE) in
           ret (match rows with [] => false | _ => true end))
    end).

Definition list_in (target_db : option (list Z)) : Tool (Engine K) (list (CatalogEntry Time)) :=
  routed (fun p => qualified_catalog_in p target_db) (fun q =>
    match q with
    | None => ret []
    | Some qualified =>
        let> present := table_present_in target_db in
        if negb present then ret []
        else
          let> rows := execute_query_to_json show (str "SELECT " ++ ENTRY_COLUMNS ++ str " FROM " ++ qualified ++ str " ORDER BY table_name") in
          lift (collect (row_to_entry <$> rows))
    end).

Definition get_in (name : list Z) (target_db : option (list Z)) : Tool (Engine K) (option (CatalogEntry Time)) :=
  routed (fun p => qualified_catalog_in p target_db) (fun q =>
    match q with
    | None => ret None
    | Some qualified =>
        let> present := table_present_in target_db in
        if negb present then ret None
        else
          let> rows := execute_query_to_json show
                         (str "SELECT " ++ ENTRY_COLUMNS ++ str " FROM " ++ qualified ++ str " WHERE table_name = " ++ sql_literal name) in
          match rows with
          | row :: _ => let> entry := lift (row_to_entry row) in ret (Some entry)
          | [] => ret None
          end
    end).

(** [now] is the clock, formatted. *)
Definition upsert_stub_in (now name load_tool : list Z) (load_params : option (list Z)) (row_count : option Z) (bump_refresh : bool)
    (target_db client_name : option (list Z)) : Tool (Engine K) unit :=
  let> _ := ensure_exists_in target_db in
  routed (fun p => qualified_catalog_in p target_db) (fun q =>
    match q with
    | None => ret tt
    | Some qualified =>
        let set_clauses :=
          str "load_tool = " ++ sql_literal load_tool ++ str ", load_params = " ++ opt_sql_literal load_params
          ++ str ", row_count = " ++ count_sql row_count
          ++ (if bump_refresh then str ", last_refreshed_at = TIMESTAMP " ++ sql_literal now else [])
          ++ match client_name with Some n => str ", last_modified_by = " ++ sql_literal n | None => [] end in
        let> updated := execute_command show
                          (str "UPDATE " ++ qualified ++ str " SET " ++ set_clauses ++ str " WHERE table_name = " ++ sql_literal name) in
        if updated =? 0 then
          let> _ := execute_command show
            (str "INSERT INTO " ++ qualified
             ++ str " (table_name, source_url, source_description, purpose, load_tool, load_params, license, loaded_at, last_refreshed_at, row_count, notes, created_by, last_modified_by, data_url) SELECT "
             ++ sql_literal name ++ str ", NULL, NULL, NULL, " ++ sql_literal load_tool ++ str ", " ++ opt_sql_literal load_params
             ++ str ", NULL, TIMESTAMP " ++ sql_literal now ++ str ", TIMESTAMP " ++ sql_literal now ++ str ", " ++ count_sql row_count
             ++ str ", NULL, " ++ opt_sql_literal client_name ++ str ", " ++ opt_sql_literal client_name
             ++ str ", NULL WHERE NOT EXISTS (SELECT 1 FROM " ++ qualified ++ str " WHERE table_name = " ++ sql_literal name ++ str ")") in
          ret tt
        else ret tt
    end).

Definition assignments (fields : MetadataFields) : list (list Z) :=
  let one name v := match v with Some v => [str name ++ str " = " ++ sql_literal_or_null_if_empty v] | None => [] end in
  one "source_url"%string (set_source_url fields) ++ one "source_description"%string (set_source_description fields)
  ++ one "purpose"%string (set_purpose fields) ++ one "license"%string (set_license fields)
  ++ one "notes"%string (set_notes fields) ++ one "data_url"%string (set_data_url fields).

Definition no_entry (name : list Z) (target_db : option (list Z)) : McpError :=
  new TableNotFound
    (str "No catalog entry for table '" ++ name ++ str "'"
     ++ match target_db with
        | Some alias => if eq_ignore_ascii_case alias PERSISTENT_ALIAS then [] else str " in database '" ++ alias ++ str "'"
        | None => []
        end
     ++ str ". Load the table first (load_file / load_data / execute CREATE TABLE) or create it and re-run; the catalog is refreshed automatically on those paths.").

Definition set_metadata_in (name : list Z) (fields : MetadataFields) (target_db : option (list Z)) : Tool (Engine K) (CatalogEntry Time) :=
  if is_empty fields
  then fail (new EmptyData (str "set_table_metadata requires at least one of source_url, source_description, purpose, license, notes, data_url"))
  else
    let> existing := get_in name target_db in
    match existing with
    | None => fail (no_entry name target_db)
    | Some existing =>
        routed (fun p => qualified_catalog_in p target_db) (fun q =>
          match q with
          | None => fail (new ReadOnlyViolation
                            (str "set_table_metadata is unavailable in --ephemeral-only mode because the catalog has nowhere durable to live."))
          | Some qualified =>
              let> _ := execute_command show
                          (str "UPDATE " ++ qualified ++ str " SET " ++ join (str ", ") (assignments fields)
                           ++ str " WHERE table_name = " ++ sql_literal name) in
              let> entry := get_in name target_db in
              ret (default existing entry)
          end)
    end.

Definition delete_for_in (name : list Z) (target_db : option (list Z)) : Tool (Engine K) bool :=
  routed (fun p => qualified_catalog_in p target_db) (fun q =>
    match q with
    | None => ret false
    | Some qualified =>
        let> present := table_present_in target_db in
        if negb present then ret false
        else
          let> affected := execute_command show (str "DELETE FROM " ++ qualified ++ str " WHERE table_name = " ++ sql_literal name) in
          ret (0 <? affected)
    end).

(** ** Reconciliation *)

Definition public_tables_in (alias : list Z) : Tool (Engine K) (list (list Z)) :=
  let> rows := execute_query_to_json show
                 (str "SELECT tablename FROM " ++ quote_ident alias ++ str ".pg_catalog.pg_tables WHERE schemaname = 'public'") in
  ret (filter (fun name => bool_decide (name <> TABLE_CATALOG_TABLE) && negb (is_internal_table name) = true)
         (omap (fun r => str_field r (str "tablename")) rows)).

Definition insert_all (names : list (list Z)) (alias : list Z) (live : Names) : Names :=
  foldl (fun live name => btree_insert name alias live) live names.

Definition reconcile_live_tables (target_db : option (list Z)) : Tool (Engine K) Names :=
  routed (fun p => resolve_catalog_alias p target_db) (fun a =>
    match a with
    | None => ret []
    | Some alias =>
        if bool_decide (alias = PERSISTENT_ALIAS) then fun e =>
          let primary := primary_db_name e in
          (let> mine := public_tables_in primary in
           let> persistent := public_tables_in PERSISTENT_ALIAS in
           ret (insert_all persistent PERSISTENT_ALIAS (insert_all mine primary []))) e
        else let> names := public_tables_in alias in ret (insert_all names alias [])
    end).

Definition row_count_qualified (alias name : list Z) : Tool (Engine K) Z :=
  let> rows := execute_query_to_json show
                 (str "SELECT COUNT(*) AS cnt FROM " ++ quote_ident alias ++ str "." ++ quote_ident (str "public") ++ str "." ++ quote_ident name) in
  ret (match rows with row :: _ => default 0 (field row (str "cnt") ≫= as_i64) | [] => 0 end).

(** [row_count_qualified(..).ok()]. *)
Definition counted (alias name : list Z) : Tool (Engine K) (option Z) :=
  let> r := attempt (row_count_qualified alias name) in ret (match r with Ok n => Some n | Err _ => None end).

Definition refresh_row_count_in (name : list Z) (row_count : option Z) (target_db : option (list Z)) : Tool (Engine K) unit :=
  routed (fun p => qualified_catalog_in p target_db) (fun q =>
    match q with
    | None => ret tt
    | Some qualified =>
        let> _ := execute_command show
                    (str "UPDATE " ++ qualified ++ str " SET row_count = " ++ count_sql row_count
                     ++ str " WHERE table_name = " ++ sql_literal name) in
        ret tt
    end).

Definition rename_catalog_entry (old_name new_name : list Z) (target_db : option (list Z)) : Tool (Engine K) unit :=
  routed (fun p => qualified_catalog_in p target_db) (fun q =>
    match q with
    | None => ret tt
    | Some qualified =>
        let> _ := execute_command show
                    (str "UPDATE " ++ qualified ++ str " SET table_name = " ++ sql_literal new_name
                     ++ str " WHERE table_name = " ++ sql_literal old_name) in
        ret tt
    end).

(** The counts of the candidates, in order. *)
Fixpoint count_all (candidates : Names) : Tool (Engine K) (list (list Z * option Z)) :=
  match candidates with
  | [] => ret []
  | (name, alias) :: rest =>
      let> n := counted alias name in
      let> counts := count_all rest in
      ret ((name, n) :: counts)
  end.

(** The new table that an entry that disappeared was renamed to, if both are the only
    ones with their row count. *)
Definition rename_of (disappeared : list (CatalogEntry Time)) (counts : list (list Z * option Z)) (renamed : list (list Z * list Z))
    (entry : CatalogEntry Time) : option (list Z) :=
  rc ← row_count entry;
  if (length (filter (fun e => row_count e = Some rc) disappeared) =? 1)%nat then
    match filter (fun c => c.2 = Some rc /\ c.1 ∉ renamed.*2) counts with
    | [c] => Some c.1
    | _ => None
    end
  else None.

(** The loop over the entries that disappeared; the pairs renamed so far. *)
Fixpoint rename_loop (all disappeared : list (CatalogEntry Time)) (counts : list (list Z * option Z)) (target_db : option (list Z))
    (renamed : list (list Z * list Z)) : Tool (Engine K) (list (list Z * list Z)) :=
  match disappeared with
  | [] => ret renamed
  | entry :: rest =>
      match rename_of all counts renamed entry with
      | None => rename_loop all rest counts target_db renamed
      | Some new_name =>
          let> r := attempt (rename_catalog_entry (table_name entry) new_name target_db) in
          rename_loop all rest counts target_db
            (match r with Ok _ => (table_name entry, new_name) :: renamed | Err _ => renamed end)
      end
  end.

(** What is done once the live tables and the entries are known. *)
Definition reconcile_entries (now : list Z) (target_db : option (list Z)) (live : Names) (entries : list (CatalogEntry Time)) : Tool (Engine K) unit :=
  let names := table_name <$> entries in
  let disappeared := filter (fun e => table_name e ∉ live.*1) entries in
  let new_tables := filter (fun p => p.1 ∉ names) live in
  routed (fun p => resolve_catalog_alias p target_db) (fun catalog_alias =>
    let candidates := filter (fun p => Some p.2 = catalog_alias) new_tables in
    let> renamed := (match disappeared, candidates with
                     | [], _ | _, [] => ret []
                     | _, _ =>
                         let> counts := count_all candidates in
                         rename_loop disappeared disappeared counts target_db []
                     end) in
    let> _ := for_each (filter (fun e => table_name e ∉ renamed.*1) disappeared) (fun e =>
                let> _ := delete_for_in (table_name e) target_db in ret tt) in
    let> _ := for_each (filter (fun p => p.1 ∉ renamed.*2) new_tables) (fun p =>
                let> n := counted p.2 p.1 in
                upsert_stub_in now p.1 (str "unknown") None n false target_db None) in
    for_each (filter (fun p => p.1 ∈ names) live) (fun p =>
      let> n := counted p.2 p.1 in
      refresh_row_count_in p.1 n target_db)).

Definition reconcile_in (now : list Z) (target_db : option (list Z)) : Tool (Engine K) unit :=
  let> _ := ensure_exists_in target_db in
  let> live := reconcile_live_tables target_db in
  let> entries := list_in target_db in
  reconcile_entries now target_db live entries.
End catalog.
