(* ===== verification/Keeps.v ===== *)
(** * What the operations of the catalog keep

    An operation keeps a predicate on the engine if it returns, whatever the result,
    in a state that still has it. Whatever every statement of the catalog, every query
    and the cache keep, the operations of [TableCatalog] keep. *)

From stdpp Require Import strings gmap.
From S2P Require Import Prelude Text SqlEscape Connection Api Session McpErrors Engine TableCatalog.

(** ** Steps of an engine *)

Section like.
Context {K : Type} `{!McpConnection K}.

(** The same engine, with its connection where requests have taken it. *)
Record like (e e' : Engine K) : Prop := {
  like_ephemeral : ephemeral_path e' = ephemeral_path e;
  like_persistent : persistent_path e' = persistent_path e;
  like_reaches : reaches (connection e) (connection e');
}.

#[export] Instance like_preorder : PreOrder like.
Proof. split; [by intros e | intros e1 e2 e3 [? ? ?] [? ? ?]; split; [congruence | congruence | by etrans]]. Qed.

Lemma like_run sql (e : Engine K) r k : run sql (connection e) = Val (r, k) -> like e (with_connection e k).
Proof. intros Hr. split; [done | done | by eapply rtc_once, ByCommand]. Qed.

Lemma like_query sql (e : Engine K) r k : query_json sql (connection e) = Val (r, k) -> like e (with_connection e k).
Proof. intros Hr. split; [done | done | by eapply rtc_once, ByQuery]. Qed.

Lemma like_cache (e : Engine K) cache : like e (with_cache e cache).
Proof. by split. Qed.

(** A step of the engine that returns and keeps [I]. *)
Definition keeps {A} (I : Engine K -> Prop) (m : Tool (Engine K) A) : Prop :=
  forall e, I e -> exists r e', m e = Returned r e' /\ like e e' /\ I e'.

Section keeps.
Context (I : Engine K -> Prop).

Lemma keeps_ret {A} (a : A) : keeps I (ret a).
Proof. intros e H. by exists (Ok a), e. Qed.

Lemma keeps_fail {A} err : keeps (A := A) I (fail err).
Proof. intros e H. by exists (Err err), e. Qed.

Lemma keeps_bind {A B} (m : Tool (Engine K) A) (f : A -> Tool (Engine K) B) :
  keeps I m -> (forall a, keeps I (f a)) -> keeps I (tool_bind m f).
Proof.
  intros Hm Hf e H. destruct (Hm e H) as (r & e1 & Hr & H1 & Hs1). unfold tool_bind. rewrite Hr.
  destruct r as [a | err]; [| by exists (Err err), e1]. destruct (Hf a e1 Hs1) as (r & e2 & -> & H2 & Hs2).
  exists r, e2. split_and!; [done | by trans e1 | done].
Qed.

Lemma keeps_attempt {A} (m : Tool (Engine K) A) : keeps I m -> keeps I (attempt m).
Proof. intros Hm e H. destruct (Hm e H) as (r & e1 & Hr & ? & ?). unfold attempt. rewrite Hr. by exists (Ok r), e1. Qed.

Lemma keeps_for_each {A} (l : list A) (m : A -> Tool (Engine K) unit) : (forall x, x ∈ l -> keeps I (m x)) -> keeps I (for_each l m).
Proof.
  induction l as [| x l IH]; intros Hm; [apply keeps_ret |]. apply keeps_bind; [apply Hm; by left |].
  intros _. apply IH. intros y Hy. apply Hm. by right.
Qed.

(** What reads the state it starts from. *)
Lemma keeps_reads {A} (m : Engine K -> Tool (Engine K) A) : (forall e, keeps I (m e)) -> keeps I (fun e => m e e).
Proof. intros Hm e. apply Hm. Qed.

Lemma keeps_routed {A B} (route : bool -> option A) (m : option A -> Tool (Engine K) B) :
  (forall a, keeps I (m a)) -> keeps I (routed route m).
Proof. intros Hm e. apply Hm. Qed.
End keeps.
End like.

(** ** Statements *)

(** Statements that neither attach nor detach, nor set the search path, by how they
    begin. *)
Definition ASIDE : list (list Z) :=
  str <$> ["CREATE SCHEMA "; "CREATE DATABASE "; "CREATE TABLE "; "ALTER TABLE "; "UPDATE "; "INSERT INTO "; "DELETE FROM "]%string.

Definition aside (sql : list Z) : Prop := exists verb rest, verb ∈ ASIDE /\ sql = verb ++ rest.

Lemma aside_catalog q : aside (create_catalog_sql q).
Proof. exists (str "CREATE TABLE "), (str "IF NOT EXISTS " ++ q ++ str " " ++ CATALOG_COLUMNS). split; [apply (bool_decide_unpack _); vm_compute |]; done. Qed.

Lemma aside_verb n verb rest : ASIDE !! n = Some verb -> aside (verb ++ rest).
Proof. intros H. exists verb, rest. split; [by eapply list_elem_of_lookup_2 | done]. Qed.

(** ** The operations of the catalog *)

Section catalog.
Context {K : Type} `{!McpConnection K} (show : Api.Error -> list Z).
Context {Time : Type} (parse_rfc3339 parse_naive_fraction parse_naive : list Z -> option Time) (parse_error : list Z -> list Z).
Context (I : Engine K -> Prop).
Context (Haside : forall conv sql, aside sql -> keeps I (on_connection (run sql) conv)).
Context (Hquery : forall sql, keeps I (execute_query_to_json show sql)).
Context (Hcache : forall e cache, I e -> I (with_cache e cache)).

Lemma kept_cache (f : gmap (list Z) bool -> gmap (list Z) bool) :
  keeps I (fun e => Returned (Ok tt) (with_cache e (f (catalog_present_cache e)))).
Proof. intros e H. eexists _, _. split; [done |]. split; [done | by apply Hcache]. Qed.

Lemma kept_present alias prober : keeps I prober -> keeps I (catalog_present_in alias prober).
Proof.
  intros Hp. unfold catalog_present_in. intros e H. destruct (catalog_present_cache e !! to_ascii_lowercase alias); [by exists (Ok b), e |].
  destruct (Hp e H) as (r & e1 & Hr & H1 & Hs1). unfold tool_bind. rewrite Hr.
  destruct r as [b | err]; [| by exists (Err err), e1]. eexists _, _. split; [reflexivity |]. split; [by trans e1 | by apply Hcache].
Qed.

Lemma kept_update rest : keeps I (execute_command show (str "UPDATE " ++ rest)).
Proof. by eapply Haside, (aside_verb 4). Qed.
Lemma kept_insert rest : keeps I (execute_command show (str "INSERT INTO " ++ rest)).
Proof. by eapply Haside, (aside_verb 5). Qed.
Lemma kept_delete rest : keeps I (execute_command show (str "DELETE FROM " ++ rest)).
Proof. by eapply Haside, (aside_verb 6). Qed.

Lemma kept_lift {A} (r : result A McpError) : keeps I (lift r).
Proof. intros e H. by exists r, e. Qed.

Lemma kept_ensure target : keeps I (ensure_exists_in show target).
Proof.
  apply keeps_routed. intros [q |]; [| apply keeps_ret]. apply keeps_bind; [apply Haside, aside_catalog |].
  intros _. apply keeps_bind.
  { apply keeps_for_each. intros col _. apply keeps_bind; [| intros _; apply keeps_ret].
    by apply keeps_attempt, Haside, (aside_verb 3). }
  intros _. apply keeps_routed. intros [a |]; [| apply keeps_ret].
  intros e H. eexists _, _. split; [reflexivity |]. split; [done | by apply Hcache].
Qed.

Ltac keep_through :=
  repeat first
    [ progress intros
    | apply keeps_ret | apply keeps_fail | apply kept_lift | apply keeps_attempt
    | apply kept_update | apply kept_insert | apply kept_delete | apply Hquery | apply kept_ensure
    | apply kept_present | apply keeps_for_each | apply keeps_bind | apply keeps_routed
    | assumption
    | match goal with
      | |- keeps _ (match ?x with _ => _ end) => destruct x
      | |- keeps _ (if ?x then _ else _) => destruct x
      end ].

Lemma kept_table_present target : keeps I (table_present_in show target).
Proof. unfold table_present_in. keep_through. Qed.

Lemma kept_list target : keeps I (list_in show parse_rfc3339 parse_naive_fraction parse_naive parse_error target).
Proof. unfold list_in. keep_through; apply kept_table_present. Qed.

Lemma kept_delete_for name target : keeps I (delete_for_in show name target).
Proof. unfold delete_for_in. keep_through; apply kept_table_present. Qed.

Lemma kept_upsert now name tool params rc bump target client : keeps I (upsert_stub_in show now name tool params rc bump target client).
Proof. unfold upsert_stub_in. keep_through. Qed.

Lemma kept_counted alias name : keeps I (counted show alias name).
Proof. unfold counted, row_count_qualified. keep_through. Qed.

Lemma kept_count_all candidates : keeps I (count_all show candidates).
Proof. induction candidates as [| [name alias] rest IH]; cbn [count_all]; keep_through; apply kept_counted. Qed.

Lemma kept_refresh name rc target : keeps I (refresh_row_count_in show name rc target).
Proof. unfold refresh_row_count_in. keep_through. Qed.

Lemma kept_rename_entry old_name new_name target : keeps I (rename_catalog_entry show old_name new_name target).
Proof. unfold rename_catalog_entry. keep_through. Qed.

Lemma kept_rename_loop (all disappeared : list (CatalogEntry Time)) counts target renamed :
  keeps I (rename_loop show all disappeared counts target renamed).
Proof.
  revert renamed. induction disappeared as [| entry rest IH]; intros renamed; cbn [rename_loop]; keep_through; apply IH || apply kept_rename_entry.
Qed.

Lemma kept_public_tables alias : keeps I (public_tables_in show alias).
Proof. unfold public_tables_in. keep_through. Qed.

Lemma kept_live target : keeps I (reconcile_live_tables show target).
Proof.
  unfold reconcile_live_tables. apply keeps_routed. intros [alias |]; [| apply keeps_ret].
  destruct (bool_decide _); [| keep_through; apply kept_public_tables].
  apply (keeps_reads _ (fun e => let> mine := public_tables_in show (primary_db_name e) in
           let> persistent := public_tables_in show PERSISTENT_ALIAS in
           ret (insert_all persistent PERSISTENT_ALIAS (insert_all mine (primary_db_name e) [])))).
  keep_through; apply kept_public_tables.
Qed.

Lemma kept_entries now target live (entries : list (CatalogEntry Time)) : keeps I (reconcile_entries show now target live entries).
Proof.
  unfold reconcile_entries. cbv zeta. apply keeps_routed. intros alias. apply keeps_bind.
  { generalize (filter (fun e : CatalogEntry Time => table_name e ∉ live.*1) entries). intros d.
    generalize (filter (fun p : list Z * list Z => Some p.2 = alias) (filter (fun p => p.1 ∉ table_name <$> entries) live)). intros c.
    destruct d as [| e d], c as [| p c]; try apply keeps_ret.
    apply keeps_bind; [apply kept_count_all | intros counts; apply kept_rename_loop]. }
  intros renamed. keep_through; (apply kept_delete_for || apply kept_counted || apply kept_upsert || apply kept_refresh).
Qed.

Lemma kept_reconcile now target : keeps I (reconcile_in show parse_rfc3339 parse_naive_fraction parse_naive parse_error now target).
Proof.
  unfold reconcile_in. apply keeps_bind; [apply kept_ensure |]. intros _.
  apply keeps_bind; [apply kept_live |]. intros live. apply keeps_bind; [apply kept_list |]. intros entries. apply kept_entries.
Qed.
End catalog.
