(* ===== verification/Reconcile.v ===== *)
(** * The reconciliation of the catalog

    What [reconcile_in] of [TableCatalog] does to a catalog: the contract [CatalogServer]
    says what the statements of the catalog mean to a server, a finite map from names
    to entries, and the theorem compares the catalog before and after. *)

From stdpp Require Import strings gmap sorting.
From S2P Require Import Prelude Text SqlEscape Connection Api Session McpErrors Engine CopyQuery TableCatalog Keeps.

(** ** Entries *)

(** What people wrote about a table. *)
Definition prose {Time} (e : CatalogEntry Time) : list (option (list Z)) :=
  [source_url _ e; source_description _ e; purpose _ e; license _ e; notes _ e; data_url _ e].

Definition named_as {Time} (name : list Z) (e : CatalogEntry Time) : CatalogEntry Time :=
  mk_entry name (source_url _ e) (source_description _ e) (purpose _ e) (load_tool _ e) (load_params _ e) (license _ e)
    (loaded_at _ e) (last_refreshed_at _ e) (row_count e) (notes _ e) (created_by _ e) (last_modified_by _ e) (data_url _ e).

Definition counting {Time} (n : option Z) (e : CatalogEntry Time) : CatalogEntry Time :=
  mk_entry (table_name e) (source_url _ e) (source_description _ e) (purpose _ e) (load_tool _ e) (load_params _ e) (license _ e)
    (loaded_at _ e) (last_refreshed_at _ e) n (notes _ e) (created_by _ e) (last_modified_by _ e) (data_url _ e).

(** The entry of a table nobody wrote about yet, with the count [n]. *)
Record is_stub {Time} (name : list Z) (n : option Z) (e : CatalogEntry Time) : Prop := {
  stub_name : table_name e = name;
  stub_prose : prose e = replicate 6 None;
  stub_count : row_count e = n;
  stub_tool : load_tool _ e = Some (str "unknown");
  stub_params : load_params _ e = None;
  stub_clients : created_by _ e = None /\ last_modified_by _ e = None;
}.

(** ** The statements *)

(** Those a reconciliation sends. *)
Inductive Stmt : Type :=
| SCreate
| SAddColumn (column : list Z)
| SRefresh (name : list Z) (count : option Z)
| SStub (name : list Z) (count : option Z)
| SInsert (now name : list Z) (count : option Z)
| SRename (new_name old_name : list Z)
| SDelete (name : list Z).

Definition where_name (name : list Z) : list Z := str " WHERE table_name = " ++ sql_literal name.

Definition text (q : list Z) (s : Stmt) : list Z :=
  match s with
  | SCreate => create_catalog_sql q
  | SAddColumn column => str "ALTER TABLE " ++ q ++ str " ADD COLUMN " ++ column
  | SRefresh name count => str "UPDATE " ++ q ++ str " SET row_count = " ++ count_sql count ++ where_name name
  | SStub name count =>
      str "UPDATE " ++ q ++ str " SET "
      ++ (str "load_tool = " ++ sql_literal (str "unknown") ++ str ", load_params = " ++ opt_sql_literal None
          ++ str ", row_count = " ++ count_sql count ++ [] ++ [])
      ++ where_name name
  | SInsert now name count =>
      str "INSERT INTO " ++ q
      ++ str " (table_name, source_url, source_description, purpose, load_tool, load_params, license, loaded_at, last_refreshed_at, row_count, notes, created_by, last_modified_by, data_url) SELECT "
      ++ sql_literal name ++ str ", NULL, NULL, NULL, " ++ sql_literal (str "unknown") ++ str ", " ++ opt_sql_literal None
      ++ str ", NULL, TIMESTAMP " ++ sql_literal now ++ str ", TIMESTAMP " ++ sql_literal now ++ str ", " ++ count_sql count
      ++ str ", NULL, " ++ opt_sql_literal None ++ str ", " ++ opt_sql_literal None
      ++ str ", NULL WHERE NOT EXISTS (SELECT 1 FROM " ++ q ++ where_name name ++ str ")"
  | SRename new_name old_name => str "UPDATE " ++ q ++ str " SET table_name = " ++ sql_literal new_name ++ where_name old_name
  | SDelete name => str "DELETE FROM " ++ q ++ where_name name
  end.

(** The queries of a reconciliation, each with what it needs to be answered. *)
Inductive Query : Type :=
| QList
| QTables (db : list Z)
| QCount (db name : list Z).

Definition query_text (q : list Z) (s : Query) : list Z :=
  match s with
  | QList => str "SELECT " ++ ENTRY_COLUMNS ++ str " FROM " ++ q ++ str " ORDER BY table_name"
  | QTables db => str "SELECT tablename FROM " ++ quote_ident db ++ str ".pg_catalog.pg_tables WHERE schemaname = 'public'"
  | QCount db name =>
      str "SELECT COUNT(*) AS cnt FROM " ++ quote_ident db ++ str "." ++ quote_ident (str "public") ++ str "." ++ quote_ident name
  end.

Definition only_count (rows : list JsonRow) : Z :=
  match rows with row :: _ => default 0 (field row (str "cnt") ≫= as_i64) | [] => 0 end.

(** What a statement does to a catalog. An UPDATE of names is described where it makes
    no second entry of a name. *)
Definition effect {Time} (s : Stmt) (t : gmap (list Z) (CatalogEntry Time)) (n : Z) (t' : gmap (list Z) (CatalogEntry Time)) : Prop :=
  match s with
  | SCreate | SAddColumn _ => t' = t
  | SRefresh name count => t' = alter (counting count) name t
  | SStub name _ => t !! name = None -> n = 0 /\ t' = t
  | SInsert _ name count => t !! name = None -> exists e, is_stub name count e /\ t' = <[name := e]> t
  | SRename new_name old_name => t !! new_name = None ->
      t' = match t !! old_name with Some e => <[new_name := named_as new_name e]> (delete old_name t) | None => t end
  | SDelete name => t' = delete name t
  end.

(** The catalog of one database, if it has the table, the tables of each database and
    their rows: documented behaviour of the statements. A statement that fails has had
    no effect, unless the connection died during it; on a dead connection everything
    fails. A server on which nothing fails may still refuse a column that exists. *)
Class CatalogServer (K Time : Type) `{McpConnection K} (parse_rfc3339 parse_naive_fraction parse_naive : list Z -> option Time)
    (parse_error : list Z -> list Z) (alias : list Z) := {
  catalog : K -> option (gmap (list Z) (CatalogEntry Time));
  tables_in : list Z -> K -> list (list Z);
  rows_in : list Z -> list Z -> K -> Z;
  lost : K -> Prop;
  reliable : K -> Prop;
  run_total sql (k : K) : exists r k', run sql k = Val (r, k');
  query_total sql (k : K) : exists r k', query_json sql k = Val (r, k');
  lost_stays sql (k : K) r k' : lost k -> run sql k = Val (r, k') -> is_ok r = false /\ lost k' /\ catalog k' = catalog k;
  reliable_alive (k : K) : reliable k -> ~ lost k;
  lost_query sql (k : K) r k' : lost k -> query_json sql k = Val (r, k') -> is_ok r = false /\ lost k' /\ catalog k' = catalog k;
  stmt_others s (k : K) r k' : run (text (catalog_of alias) s) k = Val (r, k') ->
    (forall db, tables_in db k' = tables_in db k) /\ (forall db name, rows_in db name k' = rows_in db name k);
  stmt_law s (k : K) t r k' : run (text (catalog_of alias) s) k = Val (r, k') ->
    match s with SCreate => t = default ∅ (catalog k) | _ => catalog k = Some t end ->
    let done n := exists t', catalog k' = Some t' /\ effect s t n t' in
    match r with
    | Ok n => done n
    | Err _ => catalog k' = catalog k \/ (lost k' /\ exists n, done n)
    end;
  query_others s (k : K) r k' : query_json (query_text (catalog_of alias) s) k = Val (r, k') ->
    catalog k' = catalog k /\ (forall db, tables_in db k' = tables_in db k) /\ (forall db name, rows_in db name k' = rows_in db name k);
  query_law s (k : K) rows k' : query_json (query_text (catalog_of alias) s) k = Val (Ok rows, k') ->
    match s with
    | QList => forall t, catalog k = Some t ->
        exists l, collect (row_to_entry parse_rfc3339 parse_naive_fraction parse_naive parse_error <$> rows) = Ok l /\ l ≡ₚ (map_to_list t).*2
    | QTables db => omap (fun r => str_field r (str "tablename")) rows = tables_in db k
    | QCount db name => only_count rows = rows_in db name k
    end;
  reliable_run s (k : K) r k' : reliable k -> run (text (catalog_of alias) s) k = Val (r, k') ->
    (match s with SCreate => True | _ => is_Some (catalog k) end) ->
    reliable k' /\ (is_ok r = true \/ exists column, s = SAddColumn column);
  reliable_query s (k : K) r k' : reliable k -> query_json (query_text (catalog_of alias) s) k = Val (r, k') ->
    match s with QList => is_Some (catalog k) | QTables _ => True | QCount db name => name ∈ tables_in db k end ->
    reliable k' /\ is_ok r = true;
}.

(** ** Names in order *)

Lemma str_lt_trans s t u : str_lt s t = true -> str_lt t u = true -> str_lt s u = true.
Proof.
  revert t u. induction s as [| a s IH]; intros [| b t] [| c u]; cbn [str_lt]; try done.
  rewrite !orb_true_iff, !andb_true_iff, !Z.ltb_lt, !Z.eqb_eq. intros [?|[-> ?]] [?|[-> ?]]; [left; lia | left; lia | left; lia | right].
  split; [done | by eapply IH].
Qed.

Lemma str_lt_irrefl s : str_lt s s = false.
Proof. induction s as [| a s IH]; cbn [str_lt]; [done |]. by rewrite Z.ltb_irrefl, Z.eqb_refl, IH. Qed.

Lemma str_lt_total s t : str_lt s t = false -> s <> t -> str_lt t s = true.
Proof.
  revert t. induction s as [| a s IH]; intros [| b t]; cbn [str_lt]; try done.
  rewrite orb_false_iff, andb_false_iff, Z.ltb_ge, Z.eqb_neq, orb_true_iff, andb_true_iff, Z.ltb_lt, Z.eqb_eq. intros [Hle Hst] Hne.
  destruct (Z.eq_dec a b) as [-> | Hab]; [right; split; [done |] | left; lia].
  apply IH; [by destruct Hst | congruence].
Qed.

(** The keys of a map are in strict order. *)
Definition in_order (m : Names) : Prop := StronglySorted (fun s t => str_lt s t = true) m.*1.

Lemma in_order_nodup m : in_order m -> NoDup m.*1.
Proof.
  unfold in_order. induction 1 as [| s l Hs IH Hall]; [apply NoDup_nil_2 |]. apply list.NoDup_cons. split; [| done].
  intros Hin. rewrite list.Forall_forall in Hall. specialize (Hall _ Hin). cbn in Hall. by rewrite str_lt_irrefl in Hall.
Qed.

Lemma btree_insert_in name db m p : p ∈ btree_insert name db m -> p = (name, db) \/ p ∈ m.
Proof.
  induction m as [| [n a] m IH]; cbn [btree_insert]; [rewrite list_elem_of_singleton; auto |].
  case_bool_decide as Hn; [subst n | destruct (str_lt name n)]; rewrite !elem_of_cons; naive_solver.
Qed.

Lemma btree_insert_keys name db m x : x ∈ (btree_insert name db m).*1 <-> x = name \/ x ∈ m.*1.
Proof.
  induction m as [| [n a] m IH]; cbn [btree_insert]; [cbn; rewrite list_elem_of_singleton, elem_of_nil; tauto |].
  case_bool_decide as Hn; [subst n | destruct (str_lt name n)]; cbn [fmap list_fmap fst]; rewrite !elem_of_cons, ?IH; tauto.
Qed.

Lemma btree_insert_in_order name db m : in_order m -> in_order (btree_insert name db m).
Proof.
  unfold in_order. induction m as [| [n a] m IH]; cbn [btree_insert fmap list_fmap fst]; [intros _; repeat constructor |].
  intros Hs. pose proof (StronglySorted_inv Hs) as [Hm Hall]. case_bool_decide as Hn; [done |].
  destruct (str_lt name n) eqn:Hlt; cbn [fmap list_fmap fst].
  - constructor; [done |]. constructor; [done |]. eapply Forall_impl; [| exact Hall]. cbn. intros s. by apply str_lt_trans.
  - constructor; [by apply IH |]. rewrite list.Forall_forall in *. intros x [-> | Hx]%btree_insert_keys; [| by apply Hall].
    apply str_lt_total; [done | congruence].
Qed.

Lemma insert_all_in_order names db m : in_order m -> in_order (insert_all names db m).
Proof. revert m. induction names as [| n names IH]; intros m Hm; [done |]. apply IH. by apply btree_insert_in_order. Qed.

Lemma insert_all_in names db m p : p ∈ insert_all names db m -> (p.1 ∈ names /\ p.2 = db) \/ p ∈ m.
Proof.
  revert m. induction names as [| n names IH]; intros m; [by right |]. unfold insert_all. cbn [foldl]. intros [[H1 H2] | H]%IH.
  - left. rewrite elem_of_cons. auto.
  - apply btree_insert_in in H as [-> | H]; [left; rewrite elem_of_cons; auto | by right].
Qed.

Lemma insert_all_keys names db m x : x ∈ (insert_all names db m).*1 <-> x ∈ names \/ x ∈ m.*1.
Proof.
  revert m. induction names as [| n names IH]; intros m; [cbn; rewrite elem_of_nil; tauto |]. unfold insert_all. cbn [foldl].
  fold (insert_all names db (btree_insert n db m)). rewrite IH, btree_insert_keys, elem_of_cons. tauto.
Qed.

(** ** Steps on a catalog *)

Section reconcile.
Context {K Time : Type} `{!McpConnection K} (show : Api.Error -> list Z).
Context (parse_rfc3339 parse_naive_fraction parse_naive : list Z -> option Time) (parse_error : list Z -> list Z).
Context (alias : list Z) `{!CatalogServer K Time parse_rfc3339 parse_naive_fraction parse_naive parse_error alias}.

(** The engine before, the parameter that leads to the catalog, and the catalog. *)
Context (e0 : Engine K) (target : option (list Z)).
Context (Htarget : resolve_catalog_alias (has_persistent e0) target = Some alias).
Abbreviation k0 := (connection e0).
Abbreviation t0 := (default ∅ (catalog k0)).

(** The tables a catalog is about: those of its database, and for the persistent one
    those of the primary too. *)
Definition user_tables (db : list Z) : list (list Z) :=
  filter (fun name => bool_decide (name <> TABLE_CATALOG_TABLE) && negb (is_internal_table name) = true) (tables_in db k0).

Definition live : Names :=
  if bool_decide (alias = PERSISTENT_ALIAS)
  then insert_all (user_tables PERSISTENT_ALIAS) PERSISTENT_ALIAS (insert_all (user_tables (primary_db_name e0)) (primary_db_name e0) [])
  else insert_all (user_tables alias) alias [].

Lemma live_in_order : in_order live.
Proof. unfold live. case_bool_decide; repeat apply insert_all_in_order; constructor. Qed.

Lemma live_tables name db : (name, db) ∈ live -> name ∈ tables_in db k0.
Proof.
  assert (Hone : forall a m, (name, db) ∈ insert_all (user_tables a) a m ->
    name ∈ tables_in db k0 \/ (name, db) ∈ m).
  { intros a m [[Hn Ha] | Hin]%insert_all_in; [left | by right]. cbn in Hn, Ha. subst db. by apply list_elem_of_filter in Hn as [_ Hn]. }
  unfold live. case_bool_decide; intros Hin.
  - destruct (Hone _ _ Hin) as [? | [? | []%elem_of_nil]%Hone]; done.
  - destruct (Hone _ _ Hin) as [? | []%elem_of_nil]; done.
Qed.

(** Every table that is live keeps what people wrote about it. *)
Definition prose_kept (c : option (gmap (list Z) (CatalogEntry Time))) : Prop :=
  forall name e, name ∈ live.*1 -> t0 !! name = Some e -> exists t e', c = Some t /\ t !! name = Some e' /\ prose e' = prose e.

Record here (C : gmap (list Z) bool -> Prop) (t : gmap (list Z) (CatalogEntry Time)) (e : Engine K) : Prop := {
  here_like : like e0 e;
  here_catalog : catalog (connection e) = Some t;
  here_tables db : tables_in db (connection e) = tables_in db k0;
  here_rows db name : rows_in db name (connection e) = rows_in db name k0;
  here_reliable : reliable k0 -> reliable (connection e);
  here_cache : C (catalog_present_cache e);
}.

(** The connection is dead, and nothing is lost. *)
Definition gone (e : Engine K) : Prop :=
  like e0 e /\ lost (connection e) /\ prose_kept (catalog (connection e)) /\ ~ reliable k0.

Definition stopped (e : Engine K) : Prop := prose_kept (catalog (connection e)) /\ ~ reliable k0.

(** From [P], the step returns with [Q], unless the connection dies on the way. *)
Definition act {A} (P : Engine K -> Prop) (m : Tool (Engine K) A) (Q : result A McpError -> Engine K -> Prop) : Prop :=
  forall e, P e -> exists r e', m e = Returned r e' /\ (gone e' \/ Q r e').

(** The postcondition of a step that stops the reconciliation when it fails. *)
Definition or_stop {A} (Q : A -> Engine K -> Prop) (r : result A McpError) (e : Engine K) : Prop :=
  match r with Ok a => Q a e | Err _ => stopped e end.

Lemma act_weaken {A} P P' (m : Tool (Engine K) A) Q Q' :
  act P m Q -> (forall e, P' e -> P e) -> (forall r e, Q r e -> Q' r e) -> act P' m Q'.
Proof. intros Hm HP HQ e H. destruct (Hm e (HP e H)) as (r & e' & Hr & [Hg | Hq]); eauto 10. Qed.

Lemma act_ret {A} (a : A) P Q : (forall e, P e -> Q (Ok a) e) -> act P (ret a) Q.
Proof. intros HQ e H. eexists _, _. split; [done | right; by apply HQ]. Qed.

Lemma act_bind {A B} P (m : Tool (Engine K) A) (f : A -> Tool (Engine K) B) R Q :
  act P m R -> (forall a, act (R (Ok a)) (f a) Q) -> (forall a, keeps gone (f a)) -> (forall err e, R (Err err) e -> Q (Err err) e) ->
  act P (tool_bind m f) Q.
Proof.
  intros Hm Hf Hg He e H. destruct (Hm e H) as (r & e1 & Hr & H1). rewrite (bind_returned _ _ _ _ _ Hr).
  destruct r as [a | err].
  - destruct H1 as [H1 | H1]; [| by apply Hf]. destruct (Hg a e1 H1) as (r & e2 & H2 & _ & ?). eauto 10.
  - eexists _, _. split; [done |]. destruct H1; auto.
Qed.

Lemma act_attempt {A} P (m : Tool (Engine K) A) Q : act P m Q -> act P (attempt m) (fun r e => exists r', r = Ok r' /\ Q r' e).
Proof. intros Hm e H. destruct (Hm e H) as (r & e1 & Hr & H1). unfold attempt. rewrite Hr. eexists _, _. split; [done |]. naive_solver. Qed.

Lemma act_exists {A X} (P : X -> Engine K -> Prop) (m : Tool (Engine K) A) Q : (forall x, act (P x) m Q) -> act (fun e => exists x, P x e) m Q.
Proof. intros Hm e [x H]. by apply (Hm x). Qed.

Lemma act_pure {A} (X : Prop) P (m : Tool (Engine K) A) Q : (X -> act P m Q) -> act (fun e => X /\ P e) m Q.
Proof. intros Hm e [x H]. by apply Hm. Qed.

(** A loop, by what has been done so far. *)
Lemma act_for_each {X} (l : list X) (m : X -> Tool (Engine K) unit) (J : list X -> Engine K -> Prop) pre :
  (forall done x rest, pre ++ l = done ++ x :: rest -> act (J done) (m x) (or_stop (fun _ => J (done ++ [x])))) -> (forall x, keeps gone (m x)) ->
  act (J pre) (for_each l m) (or_stop (fun _ => J (pre ++ l))).
Proof.
  revert pre. induction l as [| x l IH]; intros pre Hm Hg; cbn [for_each].
  { rewrite app_nil_r. by apply act_ret. }
  eapply act_bind; [by apply (Hm pre x l) | | | done].
  - intros []. cbn [or_stop]. replace (pre ++ x :: l) with ((pre ++ [x]) ++ l) by by rewrite <- app_assoc.
    apply IH; [| done]. intros d y rest Hd. apply (Hm d y rest). by rewrite <- Hd, <- app_assoc.
  - intros _. by apply keeps_for_each.
Qed.

(** ** Statements and queries *)

Abbreviation q := (catalog_of alias).

Lemma gone_run conv sql : keeps gone (on_connection (run sql) conv).
Proof.
  intros e (Hl & Hlost & Hp & Hn). destruct (run_total sql (connection e)) as (r & k & Hr). unfold on_connection. rewrite Hr.
  destruct (lost_stays _ _ _ _ Hlost Hr) as (? & ? & Hc). destruct r as [n | err]; [done |].
  assert (Hk : like e (with_connection e k)) by by eapply like_run.
  eexists _, (with_connection e k). split; [done |]. split; [done |]. unfold gone. cbn. rewrite Hc. split; [by trans e | done].
Qed.

Lemma gone_query sql : keeps gone (execute_query_to_json show sql).
Proof.
  intros e (Hl & Hlost & Hp & Hn). destruct (query_total sql (connection e)) as (r & k & Hr). unfold execute_query_to_json, on_connection. rewrite Hr.
  destruct (lost_query _ _ _ _ Hlost Hr) as (? & ? & Hc). destruct r as [n | err]; [done |].
  assert (Hk : like e (with_connection e k)) by by eapply like_query.
  eexists _, (with_connection e k). split; [done |]. split; [done |]. unfold gone. cbn. rewrite Hc. split; [by trans e | done].
Qed.

Lemma gone_cache e cache : gone e -> gone (with_cache e cache).
Proof. intros [Hl H]. split; [trans e; [done | apply like_cache] | exact H]. Qed.
#[local] Hint Extern 0 (gone (with_cache _ _)) => apply gone_cache; assumption : core.

Lemma act_stmt s C t : (forall n t', effect s t n t' -> prose_kept (Some t')) ->
  act (here C t) (execute_command show (text q s))
    (fun r e => match r with
                | Ok n => exists t', effect s t n t' /\ here C t' e
                | Err _ => here C t e /\ (~ reliable k0 \/ exists column, s = SAddColumn column)
                end).
Proof.
  intros Heff e [Hl Hc Htab Hrows Hrel HC]. destruct (run_total (text q s) (connection e)) as (r & k & Hr).
  unfold execute_command, on_connection. rewrite Hr. destruct (stmt_others _ _ _ _ Hr) as [Ho1 Ho2].
  assert (Hlk : like e0 (with_connection e k)) by (trans e; [exact Hl | by eapply like_run]).
  assert (Hhere : forall t', catalog k = Some t' -> (reliable k0 -> reliable k) -> here C t' (with_connection e k)).
  { intros t' Ht' Hk. split; cbn [connection with_connection]; [done | done | | | done | done]; intros; by rewrite ?Ho1, ?Ho2. }
  assert (Hrun : reliable k0 -> reliable k /\ (is_ok r = true \/ exists column, s = SAddColumn column)).
  { intros Hk. apply (reliable_run _ _ _ _ (Hrel Hk) Hr). destruct s; by rewrite ?Hc. }
  pose proof (stmt_law s (connection e) t r k Hr ltac:(rewrite Hc; by destruct s)) as Hlaw. cbn zeta in Hlaw.
  destruct r as [n | err]; eexists _, (with_connection e k); (split; [reflexivity |]).
  - right. destruct Hlaw as (t' & Ht' & He). exists t'. split; [done | by apply Hhere; [| apply Hrun]].
  - destruct Hlaw as [Hk | (Hlost & n & t' & Ht' & He)].
    + right. split; [apply Hhere; [congruence | apply Hrun] |].
      destruct s; try (by left; intros [_ [? | [? ?]]]%Hrun); right; eauto.
    + left. unfold gone. cbn [connection with_connection]. rewrite Ht'. split; [done |]. split; [done |]. split; [by eapply Heff |].
      intros Hk. apply (reliable_alive k); [by apply Hrun | done].
Qed.

(** What a query needs to be answered. *)
Definition answerable (s : Query) : Prop := match s with QCount db name => name ∈ tables_in db k0 | _ => True end.

Lemma act_query s C t : answerable s ->
  act (here C t) (execute_query_to_json show (query_text q s))
    (fun r e =>
      match r with
      | Ok rows => match s with
                   | QList => exists l, collect (row_to_entry parse_rfc3339 parse_naive_fraction parse_naive parse_error <$> rows) = Ok l /\ l ≡ₚ (map_to_list t).*2
                   | QTables db => omap (fun r => str_field r (str "tablename")) rows = tables_in db k0
                   | QCount db name => only_count rows = rows_in db name k0
                   end
      | Err _ => ~ reliable k0
      end /\ here C t e).
Proof.
  intros Hs e [Hl Hc Htab Hrows Hrel HC]. destruct (query_total (query_text q s) (connection e)) as (r & k & Hr).
  unfold execute_query_to_json, on_connection. rewrite Hr. destruct (query_others _ _ _ _ Hr) as (Hk & Ho1 & Ho2).
  assert (Hrun : reliable k0 -> reliable k /\ is_ok r = true).
  { intros Hk0. apply (reliable_query _ _ _ _ (Hrel Hk0) Hr). destruct s; cbn [answerable] in Hs; by rewrite ?Hc, ?Htab. }
  assert (Hlk : like e0 (with_connection e k)) by (trans e; [exact Hl | by eapply like_query]).
  assert (Hhere : here C t (with_connection e k)).
  { split; cbn [connection with_connection]; [done | congruence | | | apply Hrun | done]; intros; by rewrite ?Ho1, ?Ho2. }
  destruct r as [rows | err]; eexists _, (with_connection e k); (split; [reflexivity |]); right; (split; [| done]).
  - pose proof (query_law _ _ _ _ Hr) as Hlaw. destruct s; [by apply Hlaw | congruence | congruence].
  - by intros [_ ?]%Hrun.
Qed.

(** ** The phases *)

Lemma prose_kept_before : prose_kept (catalog k0).
Proof.
  intros name e _. destruct (catalog k0) as [t |]; cbn [default]; [eauto | by rewrite lookup_empty].
Qed.

Lemma prose_kept_same t t' : (forall name, name ∈ live.*1 -> is_Some (t0 !! name) -> t' !! name = t !! name) -> prose_kept (Some t) -> prose_kept (Some t').
Proof.
  intros Hsame Ht name e Hl He. destruct (Ht name e Hl He) as (t1 & e1 & [= <-] & H1 & H2). exists t', e1. split_and!; [done | | done].
  by rewrite Hsame.
Qed.

Lemma act_routed {A B} (route : bool -> option A) a P (m : option A -> Tool (Engine K) B) Q :
  (forall e, P e -> route (has_persistent e) = a) -> act P (m a) Q -> act P (routed route m) Q.
Proof. intros Ha Hm e H. unfold routed. rewrite (Ha e H). by apply Hm. Qed.

Lemma like_routes e : like e0 e ->
  resolve_catalog_alias (has_persistent e) target = Some alias /\ qualified_catalog_in (has_persistent e) target = Some q.
Proof.
  intros [_ Hp _]. assert (has_persistent e = has_persistent e0) as Hh by (unfold has_persistent; by rewrite Hp). rewrite Hh.
  split; [done |]. revert Htarget. unfold qualified_catalog_in, resolve_catalog_alias.
  destruct target as [[| c s] |]; [| destruct (eq_ignore_ascii_case _ _) |]; destruct (has_persistent e0); cbn; by intros [= <-].
Qed.

Definition primed (cache : gmap (list Z) bool) : Prop := cache !! to_ascii_lowercase alias = Some true.

Lemma act_ensure P C t :
  (forall e, P e -> like e0 e) -> prose_kept (Some t) ->
  act P (execute_command show (text q SCreate)) (or_stop (fun _ => here C t)) ->
  act P (ensure_exists_in show target) (or_stop (fun _ => here primed t)).
Proof.
  intros HP Ht Hcreate. apply (act_routed _ (Some q)); [intros e H; by apply like_routes, HP |].
  assert (Hadd : forall col, keeps gone (let> _ := attempt (execute_command show (str "ALTER TABLE " ++ q ++ str " ADD COLUMN " ++ col)) in ret tt)).
  { intros col. apply keeps_bind; [apply keeps_attempt, gone_run | intros _; apply keeps_ret]. }
  assert (Hmark : forall u : unit, keeps gone (routed (fun p => resolve_catalog_alias p target)
            (fun a => match a with Some alias => mark_catalog_present_for alias | None => ret tt end))).
  { intros _. apply keeps_routed. intros [a |]; [| apply keeps_ret]. intros e H. eexists _, _. split; [reflexivity |].
    split; [apply like_cache | by apply gone_cache]. }
  eapply act_bind; [exact Hcreate | | intros _; apply keeps_bind; [by apply keeps_for_each | exact Hmark] | done].
  intros n. cbn [or_stop]. eapply (act_bind _ _ _ (or_stop (fun _ => here C t))); [| | exact Hmark | done].
  - apply (act_for_each _ _ (fun _ => here C t) []); [| done]. intros d col rest _. eapply act_bind; [| | intros r; apply keeps_ret |].
    + apply act_attempt. apply (act_stmt (SAddColumn col)). by intros n' t' ->.
    + intros r. apply act_ret. intros e (r' & [= <-] & H). cbn. destruct r as [n' | err]; [| apply H].
      by destruct H as (t' & -> & H).
    + by intros err e (r' & ? & _).
  - intros []. cbn [or_stop]. apply (act_routed _ (Some alias)); [intros e H; by apply like_routes, H |].
    intros e [Hl Hc Htab Hrows Hrel HC]. eexists _, _. split; [reflexivity |]. right.
    assert (Hlk : forall cache, like e0 (with_cache e cache)) by (intros cache; trans e; [exact Hl | apply like_cache]).
    split; try done.
    unfold primed. cbn. by rewrite lookup_insert_eq.
Qed.

Lemma stopped_here C t e : prose_kept (Some t) -> here C t e -> ~ reliable k0 -> stopped e.
Proof. intros Hp [_ Hc _ _ _ _] Hn. split; [by rewrite Hc | done]. Qed.

Lemma act_create : act (fun e => e = e0) (execute_command show (text q SCreate)) (or_stop (fun _ => here (fun _ => True) t0)).
Proof.
  intros e ->. destruct (run_total (text q SCreate) k0) as (r & k & Hr). unfold execute_command, on_connection. rewrite Hr.
  destruct (stmt_others _ _ _ _ Hr) as [Ho1 Ho2]. pose proof (stmt_law SCreate k0 t0 r k Hr eq_refl) as Hlaw. cbn in Hlaw.
  pose proof (fun Hk => reliable_run SCreate k0 r k Hk Hr I) as Hrun.
  assert (Hlk : like e0 (with_connection e0 k)) by by eapply like_run.
  destruct r as [n | err]; eexists _, (with_connection e0 k); (split; [reflexivity |]); right.
  - destruct Hlaw as (t' & Ht' & ->). split; cbn [connection with_connection]; try done. apply Hrun.
  - split; [| intros [_ [? | [? ?]]]%Hrun; done]. cbn [connection with_connection].
    destruct Hlaw as [-> | (_ & _ & t' & -> & ->)]; [apply prose_kept_before |]. intros name e Hl He. eauto.
Qed.

(** A statement that stops the reconciliation when it fails. *)
Lemma act_stmt_or_stop s C t : (forall column, s <> SAddColumn column) -> prose_kept (Some t) -> (forall n t', effect s t n t' -> prose_kept (Some t')) ->
  act (here C t) (execute_command show (text q s)) (or_stop (fun n e => exists t', effect s t n t' /\ here C t' e)).
Proof.
  intros Hs Ht Heff. eapply act_weaken; [by apply act_stmt | done |]. intros [n | err] e; [done |]. intros [Hh Hn].
  eapply stopped_here; [exact Ht | exact Hh |]. destruct Hn as [Hn | [column Hc]]; [done | by apply Hs in Hc].
Qed.

Lemma act_recreate C t : prose_kept (Some t) -> act (here C t) (execute_command show (text q SCreate)) (or_stop (fun _ => here C t)).
Proof.
  intros Ht. eapply act_weaken; [apply (act_stmt_or_stop SCreate); [done | exact Ht |] | done |].
  - by intros n t' ->.
  - intros [n | err] e; [| done]. by intros (t' & -> & H).
Qed.

Lemma act_public_tables C t db :
  act (here C t) (public_tables_in show db) (fun r e => match r with Ok names => names = user_tables db | Err _ => ~ reliable k0 end /\ here C t e).
Proof.
  eapply act_bind; [by apply (act_query (QTables db)) | | intros rows; apply keeps_ret | done].
  intros rows. apply act_ret. intros e [Hr Hh]. split; [| done]. unfold user_tables. by rewrite Hr.
Qed.

Lemma act_live C t :
  act (here C t) (reconcile_live_tables show target) (fun r e => match r with Ok names => names = live | Err _ => ~ reliable k0 end /\ here C t e).
Proof.
  assert (Hg : forall db (f : list (list Z) -> Names), keeps gone (let> names := public_tables_in show db in ret (f names))).
  { intros db f. apply keeps_bind; [apply (kept_public_tables show gone gone_query) | intros names; apply keeps_ret]. }
  assert (Hone : forall db (f : list (list Z) -> Names) l, l = f (user_tables db) -> act (here C t) (let> names := public_tables_in show db in ret (f names))
            (fun r e => match r with Ok names => names = l | Err _ => ~ reliable k0 end /\ here C t e)).
  { intros db f l Hl. eapply act_bind; [apply act_public_tables | | intros names; apply keeps_ret | done].
    intros names. cbn beta iota. apply act_pure. intros ->. by apply act_ret. }
  apply (act_routed _ (Some alias)); [intros e H; by apply like_routes, H |]. unfold live. case_bool_decide as Ha; [| by apply Hone].
  intros e H. assert (primary_db_name e = primary_db_name e0) as -> by (unfold primary_db_name; by destruct (here_like _ _ _ H) as [-> _ _]).
  revert e H. eapply act_bind; [apply act_public_tables | | | done].
  - intros mine. cbn beta iota. apply act_pure. intros ->. by apply Hone.
  - intros mine. apply Hg.
Qed.

(** The probe of the catalog is answered by the cache. *)
Lemma act_present t : act (here primed t) (table_present_in show target) (fun r e => r = Ok true /\ here primed t e).
Proof.
  apply (act_routed _ (Some alias)); [intros e H; by apply like_routes, H |].
  intros e H. unfold catalog_present_in. rewrite (here_cache _ _ _ H). eexists _, _. split; [reflexivity |]. right. by split.
Qed.

Lemma act_if_present {A} t (yes no : Tool (Engine K) A) Q :
  act (here primed t) yes Q -> keeps gone yes -> keeps gone no ->
  act (here primed t) (let> present := table_present_in show target in if negb present then no else yes) Q.
Proof.
  intros Hm Hg Hn. eapply act_bind; [apply act_present | | intros []; by cbn | by intros err e [? _]].
  intros b. apply act_pure. intros [= ->]. exact Hm.
Qed.

Lemma act_list t :
  act (here primed t) (list_in show parse_rfc3339 parse_naive_fraction parse_naive parse_error target)
    (fun r e => match r with Ok l => l ≡ₚ (map_to_list t).*2 | Err _ => ~ reliable k0 end /\ here primed t e).
Proof.
  apply (act_routed _ (Some q)); [intros e H; by apply like_routes, H |]. apply act_if_present; [| | apply keeps_ret].
  - eapply act_bind; [by apply (act_query QList) | | intros rows; apply kept_lift | done].
    intros rows. cbn beta iota. apply act_pure. intros (l & Hl & Hp) e H. unfold lift. rewrite Hl. eexists _, _. split; [reflexivity |]. right. by split.
  - apply keeps_bind; [apply gone_query | intros rows; apply kept_lift].
Qed.

(** What a count comes to. *)
Definition count_is (db name : list Z) (n : option Z) : Prop := n = Some (rows_in db name k0) \/ (n = None /\ ~ reliable k0).

Lemma act_counted C t db name : name ∈ tables_in db k0 ->
  act (here C t) (counted show db name) (fun r e => (exists n, r = Ok n /\ count_is db name n) /\ here C t e).
Proof.
  intros Hin. eapply act_bind; [apply act_attempt; eapply (act_bind _ _ _ _ (fun r e => match r with Ok n => n = rows_in db name k0 | Err _ => ~ reliable k0 end /\ here C t e));
    [by apply (act_query (QCount db name)) | | intros rows; apply keeps_ret | done] | | intros n; apply keeps_ret | by intros err e (r & ? & _)].
  - intros rows. apply act_ret. intros e [Hr Hh]. by split.
  - intros r. apply act_ret. intros e (r' & [= <-] & Hr & Hh). split; [| done]. eexists. split; [reflexivity |].
    unfold count_is. destruct r as [n | err]; [left; by rewrite Hr | by right].
Qed.

(** A change to an entry of no live table, or one that leaves the prose alone. *)
Lemma act_update s t t' : (forall column, s <> SAddColumn column) -> (forall n t'', effect s t n t'' <-> t'' = t') ->
  prose_kept (Some t) -> prose_kept (Some t') ->
  act (here primed t) (let> _ := execute_command show (text q s) in ret tt) (or_stop (fun _ => here primed t')).
Proof.
  intros Hs Heff Ht Ht'. eapply act_bind; [apply (act_stmt_or_stop s); [done | exact Ht |] | | intros n; apply keeps_ret | done].
  - by intros n t'' ->%Heff.
  - intros n. apply act_ret. by intros e (t'' & ->%Heff & H).
Qed.

Lemma act_delete name t : name ∉ live.*1 -> prose_kept (Some t) ->
  act (here primed t) (let> _ := delete_for_in show name target in ret tt) (or_stop (fun _ => here primed (delete name t)))
  /\ prose_kept (Some (delete name t)).
Proof.
  intros Hn Ht. assert (Hd : prose_kept (Some (delete name t))).
  { eapply prose_kept_same; [| exact Ht]. intros x Hx _. apply lookup_delete_ne. by intros ->. }
  split; [| done]. eapply (act_bind _ _ _ (or_stop (fun _ => here primed (delete name t)))); [| | intros b; apply keeps_ret | done].
  - apply (act_routed _ (Some q)); [intros e H; by apply like_routes, H |].
    assert (Hg : keeps gone (let> affected := execute_command show (text q (SDelete name)) in ret (0 <? affected))).
    { apply keeps_bind; [apply gone_run | intros n; apply keeps_ret]. }
    apply act_if_present; [| exact Hg | apply keeps_ret].
    eapply act_bind; [apply (act_stmt_or_stop (SDelete name)); [done | exact Ht | by intros n t' ->] | | intros n; apply keeps_ret | done].
    intros n. apply act_ret. by intros e (t' & -> & H).
  - intros b. by apply act_ret.
Qed.

Lemma prose_kept_counting name n t : prose_kept (Some t) -> prose_kept (Some (alter (counting n) name t)).
Proof.
  intros Ht x e Hx He. destruct (Ht x e Hx He) as (t1 & e1 & [= <-] & H1 & H2). destruct (decide (x = name)) as [-> | Hne].
  - exists (alter (counting n) name t), (counting n e1). split_and!; [done | by rewrite lookup_alter_eq, H1 | done].
  - exists (alter (counting n) name t), e1. split_and!; [done | by rewrite lookup_alter_ne | done].
Qed.

Lemma act_refresh name n t : prose_kept (Some t) ->
  act (here primed t) (refresh_row_count_in show name n target) (or_stop (fun _ => here primed (alter (counting n) name t))).
Proof.
  intros Ht. apply (act_routed _ (Some q)); [intros e H; by apply like_routes, H |].
  apply (act_update (SRefresh name n)); [done | done | done | by apply prose_kept_counting].
Qed.

Lemma act_rename old new x t : t !! new = None -> t !! old = Some x -> t0 !! new = None -> old ∉ live.*1 -> prose_kept (Some t) ->
  act (here primed t) (rename_catalog_entry show old new target)
    (fun r e => match r with
                | Ok _ => here primed (<[new := named_as new x]> (delete old t)) e
                | Err _ => ~ reliable k0 /\ here primed t e
                end)
  /\ prose_kept (Some (<[new := named_as new x]> (delete old t))).
Proof.
  intros Hnew Hold H0 Hl Ht. assert (Hp : prose_kept (Some (<[new := named_as new x]> (delete old t)))).
  { eapply prose_kept_same; [| exact Ht]. intros y Hy [z Hz]. rewrite lookup_insert_ne, lookup_delete_ne; [done | congruence | congruence]. }
  split; [| done]. apply (act_routed _ (Some q)); [intros e H; by apply like_routes, H |].
  assert (Heff : forall n t', effect (SRename new old) t n t' -> t' = <[new := named_as new x]> (delete old t)).
  { intros n t' Heff. cbn in Heff. rewrite Hold in Heff. by apply Heff. }
  eapply act_bind; [apply (act_stmt (SRename new old)); by intros n t' ->%Heff | | intros n; apply keeps_ret |].
  - intros n. apply act_ret. by intros e (t' & ->%Heff & H).
  - intros err e [H [Hr | [? ?]]]; done.
Qed.

Lemma act_upsert now name n t : t !! name = None -> prose_kept (Some t) ->
  act (here primed t) (upsert_stub_in show now name (str "unknown") None n false target None)
    (or_stop (fun _ e => exists e', is_stub name n e' /\ prose_kept (Some (<[name := e']> t)) /\ here primed (<[name := e']> t) e)).
Proof.
  intros Hn Ht. assert (Hp : forall e', prose_kept (Some (<[name := e']> t))).
  { intros e'. intros y z Hy Hz. destruct (Ht y z Hy Hz) as (t1 & e1 & [= <-] & H1 & H2). exists (<[name := e']> t), e1.
    split; [done |]. split; [| done]. rewrite lookup_insert_ne; [done | congruence]. }
  assert (Hins : keeps gone (let> _ := execute_command show (text q (SInsert now name n)) in ret tt)).
  { apply keeps_bind; [apply gone_run | intros m; apply keeps_ret]. }
  assert (Hup : keeps gone (let> updated := execute_command show (text q (SStub name n)) in
                            if updated =? 0 then let> _ := execute_command show (text q (SInsert now name n)) in ret tt else ret tt)).
  { apply keeps_bind; [apply gone_run |]. intros m. destruct (m =? 0); [exact Hins | apply keeps_ret]. }
  eapply act_bind; [apply (act_ensure _ primed t); [by intros e [] | exact Ht | by apply act_recreate] | | | done].
  - intros []. cbn [or_stop]. apply (act_routed _ (Some q)); [intros e H; by apply like_routes, H |].
    eapply act_bind; [apply (act_stmt_or_stop (SStub name n)); [done | exact Ht |] | | | done].
    + intros m t' H. cbn in H. by destruct (H Hn) as [_ ->].
    + intros m. cbn [or_stop]. apply act_exists. intros t'. apply act_pure. cbn [effect]. intros H. destruct (H Hn) as [-> ->].
      eapply (act_bind _ _ _ (or_stop (fun m e => exists t', effect (SInsert now name n) t m t' /\ here primed t' e))); [apply (act_stmt_or_stop (SInsert now name n)); [done | exact Ht |] | | intros m'; apply keeps_ret | done].
      * intros m' t' He. destruct (He Hn) as (e' & _ & ->). apply Hp.
      * intros m'. apply act_ret. intros e (t' & He & Hh). destruct (He Hn) as (e' & Hstub & ->). by exists e'.
    + intros m. destruct (m =? 0); [exact Hins | apply keeps_ret].
  - intros _. apply keeps_routed. intros [c |]; [| apply keeps_ret].
    apply keeps_bind; [apply gone_run |]. intros m. destruct (m =? 0); [| apply keeps_ret].
    apply keeps_bind; [apply gone_run | intros m'; apply keeps_ret].
Qed.

(** ** Renames *)

Lemma act_count_all C t candidates : candidates ⊆ live ->
  act (here C t) (count_all show candidates)
    (fun r e => (exists counts, r = Ok counts /\ Forall2 (fun p c => c.1 = p.1 /\ count_is p.2 p.1 c.2) candidates counts) /\ here C t e).
Proof.
  induction candidates as [| [name db] rest IH]; intros Hin; cbn [count_all].
  { apply act_ret. intros e H. split; [by exists [] | done]. }
  assert (Hg : forall n : option Z, keeps gone (let> counts := count_all show rest in ret ((name, n) :: counts))).
  { intros n. apply keeps_bind; [apply kept_count_all, gone_query | intros counts; apply keeps_ret]. }
  eapply act_bind; [apply (act_counted C t db name), live_tables, Hin; by left | | exact Hg | by intros err e [(n & ? & _) _]].
  intros n. cbn beta iota. apply act_pure. intros (n' & [= <-] & Hn).
  eapply act_bind; [apply IH; intros p Hp; apply Hin; by right | | intros counts; apply keeps_ret | by intros err e [(c & ? & _) _]].
  intros counts. apply act_ret. intros e [(counts' & [= <-] & Hall) Hh]. split; [| done]. eexists. split; [reflexivity |]. by constructor.
Qed.

(** The only element of a list with a property. *)
Lemma filter_one {X} (P : X -> Prop) `{!forall x, Decision (P x)} (l : list X) x :
  NoDup l -> x ∈ l -> P x -> (forall y, y ∈ l -> P y -> y = x) -> filter P l = [x].
Proof.
  intros Hnd Hx HP Hone. assert (Hf : forall y, y ∈ filter P l <-> y = x).
  { intros y. rewrite list_elem_of_filter. split; [intros [? ?]; by apply Hone | by intros ->]. }
  pose proof (list.NoDup_filter P l Hnd) as Hndf. destruct (filter P l) as [| y [| z l']] eqn:Hl.
  - exfalso. apply (not_elem_of_nil x). by apply Hf.
  - f_equal. apply Hf. by left.
  - exfalso. apply list.NoDup_cons in Hndf as [Hy _]. apply Hy. replace y with z; [by left |].
    trans x; [apply Hf; right; by left | symmetry; apply Hf; by left].
Qed.

Section renames.
Context (D : list (CatalogEntry Time)) (C : list (list Z * option Z)).
Context (HD : NoDup (table_name <$> D)) (HDold : forall x, x ∈ D -> t0 !! table_name x = Some x /\ table_name x ∉ live.*1).
Context (HC : NoDup C.*1) (HCnew : forall c, c ∈ C -> t0 !! c.1 = None /\ (c.1, alias) ∈ live /\ count_is alias c.1 c.2).

(** The table [n] is the only new one with as many rows as the only table that
    disappeared with that count. *)
Definition unambiguous (x : CatalogEntry Time) (n : list Z) : Prop :=
  exists rc, row_count x = Some rc /\ (n, Some rc) ∈ C
    /\ (forall y, y ∈ D -> row_count y = Some rc -> y = x) /\ (forall c, c ∈ C -> c.2 = Some rc -> c.1 = n).

Lemma rename_of_some renamed x n : x ∈ D -> rename_of D C renamed x = Some n ->
  exists rc, row_count x = Some rc /\ (n, Some rc) ∈ C /\ (n ∉ renamed.*2) /\ (forall y, y ∈ D -> row_count y = Some rc -> y = x)
    /\ (forall c, c ∈ C -> c.2 = Some rc -> c.1 ∉ renamed.*2 -> c.1 = n).
Proof.
  intros HxD. unfold rename_of. destruct (row_count x) as [rc |] eqn:Hrc; [| done]. cbn.
  destruct (filter (fun e => row_count e = Some rc) D) as [| z [|]] eqn:HfD; try done. cbn [length Nat.eqb].
  destruct (filter _ C) as [| [n' c] [|]] eqn:Hf; try done. intros [= <-].
  assert (HinD : forall y, y ∈ D -> row_count y = Some rc -> y = z).
  { intros y Hy Hyrc. apply list_elem_of_singleton. rewrite <- HfD. by apply list_elem_of_filter. }
  assert (HinC : forall d, d ∈ C -> d.2 = Some rc -> d.1 ∉ renamed.*2 -> d = (n', c)).
  { intros d Hd Hdrc Hnew. apply list_elem_of_singleton. rewrite <- Hf. by apply list_elem_of_filter. }
  assert ((n', c) ∈ filter (fun c => c.2 = Some rc /\ c.1 ∉ renamed.*2) C) as Hin by (rewrite Hf; by left).
  apply list_elem_of_filter in Hin as [[H1 H2] H3]. cbn in H1, H2. subst c. exists rc.
  split; [done |]. split; [done |]. split; [done |]. split.
  - intros y Hy Hyrc. by rewrite (HinD y Hy Hyrc), (HinD x HxD Hrc).
  - intros d Hd Hdrc Hnew. by rewrite (HinC d Hd Hdrc Hnew).
Qed.

Lemma rename_of_unambiguous renamed x n : x ∈ D -> unambiguous x n -> n ∉ renamed.*2 -> rename_of D C renamed x = Some n.
Proof.
  intros Hx (rc & Hrc & Hn & HxD & HnC) Hnew. unfold rename_of. rewrite Hrc. cbn.
  rewrite (filter_one _ D x); [cbn | by apply (list.NoDup_fmap_1 table_name) | done | done | done].
  rewrite (filter_one _ C (n, Some rc)); [done | by apply (list.NoDup_fmap_1 fst) | done | done |].
  intros [n' c] Hin [Hc _]. cbn in Hc. subst c. f_equal. exact (HnC _ Hin eq_refl).
Qed.

(** What has been renamed once the entries in [processed] have been looked at. *)
Record renames (processed : list (CatalogEntry Time)) (renamed : list (list Z * list Z)) (t : gmap (list Z) (CatalogEntry Time)) : Prop := {
  renames_others name : name ∉ renamed.*1 -> name ∉ renamed.*2 -> t !! name = t0 !! name;
  renames_pair o n : (o, n) ∈ renamed -> exists x, x ∈ processed /\ table_name x = o /\ t !! o = None /\ t !! n = Some (named_as n x) /\ unambiguous x n;
  renames_prose : prose_kept (Some t);
  renames_complete : reliable k0 -> forall x n, x ∈ processed -> unambiguous x n -> (table_name x, n) ∈ renamed;
}.

Lemma renames_start : renames [] [] t0.
Proof.
  split; [done | | | ]; try (intros; exfalso; by eapply not_elem_of_nil). intros name e _ He. eauto.
Qed.

Lemma pair_in_C n (rc rc' : option Z) : (n, rc) ∈ C -> (n, rc') ∈ C -> rc = rc'.
Proof.
  intros [i Hi]%list_elem_of_lookup [j Hj]%list_elem_of_lookup.
  assert (i = j) as ->; [| congruence]. eapply (NoDup_lookup C.*1); [done | |]; by rewrite list_lookup_fmap, ?Hi, ?Hj.
Qed.

(** A new name that is taken does not have the count of an entry to come. *)
Lemma renames_taken processed rest x n rc renamed t : D = processed ++ x :: rest -> renames processed renamed t ->
  row_count x = Some rc -> (n, Some rc) ∈ C -> (forall y, y ∈ D -> row_count y = Some rc -> y = x) -> n ∉ renamed.*2.
Proof.
  intros HDp Hr Hrc Hn HxD ([o n'] & -> & Hin)%list_elem_of_fmap. cbn in *.
  destruct (renames_pair _ _ _ Hr o n' Hin) as (x' & Hx' & _ & _ & _ & rc' & Hrc' & Hn' & _).
  assert (rc' = rc) as -> by (pose proof (pair_in_C _ _ _ Hn Hn'); congruence).
  assert (x' = x) as -> by (apply HxD; [rewrite HDp, elem_of_app; by left | done]).
  revert HD. rewrite HDp, fmap_app, list.NoDup_app. cbn. intros (_ & Hdis & _). apply (Hdis (table_name x)); [by apply list_elem_of_fmap_2 | by left].
Qed.

Lemma renames_fresh processed rest x n renamed t : D = processed ++ x :: rest -> renames processed renamed t ->
  unambiguous x n -> n ∉ renamed.*2.
Proof. intros HDp Hr (rc & Hrc & Hn & HxD & _). by eapply renames_taken. Qed.

Lemma renames_skip processed rest x renamed t : D = processed ++ x :: rest -> renames processed renamed t ->
  (rename_of D C renamed x = None \/ ~ reliable k0) -> renames (processed ++ [x]) renamed t.
Proof.
  intros HDp Hr Hnone. split; [apply Hr | | apply Hr |].
  - intros o n Hin. destruct (renames_pair _ _ _ Hr o n Hin) as (x' & ? & ?). exists x'. rewrite elem_of_app. naive_solver.
  - intros Hk x' n [Hx' | ->%list_elem_of_singleton]%elem_of_app Hu; [by eapply renames_complete |].
    destruct Hnone as [Hnone | ?]; [exfalso | done]. rewrite (rename_of_unambiguous renamed x n) in Hnone; [done | | done |].
    + rewrite HDp, elem_of_app. right. by left.
    + by eapply renames_fresh.
Qed.

Lemma renames_step processed rest x renamed t n : D = processed ++ x :: rest -> renames processed renamed t ->
  rename_of D C renamed x = Some n ->
  (t !! n = None /\ t !! table_name x = Some x /\ t0 !! n = None)
  /\ (prose_kept (Some (<[n := named_as n x]> (delete (table_name x) t))) ->
      renames (processed ++ [x]) ((table_name x, n) :: renamed) (<[n := named_as n x]> (delete (table_name x) t))).
Proof.
  intros HDp Hr Hsome. assert (Hx : x ∈ D) by (rewrite HDp, elem_of_app; right; by left).
  destruct (rename_of_some _ _ _ Hx Hsome) as (rc & Hrc & Hn & Hnew & HxD & HnC).
  assert (Hun : unambiguous x n).
  { exists rc. split_and!; [done | done | done |]. intros c Hc Hcrc. apply HnC; [done | done |].
    eapply renames_taken; [done | done | done | | done]. rewrite <- Hcrc. by destruct c. }
  destruct (HDold x Hx) as [Hx0 Hxl]. destruct (HCnew _ Hn) as (Hn0 & _ & _). cbn in Hn0.
  assert (Hold : forall o m, (o, m) ∈ renamed -> is_Some (t0 !! o) /\ t0 !! m = None /\ o <> table_name x).
  { intros o m Hin. destruct (renames_pair _ _ _ Hr o m Hin) as (x' & Hx' & <- & _ & _ & rc' & _ & Hm & _).
    assert (x' ∈ D) as Hx'D by (rewrite HDp, elem_of_app; by left). destruct (HDold x' Hx'D) as [-> _]. destruct (HCnew _ Hm) as [Hm0 _]. cbn in Hm0.
    split_and!; [done | done |]. intros Heq. revert HD. rewrite HDp, fmap_app, list.NoDup_app. cbn. intros (_ & Hdis & _).
    apply (Hdis (table_name x)); [rewrite <- Heq; by apply list_elem_of_fmap_2 | by left]. }
  assert (Hx1 : table_name x ∉ renamed.*1).
  { intros ([o m] & Ho & Hin)%list_elem_of_fmap. cbn in Ho. by destruct (Hold o m Hin) as (_ & _ & ?). }
  assert (Hx2 : table_name x ∉ renamed.*2).
  { intros ([o m] & Ho & Hin)%list_elem_of_fmap. cbn in Ho. destruct (Hold o m Hin) as (_ & ? & _). congruence. }
  assert (Hn1 : n ∉ renamed.*1).
  { intros ([o m] & Ho & Hin)%list_elem_of_fmap. cbn in Ho. destruct (Hold o m Hin) as ([? ?] & _ & _). congruence. }
  assert (Hne : n <> table_name x) by congruence.
  split; [rewrite !(renames_others _ _ _ Hr) by done; done |]. intros Hp. split; [| | done |].
  - intros name. cbn. rewrite !not_elem_of_cons. intros [? ?] [? ?]. rewrite lookup_insert_ne, lookup_delete_ne by done. by apply Hr.
  - intros o m [[= -> ->] | Hin]%elem_of_cons.
    + exists x. rewrite lookup_insert_ne, lookup_delete_eq, lookup_insert_eq by done. rewrite elem_of_app, list_elem_of_singleton. auto.
    + destruct (renames_pair _ _ _ Hr o m Hin) as (x' & Hx' & Ho & Ht1 & Ht2 & ?). destruct (Hold o m Hin) as ([? ?] & ? & ?).
      exists x'. assert (m <> n) by (intros ->; apply Hnew; by apply (list_elem_of_fmap_2 snd) in Hin).
      rewrite !lookup_insert_ne, !lookup_delete_ne by congruence. rewrite elem_of_app. naive_solver.
  - intros Hk x' m [Hx' | ->%list_elem_of_singleton]%elem_of_app Hu; [right; by eapply renames_complete |].
    rewrite (rename_of_unambiguous renamed x m) in Hsome; [injection Hsome as ->; by left | done | done |].
    by eapply renames_fresh.
Qed.

Lemma act_rename_loop processed rest renamed : D = processed ++ rest ->
  act (fun e => exists t, renames processed renamed t /\ here primed t e) (rename_loop show D rest C target renamed)
    (fun r e => exists renamed' t, r = Ok renamed' /\ renames D renamed' t /\ here primed t e).
Proof.
  revert processed renamed. induction rest as [| x rest IH]; intros processed renamed HDp; cbn [rename_loop].
  { rewrite app_nil_r in HDp. subst processed. apply act_ret. intros e (t & Hr & Hh). eauto. }
  assert (HDp' : D = (processed ++ [x]) ++ rest) by by rewrite <- app_assoc.
  apply act_exists. intros t. apply act_pure. intros Hr. destruct (rename_of D C renamed x) as [n |] eqn:Hn.
  - destruct (renames_step _ _ _ _ _ _ HDp Hr Hn) as [(Hnone & Hx & Hn0) Hstep].
    destruct (act_rename (table_name x) n x t) as [Hact Hp]; [done | done | done | | apply Hr |].
    { apply HDold. rewrite HDp, elem_of_app. right. by left. }
    eapply act_bind; [by apply act_attempt | | intros r; apply kept_rename_loop; intros; apply gone_run | by intros err e (r & ? & _)].
    intros r. eapply act_weaken; [by apply (IH (processed ++ [x])) | | done]. intros e (r' & [= <-] & Hre).
    destruct r as [u | err]; [eexists; split; [by apply Hstep | done] |]. destruct Hre as [Hk Hh]. exists t.
    split; [eapply renames_skip; [done | done | by right] | done].
  - eapply act_weaken; [by apply (IH (processed ++ [x])) | | done]. intros e Hh. exists t. split; [eapply renames_skip; [done | done | by left] | done].
Qed.
End renames.

(** ** The whole reconciliation *)

(** The stub of a live table, with the count of its rows as a query gives it. *)
Definition counted_stub (t : gmap (list Z) (CatalogEntry Time)) (name : list Z) : Prop :=
  exists y db n, t !! name = Some y /\ (name, db) ∈ live /\ count_is db name n /\ is_stub name n y.

(** What the catalog is like afterwards. *)
Record reconciled (t : gmap (list Z) (CatalogEntry Time)) : Prop := {
  reconciled_names name : is_Some (t !! name) <-> name ∈ live.*1;
  reconciled_kept name x : t0 !! name = Some x -> name ∈ live.*1 ->
    exists db n, (name, db) ∈ live /\ count_is db name n /\ t !! name = Some (counting n x);
  reconciled_new name y : t !! name = Some y -> t0 !! name = None ->
    counted_stub t name
    \/ exists old x, t0 !! old = Some x /\ (old ∉ live.*1) /\ y = named_as name x
        /\ (name, alias) ∈ live /\ row_count x = Some (rows_in alias name k0)
        /\ (forall old' x', t0 !! old' = Some x' -> old' ∉ live.*1 -> row_count x' = row_count x -> old' = old)
        /\ (reliable k0 -> forall new', (new', alias) ∈ live -> t0 !! new' = None -> rows_in alias new' k0 = rows_in alias name k0 -> new' = name);
  reconciled_renamed old x new : reliable k0 ->
    t0 !! old = Some x -> old ∉ live.*1 -> (new, alias) ∈ live -> t0 !! new = None -> row_count x = Some (rows_in alias new k0) ->
    (forall old' x', t0 !! old' = Some x' -> old' ∉ live.*1 -> row_count x' = row_count x -> old' = old) ->
    (forall new', (new', alias) ∈ live -> t0 !! new' = None -> rows_in alias new' k0 = rows_in alias new k0 -> new' = new) ->
    t !! new = Some (named_as new x);
}.

Section phases.
Context (Hkeyed : forall name x, t0 !! name = Some x -> table_name x = name).
Context (entries : list (CatalogEntry Time)) (Hentries : entries ≡ₚ (map_to_list t0).*2).

Lemma entries_keyed x : x ∈ entries <-> t0 !! table_name x = Some x.
Proof.
  rewrite Hentries, list_elem_of_fmap. split.
  - intros ([name y] & -> & Hin%elem_of_map_to_list). cbn in *. by rewrite (Hkeyed _ _ Hin).
  - intros Hx. exists (table_name x, x). by rewrite elem_of_map_to_list.
Qed.

Lemma entries_nodup : NoDup (table_name <$> entries).
Proof.
  assert (Hp : table_name <$> entries ≡ₚ (map_to_list t0).*1); [| rewrite Hp; apply NoDup_fst_map_to_list].
  rewrite Hentries, <- list_fmap_compose. apply Permutation_refl'. apply list_fmap_ext. intros i [name x] Hi%list_elem_of_lookup_2. cbn.
  rewrite elem_of_map_to_list in Hi. by apply Hkeyed.
Qed.

Lemma entries_names name : name ∈ table_name <$> entries <-> is_Some (t0 !! name).
Proof.
  rewrite list_elem_of_fmap. split.
  - intros (x & -> & Hx%entries_keyed). by exists x.
  - intros [x Hx]. assert (x ∈ entries) as Hin by (rewrite Hentries; apply list_elem_of_fmap; exists (name, x); by rewrite elem_of_map_to_list).
    exists x. split; [| done]. symmetry. by apply Hkeyed.
Qed.

Abbreviation gone_tables := (filter (fun e => table_name e ∉ live.*1) entries).
Abbreviation new_tables := (filter (fun p => p.1 ∉ table_name <$> entries) live).

Lemma live_key p : p ∈ live -> p.1 ∈ live.*1.
Proof. apply list_elem_of_fmap_2. Qed.

(** The entries whose tables are gone. *)
Lemma act_deletes (t1 : gmap (list Z) (CatalogEntry Time)) (l : list (CatalogEntry Time)) : prose_kept (Some t1) -> (forall x, x ∈ l -> table_name x ∉ live.*1) ->
  act (here primed t1) (for_each l (fun e => let> _ := delete_for_in show (table_name e) target in ret tt))
    (or_stop (fun _ e => exists t, prose_kept (Some t) /\ (forall name, t !! name = if decide (name ∈ table_name <$> l) then None else t1 !! name) /\ here primed t e)).
Proof.
  intros Hp Hl. set (J := fun (d : list (CatalogEntry Time)) e => exists t, prose_kept (Some t)
    /\ (forall name, t !! name = if decide (name ∈ table_name <$> d) then None else t1 !! name) /\ here primed t e).
  apply (act_weaken (J []) _ _ (or_stop (fun _ => J l))); [| intros e H; by exists t1 | done].
  apply (act_for_each l _ J []).
  - intros d x rest Hd. apply act_exists. intros t. apply act_pure. intros Ht. apply act_pure. intros Hlook.
    assert (Hx : table_name x ∉ live.*1) by (apply Hl; cbn in Hd; rewrite Hd, elem_of_app; right; by left).
    destruct (act_delete (table_name x) t Hx Ht) as [Hact Hd']. eapply act_weaken; [exact Hact | done |].
    intros [u | err] e; [| done]. intros Hh. exists (delete (table_name x) t). split; [done |]. split; [| done].
    intros name. rewrite fmap_app. destruct (decide (name = table_name x)) as [-> | Hne].
    + rewrite lookup_delete_eq, decide_True; [done |]. apply elem_of_app. right. by left.
    + rewrite lookup_delete_ne, Hlook by done. apply decide_ext. rewrite elem_of_app. cbn. rewrite list_elem_of_singleton. naive_solver.
  - intros x. apply keeps_bind; [apply kept_delete_for; [intros; apply gone_run | apply gone_query | done] | intros b; apply keeps_ret].
Qed.

(** The stubs of tables that have no entry yet. *)
Lemma act_stubs (now : list Z) (t1 : gmap (list Z) (CatalogEntry Time)) (l : Names) : prose_kept (Some t1) -> l ⊆ live -> NoDup l.*1 -> (forall p, p ∈ l -> t1 !! p.1 = None) ->
  act (here primed t1) (for_each l (fun p => let> n := counted show p.2 p.1 in upsert_stub_in show now p.1 (str "unknown") None n false target None))
    (or_stop (fun _ e => exists t, prose_kept (Some t)
      /\ (forall name, if decide (name ∈ l.*1) then counted_stub t name else t !! name = t1 !! name) /\ here primed t e)).
Proof.
  intros Hp Hl Hnd Hnone. set (J := fun (d : Names) e => exists t, prose_kept (Some t)
    /\ (forall name, if decide (name ∈ d.*1) then counted_stub t name else t !! name = t1 !! name) /\ here primed t e).
  apply (act_weaken (J []) _ _ (or_stop (fun _ => J l))); [| intros e H; by exists t1 | done].
  apply (act_for_each l _ J []).
  - intros d [name db] rest Hd. cbn in Hd. apply act_exists. intros t. apply act_pure. intros Ht. apply act_pure. intros Hlook.
    assert (Hin : (name, db) ∈ l) by (rewrite Hd, elem_of_app; right; by left).
    assert (Hnd' : name ∉ d.*1).
    { rewrite Hd, fmap_app, list.NoDup_app in Hnd. destruct Hnd as (_ & Hdis & _). intros Hn. apply (Hdis name Hn). by left. }
    assert (Hnone' : t !! name = None) by (specialize (Hlook name); rewrite decide_False in Hlook by done; rewrite Hlook; by apply (Hnone (name, db))).
    cbn [fst snd]. eapply act_bind; [apply (act_counted primed t db name), live_tables, Hl, Hin | | | by intros err e [(n & ? & _) _]].
    + intros n. apply act_pure. intros (n' & [= <-] & Hn). eapply act_weaken; [by apply act_upsert | done |]. intros [u | err] e; [| done].
      intros (y & Hstub & Hkept & Hh). exists (<[name := y]> t). split; [done |]. split; [| done]. intros name'.
      rewrite fmap_app. cbn. destruct (decide (name' = name)) as [-> | Hne].
      * rewrite decide_True by (apply elem_of_app; right; by left). exists y, db, n. split; [apply lookup_insert_eq |]. auto.
      * specialize (Hlook name'). destruct (decide (name' ∈ d.*1)) as [Hin' | Hout].
        -- rewrite decide_True by (apply elem_of_app; by left). unfold counted_stub. by rewrite lookup_insert_ne.
        -- rewrite decide_False, lookup_insert_ne; [done | done |]. rewrite elem_of_app, list_elem_of_singleton. naive_solver.
    + intros n. apply kept_upsert; [intros; apply gone_run | done].
  - intros [name db]. apply keeps_bind; [apply kept_counted, gone_query | intros n; apply kept_upsert; [intros; apply gone_run | done]].
Qed.

(** The counts of the tables that had an entry. *)
Lemma act_refreshes (t1 : gmap (list Z) (CatalogEntry Time)) (l : Names) : prose_kept (Some t1) -> l ⊆ live -> NoDup l.*1 ->
  act (here primed t1) (for_each l (fun p => let> n := counted show p.2 p.1 in refresh_row_count_in show p.1 n target))
    (or_stop (fun _ e => exists t, prose_kept (Some t)
      /\ (forall name, if decide (name ∈ l.*1) then exists db n, (name, db) ∈ live /\ count_is db name n /\ t !! name = counting n <$> t1 !! name
                       else t !! name = t1 !! name) /\ here primed t e)).
Proof.
  intros Hp Hl Hnd. set (J := fun (d : Names) e => exists t, prose_kept (Some t)
    /\ (forall name, if decide (name ∈ d.*1) then exists db n, (name, db) ∈ live /\ count_is db name n /\ t !! name = counting n <$> t1 !! name
                     else t !! name = t1 !! name) /\ here primed t e).
  apply (act_weaken (J []) _ _ (or_stop (fun _ => J l))); [| intros e H; by exists t1 | done].
  apply (act_for_each l _ J []).
  - intros d [name db] rest Hd. cbn in Hd. apply act_exists. intros t. apply act_pure. intros Ht. apply act_pure. intros Hlook.
    assert (Hin : (name, db) ∈ live) by (apply Hl; rewrite Hd, elem_of_app; right; by left).
    assert (Hnd' : name ∉ d.*1).
    { rewrite Hd, fmap_app, list.NoDup_app in Hnd. destruct Hnd as (_ & Hdis & _). intros Hn. apply (Hdis name Hn). by left. }
    cbn [fst snd]. eapply act_bind; [apply (act_counted primed t db name), live_tables, Hin | | | by intros err e [(n & ? & _) _]].
    + intros n. apply act_pure. intros (n' & [= <-] & Hn). eapply act_weaken; [by apply act_refresh | done |]. intros [u | err] e; [| done].
      intros Hh. exists (alter (counting n) name t). split; [by apply prose_kept_counting |]. split; [| done]. intros name'.
      rewrite fmap_app. cbn. destruct (decide (name' = name)) as [-> | Hne].
      * rewrite decide_True by (apply elem_of_app; right; by left). exists db, n. specialize (Hlook name). rewrite decide_False in Hlook by done.
        by rewrite lookup_alter_eq, Hlook.
      * specialize (Hlook name'). rewrite lookup_alter_ne by done. destruct (decide (name' ∈ d.*1)) as [Hin' | Hout].
        -- rewrite decide_True by (apply elem_of_app; by left). done.
        -- rewrite decide_False; [done |]. rewrite elem_of_app, list_elem_of_singleton. naive_solver.
    + intros n. apply kept_refresh. intros; apply gone_run.
  - intros [name db]. apply keeps_bind; [apply kept_counted, gone_query | intros n; apply kept_refresh; intros; apply gone_run].
Qed.

Abbreviation candidates := (filter (fun p => Some p.2 = Some alias) new_tables).

(** The counts of the candidates. *)
Definition counts_of (C : list (list Z * option Z)) : Prop := Forall2 (fun p c => c.1 = p.1 /\ count_is p.2 p.1 c.2) candidates C.

Lemma candidates_live : candidates ⊆ live.
Proof. intros p Hp. apply list_elem_of_filter in Hp as [_ Hp]. by apply list_elem_of_filter in Hp as [_ Hp]. Qed.

Lemma counts_keys C : counts_of C -> C.*1 = candidates.*1.
Proof. unfold counts_of. generalize candidates. induction 1 as [| p c l C [H _] _ IH]; [done |]. cbn. congruence. Qed.

Lemma sublist_nodup {X} (l l' : list X) : sublist l l' -> NoDup l' -> NoDup l.
Proof. intros Hs Hl. by eapply sublist_NoDup. Qed.

Lemma counts_nodup C : counts_of C -> NoDup C.*1.
Proof.
  intros HC. rewrite (counts_keys C HC). eapply sublist_nodup; [| apply in_order_nodup, live_in_order].
  apply fmap_sublist. etrans; apply sublist_filter.
Qed.

Lemma counts_new C c : counts_of C -> c ∈ C -> t0 !! c.1 = None /\ (c.1, alias) ∈ live /\ count_is alias c.1 c.2.
Proof.
  intros HC [i Hi]%list_elem_of_lookup. destruct (Forall2_lookup_r _ _ _ _ _ HC Hi) as ([name db] & Hp & Hc1 & Hc2).
  apply list_elem_of_lookup_2 in Hp. pose proof (candidates_live _ Hp) as Hlive.
  apply list_elem_of_filter in Hp as [[= ->] Hp]. apply list_elem_of_filter in Hp as [Hn _]. cbn in Hn, Hc1, Hc2. rewrite Hc1.
  split_and!; [| done | done]. apply eq_None_not_Some. by rewrite <- entries_names.
Qed.

Lemma counts_in C name : counts_of C -> (name, alias) ∈ live -> t0 !! name = None -> reliable k0 -> (name, Some (rows_in alias name k0)) ∈ C.
Proof.
  intros HC Hl Hn Hk. assert ((name, alias) ∈ candidates) as [i Hi]%list_elem_of_lookup.
  { apply list_elem_of_filter. split; [done |]. apply list_elem_of_filter. split; [| done]. rewrite entries_names. cbn. rewrite Hn. by intros [? ?]. }
  destruct (Forall2_lookup_l _ _ _ _ _ HC Hi) as ([name' c] & Hc & Hc1 & Hc2). cbn in Hc1, Hc2. subst name'.
  destruct Hc2 as [-> | [_ ?]]; [by eapply list_elem_of_lookup_2 | done].
Qed.

Lemma gone_nodup : NoDup (table_name <$> gone_tables).
Proof. eapply sublist_nodup; [apply fmap_sublist, sublist_filter | apply entries_nodup]. Qed.

Lemma gone_in x : x ∈ gone_tables <-> t0 !! table_name x = Some x /\ table_name x ∉ live.*1.
Proof. rewrite list_elem_of_filter, entries_keyed. tauto. Qed.

Lemma act_renames :
  act (here primed t0)
    (match gone_tables, candidates with
     | [], _ | _, [] => ret []
     | _, _ => let> counts := count_all show candidates in rename_loop show gone_tables gone_tables counts target []
     end)
    (fun r e => exists renamed C t, r = Ok renamed /\ counts_of C /\ renames gone_tables C gone_tables renamed t /\ here primed t e).
Proof.
  assert (Hrun : act (here primed t0) (let> counts := count_all show candidates in rename_loop show gone_tables gone_tables counts target [])
            (fun r e => exists renamed C t, r = Ok renamed /\ counts_of C /\ renames gone_tables C gone_tables renamed t /\ here primed t e)).
  { eapply act_bind; [apply act_count_all, candidates_live | | intros C; apply kept_rename_loop; intros; apply gone_run | by intros err e [(C & ? & _) _]].
    intros C. apply act_pure. intros (C' & [= <-] & HC).
    eapply act_weaken; [eapply (act_rename_loop gone_tables C gone_nodup (fun x H => proj1 (gone_in x) H) (counts_nodup C HC) (fun c => counts_new C c HC) [] gone_tables []); done | |].
    - intros e Hh. exists t0. split; [apply renames_start | done].
    - intros r e (renamed & t & -> & Hr & Hh). exists renamed, C, t. done. }
  assert (Hskip : (gone_tables = [] \/ candidates = []) -> act (here primed t0) (ret (S := Engine K) (A := list (list Z * list Z)) [])
            (fun r e => exists renamed C t, r = Ok renamed /\ counts_of C /\ renames gone_tables C gone_tables renamed t /\ here primed t e)).
  { intros Hnone. apply act_ret. intros e Hh. exists [], ((fun p => (p.1, Some (rows_in p.2 p.1 k0))) <$> candidates), t0.
    split; [done |]. split; [| split; [| done]].
    - unfold counts_of. rewrite Forall2_fmap_r. apply Forall_Forall2_diag, Forall_forall. intros p _. split; [done | by left].
    - destruct (renames_start gone_tables ((fun p => (p.1, Some (rows_in p.2 p.1 k0))) <$> candidates)) as [H1 H2 H3 H4].
      split; [done | by intros o n ?%elem_of_nil | done |]. intros _ x n Hx (rc & _ & Hn & _).
      destruct Hnone as [Hnone | Hnone]; rewrite Hnone in *; [by apply elem_of_nil in Hx | by apply elem_of_nil in Hn]. }
  revert Hrun Hskip. destruct gone_tables as [| x D], candidates as [| c l]; auto.
Qed.

Lemma keys_in (P : list Z -> Prop) `{!forall p : list Z * list Z, Decision (P p.1)} (l : Names) name :
  name ∈ (filter (fun p => P p.1) l).*1 <-> P name /\ name ∈ l.*1.
Proof.
  rewrite !list_elem_of_fmap. split.
  - intros (p & -> & [? ?]%list_elem_of_filter). eauto.
  - intros [? (p & -> & ?)]. exists p. rewrite list_elem_of_filter. auto.
Qed.

Lemma known_keys name : name ∈ (filter (fun p => p.1 ∈ table_name <$> entries) live).*1 <-> is_Some (t0 !! name) /\ name ∈ live.*1.
Proof. etrans; [apply (keys_in (fun n => n ∈ table_name <$> entries)) |]. by rewrite entries_names. Qed.

Lemma new_keys (renamed : list (list Z * list Z)) name :
  name ∈ (filter (fun p => p.1 ∉ renamed.*2) new_tables).*1 <-> (name ∉ renamed.*2) /\ ~ is_Some (t0 !! name) /\ name ∈ live.*1.
Proof.
  etrans; [apply (keys_in (fun n => n ∉ renamed.*2)) |].
  rewrite <- entries_names. split; (intros [H1 H2]; split; [exact H1 | by apply (keys_in (fun n => n ∉ table_name <$> entries))]).
Qed.

Section assemble.
Context (C : list (list Z * option Z)) (renamed : list (list Z * list Z)) (t1 t2 t3 t4 : gmap (list Z) (CatalogEntry Time)).
Context (HC : counts_of C) (Hr : renames gone_tables C gone_tables renamed t1).
Context (H2 : forall name, t2 !! name = if decide (name ∈ table_name <$> filter (fun e => table_name e ∉ renamed.*1) gone_tables) then None else t1 !! name).
Context (H3 : forall name, if decide (name ∈ (filter (fun p => p.1 ∉ renamed.*2) new_tables).*1)
                           then counted_stub t3 name else t3 !! name = t2 !! name).
Context (H4 : forall name, if decide (name ∈ (filter (fun p => p.1 ∈ table_name <$> entries) live).*1)
                           then exists db n, (name, db) ∈ live /\ count_is db name n /\ t4 !! name = counting n <$> t3 !! name else t4 !! name = t3 !! name).

Lemma renamed_old name : name ∈ renamed.*1 -> t1 !! name = None /\ is_Some (t0 !! name) /\ name ∉ live.*1.
Proof.
  intros ([o n] & -> & Hin)%list_elem_of_fmap. destruct (renames_pair _ _ _ _ _ Hr o n Hin) as (x & Hx & <- & Ht & _).
  apply gone_in in Hx as [Hx Hl]. cbn. eauto.
Qed.

Lemma renamed_new name : name ∈ renamed.*2 ->
  t0 !! name = None /\ (name, alias) ∈ live /\ exists x, t0 !! table_name x = Some x /\ (table_name x ∉ live.*1)
    /\ t1 !! name = Some (named_as name x) /\ row_count x = Some (rows_in alias name k0)
    /\ (forall old' x', t0 !! old' = Some x' -> old' ∉ live.*1 -> row_count x' = row_count x -> old' = table_name x)
    /\ (reliable k0 -> forall new', (new', alias) ∈ live -> t0 !! new' = None -> rows_in alias new' k0 = rows_in alias name k0 -> new' = name).
Proof.
  intros ([o n] & -> & Hin)%list_elem_of_fmap. destruct (renames_pair _ _ _ _ _ Hr o n Hin) as (x & Hx & _ & _ & Ht & rc & Hrc & Hn & HxD & HnC).
  destruct (counts_new C _ HC Hn) as (H0 & Hl & Hcount). apply gone_in in Hx as [Hx Hxl]. cbn in *.
  assert (rc = rows_in alias n k0) as -> by (destruct Hcount as [[= ->] | [? _]]; [done | congruence]).
  split; [done |]. split; [done |]. exists x. split_and!; [done | done | done | done | |].
  - intros old x' Hx' Hxl' Hrc'. rewrite <- (Hkeyed _ _ Hx'). f_equal. apply HxD; [| congruence].
    apply gone_in. by rewrite (Hkeyed _ _ Hx').
  - intros Hk new Hnl Hn0 Hrows. apply (HnC (new, Some (rows_in alias new k0))); [by apply counts_in | cbn; by rewrite Hrows].
Qed.

Lemma after_deletes name : t2 !! name = (if decide (is_Some (t0 !! name) /\ name ∉ live.*1) then None else t1 !! name).
Proof.
  rewrite H2. destruct (decide (name ∈ renamed.*1)) as [Hin | Hout].
  - destruct (renamed_old name Hin) as (-> & ? & ?). by repeat case_decide.
  - apply decide_ext. rewrite list_elem_of_fmap. split.
    + intros (x & -> & [_ [Hx Hl]%gone_in]%list_elem_of_filter). eauto.
    + intros [[x Hx] Hl]. assert (name ∈ table_name <$> entries) as (y & -> & Hy)%list_elem_of_fmap by (apply entries_names; eauto).
      exists y. split; [done |]. apply list_elem_of_filter. split; [done |]. by rewrite gone_in, <- entries_keyed.
Qed.

Lemma after_known name x : t0 !! name = Some x -> name ∈ live.*1 ->
  exists db n, (name, db) ∈ live /\ count_is db name n /\ t4 !! name = Some (counting n x).
Proof.
  intros Hx Hl. specialize (H4 name). rewrite decide_True in H4 by (rewrite known_keys; by split; [exists x |]).
  destruct H4 as (db & n & ? & ? & ->). exists db, n. split_and!; [done | done |].
  specialize (H3 name). rewrite decide_False in H3.
  2: { rewrite new_keys, Hx. intros [_ [Hn _]]. apply Hn. eauto. }
  rewrite H3, after_deletes, decide_False by (intros [_ ?]; done).
  rewrite (renames_others _ _ _ _ _ Hr), Hx; [done | |]; intros Hin; [by apply renamed_old in Hin as (_ & _ & ?) | apply renamed_new in Hin as [? _]; congruence].
Qed.

Lemma after_unknown name : t0 !! name = None -> t4 !! name = t3 !! name.
Proof.
  intros Hx. specialize (H4 name). rewrite decide_False in H4; [done |]. rewrite known_keys, Hx. by intros [[? ?] _].
Qed.

Lemma after_renamed name : name ∈ renamed.*2 -> t4 !! name = t1 !! name.
Proof.
  intros Hin. destruct (renamed_new name Hin) as (Hx & _). rewrite after_unknown by done.
  specialize (H3 name). rewrite decide_False in H3 by (rewrite new_keys; tauto).
  rewrite H3, after_deletes, decide_False; [done |]. rewrite Hx. by intros [[? ?] _].
Qed.

Lemma after_stub name : t0 !! name = None -> name ∈ live.*1 -> name ∉ renamed.*2 -> counted_stub t4 name.
Proof.
  intros Hx Hl Hn. unfold counted_stub. rewrite after_unknown by done. specialize (H3 name). rewrite decide_True in H3; [done |].
  rewrite new_keys, Hx. split; [done |]. split; [by intros [? ?] | done].
Qed.

Lemma after_gone name : name ∉ live.*1 -> t4 !! name = None.
Proof.
  intros Hl. assert (H4' : t4 !! name = t3 !! name) by (specialize (H4 name); rewrite decide_False in H4; [done |]; rewrite known_keys; tauto).
  assert (H3' : t3 !! name = t2 !! name).
  { specialize (H3 name). rewrite decide_False in H3; [done |]. rewrite new_keys. tauto. }
  rewrite H4', H3', after_deletes. case_decide as Hd; [done |]. destruct (t0 !! name) eqn:Hx; [exfalso; apply Hd; eauto |].
  rewrite (renames_others _ _ _ _ _ Hr); [done | |]; intros Hin; [apply renamed_old in Hin as (_ & [? ?] & _); congruence |].
  apply renamed_new in Hin as (_ & Hin & _). by apply live_key in Hin.
Qed.

Lemma assembled : reconciled t4.
Proof.
  assert (Hdec : forall name, t0 !! name = None -> name ∈ live.*1 ->
            name ∈ renamed.*2 \/ counted_stub t4 name).
  { intros name Hx Hl. destruct (decide (name ∈ renamed.*2)); [by left | right; by apply after_stub]. }
  split.
  - intros name. split.
    + intros [y Hy]. destruct (decide (name ∈ live.*1)) as [| Hl]; [done |]. rewrite after_gone in Hy by done. done.
    + intros Hl. destruct (t0 !! name) as [x |] eqn:Hx.
      * destruct (after_known name x Hx Hl) as (db & n & _ & _ & ->). eauto.
      * destruct (Hdec name Hx Hl) as [Hin | (y & db & n & -> & _)]; [| eauto]. rewrite after_renamed by done.
        destruct (renamed_new name Hin) as (_ & _ & x & _ & _ & -> & _). eauto.
  - apply after_known.
  - intros name y Hy Hx. destruct (decide (name ∈ live.*1)) as [Hl | Hl]; [| rewrite after_gone in Hy by done; done].
    destruct (Hdec name Hx Hl) as [Hin | Hstub]; [right | by left].
    rewrite after_renamed in Hy by done. destruct (renamed_new name Hin) as (_ & Hnl & x & Hx0 & Hxl & Ht & Hrc & Hone & Hone').
    exists (table_name x), x. split_and!; [done | done | congruence | done | done | done | done].
  - intros old x new Hk Hx Hl Hn Hnew Hrc Hone Hone'. assert (Hkey : table_name x = old) by by apply Hkeyed.
    assert (Hin : (table_name x, new) ∈ renamed).
    { apply (renames_complete _ _ _ _ _ Hr Hk); [apply gone_in; by rewrite Hkey |].
      exists (rows_in alias new k0). split; [done |]. split; [by apply (counts_in C) |]. split.
      - intros y [Hy Hyl]%gone_in Hyrc. assert (table_name y = old) as Hyo by (apply (Hone _ y); [done | done | congruence]). congruence.
      - intros c Hc Hcn. destruct (counts_new C c HC Hc) as (Hc0 & Hcl & Hcount). apply Hone'; [done | done |].
        destruct Hcount as [Hcount | [_ ?]]; [congruence | done]. }
    rewrite after_renamed by (by apply (list_elem_of_fmap_2 snd) in Hin).
    destruct (renames_pair _ _ _ _ _ Hr _ _ Hin) as (x' & [Hx' _]%gone_in & Ho & _ & -> & _). congruence.
Qed.
End assemble.

Lemma act_phases (now : list Z) :
  act (here primed t0)
    (reconcile_entries show now target live entries)
    (or_stop (fun _ e => exists t, prose_kept (Some t) /\ reconciled t /\ here primed t e)).
Proof.
  assert (Hrun : forall conv sql, aside sql -> keeps gone (on_connection (run sql) conv)) by (intros; apply gone_run).
  assert (Hg3 : forall l : Names, keeps gone (for_each l (fun p => let> n := counted show p.2 p.1 in refresh_row_count_in show p.1 n target))).
  { intros l. apply keeps_for_each. intros p _. apply keeps_bind; [apply kept_counted, gone_query | intros n; by apply kept_refresh]. }
  assert (Hg2 : forall l : Names, keeps gone (for_each l (fun p => let> n := counted show p.2 p.1 in upsert_stub_in show now p.1 (str "unknown") None n false target None))).
  { intros l. apply keeps_for_each. intros p _. apply keeps_bind; [apply kept_counted, gone_query | intros n; by apply kept_upsert]. }
  assert (Hg1 : forall l : list (CatalogEntry Time), keeps gone (for_each l (fun e => let> _ := delete_for_in show (table_name e) target in ret tt))).
  { intros l. apply keeps_for_each. intros x _. apply keeps_bind; [by apply kept_delete_for; [| apply gone_query |] | intros b; apply keeps_ret]. }
  unfold reconcile_entries. cbv zeta. apply (act_routed _ (Some alias)); [intros e H; by apply like_routes, H |].
  eapply act_bind; [apply act_renames | | intros renamed; repeat (apply keeps_bind; [auto | intros _]); auto | by intros err e (? & ? & ? & ? & _)].
  intros renamed. apply act_exists. intros renamed'. apply act_exists. intros C. apply act_exists. intros t1.
  apply act_pure. intros [= <-]. apply act_pure. intros HC. apply act_pure. intros Hr.
  eapply act_bind; [apply act_deletes; [apply Hr |] | | intros _; apply keeps_bind; auto | done].
  { intros x [_ [_ Hx]%gone_in]%list_elem_of_filter. exact Hx. }
  intros []. cbn [or_stop]. apply act_exists. intros t2. apply act_pure. intros Hp2. apply act_pure. intros H2.
  eapply act_bind; [apply act_stubs; [exact Hp2 | | |] | | intros _; auto | done].
  { intros p [_ Hp]%list_elem_of_filter. by apply list_elem_of_filter in Hp as [_ Hp]. }
  { eapply sublist_nodup; [| apply in_order_nodup, live_in_order]. apply fmap_sublist. etrans; apply sublist_filter. }
  { intros p [Hp [Hn Hl]%list_elem_of_filter]%list_elem_of_filter. rewrite (after_deletes C renamed t1 t2 Hr H2).
    rewrite entries_names in Hn. rewrite decide_False by (by intros [? _]). rewrite (renames_others _ _ _ _ _ Hr); [by apply eq_None_not_Some | | done].
    intros Hin. by apply (renamed_old C renamed t1 Hr) in Hin as (_ & ? & _). }
  intros []. cbn [or_stop]. apply act_exists. intros t3. apply act_pure. intros Hp3. apply act_pure. intros H3.
  eapply act_weaken; [apply act_refreshes; [exact Hp3 | |] | done |].
  { intros p [_ Hp]%list_elem_of_filter. exact Hp. }
  { eapply sublist_nodup; [| apply in_order_nodup, live_in_order]. apply fmap_sublist, sublist_filter. }
  intros [u | err] e; [| done]. intros (t4 & Hp4 & H4 & Hh). exists t4. split; [done |]. split; [| done].
  by apply (assembled C renamed t1 t2 t3 t4).
Qed.
End phases.

Lemma act_reconcile (now : list Z) : (forall name x, t0 !! name = Some x -> table_name x = name) ->
  act (fun e => e = e0) (reconcile_in show parse_rfc3339 parse_naive_fraction parse_naive parse_error now target)
    (or_stop (fun _ e => exists t, prose_kept (Some t) /\ reconciled t /\ here primed t e)).
Proof.
  intros Hkeyed. assert (Hp : prose_kept (Some t0)) by (intros name x _ Hx; eauto).
  assert (Haside : forall conv sql, aside sql -> keeps gone (on_connection (run sql) conv)) by (intros; apply gone_run).
  assert (Hcache : forall e cache, gone e -> gone (with_cache e cache)) by (intros; by apply gone_cache).
  assert (Hlist : forall l, keeps gone (let> entries := list_in show parse_rfc3339 parse_naive_fraction parse_naive parse_error target in
                                         reconcile_entries show now target l entries)).
  { intros l. apply keeps_bind; [by apply kept_list; [apply gone_query |] |]. intros entries. apply kept_entries; [done | apply gone_query | done]. }
  eapply act_bind; [apply (act_ensure _ (fun _ => True) t0); [by intros e -> | exact Hp | apply act_create] | | | done].
  - intros []. cbn [or_stop]. eapply act_bind; [apply act_live | | exact Hlist | intros err e [? ?]; by eapply stopped_here].
    intros l. cbn beta iota. apply act_pure. intros ->.
    eapply act_bind; [apply act_list | | | intros err e [? ?]; by eapply stopped_here].
    + intros entries. cbn beta iota. apply act_pure. intros Hentries. by apply act_phases.
    + intros entries. apply kept_entries; [done | apply gone_query | done].
  - intros _. apply keeps_bind; [apply kept_live, gone_query | exact Hlist].
Qed.
End reconcile.
Arguments prose_kept {K Time _ _ _ _ _} alias {_} e0 c.
Arguments reconciled {K Time _ _ _ _ _} alias {_} e0 t.

(** ** A server in memory, for the witness

    The catalog of the persistent database, the tables with their rows, and which of
    the next statements fail. *)
Record Ledger : Type := mk_ledger {
  book : option (gmap (list Z) (CatalogEntry unit));
  shelf : list (list Z * list Z * Z);
  faulty : list bool;
}.

Abbreviation pq := (catalog_of PERSISTENT_ALIAS).

Definition up_to (d : Z) (s : list Z) : list Z * list Z :=
  match list_find (fun c => c = d) s with Some (i, _) => (take i s, drop i s) | None => (s, []) end.

Definition read_count (s : list Z) : option Z :=
  match s with
  | [] => None
  | c :: rest => if c =? 78 then None else if c =? 45 then Z.opp <$> digits_val 0 rest else digits_val 0 s
  end.

Definition literal (verb s : list Z) : option (list Z * list Z) := strip (verb ++ [39]) s ≫= unquote 39.

Definition read_name (s : list Z) : option (list Z) := fst <$> literal (str " WHERE table_name = ") s.

(** What is between the name and the two times in the INSERT of a stub. *)
Definition INSERT_FIRST : list Z := str ", NULL, NULL, NULL, 'unknown', NULL, NULL, TIMESTAMP ".
Definition INSERT_SECOND : list Z := str ", TIMESTAMP ".

(** The statement after the prefix of one of the kinds. *)
Definition read_stmt (sql : list Z) : option Stmt :=
  if bool_decide (sql = create_catalog_sql pq) then Some SCreate
  else
  match strip (str "ALTER TABLE " ++ pq ++ str " ADD COLUMN ") sql with
  | Some column => Some (SAddColumn column)
  | None =>
  match strip (str "UPDATE " ++ pq ++ str " SET row_count = ") sql with
  | Some rest => let p := up_to 32 rest in (fun name => SRefresh name (read_count p.1)) <$> read_name p.2
  | None =>
  match strip (str "UPDATE " ++ pq ++ str " SET load_tool = 'unknown', load_params = NULL, row_count = ") sql with
  | Some rest => let p := up_to 32 rest in (fun name => SStub name (read_count p.1)) <$> read_name p.2
  | None =>
  match literal (str "UPDATE " ++ pq ++ str " SET table_name = ") sql with
  | Some (new, rest) => SRename new <$> read_name rest
  | None =>
  match strip (str "DELETE FROM " ++ pq) sql with
  | Some rest => SDelete <$> read_name rest
  | None =>
  match literal (str "INSERT INTO " ++ pq
      ++ str " (table_name, source_url, source_description, purpose, load_tool, load_params, license, loaded_at, last_refreshed_at, row_count, notes, created_by, last_modified_by, data_url) SELECT ") sql with
  | Some (name, rest) =>
      match literal INSERT_FIRST rest ≫= fun p => literal INSERT_SECOND p.2 with
      | Some (now, rest) => (fun rest => SInsert now name (read_count (up_to 44 rest).1)) <$> strip (str ", ") rest
      | None => None
      end
  | None => None
  end end end end end end.

Lemma literal_quoted verb n rest : head rest <> Some 39 -> literal verb (verb ++ sql_literal n ++ rest) = Some (n, rest).
Proof.
  intros Hr. unfold literal, sql_literal, quoted.
  replace (verb ++ (39 :: double_quotes 39 n ++ [39]) ++ rest) with ((verb ++ [39]) ++ double_quotes 39 n ++ 39 :: rest)
    by (rewrite <- !app_assoc; cbn [app]; rewrite <- !app_assoc; done).
  rewrite strip_app. cbn [mbind option_bind]. by apply unquote_doubled.
Qed.

Lemma read_where name : read_name (where_name name) = Some name.
Proof. unfold read_name, where_name. rewrite <- (app_nil_r (sql_literal name)). by rewrite literal_quoted. Qed.

Lemma count_sql_chars n : Forall (fun c => c <> 32 /\ c <> 44) (count_sql n) /\ read_count (count_sql n) = n.
Proof.
  destruct n as [n |]; cbn [count_sql]; [| split; [by apply (bool_decide_unpack _); vm_compute | done]].
  unfold fmt_i. destruct (Z.ltb_spec n 0) as [Hn | Hn].
  - pose proof (fmt_u_digits (- n) ltac:(lia)) as Hd. split; [apply list.Forall_cons; split; [lia |]; eapply Forall_impl; [| exact Hd]; cbn; lia |].
    cbn -[fmt_u]. rewrite fmt_u_val by lia. cbn. f_equal. lia.
  - pose proof (fmt_u_digits n ltac:(lia)) as Hd. split; [eapply Forall_impl; [| exact Hd]; cbn; lia |].
    pose proof (fmt_u_val n ltac:(lia)) as Hv. pose proof (fmt_u_nonempty n ltac:(lia)) as Hne.
    destruct (fmt_u n) as [| c s]; [done |]. apply Forall_cons_1 in Hd as [Hc _].
    unfold read_count. rewrite !(proj2 (Z.eqb_neq c _)) by lia. exact Hv.
Qed.

Lemma up_to_count d n rest : d = 32 \/ d = 44 -> up_to d (count_sql n ++ d :: rest) = (count_sql n, d :: rest).
Proof.
  intros Hd. unfold up_to. destruct (count_sql_chars n) as [Hc _].
  assert (list_find (fun c => c = d) (count_sql n ++ d :: rest) = Some (length (count_sql n), d)) as ->.
  { rewrite list_find_app_r; [cbn; rewrite decide_True by done; done |]. apply list_find_None.
    eapply Forall_impl; [| exact Hc]. cbn. intros c [??]. destruct Hd; congruence. }
  by rewrite take_app_length, drop_app_length.
Qed.

Lemma strip_app3 a b c s : strip (a ++ b ++ c) (a ++ b ++ c ++ s) = Some s.
Proof. replace (a ++ b ++ c ++ s) with ((a ++ b ++ c) ++ s) by by rewrite <- !app_assoc. apply strip_app. Qed.

Lemma literal_quoted3 a b c n rest : head rest <> Some 39 -> literal (a ++ b ++ c) (a ++ b ++ c ++ sql_literal n ++ rest) = Some (n, rest).
Proof.
  intros Hr. replace (a ++ b ++ c ++ sql_literal n ++ rest) with ((a ++ b ++ c) ++ sql_literal n ++ rest) by by rewrite <- !app_assoc.
  by apply literal_quoted.
Qed.

(** A statement is read back. *)
Lemma read_text s : read_stmt (text pq s) = Some s.
Proof.
  unfold read_stmt.
  assert (Hcreate : bool_decide (text pq s = create_catalog_sql pq) = match s with SCreate => true | _ => false end).
  { destruct s; first [by apply bool_decide_true | by apply bool_decide_false]. }
  assert (Hadd : strip (str "ALTER TABLE " ++ pq ++ str " ADD COLUMN ") (text pq s) = match s with SAddColumn c => Some c | _ => None end).
  { destruct s; first [reflexivity | apply strip_app3]. }
  assert (Hrefresh : strip (str "UPDATE " ++ pq ++ str " SET row_count = ") (text pq s)
            = match s with SRefresh name n => Some (count_sql n ++ where_name name) | _ => None end).
  { destruct s; first [reflexivity | apply strip_app3]. }
  assert (Hstub : strip (str "UPDATE " ++ pq ++ str " SET load_tool = 'unknown', load_params = NULL, row_count = ") (text pq s)
            = match s with SStub name n => Some (count_sql n ++ where_name name) | _ => None end).
  { destruct s as [| | | name n | | |]; try reflexivity. etrans; [| apply (strip_app3 (str "UPDATE "))].
    f_equal. cbn [text]. rewrite !app_nil_r. reflexivity. }
  assert (Hrename : literal (str "UPDATE " ++ pq ++ str " SET table_name = ") (text pq s)
            = match s with SRename new old => Some (new, where_name old) | _ => None end).
  { destruct s; first [reflexivity | by apply literal_quoted3]. }
  assert (Hdelete : strip (str "DELETE FROM " ++ pq) (text pq s) = match s with SDelete name => Some (where_name name) | _ => None end).
  { destruct s; first [reflexivity | cbn [text]; rewrite app_assoc; apply strip_app]. }
  rewrite Hcreate, Hadd, Hrefresh, Hstub, Hrename, Hdelete.
  assert (Hspace : forall n name, up_to 32 (count_sql n ++ where_name name) = (count_sql n, where_name name))
    by (intros; apply up_to_count; by left).
  destruct s; try done; rewrite ?Hspace; cbn [fst snd]; rewrite ?read_where, ?(proj2 (count_sql_chars _)); try done.
  cbn [text]. rewrite literal_quoted3 by done.
  assert (Hfirst : forall x, str ", NULL, NULL, NULL, " ++ sql_literal (str "unknown") ++ str ", " ++ opt_sql_literal None ++ str ", NULL, TIMESTAMP " ++ x
            = INSERT_FIRST ++ x) by reflexivity.
  rewrite Hfirst, literal_quoted by done. cbn [mbind option_bind snd].
  change (str ", TIMESTAMP " ++ ?x) with (INSERT_SECOND ++ x). rewrite literal_quoted by done. rewrite strip_app. cbn [fmap option_fmap option_map].
  change (str ", NULL, " ++ ?x) with (44 :: str " NULL, " ++ x). rewrite up_to_count by (by right). cbn [fst]. by rewrite (proj2 (count_sql_chars _)).
Qed.

Definition ident (verb s : list Z) : option (list Z * list Z) := strip (verb ++ [34]) s ≫= unquote 34.

Lemma ident_quoted verb n rest : head rest <> Some 34 -> ident verb (verb ++ quote_ident n ++ rest) = Some (n, rest).
Proof.
  intros Hr. unfold ident, quote_ident, quoted.
  replace (verb ++ (34 :: double_quotes 34 n ++ [34]) ++ rest) with ((verb ++ [34]) ++ double_quotes 34 n ++ 34 :: rest)
    by (rewrite <- !app_assoc; cbn [app]; rewrite <- !app_assoc; done).
  rewrite strip_app. cbn [mbind option_bind]. by apply unquote_doubled.
Qed.

Definition read_query (sql : list Z) : option Query :=
  if bool_decide (sql = query_text pq QList) then Some QList
  else
  match ident (str "SELECT tablename FROM ") sql with
  | Some (db, _) => Some (QTables db)
  | None =>
      match ident (str "SELECT COUNT(*) AS cnt FROM ") sql with
      | Some (db, rest) => (fun p => QCount db p.1) <$> ident (str "." ++ quote_ident (str "public") ++ str ".") rest
      | None => None
      end
  end.

Lemma read_query_text s : read_query (query_text pq s) = Some s.
Proof.
  unfold read_query. destruct s as [| db | db name].
  - by rewrite bool_decide_true.
  - rewrite bool_decide_false by done. cbn [query_text]. by rewrite ident_quoted.
  - rewrite bool_decide_false by done.
    assert (ident (str "SELECT tablename FROM ") (query_text pq (QCount db name)) = None) as -> by reflexivity.
    cbn [query_text]. rewrite ident_quoted by done. rewrite <- (app_nil_r (quote_ident name)).
    replace (str "." ++ quote_ident (str "public") ++ str "." ++ quote_ident name ++ [])
      with ((str "." ++ quote_ident (str "public") ++ str ".") ++ quote_ident name ++ []) by by rewrite <- !app_assoc.
    by rewrite ident_quoted.
Qed.

Definition stub_entry (name : list Z) (n : option Z) : CatalogEntry unit :=
  mk_entry name None None None (Some (str "unknown")) None None tt tt n None None None None.

Definition apply_stmt (s : Stmt) (t : gmap (list Z) (CatalogEntry unit)) : Z * gmap (list Z) (CatalogEntry unit) :=
  match s with
  | SCreate | SAddColumn _ => (0, t)
  | SRefresh name n => (1, alter (counting n) name t)
  | SStub name n => match t !! name with Some x => (1, <[name := counting n x]> t) | None => (0, t) end
  | SInsert _ name n => match t !! name with Some _ => (0, t) | None => (1, <[name := stub_entry name n]> t) end
  | SRename new old => match t !! old with Some x => (1, <[new := named_as new x]> (delete old t)) | None => (0, t) end
  | SDelete name => (1, delete name t)
  end.

Definition next_ledger (k : Ledger) (b : option (gmap (list Z) (CatalogEntry unit))) : Ledger := mk_ledger b (shelf k) (tail (faulty k)).

Definition ledger_run (sql : list Z) (k : Ledger) : result Z Api.Error * Ledger :=
  if default false (head (faulty k)) then (Err fault, next_ledger k (book k))
  else
    match read_stmt sql, book k with
    | None, b => (Ok 0, next_ledger k b)
    | Some SCreate, b => (Ok 0, next_ledger k (Some (default ∅ b)))
    | Some _, None => (Err fault, next_ledger k None)
    | Some s, Some t => let p := apply_stmt s t in (Ok p.1, next_ledger k (Some p.2))
    end.

Definition cell (v : option (list Z)) : Value := match v with Some s => String s | None => Null end.

Definition row_of (e : CatalogEntry unit) : JsonRow :=
  [ (str "table_name", String (table_name e)); (str "source_url", cell (source_url _ e)); (str "source_description", cell (source_description _ e));
    (str "purpose", cell (purpose _ e)); (str "load_tool", cell (load_tool _ e)); (str "load_params", cell (load_params _ e));
    (str "license", cell (license _ e)); (str "row_count", match row_count e with Some n => Number n | None => Null end);
    (str "notes", cell (notes _ e)); (str "created_by", cell (created_by _ e)); (str "last_modified_by", cell (last_modified_by _ e));
    (str "data_url", cell (data_url _ e)) ].

Definition shelf_names (db : list Z) (k : Ledger) : list (list Z) := (fun p => p.1.2) <$> filter (fun p => p.1.1 = db) (shelf k).
Definition shelf_rows (db name : list Z) (k : Ledger) : Z := default 0 (snd <$> find (fun p => bool_decide (p.1 = (db, name))) (shelf k)).

Definition ledger_query (sql : list Z) (k : Ledger) : result (list JsonRow) Api.Error * Ledger :=
  if default false (head (faulty k)) then (Err fault, next_ledger k (book k))
  else
    (match read_query sql with
     | None => Ok []
     | Some QList => match book k with Some t => Ok (row_of <$> (map_to_list t).*2) | None => Err fault end
     | Some (QTables db) => Ok ((fun name => [(str "tablename", String name)]) <$> shelf_names db k)
     | Some (QCount db name) => Ok [[(str "cnt", Number (shelf_rows db name k))]]
     end, next_ledger k (book k)).

#[export] Instance ledger_connection : McpConnection Ledger := {
  mcp_client := {| run sql k := Val (ledger_run sql k); close_client k := Val (Ok tt, k) |};
  query_json sql k := Val (ledger_query sql k);
  path_exists _ _ := true;
}.

Lemma row_of_entry e : row_to_entry (fun _ => Some tt) (fun _ => None) (fun _ => None) (fun _ => []) (row_of e) = Ok e.
Proof.
  destruct e as [n a1 a2 a3 a4 a5 a6 [] [] rc a7 a8 a9 a10]. vm_compute. f_equal.
  f_equal; match goal with |- _ = ?a => destruct a; reflexivity end.
Qed.

Lemma rows_of_entries l : collect (row_to_entry (fun _ => Some tt) (fun _ => None) (fun _ => None) (fun _ => []) <$> (row_of <$> l)) = Ok l.
Proof. induction l as [| e l IH]; [done |]. cbn [fmap list_fmap collect]. by rewrite row_of_entry, IH. Qed.

Lemma next_faultless k b : faulty k = [] -> faulty (next_ledger k b) = [].
Proof. intros H. cbn. by rewrite H. Qed.

#[export] Instance ledger_server : CatalogServer Ledger unit (fun _ => Some tt) (fun _ => None) (fun _ => None) (fun _ => []) PERSISTENT_ALIAS.
Proof.
  refine {| catalog := book; tables_in := shelf_names; rows_in := shelf_rows; lost _ := False; reliable k := faulty k = [] |}.
  - intros sql k. eexists _, _. exact (f_equal Val (surjective_pairing _)).
  - intros sql k. eexists _, _. exact (f_equal Val (surjective_pairing _)).
  - done.
  - by intros k _ [].
  - done.
  - intros s k r k' [= Hr]. assert (exists b, k' = next_ledger k b) as [b ->]; [| done].
    revert Hr. unfold ledger_run. destruct (default false _); [intros [= <- <-]; eauto |].
    rewrite read_text. destruct s, (book k); intros [= <- <-]; eauto.
  - intros s k t r k' [= Hr] Ht. revert Hr. unfold ledger_run. destruct (default false _); [intros [= <- <-]; by left |]. rewrite read_text.
    assert (book k = Some t \/ (s = SCreate /\ t = default ∅ (book k))) as [Hb | [-> ->]] by (destruct s; auto).
    + rewrite Hb. destruct s; intros [= <- <-]; cbn [effect apply_stmt fst snd book next_ledger]; eexists; (split; [reflexivity |]); try done.
      * intros ->. done.
      * intros ->. by exists (stub_entry name count).
      * intros _. by destruct (t !! old_name).
    + destruct (book k); intros [= <- <-]; by eexists.
  - intros s k r k' [= Hr]. revert Hr. unfold ledger_query. destruct (default false _); by intros [= <- <-].
  - intros s k rows k' [= Hr]. revert Hr. unfold ledger_query. destruct (default false _); [done |]. rewrite read_query_text. destruct s as [| db | db name].
    + destruct (book k) as [t |]; intros [= <- <-]. intros t' [= <-]. exists (map_to_list t).*2. split; [apply rows_of_entries | done].
    + intros [= <- <-]. unfold fmap. induction (shelf_names db k) as [| n l IH]; [done |]. exact (f_equal (cons n) IH).
    + by intros [= <- <-].
  - intros s k r k' Hk [= Hr] Hs. revert Hr. unfold ledger_run. rewrite Hk. cbn [head default]. rewrite read_text.
    destruct s, (book k); intros [= <- <-]; cbn [next_ledger faulty]; rewrite ?Hk; eauto; by destruct Hs.
  - intros s k r k' Hk [= Hr] Hs. revert Hr. unfold ledger_query. rewrite Hk. cbn [head default]. rewrite read_query_text.
    destruct s, (book k); intros [= <- <-]; cbn [next_ledger faulty]; rewrite ?Hk; try done; by destruct Hs.
Defined.

(** ** The property *)

(** C12. A reconciliation brings the catalog of a database in line with its tables (those of
    the primary too, for the persistent catalog) and loses nothing people wrote about a
    table that exists. Whichever statements fail, and whenever the connection dies, it
    returns, and every live table keeps its prose. If it succeeds on a connection that is
    alive, the catalog has exactly the live tables: an entry that was there has only its count
    changed, to one just taken (or none, if counting failed); an entry that is new is a stub
    with such a count and no prose, or is the entry of the only table that disappeared with
    as many rows, under the new name. If nothing fails it succeeds,
    and the new name gets the entry exactly when it is the only new table of the
    catalog's own database with that many rows. *)
Theorem reconcile_follows {K Time} `{!McpConnection K} show (parse_rfc3339 parse_naive_fraction parse_naive : list Z -> option Time) parse_error alias
    `{!CatalogServer K Time parse_rfc3339 parse_naive_fraction parse_naive parse_error alias} (e : Engine K) target (now : list Z) :
  resolve_catalog_alias (has_persistent e) target = Some alias ->
  (forall name x, default ∅ (catalog (connection e)) !! name = Some x -> table_name x = name) ->
  exists r e', reconcile_in show parse_rfc3339 parse_naive_fraction parse_naive parse_error now target e = Returned r e'
    /\ prose_kept alias e (catalog (connection e'))
    /\ (r = Ok tt -> lost (connection e') \/ exists t, catalog (connection e') = Some t /\ reconciled alias e t)
    /\ (reliable (connection e) -> r = Ok tt /\ ~ lost (connection e')).
Proof.
  intros Htarget Hkeyed. destruct (act_reconcile show _ _ _ _ _ e target Htarget now Hkeyed e eq_refl) as (r & e' & Hr & Hpost).
  exists r, e'. split; [done |]. destruct Hpost as [(Hl & Hlost & Hp & Hn) | Hpost].
  - split; [done |]. split; [by left | done].
  - destruct r as [[] | err].
    + destruct Hpost as (t & Hp & Ht & [_ Hc _ _ Hrel _]). rewrite Hc. split; [done |]. split; [right; by exists t |].
      intros Hk. split; [done |]. by apply reliable_alive, Hrel.
    + destruct Hpost as [Hp Hn]. done.
Qed.

(** A table that was renamed, one whose count changed, one of the primary without an
    entry, and one that was dropped; the statements do not fail. *)
Definition noted (name note : list Z) (n : Z) : CatalogEntry unit :=
  mk_entry name None None (Some note) None None None tt tt (Some n) None None None None.
Definition sample_book : gmap (list Z) (CatalogEntry unit) :=
  list_to_map ((fun e => (table_name e, e)) <$> [noted (str "orders") (str "a") 7; noted (str "sales") (str "b") 3; noted (str "old") (str "c") 9]).
Definition sample_ledger : Ledger :=
  mk_ledger (Some sample_book)
    [(PERSISTENT_ALIAS, str "orders_2024", 7); (PERSISTENT_ALIAS, str "sales", 4); (str "scratch", str "tmp", 1)] [].
Definition sample_engine : Engine Ledger := mk_engine sample_ledger false (str "/tmp/scratch.hyper") (Some (str "/data/p.hyper")) false ∅.

Lemma sample_keyed name x : default ∅ (Some sample_book) !! name = Some x -> table_name x = name.
Proof.
  cbn [default]. intros Hx. apply elem_of_list_to_map_2 in Hx. revert Hx. rewrite list_elem_of_fmap. by intros (e & [= -> ->] & _).
Qed.

Lemma reconcile_follows_witness :
  resolve_catalog_alias (has_persistent sample_engine) None = Some PERSISTENT_ALIAS
  /\ (forall name x, default ∅ (catalog (connection sample_engine)) !! name = Some x -> table_name x = name)
  /\ reliable (connection sample_engine)
  /\ exists r e', reconcile_in (fun _ => []) (fun _ => Some tt) (fun _ => None) (fun _ => None) (fun _ => []) (str "now") None sample_engine = Returned r e'
    /\ prose_kept PERSISTENT_ALIAS sample_engine (catalog (connection e'))
    /\ (r = Ok tt -> lost (connection e') \/ exists t, catalog (connection e') = Some t /\ reconciled PERSISTENT_ALIAS sample_engine t)
    /\ (reliable (connection sample_engine) -> r = Ok tt /\ ~ lost (connection e')).
Proof.
  split; [reflexivity |]. split; [exact sample_keyed |]. split; [reflexivity |].
  exact (reconcile_follows (fun _ => []) (fun _ => Some tt) (fun _ => None) (fun _ => None) (fun _ => []) PERSISTENT_ALIAS sample_engine None (str "now")
           eq_refl sample_keyed).
Defined.

(** The renamed table keeps its entry. *)
Example orders_renamed :
  match reconcile_in (fun _ => []) (fun _ => Some tt) (fun _ => None) (fun _ => None) (fun _ => []) (str "now") None sample_engine with
  | Returned (Ok _) e => map_to_list (purpose _ <$> default ∅ (book (connection e))) = map_to_list (list_to_map (M := gmap (list Z) _)
      [(str "orders_2024", Some (str "a")); (str "sales", Some (str "b")); (str "tmp", None)])
  | _ => False
  end.
Proof. vm_compute. reflexivity. Qed.
