(* ===== verification/Attach.v ===== *)
(** * Attached databases

    [hyperdb-mcp/src/attach.rs]: the registry of the databases a session has attached,
    which is replayed on every new connection. The contract [AttachServer] says what
    its statements mean to a server; the theorems compare the registry with what the
    server has attached. *)

From stdpp Require Import strings gmap.
From S2P Require Import Prelude Text SqlEscape Connection Api Session McpErrors Engine TableCatalog Keeps.

Definition LOCAL_ALIAS : list Z := str "local".

(** ** Requests *)

Inductive OnMissing : Type := OnError | OnCreate.

Definition parse_on_missing (value : option (list Z)) : result OnMissing McpError :=
  match trim <$> value with
  | None => Ok OnError
  | Some v =>
      if bool_decide (v = []) || bool_decide (v = str "error") then Ok OnError
      else if bool_decide (v = str "create") then Ok OnCreate
      else Err (new InvalidArgument (str "on_missing must be 'error' or 'create', got '" ++ v ++ str "'"))
  end.

Inductive AttachSource : Type := LocalFile (path : list Z).

Definition source_path (s : AttachSource) : list Z := match s with LocalFile path => path end.

Record AttachedDb : Type := mk_attached { alias : list Z; source : AttachSource; writable : bool; attached_at : Z }.

Record AttachRequest : Type := mk_request {
  req_alias : list Z;
  req_source : AttachSource;
  req_writable : bool;
  on_missing : OnMissing;
}.

(** The vector and its mutex. *)
Record AttachRegistry : Type := mk_registry { inner : list AttachedDb; poisoned : bool }.

Definition new_registry : AttachRegistry := mk_registry [] false.

(** ** Validators *)

Definition is_alpha (c : Z) : bool := ((65 <=? c) && (c <=? 90)) || ((97 <=? c) && (c <=? 122)).

Definition validate_alias (alias : list Z) : result unit McpError :=
  if eq_ignore_ascii_case alias LOCAL_ALIAS then
    Err (new InvalidArgument (str "'local' is reserved for the primary workspace and cannot be used as an attach alias."))
  else
    match alias with
    | [] => Err (new InvalidArgument (str "Alias must be 1..=63 characters"))
    | first :: rest =>
        if (63 <? length (utf8 alias))%nat then Err (new InvalidArgument (str "Alias must be 1..=63 characters"))
        else if negb (is_alpha first || (first =? 95)) then
          Err (new InvalidArgument (str "Alias '" ++ alias ++ str "' must start with a letter or underscore"))
        else
          match find (fun c => negb (is_ascii_alphanumeric c || (c =? 95))) rest with
          | Some c =>
              Err (new InvalidArgument (str "Alias '" ++ alias ++ str "' contains invalid character '" ++ [c]
                                        ++ str "'. Allowed: [A-Za-z_][A-Za-z0-9_]{0,62}"))
          | None => Ok tt
          end
    end.

(** ** Statements *)

Definition attach_sql (path alias : list Z) : list Z := str "ATTACH DATABASE " ++ escape_sql_path path ++ str " AS " ++ quote_ident alias.
Definition detach_sql (alias : list Z) : list Z := str "DETACH DATABASE " ++ quote_ident alias.
Definition create_database_sql (path : list Z) : list Z := str "CREATE DATABASE IF NOT EXISTS " ++ escape_sql_path path.
Definition RESET_SEARCH_PATH : list Z := str "RESET schema_search_path".

Definition lock_poisoned : McpError := new InternalError (str "AttachRegistry lock poisoned").

Definition in_use (alias : list Z) : McpError :=
  new InvalidArgument (str "Alias '" ++ alias ++ str "' is already in use. Detach it first or pick a different alias.").

Definition missing_file (path : list Z) : McpError :=
  new FileNotFound (str "Attach path does not exist: " ++ path
    ++ str ". Pass on_missing='create' (with writable:true) to create an empty .hyper file at that path.").

Definition create_read_only : McpError :=
  new InvalidArgument (str "on_missing='create' requires writable:true " ++ [8212]
    ++ str " an empty .hyper file that cannot be written to cannot be populated.").

Section attach.
Context {K : Type} `{McpConnection K} (show : Api.Error -> list Z).

(** A tool's state with the registry it shares. *)
Definition Shared : Type := Engine K * AttachRegistry.

Definition set_primary_search_path : Tool (Engine K) unit := fun e =>
  (let> _ := execute_command show (set_search_path (primary_db_name e)) in ret tt) e.

Definition reset_search_path : Tool (Engine K) unit := fun e =>
  (if has_persistent e then set_primary_search_path
   else let> _ := execute_command show RESET_SEARCH_PATH in ret tt) e.

(** A step of the engine while the registry is locked. *)
Definition engine_step {A} (m : Tool (Engine K) A) : Tool (Engine K * list AttachedDb) A := fun s =>
  match m s.1 with
  | Returned r e => Returned r (e, s.2)
  | Panicked e => Panicked (e, s.2)
  end.

(** What runs with the registry locked poisons it by a panic. *)
Definition locked {A} (body : Tool (Engine K * list AttachedDb) A) : Tool Shared A := fun s =>
  if poisoned s.2 then Returned (Err lock_poisoned) s
  else
    match body (s.1, inner s.2) with
    | Returned r (e, l) => Returned r (e, mk_registry l false)
    | Panicked (e, l) => Panicked (e, mk_registry l true)
    end.

Definition entries : Tool (Engine K * list AttachedDb) (list AttachedDb) := fun s => Returned (Ok s.2) s.
Definition set_entries (l : list AttachedDb) : Tool (Engine K * list AttachedDb) unit := fun s => Returned (Ok tt) (s.1, l).

(** A failed rollback is logged. *)
Definition rollback_attach (alias : list Z) : Tool (Engine K * list AttachedDb) unit :=
  let> _ := attempt (engine_step (execute_command show (detach_sql alias))) in ret tt.

(** Whether the file was created. *)
Definition create_if_missing (req : AttachRequest) : Tool (Engine K) bool := fun e =>
  let path := source_path (req_source req) in
  (if path_exists path (connection e) then ret false
   else
     match on_missing req with
     | OnError => fail (missing_file path)
     | OnCreate =>
         if negb (req_writable req) then fail create_read_only
         else let> _ := execute_attach_command show (create_database_sql path) path in ret true
     end) e.

(** The rest of [attach] once the database is attached: the search path is pinned and a
    new file gets its catalog, or the attach is rolled back. *)
Definition finish_attach (now : Z) (alias : list Z) (req : AttachRequest) (l : list AttachedDb) (file_was_created : bool)
  : Tool (Engine K * list AttachedDb) AttachedDb :=
  let> pinned := attempt (engine_step set_primary_search_path) in
  match pinned with
  | Err e => let> _ := rollback_attach alias in fail e
  | Ok _ =>
      let> seeded := (if file_was_created then attempt (engine_step (ensure_exists_in show (Some alias))) else ret (Ok tt)) in
      match seeded with
      | Err e =>
          let> _ := rollback_attach alias in
          let> _ := (match l with [] => let> _ := attempt (engine_step reset_search_path) in ret tt | _ => ret tt end) in
          fail e
      | Ok _ =>
          let entry := mk_attached alias (req_source req) (req_writable req) now in
          let> _ := set_entries (l ++ [entry]) in
          ret entry
      end
  end.

(** [attach] behind its validation, with the registry locked and the alias in lower
    case; [now] is the clock. *)
Definition attach_locked (now : Z) (alias : list Z) (req : AttachRequest) : Tool (Engine K * list AttachedDb) AttachedDb :=
  let path := source_path (req_source req) in
  let> l := entries in
  if existsb (fun a => bool_decide (Attach.alias a = alias)) l then fail (in_use alias)
  else
    let> file_was_created := engine_step (create_if_missing req) in
    let> _ := engine_step (execute_attach_command show (attach_sql path alias) path) in
    finish_attach now alias req l file_was_created.

Definition attach (now : Z) (req : AttachRequest) : Tool Shared AttachedDb :=
  match validate_alias (req_alias req) with
  | Err e => fail e
  | Ok _ => locked (attach_locked now (to_ascii_lowercase (req_alias req)) req)
  end.

Definition position (alias : list Z) (l : list AttachedDb) : option nat :=
  fst <$> list_find (fun a => Attach.alias a = alias) l.

Definition detach_locked (alias : list Z) : Tool (Engine K * list AttachedDb) bool :=
  let> l := entries in
  match position alias l with
  | None => ret false
  | Some pos =>
      let> _ := engine_step (execute_command show (detach_sql alias)) in
      let l := delete pos l in
      let> _ := set_entries l in
      let> _ := (match l with [] => let> _ := attempt (engine_step reset_search_path) in ret tt | _ => ret tt end) in
      ret true
  end.

Definition detach (alias : list Z) : Tool Shared bool := locked (detach_locked (to_ascii_lowercase alias)).

Definition list_attached (r : AttachRegistry) : list AttachedDb := if poisoned r then [] else inner r.

Definition get_attached (r : AttachRegistry) (alias : list Z) : option AttachedDb :=
  if poisoned r then None
  else find (fun a => bool_decide (Attach.alias a = to_ascii_lowercase alias)) (inner r).

Fixpoint replay_loop (snapshot : list AttachedDb) : Tool (Engine K * list AttachedDb) unit :=
  match snapshot with
  | [] => ret tt
  | entry :: snapshot =>
      let> r := attempt (engine_step (execute_command show (attach_sql (source_path (source entry)) (Attach.alias entry)))) in
      let> _ := (match r with
                 | Ok _ => let> l := entries in set_entries (l ++ [entry])
                 | Err _ => ret tt
                 end) in
      replay_loop snapshot
  end.

Definition replay_all : Tool Shared unit :=
  locked
    (let> snapshot := entries in
     let> _ := set_entries [] in
     let> _ := replay_loop snapshot in
     let> l := entries in
     match l with
     | [] => ret tt
     | _ => let> _ := attempt (engine_step set_primary_search_path) in ret tt
     end).
End attach.

(** ** The contract of the server *)

Lemma aside_create path : aside (create_database_sql path).
Proof. exists (str "CREATE DATABASE "), (str "IF NOT EXISTS " ++ escape_sql_path path). split; [apply (bool_decide_unpack _); vm_compute |]; done. Qed.

(** The databases attached beside the primary, oldest first, and the search path, if
    one is set: documented behaviour of the statements. A statement that fails has had
    no effect, unless the connection died during it; on a dead connection everything
    fails. *)
Class AttachServer (K : Type) `{McpConnection K} := {
  attached : K -> list (list Z);
  search_path : K -> option (list Z);
  lost : K -> Prop;
  run_total sql (k : K) : exists r k', run sql k = Val (r, k');
  lost_stays sql (k : K) r k' : lost k -> run sql k = Val (r, k') -> lost k' /\ is_ok r = false;
  failed sql (k : K) e k' :
    run sql k = Val (Err e, k') -> lost k' \/ (attached k' = attached k /\ search_path k' = search_path k);
  attach_law path alias (k : K) n k' :
    run (attach_sql path alias) k = Val (Ok n, k') ->
    (alias ∉ attached k) /\ attached k' = attached k ++ [alias] /\ search_path k' = search_path k;
  detach_law alias (k : K) n k' :
    run (detach_sql alias) k = Val (Ok n, k') ->
    attached k' = filter (fun a => a <> alias) (attached k) /\ search_path k' = search_path k;
  pin_law name (k : K) n k' :
    run (set_search_path name) k = Val (Ok n, k') -> attached k' = attached k /\ search_path k' = Some name;
  reset_law (k : K) n k' :
    run RESET_SEARCH_PATH k = Val (Ok n, k') -> attached k' = attached k /\ search_path k' = None;
  aside_law sql (k : K) n k' :
    aside sql -> run sql k = Val (Ok n, k') -> attached k' = attached k /\ search_path k' = search_path k;
  query_total sql (k : K) : exists r k', query_json sql k = Val (r, k');
  query_law sql (k : K) r k' :
    query_json sql k = Val (r, k') ->
    if is_ok r then ~ lost k /\ attached k' = attached k /\ search_path k' = search_path k
    else lost k' \/ (~ lost k /\ attached k' = attached k /\ search_path k' = search_path k);
}.

(** ** Aliases *)

Definition valid_alias (a : list Z) : Prop :=
  a <> LOCAL_ALIAS /\ (1 <= length a <= 63)%nat /\ Forall (fun c => 97 <= c <= 122 \/ 48 <= c <= 57 \/ c = 95) a.

Lemma to_ascii_lower_idem c : to_ascii_lower (to_ascii_lower c) = to_ascii_lower c.
Proof.
  unfold to_ascii_lower at 2 3. destruct (Z.leb_spec 65 c), (Z.leb_spec c 90); cbn [andb]; unfold to_ascii_lower;
    repeat match goal with |- context [?a <=? ?b] => destruct (Z.leb_spec a b) end; cbn [andb]; lia.
Qed.

Lemma to_ascii_lowercase_idem s : to_ascii_lowercase (to_ascii_lowercase s) = to_ascii_lowercase s.
Proof. unfold to_ascii_lowercase. rewrite <- list_fmap_compose. apply list_fmap_ext. intros _ c _. apply to_ascii_lower_idem. Qed.

Lemma lower_alias_char c : is_ascii_alphanumeric c || (c =? 95) = true ->
  let d := to_ascii_lower c in 97 <= d <= 122 \/ 48 <= d <= 57 \/ d = 95.
Proof.
  unfold is_ascii_alphanumeric, to_ascii_lower. rewrite !orb_true_iff, !andb_true_iff, !Z.leb_le, Z.eqb_eq. intros H.
  repeat match goal with |- context [?a <=? ?b] => destruct (Z.leb_spec a b) end; cbn [andb]; lia.
Qed.

Lemma alpha_alphanumeric c : is_alpha c || (c =? 95) = true -> is_ascii_alphanumeric c || (c =? 95) = true.
Proof. unfold is_alpha, is_ascii_alphanumeric. rewrite !orb_true_iff. tauto. Qed.

(** What the validator lets through is, in lower case, a plain identifier. *)
Lemma validate_alias_ok alias : validate_alias alias = Ok tt -> valid_alias (to_ascii_lowercase alias).
Proof.
  unfold validate_alias, eq_ignore_ascii_case. case_bool_decide as Hlocal; [done |].
  destruct alias as [| first rest]; [done |]. destruct (Nat.ltb_spec 63 (length (utf8 (first :: rest)))) as [|Hlen]; [done |].
  destruct (is_alpha first || (first =? 95)) eqn:Hf; [| done]. cbn [negb].
  destruct (find _ rest) as [c |] eqn:Hfind; [done |]. intros _.
  assert (Hall : Forall (fun c => is_ascii_alphanumeric c || (c =? 95) = true) (first :: rest)).
  { constructor; [by apply alpha_alphanumeric |]. apply list.Forall_forall. intros c Hc. apply list_elem_of_In in Hc.
    pose proof (List.find_none _ _ Hfind c Hc) as Hn. by apply negb_false_iff in Hn. }
  rewrite utf8_ascii in Hlen.
  2: { eapply Forall_impl; [| exact Hall]. intros c Hc. unfold is_ascii_alphanumeric in Hc. unfold is_ascii.
       rewrite !orb_true_iff, !andb_true_iff, !Z.leb_le, Z.eqb_eq in Hc. lia. }
  split_and!.
  - intros Heq. apply Hlocal. rewrite Heq. reflexivity.
  - unfold to_ascii_lowercase. rewrite length_fmap. cbn [length]. lia.
  - unfold to_ascii_lowercase. rewrite length_fmap. exact Hlen.
  - unfold to_ascii_lowercase. apply list.Forall_fmap. eapply Forall_impl; [| exact Hall]. intros c Hc. by apply lower_alias_char.
Qed.

(** ** The registry and the server *)

Definition aliases (l : list AttachedDb) : list (list Z) := alias <$> l.

Section in_step.
Context {K : Type} `{!McpConnection K} (show : Api.Error -> list Z) `{!AttachServer K}.

(** What the engine attaches on its own. *)
Definition base (e : Engine K) : list (list Z) := if has_persistent e then [PERSISTENT_ALIAS] else [].

(** The server has attached what is registered and the aliases in [extra]. *)
Record in_step (e : Engine K) (l : list AttachedDb) (extra : list (list Z)) : Prop := {
  step_attached : attached (connection e) ≡ₚ base e ++ aliases l ++ extra;
  step_nodup : NoDup (attached (connection e));
}.

(** The server refused a DETACH of [a] on this connection. *)
Definition refused (a : list Z) (e : Engine K) : Prop :=
  exists k1 err k2, run (detach_sql a) k1 = Val (Err err, k2) /\ reaches k2 (connection e).

Lemma refused_like a e e' : like e e' -> refused a e -> refused a e'.
Proof. intros [_ _ Hto] (k1 & err & k2 & Hr & Hk). exists k1, err, k2. split; [done | by etrans]. Qed.

Definition live_in_step (e : Engine K) (l : list AttachedDb) (extra : list (list Z)) : Prop :=
  lost (connection e) \/ in_step e l extra.

Lemma like_base e e' : like e e' -> base e' = base e /\ primary_db_name e' = primary_db_name e.
Proof. intros [H1 H2 _]. unfold base, has_persistent, primary_db_name. by rewrite H1, H2. Qed.

Lemma in_step_same e e' l extra :
  like e e' -> attached (connection e') = attached (connection e) -> in_step e l extra -> in_step e' l extra.
Proof. intros [Hb _]%like_base Ha [H1 H2]. split; [by rewrite Ha, Hb | by rewrite Ha]. Qed.

(** A statement on the connection, whatever becomes of its error. *)
Lemma on_connection_runs conv sql (e : Engine K) :
  exists r k, run sql (connection e) = Val (r, k)
    /\ on_connection (run sql) conv e = Returned (match r with Ok n => Ok n | Err err => Err (conv err) end) (with_connection e k)
    /\ like e (with_connection e k) /\ (lost (connection e) -> lost k /\ is_ok r = false).
Proof.
  destruct (run_total sql (connection e)) as (r & k & Hr). exists r, k. split_and!; [done | | by eapply like_run |].
  - unfold on_connection. rewrite Hr. by destruct r.
  - intros Hl. exact (lost_stays _ _ _ _ Hl Hr).
Qed.

(** A statement that leaves the attachments alone when it succeeds leaves the registry
    in step in any case. *)
Definition spares (sql : list Z) : Prop :=
  forall (k : K) n k', run sql k = Val (Ok n, k') -> attached k' = attached k.

Lemma spares_runs conv sql e l extra : spares sql -> live_in_step e l extra ->
  exists r k, run sql (connection e) = Val (r, k)
    /\ on_connection (run sql) conv e = Returned (match r with Ok n => Ok n | Err err => Err (conv err) end) (with_connection e k)
    /\ live_in_step (with_connection e k) l extra.
Proof.
  intros Hs Hstep. destruct (on_connection_runs conv sql e) as (r & k & Hr & He & Hlike & Hl).
  exists r, k. split_and!; [done | done |]. destruct Hstep as [Hlost | Hstep]; [left; by apply Hl |].
  destruct r as [n | err].
  - right. eapply in_step_same; [done | | done]. by apply (Hs _ n).
  - destruct (failed _ _ _ _ Hr) as [Hk | [Ha _]]; [by left | right]. by eapply in_step_same.
Qed.

Lemma spares_aside sql : aside sql -> spares sql.
Proof. intros Ha k n k' Hr. by destruct (aside_law _ _ _ _ Ha Hr). Qed.

Lemma spares_pin name : spares (set_search_path name).
Proof. intros k n k' Hr. by destruct (pin_law _ _ _ _ Hr). Qed.

Lemma spares_reset : spares RESET_SEARCH_PATH.
Proof. intros k n k' Hr. by destruct (reset_law _ _ _ Hr). Qed.

(** What the statements set aside keep. *)
Section creating.
Context (I : Engine K -> Prop) (Haside : forall conv sql, aside sql -> keeps I (on_connection (run sql) conv)).

Lemma keeps_create req : keeps I (create_if_missing show req).
Proof.
  unfold create_if_missing. cbv zeta. apply keeps_reads. intros e. destruct (path_exists _ _); [apply keeps_ret |].
  destruct (on_missing req); [apply keeps_fail |]. destruct (req_writable req); [| apply keeps_fail].
  apply keeps_bind; [apply Haside, aside_create | intros _; apply keeps_ret].
Qed.
End creating.

Lemma keeps_spares l extra conv sql : spares sql -> keeps (fun e => live_in_step e l extra) (on_connection (run sql) conv).
Proof.
  intros Hs e H. destruct (spares_runs conv sql e l extra Hs H) as (r & k & Hr & -> & ?). eexists _, (with_connection e k).
  split_and!; [done | by eapply like_run | done].
Qed.

Lemma live_cache e cache l extra : live_in_step e l extra -> live_in_step (with_cache e cache) l extra.
Proof. intros [H | [H1 H2]]; [by left | right]. by split. Qed.

(** Unqualified names go to the primary. *)
Definition pinned (e : Engine K) : Prop := lost (connection e) \/ search_path (connection e) = Some (primary_db_name e).

Lemma keeps_aside l extra conv sql :
  aside sql -> keeps (fun e => live_in_step e l extra /\ pinned e) (on_connection (run sql) conv).
Proof.
  intros Ha e [H Hp]. destruct (spares_runs conv sql e l extra (spares_aside _ Ha) H) as (r & k & Hr & -> & Hs).
  eexists _, (with_connection e k). split_and!; [done | by eapply like_run | done |]. unfold pinned in *. cbn [connection with_connection].
  destruct Hp as [Hlost | Hp]; [left; by destruct (lost_stays _ _ _ _ Hlost Hr) |].
  destruct r as [n | err]; [right | destruct (failed _ _ _ _ Hr) as [Hk | [_ Hk]]; [by left | right]].
  - destruct (aside_law _ _ _ _ Ha Hr) as [_ ->]. done.
  - by rewrite Hk.
Qed.

Lemma keeps_set_primary l extra : keeps (fun e => live_in_step e l extra) (set_primary_search_path show).
Proof.
  apply (keeps_reads _ (fun e => let> _ := execute_command show (set_search_path (primary_db_name e)) in ret tt)). intros e.
  apply keeps_bind; [apply keeps_spares, spares_pin | intros _; apply keeps_ret].
Qed.

Lemma keeps_reset l extra : keeps (fun e => live_in_step e l extra) (reset_search_path show).
Proof.
  apply (keeps_reads _ (fun e => if has_persistent e then set_primary_search_path show
                                 else let> _ := execute_command show RESET_SEARCH_PATH in ret tt)).
  intros e. destruct (has_persistent e); [apply keeps_set_primary |].
  apply keeps_bind; [apply keeps_spares, spares_reset | intros _; apply keeps_ret].
Qed.

Lemma filter_keep (a : list Z) (l : list (list Z)) : a ∉ l -> filter (fun b => b <> a) l = l.
Proof.
  induction l as [| b l IH]; intros Ha; [done |]. rewrite not_elem_of_cons in Ha.
  rewrite filter_cons_True by (intros ->; tauto). by rewrite IH by tauto.
Qed.

Lemma filter_out (a : list Z) (l1 l2 : list (list Z)) :
  NoDup (l1 ++ a :: l2) -> filter (fun b => b <> a) (l1 ++ a :: l2) = l1 ++ l2.
Proof.
  intros (H1 & Hd & H2)%list.NoDup_app. apply list.NoDup_cons in H2 as [Ha H2].
  rewrite list.filter_app, filter_cons_False by tauto. rewrite !filter_keep; [done | done |].
  intros Hin. apply (Hd a Hin). by left.
Qed.

(** A DETACH takes its alias off the server, wherever the books have it. *)
Lemma detach_runs alias (e : Engine K) l extra l' extra' pre post :
  (base e ++ aliases l ++ extra ≡ₚ pre ++ alias :: post) -> (base e ++ aliases l' ++ extra' ≡ₚ pre ++ post) ->
  live_in_step e l extra ->
  exists r k, execute_command show (detach_sql alias) e = Returned r (with_connection e k) /\ like e (with_connection e k) /\
    (is_ok r = true -> in_step (with_connection e k) l' extra' /\ search_path k = search_path (connection e)) /\
    (is_ok r = false -> live_in_step (with_connection e k) l extra /\ refused alias (with_connection e k)).
Proof.
  intros Hin Hout Hstep. destruct (on_connection_runs (from_api show) (detach_sql alias) e) as (r & k & Hr & He & Hlike & Hl).
  eexists _, k. split; [exact He |]. split; [done |]. destruct r as [n | err]; split; intros Hok; try discriminate Hok.
  - destruct (detach_law _ _ _ _ Hr) as [Ha Hp]. split; [| done].
    destruct Hstep as [Hlost | [Hat Hnd]]; [by destruct (Hl Hlost) |]. split; cbn [connection with_connection]; rewrite Ha.
    + rewrite Hat, Hin in Hnd. rewrite Hat, Hin, filter_out by done. symmetry. exact Hout.
    + by apply list.NoDup_filter.
  - split; [| by exists (connection e), err, k]. destruct (failed _ _ _ _ Hr) as [Hk | [Ha _]]; [by left |].
    destruct Hstep as [Hlost | Hstep]; [left; by apply Hl | right]. by eapply in_step_same.
Qed.

(** The rollback of an attach: the alias is gone, or the server refused the DETACH. *)
Lemma rollback_runs a (e : Engine K) l extra :
  live_in_step e l (extra ++ [a]) ->
  exists e', rollback_attach show a (e, l) = Returned (Ok tt) (e', l) /\ like e e'
    /\ (live_in_step e' l extra \/ live_in_step e' l (extra ++ [a]) /\ refused a e').
Proof.
  intros Hstep.
  destruct (detach_runs a e l (extra ++ [a]) l extra (base e ++ aliases l ++ extra) []) as (r & k & He & Hlike & Hok & Herr); [| | done |].
  { by rewrite <- !app_assoc. }
  { by rewrite app_nil_r. }
  exists (with_connection e k). unfold rollback_attach, tool_bind, attempt, engine_step. cbn [fst snd]. rewrite He.
  split; [done |]. split; [done |]. destruct r as [n | err]; [left; right; by apply Hok | right; by apply Herr].
Qed.

Lemma engine_step_runs {A} (m : Tool (Engine K) A) e l r e' :
  m e = Returned r e' -> engine_step m (e, l) = Returned r (e', l).
Proof. intros Hm. unfold engine_step. cbn [fst snd]. by rewrite Hm. Qed.

Definition registered (a : list Z) (l : list AttachedDb) : bool := existsb (fun b => bool_decide (alias b = a)) l.

Lemma registered_spec a l : registered a l = true <-> a ∈ aliases l.
Proof.
  unfold registered. rewrite existsb_exists. unfold aliases. rewrite list_elem_of_fmap. split.
  - intros (x & Hx & Ha%bool_decide_eq_true). exists x. rewrite list_elem_of_In. auto.
  - intros (x & -> & Hx). exists x. rewrite <- list_elem_of_In. by rewrite bool_decide_true.
Qed.

(** A step that keeps the registry in step, run while the registry is locked. *)
Lemma engine_keeps {A} I (m : Tool (Engine K) A) e l :
  keeps I m -> I e -> exists r e', engine_step m (e, l) = Returned r (e', l) /\ like e e' /\ I e'.
Proof. intros Hm H. destruct (Hm e H) as (r & e' & Hr & ? & ?). exists r, e'. split; [by apply engine_step_runs | done]. Qed.

(** The statement that attaches. *)
Lemma attach_runs conv path a e l extra : live_in_step e l extra ->
  exists r k, on_connection (run (attach_sql path a)) conv e = Returned r (with_connection e k) /\ like e (with_connection e k) /\
    match r with
    | Ok _ => (a ∉ base e ++ aliases l ++ extra) /\ in_step (with_connection e k) l (extra ++ [a])
    | Err _ => live_in_step (with_connection e k) l extra
    end.
Proof.
  intros Hstep. destruct (on_connection_runs conv (attach_sql path a) e) as (r & k & Hr & He & Hlike & Hl).
  eexists _, k. split; [exact He |]. split; [done |]. destruct r as [n | err].
  - destruct Hstep as [Hlost | [Hat Hnd]]; [by destruct (Hl Hlost) |].
    destruct (attach_law _ _ _ _ _ Hr) as (Hnew & Ha & _). split; [by rewrite <- Hat |].
    split; cbn [connection with_connection]; rewrite Ha.
    + rewrite Hat. unfold base, has_persistent. cbn [persistent_path with_connection]. by rewrite <- !app_assoc.
    + apply list.NoDup_app. split_and!; [done | | apply NoDup_singleton]. intros b Hb ->%list_elem_of_singleton. done.
  - destruct (failed _ _ _ _ Hr) as [Hk | [Ha _]]; [by left |].
    destruct Hstep as [Hlost | Hstep]; [left; by apply Hl | right]. by eapply in_step_same.
Qed.

(** The pin: on success unqualified names go to the primary. *)
Lemma pin_runs (e : Engine K) l extra : live_in_step e l extra ->
  exists r e', set_primary_search_path show e = Returned r e' /\ like e e' /\ live_in_step e' l extra /\ (r = Ok tt -> pinned e').
Proof.
  intros Hstep. unfold set_primary_search_path, tool_bind.
  destruct (spares_runs (from_api show) _ e l extra (spares_pin (primary_db_name e)) Hstep) as (r & k & Hr & He & Hs).
  unfold execute_command. rewrite He. destruct r as [n | err]; eexists _, (with_connection e k); split_and!; try done; try by eapply like_run.
  intros _. right. by destruct (pin_law _ _ _ _ Hr).
Qed.

(** From the alias attached but not registered to the alias registered. *)
Lemma register_step e l extra (entry : AttachedDb) :
  live_in_step e l (extra ++ [alias entry]) -> live_in_step e (l ++ [entry]) extra.
Proof.
  intros [H | [Hat Hnd]]; [by left | right]. split; [| done]. rewrite Hat. unfold aliases. rewrite fmap_app. cbn [fmap list_fmap].
  rewrite <- !app_assoc. do 2 apply Permutation_app_head. apply Permutation_app_comm.
Qed.

(** What an attach leaves behind: an entry more, or the registry as it was. *)
Definition attach_outcome (e : Engine K) (l : list AttachedDb) (extra : list (list Z)) (new : AttachedDb)
    (r : result AttachedDb McpError) (e' : Engine K) (l' : list AttachedDb) : Prop :=
  let a := alias new in
  like e e' /\
  match r with
  | Ok entry => l' = l ++ [entry] /\ entry = new /\ (a ∉ aliases l) /\ (a ∉ base e) /\ live_in_step e' l' extra /\ pinned e'
  | Err _ => l' = l /\ (live_in_step e' l extra \/ live_in_step e' l (extra ++ [a]) /\ refused a e')
  end.

Lemma finish_attach_runs now a req l created e e2 extra :
  like e e2 -> (a ∉ aliases l) -> (a ∉ base e) -> live_in_step e2 l (extra ++ [a]) ->
  exists r e' l', finish_attach show now a req l created (e2, l) = Returned r (e', l')
    /\ attach_outcome e l extra (mk_attached a (req_source req) (req_writable req) now) r e' l'.
Proof.
  intros H2 Hnew Hbase Hs2. unfold finish_attach, tool_bind at 1, attempt at 1.
  destruct (pin_runs e2 l (extra ++ [a]) Hs2) as (rp & e3 & Hp & H3 & Hs3 & Hpin). erewrite engine_step_runs by exact Hp.
  assert (H3' : like e e3) by (by trans e2).
  destruct rp as [[] | err].
  2: { unfold tool_bind. destruct (rollback_runs a e3 l extra Hs3) as (e4 & -> & H4 & Hs4).
       exists (Err err), e4, l. split; [done |]. split; [by trans e3 | done]. }
  specialize (Hpin eq_refl). unfold tool_bind at 1.
  set (seed := if created then _ else _).
  assert (exists rs e4, seed (e3, l) = Returned (Ok rs) (e4, l) /\ like e3 e4 /\ live_in_step e4 l (extra ++ [a]) /\ pinned e4)
    as (rs & e4 & -> & H4 & Hs4 & Hpin4).
  { destruct created; subst seed; [| by exists (Ok tt), e3].
    destruct (engine_keeps (fun e => live_in_step e l (extra ++ [a]) /\ pinned e) (ensure_exists_in show (Some a)) e3 l) as (rs & e4 & Hr & H4 & Hs4 & Hp4);
      [| done | unfold attempt; rewrite Hr; by exists rs, e4].
    apply kept_ensure; [intros conv sql; apply keeps_aside |].
    intros e0 cache [? ?]. split; [by apply live_cache | done]. }
  assert (H4' : like e e4) by (by trans e3).
  destruct rs as [[] | err].
  - unfold tool_bind, set_entries, ret. cbn [fst snd].
    eexists _, e4, _. split; [reflexivity |]. split; [done |]. split_and!; try done. by apply register_step.
  - unfold tool_bind at 1. destruct (rollback_runs a e4 l extra Hs4) as (e5 & -> & H5 & Hs5).
    assert (H5' : like e e5) by (by trans e4).
    destruct l as [| x l]; [| unfold tool_bind; exists (Err err), e5, (x :: l); split; [done | split; auto]].
    assert (exists rr e6, engine_step (reset_search_path show) (e5, []) = Returned rr (e6, []) /\ like e5 e6
              /\ (live_in_step e6 [] extra \/ live_in_step e6 [] (extra ++ [a]) /\ refused a e6)) as (rr & e6 & Hr & H6 & Hs6).
    { destruct Hs5 as [Hs5 | [Hs5 Ha]]; (destruct (engine_keeps _ _ e5 [] (keeps_reset [] _) Hs5) as (rr & e6 & Hr & H6 & Hs6)); [eauto 10 |].
      exists rr, e6. pose proof (refused_like a e5 e6 H6 Ha). auto. }
    unfold tool_bind, attempt. rewrite Hr. exists (Err err), e6, []. split; [done |]. split; [by trans e5 | done].
Qed.

Lemma attach_locked_runs now a req e l extra : live_in_step e l extra ->
  exists r e' l', attach_locked show now a req (e, l) = Returned r (e', l')
    /\ attach_outcome e l extra (mk_attached a (req_source req) (req_writable req) now) r e' l'.
Proof.
  intros Hstep. unfold attach_locked. unfold tool_bind at 1, entries at 1. cbn [snd].
  fold (registered a l). destruct (registered a l) eqn:Hreg; [exists (Err (in_use a)), e, l; split; [done | split; [done | by auto]] |].
  assert (Hnew : a ∉ aliases l) by (intros Hin; apply registered_spec in Hin; congruence).
  unfold tool_bind at 1.
  destruct (engine_keeps (fun e => live_in_step e l extra) (create_if_missing show req) e l) as (rc & e1 & -> & H1 & Hs1);
    [apply keeps_create; intros conv sql Ha; apply keeps_spares, spares_aside, Ha | done |].
  destruct rc as [created | err]; [| exists (Err err), e1, l; split; [done | split; auto]].
  unfold tool_bind at 1.
  destruct (attach_runs (fun err => attach_lock_error show err (source_path (req_source req))) (source_path (req_source req)) a e1 l extra Hs1)
    as (ra & k & Ha & H12 & Hra). unfold execute_attach_command. erewrite engine_step_runs by exact Ha.
  assert (H2 : like e (with_connection e1 k)) by (by trans e1).
  destruct ra as [n | err]; [| exists (Err err), (with_connection e1 k), l; split; [done | split; auto]].
  destruct Hra as [Hfresh Hs2]. apply finish_attach_runs; [done | done | | by right].
  intros Hin. apply Hfresh. destruct (like_base _ _ H1) as [-> _]. apply elem_of_app. by left.
Qed.

(** ** Detaching and replaying *)

Lemma position_spec a l : match position a l with
  | Some pos => exists pre entry post, l = pre ++ entry :: post /\ delete pos l = pre ++ post /\ alias entry = a
  | None => a ∉ aliases l
  end.
Proof.
  unfold position. destruct (list_find _ l) as [[pos entry] |] eqn:Hf; cbn [fmap option_fmap option_map fst].
  - apply list_find_Some in Hf as (Hl & Ha & _). exists (take pos l), entry, (drop (S pos) l).
    split_and!; [by rewrite take_drop_middle | apply delete_take_drop | done].
  - apply list_find_None in Hf. unfold aliases. rewrite list_elem_of_fmap. intros (x & -> & Hx).
    rewrite list.Forall_forall in Hf. by apply (Hf x).
Qed.

Definition detach_outcome (a : list Z) (e : Engine K) (l : list AttachedDb) (extra : list (list Z))
    (r : result bool McpError) (e' : Engine K) (l' : list AttachedDb) : Prop :=
  like e e' /\
  match r with
  | Ok true => (exists pre entry post, l = pre ++ entry :: post /\ l' = pre ++ post /\ alias entry = a) /\ live_in_step e' l' extra
  | Ok false => (a ∉ aliases l) /\ l' = l /\ e' = e
  | Err _ => l' = l /\ live_in_step e' l extra
  end.

Lemma detach_locked_runs a e l extra : live_in_step e l extra ->
  exists r e' l', detach_locked show a (e, l) = Returned r (e', l') /\ detach_outcome a e l extra r e' l'.
Proof.
  intros Hstep. unfold detach_locked, tool_bind at 1, entries. cbn [snd]. pose proof (position_spec a l) as Hpos.
  destruct (position a l) as [pos |]; [| exists (Ok false), e, l; split; [done | split; [done | by auto]]].
  destruct Hpos as (pre & entry & post & -> & -> & <-). unfold tool_bind at 1.
  destruct (detach_runs (alias entry) e (pre ++ entry :: post) extra (pre ++ post) extra
              (base e ++ aliases pre) (aliases post ++ extra)) as (r & k & He & Hlk & Hok & Herr);
    [unfold aliases; rewrite fmap_app, <- !app_assoc; done | unfold aliases; rewrite fmap_app, <- !app_assoc; done | done |].
  erewrite engine_step_runs by exact He.
  destruct r as [n | err]; [| exists (Err err), (with_connection e k), (pre ++ entry :: post); split; [done |]; split; [done |]; split; [done | by apply Herr]].
  destruct (Hok eq_refl) as [Hs _]. unfold tool_bind at 1, set_entries at 1. cbn [fst]. unfold tool_bind at 1.
  assert (exists e', (match pre ++ post with [] => let> _ := attempt (engine_step (reset_search_path show)) in ret tt | _ => ret tt end)
                       (with_connection e k, pre ++ post) = Returned (Ok tt) (e', pre ++ post) /\ like (with_connection e k) e'
                     /\ live_in_step e' (pre ++ post) extra) as (e' & -> & Hl & Hs').
  { destruct (pre ++ post) as [| x l]; [| exists (with_connection e k); split; [done |]; split; [done | by right]].
    destruct (engine_keeps _ _ (with_connection e k) [] (keeps_reset [] extra) (or_intror Hs)) as (rr & e' & Hr & ? & ?).
    exists e'. unfold tool_bind, attempt. by rewrite Hr. }
  exists (Ok true), e', (pre ++ post). split; [done |]. split; [by trans (with_connection e k) |]. split; [by exists pre, entry, post | done].
Qed.

(** An ATTACH the server refused, on a connection that came from [k]. *)
Definition attach_refused (k : K) (entry : AttachedDb) : Prop :=
  exists k1 err k2, reaches k k1 /\ run (attach_sql (source_path (source entry)) (alias entry)) k1 = Val (Err err, k2).

Lemma attach_refused_from k0 k entry : reaches k0 k -> attach_refused k entry -> attach_refused k0 entry.
Proof. intros H0 (k1 & err & k2 & H1 & Hr). exists k1, err, k2. split; [by etrans | done]. Qed.

Lemma replay_loop_runs snapshot e l extra : live_in_step e l extra ->
  exists e' kept, replay_loop show snapshot (e, l) = Returned (Ok tt) (e', l ++ kept) /\ like e e'
    /\ kept `sublist_of` snapshot /\ live_in_step e' (l ++ kept) extra
    /\ Forall (fun entry => entry ∈ kept \/ attach_refused (connection e) entry) snapshot.
Proof.
  revert e l. induction snapshot as [| entry snapshot IH]; intros e l Hstep.
  { exists e, []. rewrite app_nil_r. by split_and!. }
  cbn [replay_loop]. unfold tool_bind at 1, attempt at 1.
  destruct (attach_runs (from_api show) (source_path (source entry)) (alias entry) e l extra Hstep) as (r & k & Ha & Hlk & Hr).
  unfold execute_command. erewrite engine_step_runs by exact Ha. unfold tool_bind.
  assert (Hlater : forall kept : list AttachedDb, Forall (fun x => x ∈ kept \/ attach_refused (connection (with_connection e k)) x) snapshot ->
            Forall (fun x => x ∈ kept \/ attach_refused (connection e) x) snapshot).
  { intros kept. apply Forall_impl. intros x [Hx | Hx]; [by left | right]. eapply attach_refused_from; [apply Hlk | done]. }
  destruct r as [n | err].
  - destruct Hr as [_ Hs]. unfold entries, set_entries. cbn [fst snd].
    destruct (IH (with_connection e k) (l ++ [entry])) as (e' & kept & -> & Hl & Hsub & Hs' & Hall); [apply register_step; by right |].
    rewrite <- app_assoc in *. exists e', (entry :: kept). split_and!; [done | by trans (with_connection e k) | by constructor | done |].
    constructor; [left; by left |]. eapply Forall_impl; [| exact (Hlater _ Hall)]. intros x [Hx | Hx]; [left; by right | by right].
  - cbn. destruct (IH (with_connection e k) l Hr) as (e' & kept & -> & Hl & Hsub & Hs' & Hall).
    exists e', kept. split_and!; [done | by trans (with_connection e k) | by constructor | done |].
    constructor; [right | by apply Hlater]. destruct (run_total (attach_sql (source_path (source entry)) (alias entry)) (connection e)) as (r & k1 & Hrun).
    unfold on_connection in Ha. rewrite Hrun in Ha. destruct r as [n | err']; [done |]. by exists (connection e), err', k1.
Qed.

Lemma replay_all_runs e l : live_in_step e [] [] ->
  exists e' l', replay_all show (e, mk_registry l false) = Returned (Ok tt) (e', mk_registry l' false) /\ like e e'
    /\ l' `sublist_of` l /\ live_in_step e' l' [] /\ Forall (fun entry => entry ∈ l' \/ attach_refused (connection e) entry) l.
Proof.
  intros Hstep. unfold replay_all, locked. cbn [poisoned inner fst snd]. unfold tool_bind at 1, entries at 1. cbn [snd].
  unfold tool_bind at 1, set_entries. cbn [fst]. unfold tool_bind at 1.
  destruct (replay_loop_runs l e [] [] Hstep) as (e1 & kept & -> & H1 & Hsub & Hs1 & Hall). cbn [app] in *.
  unfold tool_bind at 1, entries. cbn [snd]. destruct kept as [| x kept]; [by exists e1, [] |].
  destruct (engine_keeps _ _ e1 (x :: kept) (keeps_set_primary (x :: kept) []) Hs1) as (rr & e2 & Hr & H2 & Hs2).
  unfold tool_bind, attempt. rewrite Hr. exists e2, (x :: kept). split_and!; [done | by trans e1 | done | done | done].
Qed.
End in_step.
