(* ===== verification/Server.v ===== *)
(** * The MCP server

    The engine slot of [hyperdb-mcp/src/server.rs] ([ensure_engine], [with_engine]), the
    routing of a tool to its database, and the calls that attach and detach. Requests are handled one at a time: the server holds its engine mutex
    while a tool runs. *)

From stdpp Require Import strings gmap.
From S2P Require Import Prelude Text SqlClassify SqlEscape Connection Api Session McpErrors Engine CopyQuery TableCatalog Keeps Attach.

(** ** [HyperMcpServer] *)

(** The slot with the poison flag of its mutex, the flag of the catalog bootstrap, the
    registry, the mode and the persistent database. *)
Record Server (K : Type) : Type := mk_server {
  slot : option (Engine K);
  slot_poisoned : bool;
  catalog_ready : bool;
  attachments : AttachRegistry;
  read_only : bool;
  workspace_path : option (list Z);
}.
Arguments mk_server {K} _ _ _ _ _ _.
Arguments slot {K} _.
Arguments slot_poisoned {K} _.
Arguments catalog_ready {K} _.
Arguments attachments {K} _.
Arguments read_only {K} _.
Arguments workspace_path {K} _.

(** What the discovery of the daemon, or the spawning of [hyperd], comes to: a
    connection, whether it is the daemon's, and the path of the new primary. *)
Definition Opening (K : Type) : Type := result (K * bool * list Z) McpError.

Definition new_server {K} (read_only : bool) (workspace_path : option (list Z)) : Server K :=
  mk_server None false false new_registry read_only workspace_path.

Section server.
Context {K : Type} `{McpConnection K} (show : Api.Error -> list Z).
Context {Time : Type} (parse_rfc3339 parse_naive_fraction parse_naive : list Z -> option Time) (parse_error : list Z -> list Z).

Definition reconcile (now : list Z) (target_db : option (list Z)) : Tool (Engine K) unit :=
  reconcile_in show parse_rfc3339 parse_naive_fraction parse_naive parse_error now target_db.

(** [lock_engine_recovering_poison]. *)
Definition lock_engine (s : Server K) : Server K :=
  if slot_poisoned s
  then mk_server None false (catalog_ready s) (attachments s) (read_only s) (workspace_path s)
  else s.

Definition with_slot (s : Server K) (e : option (Engine K)) (ready : bool) (reg : AttachRegistry) : Server K :=
  mk_server e (slot_poisoned s) ready reg (read_only s) (workspace_path s).

(** A failed replay is logged. *)
Definition ensure_engine (opening : Opening K) : Tool (Server K) unit := fun s =>
  let s := lock_engine s in
  match slot s with
  | Some _ => Returned (Ok tt) s
  | None =>
      match opening with
      | Err e => Returned (Err e) s
      | Ok (k, daemon, ephemeral_path) =>
          match start show k daemon ephemeral_path (workspace_path s) with
          | Panicked _ => Panicked s
          | Returned (Err e) _ => Returned (Err e) s
          | Returned (Ok _) engine =>
              match replay_all show (engine, attachments s) with
              | Panicked (_, reg) => Panicked (with_slot s None (catalog_ready s) reg)
              | Returned _ (engine, reg) => Returned (Ok tt) (with_slot s (Some engine) false reg)
              end
          end
      end
  end.

(** The catalog of a new engine; its failures are logged. *)
Definition ensure_catalog_ready (now : list Z) (read_only ready : bool) : Tool (Engine K) unit :=
  if read_only || ready then ret tt
  else
    let> _ := attempt (ensure_exists_in show None) in
    let> _ := attempt (reconcile now None) in
    ret tt.

Definition on_engine {A} (m : Tool (Engine K) A) : Tool (@Shared K) A := fun s =>
  match m s.1 with
  | Returned r e => Returned r (e, s.2)
  | Panicked e => Panicked (e, s.2)
  end.

Definition panicked (detail : list Z) : McpError :=
  new InternalError (str "internal error: tool call panicked (" ++ detail ++ str "); the connection was reset, retry").

(** The text of a panic is a parameter. *)
Definition with_engine {A} (opening : Opening K) (now detail : list Z) (f : Tool (@Shared K) A) : Tool (Server K) A :=
  let> _ := ensure_engine opening in
  fun s =>
    match slot s with
    | None => Panicked s
    | Some engine =>
        match (let> _ := on_engine (ensure_catalog_ready now (read_only s) (catalog_ready s)) in f) (engine, attachments s) with
        | Panicked (_, reg) => Returned (Err (panicked detail)) (with_slot s None false reg)
        | Returned r (engine, reg) =>
            let ready := catalog_ready s || negb (read_only s) in
            match r with
            | Err e => if bool_decide (code e = ConnectionLost) then Returned (Err e) (with_slot s None false reg)
                       else Returned (Err e) (with_slot s (Some engine) ready reg)
            | Ok a => Returned (Ok a) (with_slot s (Some engine) ready reg)
            end
        end
    end.

(** ** Routing *)

Definition check_writable (read_only : bool) (operation : list Z) : result unit McpError :=
  if read_only then Err (new ReadOnlyViolation (str "Operation '" ++ operation ++ str "' is not permitted in read-only mode"))
  else Ok tt.

Definition not_attached (db : list Z) : McpError :=
  new InvalidArgument (str "database '" ++ db ++ str "' is not attached. Call attach_database first, or use " ++ [34]
                       ++ PERSISTENT_ALIAS ++ [34] ++ str ".").
Definition attached_read_only (db : list Z) : McpError :=
  new InvalidArgument (str "database '" ++ db ++ str "' was attached read-only. Re-attach with writable:true to write to it.").

(** [None] is the primary. *)
Definition resolve_db (database : option (list Z)) (persist : option bool) (require_writable : bool) (s : @Shared K)
  : result (option (list Z)) McpError :=
  let effective := match database, persist with
                   | Some db, _ => Some db
                   | None, Some true => Some PERSISTENT_ALIAS
                   | _, _ => None
                   end in
  let effective := match effective with
                   | Some db => if eq_ignore_ascii_case db LOCAL_ALIAS then None else Some db
                   | None => None
                   end in
  match resolve_target_db effective s.1 with
  | Err e => Err e
  | Ok resolved =>
      if bool_decide (resolved = primary_db_name s.1) then Ok None
      else if require_writable && bool_decide (resolved <> PERSISTENT_ALIAS) then
        match get_attached s.2 resolved with
        | None => Err (not_attached resolved)
        | Some entry => if writable entry then Ok (Some resolved) else Err (attached_read_only resolved)
        end
      else Ok (Some resolved)
  end.
End server.

(** ** Steps that keep the registry in step *)

Section catalog_steps.
Context {K : Type} `{!McpConnection K} (show : Api.Error -> list Z) `{!AttachServer K}.
Context {Time : Type} (parse_rfc3339 parse_naive_fraction parse_naive : list Z -> option Time) (parse_error : list Z -> list Z).
Context (l : list AttachedDb) (extra : list (list Z)).

#[local] Notation "'steps' m" := (keeps (fun e => live_in_step e l extra) m) (at level 10).

Lemma steps_query sql : steps (execute_query_to_json show sql).
Proof.
  intros e H. destruct (query_total sql (connection e)) as (r & k & Hr). unfold execute_query_to_json, on_connection. rewrite Hr.
  pose proof (query_law _ _ _ _ Hr) as Hlaw.
  assert (Hk : live_in_step (with_connection e k) l extra).
  { destruct r as [rows | err]; cbn [is_ok] in Hlaw; [| destruct Hlaw as [Hlost | Hlaw]; [by left |]];
      destruct Hlaw as (Hn & Ha & _); (destruct H as [Hlost | H]; [done | right]);
      (apply (in_step_same e); [by eapply like_query | exact Ha | done]). }
  destruct r as [rows | err]; (eexists _, (with_connection e k); split_and!; [done | by eapply like_query | done]).
Qed.

Lemma steps_cache (f : gmap (list Z) bool -> gmap (list Z) bool) :
  steps (fun e => Returned (Ok tt) (with_cache e (f (catalog_present_cache e)))).
Proof. intros e H. eexists _, _. split; [done |]. split; [done | by apply live_cache]. Qed.

Lemma steps_aside conv sql : aside sql -> steps (on_connection (run sql) conv).
Proof. intros Ha. by apply keeps_spares, spares_aside. Qed.

Lemma steps_ensure target : steps (ensure_exists_in show target).
Proof. apply kept_ensure; [exact steps_aside | exact (fun e cache => live_cache e cache l extra)]. Qed.

Lemma steps_reconcile now target : steps (reconcile show parse_rfc3339 parse_naive_fraction parse_naive parse_error now target).
Proof. apply kept_reconcile; [exact steps_aside | exact steps_query | exact (fun e cache => live_cache e cache l extra)]. Qed.

Lemma steps_catalog_ready now ro ready :
  steps (ensure_catalog_ready show parse_rfc3339 parse_naive_fraction parse_naive parse_error now ro ready).
Proof.
  unfold ensure_catalog_ready. destruct (ro || ready); [apply keeps_ret |].
  apply keeps_bind; [apply keeps_attempt, steps_ensure |]. intros _.
  apply keeps_bind; [apply keeps_attempt, steps_reconcile | intros _; apply keeps_ret].
Qed.
End catalog_steps.

(** ** Calls *)

(** A call of a tool: one that attaches or detaches, or any other. *)
Inductive Call (K : Type) : Type :=
| CallAttach (now : Z) (req : AttachRequest)
| CallDetach (alias : list Z)
| CallTool (f : Tool (@Shared K) unit).
Arguments CallAttach {K} now req.
Arguments CallDetach {K} alias.
Arguments CallTool {K} f.

Section calls.
Context {K : Type} `{!McpConnection K} (show : Api.Error -> list Z).
Context {Time : Type} (parse_rfc3339 parse_naive_fraction parse_naive : list Z -> option Time) (parse_error : list Z -> list Z).

(** What the tools do besides, in [attach_database] and [detach_database]: the count
    of the tables is a query, and the cached probe of a detached alias is dropped. *)
Definition attach_call (now : Z) (req : AttachRequest) : Tool (@Shared K) unit :=
  let> _ := attach show now req in
  let> _ := attempt (on_engine (execute_query_to_json show
              (str "SELECT COUNT(*) AS cnt FROM " ++ quote_ident (req_alias req) ++ str ".pg_catalog.pg_tables WHERE schemaname = 'public'"))) in
  ret tt.

Definition detach_call (alias : list Z) : Tool (@Shared K) unit :=
  let alias := to_ascii_lowercase alias in
  let> outcome := detach show alias in
  if outcome : bool then on_engine (clear_catalog_cache_for alias) else ret tt.

Definition body_of (c : Call K) : Tool (@Shared K) unit :=
  match c with
  | CallAttach now req => attach_call now req
  | CallDetach alias => detach_call alias
  | CallTool f => f
  end.

Definition run_call (opening : Opening K) (now detail : list Z) (c : Call K) : Tool (Server K) unit :=
  with_engine show parse_rfc3339 parse_naive_fraction parse_naive parse_error opening now detail (body_of c).

(** The calls one after the other, whatever they return. *)
Fixpoint run_calls (calls : list (Opening K * list Z * list Z * Call K)) : Tool (Server K) unit :=
  match calls with
  | [] => ret tt
  | (opening, now, detail, c) :: calls => let> _ := attempt (run_call opening now detail c) in run_calls calls
  end.
End calls.

Section registry.
Context {K : Type} `{!McpConnection K} (show : Api.Error -> list Z) `{!AttachServer K}.
Context {Time : Type} (parse_rfc3339 parse_naive_fraction parse_naive : list Z -> option Time) (parse_error : list Z -> list Z).

(** A statement of the start of an engine. *)
Lemma spares_attached conv sql (e : Engine K) X : spares sql -> lost (connection e) \/ attached (connection e) = X ->
  exists r k, on_connection (run sql) conv e = Returned r (with_connection e k) /\ reaches (connection e) k /\ (lost k \/ attached k = X).
Proof.
  intros Hs HX. destruct (on_connection_runs conv sql e) as (r & k & Hr & He & [_ _ Hto] & Hl). eexists _, k.
  split; [exact He |]. split; [exact Hto |].
  destruct HX as [Hlost | HX]; [left; by apply Hl |]. destruct r as [n | err].
  - right. rewrite <- HX. by apply (Hs _ n).
  - destruct (failed _ _ _ _ Hr) as [Hk | [Ha _]]; [by left | right; by rewrite Ha].
Qed.

(** A new connection has nothing attached. *)
Definition fresh (opening : Opening K) : Prop :=
  match opening with Ok (k, _, _) => attached k = [] | Err _ => True end.

Lemma aside_schema : aside (str "CREATE SCHEMA IF NOT EXISTS public").
Proof. by apply (aside_verb 0 (str "CREATE SCHEMA ") (str "IF NOT EXISTS public")). Qed.

(** The persistent database of a new engine. *)
Lemma attach_default_runs path primary (e : Engine K) : lost (connection e) \/ attached (connection e) = [] ->
  exists r k, attach_default_persistent show path primary e = Returned r (with_connection e k) /\ reaches (connection e) k
    /\ (is_ok r = true -> lost k \/ attached k = [PERSISTENT_ALIAS]).
Proof.
  intros H1. unfold attach_default_persistent. cbv zeta. set (created := negb _). set (make := if created then _ else _).
  assert (exists rm k2, make e = Returned rm (with_connection e k2) /\ reaches (connection e) k2 /\ (lost k2 \/ attached k2 = []))
    as (rm & k2 & Hm & Hk2 & H2).
  { subst make. destruct created; [| by exists (Ok 0), (connection e); destruct e].
    by apply spares_attached; [apply spares_aside, aside_create |]. }
  rewrite (bind_returned _ _ _ _ _ Hm). destruct rm as [m | err]; [| by exists (Err err), k2].
  destruct (on_connection_runs (fun err => persistent_attach_error show err path) (attach_sql path PERSISTENT_ALIAS) (with_connection e k2))
    as (ra & k3 & Hra & Ha & [_ _ Hto3] & Hl3).
  change (str "ATTACH DATABASE " ++ escape_sql_path path ++ str " AS " ++ 34 :: PERSISTENT_ALIAS ++ [34]) with (attach_sql path PERSISTENT_ALIAS).
  cbn [connection with_connection] in Hto3. assert (Hk3 : reaches (connection e) k3) by (by etrans).
  rewrite (bind_returned _ _ _ _ _ Ha). destruct ra as [n3 | err]; [| by eexists _, k3].
  assert (H3 : lost k3 \/ attached k3 = [PERSISTENT_ALIAS]).
  { destruct H2 as [Hlost | H2]; [by destruct (Hl3 Hlost) | right]. destruct (attach_law _ _ _ _ _ Hra) as (_ & -> & _).
    cbn [connection with_connection]. by rewrite H2. }
  destruct (spares_attached (fun err => new InternalError (str "Failed to pin schema_search_path: " ++ show err)) _
              (with_connection e k3) [PERSISTENT_ALIAS] (spares_pin primary) H3) as (rp & k4 & Hp & Hto4 & H4).
  cbn [connection with_connection] in Hto4. assert (Hk4 : reaches (connection e) k4) by (by etrans).
  rewrite (bind_returned _ _ _ _ _ Hp). destruct rp as [n4 | err]; by eexists _, k4.
Qed.

Lemma start_runs k daemon path persistent :
  attached k = [] ->
  exists r e, start show k daemon path persistent = Returned r e
    /\ (r = Ok tt -> live_in_step e [] [] /\ reaches k (connection e)).
Proof.
  intros Hk. unfold start. set (e0 := mk_engine k daemon path persistent false ∅).
  destruct (spares_attached (fun err => new InternalError (str "Failed to bootstrap public schema: " ++ show err))
              _ e0 [] (spares_aside _ aside_schema)) as (r & k1 & Hr & Hk1 & H1); [by right |].
  assert (exists rb, bootstrap_public_schema show e0 = Returned rb (with_connection e0 k1)) as [rb Hb].
  { unfold bootstrap_public_schema. rewrite (bind_returned _ _ _ _ _ Hr). destruct r; by eexists. }
  rewrite (bind_returned _ _ _ _ _ Hb). destruct rb as [[] | err]; [| by exists (Err err), (with_connection e0 k1)].
  destruct persistent as [p |].
  - destruct (attach_default_runs p (path_stem path) (with_connection e0 k1) H1) as (rp & k2 & Hp & Hk2 & H2).
    rewrite (bind_returned _ _ _ _ _ Hp). destruct rp as [created | err]; [| by eexists _, _].
    eexists _, _. split; [reflexivity |]. intros _. split; [| by etrans]. destruct (H2 eq_refl) as [? | H3]; [by left | right].
    split; cbn [connection with_connection]; rewrite H3; [done | apply NoDup_singleton].
  - eexists _, _. split; [reflexivity |]. intros _. split; [| done]. destruct H1 as [? | H1]; [by left | right].
    split; cbn [connection with_connection]; rewrite H1; [done | apply NoDup_nil_2].
Qed.

(** The aliases of a registry are plain, in lower case and distinct. *)
Definition well_named (l : list AttachedDb) : Prop := NoDup (aliases l) /\ Forall valid_alias (aliases l).

(** The server has attached what is registered and, besides, only aliases whose DETACH it
    refused on this connection, unless the connection is lost. *)
Definition followed (e : Engine K) (l : list AttachedDb) : Prop :=
  exists extra, live_in_step e l extra /\ Forall (fun a => refused a e) extra.

(** The registry is usable and in step with the server. *)
Definition registry_ok (reg : AttachRegistry) : Prop := poisoned reg = false /\ well_named (inner reg).
Definition shared_ok (s : @Shared K) : Prop := registry_ok s.2 /\ followed s.1 (inner s.2).

Definition server_ok (s : Server K) : Prop :=
  slot_poisoned s = false /\ registry_ok (attachments s)
  /\ match slot s with None => True | Some e => followed e (inner (attachments s)) end.

Lemma refused_all (e e' : Engine K) extra : like e e' -> Forall (fun a => refused a e) extra -> Forall (fun a => refused a e') extra.
Proof. intros Hl. apply Forall_impl. intros a. by apply refused_like. Qed.

Lemma sublist_named l l' : l' `sublist_of` l -> well_named l -> well_named l'.
Proof.
  intros Hs [Hn Hv]. assert (Ha : aliases l' `sublist_of` aliases l).
  { clear Hn Hv. unfold aliases. induction Hs; cbn [fmap list_fmap]; by constructor. }
  split; [by eapply sublist_NoDup |]. revert Hv. clear Hn Hs. induction Ha; intros Hv; inversion Hv; subst; auto.
Qed.

(** What a call that returned [r] does to the registry: an attach that succeeded has added
    its entry, a detach has removed it, and everything else has left the registry alone. *)
Definition call_registered (c : Call K) (r : result unit McpError) (l l' : list AttachedDb) : Prop :=
  match c, r with
  | CallAttach now req, Ok _ =>
      l' = l ++ [mk_attached (to_ascii_lowercase (req_alias req)) (req_source req) (req_writable req) now]
  | CallDetach a, Ok _ => l' = filter (fun entry => alias entry <> to_ascii_lowercase a) l
  | _, _ => l' = l
  end.

(** A step on the engine returns and leaves the registry alone. *)
Lemma quiet_on_engine {A} (m : Tool (Engine K) A) s :
  (forall l extra, keeps (fun e => live_in_step e l extra) m) -> shared_ok s ->
  exists r s', on_engine m s = Returned r s' /\ shared_ok s' /\ s'.2 = s.2.
Proof.
  intros Hm [Hreg (extra & He & Href)]. destruct (Hm _ _ s.1 He) as (r & e' & Hr & Hl & He'). unfold on_engine. rewrite Hr.
  exists r, (e', s.2). split; [done |]. split; [| done]. split; [done |]. exists extra. split; [done | by eapply refused_all].
Qed.

Lemma attach_registers now req s : shared_ok s ->
  exists r s', attach show now req s = Returned r s' /\ shared_ok s'
    /\ match r with
       | Ok _ => inner s'.2 = inner s.2 ++ [mk_attached (to_ascii_lowercase (req_alias req)) (req_source req) (req_writable req) now]
       | Err _ => inner s'.2 = inner s.2
       end.
Proof.
  destruct s as [e reg]. intros Hs. unfold attach. destruct (validate_alias (req_alias req)) as [[] | err] eqn:Hv; [| by exists (Err err), (e, reg)].
  apply validate_alias_ok in Hv. destruct Hs as [[Hp [Hnd Hval]] (extra & He & Href)]. unfold locked. cbn [fst snd] in *. rewrite Hp.
  destruct (attach_locked_runs show now (to_ascii_lowercase (req_alias req)) req e (inner reg) extra He) as (r & e' & l' & -> & Hl & Hr).
  apply (refused_all _ _ _ Hl) in Href. cbn [alias] in Hr.
  destruct r as [entry | err]; eexists _, (e', mk_registry l' false); (split; [reflexivity |]); cbn [fst snd inner].
  - destruct Hr as (-> & -> & Hnew & _ & He' & _). split; [| done]. split; [split; [done |] | by exists extra]. unfold well_named, aliases in *.
    cbn [inner snd]. rewrite fmap_app. cbn [fmap list_fmap alias]. split.
    + apply list.NoDup_app. split_and!; [done | | apply NoDup_singleton]. intros x Hx ->%list_elem_of_singleton. done.
    + apply Forall_app_2; [done | by constructor].
  - destruct Hr as [-> [He' | [He' Ha]]]; (split; [| done]); (split; [done |]); [by exists extra |].
    exists (extra ++ [to_ascii_lowercase (req_alias req)]). split; [done |]. apply Forall_app_2; [done | by constructor].
Qed.

Lemma without_entry a (l : list AttachedDb) : a ∉ aliases l -> filter (fun entry => alias entry <> a) l = l.
Proof.
  induction l as [| b l IH]; intros Ha; [done |]. unfold aliases in Ha. cbn [fmap list_fmap] in Ha. rewrite not_elem_of_cons in Ha.
  rewrite filter_cons_True by (intros Heq; by destruct Ha). by rewrite IH by tauto.
Qed.

Lemma detach_registers a s : shared_ok s ->
  exists r s', detach show a s = Returned r s' /\ shared_ok s'
    /\ match r with
       | Ok _ => inner s'.2 = filter (fun entry => alias entry <> to_ascii_lowercase a) (inner s.2)
       | Err _ => inner s'.2 = inner s.2
       end.
Proof.
  destruct s as [e reg]. intros [[Hp Hn] (extra & He & Href)]. unfold detach, locked. cbn [fst snd] in *. rewrite Hp.
  destruct (detach_locked_runs show (to_ascii_lowercase a) e (inner reg) extra He) as (r & e' & l' & -> & Hl & Hr).
  apply (refused_all _ _ _ Hl) in Href.
  exists r, (e', mk_registry l' false). split; [by destruct r |]. cbn [fst snd inner].
  destruct r as [[] | err].
  - destruct Hr as [(pre & entry & post & Heq & -> & Ha) He'].
    split; [split; [split; [done |] | by exists extra] |].
    + cbn [inner snd]. eapply sublist_named; [| exact Hn]. rewrite Heq. apply sublist_app; [done | by apply sublist_cons].
    + rewrite Heq in Hn |- *. destruct Hn as [Hn _]. unfold aliases in Hn. rewrite fmap_app in Hn. cbn [fmap list_fmap] in Hn.
      apply list.NoDup_app in Hn as (_ & Hpre & Hpost). apply list.NoDup_cons in Hpost as [Hpost _].
      rewrite list.filter_app, filter_cons_False by tauto. rewrite <- Ha in *. rewrite !without_entry; [done | done |].
      intros Hin. apply (Hpre _ Hin). by left.
  - destruct Hr as (Hnot & -> & ->). split; [split; [done | by exists extra] | by rewrite without_entry].
  - destruct Hr as [-> He']. split; [| done]. split; [done | by exists extra].
Qed.

(** A tool that leaves the registry and the attachments alone, if it returns, and does
    nothing to the connection but requests. *)
Definition respects (f : Tool (@Shared K) unit) : Prop :=
  forall e reg,
    match f (e, reg) with
    | Returned _ (e', reg') =>
        reg' = reg /\ like e e' /\ (lost (connection e') \/ (~ lost (connection e) /\ attached (connection e') = attached (connection e)))
    | Panicked (_, reg') => reg' = reg
    end.

Definition respectful (c : Call K) : Prop := match c with CallTool f => respects f | _ => True end.

Lemma body_call c s : respectful c -> shared_ok s ->
  match body_of show c s with
  | Returned r s' => shared_ok s' /\ call_registered c r (inner s.2) (inner s'.2)
  | Panicked s' => s'.2 = s.2 /\ exists f, c = CallTool f
  end.
Proof.
  intros Hc Hs. destruct c as [now req | a | f]; cbn [body_of].
  - unfold attach_call. destruct (attach_registers now req s Hs) as (r & s1 & Hr & Hs1 & Hl). rewrite (bind_returned _ _ _ _ _ Hr).
    destruct r as [entry | err]; [| done].
    match goal with |- context [attempt (on_engine ?m)] => destruct (quiet_on_engine m s1) as (rq & s2 & Hq & Hs2 & Heq) end;
      [intros l extra; apply steps_query | done |].
    unfold tool_bind, attempt. rewrite Hq. cbn. by rewrite Heq.
  - unfold detach_call. cbv zeta. destruct (detach_registers (to_ascii_lowercase a) s Hs) as (r & s1 & Hr & Hs1 & Hl).
    rewrite to_ascii_lowercase_idem in Hl. rewrite (bind_returned _ _ _ _ _ Hr).
    destruct r as [[] | err]; [| done | done].
    match goal with |- context [on_engine ?m] => destruct (quiet_on_engine m s1) as (rq & s2 & Hq & Hs2 & Heq) end;
      [intros l extra; apply steps_cache | done |].
    rewrite Hq. split; [done |]. rewrite Heq. unfold on_engine, clear_catalog_cache_for in Hq. cbn in Hq. by injection Hq as <- _.
  - destruct s as [e reg]. destruct Hs as [Hreg (extra & He & Href)]. specialize (Hc e reg). cbn [fst snd] in *.
    destruct (f (e, reg)) as [r [e' reg'] | [e' reg']]; [| subst; split; [done | by exists f]]. destruct Hc as (-> & Hlike & Ha).
    split; [| done]. split; [done |]. exists extra. split; [| by eapply refused_all].
    cbn [fst snd]. destruct Ha as [Ha | [Hn Ha]]; [by left |]. destruct He as [He | He]; [done | right; by apply (in_step_same e)].
Qed.

(** The registry with the engine that serves a call: an engine that was there has it as it
    was; on a new connection it is replayed, and has lost the entries whose ATTACH the
    server refused there. *)
Definition replayed (opening : Opening K) (s : Server K) (l : list AttachedDb) : Prop :=
  l `sublist_of` inner (attachments s) /\
  match slot s, opening with
  | None, Ok (k, _, _) => Forall (fun entry => entry ∈ l \/ attach_refused k entry) (inner (attachments s))
  | _, _ => l = inner (attachments s)
  end.

Lemma replayed_none opening s : replayed opening s (inner (attachments s)).
Proof.
  split; [done |]. destruct (slot s); [done |]. destruct opening as [[[k daemon] path] | err]; [| done].
  apply list.Forall_forall. intros x Hx. by left.
Qed.

Lemma ensure_runs opening s : server_ok s -> fresh opening ->
  exists r s', ensure_engine show opening s = Returned r s' /\ server_ok s' /\ read_only s' = read_only s
    /\ (r = Ok tt -> is_Some (slot s')) /\ replayed opening s (inner (attachments s')).
Proof.
  intros Hok Hfresh. pose proof Hok as (Hp & Hreg & Hslot). unfold ensure_engine, lock_engine. rewrite Hp.
  pose proof (replayed_none opening s) as Hsame.
  destruct (slot s) as [e |] eqn:He; [exists (Ok tt), s; rewrite He; by eauto 10 |].
  destruct opening as [[[k daemon] path] | err]; [| by exists (Err err), s].
  destruct (start_runs k daemon path (workspace_path s) Hfresh) as (r & e & -> & Hstart).
  destruct r as [[] | err]; [| by exists (Err err), s]. destruct (Hstart eq_refl) as [Hstep Hk]. clear Hstart.
  destruct Hreg as [Hpois Hnamed]. unfold replayed in *. rewrite He. clear Hsame. destruct (attachments s) as [l p] eqn:Hl.
  cbn [poisoned] in Hpois. subst p.
  destruct (replay_all_runs show e l Hstep) as (e' & l' & -> & _ & Hsub & He' & Hall). cbn [inner] in *.
  exists (Ok tt), (with_slot s (Some e') false (mk_registry l' false)). split; [done |].
  split; [| split; [done |]; split; [by eexists | split; [done |]]].
  - split; [done |]. split; [split; [done |]; by eapply sublist_named | exists []; by split].
  - eapply Forall_impl; [| exact Hall]. intros x [Hx | Hx]; [by left | right]. by eapply attach_refused_from.
Qed.

(** What a call that returned [r] does to the server. *)
Definition call_done (opening : Opening K) (c : Call K) (r : result unit McpError) (s s' : Server K) : Prop :=
  server_ok s' /\ exists l, replayed opening s l /\ call_registered c r l (inner (attachments s')).

Lemma call_registered_err (c : Call K) err l : call_registered c (Err err) l l.
Proof. by destruct c. Qed.

(** Every call returns and leaves the server in order. *)
Lemma call_runs opening now detail c s : server_ok s -> fresh opening -> respectful c ->
  exists r s', run_call show parse_rfc3339 parse_naive_fraction parse_naive parse_error opening now detail c s = Returned r s'
    /\ call_done opening c r s s'.
Proof.
  intros Hs Hfresh Hc. unfold run_call, with_engine.
  destruct (ensure_runs opening s Hs Hfresh) as (r & s1 & Hr & Hs1 & _ & Hsome & Hl). rewrite (bind_returned _ _ _ _ _ Hr).
  destruct r as [[] | err].
  2: { exists (Err err), s1. split; [done |]. split; [done |]. eexists. split; [exact Hl | apply call_registered_err]. }
  destruct (Hsome eq_refl) as [e He]. rewrite He.
  destruct Hs1 as (Hp & Hreg & Hslot). rewrite He in Hslot.
  match goal with |- context [on_engine ?m] => destruct (quiet_on_engine m (e, attachments s1)) as (rq & s2 & Hq & Hs2 & Heq) end;
    [intros l extra; apply steps_catalog_ready | done |].
  cbn [snd] in Heq. rewrite <- Heq in Hl. set (body := tool_bind _ _).
  assert (Hbody : match body (e, attachments s1) with
                  | Returned r s' => shared_ok s' /\ call_registered c r (inner s2.2) (inner s'.2)
                  | Panicked s' => s'.2 = s2.2
                  end).
  { unfold body. rewrite (bind_returned _ _ _ _ _ Hq). destruct rq as [[] | err].
    - pose proof (body_call c s2 Hc Hs2) as Hbody. destruct (body_of show c s2); [done | by destruct Hbody].
    - split; [done | apply call_registered_err]. }
  destruct (body (e, attachments s1)) as [r [e' reg'] | [e' reg']]; cbn [fst snd] in Hbody.
  - destruct Hbody as [[Hreg' Hlive] Hdone]. cbn [fst snd] in *. destruct r as [[] | err]; [| destruct (bool_decide _)];
      (eexists _, _; split; [reflexivity |]; split; [done | by eexists]).
  - subst reg'. destruct Hs2 as [Hreg2 _]. eexists _, _. split; [reflexivity |]. split; [done |].
    eexists. split; [exact Hl | apply call_registered_err].
Qed.

Lemma new_server_ok ro workspace : server_ok (new_server (K := K) ro workspace).
Proof. split; [done |]. split; [| done]. split; [done |]. split; [apply NoDup_nil_2 | apply Forall_nil_2]. Qed.

Lemma calls_run calls s : server_ok s ->
  Forall (fun c : Opening K * list Z * list Z * Call K => fresh c.1.1.1 /\ respectful c.2) calls ->
  exists s', run_calls show parse_rfc3339 parse_naive_fraction parse_naive parse_error calls s = Returned (Ok tt) s' /\ server_ok s'.
Proof.
  revert s. induction calls as [| [[[opening now] detail] c] calls IH]; intros s Hs Hall; [by exists s |].
  apply Forall_cons_1 in Hall as [[Hfresh Hc] Hall]. cbn [run_calls].
  destruct (call_runs opening now detail c s Hs Hfresh Hc) as (r & s1 & Hr & Hs1 & _).
  assert (Ha : attempt (run_call show parse_rfc3339 parse_naive_fraction parse_naive parse_error opening now detail c) s = Returned (Ok r) s1)
    by (unfold attempt; by rewrite Hr).
  rewrite (bind_returned _ _ _ _ _ Ha). by apply IH.
Qed.
End registry.

(** ** A server in memory, for the witness

    Its [broken] say which of the next statements fail. *)
Record Rack : Type := mk_rack { mounted : list (list Z); search : option (list Z); broken : list bool }.

Inductive Verb : Type :=
| DoAttach (alias : list Z)
| DoDetach (alias : list Z)
| DoPin (name : list Z)
| DoReset
| DoOther.

Definition after_strip (verb : list Z) (q : Z) (s : list Z) : option (list Z * list Z) := strip (verb ++ [q]) s ≫= unquote q.

Definition read_verb (sql : list Z) : Verb :=
  match after_strip (str "ATTACH DATABASE ") 34 sql with
  | Some (_, rest) => match after_strip (str " AS ") 34 rest with Some (a, _) => DoAttach a | None => DoOther end
  | None =>
  match after_strip (str "DETACH DATABASE ") 34 sql with
  | Some (a, _) => DoDetach a
  | None =>
  match after_strip (str "SET schema_search_path = ") 39 sql with
  | Some (n, _) => DoPin n
  | None => if bool_decide (sql = RESET_SEARCH_PATH) then DoReset else DoOther
  end end end.

Lemma after_strip_quoted verb q n rest : head rest <> Some q -> after_strip verb q (verb ++ quoted q n ++ rest) = Some (n, rest).
Proof.
  intros Hr. unfold after_strip, quoted.
  replace (verb ++ (q :: double_quotes q n ++ [q]) ++ rest) with ((verb ++ [q]) ++ double_quotes q n ++ q :: rest)
    by (rewrite <- !app_assoc; cbn [app]; rewrite <- !app_assoc; done).
  rewrite strip_app. cbn [mbind option_bind]. by apply unquote_doubled.
Qed.

Lemma read_attach path alias : read_verb (attach_sql path alias) = DoAttach alias.
Proof.
  unfold read_verb, attach_sql. change (escape_sql_path path) with (quoted 34 path). rewrite after_strip_quoted by done.
  rewrite <- (app_nil_r (quote_ident alias)). unfold quote_ident. by rewrite after_strip_quoted.
Qed.

Lemma read_detach alias : read_verb (detach_sql alias) = DoDetach alias.
Proof.
  unfold read_verb. assert (after_strip (str "ATTACH DATABASE ") 34 (detach_sql alias) = None) as -> by reflexivity.
  unfold detach_sql, quote_ident. rewrite <- (app_nil_r (quoted 34 alias)). by rewrite after_strip_quoted.
Qed.

Lemma read_pin name : read_verb (set_search_path name) = DoPin name.
Proof.
  unfold read_verb. assert (after_strip (str "ATTACH DATABASE ") 34 (set_search_path name) = None) as -> by reflexivity.
  assert (after_strip (str "DETACH DATABASE ") 34 (set_search_path name) = None) as -> by reflexivity.
  unfold set_search_path, sql_literal. rewrite <- (app_nil_r (quoted 39 name)). by rewrite after_strip_quoted.
Qed.

Lemma read_aside sql : aside sql -> read_verb sql = DoOther.
Proof.
  intros (verb & rest & Hv & ->). unfold ASIDE in Hv. cbn [fmap list_fmap] in Hv. rewrite !elem_of_cons in Hv.
  destruct Hv as [-> | [-> | [-> | [-> | [-> | [-> | [-> | []%elem_of_nil]]]]]]];
    unfold read_verb; rewrite bool_decide_false by done; reflexivity.
Qed.

Definition rack_run (sql : list Z) (r : Rack) : result Z Api.Error * Rack :=
  let next m s := mk_rack m s (tail (broken r)) in
  if default false (head (broken r)) then (Err fault, next (mounted r) (search r))
  else
    match read_verb sql with
    | DoAttach a => if bool_decide (a ∈ mounted r) then (Err fault, next (mounted r) (search r)) else (Ok 0, next (mounted r ++ [a]) (search r))
    | DoDetach a => (Ok 0, next (filter (fun b => b <> a) (mounted r)) (search r))
    | DoPin n => (Ok 0, next (mounted r) (Some n))
    | DoReset => (Ok 0, next (mounted r) None)
    | DoOther => (Ok 0, next (mounted r) (search r))
    end.

#[export] Instance rack_connection : McpConnection Rack := {
  mcp_client := {| run sql r := Val (rack_run sql r); close_client r := Val (Ok tt, r) |};
  query_json _ r := Val (Ok [], r);
  path_exists _ _ := true;
}.

#[export] Instance rack_server : AttachServer Rack.
Proof.
  refine {| attached := mounted; Attach.search_path := search; lost _ := False |}; try done.
  - intros sql k. eexists _, _. exact (f_equal Val (surjective_pairing _)).
  - intros sql k e k' [= Hr]. revert Hr. unfold rack_run. destruct (default false _); [intros [= <- <-]; by right |].
    destruct (read_verb sql); try done. case_bool_decide; [intros [= <- <-]; by right | done].
  - intros path alias k n k' [= Hr]. revert Hr. unfold rack_run. destruct (default false _); [done |]. rewrite read_attach.
    case_bool_decide; [done |]. by intros [= <- <-].
  - intros alias k n k' [= Hr]. revert Hr. unfold rack_run. destruct (default false _); [done |]. rewrite read_detach. by intros [= <- <-].
  - intros name k n k' [= Hr]. revert Hr. unfold rack_run. destruct (default false _); [done |]. rewrite read_pin. by intros [= <- <-].
  - intros k n k' [= Hr]. revert Hr. unfold rack_run. destruct (default false _); [done |].
    change (read_verb RESET_SEARCH_PATH) with DoReset. by intros [= <- <-].
  - intros sql k n k' Ha [= Hr]. revert Hr. unfold rack_run. destruct (default false _); [done |]. rewrite (read_aside _ Ha). by intros [= <- <-].
  - intros sql k. by eexists _, _.
  - intros sql k r k' [= <- <-]. cbn. tauto.
Defined.

(** ** The property *)


(** An attach, one whose pin and rollback fail, a tool that panics, and a detach on the
    engine that replaces it. *)
Definition rack_opening (broken : list bool) : Opening Rack := Ok (mk_rack [] None broken, false, str "/tmp/scratch.hyper").
Definition rack_request (alias : list Z) : AttachRequest := mk_request alias (LocalFile (str "/data/a.hyper")) true OnError.
Definition sample_calls : list (Opening Rack * list Z * list Z * Call Rack) :=
  [ (rack_opening ([false; false; false; false; true; true]), [], [], CallAttach 0 (rack_request (str "Sales")));
    (rack_opening [], [], [], CallAttach 1 (rack_request (str "b")));
    (rack_opening [], [], [], CallTool (fun s => Panicked s)) ].

