(* ===== verification/Schema.v ===== *)
(** * The schemas of ingested data

    [hyperdb-mcp/src/schema.rs]: the types a caller may name, and the inference of the
    columns of JSON and CSV. The parsing of JSON and CSV belongs to crates: a CSV text
    is here what its reader makes of it, a JSON number is read through [as_i64]. The upper
    case of a text is a parameter. *)

From stdpp Require Import strings gmap sorting.
From S2P Require Import Prelude Text HyperTypes SqlTypes TableDef Api Session McpErrors Engine TableCatalog Keeps Reconcile.

Record ColumnSchema : Type := mk_schema { name : list Z; hyper_type : list Z; schema_nullable : bool }.

#[export] Instance ColumnSchema_eq_dec : EqDecision ColumnSchema.
Proof. solve_decision. Defined.

(** ** Type names *)

Definition one_of (s : list Z) (names : list string) : bool := bool_decide (s ∈ str <$> names).

Definition unknown_type (type_name : list Z) : McpError :=
  new SchemaMismatch (str "Unknown type '" ++ trim type_name ++ str "'").

Definition bad_numeric (precision scale : Z) : McpError :=
  new InvalidArgument (str "NUMERIC precision must be 1..=38 and scale 0..=precision; got (" ++ fmt_u precision ++ str ","
                       ++ fmt_u scale ++ str ")").

Definition strip_suffix (c : Z) (s : list Z) : option (list Z) :=
  match reverse s with d :: r => if d =? c then Some (reverse r) else None | [] => None end.

(** [None] is not a numeric type at all. *)
Definition parse_numeric (upper : list Z) : option (result SqlType McpError) :=
  rest ← match strip_prefix (str "NUMERIC") upper with Some r => Some r | None => strip_prefix (str "DECIMAL") upper end;
  match trim_start rest with
  | [] => Some (Ok (Numeric 38 0))
  | rest =>
      inner ← strip_prefix (str "(") rest ≫= strip_suffix 41;
      match split 44 inner with
      | [p] => p ← parse_u 32 (trim p); Some (match try_numeric p 0 with Some t => Ok t | None => Err (bad_numeric p 0) end)
      | [p; s] =>
          p ← parse_u 32 (trim p);
          s ← parse_u 32 (trim s);
          Some (match try_numeric p s with Some t => Ok t | None => Err (bad_numeric p s) end)
      | _ => None
      end
  end.

(** The names of types that are not numeric. *)
Definition NAMES : list (string * SqlType) :=
  [("SMALLINT", SmallInt); ("INT2", SmallInt);
   ("INT", Int); ("INTEGER", Int); ("INT4", Int);
   ("BIGINT", BigInt); ("INT8", BigInt);
   ("FLOAT", Double); ("FLOAT4", Double); ("REAL", Double);
   ("DOUBLE", Double); ("DOUBLE PRECISION", Double); ("FLOAT8", Double);
   ("TEXT", SqlTypes.Text); ("VARCHAR", SqlTypes.Text); ("STRING", SqlTypes.Text);
   ("BOOL", Bool); ("BOOLEAN", Bool);
   ("DATE", Date); ("TIME", Time); ("TIMESTAMP", Timestamp);
   ("TIMESTAMPTZ", TimestampTz); ("TIMESTAMP WITH TIME ZONE", TimestampTz);
   ("BYTEA", ByteA); ("BYTES", ByteA)]%string.

Definition named_type (upper : list Z) : option SqlType :=
  snd <$> find (fun p => bool_decide (upper = str p.1)) NAMES.

Section types.
Context (to_uppercase : list Z -> list Z).

Definition map_hyper_type (type_name : list Z) : result SqlType McpError :=
  let upper := to_uppercase (trim type_name) in
  match named_type upper with
  | Some t => Ok t
  | None => default (Err (unknown_type type_name)) (parse_numeric upper)
  end.

Definition canonical_type_sql (type_name : list Z) : result (list Z) McpError :=
  let? t := map_hyper_type type_name in Ok (SqlTypes.display t).

Definition with_message (e : McpError) (message : list Z) : McpError := mk_error (code e) message (suggestion e).

Definition column_type_sql (type_name column : list Z) : result (list Z) McpError :=
  match canonical_type_sql type_name with
  | Ok t => Ok t
  | Err e =>
      Err (with_message e (if bool_decide (code e = SchemaMismatch)
                           then str "Unknown type '" ++ type_name ++ str "' for column '" ++ column ++ str "'"
                           else str "column '" ++ column ++ str "': " ++ message e))
  end.

Definition build_table_def (table_name : list Z) (columns : list ColumnSchema) : result TableDefinition McpError :=
  match columns with
  | [] => Err (new EmptyData (str "No columns to create table from"))
  | _ =>
      foldl (fun def col =>
               let? def := def in
               let? t := map_hyper_type (hyper_type col) in
               Ok (if schema_nullable col then add_nullable_column (name col) t def else add_required_column (name col) t def))
            (Ok (table_new table_name)) columns
  end.
End types.

(** ** Inferred types *)

Inductive InferredType : Type := INull | IBool | IInt | IBigInt | IDouble | IDate | ITimestamp | IText.

#[export] Instance InferredType_eq_dec : EqDecision InferredType.
Proof. solve_decision. Defined.

Definition is_number (t : InferredType) : bool := match t with IInt | IBigInt | IDouble => true | _ => false end.

Definition resolve_type (types : list InferredType) : InferredType :=
  match filter (fun t => t <> INull) types with
  | [] => IText
  | (first :: _) as non_null =>
      if forallb (fun t => bool_decide (t = first)) non_null then first
      else if forallb is_number non_null then
        if existsb (fun t => bool_decide (t = IDouble)) non_null then IDouble
        else if existsb (fun t => bool_decide (t = IBigInt)) non_null then IBigInt
        else IInt
      else IText
  end.

Definition inferred_to_hyper_name (t : InferredType) : list Z :=
  match t with
  | INull | IText => str "TEXT"
  | IBool => str "BOOL"
  | IInt => str "INT"
  | IBigInt => str "BIGINT"
  | IDouble => str "DOUBLE PRECISION"
  | IDate => str "DATE"
  | ITimestamp => str "TIMESTAMP"
  end.

Definition ascii (s : list Z) : bool := forallb (fun c => (0 <=? c) && (c <? 128)) s.

(** [s[a..b]], of an ASCII text. *)
Definition slice (a b : nat) (s : list Z) : list Z := take (b - a) (drop a s).

Definition parses {A} (o : option A) : bool := match o with Some _ => true | None => false end.

Definition infer_string_type (s : list Z) : InferredType :=
  if ascii s && (length s =? 10)%nat && bool_decide (s !! 4%nat = Some 45) && bool_decide (s !! 7%nat = Some 45)
     && parses (parse_u 16 (slice 0 4 s)) && parses (parse_u 8 (slice 5 7 s)) && parses (parse_u 8 (slice 8 10 s))
  then IDate
  else if ascii s && (19 <=? length s)%nat && bool_decide (s !! 10%nat = Some 84) && contains (slice 0 10 s) [45] && contains (drop 11 s) [58]
  then ITimestamp
  else IText.

Definition int_type (z : Z) : InferredType := if in_ib 32 z then IInt else IBigInt.

(** ** JSON *)

(** [serde_json::Value]: its numbers are a type of that crate. *)
Inductive Json (N : Type) : Type :=
| JNull
| JBool (b : bool)
| JNumber (n : N)
| JString (s : list Z)
| JArray (l : list (Json N))
| JObject (l : list (list Z * Json N)).
Arguments JNull {N}.
Arguments JBool {N} b.
Arguments JNumber {N} n.
Arguments JString {N} s.
Arguments JArray {N} l.
Arguments JObject {N} l.

(** A [serde_json::Map], in the order of its iteration. *)
Definition JsonMap (N : Type) : Type := list (list Z * Json N).

Definition get {N} (m : JsonMap N) (key : list Z) : option (Json N) := snd <$> find (fun p => bool_decide (p.1 = key)) m.

Section json.
Context {N : Type} (as_i64 : N -> option Z).

Definition infer_json_value_type (v : Json N) : InferredType :=
  match v with
  | JNull => INull
  | JBool _ => IBool
  | JNumber n => match as_i64 n with Some i => int_type i | None => IDouble end
  | JString s => infer_string_type s
  | _ => IText
  end.

(** A [BTreeSet] is the keys of a [BTreeMap]. *)
Definition all_keys (array : list (JsonMap N)) : list (list Z) :=
  (foldl (fun keys obj => insert_all obj.*1 [] keys) [] array).*1.

Definition col_types (array : list (JsonMap N)) (key : list Z) : list InferredType :=
  omap (fun obj => infer_json_value_type <$> get obj key) array.

Definition json_column (array : list (JsonMap N)) (key : list Z) : ColumnSchema :=
  let types := col_types array key in
  mk_schema key (inferred_to_hyper_name (resolve_type types))
    ((length types <? length array)%nat || bool_decide (INull ∈ types)).

(** From the parsed text, or the message of its error. *)
Definition infer_json_schema (parsed : result (list (JsonMap N)) (list Z)) : result (list ColumnSchema) McpError :=
  match parsed with
  | Err e => Err (new SchemaMismatch (str "Invalid JSON array: " ++ e))
  | Ok [] => Err (new EmptyData (str "JSON array is empty"))
  | Ok array => Ok (json_column array <$> all_keys array)
  end.
End json.

(** ** CSV *)

(** What the reader of a CSV text gives: its headers and its records, in order, or the
    message of an error. *)
Record Csv : Type := mk_csv { headers : result (list (list Z)) (list Z); records : list (result (list (list Z)) (list Z)) }.

(** A value that is read as no value. *)
Definition csv_null (trimmed : list Z) : bool :=
  bool_decide (trimmed = []) || eq_ignore_ascii_case trimmed (str "null") || eq_ignore_ascii_case trimmed (str "na").

Definition csv_bool (trimmed : list Z) : bool :=
  eq_ignore_ascii_case trimmed (str "true") || eq_ignore_ascii_case trimmed (str "false").

Definition parse_error_at (row_idx : nat) (e : list Z) : McpError :=
  new SchemaMismatch (str "CSV parse error at row " ++ fmt_u (Z.of_nat row_idx + 1) ++ str ": " ++ e).

(** The digits at the front, and the rest. *)
Fixpoint span_digits (s : list Z) : list Z * list Z :=
  match s with
  | c :: r => if is_digit c then let '(d, r) := span_digits r in (c :: d, r) else ([], s)
  | [] => ([], [])
  end.

Definition strip_sign (s : list Z) : list Z :=
  match s with c :: r => if (c =? 43) || (c =? 45) then r else s | [] => [] end.

(** The digits behind a decimal point, if there is one. *)
Definition after_point (s : list Z) : list Z * list Z :=
  match s with c :: r => if c =? 46 then span_digits r else ([], s) | [] => ([], []) end.

(** [str::parse::<f64>] succeeds. *)
Definition is_f64 (s : list Z) : bool :=
  let s := strip_sign s in
  bool_decide (to_ascii_lowercase s ∈ [str "nan"; str "inf"; str "infinity"])
  || (let '(int, r) := span_digits s in
      let '(frac, r) := after_point r in
      negb (bool_decide (int ++ frac = []))
      && match r with
         | [] => true
         | c :: e => ((c =? 101) || (c =? 69)) && negb (bool_decide (strip_sign e = [])) && forallb is_digit (strip_sign e)
         end).

Definition infer_csv_field_type (field : list Z) : InferredType :=
  let trimmed := trim field in
  if csv_null trimmed then INull
  else if csv_bool trimmed then IBool
  else match parse_i 64 trimmed with
       | Some i => int_type i
       | None => if is_f64 trimmed then IDouble else infer_string_type trimmed
       end.

Definition MAX_SAMPLE : nat := 1000.

(** The first records, up to the first that does not parse. *)
Fixpoint read_rows (row_idx : nat) (rows : list (result (list (list Z)) (list Z))) : result (list (list (list Z))) McpError :=
  match rows with
  | [] => Ok []
  | Err e :: _ => Err (parse_error_at row_idx e)
  | Ok record :: rows => let? rest := read_rows (S row_idx) rows in Ok (record :: rest)
  end.

Definition csv_headers (csv : Csv) (has_header : bool) : result (list (list Z)) McpError :=
  if has_header then
    match headers csv with Ok h => Ok h | Err e => Err (new SchemaMismatch (str "CSV header error: " ++ e)) end
  else
    match records csv with
    | Ok rec :: _ => Ok ((fun i => str "col_" ++ fmt_u (Z.of_nat i)) <$> seq 0 (length rec))
    | _ => Err (new EmptyData (str "CSV has no data rows"))
    end.

Definition sampled_types (rows : list (list (list Z))) (i : nat) : list InferredType :=
  omap (fun record => infer_csv_field_type <$> record !! i) rows.

Definition csv_column (rows : list (list (list Z))) (i : nat) (header : list Z) : ColumnSchema :=
  mk_schema header (inferred_to_hyper_name (resolve_type (sampled_types rows i))) true.

Definition infer_csv_schema (csv : Csv) (has_header : bool) : result (list ColumnSchema) McpError :=
  let? headers := csv_headers csv has_header in
  match headers with
  | [] => Err (new EmptyData (str "CSV has no columns"))
  | _ =>
      let? rows := read_rows 0 (take MAX_SAMPLE (records csv)) in
      Ok (imap (csv_column rows) headers)
  end.

Example floats : forallb is_f64 (str <$> ["1e5"; "-.5"; "+1."; "NaN"; "-Infinity"; "7E-3"]%string) = true
  /\ existsb is_f64 (str <$> [""; "."; "-"; "e5"; "1e"; "1e+"; "1,5"; "infinit"; "0x1"; "1-2"]%string) = false.
Proof. split; vm_compute; reflexivity. Qed.

(** *** The second pass *)

Record ColStats : Type := mk_stats { low : option Z; high : option Z; has_decimal : bool; overflow_i128 : bool }.

Definition no_stats : ColStats := mk_stats None None false false.

Definition INT_NAMES : list (list Z) := [str "INT"; str "INTEGER"].
Definition CANDIDATES : list (list Z) := INT_NAMES ++ [str "BIGINT"; str "DOUBLE PRECISION"].

Definition note_field (s : ColStats) (field : list Z) : ColStats :=
  let trimmed := trim field in
  if csv_null trimmed then s
  else if contains trimmed [46] || contains trimmed [101] || contains trimmed [69]
  then mk_stats (low s) (high s) true (overflow_i128 s)
  else match parse_i 128 trimmed with
       | Some n => mk_stats (Some (default n (Z.min n <$> low s))) (Some (default n (Z.max n <$> high s))) (has_decimal s) (overflow_i128 s)
       | None => mk_stats (low s) (high s) (has_decimal s) true
       end.

Definition column_stats (rows : list (list (list Z))) (i : nat) : ColStats :=
  foldl note_field no_stats (omap (fun record => record !! i) rows).

Definition within (w : Z) (o : option Z) : bool := match o with None => true | Some z => in_ib w z end.

Definition widened (ty : list Z) (s : ColStats) : list Z :=
  let beyond_i64 := overflow_i128 s || negb (within 64 (low s)) || negb (within 64 (high s)) in
  if bool_decide (ty ∈ INT_NAMES) then
    if has_decimal s then str "DOUBLE PRECISION"
    else if beyond_i64 then str "NUMERIC(38,0)"
    else if negb (within 32 (low s)) || negb (within 32 (high s)) then str "BIGINT"
    else ty
  else if bool_decide (ty = str "BIGINT") then
    if has_decimal s then str "DOUBLE PRECISION" else if beyond_i64 then str "NUMERIC(38,0)" else ty
  else ty.

Definition is_candidate (c : ColumnSchema) : bool := bool_decide (hyper_type c ∈ CANDIDATES).

Definition widen_csv_numeric_columns (csv : Csv) (columns : list ColumnSchema) : result (list ColumnSchema) McpError :=
  if negb (existsb is_candidate columns) then Ok columns
  else
    let? rows := read_rows 0 (records csv) in
    Ok (imap (fun i c => if is_candidate c
                         then mk_schema (name c) (widened (hyper_type c) (column_stats rows i)) (schema_nullable c)
                         else c) columns).

(** ** Overrides *)

Section overrides.
Context (to_uppercase : list Z -> list Z) {N : Type}.
#[local] Abbreviation Json := (Json N).
#[local] Abbreviation JsonMap := (JsonMap N).

Definition not_a_string (name : list Z) : McpError :=
  new SchemaMismatch (str "Schema type for '" ++ name ++ str "' must be a string").

Definition json_str (v : Json) : option (list Z) := match v with JString s => Some s | _ => None end.

Fixpoint parse_schema_override (schema : JsonMap) : result (list ColumnSchema) McpError :=
  match schema with
  | [] => Ok []
  | (name, type_val) :: schema =>
      match json_str type_val with
      | None => Err (not_a_string name)
      | Some type_name =>
          let? hyper_type := column_type_sql to_uppercase type_name name in
          let? columns := parse_schema_override schema in
          Ok (mk_schema name hyper_type true :: columns)
      end
  end.

Definition json_type_name (v : Json) : list Z :=
  match v with
  | JNull => str "null"
  | JBool _ => str "boolean"
  | JNumber _ => str "number"
  | JString _ => str "string"
  | JArray _ => str "array"
  | JObject _ => str "object"
  end.

Definition not_an_object (v : Json) : McpError :=
  new SchemaMismatch (str "`schema` parameter must be a JSON object mapping column names to type strings, got " ++ json_type_name v ++ str ".").

(** [from_str] is the parser of the crate, with the message of its error. *)
Definition normalize_schema_param (from_str : list Z -> result Json (list Z)) (schema : option Json) : result (option JsonMap) McpError :=
  match schema with
  | None | Some JNull => Ok None
  | Some (JObject m) => Ok (Some m)
  | Some (JString s) =>
      match trim s with
      | [] => Ok None
      | trimmed =>
          match from_str trimmed with
          | Err e =>
              Err (new SchemaMismatch (str "`schema` parameter is a string but not valid JSON: " ++ e
                                       ++ str ". Expected an object like {" ++ [34] ++ str "col" ++ [34] ++ str ": " ++ [34] ++ str "TEXT" ++ [34] ++ str "}."))
          | Ok (JObject m) => Ok (Some m)
          | Ok JNull => Ok None
          | Ok other => Err (not_an_object other)
          end
      end
  | Some other => Err (not_an_object other)
  end.

(** The [Debug] of a list of names is a parameter. *)
Context (debug_names : list (list Z) -> list Z).

Definition unknown_column (name : list Z) (inferred : list ColumnSchema) : McpError :=
  new SchemaMismatch (str "Override key '" ++ name ++ str "' does not match any column. Known columns: "
                      ++ debug_names (Schema.name <$> inferred)).

(** The types by column: a [HashMap]. *)
Fixpoint canonical_types (inferred : list ColumnSchema) (override_map : JsonMap) (canonical : gmap (list Z) (list Z))
  : result (gmap (list Z) (list Z)) McpError :=
  match override_map with
  | [] => Ok canonical
  | (name, type_val) :: override_map =>
      if negb (bool_decide (name ∈ Schema.name <$> inferred)) then Err (unknown_column name inferred)
      else match json_str type_val with
           | None => Err (not_a_string name)
           | Some type_name =>
               let? ty := column_type_sql to_uppercase type_name name in
               canonical_types inferred override_map (<[name := ty]> canonical)
           end
  end.

Fixpoint overlay (columns : list ColumnSchema) (canonical : gmap (list Z) (list Z)) : list ColumnSchema :=
  match columns with
  | [] => []
  | c :: columns =>
      match canonical !! Schema.name c with
      | Some ty => mk_schema (Schema.name c) ty (schema_nullable c) :: overlay columns (delete (Schema.name c) canonical)
      | None => c :: overlay columns canonical
      end
  end.

Definition apply_schema_override (inferred : list ColumnSchema) (override_map : JsonMap) : result (list ColumnSchema) McpError :=
  let? canonical := canonical_types inferred override_map ∅ in
  Ok (overlay inferred canonical).
End overrides.

(** ** The order of inferred types *)

(** What a column of the second type can hold. *)
Definition fits_in (t u : InferredType) : bool :=
  match t, u with
  | INull, _ | _, IText => true
  | IInt, (IInt | IBigInt | IDouble) | IBigInt, (IBigInt | IDouble) => true
  | t, u => bool_decide (t = u)
  end.

Lemma fits_in_refl t : fits_in t t = true.
Proof. by destruct t. Qed.

Lemma fits_in_other t u : fits_in t u = true -> t <> INull -> u <> IText -> is_number u = false -> t = u.
Proof. destruct t, u; vm_compute; congruence. Qed.

Lemma forallb_same (x : InferredType) l : forallb (fun t => bool_decide (t = x)) l = true <-> (forall t, t ∈ l -> t = x).
Proof.
  rewrite forallb_forall. setoid_rewrite list_elem_of_In. setoid_rewrite bool_decide_eq_true. done.
Qed.

Lemma existsb_same (x : InferredType) l : existsb (fun t => bool_decide (t = x)) l = true <-> x ∈ l.
Proof.
  rewrite existsb_exists. setoid_rewrite bool_decide_eq_true. setoid_rewrite list_elem_of_In. split; [by intros (y & ? & ->) | eauto].
Qed.

Lemma numbers_resolve l : forallb is_number l = true -> l <> [] ->
  let m := if existsb (fun t => bool_decide (t = IDouble)) l then IDouble
           else if existsb (fun t => bool_decide (t = IBigInt)) l then IBigInt else IInt in
  m ∈ l /\ forall t, t ∈ l -> fits_in t m = true.
Proof.
  intros Hn Hl. rewrite forallb_forall in Hn. setoid_rewrite <- list_elem_of_In in Hn. cbv zeta.
  destruct (existsb (fun t => bool_decide (t = IDouble)) l) eqn:Hd; [apply existsb_same in Hd |];
    [| destruct (existsb (fun t => bool_decide (t = IBigInt)) l) eqn:Hb; [apply existsb_same in Hb |]].
  1, 2: split; [done |]; intros t Ht; specialize (Hn t Ht); destruct t; try done.
  1: { apply not_true_iff_false in Hd. rewrite existsb_same in Hd. done. }
  apply not_true_iff_false in Hd, Hb. rewrite existsb_same in Hd, Hb.
  assert (Hall : forall t, t ∈ l -> t = IInt) by (intros t Ht; specialize (Hn t Ht); destruct t; done).
  split; [| intros t ->%Hall; done]. destruct l as [| t l]; [done |]. rewrite (Hall t); by left.
Qed.

Lemma resolve_spec types :
  let m := resolve_type types in
  (forall t, t ∈ types -> fits_in t m = true)
  /\ forall u, (exists t, t ∈ types /\ t <> INull) -> (forall t, t ∈ types -> fits_in t u = true) -> fits_in m u = true.
Proof.
  cbv zeta. unfold resolve_type. destruct (filter (fun t => t <> INull) types) as [| first l] eqn:Hf.
  { split; [by destruct t |]. intros u (t & Ht & Hn) _. assert (Hin : t ∈ filter (fun t => t <> INull) types) by (by apply list_elem_of_filter).
    rewrite Hf in Hin. by apply elem_of_nil in Hin. }
  assert (Hin : forall t, t ∈ first :: l <-> t <> INull /\ t ∈ types) by (intros t; by rewrite <- Hf, list_elem_of_filter).
  assert (Hup : forall m, (forall t, t ∈ first :: l -> fits_in t m = true) -> forall t, t ∈ types -> fits_in t m = true).
  { intros m Hm t Ht. destruct (decide (t = INull)) as [-> | Hn]; [done |]. apply Hm, Hin. done. }
  assert (Hlow : forall m u, m ∈ first :: l -> (forall t, t ∈ types -> fits_in t u = true) -> fits_in m u = true).
  { intros m u [_ Hm]%Hin Hu. by apply Hu. }
  destruct (forallb (fun t => bool_decide (t = first)) (first :: l)) eqn:Hs.
  { rewrite forallb_same in Hs. split; [apply Hup; intros t ->%Hs; apply fits_in_refl |]. intros u _. apply Hlow. by left. }
  destruct (forallb is_number (first :: l)) eqn:Hn.
  { destruct (numbers_resolve _ Hn ltac:(done)) as [Hm Hmax]. split; [exact (Hup _ Hmax) |]. intros u _. by apply Hlow. }
  split; [by destruct t |]. intros u _ Hu. destruct (decide (u = IText)) as [-> | Ht]; [done |]. exfalso.
  apply not_true_iff_false in Hs, Hn. apply Hn, forallb_forall. intros z Hz%list_elem_of_In. destruct (is_number z) eqn:Hz'; [done |].
  exfalso. apply Hs, forallb_same.
  assert (Hzu : z = u).
  { pose proof (Hlow z u Hz Hu) as Hf'. apply Hin in Hz as [Hz _]. destruct z, u; vm_compute in Hf', Hz'; congruence. }
  subst z. assert (Hall : forall t, t ∈ first :: l -> t = u).
  { intros t Ht'. apply fits_in_other; [by apply Hlow | by apply Hin in Ht' as [? _] | done | done]. }
  intros t Ht'. rewrite (Hall t Ht'), (Hall first) by (by left). done.
Qed.

(** ** What columns hold *)

Definition INT : list Z := str "INT".
Definition BIGINT : list Z := str "BIGINT".
Definition DOUBLE : list Z := str "DOUBLE PRECISION".
Definition TEXT : list Z := str "TEXT".

Lemma length_omap_le {A B} (f : A -> option B) (l : list A) : (length (omap f l) <= length l)%nat.
Proof. induction l as [| x l IH]; [done |]. cbn. destruct (f x); cbn; lia. Qed.

(** The names of the types whose columns hold a type. *)
Definition names (t : InferredType) : list (list Z) :=
  match t with
  | INull => [str "BOOL"; INT; BIGINT; DOUBLE; str "DATE"; str "TIMESTAMP"; TEXT]
  | IBool => [str "BOOL"; TEXT]
  | IInt => [INT; BIGINT; DOUBLE; TEXT]
  | IBigInt => [BIGINT; DOUBLE; TEXT]
  | IDouble => [DOUBLE; TEXT]
  | IDate => [str "DATE"; TEXT]
  | ITimestamp => [str "TIMESTAMP"; TEXT]
  | IText => [TEXT]
  end.

Lemma names_of t u : u <> INull -> inferred_to_hyper_name u ∈ names t <-> fits_in t u = true.
Proof.
  intros Hu. rewrite <- (bool_decide_eq_true (inferred_to_hyper_name u ∈ names t)). destruct t, u; vm_compute; tauto.
Qed.

(** ** The texts of dates, timestamps and floats *)

Definition digit (c : Z) : Prop := 48 <= c <= 57.

(** So many digits, a plus sign in place of the first of them at most. *)
Definition part (n : nat) (s : list Z) : Prop :=
  length s = n /\ (Forall digit s \/ exists t, s = 43 :: t /\ Forall digit t).

(** YYYY-MM-DD. *)
Definition date_shape (s : list Z) : Prop :=
  exists y m d, s = y ++ 45 :: m ++ 45 :: d /\ part 4 y /\ part 2 m /\ part 2 d.

(** YYYY-MM-DDThh:mm:ss, as far as it is looked at: a dash in ten chars, a T, and a colon
    in eight or more. *)
Definition timestamp_shape (s : list Z) : Prop :=
  Forall (fun c => 0 <= c < 128) s /\ exists d t, s = d ++ 84 :: t /\ length d = 10%nat /\ 45 ∈ d /\ (8 <= length t)%nat /\ 58 ∈ t.

Lemma is_digit_spec c : is_digit c = true <-> digit c.
Proof. unfold is_digit, digit. rewrite andb_true_iff, !Z.leb_le. done. Qed.

Lemma ascii_spec s : ascii s = true <-> Forall (fun c => 0 <= c < 128) s.
Proof.
  unfold ascii. rewrite forallb_forall, list.Forall_forall. setoid_rewrite list_elem_of_In.
  split; intros H c Hc; specialize (H c Hc); rewrite ?andb_true_iff, ?Z.leb_le, ?Z.ltb_lt in *; lia.
Qed.

Lemma digits_val_digits acc s v : digits_val acc s = Some v -> Forall digit s.
Proof.
  revert acc. induction s as [| c s IH]; intros acc H; [by constructor |]. cbn [digits_val] in H.
  destruct (is_digit c) eqn:Hc; [| done]. constructor; [by apply is_digit_spec | by eapply IH].
Qed.

Lemma digits_value acc s : Forall digit s -> exists v, digits_val acc s = Some v.
Proof.
  intros H. revert acc. induction H as [| c s Hc _ IH]; intros acc; cbn [digits_val]; [eauto |].
  apply is_digit_spec in Hc as ->. apply IH.
Qed.

(** Numbers of that many digits are in range. *)
Lemma parse_u_part n w s : (1 < n)%nat -> 0 <= w -> 10 ^ Z.of_nat n <= 2 ^ w -> length s = n -> parses (parse_u w s) = true <-> part n s.
Proof.
  intros Hn Hw Hle Hs. assert (Hds : forall ds, ds <> [] -> (length ds <= n)%nat ->
    parses (v ← digits_val 0 ds; if in_ub w v then Some v else None) = true <-> Forall digit ds).
  { intros ds Hne Hlen. split.
    - destruct (digits_val 0 ds) as [v |] eqn:Hv; [| done]. intros _. by eapply digits_val_digits.
    - intros [v Hv]%(digits_value 0). rewrite Hv. cbn [mbind option_bind]. apply digits_val_bound in Hv; [| lia].
      pose proof (Z.pow_le_mono_r 10 (Z.of_nat (length ds)) (Z.of_nat n)) as Hp. rewrite (proj2 (in_ub_spec w v)); [done |]. unfold in_u. lia. }
  unfold part, parse_u. destruct s as [| c s]; cbn [length] in Hs; [lia |]. destruct (Z.eqb_spec c 43) as [-> | Hc].
  - destruct s as [| d s]; cbn [length] in Hs; [lia |]. rewrite (Hds (d :: s)) by (done || (cbn [length]; lia)). split.
    + intros H. split; [done |]. right. by exists (d :: s).
    + intros [_ [H | (t & [= <-] & H)]]; [by apply Forall_cons_1 in H as [_ H] | done].
  - rewrite (Hds (c :: s)) by (done || (cbn [length]; lia)). split; [by auto |]. intros [_ [H | (t & [= -> _] & _)]]; done.
Qed.

Lemma part_ascii n s : part n s -> Forall (fun c => 0 <= c < 128) s.
Proof.
  intros [_ [H | (t & -> & H)]]; [| constructor; [lia |]]; (eapply Forall_impl; [| exact H]); unfold digit; intros c Hc; lia.
Qed.

Lemma date_inferred s : infer_string_type s = IDate <-> date_shape s.
Proof.
  assert (H4 : forall t, length t = 4%nat -> parses (parse_u 16 t) = true <-> part 4 t) by (intros; apply parse_u_part; lia).
  assert (H2 : forall t, length t = 2%nat -> parses (parse_u 8 t) = true <-> part 2 t) by (intros; apply parse_u_part; lia).
  transitivity (ascii s && (length s =? 10)%nat && bool_decide (s !! 4%nat = Some 45) && bool_decide (s !! 7%nat = Some 45)
     && parses (parse_u 16 (slice 0 4 s)) && parses (parse_u 8 (slice 5 7 s)) && parses (parse_u 8 (slice 8 10 s)) = true).
  { unfold infer_string_type. destruct (_ && parses _); [done |]. by destruct (_ && contains _ [58]). }
  rewrite !andb_true_iff, !bool_decide_eq_true, Nat.eqb_eq. split.
  - intros ((((((_ & Hl) & Hy) & Hm) & Py) & Pm) & Pd). do 10 (destruct s as [| ? s]; [done |]). destruct s; [| done].
    injection Hy as ->. injection Hm as ->. eexists [_; _; _; _], [_; _], [_; _]. split; [reflexivity |]. split_and!; [by apply H4 | by apply H2 | by apply H2].
  - intros (y & m & d & -> & Py & Pm & Pd). split_and!.
    all: destruct (Py) as [Ly _], (Pm) as [Lm _], (Pd) as [Ld _].
    1: { apply ascii_spec, list.Forall_app. split; [by eapply part_ascii |]. constructor; [lia |].
         apply list.Forall_app. split; [by eapply part_ascii |]. constructor; [lia | by eapply part_ascii]. }
    all: do 4 (destruct y as [| ? y]; [done |]); destruct y; [| done]; do 2 (destruct m as [| ? m]; [done |]); destruct m; [| done];
      do 2 (destruct d as [| ? d]; [done |]); destruct d; [| done].
    1-3: reflexivity.
    1: by apply H4. all: by apply H2.
Qed.

Lemma char_occurs c s : occurs [c] s <-> c ∈ s.
Proof.
  split; [intros (a & b & ->); rewrite list.elem_of_app; right; by left |]. intros (a & b & ->)%list_elem_of_split. by exists a, b.
Qed.

Lemma date_length s : date_shape s -> length s = 10%nat.
Proof. intros (y & m & d & -> & [Hy _] & [Hm _] & [Hd _]). rewrite length_app. cbn. rewrite length_app. cbn. lia. Qed.

Lemma timestamp_inferred s : infer_string_type s = ITimestamp <-> timestamp_shape s.
Proof.
  unfold infer_string_type. destruct (_ && parses _) eqn:Hdate.
  { split; [done |]. intros (_ & d & t & -> & Hd & _ & Ht & _). rewrite !andb_true_iff, Nat.eqb_eq in Hdate.
    destruct Hdate as ((((((_ & H) & _) & _) & _) & _) & _). rewrite length_app in H. cbn in H. lia. }
  clear Hdate. transitivity (ascii s && (19 <=? length s)%nat && bool_decide (s !! 10%nat = Some 84) && contains (slice 0 10 s) [45]
                             && contains (drop 11 s) [58] = true); [by destruct (_ && contains _ [58]) |].
  unfold timestamp_shape, slice. rewrite !andb_true_iff, bool_decide_eq_true, Nat.leb_le, ascii_spec, !contains_occurs, !char_occurs. split.
  - intros ((((Ha & Hl) & Ht) & Hd) & Hc). split; [done |]. exists (take 10 s), (drop 11 s).
    rewrite length_drop, length_take. split_and!; [by rewrite take_drop_middle | lia | exact Hd | lia | exact Hc].
  - intros (Ha & d & t & -> & Hd & Hdash & Ht & Hc). rewrite length_app. cbn [length]. split_and!.
    + done.
    + lia.
    + by rewrite lookup_app_r, Hd by lia.
    + by rewrite (drop_0 _), take_app_length' by lia.
    + by rewrite drop_app_ge, Hd by lia.
Qed.

(** *** Floats *)

Lemma span_digits_all s : Forall digit s -> span_digits s = (s, []).
Proof. induction 1 as [| c s Hc _ IH]; [done |]. cbn [span_digits]. apply is_digit_spec in Hc as ->. by rewrite IH. Qed.

Lemma span_digits_app s d r : span_digits s = (d, r) -> s = d ++ r /\ Forall digit d.
Proof.
  revert d r. induction s as [| c s IH]; intros d r; cbn [span_digits]; [by intros [= <- <-] |].
  destruct (is_digit c) eqn:Hc; [| by intros [= <- <-]]. destruct (span_digits s) as [d' r'] eqn:Hs. intros [= <- <-].
  destruct (IH d' r' eq_refl) as [-> Hd]. split; [done |]. constructor; [by apply is_digit_spec | done].
Qed.

Lemma after_point_app s f' e :
  after_point s = (f', e) -> exists f, s = f ++ e /\ Forall (fun c => digit c \/ c = 46) f /\ (f' <> [] -> f <> []).
Proof.
  unfold after_point. destruct s as [| c r]; [intros [= <- <-]; by exists [] |]. destruct (Z.eqb_spec c 46) as [-> | _].
  - intros [-> Hf]%span_digits_app. exists (46 :: f'). split_and!; [done | | done]. constructor; [by right |].
    eapply Forall_impl; [| exact Hf]. by left.
  - intros [= <- <-]. by exists [].
Qed.

Lemma parse_i_text w s z : parse_i w s = Some z -> strip_sign s <> [] /\ Forall digit (strip_sign s) /\ (s = strip_sign s \/ exists c, (c = 43 \/ c = 45) /\ s = c :: strip_sign s).
Proof.
  unfold parse_i, strip_sign. destruct s as [| c s]; [done |].
  destruct (Z.eqb_spec c 45) as [-> | Hm]; [| destruct (Z.eqb_spec c 43) as [-> | Hp]]; cbn [orb]; intros H.
  all: match type of H with context [digits_val 0 ?ds] => destruct ds as [| d ds'] eqn:Hds; [done |]; apply bind_Some in H as (v & Hv & _);
       apply digits_val_digits in Hv end; split_and!; try done; eauto.
Qed.

(** An integer is a float. *)
Lemma integer_f64 w s z : parse_i w s = Some z -> is_f64 s = true.
Proof.
  intros (Hne & Hd & _)%parse_i_text. unfold is_f64. rewrite (span_digits_all _ Hd). cbn [after_point]. rewrite app_nil_r, (bool_decide_eq_false_2 _ Hne).
  apply orb_true_r.
Qed.

(** What is a float: a word or digits, with a point among them and an exponent. *)
Lemma f64_kinds s :
  is_f64 s = true ->
  Forall (fun c => 97 <= to_ascii_lower c) (strip_sign s) /\ to_ascii_lowercase (strip_sign s) ∈ [str "nan"; str "inf"; str "infinity"]
  \/ exists n e, strip_sign s = n ++ e /\ n <> [] /\ Forall (fun c => digit c \/ c = 46) n
       /\ (e = [] \/ exists c x, e = c :: x /\ (c = 101 \/ c = 69) /\ Forall digit (strip_sign x)).
Proof.
  unfold is_f64. rewrite orb_true_iff, bool_decide_eq_true. intros [Hw | H].
  { left. split; [| done]. apply list.Forall_forall. intros c Hc. assert (Hl : to_ascii_lower c ∈ to_ascii_lowercase (strip_sign s)) by (by apply list_elem_of_fmap_2).
    revert Hl. generalize (to_ascii_lower c). rewrite !elem_of_cons, elem_of_nil in Hw.
    destruct Hw as [-> | [-> | [-> | []]]]; apply list.Forall_forall; apply (bool_decide_unpack _); vm_compute; done. }
  right. destruct (span_digits (strip_sign s)) as [int r] eqn:Hi. apply span_digits_app in Hi as [-> Hint].
  destruct (after_point r) as [f' e] eqn:Hp. apply after_point_app in Hp as (f & -> & Hf & Hne).
  apply andb_true_iff in H as [Hnil H]. rewrite negb_true_iff, bool_decide_eq_false in Hnil. exists (int ++ f), e. split_and!.
  - by rewrite <- app_assoc.
  - intros [-> ->]%app_eq_nil. apply Hnil. destruct f'; [done |]. by destruct Hne.
  - apply list.Forall_app. split; [| done]. eapply Forall_impl; [| exact Hint]. by left.
  - destruct e as [| c x]; [by left | right]. rewrite !andb_true_iff, orb_true_iff, !Z.eqb_eq, forallb_forall in H. destruct H as [[Hc _] Hx].
    exists c, x. split_and!; [done.. |]. apply list.Forall_forall. intros d Hd. by apply is_digit_spec, Hx, list_elem_of_In.
Qed.

Lemma strip_sign_cases s : strip_sign s = s \/ exists c, (c = 43 \/ c = 45) /\ s = c :: strip_sign s.
Proof.
  unfold strip_sign. destruct s as [| c s]; [by left |]. destruct (Z.eqb_spec c 43) as [-> | H]; [right; eauto |].
  destruct (Z.eqb_spec c 45) as [-> | H']; [right; eauto | by left].
Qed.

Lemma exponent_chars (e : list Z) c :
  e = [] \/ (exists c x, e = c :: x /\ (c = 101 \/ c = 69) /\ Forall digit (strip_sign x)) -> c ∈ e -> c = 101 \/ c = 69 \/ c = 43 \/ c = 45 \/ digit c.
Proof.
  intros [-> | (d & x & -> & Hd & Hx)]; [by intros ?%elem_of_nil |]. rewrite elem_of_cons. intros [-> | Hc]; [tauto |].
  rewrite list.Forall_forall in Hx. destruct (strip_sign_cases x) as [Hs | (k & Hk & Hs)]; [rewrite Hs in Hx; auto 10 |].
  rewrite Hs in Hc. apply elem_of_cons in Hc as [-> | Hc]; [tauto | auto 10].
Qed.

(** There is no colon in a float. *)
Lemma f64_no_colon s : is_f64 s = true -> 58 ∉ s.
Proof.
  intros H Hs. assert (Hin : 58 ∈ strip_sign s).
  { destruct (strip_sign_cases s) as [-> | (c & Hc & Heq)]; [done |]. rewrite Heq in Hs. apply elem_of_cons in Hs as [Hs | Hs]; [lia | done]. }
  destruct (f64_kinds s H) as [[Hw _] | (n & e & Heq & _ & Hn & He)].
  - rewrite list.Forall_forall in Hw. specialize (Hw _ Hin). vm_compute in Hw. done.
  - rewrite Heq, list.elem_of_app in Hin. destruct Hin as [Hin | Hin].
    + rewrite list.Forall_forall in Hn. destruct (Hn _ Hin) as [Hd | Hd]; [unfold digit in Hd |]; lia.
    + apply (exponent_chars e _ He) in Hin. unfold digit in Hin. lia.
Qed.

(** A word for a truth value is no float. *)
Lemma f64_no_word s : is_f64 s = true -> to_ascii_lowercase s ∉ [str "true"; str "false"].
Proof.
  intros H Hin. assert (Hhead : exists c r, s = c :: r /\ (to_ascii_lower c = 116 \/ to_ascii_lower c = 102)).
  { rewrite !elem_of_cons, elem_of_nil in Hin. destruct s as [| c r]; [by destruct Hin as [? | [? | []]] |]. exists c, r. split; [done |].
    destruct Hin as [[= Hc _] | [[= Hc _] | []]]; auto. }
  destruct Hhead as (c & r & -> & Hc).
  assert (Hl : to_ascii_lower c = 116 \/ to_ascii_lower c = 102 -> ~ digit c /\ c <> 46 /\ c <> 43 /\ c <> 45).
  { unfold to_ascii_lower, digit. destruct (_ && _); lia. }
  apply Hl in Hc as (Hd & H46 & H43 & H45). assert (Hstrip : strip_sign (c :: r) = c :: r).
  { unfold strip_sign. by rewrite (proj2 (Z.eqb_neq c 43)), (proj2 (Z.eqb_neq c 45)) by done. }
  destruct (f64_kinds _ H) as [[_ Hw] | (n & e & Heq & Hne & Hn & _)]; rewrite Hstrip in *.
  - revert Hw Hin. generalize (to_ascii_lowercase (c :: r)). intros l. rewrite !elem_of_cons, !elem_of_nil. intros [-> | [-> | [-> | []]]];
      intros Hl'; apply (bool_decide_pack _) in Hl'; vm_compute in Hl'; done.
  - destruct n as [| d n]; [done |]. injection Heq as <- _. apply Forall_cons_1 in Hn as [[? | ?] _]; done.
Qed.

(** A date is no float: it has a dash behind its first char, and no exponent. *)
Lemma f64_no_date s : is_f64 s = true -> ~ date_shape s.
Proof.
  intros H (y & m & d & -> & Py & Pm & Pd).
  assert (Hsub : forall c, c ∈ 45 :: m ++ 45 :: d -> c ∈ strip_sign (y ++ 45 :: m ++ 45 :: d)).
  { intros c Hc. destruct Py as [Ly _]. destruct y as [| a y]; [done |]. cbn [app strip_sign]. destruct (_ || _); rewrite ?elem_of_cons, list.elem_of_app; auto. }
  destruct (f64_kinds _ H) as [[Hw _] | (n & e & Heq & _ & Hn & He)].
  - rewrite list.Forall_forall in Hw. specialize (Hw 45 (Hsub 45 ltac:(by left))). vm_compute in Hw. done.
  - assert (Hchars : forall c, c ∈ y ++ 45 :: m ++ 45 :: d -> c = 43 \/ c = 45 \/ digit c).
    { assert (Hp : forall k p c, part k p -> c ∈ p -> c = 43 \/ digit c).
      { intros k p c [_ [Hp | (t & -> & Hp)]] Hc; rewrite list.Forall_forall in Hp; [by right; apply Hp |]. apply elem_of_cons in Hc as [-> | Hc]; [by left | by right; apply Hp]. }
      intros c. rewrite list.elem_of_app, elem_of_cons, list.elem_of_app, elem_of_cons.
      intros [Hc | [-> | [Hc | [-> | Hc]]]]; [apply (Hp _ _ _ Py) in Hc | | apply (Hp _ _ _ Pm) in Hc | | apply (Hp _ _ _ Pd) in Hc]; tauto. }
    assert (Hs : forall c, c ∈ strip_sign (y ++ 45 :: m ++ 45 :: d) -> c = 43 \/ c = 45 \/ digit c).
    { intros c Hc. apply Hchars. destruct (strip_sign_cases (y ++ 45 :: m ++ 45 :: d)) as [Hq | (k & _ & Hq)]; [by rewrite Hq in Hc | rewrite Hq; by right]. }
    assert (Hnil : e = []).
    { destruct He as [-> | (c & x & -> & Hc & _)]; [done |]. exfalso. assert (Hin : c ∈ strip_sign (y ++ 45 :: m ++ 45 :: d)) by (rewrite Heq, list.elem_of_app; right; by left).
      apply Hs in Hin. unfold digit in Hin. lia. }
    subst e. rewrite app_nil_r in Heq. specialize (Hsub 45 ltac:(by left)). rewrite Heq in Hsub. rewrite list.Forall_forall in Hn.
    destruct (Hn _ Hsub) as [Hd | Hd]; [unfold digit in Hd |]; lia.
Qed.

(** ** What columns of JSON hold *)

(** The types of the columns that are inferred. *)
Definition COLUMN_TYPES : list (list Z) := [str "BOOL"; INT; BIGINT; DOUBLE; str "DATE"; str "TIMESTAMP"; TEXT].

(** The first type is the second, or has less to hold. *)
Definition narrow (ty ty' : list Z) : Prop :=
  ty = ty' \/ ty' = TEXT \/ (ty' = DOUBLE /\ ty ∈ [INT; BIGINT; str "NUMERIC(38,0)"]) \/ (ty' = BIGINT /\ ty = INT).

Lemma narrow_of t u : t <> INull -> fits_in t u = true -> narrow (inferred_to_hyper_name t) (inferred_to_hyper_name u).
Proof.
  intros Ht H. unfold narrow. rewrite !elem_of_cons, elem_of_nil. destruct t, u; vm_compute in H; try done; cbn [inferred_to_hyper_name]; auto 10.
Qed.

Lemma column_type ty : ty ∈ COLUMN_TYPES -> exists u, u <> INull /\ ty = inferred_to_hyper_name u.
Proof.
  unfold COLUMN_TYPES. rewrite !elem_of_cons, elem_of_nil. intros [-> | [-> | [-> | [-> | [-> | [-> | [-> | []]]]]]]];
    [exists IBool | exists IInt | exists IBigInt | exists IDouble | exists IDate | exists ITimestamp | exists IText]; done.
Qed.

(** No type for a column of nulls. *)
Lemma resolve_nulls types : (forall t, t ∈ types -> t = INull) -> resolve_type types = IText.
Proof.
  intros H. unfold resolve_type. destruct (filter (fun t => t <> INull) types) as [| first l] eqn:Hf; [done |].
  assert (Hin : first ∈ filter (fun t => t <> INull) types) by (rewrite Hf; by left). apply list_elem_of_filter in Hin as [Hn Hin]. by apply H in Hin.
Qed.

Section json_columns.
Context {N : Type} (as_i64 : N -> option Z).

(** A value that a column of the type has a place for: a string in a column of dates has
    the shape of a date. *)
Definition json_fits (ty : list Z) (v : Json N) : Prop :=
  match v with
  | JNull => True
  | JBool _ => ty ∈ [str "BOOL"; TEXT]
  | JNumber n =>
      match as_i64 n with
      | Some i => ty ∈ [INT; BIGINT; DOUBLE; TEXT] /\ (ty = INT -> in_i 32 i)
      | None => ty ∈ [DOUBLE; TEXT]
      end
  | JString s => ty = TEXT \/ (ty = str "DATE" /\ date_shape s) \/ (ty = str "TIMESTAMP" /\ timestamp_shape s)
  | JArray _ | JObject _ => ty = TEXT
  end.

Lemma infer_string_kinds s : infer_string_type s ∈ [IDate; ITimestamp; IText].
Proof.
  unfold infer_string_type. repeat match goal with |- context [if ?b then _ else _] => destruct b end;
    rewrite !elem_of_cons; auto.
Qed.

Lemma json_fits_iff v u : u <> INull -> json_fits (inferred_to_hyper_name u) v <-> fits_in (infer_json_value_type as_i64 v) u = true.
Proof.
  intros Hu. destruct v as [| b | n | s | l | l]; cbn [json_fits infer_json_value_type].
  - by destruct u.
  - by rewrite (names_of IBool).
  - destruct (as_i64 n) as [i |]; [| by rewrite (names_of IDouble)]. unfold int_type. destruct (in_ib 32 i) eqn:Hi.
    + apply in_ib_spec in Hi. rewrite (names_of IInt) by done. tauto.
    + assert (Hn : ~ in_i 32 i) by (rewrite <- in_ib_spec; congruence).
      rewrite <- (names_of IBigInt) by done. cbn [names]. rewrite (elem_of_cons _ _ INT). split; [naive_solver |].
      intros H. split; [by right |]. intros Hty. rewrite Hty in H. apply (bool_decide_pack _) in H. by vm_compute in H.
  - pose proof (infer_string_kinds s) as Hk. rewrite <- (names_of (infer_string_type s)), <- date_inferred, <- timestamp_inferred by done.
    rewrite !elem_of_cons, elem_of_nil in Hk. destruct Hk as [-> | [-> | [-> | []]]]; cbn [names]; rewrite !elem_of_cons, elem_of_nil; naive_solver.
  - destruct u; vm_compute; done.
  - destruct u; vm_compute; done.
Qed.

Lemma resolve_not_null types : resolve_type types <> INull.
Proof.
  unfold resolve_type. destruct (filter (fun t => t <> INull) types) as [| first l] eqn:Hf; [done |].
  assert (Hin : first ∈ filter (fun t => t <> INull) types) by (rewrite Hf; by left). apply list_elem_of_filter in Hin as [Hin _].
  by repeat match goal with |- context [if ?b then _ else _] => destruct b end.
Qed.

Lemma infer_null v : infer_json_value_type as_i64 v = INull <-> v = JNull.
Proof.
  destruct v as [| b | n | s | l | l]; cbn; try done.
  - unfold int_type. destruct (as_i64 n); [destruct (in_ib _ _) |]; done.
  - split; [| done]. intros H. pose proof (infer_string_kinds s) as Hk. rewrite H in Hk. apply (bool_decide_pack _) in Hk. by vm_compute in Hk.
Qed.

Lemma in_col_types (array : list (JsonMap N)) key t :
  t ∈ col_types as_i64 array key <-> exists obj v, obj ∈ array /\ get obj key = Some v /\ infer_json_value_type as_i64 v = t.
Proof.
  unfold col_types. rewrite list_elem_of_omap. split.
  - intros (obj & Hobj & Hv). destruct (get obj key) as [v |] eqn:Hg; [| done]. injection Hv as <-. eauto.
  - intros (obj & v & Hobj & Hg & <-). exists obj. split; [done |]. by rewrite Hg.
Qed.

(** A column is NOT NULL if every object has a value for it that is not null. *)
Lemma json_nullable (array : list (JsonMap N)) key :
  schema_nullable (json_column as_i64 array key) = false <-> forall obj, obj ∈ array -> exists v, get obj key = Some v /\ v <> JNull.
Proof.
  cbn [json_column schema_nullable]. rewrite orb_false_iff, Nat.ltb_ge, bool_decide_eq_false. split.
  - intros [Hlen Hnull] obj Hobj. destruct (get obj key) as [v |] eqn:Hg.
    + exists v. split; [done |]. intros ->. apply Hnull, in_col_types. exists obj, JNull. done.
    + exfalso. apply list_elem_of_split in Hobj as (l1 & l2 & ->). revert Hlen. unfold col_types. rewrite omap_app, !length_app. cbn [omap list_omap].
      rewrite Hg. cbn [fmap option_fmap option_map]. pose proof (length_omap_le (fun obj => infer_json_value_type as_i64 <$> get obj key)) as H.
      specialize (H l1) as H1. specialize (H l2) as H2. cbn [length]. lia.
  - intros H. split.
    + unfold col_types. induction array as [| obj array IH]; [done |]. destruct (H obj ltac:(by left)) as (v & Hv & _).
      cbn [omap list_omap]. rewrite Hv. cbn [fmap option_fmap option_map length]. apply le_n_S, IH. intros o Ho. apply H. by right.
    + intros (obj & v & Hobj & Hg & Hn%infer_null)%in_col_types. destruct (H obj Hobj) as (v' & Hg' & Hn'). congruence.
Qed.

Lemma foldl_keys (array : list (JsonMap N)) (m : Names) x :
  x ∈ (foldl (fun keys obj => insert_all obj.*1 [] keys) m array).*1 <-> (exists obj, obj ∈ array /\ x ∈ obj.*1) \/ x ∈ m.*1.
Proof.
  revert m. induction array as [| obj array IH]; intros m; cbn [foldl].
  - split; [by right |]. intros [(o & Ho%elem_of_nil & _) | H]; done.
  - rewrite IH, insert_all_keys. setoid_rewrite elem_of_cons. naive_solver.
Qed.

Lemma foldl_in_order (array : list (JsonMap N)) (m : Names) :
  in_order m -> in_order (foldl (fun keys obj => insert_all obj.*1 [] keys) m array).
Proof. revert m. induction array as [| obj array IH]; intros m Hm; cbn [foldl]; [done |]. by apply IH, insert_all_in_order. Qed.
End json_columns.

(** ** What CSV columns hold *)

(** A field that counts as missing. *)
Definition csv_missing (field : list Z) : Prop := to_ascii_lowercase (trim field) ∈ [[]; str "null"; str "na"].

Definition truth_value (s : list Z) : Prop := to_ascii_lowercase s ∈ [str "true"; str "false"].

Definition reads_int (w : Z) (field : list Z) : Prop := exists z, parse_i 64 (trim field) = Some z /\ in_i w z.

(** A field that counts as missing or that a column of the type has a place for. *)
Definition csv_fits (ty field : list Z) : Prop :=
  csv_missing field \/ ty = TEXT
  \/ (ty = str "BOOL" /\ truth_value (trim field))
  \/ (ty = INT /\ reads_int 32 field)
  \/ (ty = BIGINT /\ reads_int 64 field)
  \/ (ty = str "NUMERIC(38,0)" /\ reads_int 64 field)
  \/ (ty = DOUBLE /\ is_f64 (trim field) = true)
  \/ (ty = str "DATE" /\ date_shape (trim field))
  \/ (ty = str "TIMESTAMP" /\ timestamp_shape (trim field)).

Lemma csv_null_spec field : csv_null (trim field) = true <-> csv_missing field.
Proof.
  unfold csv_null, csv_missing, eq_ignore_ascii_case. rewrite !orb_true_iff, !bool_decide_eq_true, !elem_of_cons, elem_of_nil.
  change (to_ascii_lowercase (str "null")) with (str "null"). change (to_ascii_lowercase (str "na")) with (str "na").
  assert (Hnil : trim field = [] <-> to_ascii_lowercase (trim field) = []) by (by destruct (trim field)). tauto.
Qed.

Lemma csv_bool_spec s : csv_bool s = true <-> truth_value s.
Proof.
  unfold csv_bool, truth_value, eq_ignore_ascii_case. rewrite !orb_true_iff, !bool_decide_eq_true, !elem_of_cons, elem_of_nil.
  change (to_ascii_lowercase (str "true")) with (str "true"). change (to_ascii_lowercase (str "false")) with (str "false"). tauto.
Qed.

Lemma truth_length s : truth_value s -> (length s <= 5)%nat.
Proof.
  unfold truth_value. replace (length s) with (length (to_ascii_lowercase s)) by apply length_fmap.
  rewrite !elem_of_cons, elem_of_nil. intros [-> | [-> | []]]; cbn; lia.
Qed.

Lemma timestamp_length s : timestamp_shape s -> (19 <= length s)%nat.
Proof. intros (_ & d & t & -> & Hd & _ & Ht & _). rewrite length_app. cbn [length]. lia. Qed.

Lemma float_kinds s : is_f64 s = true -> ~ truth_value s /\ ~ date_shape s /\ ~ timestamp_shape s.
Proof.
  intros H. split_and!; [by apply f64_no_word | by apply f64_no_date |]. intros (_ & d & t & -> & _ & _ & _ & Hc).
  apply (f64_no_colon _ H). rewrite list.elem_of_app. right. by right.
Qed.

Lemma parse_i_range w s z : parse_i w s = Some z -> in_i w z.
Proof.
  unfold parse_i. destruct (match s with [] => _ | _ => _ end) as [neg ds]. destruct ds as [| d ds]; [done |].
  intros (v & Hv & H)%bind_Some. destruct (in_ib w _) eqn:Hin; [| done]. injection H as <-. by apply in_ib_spec.
Qed.

Lemma parse_i_narrow w w' s z : w <= w' -> 0 < w -> parse_i w' s = Some z -> in_i w z -> parse_i w s = Some z.
Proof.
  intros Hw Hw0 H Hz%in_ib_spec. revert H. unfold parse_i.
  destruct (match s with [] => (false, []) | c :: r => if c =? 45 then (true, r) else if c =? 43 then (false, r) else (false, s) end) as [neg ds].
  destruct ds as [| d ds]; [done |]. intros (v & Hv & H)%bind_Some. rewrite Hv. cbn [mbind option_bind].
  destruct (in_ib w' _); [| done]. injection H as <-. by rewrite Hz.
Qed.

Lemma infer_csv_fits field u :
  u <> INull -> fits_in (infer_csv_field_type field) u = true <-> csv_fits (inferred_to_hyper_name u) field.
Proof.
  intros Hu. unfold infer_csv_field_type, csv_fits. pose proof (csv_null_spec field) as Hnull.
  destruct (csv_null (trim field)); [split; [intros _; left; by apply Hnull | done] |].
  assert (Hm : ~ csv_missing field) by (rewrite <- Hnull; done). clear Hnull.
  assert (Hn : inferred_to_hyper_name u <> str "NUMERIC(38,0)") by (by destruct u).
  pose proof (csv_bool_spec (trim field)) as Hbool.
  assert (Hno : forall w, parse_i 64 (trim field) = None -> ~ reads_int w field) by (intros w Hz (z & Hz' & _); congruence).
  destruct (csv_bool (trim field)).
  { assert (Hb : truth_value (trim field)) by (by apply Hbool). rewrite <- (names_of IBool) by done. pose proof (truth_length _ Hb) as Hl.
    assert (Hf : is_f64 (trim field) <> true) by (intros Hf; by apply float_kinds in Hf as [? _]).
    assert (Hd : ~ date_shape (trim field)) by (intros Hd%date_length; lia).
    assert (Ht : ~ timestamp_shape (trim field)) by (intros Ht%timestamp_length; lia).
    assert (Hz : parse_i 64 (trim field) = None) by (destruct (parse_i 64 (trim field)) eqn:Hz; [by apply integer_f64 in Hz | done]).
    pose proof (Hno 32 Hz). pose proof (Hno 64 Hz). cbn [names]. rewrite !elem_of_cons, elem_of_nil. tauto. }
  assert (Hb : ~ truth_value (trim field)) by (rewrite <- Hbool; done). clear Hbool. destruct (parse_i 64 (trim field)) as [z |] eqn:Hz.
  - assert (H64 : reads_int 64 field) by (exists z; split; [done | by apply parse_i_range in Hz]).
    assert (H32 : reads_int 32 field <-> in_i 32 z).
    { split; [by intros (z' & Hz' & ?); replace z with z' by congruence | by exists z]. }
    pose proof (integer_f64 _ _ _ Hz) as Hf. destruct (float_kinds _ Hf) as (_ & Hd & Ht). unfold int_type. destruct (in_ib 32 z) eqn:Hi.
    + apply in_ib_spec, H32 in Hi. rewrite <- (names_of IInt) by done. cbn [names]. rewrite !elem_of_cons, elem_of_nil. tauto.
    + assert (Hi' : ~ reads_int 32 field) by (rewrite H32, <- in_ib_spec; congruence).
      rewrite <- (names_of IBigInt) by done. cbn [names]. rewrite !elem_of_cons, elem_of_nil. tauto.
  - pose proof (Hno 32 eq_refl) as H32. pose proof (Hno 64 eq_refl) as H64. destruct (is_f64 (trim field)) eqn:Hf.
    + destruct (float_kinds _ Hf) as (_ & Hd & Ht). rewrite <- (names_of IDouble) by done. cbn [names]. rewrite !elem_of_cons, elem_of_nil. tauto.
    + assert (Hf' : false <> true) by done. pose proof (infer_string_kinds (trim field)) as Hk. rewrite <- names_of, <- date_inferred, <- timestamp_inferred by done.
      rewrite !elem_of_cons, elem_of_nil in Hk. destruct Hk as [-> | [-> | [-> | []]]]; cbn [names]; rewrite !elem_of_cons, elem_of_nil; naive_solver.
Qed.

Lemma infer_csv_null field : infer_csv_field_type field = INull <-> csv_missing field.
Proof.
  unfold infer_csv_field_type. rewrite <- csv_null_spec. destruct (csv_null (trim field)); [done |]. split; [| done].
  destruct (csv_bool (trim field)); [done |]. destruct (parse_i 64 (trim field)) as [z |]; [unfold int_type; by destruct (in_ib 32 z) |].
  destruct (is_f64 (trim field)); [done |]. pose proof (infer_string_kinds (trim field)) as Hk. intros Hi. rewrite Hi in Hk.
  apply (bool_decide_pack _) in Hk. by vm_compute in Hk.
Qed.

Lemma fits_int field : csv_fits INT field -> csv_missing field \/ reads_int 32 field.
Proof. unfold csv_fits. naive_solver. Qed.

Lemma fits_bigint field : csv_fits BIGINT field -> csv_missing field \/ reads_int 64 field.
Proof. unfold csv_fits. naive_solver. Qed.

(** Widening keeps what fits. *)
Lemma widened_fits ty s field : csv_fits ty field -> csv_fits (widened ty s) field.
Proof.
  assert (Hto : forall ty', ty = INT \/ ty = str "INTEGER" \/ ty = BIGINT -> ty' = str "NUMERIC(38,0)" \/ ty' = DOUBLE \/ (ty' = BIGINT /\ ty <> BIGINT) ->
    csv_fits ty field -> csv_fits ty' field).
  { intros ty' Hty Hty' H. unfold csv_fits in H. destruct H as [H | H]; [by left |]. right.
    assert (Hr : reads_int 64 field /\ (ty = BIGINT \/ ty = INT)).
    { destruct H as [-> | [[-> _] | [[-> H] | [[-> H] | [[-> _] | [[-> _] | [[-> _] | [-> _]]]]]]]];
        try (exfalso; destruct Hty as [E | [E | E]]; vm_compute in E; discriminate E); [| auto].
      destruct H as (z & Hz & _). split; [| auto]. exists z. split; [done | by apply parse_i_range in Hz]. }
    destruct Hr as [Hr _]. destruct Hty' as [-> | [-> | [-> _]]]; [auto 10 | | auto 10].
    destruct Hr as (z & Hz & _). apply integer_f64 in Hz. auto 10. }
  intros H. unfold widened. cbv zeta. case_bool_decide as Hint.
  - unfold INT_NAMES in Hint. rewrite !elem_of_cons, elem_of_nil in Hint.
    assert (Hty : ty = INT \/ ty = str "INTEGER" \/ ty = BIGINT) by (destruct Hint as [? | [? | []]]; auto).
    assert (Hne : ty <> BIGINT) by (intros ->; by destruct Hint as [? | [? | []]]).
    destruct (has_decimal s); [by apply Hto; auto |].
    destruct (_ || negb (within 64 (high s))); [by apply Hto; auto |]. destruct (_ || _); [| done]. by apply Hto; auto.
  - case_bool_decide as Hb; [| done].
    destruct (has_decimal s); [by apply Hto; auto |]. destruct (_ || _); [by apply Hto; auto | done].
Qed.

(** The statistics of the fields of a column. *)
Definition covers (s : ColStats) (field : list Z) : Prop :=
  csv_missing field \/ has_decimal s = true \/ overflow_i128 s = true
  \/ exists n lo hi, parse_i 128 (trim field) = Some n /\ low s = Some lo /\ high s = Some hi /\ lo <= n <= hi.

Lemma note_field_covers s f : covers (note_field s f) f.
Proof.
  unfold note_field, covers. pose proof (csv_null_spec f) as Hnull. destruct (csv_null (trim f)); [left; by apply Hnull |]. destruct (_ || _ || _); [by right; left |].
  destruct (parse_i 128 (trim f)) as [n |]; [| by right; right; left].
  right; right; right. eexists n, _, _. cbn [low high]. split_and!; try reflexivity; destruct (low s), (high s); cbn; lia.
Qed.

Lemma note_field_keeps s f g : covers s g -> covers (note_field s f) g.
Proof.
  unfold note_field. destruct (csv_null (trim f)); [done |]. destruct (_ || _ || _); [by right; left |].
  unfold covers. destruct (parse_i 128 (trim f)) as [n |]; cbn [has_decimal overflow_i128 low high]; [| tauto].
  intros [H | [H | [H | (m & lo & hi & Hm & -> & -> & Hr)]]]; [auto.. |].
  right; right; right. eexists m, _, _. split_and!; [done | reflexivity | reflexivity | cbn; lia..].
Qed.

Lemma stats_cover fields s f : f ∈ fields -> covers (foldl note_field s fields) f.
Proof.
  assert (Hk : forall fields s g, covers s g -> covers (foldl note_field s fields) g).
  { clear. induction fields as [| f fields IH]; intros s g H; [done |]. by apply IH, note_field_keeps. }
  revert s. induction fields as [| g fields IH]; intros s; [by intros ?%elem_of_nil |].
  cbn [foldl]. intros [-> | H]%elem_of_cons; [apply Hk, note_field_covers | by apply IH].
Qed.

Lemma within_le w o lo : within w o = true -> o = Some lo -> in_i w lo.
Proof. intros H ->. by apply in_ib_spec. Qed.

(** An integer column after the second pass holds integers in the whole text. *)
Lemma widened_integers ty s field w :
  widened ty s = (if bool_decide (w = 32) then INT else BIGINT) -> w = 32 \/ w = 64 -> ty = INT \/ ty = BIGINT -> covers s field ->
  csv_missing field \/ reads_int w field.
Proof.
  intros Hty Hw Hin Hc. destruct Hc as [H | Hc]; [by left |]. right.
  assert (Hs : has_decimal s = false /\ overflow_i128 s = false /\ within w (low s) = true /\ within w (high s) = true).
  { unfold widened in Hty. cbv zeta in Hty.
    destruct (has_decimal s), (overflow_i128 s), (within 64 (low s)) eqn:?, (within 64 (high s)) eqn:?, (within 32 (low s)) eqn:?, (within 32 (high s)) eqn:?;
      destruct Hin as [-> | ->], Hw as [-> | ->]; vm_compute in Hty; try discriminate Hty; auto. }
  destruct Hs as (Hd & Ho & Hl & Hh). destruct Hc as [Hc | [Hc | (n & lo & hi & Hn & Hlo & Hhi & Hr)]]; [congruence.. |].
  pose proof (within_le _ _ _ Hl Hlo) as H1. pose proof (within_le _ _ _ Hh Hhi) as H2.
  assert (Hi : in_i w n) by (unfold in_i in *; lia). exists n. split; [| done].
  apply (parse_i_narrow 64 128); [lia | lia | done |]. destruct Hw as [-> | ->]; [unfold in_i in *; lia | done].
Qed.

(** Statistics of integers of a width. *)
Definition small (w : Z) (s : ColStats) : Prop :=
  has_decimal s = false /\ overflow_i128 s = false /\ within w (low s) = true /\ within w (high s) = true.

Lemma integer_no_point w s z : parse_i w s = Some z -> contains s [46] || contains s [101] || contains s [69] = false.
Proof.
  intros (_ & Hd & Hs)%parse_i_text. rewrite list.Forall_forall in Hd.
  assert (Hc : forall c, c ∈ s -> c = 43 \/ c = 45 \/ digit c).
  { intros c. destruct Hs as [Heq | (k & Hk & Heq)]; rewrite Heq; [by auto |]. rewrite elem_of_cons. intros [-> | Hin]; [tauto | by auto]. }
  assert (Hno : forall c, c <> 43 -> c <> 45 -> ~ digit c -> contains s [c] = false).
  { intros c H1 H2 H3. apply not_true_iff_false. rewrite contains_occurs, char_occurs. intros Hin%Hc. tauto. }
  rewrite !Hno by (done || (unfold digit; lia)). done.
Qed.

Lemma parse_i_wide w w' s z : 0 < w <= w' -> parse_i w s = Some z -> parse_i w' s = Some z.
Proof.
  intros Hw H. pose proof (parse_i_range _ _ _ H) as Hz. assert (Hw' : in_ib w' z = true).
  { apply in_ib_spec. pose proof (Z.pow_le_mono_r 2 (w - 1) (w' - 1)). unfold in_i in *. lia. }
  revert H Hw'. unfold parse_i.
  destruct (match s with [] => (false, []) | c :: r => if c =? 45 then (true, r) else if c =? 43 then (false, r) else (false, s) end) as [neg ds].
  destruct ds as [| d ds]; [done |]. intros (v & Hv & H)%bind_Some. rewrite Hv. cbn [mbind option_bind].
  destruct (in_ib w _); [| done]. injection H as <-. by intros ->.
Qed.

Lemma note_field_small w s f : 0 < w -> small w s -> csv_missing f \/ reads_int w f -> small w (note_field s f).
Proof.
  intros Hw Hs Hf. unfold note_field. pose proof (csv_null_spec f) as Hnull. destruct (csv_null (trim f)); [done |].
  destruct Hf as [Hm | (z & Hz & Hr)]; [by apply Hnull in Hm |]. rewrite (integer_no_point _ _ _ Hz), (parse_i_wide 64 128 _ z) by (done || lia).
  destruct Hs as (Hd & Ho & Hl & Hh). apply in_ib_spec in Hr. unfold small. cbn [has_decimal overflow_i128 low high]. split_and!; [done.. | |].
  - destruct (low s) as [lo |]; [| done]. cbn in *. destruct (Z.min_spec z lo) as [[_ ->] | [_ ->]]; done.
  - destruct (high s) as [hi |]; [| done]. cbn in *. destruct (Z.max_spec z hi) as [[_ ->] | [_ ->]]; done.
Qed.

Lemma stats_small w fields s :
  0 < w -> small w s -> (forall f, f ∈ fields -> csv_missing f \/ reads_int w f) -> small w (foldl note_field s fields).
Proof.
  intros Hw. revert s. induction fields as [| f fields IH]; intros s Hs Hf; [done |]. cbn [foldl]. apply IH.
  - apply note_field_small; [done.. |]. apply Hf. by left.
  - intros g Hg. apply Hf. by right.
Qed.

Lemma small_64 s : small 32 s -> small 64 s.
Proof.
  assert (Hw : forall o, within 32 o = true -> within 64 o = true).
  { intros [z |]; [| done]. cbn. rewrite !in_ib_spec. unfold in_i. lia. }
  intros (? & ? & ? & ?). split_and!; auto.
Qed.

(** Such columns keep an integer type. *)
Lemma widened_small ty s : ty = INT \/ ty = BIGINT -> small 64 s -> widened ty s = BIGINT \/ (ty = INT /\ widened ty s = INT).
Proof.
  intros Hty (Hd & Ho & Hl & Hh). unfold widened. rewrite Hd, Ho, Hl, Hh. destruct Hty as [-> | ->]; cbn; destruct (_ || _); auto.
Qed.

Lemma widened_small_int s : small 32 s -> widened INT s = INT.
Proof. intros H. pose proof (small_64 _ H) as (_ & _ & Hl' & Hh'). destruct H as (Hd & Ho & Hl & Hh). unfold widened. by rewrite Hd, Ho, Hl, Hh, Hl', Hh'. Qed.

Lemma widened_cases ty s :
  widened ty s = ty \/ ((ty ∈ INT_NAMES \/ ty = BIGINT) /\ widened ty s ∈ [BIGINT; str "NUMERIC(38,0)"; DOUBLE]).
Proof.
  unfold widened. cbv zeta. rewrite !elem_of_cons. case_bool_decide as Hi; [| case_bool_decide as Hb; [| by left]].
  all: repeat match goal with |- context [if ?b then _ else _] => destruct b end; auto 10.
Qed.

(** A column that is not of integers alone stays as narrow. *)
Lemma widened_narrow m s ty :
  narrow (inferred_to_hyper_name m) ty -> ty <> INT -> ty <> BIGINT -> narrow (widened (inferred_to_hyper_name m) s) ty.
Proof.
  intros Hn H1 H2. destruct (widened_cases (inferred_to_hyper_name m) s) as [-> | [Hm Hw]]; [done |].
  assert (Hty : ty = TEXT \/ ty = DOUBLE).
  { assert (Hm' : inferred_to_hyper_name m = INT \/ inferred_to_hyper_name m = BIGINT).
    { unfold INT_NAMES in Hm. rewrite !elem_of_cons, elem_of_nil in Hm. destruct m; vm_compute in Hm |- *; naive_solver. }
    destruct Hn as [Hn | [Hn | [[Hn _] | [Hn _]]]]; [| by left | by right |]; exfalso; destruct Hm'; congruence. }
  rewrite !elem_of_cons, elem_of_nil in Hw. unfold narrow. rewrite !elem_of_cons. destruct Hty as [-> | ->]; [by auto |].
  destruct Hw as [-> | [-> | [-> | []]]]; auto 10.
Qed.

Lemma read_rows_ok k rows l : read_rows k rows = Ok l -> rows = Ok <$> l.
Proof.
  revert k l. induction rows as [| [record | e] rows IH]; intros k l H; cbn in H; [by injection H as <- | | done].
  destruct (read_rows (S k) rows) as [rest |] eqn:Hr; [| done]. injection H as <-. cbn. f_equal. by eapply IH.
Qed.

(** What both passes look at: a field of a column in the sample, in the whole text. *)
Definition cell (csv : Csv) (r i : nat) (field : list Z) : Prop :=
  exists record, records csv !! r = Some (Ok record) /\ record !! i = Some field.

Lemma inferred_csv csv has_header columns :
  infer_csv_schema csv has_header = Ok columns ->
  (has_header = true -> headers csv = Ok (name <$> columns))
  /\ forall i c, columns !! i = Some c -> schema_nullable c = true /\ exists types,
    hyper_type c = inferred_to_hyper_name (resolve_type types)
    /\ forall t, t ∈ types <-> exists r field, (r < 1000)%nat /\ cell csv r i field /\ infer_csv_field_type field = t.
Proof.
  unfold infer_csv_schema. destruct (csv_headers csv has_header) as [hs |] eqn:Hh; [| done]. cbn [result_bind].
  destruct hs as [| h hs]; [done |]. destruct (read_rows 0 (take MAX_SAMPLE (records csv))) as [rows |] eqn:Hr; [| done]. cbn [result_bind].
  remember (h :: hs) as hdrs. intros [= <-]. split.
  { intros ->. unfold csv_headers in Hh. destruct (headers csv) as [hs' |]; [| done]. injection Hh as ->. f_equal. apply list_eq. intros i.
    rewrite list_lookup_fmap, list_lookup_imap. by destruct (hdrs !! i). }
  intros i c Hc. rewrite list_lookup_imap in Hc. destruct (hdrs !! i) as [hd |]; [| done]. injection Hc as <-.
  split; [done |]. exists (sampled_types rows i). split; [done |]. apply read_rows_ok in Hr.
  assert (Hrow : forall r record, rows !! r = Some record <-> (r < 1000)%nat /\ records csv !! r = Some (Ok record)).
  { intros r record. transitivity (take MAX_SAMPLE (records csv) !! r = Some (Ok record)).
    - rewrite Hr, list_lookup_fmap. destruct (rows !! r); naive_solver.
    - rewrite lookup_take_Some. unfold MAX_SAMPLE. tauto. }
  intros t. unfold sampled_types. rewrite list_elem_of_omap. split.
  - intros (record & [r [Hlt Hrec]%Hrow]%list_elem_of_lookup & Ht). apply fmap_Some in Ht as (field & Hf & ->).
    exists r, field. split_and!; [done | by exists record | done].
  - intros (r & field & Hlt & (record & Hrec & Hf) & <-). exists record. rewrite Hf. split; [| done].
    eapply list_elem_of_lookup_2, Hrow. done.
Qed.

Lemma widened_csv csv columns columns' :
  widen_csv_numeric_columns csv columns = Ok columns' ->
  name <$> columns' = name <$> columns
  /\ forall i c, columns' !! i = Some c -> exists c0, columns !! i = Some c0 /\ schema_nullable c = schema_nullable c0
     /\ ((hyper_type c = hyper_type c0 /\ hyper_type c0 ∉ CANDIDATES)
         \/ exists rows, records csv = Ok <$> rows /\ hyper_type c = widened (hyper_type c0) (column_stats rows i)).
Proof.
  unfold widen_csv_numeric_columns. destruct (existsb is_candidate columns) eqn:He; cbn [negb].
  - destruct (read_rows 0 (records csv)) as [rows |] eqn:Hr; [| done]. cbn [result_bind]. intros [= <-]. apply read_rows_ok in Hr. split.
    + apply list_eq. intros i. rewrite !list_lookup_fmap, list_lookup_imap. destruct (columns !! i) as [c |]; [| done]. cbn.
      by destruct (is_candidate c).
    + intros i c Hc. rewrite list_lookup_imap in Hc. destruct (columns !! i) as [c0 |] eqn:Hc0; [| done]. injection Hc as <-.
      exists c0. split; [done |]. unfold is_candidate. case_bool_decide; split; auto. right. by exists rows.
  - intros [= <-]. split; [done |]. intros i c Hc. exists c. split_and!; [done.. |]. left. split; [done |]. intros Hin.
    apply not_true_iff_false in He. apply He, existsb_exists. exists c. split; [by apply list_elem_of_In; eapply list_elem_of_lookup_2 |].
    by apply bool_decide_eq_true.
Qed.
(** A column that the first pass gives its type and the second pass may widen. *)
Section second_pass.
Context (csv : Csv) (i : nat) (types : list InferredType) (ty : list Z).
#[local] Abbreviation first := (inferred_to_hyper_name (resolve_type types)).
Context (Htypes : forall t, t ∈ types <-> exists r field, (r < 1000)%nat /\ cell csv r i field /\ infer_csv_field_type field = t).
Context (Hwide : (ty = first /\ first ∉ CANDIDATES)
                 \/ exists rows, records csv = Ok <$> rows /\ ty = widened first (column_stats rows i)).

Lemma sample_fits r field : (r < 1000)%nat -> cell csv r i field -> csv_fits ty field.
Proof.
  intros Hr Hc. assert (Hf : csv_fits first field).
  { apply infer_csv_fits; [apply resolve_not_null |]. apply resolve_spec, Htypes. by exists r, field. }
  destruct Hwide as [[-> _] | (rows & _ & ->)]; [done | by apply widened_fits].
Qed.

Lemma in_column rows field :
  records csv = Ok <$> rows -> field ∈ omap (fun record => record !! i) rows <-> exists r, cell csv r i field.
Proof.
  intros Hrows. rewrite list_elem_of_omap. unfold cell. rewrite Hrows. setoid_rewrite list_lookup_fmap. split.
  - intros (record & [r Hr]%list_elem_of_lookup & Hf). exists r, record. by rewrite Hr.
  - intros (r & record & Hr & Hf). destruct (rows !! r) as [record' |] eqn:Hrow; [| done]. injection Hr as ->. exists record.
    split; [by eapply list_elem_of_lookup_2 | done].
Qed.

Lemma first_integer : ty = INT \/ ty = BIGINT -> first = INT \/ first = BIGINT.
Proof.
  assert (Hc : forall m, ty = inferred_to_hyper_name m \/ (exists s, ty = widened (inferred_to_hyper_name m) s) -> ty = INT \/ ty = BIGINT ->
    inferred_to_hyper_name m = INT \/ inferred_to_hyper_name m = BIGINT).
  { intros m [Hm | [s Hm]] Ht; [by rewrite <- Hm |]. destruct (widened_cases (inferred_to_hyper_name m) s) as [Heq | [Hi _]]; [by rewrite <- Heq, <- Hm |].
    unfold INT_NAMES in Hi. rewrite !elem_of_cons, elem_of_nil in Hi. destruct m; vm_compute in Hi |- *; naive_solver. }
  apply Hc. destruct Hwide as [[-> _] | (rows & _ & ->)]; eauto.
Qed.

Lemma integer_column r field w :
  ty = (if bool_decide (w = 32) then INT else BIGINT) -> w = 32 \/ w = 64 -> cell csv r i field -> csv_missing field \/ reads_int w field.
Proof.
  intros Hty Hw Hc. assert (Hf : first = INT \/ first = BIGINT) by (apply first_integer; rewrite Hty; case_bool_decide; auto).
  destruct Hwide as [[_ Hnc] | (rows & Hrows & Heq)].
  { exfalso. apply Hnc. destruct Hf as [-> | ->]; apply (bool_decide_unpack _); vm_compute; done. }
  apply (widened_integers first (column_stats rows i)); [congruence | done | done |]. apply stats_cover, in_column; [done |]. by exists r.
Qed.

Lemma narrowest u :
  u ∈ COLUMN_TYPES -> (exists r field, (r < 1000)%nat /\ cell csv r i field /\ ~ csv_missing field) ->
  (forall r field, (r < 1000)%nat \/ u = INT \/ u = BIGINT -> cell csv r i field -> csv_fits u field) -> narrow ty u.
Proof.
  intros (m & Hm & ->)%column_type (r & field & Hr & Hc & Hn) Hall.
  assert (Hfirst : fits_in (resolve_type types) m = true).
  { apply resolve_spec.
    - exists (infer_csv_field_type field). split; [apply Htypes; eauto | by rewrite infer_csv_null].
    - intros t (r' & f & Hr' & Hc' & <-)%Htypes. apply infer_csv_fits; [done |]. eauto. }
  pose proof (narrow_of _ _ (resolve_not_null types) Hfirst) as Hnarrow.
  destruct Hwide as [[-> _] | (rows & Hrows & ->)]; [done |].
  assert (Hst : forall w, 0 < w -> (forall r f, cell csv r i f -> csv_missing f \/ reads_int w f) -> small w (column_stats rows i)).
  { intros w Hw Hcells. apply stats_small; [done | done |]. intros f [r' Hf]%(in_column rows); [by eapply Hcells | done]. }
  pose proof (resolve_not_null types) as Hnn. destruct m; try (by apply widened_narrow).
  - assert (Hf : resolve_type types = IInt) by (destruct (resolve_type types); vm_compute in Hfirst; congruence). rewrite Hf. left. apply widened_small_int, Hst; [lia |].
    intros r' f Hf'. apply fits_int, (Hall r'); auto.
  - assert (Hs : small 64 (column_stats rows i)) by (apply Hst; [lia |]; intros r' f Hf'; apply fits_bigint, (Hall r'); auto).
    assert (Hf : first = INT \/ first = BIGINT) by (destruct (resolve_type types); vm_compute in Hfirst; auto; congruence).
    destruct (widened_small _ _ Hf Hs) as [-> | [_ ->]]; unfold narrow; auto.
Qed.

Lemma missing_column : (forall r field, (r < 1000)%nat -> cell csv r i field -> csv_missing field) -> ty = TEXT.
Proof.
  intros Hm. assert (Hr : resolve_type types = IText).
  { apply resolve_nulls. intros t (r & f & Hr & Hc & <-)%Htypes. by apply infer_csv_null, (Hm r). }
  rewrite Hr in Hwide. destruct Hwide as [[-> _] | (rows & _ & ->)]; [done |]. reflexivity.
Qed.
End second_pass.

(** ** The properties *)

(** C18. The types inferred for JSON fit the data. Each key of any object becomes one
    column, in the order of the keys. Every value of a column has a place in the column's
    type: in BOOL truth values, in INT integers of 32 bits, in BIGINT integers of 64, in
    DOUBLE PRECISION numbers, in DATE strings of the shape YYYY-MM-DD, in TIMESTAMP those
    of the shape of a timestamp, as far as it is looked at, in TEXT anything. Of the types
    that have a place for all the values of a column with a value that is not null, its
    type is the narrowest, so that it is DATE if they are dates and TEXT if one of them
    is another string; a column of nulls is TEXT. And a column is nullable exactly if an
    object lacks the key or has null for it. The year, month and day of a date may start
    with a plus sign in place of a digit, and are not checked to be of a calendar. *)
Theorem json_types_fit {N} (as_i64 : N -> option Z) (array : list (JsonMap N)) columns :
  infer_json_schema as_i64 (Ok array) = Ok columns ->
  StronglySorted (fun s t => str_lt s t = true) (name <$> columns)
  /\ (forall key, key ∈ name <$> columns <-> exists obj, obj ∈ array /\ key ∈ obj.*1)
  /\ forall c, c ∈ columns ->
       let values := fun v => exists obj, obj ∈ array /\ get obj (name c) = Some v in
       (forall v, values v -> json_fits as_i64 (hyper_type c) v)
       /\ (forall ty, ty ∈ COLUMN_TYPES -> (exists v, values v /\ v <> JNull) -> (forall v, values v -> json_fits as_i64 ty v) ->
             narrow (hyper_type c) ty)
       /\ ((forall v, values v -> v = JNull) -> hyper_type c = TEXT)
       /\ (schema_nullable c = false <-> forall obj, obj ∈ array -> exists v, get obj (name c) = Some v /\ v <> JNull).
Proof.
  unfold infer_json_schema. destruct array as [| obj array]; [done |]. set (objs := obj :: array). intros [= <-].
  assert (Hnames : name <$> (json_column as_i64 objs <$> all_keys objs) = all_keys objs) by (rewrite <- list_fmap_compose; apply list_fmap_id).
  rewrite Hnames. split_and!.
  - apply (foldl_in_order objs []). constructor.
  - intros key. unfold all_keys. rewrite (foldl_keys objs [] key), elem_of_nil. tauto.
  - intros c Hc. apply list_elem_of_fmap in Hc as (key & -> & _). pose proof (resolve_spec (col_types as_i64 objs key)) as [Hup Hleast].
    cbn [json_column name hyper_type] in *. split_and!.
    + intros v (o & Ho & Hv). apply json_fits_iff; [apply resolve_not_null |]. apply Hup, in_col_types. eauto.
    + intros ty (u & Hu & ->)%column_type (v & (o & Ho & Hv) & Hn) Hall. apply narrow_of; [apply resolve_not_null |]. apply Hleast.
      * exists (infer_json_value_type as_i64 v). split; [apply in_col_types; eauto |]. by rewrite infer_null.
      * intros t (o' & v' & Ho' & Hv' & <-)%in_col_types. apply json_fits_iff; [done |]. apply Hall. by exists o'.
    + intros Hnull. rewrite resolve_nulls; [done |]. intros t (o & v & Ho & Hv & <-)%in_col_types. apply infer_null, Hnull. by exists o.
    + apply json_nullable.
Qed.

(** The last number is beyond [i64], the first column mixes a number with a text. *)
Definition sample_objects : list (JsonMap Z) :=
  [[(str "a", JNumber 1); (str "b", JNumber 3000000000); (str "d", JNull)];
   [(str "a", JString (str "x")); (str "b", JNumber 2)];
   [(str "a", JNull); (str "b", JNumber 9223372036854775808); (str "d", JString (str "2024-05-06"))]].
Definition as_i64_of (z : Z) : option Z := if in_ib 64 z then Some z else None.
Definition sample_columns : list ColumnSchema :=
  [mk_schema (str "a") TEXT true; mk_schema (str "b") DOUBLE false; mk_schema (str "d") (str "DATE") true].

Lemma json_types_fit_witness :
  infer_json_schema as_i64_of (Ok sample_objects) = Ok sample_columns
  /\ (schema_nullable (mk_schema (str "b") DOUBLE false) = false <->
        forall obj, obj ∈ sample_objects -> exists v, get obj (str "b") = Some v /\ v <> JNull).
Proof.
  split; [vm_compute; reflexivity |].
  apply (json_types_fit as_i64_of sample_objects sample_columns); [vm_compute; reflexivity |]. apply (bool_decide_unpack _). vm_compute. done.
Defined.

(** C16. The types inferred for CSV fit the data. A field counts as missing if it is empty,
    null or NA. After both passes, every other field of the first thousand records has a
    place in the type of its column: in BOOL true and false, in INT and BIGINT integers
    of 32 and 64 bits, in NUMERIC(38,0) integers, in DOUBLE PRECISION floats, in DATE and
    TIMESTAMP what has their shape, in TEXT anything; and a column of INT or BIGINT has,
    in the whole text, only integers of its width and fields that count as missing. The
    type is the narrowest that has a place for the sampled fields, if one of them is not
    missing (for INT and BIGINT: for those of the whole text), and TEXT if none is there.
    Every column is nullable, and has its header as its name. *)
Theorem csv_types_fit csv has_header columns columns' :
  infer_csv_schema csv has_header = Ok columns ->
  widen_csv_numeric_columns csv columns = Ok columns' ->
  (has_header = true -> headers csv = Ok (name <$> columns'))
  /\ forall i c, columns' !! i = Some c ->
       schema_nullable c = true
       /\ (forall r field, (r < 1000)%nat -> cell csv r i field -> csv_fits (hyper_type c) field)
       /\ (forall r field, cell csv r i field ->
             (hyper_type c = INT -> csv_missing field \/ reads_int 32 field) /\ (hyper_type c = BIGINT -> csv_missing field \/ reads_int 64 field))
       /\ (forall ty, ty ∈ COLUMN_TYPES -> (exists r field, (r < 1000)%nat /\ cell csv r i field /\ ~ csv_missing field) ->
             (forall r field, (r < 1000)%nat \/ ty = INT \/ ty = BIGINT -> cell csv r i field -> csv_fits ty field) -> narrow (hyper_type c) ty)
       /\ ((forall r field, (r < 1000)%nat -> cell csv r i field -> csv_missing field) -> hyper_type c = TEXT).
Proof.
  intros Hinf Hwiden. destruct (inferred_csv _ _ _ Hinf) as [Hheads Hinfer]. destruct (widened_csv csv columns columns' Hwiden) as [Hnames Hcol].
  split; [by rewrite Hnames |]. intros i c Hc. destruct (Hcol i c Hc) as (c0 & Hc0 & Hnull & Hwide).
  destruct (Hinfer i c0 Hc0) as (Hn0 & types & Hty & Htypes). split; [congruence |].
  rewrite Hty in Hwide. split_and!.
  - intros r field. by apply (sample_fits csv i types).
  - intros r field Hf. split; intros Ht; by apply (integer_column csv i types (hyper_type c) Htypes Hwide r); auto.
  - by apply (narrowest csv i types).
  - by apply (missing_column csv i types).
Qed.

(** A thousand small numbers, then one that needs 64 bits. *)
Definition sample_csv : Csv :=
  mk_csv (Ok [str "n"; str "s"]) (replicate 1000 (Ok [str "1"; str "x"]) ++ [Ok [str " 3000000000"; []]; Ok [str "NA"; str "y"]]).
Definition after_sample (field : string) : Csv := mk_csv (Ok [str "n"]) (replicate 1000 (Ok [str "1"]) ++ [Ok [str field]]).

Lemma csv_types_fit_witness : csv_missing (str " 3000000000") \/ reads_int 64 (str " 3000000000").
Proof.
  destruct (csv_types_fit sample_csv true
              [mk_schema (str "n") INT true; mk_schema (str "s") TEXT true] [mk_schema (str "n") BIGINT true; mk_schema (str "s") TEXT true]) as [_ H].
  - vm_compute. reflexivity.
  - vm_compute. reflexivity.
  - destruct (H 0%nat (mk_schema (str "n") BIGINT true)) as (_ & _ & Hint & _); [vm_compute; reflexivity |].
    apply (Hint 1000%nat); [| reflexivity]. exists [str " 3000000000"; []]. split; vm_compute; reflexivity.
Defined.

(** A text behind the sample makes the second pass choose a type it does not fit. *)
Example text_becomes_double :
  (widen_csv_numeric_columns (after_sample "apple") [mk_schema (str "n") INT true] = Ok [mk_schema (str "n") DOUBLE true])
  /\ (widen_csv_numeric_columns (after_sample "n/a") [mk_schema (str "n") INT true] = Ok [mk_schema (str "n") (str "NUMERIC(38,0)") true]).
Proof. split; vm_compute; reflexivity. Qed.

(** What is not a date is taken for one. *)
Example not_a_date : infer_string_type (str "+123-+1-99") = IDate /\ infer_string_type (str "-         T        :") = ITimestamp.
Proof. split; vm_compute; reflexivity. Qed.

(** ** Canonical type names *)

(** The chars that upper-casing leaves alone. *)
Definition upper_char (c : Z) : Prop := 0 <= c < 97.

Definition parsed_type (t : SqlType) : Prop :=
  match t with Numeric p s => 1 <= p <= 38 /\ 0 <= s <= p | _ => t ∈ snd <$> NAMES end.

Lemma parse_u_nonneg w s z : parse_u w s = Some z -> 0 <= z.
Proof.
  unfold parse_u. destruct (match s with [] => _ | _ => _ end) as [| d ds]; [done |].
  intros (v & Hv & H)%bind_Some. destruct (in_ub w v) eqn:Hin; [| done]. injection H as <-. apply in_ub_spec in Hin. unfold in_u in Hin. lia.
Qed.

Lemma try_numeric_parsed p s t : 0 <= s -> try_numeric p s = Some t -> parsed_type t.
Proof.
  unfold try_numeric. intros Hs H. destruct (_ && _) eqn:Hb; [| done]. injection H as <-. rewrite !andb_true_iff, !Z.leb_le in Hb.
  unfold MAX_PRECISION in Hb. cbn. lia.
Qed.

Lemma parse_numeric_parsed upper t : parse_numeric upper = Some (Ok t) -> parsed_type t.
Proof.
  unfold parse_numeric. intros (rest & _ & H)%bind_Some. destruct (trim_start rest) as [| c cs]; [injection H as <-; cbn; lia |].
  apply bind_Some in H as (inner & _ & H). destruct (split 44 inner) as [| p [| s [| x l]]]; try done.
  - apply bind_Some in H as (pv & _ & H). destruct (try_numeric pv 0) eqn:Ht; [| done]. injection H as <-. by eapply try_numeric_parsed, Ht.
  - apply bind_Some in H as (pv & _ & H). apply bind_Some in H as (sv & Hs%parse_u_nonneg & H).
    destruct (try_numeric pv sv) eqn:Ht; [| done]. injection H as <-. by eapply try_numeric_parsed, Ht.
Qed.

Lemma named_parsed upper t : named_type upper = Some t -> parsed_type t.
Proof.
  unfold named_type. destruct (find _ NAMES) as [[n t'] |] eqn:Hf; [| done]. intros [= <-]. apply find_some in Hf as [Hin _].
  apply list_elem_of_In in Hin. assert (Ht : t' ∈ snd <$> NAMES) by (apply list_elem_of_fmap; by exists (n, t')).
  destruct t'; try done. exfalso. revert Ht. clear. unfold NAMES. cbn [fmap list_fmap snd]. rewrite !elem_of_cons, elem_of_nil. naive_solver.
Qed.

Lemma map_parsed to_uppercase type_name t : map_hyper_type to_uppercase type_name = Ok t -> parsed_type t.
Proof.
  unfold map_hyper_type. destruct (named_type _) as [t' |] eqn:Hn; [intros [= ->]; by eapply named_parsed |].
  destruct (parse_numeric _) as [r |] eqn:Hp; [| done]. cbn. intros ->. by eapply parse_numeric_parsed.
Qed.

Lemma trim_ends a s b : is_whitespace a = false -> is_whitespace b = false -> trim (a :: s ++ [b]) = a :: s ++ [b].
Proof.
  intros Ha Hb. unfold trim, trim_end. cbn [trim_start]. rewrite Ha.
  replace (reverse (a :: s ++ [b])) with (b :: reverse (a :: s)) by (by rewrite app_comm_cons, reverse_app).
  cbn [trim_start]. rewrite Hb. rewrite reverse_cons, reverse_involutive. done.
Qed.

Lemma digit_char c : 48 <= c <= 57 -> is_whitespace c = false.
Proof. intros H. unfold is_whitespace. repeat (destruct (Z.leb_spec _ _); try lia) || destruct (Z.eqb_spec _ _); try lia; done. Qed.

Lemma trim_digits n : 0 <= n -> trim (fmt_u n) = fmt_u n.
Proof. intros Hn. apply trim_id. eapply Forall_impl; [| by apply fmt_u_digits]. cbn. intros c. apply digit_char. Qed.

Lemma no_comma n : 0 <= n -> 44 ∉ fmt_u n.
Proof. intros Hn H. pose proof (fmt_u_digits n Hn) as Hd. rewrite list.Forall_forall in Hd. specialize (Hd _ H). cbn in Hd. lia. Qed.

Lemma strip_suffix_app c s : strip_suffix c (s ++ [c]) = Some s.
Proof.
  unfold strip_suffix. replace (reverse (s ++ [c])) with (c :: reverse s) by (by rewrite reverse_app).
  by rewrite Z.eqb_refl, reverse_involutive.
Qed.

Lemma parse_numeric_display p s : 1 <= p <= 38 -> 0 <= s <= p ->
  parse_numeric (SqlTypes.display (Numeric p s)) = Some (Ok (Numeric p s)).
Proof.
  intros Hp Hs. unfold parse_numeric, SqlTypes.display. set (inner := fmt_u p ++ 44 :: 32 :: fmt_u s).
  replace (str "NUMERIC(" ++ fmt_u p ++ str ", " ++ fmt_u s ++ str ")") with (str "NUMERIC" ++ (str "(" ++ (inner ++ [41])))
    by (unfold inner; rewrite <- !app_assoc; reflexivity).
  rewrite strip_prefix_app. cbn [mbind option_bind].
  change (trim_start (str "(" ++ (inner ++ [41]))) with (40 :: (inner ++ [41])). cbn beta iota.
  change (40 :: (inner ++ [41])) with (str "(" ++ (inner ++ [41])). rewrite strip_prefix_app. cbn [mbind option_bind].
  rewrite strip_suffix_app. cbn [mbind option_bind]. unfold inner.
  rewrite split_at by (apply no_comma; lia). rewrite split_none by (rewrite not_elem_of_cons; split; [done | apply no_comma; lia]).
  change (trim (32 :: fmt_u s)) with (trim (fmt_u s)). rewrite !trim_digits by lia.
  rewrite !parse_u_fmt_u by (unfold in_u; lia). cbn [mbind option_bind]. unfold try_numeric, MAX_PRECISION.
  by rewrite !(proj2 (Z.leb_le _ _)) by lia.
Qed.

Lemma named_types t : t ∈ snd <$> NAMES -> t ∈ [SmallInt; Int; BigInt; Double; SqlTypes.Text; Bool; Date; Time; Timestamp; TimestampTz; ByteA].
Proof. unfold NAMES. cbn [fmap list_fmap snd]. rewrite !elem_of_cons, elem_of_nil. naive_solver. Qed.

Lemma numeric_not_named p s : named_type (SqlTypes.display (Numeric p s)) = None.
Proof.
  unfold named_type. destruct (find _ NAMES) as [[n t] |] eqn:Hf; [| done]. exfalso. apply find_some in Hf as [Hin Heq].
  apply bool_decide_eq_true in Heq. cbn [fst] in Heq. unfold SqlTypes.display in Heq.
  assert (Hs : existsb (fun q : string * SqlType => starts_with (str q.1) (str "NUMERIC(")) NAMES = true).
  { apply existsb_exists. exists (n, t). split; [done |]. cbn [fst]. apply bool_decide_eq_true. rewrite <- Heq. by eexists. }
  by vm_compute in Hs.
Qed.

Lemma numeric_or_not t : (exists p s, t = Numeric p s) \/ ~ exists p s, t = Numeric p s.
Proof. destruct t; (left; by eexists _, _) || (right; by intros (? & ? & ?)). Qed.

Lemma parsed_display_upper t : parsed_type t -> Forall upper_char (SqlTypes.display t) /\ trim (SqlTypes.display t) = SqlTypes.display t.
Proof.
  assert (Hd : forall n, 0 <= n -> Forall upper_char (fmt_u n)).
  { intros n Hn. eapply Forall_impl; [| by apply fmt_u_digits]. cbn. intros c Hc. unfold upper_char. lia. }
  assert (Hclosed : forall s, forallb (fun c => (0 <=? c) && (c <? 97)) s = true -> Forall upper_char s).
  { intros s Hs. apply list.Forall_forall. intros c Hc%list_elem_of_In. rewrite forallb_forall in Hs. specialize (Hs c Hc).
    rewrite andb_true_iff, Z.leb_le, Z.ltb_lt in Hs. done. }
  destruct (numeric_or_not t) as [(p & s & ->) | Hn].
  - intros [Hp Hs]. split.
    + unfold SqlTypes.display. rewrite !list.Forall_app. split_and!; try (apply Hclosed; reflexivity); apply Hd; lia.
    + unfold SqlTypes.display. change (str "NUMERIC(") with (78 :: str "UMERIC("). cbn [app]. rewrite !app_assoc. by apply trim_ends.
  - intros Ht. assert (Hin : t ∈ snd <$> NAMES) by (destruct t; try done; exfalso; apply Hn; eauto).
    apply named_types in Hin. rewrite !elem_of_cons, elem_of_nil in Hin.
    repeat destruct Hin as [-> | Hin]; try done; (split; [apply Hclosed |]; vm_compute; reflexivity).
Qed.

Lemma map_display to_uppercase t :
  (forall s, Forall upper_char s -> to_uppercase s = s) -> parsed_type t -> map_hyper_type to_uppercase (SqlTypes.display t) = Ok t.
Proof.
  intros Hup Ht. destruct (parsed_display_upper t Ht) as [Hu Htrim]. unfold map_hyper_type. rewrite Htrim, Hup by done.
  destruct (numeric_or_not t) as [(p & s & ->) | Hn].
  - destruct Ht as [Hp Hs]. by rewrite numeric_not_named, parse_numeric_display.
  - assert (Hin : t ∈ snd <$> NAMES) by (destruct t; try done; exfalso; apply Hn; eauto).
    apply named_types in Hin. rewrite !elem_of_cons, elem_of_nil in Hin. repeat destruct Hin as [-> | Hin]; done.
Qed.

Lemma type_items_one t : SqlClassify.Semicolon ∉ type_items t.
Proof.
  destruct t as [ | | | | | | | | | | [n |] | | | | | | | | | ]; unfold type_items, words; cbn [fmap list_fmap app]; rewrite ?not_elem_of_cons;
    repeat split; try done; apply not_elem_of_nil.
Qed.

Lemma parsed_wf t : parsed_type t -> type_wf t.
Proof.
  destruct (numeric_or_not t) as [(p & s & ->) | Hn]; [cbn; unfold in_u; lia |]. intros Ht.
  assert (Hin : t ∈ snd <$> NAMES) by (destruct t; try done; exfalso; apply Hn; eauto).
  apply named_types in Hin. rewrite !elem_of_cons, elem_of_nil in Hin. repeat destruct Hin as [-> | Hin]; done.
Qed.

(** C17. Nothing of a caller's type name reaches the SQL but the type it names. Whatever
    the text, what is put in its place in a CREATE or ALTER TABLE is the name of one of
    the supported types, a decimal with a valid precision and scale among them; it is
    made of the tokens of that type alone; and it names the same type again, so that
    applying the canonical form twice changes nothing. *)
Theorem canonical_type_stable to_uppercase type_name sql :
  (forall s, Forall upper_char s -> to_uppercase s = s) ->
  canonical_type_sql to_uppercase type_name = Ok sql ->
  exists t, map_hyper_type to_uppercase type_name = Ok t /\ sql = SqlTypes.display t /\ parsed_type t
    /\ SqlClassify.parse sql = Val (Some (type_items t)) /\ (SqlClassify.Semicolon ∉ type_items t)
    /\ map_hyper_type to_uppercase sql = Ok t /\ canonical_type_sql to_uppercase sql = Ok sql.
Proof.
  intros Hup H. unfold canonical_type_sql in *. destruct (map_hyper_type to_uppercase type_name) as [t |] eqn:Hm; [| done].
  injection H as <-. pose proof (map_parsed _ _ _ Hm) as Ht.
  exists t. pose proof (map_display to_uppercase t Hup Ht) as Hd. split_and!; try done.
  - apply (lexes_parse 0 delimited); [apply lexes_type; [lia | by apply parsed_wf] | done].
  - apply type_items_one.
  - by rewrite Hd.
Qed.

Definition upper (s : list Z) : list Z := (fun c => if (97 <=? c) && (c <=? 122) then c - 32 else c) <$> s.

Lemma canonical_type_stable_witness :
  canonical_type_sql upper (str " decimal ( 12 ,2 )") = Ok (str "NUMERIC(12, 2)")
  /\ canonical_type_sql upper (str "NUMERIC(12, 2)") = Ok (str "NUMERIC(12, 2)").
Proof.
  split; [vm_compute; reflexivity |].
  destruct (canonical_type_stable upper (str " decimal ( 12 ,2 )") (str "NUMERIC(12, 2)")) as (t & _ & _ & _ & _ & _ & _ & H).
  - intros s Hs. unfold upper. rewrite <- (list_fmap_id s) at 2. apply list_fmap_ext. intros i c Hc.
    rewrite list.Forall_forall in Hs. specialize (Hs c (list_elem_of_lookup_2 _ _ _ Hc)). unfold upper_char in Hs.
    destruct (Z.leb_spec 97 c); [lia | done].
  - vm_compute. reflexivity.
  - exact H.
Defined.
