(* ===== verification/Ingest.v ===== *)
(** * Loading data into tables

    [hyperdb-mcp/src/ingest.rs] with the table operations of [engine.rs] it uses: the
    modes, the creation of tables, the loading of JSON and CSV, and the merge of loaded
    rows into a table that exists. The parsers and printers of JSON, the reader of CSV
    and the writing of the temporary file are parameters. *)

From stdpp Require Import strings gmap.
From S2P Require Import Prelude Text SqlEscape SqlTypes TableDef Catalog Connection Api Session McpErrors Engine CopyQuery TableCatalog Schema.

(** ** Modes *)

Module IngestMode.
Inductive t : Type :=
| Replace
| Append
| Merge (keys : list (list Z)).

(** A name that [parse_mode_name] cannot return is an internal error. *)
Definition parse (mode : option (list Z)) (merge_key : option (list (list Z))) (allowed : list (list Z)) (tool : list Z) : result t McpError :=
  let? name := parse_mode_name mode (Some (str "replace")) allowed tool in
  if bool_decide (name = str "merge") then
    match merge_key with
    | None => Err (new InvalidArgument (tool ++ str ": mode=merge requires merge_key (a column name or list of column names)"))
    | Some keys =>
        if bool_decide (keys = []) || existsb (fun k => bool_decide (k = [])) keys
        then Err (new InvalidArgument (tool ++ str ": merge_key must be a non-empty list of non-empty column names"))
        else Ok (Merge keys)
    end
  else if bool_decide (name = str "append" \/ name = str "replace") then
    match merge_key with
    | Some _ => Err (new InvalidArgument (tool ++ str ": merge_key is only valid with mode=merge"))
    | None => Ok (if bool_decide (name = str "append") then Append else Replace)
    end
  else Err (new InternalError (tool ++ str ": internal error: unexpected mode '" ++ name ++ str "' from mode parser")).

Definition as_str (m : t) : list Z := match m with Replace => str "replace" | Append => str "append" | Merge _ => str "merge" end.
Definition is_merge (m : t) : bool := match m with Merge _ => true | _ => false end.
Definition merge_keys (m : t) : option (list (list Z)) := match m with Merge keys => Some keys | _ => None end.

Definition replaces (m : t) : result bool McpError :=
  match m with
  | Replace => Ok true
  | Append => Ok false
  | Merge _ => Err (new InvalidArgument (str "mode=merge is not supported by this ingest path; use load_file for merge"))
  end.
End IngestMode.

(** The overrides are the members of a JSON object. *)
Record IngestOptions (N : Type) : Type := mk_options {
  table : list Z;
  mode : IngestMode.t;
  schema_override : option (JsonMap N);
  target_db : option (list Z);
}.
Arguments mk_options {N} _ _ _ _.
Arguments table {N} _.
Arguments mode {N} _.
Arguments schema_override {N} _.
Arguments target_db {N} _.

(** The answer of a load; the times it reports are left out. *)
Record IngestStats : Type := mk_ingest_stats {
  operation : list Z;
  stat_rows : Z;
  bytes_read : Z;
  stat_table : list Z;
  file_format : option (list Z);
  warning : option (list Z);
  schema_changed : bool;
}.

Record IngestResult : Type := mk_ingest { result_rows : Z; result_schema : list ColumnSchema; result_stats : IngestStats }.

(** ** Tables *)

(** The connection as a tool sees it, with its queries as rows of cells. *)
Class IngestConnection (K : Type) := {
  ingest_mcp :: McpConnection K;
  ingest_query : list Z -> Op K Rowset;
}.
#[export] Hint Mode IngestConnection ! : typeclass_instances.

#[export] Instance ingest_catalog {K} `{IngestConnection K} : CatalogClient K := {| catalog_client := mcp_client; execute_query := ingest_query |}.

Definition qualified_table (db : option (list Z)) (table : list Z) : list Z :=
  match db with Some db => CopyQuery.qualified db table | None => quote_ident table end.

Section ingest.
Context {K : Type} `{IngestConnection K} (show : Api.Error -> list Z) (to_uppercase : list Z -> list Z).

(** The types of the columns, or the error of the first that has none. *)
Fixpoint type_sqls (columns : list ColumnSchema) : result (list (list Z)) McpError :=
  match columns with
  | [] => Ok []
  | c :: columns =>
      let? ty := column_type_sql to_uppercase (hyper_type c) (Schema.name c) in
      let? tys := type_sqls columns in
      Ok (ty :: tys)
  end.

Definition create_sql (db : option (list Z)) (table : list Z) (columns : list ColumnSchema) (types : list (list Z)) : list Z :=
  str "CREATE TABLE IF NOT EXISTS " ++ qualified_table db table ++ str " ("
  ++ join (str ", ") (zip_with (fun c ty => quote_ident (Schema.name c) ++ str " " ++ ty ++ (if schema_nullable c then [] else str " NOT NULL"))
                        columns types) ++ str ")".

Definition drop_table_sql (db : option (list Z)) (table : list Z) : list Z := str "DROP TABLE IF EXISTS " ++ qualified_table db table.

Definition create_table_statements (table : list Z) (columns : list ColumnSchema) (replace : bool) (db : option (list Z))
  : result (list (list Z)) McpError :=
  match columns with
  | [] => Err (new EmptyData (str "No columns to create table from"))
  | _ =>
      let? types := type_sqls columns in
      Ok ((if replace then [drop_table_sql db table] else []) ++ [create_sql db table columns types])
  end.

Definition create_table_in (table : list Z) (columns : list ColumnSchema) (replace : bool) (db : option (list Z)) : Tool (Engine K) unit :=
  let> statements := lift (create_table_statements table columns replace db) in
  for_each statements (fun sql => let> _ := execute_command show sql in ret tt).

Definition on_catalog {A} (m : Op K A) : Tool (Engine K) A := on_connection m (from_api show).

Definition as_schema (c : ColumnDefinition) : ColumnSchema := mk_schema (col_name c) (type_name c) (nullable c).

(** The name is parsed: a dot in it, or a quote, is not part of the table's name. *)
Definition column_metadata (table : list Z) : Tool (Engine K) (list ColumnSchema) :=
  let> def := on_catalog (get_table_definition (TableName.from_str table)) in
  ret (as_schema <$> columns def).

Definition attribute_sql (db table : list Z) : list Z :=
  let cat := quote_ident db ++ str ".pg_catalog" in
  str "SELECT a.attname AS name, t.typname AS type_name, NOT a.attnotnull AS nullable, a.attnum AS ordinal FROM " ++ cat
  ++ str ".pg_attribute a JOIN " ++ cat ++ str ".pg_class c ON a.attrelid = c.oid JOIN " ++ cat
  ++ str ".pg_namespace n ON c.relnamespace = n.oid JOIN " ++ cat ++ str ".pg_type t ON a.atttypid = t.oid WHERE n.nspname = 'public' AND c.relname = "
  ++ Engine.sql_literal table ++ str " AND a.attnum > 0 ORDER BY a.attnum".

Definition describe_columns_via_pg_catalog (db table : list Z) : Tool (Engine K) (list JsonRow) :=
  let> rows := execute_query_to_json show (attribute_sql db table) in
  ret ((fun r => [(str "name", default Null (field r (str "name"))); (str "type", default Null (field r (str "type_name")));
                  (str "nullable", default (Boolean true) (field r (str "nullable")))]) <$> rows).

Definition schema_of_row (r : JsonRow) : ColumnSchema :=
  mk_schema (default [] (field r (str "name") ≫= Engine.as_str)) (default [] (field r (str "type") ≫= Engine.as_str))
    (default true (field r (str "nullable") ≫= as_bool)).

Definition column_metadata_in (db : option (list Z)) (table : list Z) : Tool (Engine K) (list ColumnSchema) :=
  match db with
  | None => column_metadata table
  | Some db =>
      let> rows := describe_columns_via_pg_catalog db table in
      match rows with
      | [] => fail (new TableNotFound (str "Table '" ++ table ++ str "' does not exist in database '" ++ db ++ str "'"))
      | _ => ret (schema_of_row <$> rows)
      end
  end.

Definition table_exists (table : list Z) : Tool (Engine K) bool :=
  let> names := on_catalog (get_table_names (SchemaName.from_str (str "public"))) in
  ret (bool_decide (table ∈ names)).

Definition exists_sql (db table : list Z) : list Z :=
  str "SELECT 1 AS one FROM " ++ quote_ident db ++ str ".pg_catalog.pg_tables WHERE schemaname = 'public' AND tablename = "
  ++ Engine.sql_literal table.

Definition table_exists_in (db : option (list Z)) (table : list Z) : Tool (Engine K) bool :=
  match db with
  | None => table_exists table
  | Some db => let> rows := execute_query_to_json show (exists_sql db table) in ret (negb (bool_decide (rows = [])))
  end.

Definition add_columns_sql (db : option (list Z)) (table : list Z) (cols : list ColumnSchema) (types : list (list Z)) : list Z :=
  str "ALTER TABLE " ++ qualified_table db table ++ str " "
  ++ join (str ", ") (zip_with (fun c ty => str "ADD COLUMN " ++ quote_ident (Schema.name c) ++ str " " ++ ty) cols types).

Definition alter_table_add_columns_in (db : option (list Z)) (table : list Z) (cols : list ColumnSchema) : Tool (Engine K) unit :=
  match cols with
  | [] => ret tt
  | _ =>
      let> types := lift (type_sqls cols) in
      let> _ := execute_command show (add_columns_sql db table cols types) in
      ret tt
  end.

(** ** Merging *)

Definition MERGE_PREFIX : list Z := str "__hyperdb_merge_".

Definition types_compatible (a b : list Z) : bool :=
  bool_decide (a = b)
  || match map_hyper_type to_uppercase a, map_hyper_type to_uppercase b with
     | Ok sa, Ok sb => bool_decide (sa = sb)
     | _, _ => true
     end.

Definition column_named (k : list Z) (cols : list ColumnSchema) : option ColumnSchema := find (fun c => bool_decide (Schema.name c = k)) cols.

Definition no_key_in_target (k table : list Z) : McpError :=
  new InvalidArgument (str "merge_key column '" ++ k ++ str "' is not in target table '" ++ table ++ str "'").
Definition no_key_in_data (k : list Z) : McpError :=
  new InvalidArgument (str "merge_key column '" ++ k ++ str "' is not in incoming data (column missing from the file)").
Definition mismatch (what k : list Z) (t s : ColumnSchema) : McpError :=
  new InvalidArgument (what ++ str " '" ++ k ++ str "' type mismatch: target is " ++ hyper_type t ++ str " but incoming is "
                       ++ hyper_type s ++ str ". Use mode=replace or apply a schema override.").

Fixpoint check_keys (keys : list (list Z)) (table : list Z) (target_cols tmp_cols : list ColumnSchema) : result unit McpError :=
  match keys with
  | [] => Ok tt
  | k :: keys =>
      match column_named k target_cols, column_named k tmp_cols with
      | None, _ => Err (no_key_in_target k table)
      | _, None => Err (no_key_in_data k)
      | Some t, Some s => if negb (types_compatible (hyper_type t) (hyper_type s)) then Err (mismatch (str "merge_key column") k t s)
                          else check_keys keys table target_cols tmp_cols
      end
  end.

Fixpoint check_shared (target_cols tmp_cols : list ColumnSchema) : result unit McpError :=
  match tmp_cols with
  | [] => Ok tt
  | tc :: tmp_cols =>
      match column_named (Schema.name tc) target_cols with
      | Some t => if negb (types_compatible (hyper_type t) (hyper_type tc)) then Err (mismatch (str "Column") (Schema.name tc) t tc)
                  else check_shared target_cols tmp_cols
      | None => check_shared target_cols tmp_cols
      end
  end.

Definition missing_required (target_cols tmp_cols : list ColumnSchema) : list (list Z) :=
  Schema.name <$> filter (fun t => negb (schema_nullable t) && match column_named (Schema.name t) tmp_cols with Some _ => false | None => true end = true) target_cols.

Definition check_required (table : list Z) (target_cols tmp_cols : list ColumnSchema) : result unit McpError :=
  match missing_required target_cols tmp_cols with
  | [] => Ok tt
  | missing => Err (new InvalidArgument (str "merge: NOT NULL column(s) of '" ++ table ++ str "' missing from the incoming data: "
                                         ++ join (str ", ") missing ++ str ". Include them, or use mode=replace."))
  end.

Definition new_columns (target_cols tmp_cols : list ColumnSchema) : list ColumnSchema :=
  (fun c => mk_schema (Schema.name c) (hyper_type c) true)
    <$> filter (fun c => match column_named (Schema.name c) target_cols with Some _ => false | None => true end = true) tmp_cols.

Definition delete_sql (db : option (list Z)) (target tmp : list Z) (keys : list (list Z)) : list Z :=
  str "DELETE FROM " ++ qualified_table db target ++ str " t USING " ++ qualified_table db tmp ++ str " s WHERE "
  ++ join (str " AND ") ((fun k => str "t." ++ quote_ident k ++ str " = s." ++ quote_ident k) <$> keys).

Definition insert_select_sql (db : option (list Z)) (target tmp : list Z) (cols : list ColumnSchema) : list Z :=
  let names := join (str ", ") (quote_ident ∘ Schema.name <$> cols) in
  str "INSERT INTO " ++ qualified_table db target ++ str " (" ++ names ++ str ") SELECT " ++ names ++ str " FROM " ++ qualified_table db tmp.

Definition drop_column_sql (db : option (list Z)) (target : list Z) (c : ColumnSchema) : list Z :=
  str "ALTER TABLE " ++ qualified_table db target ++ str " DROP COLUMN " ++ quote_ident (Schema.name c).

Definition not_produced (tmp : list Z) : McpError :=
  new InternalError (str "merge: temp table '" ++ tmp ++ str "' was not produced by the format-specific replace load "
                     ++ [8212] ++ str " this is a contract violation in the per-format ingest path").

Definition restated_stats (s : IngestStats) (rows : Z) (table : list Z) (changed : bool) : IngestStats :=
  mk_ingest_stats (operation s) rows (bytes_read s) table (file_format s) (warning s) changed.

(** Steps 3 to 6, with whether the staging table has become the target. *)
Definition merge_from_staging (db : option (list Z)) (target : list Z) (keys : list (list Z)) (tmp : list Z) (tmp_result : IngestResult)
  : Tool (Engine K) (IngestResult * bool) :=
  let> produced := table_exists_in db tmp in
  if negb produced then fail (not_produced tmp)
  else
    let> present := table_exists_in db target in
    if negb present then
      let> _ := execute_command show (rename_sql (qualified_table db tmp) target) in
      ret (mk_ingest (result_rows tmp_result) (result_schema tmp_result)
             (restated_stats (result_stats tmp_result) (stat_rows (result_stats tmp_result)) target true), true)
    else
      let> target_cols := column_metadata_in db target in
      let> tmp_cols := column_metadata_in db tmp in
      let> _ := lift (check_keys keys target target_cols tmp_cols) in
      let> _ := lift (check_shared target_cols tmp_cols) in
      let> _ := lift (check_required target target_cols tmp_cols) in
      let new_cols := new_columns target_cols tmp_cols in
      let> _ := alter_table_add_columns_in db target new_cols in
      let> merged := attempt (execute_in_transaction show
                       (let> _ := execute_command show (delete_sql db target tmp keys) in
                        execute_command show (insert_select_sql db target tmp tmp_cols))) in
      match merged with
      | Err e =>
          let> _ := for_each new_cols (fun c => let> _ := attempt (execute_command show (drop_column_sql db target c)) in ret tt) in
          fail e
      | Ok inserted =>
          let> final_schema := column_metadata_in db target in
          ret (mk_ingest inserted final_schema
                 (restated_stats (result_stats tmp_result) inserted target (negb (bool_decide (new_cols = [])))), false)
      end.

(** [tmp] is the name that [scratch_name] gives. *)
Definition merge_via_temp_table {N} (tmp : list Z) (opts : IngestOptions N) (replace_load : IngestOptions N -> Tool (Engine K) IngestResult)
  : Tool (Engine K) IngestResult :=
  match mode opts with
  | IngestMode.Merge keys =>
      if bool_decide (keys = []) || existsb (fun k => bool_decide (k = [])) keys
      then fail (new InvalidArgument (str "merge_key must be a non-empty list of non-empty column names"))
      else
        let tmp_opts := mk_options tmp IngestMode.Replace (schema_override opts) (target_db opts) in
        with_scratch show (qualified_table (target_db opts) tmp)
          (let> tmp_result := guarded (replace_load tmp_opts) in
           let> merged := guarded (merge_from_staging (target_db opts) (table opts) keys tmp tmp_result) in
           let> _ := (if merged.2 : bool then disarm else ret tt) in
           ret merged.1)
  | _ => fail (new InternalError (str "merge_via_temp_table called with a non-merge mode"))
  end.

(** ** JSON *)

Section json.
Context {N : Type} (as_i64 : N -> option Z) (number_text : N -> list Z) (json_text : Json N -> list Z)
  (parse_array : list Z -> result (list (JsonMap N)) (list Z)) (debug_names : list (list Z) -> list Z).

Definition overridden (schema : option (JsonMap N)) (inferred : list ColumnSchema) : result (list ColumnSchema) McpError :=
  match schema with Some s => apply_schema_override to_uppercase debug_names inferred s | None => Ok inferred end.

Definition json_value_sql (v : option (Json N)) : list Z :=
  match v with
  | None | Some JNull => str "NULL"
  | Some (JBool b) => if b then str "true" else str "false"
  | Some (JNumber n) => number_text n
  | Some (JString s) => Engine.sql_literal s
  | Some other => Engine.sql_literal (json_text other)
  end.

(** The names of the columns are put between quotes as they are. *)
Definition json_insert_sql (db : option (list Z)) (table : list Z) (columns : list ColumnSchema) (obj : JsonMap N) : list Z :=
  str "INSERT INTO " ++ qualified_table db table ++ str " (" ++ join (str ", ") ((fun c => [34] ++ Schema.name c ++ [34]) <$> columns)
  ++ str ") VALUES (" ++ join (str ", ") ((fun c => json_value_sql (get obj (Schema.name c))) <$> columns) ++ str ")".

Fixpoint insert_objects (db : option (list Z)) (table : list Z) (columns : list ColumnSchema) (array : list (JsonMap N)) : Tool (Engine K) Z :=
  match array with
  | [] => ret 0
  | obj :: array =>
      let> _ := execute_command show (json_insert_sql db table columns obj) in
      let> n := insert_objects db table columns array in
      ret (n + 1)
  end.

Definition large_warning (bytes : Z) : option (list Z) :=
  if 50000000 <? bytes then Some (str "Large inline data. Consider using load_file for better performance.") else None.

Definition load_json (text : list Z) (opts : IngestOptions N) : Tool (Engine K) IngestResult :=
  let> inferred := lift (infer_json_schema as_i64 (parse_array text)) in
  let> columns := lift (overridden (schema_override opts) inferred) in
  let> array := lift (match parse_array text with
                      | Err e => Err (new SchemaMismatch (str "Invalid JSON: " ++ e))
                      | Ok [] => Err (new EmptyData (str "JSON array is empty"))
                      | Ok array => Ok array
                      end) in
  let> is_replace := lift (IngestMode.replaces (mode opts)) in
  let> row_count := execute_in_transaction show
                      (let> _ := create_table_in (table opts) columns is_replace (target_db opts) in
                       insert_objects (target_db opts) (table opts) columns array) in
  let bytes := Z.of_nat (length (utf8 text)) in
  ret (mk_ingest row_count columns
         (mk_ingest_stats (str "load_data") row_count bytes (table opts) (Some (str "json")) (large_warning bytes) false)).

(** A merge loads its staging table in the mode that replaces, which does not merge. *)
Definition ingest_json (tmp text : list Z) (opts : IngestOptions N) : Tool (Engine K) IngestResult :=
  if IngestMode.is_merge (mode opts) then merge_via_temp_table tmp opts (load_json text) else load_json text opts.

(** ** CSV *)

Context (read_csv : list Z -> Csv).

Definition csv_columns (text : list Z) (schema : option (JsonMap N)) : result (list ColumnSchema) McpError :=
  let? inferred := infer_csv_schema (read_csv text) true in
  let? widened := widen_csv_numeric_columns (read_csv text) inferred in
  overridden schema widened.

Definition copy_csv_sql (db : option (list Z)) (table path : list Z) : list Z :=
  str "COPY " ++ qualified_table db table ++ str " FROM " ++ escape_string_literal path
  ++ str " WITH (FORMAT csv, NULL '', DELIMITER ',', HEADER)".

(** The table created and filled from the file at [path]. *)
Definition copy_file (path : list Z) (columns : list ColumnSchema) (opts : IngestOptions N) : Tool (Engine K) Z :=
  let> is_replace := lift (IngestMode.replaces (mode opts)) in
  execute_in_transaction show
    (let> _ := create_table_in (table opts) columns is_replace (target_db opts) in
     execute_command show (copy_csv_sql (target_db opts) (table opts) path)).

(** [written] is the canonical path of the temporary file, or the error of writing it. *)
Definition load_csv (written : result (list Z) McpError) (text : list Z) (opts : IngestOptions N) : Tool (Engine K) IngestResult :=
  let> columns := lift (csv_columns text (schema_override opts)) in
  let> path := lift written in
  let> row_count := copy_file path columns opts in
  let bytes := Z.of_nat (length (utf8 text)) in
  ret (mk_ingest row_count columns
         (mk_ingest_stats (str "load_data") row_count bytes (table opts) (Some (str "csv")) (large_warning bytes) false)).

Definition ingest_csv (tmp : list Z) (written : result (list Z) McpError) (text : list Z) (opts : IngestOptions N) : Tool (Engine K) IngestResult :=
  if IngestMode.is_merge (mode opts) then merge_via_temp_table tmp opts (load_csv written text) else load_csv written text opts.

(** [sample] is what [read_text_sample] makes of the file, [None] if it does not exist. *)
Definition load_csv_file (path canonical : list Z) (size : Z) (sample : option (result (list Z) (list Z))) (opts : IngestOptions N)
  : Tool (Engine K) IngestResult :=
  let> text := lift (match sample with
                     | None => Err (new FileNotFound (str "File not found: " ++ path))
                     | Some (Err e) => Err (new FileNotFound (str "Cannot read file: " ++ e))
                     | Some (Ok text) => Ok text
                     end) in
  let> columns := lift (csv_columns text (schema_override opts)) in
  let> row_count := copy_file canonical columns opts in
  ret (mk_ingest row_count columns (mk_ingest_stats (str "load_file") row_count size (table opts) (Some (str "csv")) None false)).

Definition ingest_csv_file (tmp path canonical : list Z) (size : Z) (sample : option (result (list Z) (list Z))) (opts : IngestOptions N)
  : Tool (Engine K) IngestResult :=
  if IngestMode.is_merge (mode opts) then merge_via_temp_table tmp opts (load_csv_file path canonical size sample)
  else load_csv_file path canonical size sample opts.
End json.
End ingest.

(** ** Files *)

Definition SCHEMA_INFERENCE_MAX_BYTES : nat := Z.to_nat (64 * 1024 * 1024).

(** The bytes up to the last newline, or all of them. *)
Definition to_last_newline (bs : list Z) : list Z :=
  match split_last 10 bs with Some (before, _) => before ++ [10] | None => bs end.

(** [Utf8Error::valid_up_to]: the bytes of the well-formed chars at the front. *)
Fixpoint valid_up_to (fuel : nat) (bs : list Z) : list Z :=
  match fuel, decode_char bs with
  | S fuel, Some (c, rest) => encode_char c ++ valid_up_to fuel rest
  | _, _ => []
  end.

(** From the bytes of the file; an [io::Error] is not told apart. *)
Definition read_text_sample (max_bytes : nat) (file : list Z) : option (list Z) :=
  if (length file <=? max_bytes)%nat then from_utf8 file
  else
    let buf := to_last_newline (take max_bytes file) in
    match from_utf8 buf with
    | Some s => Some s
    | None => from_utf8 (to_last_newline (valid_up_to (length buf) buf))
    end.

(** [str::lines]. *)
Definition lines (text : list Z) : list (list Z) :=
  let pieces := split_on 10 text [] in
  let pieces := match list.last pieces with Some [] => take (length pieces - 1) pieces | _ => pieces end in
  (fun l => match list.last l with Some 13 => take (length l - 1) l | _ => l end) <$> pieces.

Section files.
Context {N : Type} (from_str : list Z -> result (Json N) (list Z)) (to_string : Json N -> result (list Z) (list Z)).

Fixpoint parse_lines (idx : Z) (ls : list (list Z)) : result (list (Json N)) McpError :=
  match ls with
  | [] => Ok []
  | l :: ls =>
      match trim l with
      | [] => parse_lines (idx + 1) ls
      | line =>
          match from_str line with
          | Err e => Err (new SchemaMismatch (str "Invalid JSON on line " ++ fmt_u (idx + 1) ++ str ": " ++ e))
          | Ok v => let? vs := parse_lines (idx + 1) ls in Ok (v :: vs)
          end
      end
  end.

Definition is_array_text (text : list Z) : bool := Session.starts_with (trim_start text) (str "[").

Definition normalize_json_or_jsonl (text : list Z) : result (list Z) McpError :=
  if is_array_text text then Ok text
  else
    let? objects := parse_lines 0 (lines text) in
    match objects with
    | [] => Err (new EmptyData (str "JSON/JSONL file contained no records"))
    | _ => match to_string (JArray objects) with
           | Ok s => Ok s
           | Err e => Err (new InternalError (str "Failed to serialize JSONL as array: " ++ e))
           end
    end.

Definition at_segment (path segment : list Z) (traversed : list (list Z)) (what : list Z) : McpError :=
  new SchemaMismatch (str "json_extract_path '" ++ path ++ str "': at segment '" ++ segment ++ str "' (after '"
                      ++ join (str ".") traversed ++ str "'): " ++ what).

(** One segment, of the value or of what its text parses to. *)
Definition step_into (path segment : list Z) (traversed : list (list Z)) (current : Json N) : result (Json N) McpError :=
  let? current := match current with
                  | JString s => match from_str s with
                                 | Ok v => Ok v
                                 | Err _ => Err (at_segment path segment traversed (str "value is a string but not valid JSON"))
                                 end
                  | v => Ok v
                  end in
  match parse_u 64 segment with
  | Some idx =>
      match current with
      | JArray arr =>
          match arr !! Z.to_nat idx with
          | Some v => Ok v
          | None => Err (at_segment path segment traversed
                           (str "array index " ++ fmt_u idx ++ str " out of bounds (length " ++ fmt_u (Z.of_nat (length arr)) ++ str ")"))
          end
      | other => Err (at_segment path segment traversed (str "expected array, found " ++ json_type_name other))
      end
  | None =>
      match current with
      | JObject m => match get m segment with
                     | Some v => Ok v
                     | None => Err (at_segment path segment traversed (str "key not found in object"))
                     end
      | other => Err (at_segment path segment traversed (str "expected object, found " ++ json_type_name other))
      end
  end.

Fixpoint walk (path : list Z) (segments traversed : list (list Z)) (current : Json N) : result (Json N) McpError :=
  match segments with
  | [] => Ok current
  | segment :: segments =>
      let? current := step_into path segment traversed current in
      walk path segments (traversed ++ [segment]) current
  end.

Definition extract_json_path (raw_json path : list Z) : result (list Z) McpError :=
  match from_str raw_json with
  | Err e => Err (new SchemaMismatch (str "json_extract_path: file is not valid JSON: " ++ e))
  | Ok v =>
      let? current := walk path (Text.split 46 path) [] v in
      let current := match current with
                     | JString s => match from_str s with Ok parsed => parsed | Err _ => current end
                     | _ => current
                     end in
      match to_string current with
      | Ok s => Ok s
      | Err e => Err (new InternalError (str "json_extract_path: failed to serialize extracted value: " ++ e))
      end
  end.

(** [text] is what [read_to_string] makes of the file, [None] if it does not exist. *)
Definition ingest_json_file {K} `{IngestConnection K} (ingest_json : list Z -> IngestOptions N -> Tool (Engine K) IngestResult)
    (path : list Z) (size : Z) (text : option (result (list Z) (list Z))) (opts : IngestOptions N) : Tool (Engine K) IngestResult :=
  let> text := lift (match text with
                     | None => Err (new FileNotFound (str "File not found: " ++ path))
                     | Some (Err e) => Err (new FileNotFound (str "Cannot read file: " ++ e))
                     | Some (Ok text) => Ok text
                     end) in
  let> array := lift (normalize_json_or_jsonl text) in
  let> r := ingest_json array opts in
  let s := result_stats r in
  ret (mk_ingest (result_rows r) (result_schema r)
         (mk_ingest_stats (str "load_file") (stat_rows s) size (stat_table s) (Some (if is_array_text text then str "json" else str "jsonl"))
            (warning s) (schema_changed s))).
End files.

Inductive InferredFileFormat : Type := Parquet | ArrowIpc | JsonFormat | CsvFormat.

(** [Path::extension]. *)
Definition extension (path : list Z) : option (list Z) :=
  name ← file_name path;
  match split_last 46 name with Some ([], _) | None => None | Some (_, ext) => Some ext end.

Fixpoint sniff (bs : list Z) : InferredFileFormat :=
  match bs with
  | [] => CsvFormat
  | b :: bs =>
      if bool_decide (b ∈ [32; 9; 10; 13; 0xEF; 0xBB; 0xBF]) then sniff bs
      else if (b =? 91) || (b =? 123) then JsonFormat else CsvFormat
  end.

(** [read] is what one read of 4096 bytes gives, if the file can be opened and read. *)
Definition detect_file_format (path : list Z) (read : option (list Z)) : InferredFileFormat :=
  let ext := to_lowercase (default [] (extension path)) in
  if bool_decide (ext ∈ [str "parquet"; str "pq"]) then Parquet
  else if bool_decide (ext ∈ [str "arrow"; str "ipc"; str "feather"]) then ArrowIpc
  else if bool_decide (ext ∈ [str "json"; str "jsonl"; str "ndjson"]) then JsonFormat
  else match read with Some bs => sniff bs | None => CsvFormat end.

Example jsonl_lines : lines (str "{1}" ++ [13; 10] ++ str "{2}" ++ [10]) = [str "{1}"; str "{2}"].
Proof. reflexivity. Qed.

(** A file that is not UTF-8 is refused, but a large one is sampled up to its first bad
    byte. *)
Example bad_byte_sampled :
  let file := str "a,b" ++ [10] ++ str "1,2" ++ [10; 255] ++ str "3" in
  read_text_sample 20 file = None /\ read_text_sample 9 file = Some (str "a,b" ++ [10] ++ str "1,2" ++ [10]).
Proof. split; reflexivity. Qed.
