(* ===== verification/Specs.v ===== *)
(** * Specifications of tools

    What a tool of the engine does, said by what it leaves its connection in, with the
    rules for the ways tools are put together. *)

From stdpp Require Import strings gmap.
From S2P Require Import Prelude Text Connection Api Session McpErrors Engine TableCatalog.

Definition verdict {A E} (r : result A E) : option A := match r with Ok a => Some a | Err _ => None end.

(** The specification of a tool by what it leaves its connection in. *)
Definition spec {K A} (P : K -> Prop) (m : Tool (Engine K) A) (Q : option A -> K -> Prop) : Prop :=
  ensures (fun e => P (connection e)) m (fun r e => Q (verdict r) (connection e)).

Section spec.
Context {K : Type}.
Implicit Types P : K -> Prop.

Lemma spec_ret {A} (a : A) (Q : option A -> K -> Prop) : spec (Q (Some a)) (ret a) Q.
Proof. exact (ensures_ret a (fun r e => Q (verdict r) (connection e))). Qed.

Lemma spec_fail {A} err (Q : option A -> K -> Prop) : spec (Q None) (fail err) Q.
Proof. exact (ensures_fail err (fun r e => Q (verdict r) (connection e))). Qed.

Lemma spec_lift {A} P (r : result A McpError) (Q : option A -> K -> Prop) : (forall k, P k -> Q (verdict r) k) -> spec P (lift r) Q.
Proof. intros HQ e He. exists r, e. split; [done |]. by apply HQ. Qed.

Lemma spec_weaken {A} P P' (m : Tool (Engine K) A) Q Q' :
  spec P m Q -> (forall k, P' k -> P k) -> (forall o k, Q o k -> Q' o k) -> spec P' m Q'.
Proof. intros Hm HP HQ. eapply ensures_weaken; [exact Hm | |]; cbn; auto. Qed.

Lemma spec_bind {A B} P (m : Tool (Engine K) A) (f : A -> Tool (Engine K) B) R Q :
  spec P m R -> (forall a, spec (R (Some a)) (f a) Q) -> (forall k, R None k -> Q None k) -> spec P (tool_bind m f) Q.
Proof. intros Hm Hf He. eapply ensures_bind; [exact Hm | exact Hf | cbn; auto]. Qed.

Lemma spec_attempt {A} P (m : Tool (Engine K) A) R Q :
  spec P m R -> (forall r k, R (verdict r) k -> Q (Some r) k) -> spec P (attempt m) Q.
Proof. intros Hm HQ. eapply ensures_attempt; [exact Hm | cbn; auto]. Qed.

Lemma spec_for_each {A} P (l : list A) (m : A -> Tool (Engine K) unit) :
  (forall a, a ∈ l -> spec P (m a) (fun o k => P k)) -> spec P (for_each l m) (fun o k => P k).
Proof.
  induction l as [| a l IH]; intros Hm; cbn [for_each]; [apply (spec_ret tt (fun _ k => P k)) |].
  apply (spec_bind _ _ _ (fun _ k => P k)); [apply Hm; by left | | done]. intros _. apply IH. intros b Hb. apply Hm. by right.
Qed.

Lemma spec_pure {A} (phi : Prop) P (m : Tool (Engine K) A) Q : (phi -> spec P m Q) -> spec (fun k => phi /\ P k) m Q.
Proof. intros Hm e [Hphi He]. by apply Hm. Qed.

(** What changes nothing and tells [phi] of its result. *)
Lemma spec_read {A B} P (phi : A -> Prop) (m : Tool (Engine K) A) (f : A -> Tool (Engine K) B) Q :
  spec P m (fun o k => P k /\ forall a, o = Some a -> phi a) -> (forall a, phi a -> spec P (f a) Q) -> (forall k, P k -> Q None k) ->
  spec P (tool_bind m f) Q.
Proof.
  intros Hm Hf HQ. eapply spec_bind; [exact Hm | | cbn; intros k [Hk _]; by apply HQ]. cbn. intros x e [He Hx].
  exact (Hf x (Hx x eq_refl) e He).
Qed.

Lemma spec_lifted {A B} P (r : result A McpError) (f : A -> Tool (Engine K) B) Q :
  (forall a, r = Ok a -> spec P (f a) Q) -> (forall k, P k -> Q None k) -> spec P (let> a := lift r in f a) Q.
Proof.
  intros Hf HQ. apply (spec_read _ (fun x => r = Ok x)); [| done | done]. apply spec_lift. intros k Hk. split; [done |].
  destruct r; [by intros x [= ->] | done].
Qed.

Lemma spec_on_connection {A} P (m : K -> outcome (result A Api.Error * K)) conv (Q : option A -> K -> Prop) :
  (forall k, exists r k', m k = Val (r, k')) -> (forall k r k', P k -> m k = Val (r, k') -> Q (verdict r) k') ->
  spec P (on_connection m conv) Q.
Proof.
  intros Hm HQ e He. destruct (Hm (connection e)) as (r & k & Hr). unfold on_connection. rewrite Hr.
  pose proof (HQ _ _ _ He Hr) as Hq. destruct r; (eexists _, _; split; [reflexivity | exact Hq]).
Qed.
End spec.
