(* ===== verification/Merge.v ===== *)
(** * Merging loaded rows into a table

    What [merge_via_temp_table] of [hyperdb-mcp/src/ingest.rs] does to its target. The
    contract [MergeServer] says what its statements mean to a server that may fail any of
    them, may end a transaction without carrying it out, or die. *)

From stdpp Require Import strings gmap.
From S2P Require Import Prelude Text SqlEscape SqlTypes TableDef Catalog Connection Api Session McpErrors Engine CopyQuery TableCatalog Schema Ingest Specs.

(** ** Tables *)

(** A row has no entry for a column where it is NULL. *)
#[local] Abbreviation Tuple V := (gmap (list Z) V).

Record Table (V : Type) : Type := mk_held { shape : list ColumnDefinition; tuples : list (gmap (list Z) V) }.
Arguments mk_held {V} _ _.
Arguments shape {V} _.
Arguments tuples {V} _.

Definition names {V} (x : Table V) : list (list Z) := col_name <$> shape x.

Definition well_shaped {V} (x : Table V) : Prop := shape x <> [] /\ Forall stored_column (shape x).

Definition well_formed {V} (x : Table V) : Prop :=
  well_shaped x /\ Forall (fun r => forall c, is_Some (r !! c) -> c ∈ names x) (tuples x).

(** A row of a query as the metadata of a column. *)
Definition describes (typname : SqlType -> list Z) (r : JsonRow) (c : ColumnDefinition) : Prop :=
  field r (str "name") = Some (String (col_name c))
  /\ field r (str "type_name") = Some (String (typname (default Unsupported (sql_type c))))
  /\ field r (str "nullable") = Some (Boolean (nullable c)).

(** The column that ADD COLUMN makes. *)
Definition new_column (c : ColumnSchema) (t : SqlType) : ColumnDefinition := mk_column (Schema.name c) (ASqlType t) true None None.

Definition without {V} (c : list Z) (x : Table V) : Table V :=
  mk_held (filter (fun d => col_name d <> c) (shape x)) (delete c <$> tuples x).

(** Whether two rows have the same values under the keys; NULL is equal to nothing. *)
Definition agree {V} (same : V -> V -> bool) (keys : list (list Z)) (r s : Tuple V) : bool :=
  forallb (fun k => match r !! k, s !! k with Some v, Some w => same v w | _, _ => false end) keys.

Definition unmatched {V} (same : V -> V -> bool) (keys : list (list Z)) (rows : list (Tuple V)) (r : Tuple V) : bool :=
  negb (existsb (agree same keys r) rows).

(** A row as it is stored under the columns [cols]. *)
Definition assigned {V} (assign : SqlType -> V -> V) (cols : list ColumnDefinition) (r : Tuple V) : Tuple V :=
  map_imap (fun c v => (fun d => assign (default Unsupported (sql_type d)) v) <$> find (fun d => bool_decide (col_name d = c)) cols) r.

(** A name that [TableName.from_str] takes for a table of the first database. *)
Definition plain_name (name : list Z) : Prop :=
  exists n, TableName.from_str name = Ok n /\ TableName.database n = None /\ schema_or_public n = str "public" /\ Name.unescaped (TableName.table n) = name.

Section columns.
Context {V : Type} (to_uppercase : list Z -> list Z) (db : option (list Z)) (typname : SqlType -> list Z).

(** What the tools are told of a column: an attached database does not report the
    modifiers of its types. *)
Definition described (c : ColumnDefinition) : ColumnSchema :=
  match db with
  | None => as_schema c
  | Some _ => mk_schema (col_name c) (typname (default Unsupported (sql_type c))) (nullable c)
  end.

(** The columns of the loaded rows that the target does not have. *)
Definition fresh (old s : Table V) : list ColumnDefinition := filter (fun c => col_name c ∉ names old) (shape s).

Definition added_as (c c' : ColumnDefinition) : Prop :=
  exists t, map_hyper_type to_uppercase (hyper_type (described c)) = Ok t /\ c' = mk_column (col_name c) (ASqlType t) true None None.
End columns.

(** ** The contract of the server *)

(** What the statements of one merge mean: documented behaviour of the server. A DDL
    statement commits at once and is carried out or not, whether it says so or not; what
    runs in a transaction changes nothing that is committed; a transaction that could not
    be ended is over all the same unless the connection is dead, and one that is carried
    out says so unless the connection died. On a dead connection everything fails. *)
Class MergeServer (K V : Type) `{IngestConnection K} (to_uppercase : list Z -> list Z) (db : option (list Z)) (target tmp : list Z) (keys : list (list Z)) := {
  tables : K -> gmap (list Z) (Table V);
  working : K -> option (gmap (list Z) (Table V));
  dead : K -> Prop;
  same : V -> V -> bool;
  assign : SqlType -> V -> V;
  typname : SqlType -> list Z;
  free := fun k => working k = None \/ dead k;
  run_returns sql (k : K) : exists r k', run sql k = Val (r, k');
  json_returns sql (k : K) : exists r k', query_json sql k = Val (r, k');
  rows_returns sql (k : K) : exists r k', execute_query sql k = Val (r, k');
  dead_law sql (k : K) r k' : dead k -> run sql k = Val (r, k') -> dead k' /\ is_ok r = false /\ tables k' = tables k;
  json_keeps sql (k : K) r k' : free k -> query_json sql k = Val (r, k') -> tables k' = tables k /\ free k';
  rows_keeps sql (k : K) r k' : free k -> execute_query sql k = Val (r, k') -> tables k' = tables k /\ free k';
  exists_law d name (k : K) rows k' :
    db = Some d -> name ∈ [target; tmp] -> free k ->
    query_json (exists_sql d name) k = Val (Ok rows, k') -> rows <> [] <-> is_Some (tables k !! name);
  attributes_law d name (k : K) rows k' :
    db = Some d -> name ∈ [target; tmp] -> free k -> query_json (attribute_sql d name) k = Val (Ok rows, k') ->
    Forall2 (describes typname) rows (default [] (shape <$> tables k !! name));
  names_law n (k : K) rs rows k' :
    db = None -> SchemaName.from_str (str "public") = Ok n -> free k ->
    execute_query (table_names_sql n) k = Val (Ok rs, k') -> all_rows rs = Ok rows ->
    forall name, name ∈ [target; tmp] -> name ∈ omap (fun r => get_string r 0) rows <-> is_Some (tables k !! name);
  columns_law n name (k : K) rs rows k' :
    db = None -> name ∈ [target; tmp] -> free k ->
    TableName.database n = None -> schema_or_public n = str "public" -> Name.unescaped (TableName.table n) = name ->
    execute_query (columns_query n) k = Val (Ok rs, k') -> all_rows rs = Ok rows ->
    rows = default [] ((fun x => column_row <$> shape x) <$> tables k !! name);
  rename_law (k : K) r k' :
    free k -> run (rename_sql (qualified_table db tmp) target) k = Val (r, k') ->
    let renamed := tables k !! target = None /\ exists s, tables k !! tmp = Some s /\ tables k' = <[target := s]> (delete tmp (tables k)) in
    (if is_ok r then renamed else tables k' = tables k \/ renamed) /\ free k';
  drop_law (k : K) r k' :
    free k -> run (drop_table_sql db tmp) k = Val (r, k') ->
    let dropped := tables k' = delete tmp (tables k) in
    (if is_ok r then dropped else tables k' = tables k \/ dropped) /\ free k';
  add_law cols ts x s (k : K) r k' :
    free k -> tables k !! target = Some x -> tables k !! tmp = Some s -> length cols = length ts ->
    Forall2 (added_as to_uppercase db typname) (fresh x s) (zip_with new_column cols ts) ->
    run (add_columns_sql db target cols (SqlTypes.display <$> ts)) k = Val (r, k') ->
    let added := tables k' = <[target := mk_held (shape x ++ zip_with new_column cols ts) (tuples x)]> (tables k) in
    (if is_ok r then added else tables k' = tables k \/ added) /\ free k';
  drop_column_law c x (k : K) r k' :
    free k -> tables k !! target = Some x -> run (drop_column_sql db target c) k = Val (r, k') ->
    (tables k' = tables k \/ tables k' = <[target := without (Schema.name c) x]> (tables k)) /\ free k';
  begin_law (k : K) r k' :
    free k -> run BEGIN k = Val (r, k') -> tables k' = tables k /\ (if is_ok r then working k' = Some (tables k) else free k');
  delete_law (k : K) w x s r k' :
    working k = Some w -> w !! target = Some x -> w !! tmp = Some s ->
    run (delete_sql db target tmp keys) k = Val (r, k') ->
    tables k' = tables k /\ exists w', working k' = Some w'
      /\ (is_ok r = true -> exists rows, rows ≡ₚ filter (fun r => unmatched same keys (tuples s) r = true) (tuples x)
                                     /\ w' = <[target := mk_held (shape x) rows]> w);
  insert_law cols (k : K) w x s r k' :
    working k = Some w -> w !! target = Some x -> w !! tmp = Some s -> Schema.name <$> cols = names s ->
    run (insert_select_sql db target tmp cols) k = Val (r, k') ->
    tables k' = tables k /\ exists w', working k' = Some w'
      /\ (forall n, r = Ok n -> n = Z.of_nat (length (tuples s)) /\
            exists rows, rows ≡ₚ tuples x ++ (assigned assign (shape x) <$> tuples s) /\ w' = <[target := mk_held (shape x) rows]> w);
  commit_law (k : K) w r k' :
    working k = Some w -> run COMMIT k = Val (r, k') ->
    (tables k' = w /\ (if is_ok r then free k' else dead k')) \/ (is_ok r = false /\ tables k' = tables k /\ free k');
  rollback_law (k : K) w r k' : working k = Some w -> run ROLLBACK k = Val (r, k') -> tables k' = tables k /\ free k';
}.

(** ** What a merge promises *)

Section promise.
Context {V : Type} (to_uppercase : list Z -> list Z) (db : option (list Z)) (typname : SqlType -> list Z)
  (same : V -> V -> bool) (assign : SqlType -> V -> V) (keys : list (list Z)).

(** The rows that no loaded row agrees with, and the loaded rows. *)
Definition upserted (old s x : Table V) : Prop :=
  exists cols, Forall2 (added_as to_uppercase db typname) (fresh old s) cols /\ shape x = shape old ++ cols
    /\ tuples x ≡ₚ filter (fun r => unmatched same keys (tuples s) r = true) (tuples old) ++ (assigned assign (shape x) <$> tuples s).

Definition mergeable (old s : Table V) : Prop :=
  Forall (fun k => k ∈ names old /\ k ∈ names s) keys
  /\ Forall (fun c => nullable c = false -> col_name c ∈ names s) (shape old).

(** The old rows, with some of the columns that the loaded rows would have added. *)
Definition kept (loaded : Table V -> Prop) (old x : Table V) : Prop :=
  tuples x = tuples old /\ exists cols, shape x = shape old ++ cols
    /\ (cols = [] \/ exists s added, loaded s /\ Forall2 (added_as to_uppercase db typname) (fresh old s) added /\ cols `sublist_of` added).

(** The tables before a merge and after it. *)
Definition merged (target tmp : list Z) (loaded : Table V -> Prop) (r : result IngestResult McpError) (t t' : gmap (list Z) (Table V)) : Prop :=
  same_but [target; tmp] t t' /\
  match t !! target, r with
  | None, Ok _ => t' !! tmp = None /\ exists s, loaded s /\ t' !! target = Some s
  | None, Err _ => t' !! target = None \/ exists s, loaded s /\ t' !! target = Some s
  | Some old, Ok res => exists s x, loaded s /\ t' !! target = Some x /\ mergeable old s /\ upserted old s x
                          /\ result_rows res = Z.of_nat (length (tuples s))
  | Some old, Err _ => exists x, t' !! target = Some x /\ (kept loaded old x \/ exists s, loaded s /\ mergeable old s /\ upserted old s x)
  end.
End promise.

(** ** Proofs *)

Lemma described_attached o ty d c : o = Some d -> described o ty c = mk_schema (col_name c) (ty (default Unsupported (sql_type c))) (nullable c).
Proof. by intros ->. Qed.

Lemma described_name o ty c : Schema.name (described o ty c) = col_name c.
Proof. by destruct o. Qed.

Lemma described_nullable o ty c : schema_nullable (described o ty c) = nullable c.
Proof. by destruct o. Qed.

Lemma described_primary o ty c : o = None -> described o ty c = as_schema c.
Proof. by intros ->. Qed.

Lemma parsed_stored t : parsed_type t -> stored_type t.
Proof. destruct t as [ | | | | p s | | | | | | [n |] | n | | | | | | | | ]; try done; cbn; unfold MAX_PRECISION; try lia; set_solver. Qed.

Section proofs.
Context {K V : Type} `{!IngestConnection K} (show : Api.Error -> list Z) (to_uppercase : list Z -> list Z).
Context (db : option (list Z)) (target tmp : list Z) (keys : list (list Z)) `{!MergeServer K V to_uppercase db target tmp keys}.
Implicit Types t : gmap (list Z) (Table V).

Definition steady t (k : K) : Prop := tables k = t /\ free k.

Lemma spec_command P sql (Q : option Z -> K -> Prop) :
  (forall k r k', P k -> run sql k = Val (r, k') -> Q (verdict r) k') -> spec P (execute_command show sql) Q.
Proof. apply spec_on_connection. exact (run_returns sql). Qed.

Lemma spec_query P sql (Q : option (list JsonRow) -> K -> Prop) :
  (forall k r k', P k -> query_json sql k = Val (r, k') -> Q (verdict r) k') -> spec P (execute_query_to_json show sql) Q.
Proof. apply spec_on_connection. exact (json_returns sql). Qed.

(** *** Reading *)

Lemma by_db {A} P (m : option (list Z) -> Tool (Engine K) A) Q : (forall o, db = o -> spec P (m o) Q) -> spec P (m db) Q.
Proof. intros H. by apply H. Qed.

(** The rows of a query of the catalog. *)
Lemma catalog_rows_runs sql t k : steady t k ->
  exists r k', query_rows sql k = Val (r, k') /\ steady t k'
    /\ forall rows, r = Ok rows -> exists rs, execute_query sql k = Val (Ok rs, k') /\ all_rows rs = Ok rows.
Proof.
  intros [Ht Hf]. destruct (rows_returns sql k) as (r & k' & Hr). destruct (rows_keeps _ _ _ _ Hf Hr) as [Hk Hf'].
  unfold query_rows, op_bind. rewrite Hr. cbn [outcome_bind]. destruct r as [rs | err].
  - unfold lifted. destruct (all_rows rs) as [rows | err] eqn:Hrows; cbn; eexists _, k'; (split; [done |]); (split; [split; congruence |]); [| done].
    intros rows' [= <-]. by exists rs.
  - eexists _, k'. split; [done |]. split; [split; congruence | done].
Qed.

Lemma table_exists_spec t name : name ∈ [target; tmp] ->
  spec (steady t) (table_exists_in show db name) (fun o k => steady t k /\ forall b, o = Some b -> b = true <-> is_Some (t !! name)).
Proof.
  intros Hin. apply (by_db _ (fun o => table_exists_in show o name)). intros [d |] Hdb; cbn [table_exists_in].
  - apply (spec_bind _ _ _ (fun o k => steady t k /\ forall rows, o = Some rows -> rows <> [] <-> is_Some (t !! name))).
    + apply spec_query. intros k r k' [Ht Hf] Hr. destruct (json_keeps _ _ _ _ Hf Hr) as [Hk Hf']. split; [split; congruence |].
      intros rows Hrows. destruct r as [rows' |]; [| done]. injection Hrows as ->. rewrite <- Ht. by eapply (exists_law d).
    + intros rows. eapply spec_weaken; [apply spec_ret | | intros o k H; exact H]. intros k [Hs Hrows]. split; [done |].
      intros b [= <-]. rewrite <- (Hrows rows eq_refl). by destruct rows.
    + intros k [Hk _]. by split.
  - intros e He. unfold table_exists, on_catalog, on_connection, tool_bind, get_table_names, Catalog.names_of. cbn [SchemaName.from_str].
    destruct (SchemaName.from_str (str "public")) as [n | err] eqn:Hn; [| vm_compute in Hn; discriminate].
    unfold op_bind at 1 2. cbn [Catalog.named op_ret outcome_bind].
    destruct (catalog_rows_runs (table_names_sql n) t _ He) as (r & k' & Hr & Hs & Hrows). rewrite Hr. cbn [outcome_bind].
    destruct r as [rows | err]; cbn; (eexists _, _; split; [reflexivity |]); cbn; (split; [exact Hs |]); [| done].
    intros b [= <-]. rewrite bool_decide_eq_true. destruct (Hrows rows eq_refl) as (rs & Hq & Ha). destruct He as [Ht Hf]. rewrite <- Ht.
    by eapply names_law.
Qed.

#[local] Abbreviation describe := (described db typname).

Lemma describes_schema r c : describes typname r c ->
  schema_of_row [(str "name", default Null (field r (str "name"))); (str "type", default Null (field r (str "type_name")));
                 (str "nullable", default (Boolean true) (field r (str "nullable")))]
  = mk_schema (col_name c) (typname (default Unsupported (sql_type c))) (nullable c).
Proof. intros (-> & -> & ->). reflexivity. Qed.

(** What [get_table_definition] reads of a table whose name is plain. *)
Lemma shape_read t n name k :
  db = None -> name ∈ [target; tmp] -> TableName.database n = None -> schema_or_public n = str "public" ->
  Name.unescaped (TableName.table n) = name -> (forall x, t !! name = Some x -> well_shaped x) -> steady t k ->
  exists r k', get_table_definition (Ok n) k = Val (r, k') /\ steady t k'
    /\ forall def, r = Ok def -> exists x, t !! name = Some x /\ columns def = shape x.
Proof.
  intros Hdb Hin Hd Hsch Hname Hwf Hs. unfold get_table_definition. unfold op_bind at 1. cbn [Catalog.named op_ret outcome_bind].
  destruct (catalog_rows_runs (columns_query n) t k Hs) as (r & k1 & Hr & Hs1 & Hrows). unfold op_bind at 1. rewrite Hr. cbn [outcome_bind].
  destruct r as [rows | err]; [| by eexists _, k1]. destruct (Hrows rows eq_refl) as (rs & Hq & Ha).
  destruct Hs as [Ht Hf]. pose proof (columns_law n name k rs rows k1 Hdb Hin Hf Hd Hsch Hname Hq Ha) as Hcols. rewrite Ht in Hcols.
  destruct (t !! name) as [x |] eqn:Hx; cbn in Hcols; subst rows; [| by eexists _, k1].
  destruct (Hwf x eq_refl) as [Hne Hst]. rewrite columns_read by done. unfold op_bind at 1. cbn [outcome_bind].
  destruct (shape x) as [| c cs] eqn:Hsh; [done |]. unfold op_bind, get_table_constraints, op_bind at 1.
  destruct (catalog_rows_runs (constraints_sql n) t k1 Hs1) as (r & k2 & Hr2 & Hs2 & _). rewrite Hr2. cbn [outcome_bind].
  destruct r as [rows | err]; cbn; eexists _, k2; (split; [reflexivity |]); (split; [done |]); [| done].
  intros def [= <-]. exists x. by rewrite Hsh.
Qed.

Lemma columns_spec t name :
  (db = None -> plain_name name) -> name ∈ [target; tmp] -> (forall x, t !! name = Some x -> well_shaped x) ->
  spec (steady t) (column_metadata_in show db name)
    (fun o k => steady t k /\ forall cols, o = Some cols -> exists x, t !! name = Some x /\ cols = describe <$> shape x).
Proof.
  intros Hplain Hin Hwf. apply (by_db _ (fun o => column_metadata_in show o name)). intros [d |] Hdb; cbn [column_metadata_in].
  - apply (spec_bind _ _ _ (fun o k => steady t k /\ forall rows, o = Some rows -> 
             schema_of_row <$> rows = describe <$> default [] (shape <$> t !! name))).
    + unfold describe_columns_via_pg_catalog.
      apply (spec_bind _ _ _ (fun o k => steady t k /\ forall rows, o = Some rows -> Forall2 (describes typname) rows (default [] (shape <$> t !! name)))).
      * apply spec_query. intros k r k' [Ht Hf] Hr. destruct (json_keeps _ _ _ _ Hf Hr) as [Hk Hf']. split; [split; congruence |].
        intros rows Hrows. destruct r as [rows' |]; [| done]. injection Hrows as ->. rewrite <- Ht. by eapply (attributes_law d).
      * intros rows. eapply spec_weaken; [apply spec_ret | | intros o k H; exact H]. intros k [Hs Hrows]. split; [done |].
        intros rows' [= <-]. specialize (Hrows rows eq_refl). rewrite <- list_fmap_compose.
        induction Hrows as [| r c rows cs Hrc _ IH]; [done |]. cbn [fmap list_fmap]. rewrite IH. unfold compose at 1.
        rewrite (describes_schema r c) by done. by rewrite (described_attached _ _ d).
      * intros k [Hk _]. by split.
    + intros rows. destruct rows as [| r rows]; (eapply spec_weaken; [first [apply spec_fail | apply spec_ret] | | intros o k H; exact H]);
        intros k [Hs Hrows]; (split; [done |]); [done |].
      intros cols Hc. assert (cols = schema_of_row <$> r :: rows) as -> by congruence. rewrite (Hrows _ eq_refl). specialize (Hrows _ eq_refl).
      destruct (t !! name) as [x |]; [by exists x | done].
    + intros k [Hk _]. by split.
  - destruct (Hplain Hdb) as (n & Hn & Hd & Hsch & Hname). intros e He. unfold column_metadata, on_catalog, on_connection, tool_bind. rewrite Hn.
    destruct (shape_read t n name (connection e) Hdb Hin Hd Hsch Hname Hwf He) as (r & k' & Hr & Hs & Hdef). rewrite Hr.
    destruct r as [def | err]; (eexists _, _; split; [reflexivity |]); cbn; (split; [exact Hs |]); [| done].
    intros cols [= <-]. destruct (Hdef def eq_refl) as (x & Hx & Hc). exists x. split; [done |]. rewrite Hc. apply list_fmap_ext. intros i c _. by rewrite described_primary.
Qed.
(** *** Changing the shape *)

Lemma column_named_none (cs : list ColumnDefinition) (n : list Z) :
  column_named n (describe <$> cs) = None <-> n ∉ col_name <$> cs.
Proof.
  unfold column_named. induction cs as [| c cs IH]; [by split; [intros _; apply not_elem_of_nil |] |]. cbn [fmap list_fmap find].
  assert (Schema.name (describe c) = col_name c) as -> by apply described_name.
  rewrite not_elem_of_cons. case_bool_decide as Hc; [| rewrite IH]; split; [done | naive_solver | | naive_solver]. intros H. split; [congruence | done].
Qed.

Lemma new_columns_fresh (old s : Table V) :
  new_columns (describe <$> shape old) (describe <$> shape s)
  = (fun c => mk_schema (col_name c) (hyper_type (describe c)) true) <$> fresh old s.
Proof.
  unfold new_columns, fresh. induction (shape s) as [| c cs IH]; [done |]. cbn [fmap list_fmap].
  assert (Hn : Schema.name (describe c) = col_name c) by apply described_name.
  pose proof (column_named_none (shape old) (col_name c)) as Hc. rewrite <- Hn in Hc at 1.
  destruct (decide (col_name c ∉ names old)) as [Hin | Hin].
  - apply Hc in Hin as Hnone. rewrite !list.filter_cons_True by (try done; by rewrite Hnone). cbn [fmap list_fmap]. rewrite IH. by rewrite Hn.
  - rewrite (list.filter_cons_False (fun c => col_name c ∉ names old)) by done. rewrite list.filter_cons_False; [done |].
    destruct (column_named _ _); [done | tauto].
Qed.

Lemma type_sqls_added (cs : list ColumnDefinition) tys :
  type_sqls to_uppercase ((fun c => mk_schema (col_name c) (hyper_type (describe c)) true) <$> cs) = Ok tys ->
  exists ts, tys = SqlTypes.display <$> ts /\ length ts = length cs
    /\ Forall2 (added_as to_uppercase db typname) cs
         (zip_with new_column ((fun c => mk_schema (col_name c) (hyper_type (describe c)) true) <$> cs) ts).
Proof.
  revert tys. induction cs as [| c cs IH]; intros tys; cbn [fmap list_fmap type_sqls].
  { intros [= <-]. by exists []. }
  unfold column_type_sql, canonical_type_sql. cbn [hyper_type Schema.name].
  destruct (map_hyper_type to_uppercase (hyper_type (describe c))) as [ty | err] eqn:Hty; cbn [result_bind]; [| done].
  destruct (type_sqls _ _) as [tys' | err] eqn:Htys; cbn [result_bind]; [| done]. intros [= <-].
  destruct (IH tys' eq_refl) as (ts & -> & Hl & Hall). exists (ty :: ts). split_and!; [done | cbn; by f_equal |].
  cbn [zip_with]. constructor; [| done]. by exists ty.
Qed.

(** The shape of the target after a statement that adds columns. *)
Definition reshaped t (old : Table V) (cols : list ColumnDefinition) (k : K) : Prop :=
  tables k = <[target := mk_held (shape old ++ cols) (tuples old)]> t /\ free k.

Lemma reshaped_none t old k : t !! target = Some old -> steady t k -> reshaped t old [] k.
Proof. intros Hold [Ht Hf]. split; [| done]. rewrite app_nil_r, Ht. destruct old. by rewrite insert_id. Qed.

Definition widened t (old s : Table V) (k : K) : Prop :=
  exists added, Forall2 (added_as to_uppercase db typname) (fresh old s) added /\ reshaped t old added k.

Lemma alter_spec t (old s : Table V) : t !! target = Some old -> t !! tmp = Some s ->
  spec (steady t) (alter_table_add_columns_in show to_uppercase db target (new_columns (describe <$> shape old) (describe <$> shape s)))
    (fun o k => widened t old s k \/ o = None /\ steady t k).
Proof.
  intros Hold Hs. rewrite new_columns_fresh. unfold alter_table_add_columns_in.
  destruct (fresh old s) as [| c cs] eqn:Hf; cbn [fmap list_fmap].
  - eapply spec_weaken; [apply spec_ret | | intros o k H; exact H]. intros k Hk. left. exists []. rewrite Hf. split; [done | by apply reshaped_none].
  - apply (spec_bind _ _ _ (fun o k => steady t k /\ forall tys, o = Some tys ->
             type_sqls to_uppercase ((fun c => mk_schema (col_name c) (hyper_type (describe c)) true) <$> (c :: cs)) = Ok tys)).
    + apply spec_lift. intros k Hk. split; [done |]. cbn [fmap list_fmap]. intros tys. by destruct (type_sqls _ _) as [tys' |]; intros [= ->].
    + intros tys. apply (spec_bind _ _ _ (fun o k => widened t old s k \/ o = None /\ steady t k)).
      * apply spec_command. intros k r k' [[Ht Hfree] Htys] Hr.
        destruct (type_sqls_added (c :: cs) tys (Htys tys eq_refl)) as (ts & -> & Hl & Hadd).
        eapply (add_law _ ts old s) in Hr; [| done | by rewrite Ht | by rewrite Ht | rewrite Hl; cbn [length]; by rewrite length_fmap | by rewrite Hf].
        destruct Hr as [Hlaw Hfree']. rewrite Ht in Hlaw. cbn zeta in Hlaw.
        assert (is_ok r = false /\ tables k' = t \/ widened t old s k') as [[Hr Hk] | Hw]; [| | by left].
        { destruct r; [right | destruct Hlaw as [Hlaw | Hlaw]; [by left | right]]; (eexists; rewrite Hf; split; [exact Hadd |]; split; [exact Hlaw | done]). }
        right. split; [by destruct r | by split].
      * intros n. eapply spec_weaken; [apply spec_ret | | intros o k H; exact H]. intros k [Hk | [? _]]; [by left | done].
      * intros k [Hk | Hk]; [by left | right; by destruct Hk].
    + intros k [Hk _]. by right.
Qed.

(** *** The transaction *)

Definition upserted_rows (x s : Table V) (rows : list (Tuple V)) : Prop :=
  rows ≡ₚ filter (fun r => unmatched same keys (tuples s) r = true) (tuples x) ++ (assigned assign (shape x) <$> tuples s).

Definition upserted_in t (x s : Table V) (k : K) : Prop :=
  exists rows, tables k = <[target := mk_held (shape x) rows]> t /\ upserted_rows x s rows.

(** What is committed when the transaction is over. *)
Definition settled t (x s : Table V) (o : option Z) (k : K) : Prop :=
  match o with
  | Some n => upserted_in t x s k /\ free k /\ n = Z.of_nat (length (tuples s))
  | None => steady t k \/ upserted_in t x s k /\ dead k
  end.

Lemma body_spec t (x s : Table V) cols : target <> tmp ->
  t !! target = Some x -> t !! tmp = Some s -> Schema.name <$> cols = names s ->
  spec (fun k => tables k = t /\ working k = Some t)
    (let> _ := execute_command show (delete_sql db target tmp keys) in execute_command show (insert_select_sql db target tmp cols))
    (fun o k => tables k = t /\ exists w, working k = Some w /\ forall n, o = Some n -> n = Z.of_nat (length (tuples s))
       /\ exists rows, w = <[target := mk_held (shape x) rows]> t /\ upserted_rows x s rows).
Proof.
  intros Hne Hx Hs Hcols. apply (spec_bind _ _ _ (fun o k => tables k = t /\ exists w, working k = Some w /\ (o <> None -> exists rows,
       w = <[target := mk_held (shape x) rows]> t /\ rows ≡ₚ filter (fun r => unmatched same keys (tuples s) r = true) (tuples x)))).
  - apply spec_command. intros k r k' [Ht Hw] Hr. destruct (delete_law _ _ _ _ _ _ Hw Hx Hs Hr) as (Hk & w' & Hw' & Hok).
    split; [congruence |]. exists w'. split; [done |]. intros Ho. destruct Hok as (rows & Hp & ->); [by destruct r |]. by exists rows.
  - intros n0. apply spec_command. intros k r k' (Ht & w & Hw & Hok) Hr. destruct Hok as (rows & -> & Hp); [done |].
    eapply (insert_law cols _ _ (mk_held (shape x) rows) s) in Hr; [| done | by rewrite lookup_insert_eq | by rewrite lookup_insert_ne | done].
    destruct Hr as (Hk & w' & Hw' & Hins). split; [congruence |]. exists w'. split; [done |]. intros n Hn.
    destruct r as [m |]; [| done]. injection Hn as ->. destruct (Hins n eq_refl) as (-> & rows' & Hp' & ->). cbn [tuples shape] in Hp'.
    split; [done |]. exists rows'. rewrite insert_insert_eq. split; [done |]. unfold upserted_rows. rewrite Hp'. by rewrite Hp.
  - intros k (Hk & w & Hw & _). split; [done |]. by exists w.
Qed.

Lemma commit_spec t (x s : Table V) n rows : n = Z.of_nat (length (tuples s)) -> upserted_rows x s rows ->
  spec (fun k => tables k = t /\ working k = Some (<[target := mk_held (shape x) rows]> t))
    (let> _ := execute_command show COMMIT in ret n) (settled t x s).
Proof.
  intros Hn Hp. apply (spec_bind _ _ _ (fun o k => match o with
                | Some _ => upserted_in t x s k /\ free k
                | None => steady t k \/ upserted_in t x s k /\ dead k
                end)); [| | done].
  - apply spec_command. intros k r k' [Ht' Hw'] Hr. destruct (commit_law _ _ _ _ Hw' Hr) as [[Hc Hr'] | (Hr' & Hc & Hf)].
    + assert (upserted_in t x s k') by (exists rows; split; [congruence | done]). destruct r; [by split | by right].
    + destruct r; [done |]. left. split; [congruence | done].
  - intros m. eapply spec_weaken; [apply spec_ret | | intros o k H; exact H]. cbn. tauto.
Qed.

Lemma rollback_spec t (x s : Table V) err w :
  spec (fun k => tables k = t /\ working k = Some w) (let> _ := attempt (execute_command show ROLLBACK) in fail err) (settled t x s).
Proof.
  apply (spec_bind _ _ _ (fun o k => steady t k)).
  - eapply spec_attempt; [apply (spec_command _ _ (fun o k => steady t k)) | done].
    intros k r k' [Ht' Hw'] Hr. destruct (rollback_law _ _ _ _ Hw' Hr) as [Hc Hf]. split; [congruence | done].
  - intros m. eapply spec_weaken; [apply spec_fail | | intros o k H; exact H]. by left.
  - by left.
Qed.

Lemma transaction_spec t (x s : Table V) cols : target <> tmp ->
  t !! target = Some x -> t !! tmp = Some s -> Schema.name <$> cols = names s ->
  spec (steady t)
    (execute_in_transaction show (let> _ := execute_command show (delete_sql db target tmp keys) in
                                  execute_command show (insert_select_sql db target tmp cols))) (settled t x s).
Proof.
  intros Hne Hx Hs Hcols. unfold execute_in_transaction.
  apply (spec_bind _ _ _ (fun o k => tables k = t /\ match o with Some _ => working k = Some t | None => free k end)).
  - apply spec_command. intros k r k' [Ht Hf] Hr. destruct (begin_law _ _ _ Hf Hr) as [Hk Hw]. split; [congruence |]. rewrite Ht in Hw. by destruct r.
  - intros _ e He. destruct (body_spec t x s cols Hne Hx Hs Hcols e He) as (r & e1 & -> & Hk & w & Hw & Hok). destruct r as [n | err].
    + destruct (Hok n eq_refl) as (Hn & rows & -> & Hp). exact (commit_spec t x s n rows Hn Hp e1 (conj Hk Hw)).
    + exact (rollback_spec t x s err w e1 (conj Hk Hw)).
  - intros k [Hk Hf]. left. by split.
Qed.

(** *** After a failed transaction *)

(** The old rows under some of the columns added, or a connection that died when all was
    done. *)
Definition unchanged t (old s : Table V) (k : K) : Prop :=
  exists added cols, Forall2 (added_as to_uppercase db typname) (fresh old s) added /\ cols `sublist_of` added /\ reshaped t old cols k.

Lemma filter_all {A} (P : A -> Prop) `{!forall x, Decision (P x)} (l : list A) : Forall P l -> filter P l = l.
Proof. induction 1 as [| x l Hx _ IH]; [done |]. rewrite list.filter_cons_True by done. by rewrite IH. Qed.

Lemma without_added (old : Table V) cols c : well_formed old -> c ∉ names old ->
  without c (mk_held (shape old ++ cols) (tuples old)) = mk_held (shape old ++ filter (fun d => col_name d <> c) cols) (tuples old).
Proof.
  intros (_ & Hrows) Hc. unfold without. cbn [shape tuples]. f_equal.
  - rewrite list.filter_app. f_equal. apply filter_all. apply list.Forall_forall. intros d Hd Heq. apply Hc. subst c. by apply list_elem_of_fmap_2.
  - rewrite <- (list_fmap_id (tuples old)) at 2. apply list_fmap_ext. intros i r Hr. cbn. apply delete_id.
    rewrite list.Forall_forall in Hrows. specialize (Hrows r (list_elem_of_lookup_2 _ _ _ Hr) c).
    destruct (r !! c) as [v |]; [| done]. exfalso. apply Hc, Hrows. by eexists.
Qed.

Lemma drop_columns_spec t (old s : Table V) (T : gmap (list Z) (Table V)) : well_formed old ->
  let P := fun k => unchanged t old s k \/ dead k /\ tables k = T in
  spec P (for_each (new_columns (describe <$> shape old) (describe <$> shape s)) (fun c =>
            let> _ := attempt (execute_command show (drop_column_sql db target c)) in ret tt)) (fun _ k => P k).
Proof.
  intros Hwf P. apply spec_for_each. intros c Hc. rewrite new_columns_fresh in Hc. apply list_elem_of_fmap in Hc as (d & -> & Hd).
  apply list_elem_of_filter in Hd as [Hd _]. apply (spec_bind _ _ _ (fun _ k => P k)); [| intros r; exact (spec_ret tt (fun _ k => P k)) | done].
  eapply spec_attempt; [apply (spec_command _ _ (fun _ k => P k)) | done]. intros k r k' [Hu | [Hdead HT]] Hr.
  - left. destruct Hu as (added & cols & Hadd & Hsub & Hk & Hf). 
    eapply drop_column_law in Hr; [| done | by rewrite Hk, lookup_insert_eq]. destruct Hr as [[Hk' | Hk'] Hf'].
    + exists added, cols. split_and!; [done | done |]. split; [congruence | done].
    + exists added, (filter (fun c' => col_name c' <> col_name d) cols). split_and!; [done | |].
      { etrans; [apply sublist_filter | done]. }
      split; [| done]. rewrite Hk', Hk, insert_insert_eq. cbn [Schema.name]. by rewrite without_added.
  - right. destruct (dead_law _ _ _ _ Hdead Hr) as (Hd' & _ & Hk). split; [done | congruence].
Qed.

(** *** The checks *)

Lemma column_named_some (cs : list ColumnDefinition) n d : column_named n (describe <$> cs) = Some d -> n ∈ col_name <$> cs.
Proof.
  intros H. destruct (decide (n ∈ col_name <$> cs)) as [| Hn]; [done |]. apply column_named_none in Hn. congruence.
Qed.

Lemma check_keys_ok ks (old s : Table V) : 
  check_keys to_uppercase ks target (describe <$> shape old) (describe <$> shape s) = Ok tt -> Forall (fun k => k ∈ names old /\ k ∈ names s) ks.
Proof.
  induction ks as [| k ks IH]; cbn [check_keys]; [by constructor |].
  destruct (column_named k (describe <$> shape old)) as [d |] eqn:Ho; [| done].
  destruct (column_named k (describe <$> shape s)) as [d' |] eqn:Hs; [| done].
  destruct (negb _); [done |]. intros H. constructor; [| by apply IH]. split; by eapply column_named_some.
Qed.

Lemma check_required_ok (old s : Table V) :
  check_required target (describe <$> shape old) (describe <$> shape s) = Ok tt ->
  Forall (fun c => nullable c = false -> col_name c ∈ names s) (shape old).
Proof.
  unfold check_required. destruct (missing_required _ _) as [| m ms] eqn:Hm; [| done]. intros _. apply list.Forall_forall.
  intros c Hc Hnull. destruct (decide (col_name c ∈ names s)) as [| Hn]; [done |]. exfalso.
  assert (Hin : col_name c ∈ missing_required (describe <$> shape old) (describe <$> shape s)).
  { unfold missing_required. apply list_elem_of_fmap. exists (describe c). rewrite described_name. split; [done |].
    apply list_elem_of_filter. split; [| by apply list_elem_of_fmap_2].
    rewrite described_name. apply column_named_none in Hn. rewrite Hn. by rewrite described_nullable, Hnull. }
  rewrite Hm in Hin. by apply not_elem_of_nil in Hin.
Qed.
(** *** The merge *)

Definition renamed t (s : Table V) (k : K) : Prop := t !! target = None /\ t !! tmp = Some s /\ tables k = <[target := s]> (delete tmp t) /\ free k.

Definition carried_out t (old s : Table V) (k : K) : Prop :=
  mergeable keys old s /\ exists x, tables k = <[target := x]> t /\ upserted to_uppercase db typname same assign keys old s x /\ free k.

Definition landed t (o : option (IngestResult * bool)) (k : K) : Prop :=
  match o with
  | Some (res, true) => exists s, renamed t s k
  | Some (res, false) => exists old s, t !! target = Some old /\ t !! tmp = Some s /\ carried_out t old s k
                           /\ result_rows res = Z.of_nat (length (tuples s))
  | None => steady t k \/ (exists s, renamed t s k)
            \/ exists old s, t !! target = Some old /\ t !! tmp = Some s /\ (unchanged t old s k \/ carried_out t old s k)
  end.

Lemma renaming_spec t (s : Table V) res : t !! target = None -> t !! tmp = Some s ->
  spec (steady t) (let> _ := execute_command show (rename_sql (qualified_table db tmp) target) in ret (res, true)) (landed t).
Proof.
  intros Ht Hs. apply (spec_bind _ _ _ (fun o k => renamed t s k \/ o = None /\ steady t k)).
  - apply spec_command. intros k r k' [Hk Hf] Hr. destruct (rename_law _ _ _ Hf Hr) as [Hlaw Hf']. rewrite Hk, Hs in Hlaw. cbn zeta in Hlaw.
    destruct r; cbn in *; unfold renamed, steady; naive_solver.
  - intros n. eapply spec_weaken; [apply spec_ret | | intros o k H; exact H]. intros k [Hk | [? _]]; [by exists s | done].
  - intros k [Hk | [_ Hk]]; cbn; eauto.
Qed.

Lemma upserted_carried t (old s : Table V) added x k :
  mergeable keys old s -> Forall2 (added_as to_uppercase db typname) (fresh old s) added -> x = mk_held (shape old ++ added) (tuples old) ->
  upserted_in (<[target := x]> t) x s k -> free k -> carried_out t old s k.
Proof.
  intros Hm Hadd -> (rows & Hk & Hp) Hf. split; [done |]. eexists. rewrite Hk, insert_insert_eq. split; [reflexivity |]. split; [| done].
  by exists added.
Qed.

Lemma added_stored cs added : Forall2 (added_as to_uppercase db typname) cs added -> Forall stored_column added.
Proof.
  induction 1 as [| c c' cs added (ty & Hty & ->) _ IH]; constructor; [| done]. split; [done |]. exists ty. split; [done |].
  by eapply parsed_stored, map_parsed.
Qed.

(** What follows a failed transaction. *)
Lemma undo_spec t (old s : Table V) (T : gmap (list Z) (Table V)) err : well_formed old -> t !! target = Some old -> t !! tmp = Some s ->
  (forall k, dead k -> tables k = T -> landed t None k) ->
  spec (fun k => unchanged t old s k \/ dead k /\ tables k = T)
    (let> _ := for_each (new_columns (describe <$> shape old) (describe <$> shape s)) (fun c =>
                 let> _ := attempt (execute_command show (drop_column_sql db target c)) in ret tt) in fail err) (landed t).
Proof.
  intros Hwf Ht Hs Hdead.
  assert (Hall : forall k, unchanged t old s k \/ dead k /\ tables k = T -> landed t None k).
  { intros k [Hu | [Hd Hk]]; [| by apply Hdead]. right. right. exists old, s. split_and!; [done | done | by left]. }
  apply (spec_bind _ _ _ (fun _ k => unchanged t old s k \/ dead k /\ tables k = T) (landed t) (drop_columns_spec t old s T Hwf)); [| exact Hall].
  intros _. apply (spec_weaken _ _ _ _ _ (spec_fail err (landed t))); [exact Hall | done].
Qed.

(** Step 6, from the shape that step 5 has made. *)
Lemma finish_spec t (old s : Table V) added (stats : IngestStats) : target <> tmp -> (db = None -> Forall plain_name [target; tmp]) ->
  t !! target = Some old -> t !! tmp = Some s -> well_formed old -> mergeable keys old s ->
  Forall2 (added_as to_uppercase db typname) (fresh old s) added ->
  let new_cols := new_columns (describe <$> shape old) (describe <$> shape s) in
  spec (reshaped t old added)
    (let> merged := attempt (execute_in_transaction show
                       (let> _ := execute_command show (delete_sql db target tmp keys) in
                        execute_command show (insert_select_sql db target tmp (describe <$> shape s)))) in
     match merged with
     | Err e =>
         let> _ := for_each new_cols (fun c => let> _ := attempt (execute_command show (drop_column_sql db target c)) in ret tt) in
         fail e
     | Ok inserted =>
         let> final_schema := column_metadata_in show db target in
         ret (mk_ingest inserted final_schema
                (restated_stats stats inserted target (negb (bool_decide (new_cols = [])))), false)
     end) (landed t).
Proof.
  intros Hne Hplain Ht Hs Hwf Hm Hadd new_cols. set (x := mk_held (shape old ++ added) (tuples old)). set (t1 := <[target := x]> t).
  assert (Hx : t1 !! target = Some x) by apply lookup_insert_eq. assert (Hs1 : t1 !! tmp = Some s) by (unfold t1; by rewrite lookup_insert_ne).
  assert (Hcarried : forall k, upserted_in t1 x s k -> free k -> carried_out t old s k) by (intros k; by apply (upserted_carried t old s added)).
  assert (Hcols : Schema.name <$> (describe <$> shape s) = names s).
  { rewrite <- list_fmap_compose. apply list_fmap_ext. intros i c _. apply described_name. }
  apply (spec_bind _ _ _ (fun o k => match o with
    | Some (Ok n) => upserted_in t1 x s k /\ free k /\ n = Z.of_nat (length (tuples s))
    | _ => steady t1 k \/ upserted_in t1 x s k /\ dead k end)).
  { eapply spec_attempt; [exact (transaction_spec t1 x s _ Hne Hx Hs1 Hcols) |]. by intros [n | err] k H. }
  2: { intros k [[Hk Hf] | [Hup Hd]]; right; right; exists old, s; (split_and!; [done | done |]).
       - left. by exists added, added.
       - right. apply Hcarried; [done | by right]. }
  intros [n | err]; cbn beta iota.
  - intros e (Hup & Hf & Hn). destruct Hup as (rows & Hk & Hp).
    refine (spec_read (steady (tables (connection e))) (fun _ => True) _ _ (landed t) _ _ _ e (conj eq_refl Hf)).
    + eapply spec_weaken; [apply (columns_spec (tables (connection e)) target) | done | intros o k [? _]; by split].
      * intros Hdb. by apply Hplain in Hdb as [? _]%list.Forall_cons.
      * left.
      * rewrite Hk, lookup_insert_eq. intros y [= <-]. destruct Hwf as [[Hne' Hst] _]. split; cbn [shape].
        -- by destruct (shape old).
        -- apply list.Forall_app. split; [done | by eapply added_stored].
    + intros cols _. eapply spec_weaken; [apply spec_ret | | intros o k H; exact H]. intros k [Hk' Hf']. cbn.
      exists old, s. split_and!; [done | done | | done]. apply Hcarried; [| done]. exists rows. split; [congruence | done].
    + intros k [Hk' Hf']. right. right. exists old, s. split_and!; [done | done |]. right. apply Hcarried; [| done]. exists rows. split; [congruence | done].
  - intros e He. apply (undo_spec t old s (tables (connection e)) err Hwf Ht Hs).
    + intros k Hd Hk. destruct He as [[Hk1 _] | [(rows & Hk1 & Hp) _]].
      * right. right. exists old, s. split_and!; [done | done |]. left. exists added, added. split_and!; [done | done |].
        split; [by rewrite Hk, Hk1 | by right].
      * right. right. exists old, s. split_and!; [done | done |]. right. apply Hcarried; [exists rows; split; [congruence | done] | by right].
    + destruct He as [[Hk Hf] | [Hup Hd]]; [left; by exists added, added | right; by split].
Qed.

(** Steps 5 and 6, once the checks have passed. *)
Lemma upsert_spec t (old s : Table V) (stats : IngestStats) : target <> tmp -> (db = None -> Forall plain_name [target; tmp]) ->
  t !! target = Some old -> t !! tmp = Some s -> well_formed old -> mergeable keys old s ->
  let new_cols := new_columns (describe <$> shape old) (describe <$> shape s) in
  spec (steady t)
    (let> _ := alter_table_add_columns_in show to_uppercase db target new_cols in
     let> merged := attempt (execute_in_transaction show
                       (let> _ := execute_command show (delete_sql db target tmp keys) in
                        execute_command show (insert_select_sql db target tmp (describe <$> shape s)))) in
     match merged with
     | Err e =>
         let> _ := for_each new_cols (fun c => let> _ := attempt (execute_command show (drop_column_sql db target c)) in ret tt) in
         fail e
     | Ok inserted =>
         let> final_schema := column_metadata_in show db target in
         ret (mk_ingest inserted final_schema
                (restated_stats stats inserted target (negb (bool_decide (new_cols = [])))), false)
     end) (landed t).
Proof.
  intros Hne Hplain Ht Hs Hwf Hm new_cols. apply (spec_bind _ _ _ _ _ (alter_spec t old s Ht Hs)).
  - intros a e [(added & Hadd & Hk) | [? _]]; [| done]. by apply (finish_spec t old s added).
  - intros k [(added & Hadd & Hk) | [_ Hk]]; [| by left]. right. right. exists old, s. split_and!; [done | done |]. left. by exists added, added.
Qed.

Lemma staging_spec t res : target <> tmp -> (db = None -> Forall plain_name [target; tmp]) ->
  (forall x, t !! target = Some x -> well_formed x) -> (forall x, t !! tmp = Some x -> well_formed x) ->
  spec (steady t) (merge_from_staging show to_uppercase db target keys tmp res) (landed t).
Proof.
  intros Hne Hplain Hwft Hwfs. assert (Hfail : forall k, steady t k -> landed t None k) by (intros k Hk; by left).
  assert (Hplain' : forall name, name ∈ [target; tmp] -> db = None -> plain_name name).
  { intros name Hin Hdb. specialize (Hplain Hdb). rewrite list.Forall_forall in Hplain. by apply Hplain. }
  unfold merge_from_staging.
  apply (spec_read _ _ _ _ _ (table_exists_spec t tmp ltac:(set_solver))); [| done]. intros [|] Htmp; cbn [negb].
  2: { apply (spec_weaken _ _ _ _ _ (spec_fail _ (landed t))); done. }
  destruct (proj1 Htmp eq_refl) as [s Hs].
  apply (spec_read _ _ _ _ _ (table_exists_spec t target ltac:(set_solver))); [| done]. intros [|] Htarget; cbn [negb].
  2: { apply (renaming_spec t s); [| done]. destruct (t !! target) eqn:H; [| done]. exfalso. by apply diff_false_true, Htarget. }
  destruct (proj1 Htarget eq_refl) as [old Hold].
  apply (spec_read _ _ _ _ _ (columns_spec t target (Hplain' target ltac:(set_solver)) ltac:(set_solver) ltac:(intros x Hx; apply Hwft, Hx))); [| done].
  intros tcols (x & Hx & ->). rewrite Hold in Hx. injection Hx as <-.
  apply (spec_read _ _ _ _ _ (columns_spec t tmp (Hplain' tmp ltac:(set_solver)) ltac:(set_solver) ltac:(intros x Hx; apply Hwfs, Hx))); [| done].
  intros scols (x & Hx & ->). rewrite Hs in Hx. injection Hx as <-.
  apply spec_lifted; [| done]. intros [] Hkeys. apply spec_lifted; [| done]. intros [] _. apply spec_lifted; [| done]. intros [] Hreq.
  apply upsert_spec; auto. split; [by eapply check_keys_ok | by eapply check_required_ok].
Qed.

(** *** The guard *)

Lemma drop_guard_spec t armed : spec (steady t) (drop_guard show (qualified_table db tmp) armed)
  (fun o k => o = Some tt /\ same_but [tmp] t (tables k) /\ free k).
Proof.
  destruct armed; cbn [drop_guard].
  - apply (spec_bind _ _ _ (fun o k => o <> None /\ same_but [tmp] t (tables k) /\ free k)).
    + eapply spec_attempt; [apply (spec_command _ _ (fun o k => same_but [tmp] t (tables k) /\ free k)) | done].
      intros k r k' [Hk Hf] Hr. destruct (drop_law k r k' Hf Hr) as [Hlaw Hf']. rewrite Hk in Hlaw. cbn zeta in Hlaw. split; [| done].
      destruct r; [rewrite Hlaw | destruct Hlaw as [-> | ->]; [done |]]; apply same_but_delete; set_solver.
    + intros r. eapply spec_weaken; [apply spec_ret | | intros o k H; exact H]. cbn. tauto.
    + tauto.
  - eapply spec_weaken; [apply spec_ret | | intros o k H; exact H]. intros k [Hk Hf]. cbn. by rewrite Hk.
Qed.

Lemma landed_same t o k : landed t o k -> same_but [target; tmp] t (tables k).
Proof.
  assert (Hr : forall s, renamed t s k -> same_but [target; tmp] t (tables k)).
  { intros s (_ & _ & -> & _). eapply same_but_trans; [apply (same_but_delete _ tmp); set_solver | apply same_but_insert; set_solver]. }
  assert (Hc : forall old s, carried_out t old s k -> same_but [target; tmp] t (tables k)).
  { intros old s (_ & x & -> & _). apply same_but_insert; set_solver. }
  destruct o as [[res [|]] |]; cbn.
  - intros [s H]. by eapply Hr.
  - intros (old & s & _ & _ & H & _). by eapply Hc.
  - intros [[-> _] | [[s H] | (old & s & _ & _ & [(added & cols & _ & _ & -> & _) | H])]]; [done | by eapply Hr | | by eapply Hc].
    apply same_but_insert; set_solver.
Qed.

(** What is left when the guard has gone: the table behind [tmp] may have. *)
Lemma landed_merged t t0 (loaded : Table V -> Prop) o (r : result IngestResult McpError) k t' :
  target <> tmp -> same_but [tmp] t0 t -> (forall s, t !! tmp = Some s -> loaded s) -> landed t o k ->
  (fst <$> o) = verdict r ->
  same_but [tmp] (tables k) t' -> ((exists x, o = Some (x, true)) -> t' = tables k) ->
  merged to_uppercase db typname same assign keys target tmp loaded r t0 t'.
Proof.
  intros Hne Ht0 Hloaded Hl Ho Hsame Harmed. assert (Htt : t0 !! target = t !! target) by (symmetry; apply Ht0; set_solver).
  assert (Ht' : t' !! target = tables k !! target) by (apply Hsame; set_solver). split.
  { eapply same_but_trans; [eapply same_but_weaken; [| exact Ht0]; set_solver |].
    eapply same_but_trans; [exact (landed_same _ _ _ Hl) | eapply same_but_weaken; [| exact Hsame]; set_solver]. }
  rewrite Htt, Ht'.
  assert (Hrenamed : forall s, renamed t s k -> t !! target = None /\ loaded s /\ tables k !! target = Some s /\ tables k !! tmp = None).
  { intros s (Hn & Hs & -> & _). split_and!; [done | by apply Hloaded | by rewrite lookup_insert_eq | by rewrite lookup_insert_ne, lookup_delete_eq]. }
  destruct o as [[res [|]] |]; cbn in Ho; destruct r as [res' | err]; try done; cbn in Hl.
  - destruct Hl as [s (Hn & Hs & Hk & Hkt)%Hrenamed]. rewrite Hn, Harmed by eauto. eauto.
  - destruct Hl as (old & s & Hold & Hs & (Hm & x & Hk & Hu & _) & Hrows). rewrite Hold, Hk, lookup_insert_eq.
    injection Ho as ->. exists s, x. auto.
  - destruct Hl as [[-> _] | [[s (Hn & Hs & Hk & Hkt)%Hrenamed] | (old & s & Hold & Hs & Hl)]].
    + destruct (t !! target) as [old |]; [| by left]. exists old. split; [done |]. left. split; [done |]. exists []. rewrite app_nil_r. auto.
    + rewrite Hn. eauto.
    + rewrite Hold. destruct Hl as [(added & cols & Hadd & Hsub & Hk & _) | (Hm & x & Hk & Hu & _)]; rewrite Hk, lookup_insert_eq; eexists; (split; [done |]).
      * left. split; [done |]. exists cols. split; [done |]. right. exists s, added. auto.
      * right. exists s. auto.
Qed.

Lemma unmerged t0 t' (loaded : Table V -> Prop) err : same_but [tmp] t0 t' -> target <> tmp ->
  merged to_uppercase db typname same assign keys target tmp loaded (Err err) t0 t'.
Proof.
  intros Hsame Hne. split; [eapply same_but_weaken; [| exact Hsame]; set_solver |]. rewrite <- (Hsame target) by set_solver.
  destruct (t' !! target) as [old |]; [| by left]. exists old. split; [done |]. left. split; [done |]. exists []. rewrite app_nil_r. auto.
Qed.

Lemma landed_free t o k : landed t o k -> free k.
Proof.
  unfold landed, renamed, carried_out, unchanged, steady, reshaped. destruct o as [[res [|]] |]; naive_solver.
Qed.

(** The load of the staging table: it touches no other table and leaves no transaction
    open, and what it loads is [loaded]. *)
Definition loads (loaded : Table V -> Prop) (m : Tool (Engine K) IngestResult) : Prop :=
  forall t, spec (steady t) m (fun o k => same_but [tmp] t (tables k) /\ free k
                                      /\ (o <> None -> forall s, tables k !! tmp = Some s -> loaded s)).

Lemma merge_runs {N} (opts : IngestOptions N) (load : IngestOptions N -> Tool (Engine K) IngestResult) (loaded : Table V -> Prop) (e : Engine K) :
  mode opts = IngestMode.Merge keys -> table opts = target -> target_db opts = db -> target <> tmp ->
  (db = None -> Forall plain_name [target; tmp]) ->
  loads loaded (load (mk_options tmp IngestMode.Replace (schema_override opts) db)) ->
  (forall s, loaded s -> well_formed s) -> (forall x, tables (connection e) !! target = Some x -> well_formed x) ->
  free (connection e) ->
  exists r e', merge_via_temp_table show to_uppercase tmp opts load e = Returned r e' /\ free (connection e')
    /\ merged to_uppercase db typname same assign keys target tmp loaded r (tables (connection e)) (tables (connection e')).
Proof.
  intros Hmode Htable Hdb Hne Hplain Hload Hwfs Hwft Hf. unfold merge_via_temp_table. rewrite Hmode, Htable, Hdb.
  set (t0 := tables (connection e)) in *. destruct (bool_decide (keys = []) || _).
  { eexists _, e. split; [reflexivity |]. split; [done | by apply unmerged]. }
  unfold with_scratch, tool_bind, guarded, disarm. cbn [fst snd].
  destruct (Hload t0 e (conj eq_refl Hf)) as (r & e1 & -> & Hsame & Hf1 & Hloaded).
  assert (Htt : tables (connection e1) !! target = t0 !! target) by (apply Hsame; set_solver).
  destruct r as [res | err].
  - specialize (Hloaded ltac:(done)).
    cbn [fst snd].
    destruct (staging_spec (tables (connection e1)) res Hne Hplain) with (s := e1) as (r & e2 & -> & Hl); [by rewrite Htt | auto | done |].
    set (armed := match r with Ok (_, true) => false | _ => true end).
    destruct (drop_guard_spec (tables (connection e2)) armed e2) as (r' & e3 & He3 & _ & Hsame3 & Hf3); [by split; [| eapply landed_free] |].
    exists (match r with Ok x => Ok x.1 | Err err => Err err end), e3. split_and!; [| done |].
    + subst armed. destruct r as [[x [|]] | err]; cbn -[drop_guard]; [by rewrite He3 | by rewrite He3 | by rewrite He3].
    + eapply landed_merged; [done | exact Hsame | exact Hloaded | exact Hl | by destruct r as [[]|] | done |].
      intros [x Hx]. subst armed. destruct r as [[y [|]] |]; try done. cbn in He3. by injection He3 as <- <-.
  - destruct (drop_guard_spec (tables (connection e1)) true e1) as (r' & e2 & -> & _ & Hsame2 & Hf2); [done |].
    eexists _, e2. split; [reflexivity |]. split; [done |]. apply unmerged; [| done]. by eapply same_but_trans.
Qed.
End proofs.

(** ** A server in memory, for the witness

    Its [faults] say which of the next statements fail. It knows the statements of the
    merge of one table of the persistent database. *)
Record Ledger : Type := mk_ledger { ledger : gmap (list Z) (Table Z); pending : option (gmap (list Z) (Table Z)); failing : list bool }.

Definition l_db : list Z := str "persistent".
Definition l_target : list Z := str "t".
Definition l_tmp : list Z := scratch_name MERGE_PREFIX l_target 7 11 0.
Definition l_keys : list (list Z) := [str "id"].
Definition l_typname (t : SqlType) : list Z := match t with Numeric _ _ => str "numeric" | t => SqlTypes.display t end.

Definition added_of (s : list Z -> list Z) (c : ColumnDefinition) : option ColumnDefinition :=
  match map_hyper_type s (hyper_type (described (Some l_db) l_typname c)) with
  | Ok t => Some (mk_column (col_name c) (ASqlType t) true None None)
  | Err _ => None
  end.

(** The statement that adds [cols]. *)
Definition adds (cols : list ColumnDefinition) : list Z :=
  add_columns_sql (Some l_db) l_target (as_schema <$> cols) (type_name <$> cols).

Definition on_target (L : Ledger) (f : Table Z -> Table Z -> option (Z * Table Z)) : option (Z * gmap (list Z) (Table Z)) :=
  w ← pending L; x ← w !! l_target; s ← w !! l_tmp; p ← f x s; Some (p.1, <[l_target := p.2]> w).

Inductive Kind : Type := Begins | Commits | RollsBack | Deletes | Drops | Inserts | AddsColumns | DropsColumn | Renames.

(** What stands behind the name of the target, if that is what is altered. *)
Definition altered : nat := length (str "ALTER TABLE " ++ qualified_table (Some l_db) l_target ++ str " ").

Definition kind (sql : list Z) : Kind :=
  if bool_decide (sql !! 0%nat = Some 66) then Begins
  else if bool_decide (sql !! 0%nat = Some 67) then Commits
  else if bool_decide (sql !! 0%nat = Some 82) then RollsBack
  else if bool_decide (sql !! 0%nat = Some 73) then Inserts
  else if bool_decide (sql !! 0%nat = Some 68) then (if bool_decide (sql !! 1%nat = Some 69) then Deletes else Drops)
  else if bool_decide (sql !! altered = Some 65) then AddsColumns
  else if bool_decide (sql !! altered = Some 68) then DropsColumn
  else Renames.

(** What a statement does that does not fail: its count, the tables, the transaction. *)
Definition ledger_step (up : list Z -> list Z) (k : Kind) (sql : list Z) (L : Ledger) : option (Z * gmap (list Z) (Table Z) * option (gmap (list Z) (Table Z))) :=
  let t := ledger L in
  match k with
  | Begins => Some (0, t, Some t)
  | Commits => Some (0, default t (pending L), None)
  | RollsBack => Some (0, t, None)
  | Deletes =>
      p ← on_target L (fun x s => Some (0, mk_held (shape x) (filter (fun r => unmatched Z.eqb l_keys (tuples s) r = true) (tuples x))));
      Some (p.1, t, Some p.2)
  | Drops => Some (0, delete l_tmp t, pending L)
  | Inserts =>
      p ← on_target L (fun x s =>
            if bool_decide (sql = insert_select_sql (Some l_db) l_target l_tmp (as_schema <$> shape s))
            then Some (Z.of_nat (length (tuples s)), mk_held (shape x) (tuples x ++ (assigned (fun _ v => v) (shape x) <$> tuples s))) else None);
      Some (p.1, t, Some p.2)
  | AddsColumns =>
      x ← t !! l_target; s ← t !! l_tmp; cols ← mapM (added_of up) (fresh x s);
      if bool_decide (sql = adds cols) then Some (0, <[l_target := mk_held (shape x ++ cols) (tuples x)]> t, pending L) else None
  | DropsColumn =>
      x ← t !! l_target;
      p ← strip (str "ALTER TABLE " ++ qualified_table (Some l_db) l_target ++ str " DROP COLUMN " ++ [34]) sql ≫= unquote 34;
      Some (0, <[l_target := without p.1 x]> t, pending L)
  | Renames => s ← t !! l_tmp; if bool_decide (t !! l_target = None) then Some (0, <[l_target := s]> (delete l_tmp t), pending L) else None
  end.

Definition ends (k : Kind) : bool := match k with Commits | RollsBack => true | _ => false end.

Definition ledger_run (up : list Z -> list Z) (sql : list Z) (L : Ledger) : result Z Api.Error * Ledger :=
  let failed := (Err fault, mk_ledger (ledger L) (if ends (kind sql) then None else pending L) (tail (failing L))) in
  if default false (head (failing L)) then failed
  else match ledger_step up (kind sql) sql L with
       | Some (n, t, p) => (Ok n, mk_ledger t p (tail (failing L)))
       | None => failed
       end.

Definition attribute_row (c : ColumnDefinition) : JsonRow :=
  [(str "name", String (col_name c)); (str "type_name", String (l_typname (default Unsupported (sql_type c)))); (str "nullable", Boolean (nullable c))].

Definition ledger_query (sql : list Z) (L : Ledger) : list JsonRow :=
  let t := ledger L in
  match find (fun name => bool_decide (sql = exists_sql l_db name)) [l_target; l_tmp] with
  | Some name => match t !! name with Some _ => [[(str "one", Number 1)]] | None => [] end
  | None => match find (fun name => bool_decide (sql = attribute_sql l_db name)) [l_target; l_tmp] with
            | Some name => attribute_row <$> default [] (shape <$> t !! name)
            | None => []
            end
  end.

#[export] Instance ledger_connection (up : list Z -> list Z) : IngestConnection Ledger := {
  ingest_mcp := {|
    mcp_client := {| run sql L := Val (ledger_run up sql L); close_client L := Val (Ok tt, L) |};
    query_json sql L := Val (Ok (ledger_query sql L), L);
    path_exists _ _ := true;
  |};
  ingest_query sql L := Val (Ok [], L);
}.

Lemma ledger_fails up sql L : is_ok (ledger_run up sql L).1 = false ->
  (ledger_run up sql L).2 = mk_ledger (ledger L) (if ends (kind sql) then None else pending L) (tail (failing L)).
Proof. unfold ledger_run. destruct (default _ _); [done |]. by destruct (ledger_step up (kind sql) sql L) as [[[n t] p] |]. Qed.

Lemma ledger_works up sql L n L' : ledger_run up sql L = (Ok n, L') ->
  exists t p, ledger_step up (kind sql) sql L = Some (n, t, p) /\ L' = mk_ledger t p (tail (failing L)).
Proof.
  unfold ledger_run. destruct (default _ _); [done |]. destruct (ledger_step up (kind sql) sql L) as [[[m t] p] |]; [| done]. intros [= -> <-]. eauto.
Qed.

(** Every statement, as it fails or not. *)
Lemma ledger_cases up sql k L r L' : kind sql = k -> ledger_run up sql L = (r, L') ->
  (is_ok r = false /\ ledger L' = ledger L /\ pending L' = if ends k then None else pending L)
  \/ exists n, r = Ok n /\ ledger_step up k sql L = Some (n, ledger L', pending L').
Proof.
  intros <- H. destruct r as [n | err].
  - right. destruct (ledger_works _ _ _ _ _ H) as (t & p & Hs & ->). by exists n.
  - left. pose proof (ledger_fails up sql L) as Hf. rewrite H in Hf. cbn in Hf. rewrite (Hf eq_refl). done.
Qed.

Lemma kind_rename : kind (rename_sql (qualified_table (Some l_db) l_tmp) l_target) = Renames. Proof. vm_compute. reflexivity. Qed.
Lemma kind_drop : kind (drop_table_sql (Some l_db) l_tmp) = Drops. Proof. vm_compute. reflexivity. Qed.
Lemma kind_delete : kind (delete_sql (Some l_db) l_target l_tmp l_keys) = Deletes. Proof. vm_compute. reflexivity. Qed.
Lemma kind_begin : kind BEGIN = Begins. Proof. reflexivity. Qed.
Lemma kind_commit : kind COMMIT = Commits. Proof. reflexivity. Qed.
Lemma kind_rollback : kind ROLLBACK = RollsBack. Proof. reflexivity. Qed.
Lemma kind_insert cols : kind (insert_select_sql (Some l_db) l_target l_tmp cols) = Inserts. Proof. reflexivity. Qed.
Lemma kind_drop_column c : kind (drop_column_sql (Some l_db) l_target c) = DropsColumn. Proof. reflexivity. Qed.
Lemma kind_add c cols ty ts : kind (add_columns_sql (Some l_db) l_target (c :: cols) (ty :: ts)) = AddsColumns. Proof. reflexivity. Qed.

Lemma kind_add_nil : kind (add_columns_sql (Some l_db) l_target [] []) = Renames. Proof. reflexivity. Qed.

Lemma drop_column_name c :
  strip (str "ALTER TABLE " ++ qualified_table (Some l_db) l_target ++ str " DROP COLUMN " ++ [34]) (drop_column_sql (Some l_db) l_target c) ≫= unquote 34
  = Some (Schema.name c, []).
Proof.
  unfold drop_column_sql, quote_ident, quoted.
  replace (str "ALTER TABLE " ++ qualified_table (Some l_db) l_target ++ str " DROP COLUMN " ++ 34 :: double_quotes 34 (Schema.name c) ++ [34])
    with ((str "ALTER TABLE " ++ qualified_table (Some l_db) l_target ++ str " DROP COLUMN " ++ [34]) ++ double_quotes 34 (Schema.name c) ++ 34 :: [])
    by (rewrite <- !app_assoc; reflexivity).
  rewrite strip_app. cbn [mbind option_bind]. by apply unquote_doubled.
Qed.

Lemma attribute_row_describes cs : Forall2 (describes l_typname) (attribute_row <$> cs) cs.
Proof. induction cs as [| c cs IH]; [constructor |]. cbn [fmap list_fmap]. constructor; [by split_and! | exact IH]. Qed.

Lemma answered {A E S} (x y : A) (s s' : S) : Val (@Ok A E x, s) = Val (Ok y, s') -> y = x.
Proof. congruence. Qed.

Lemma query_exists name L : name ∈ [l_target; l_tmp] ->
  ledger_query (exists_sql l_db name) L = match ledger L !! name with Some _ => [[(str "one", Number 1)]] | None => [] end.
Proof. intros [-> | [-> | []%elem_of_nil]%elem_of_cons]%elem_of_cons; reflexivity. Qed.

Lemma query_attributes name L : name ∈ [l_target; l_tmp] ->
  ledger_query (attribute_sql l_db name) L = attribute_row <$> default [] (shape <$> ledger L !! name).
Proof. intros [-> | [-> | []%elem_of_nil]%elem_of_cons]%elem_of_cons; reflexivity. Qed.

Lemma insert_names cols cols' : Schema.name <$> cols = Schema.name <$> cols' ->
  insert_select_sql (Some l_db) l_target l_tmp cols = insert_select_sql (Some l_db) l_target l_tmp cols'.
Proof. intros H. unfold insert_select_sql. rewrite !(list_fmap_compose Schema.name quote_ident). by rewrite H. Qed.

Lemma names_as_schema (cs : list ColumnDefinition) : Schema.name <$> (as_schema <$> cs) = col_name <$> cs.
Proof. rewrite <- list_fmap_compose. by apply list_fmap_ext. Qed.

Lemma adds_zip (cols : list ColumnSchema) (ts : list SqlType) : length cols = length ts ->
  add_columns_sql (Some l_db) l_target cols (SqlTypes.display <$> ts) = adds (zip_with new_column cols ts).
Proof.
  intros Hl. unfold adds, add_columns_sql. do 4 f_equal. revert ts Hl. induction cols as [| c cols IH]; intros [| ty ts] Hl; try done.
  cbn [fmap list_fmap zip_with]. f_equal. apply IH. by injection Hl.
Qed.

Lemma added_all up cs added : Forall2 (added_as up (Some l_db) l_typname) cs added -> mapM (added_of up) cs = Some added.
Proof.
  intros H. apply mapM_Some. induction H as [| c c' cs added (ty & Hty & ->) _ IH]; constructor; [| done]. unfold added_of. by rewrite Hty.
Qed.

(** The two ways a statement of a known kind ends. *)
Ltac step_cases up Hr Hkind :=
  destruct (ledger_cases up _ _ _ _ _ Hkind Hr) as [(Ho & Hk & Hp) | (n & -> & Hstep)];
  [cbn [ends] in Hp; rewrite ?Hk, ?Ho, ?Hp; auto | cbn [ledger_step] in Hstep; cbn [is_ok]].

#[export] Instance ledger_server (up : list Z -> list Z) : @MergeServer Ledger Z (ledger_connection up) up (Some l_db) l_target l_tmp l_keys.
Proof.
  refine {| tables := ledger; working := pending; dead _ := False; same := Z.eqb; assign _ v := v; typname := l_typname |};
    cbn [run query_json execute_query mcp_client ingest_mcp ingest_query ledger_connection ingest_catalog].
  - intros sql L. eexists _, _. exact (f_equal Val (surjective_pairing _)).
  - intros sql L. eexists _, _. reflexivity.
  - intros sql L. eexists _, _. reflexivity.
  - done.
  - intros sql L r L' Hf [= <- <-]. done.
  - intros sql L r L' Hf [= <- <-]. done.
  - intros d name L rows L' Hd Hin _ H. apply answered in H. subst rows. assert (d = l_db) as -> by congruence. rewrite query_exists by done. destruct (ledger L !! name); split; intros H; try done.
  - intros d name L rows L' Hd Hin _ H. apply answered in H. subst rows. assert (d = l_db) as -> by congruence. rewrite query_attributes by done. apply attribute_row_describes.
  - done.
  - done.
  - intros L r L' [Hf | []] [= Hr]. step_cases up Hr kind_rename. destruct (ledger L !! l_tmp) as [s |] eqn:Hs; [| done]. cbn in Hstep. case_bool_decide; [| done].
    injection Hstep as <- <- <-. rewrite Hf. split; [| by left]. split; [done |]. by exists s.
  - intros L r L' [Hf | []] [= Hr]. step_cases up Hr kind_drop. injection Hstep as <- <- <-. rewrite Hf. split; [done | by left].
  - intros [| c cols] [| ty ts] x s L r L' [Hf | []] Hx Hs Hl Hadd [= Hr]; try done.
    { cbn [zip_with]. rewrite app_nil_r. destruct x. rewrite insert_id by done. step_cases up Hr kind_add_nil. rewrite Hs in Hstep. cbn [mbind option_bind] in Hstep.
      by rewrite bool_decide_eq_false_2 in Hstep by congruence. }
    step_cases up Hr (kind_add c cols (SqlTypes.display ty) (SqlTypes.display <$> ts)). rewrite Hx, Hs in Hstep. cbn [mbind option_bind] in Hstep. rewrite (added_all _ _ _ Hadd) in Hstep.
    cbn [mbind option_bind] in Hstep. rewrite bool_decide_eq_true_2 in Hstep by (by apply (adds_zip (c :: cols) (ty :: ts))). injection Hstep as <- <- <-. rewrite Hf. split; [done | by left].
  - intros c x L r L' [Hf | []] Hx [= Hr]. step_cases up Hr (kind_drop_column c). rewrite Hx in Hstep. cbn [mbind option_bind] in Hstep.
    rewrite drop_column_name in Hstep. cbn in Hstep. injection Hstep as <- <- <-. rewrite Hf. split; [by right | by left].
  - intros L r L' [Hf | []] [= Hr]. step_cases up Hr kind_begin. injection Hstep as <- <- <-. done.
  - intros L w x s r L' Hw Hx Hs [= Hr]. step_cases up Hr kind_delete.
    { split; [done |]. exists w. by destruct r. }
    unfold on_target in Hstep. rewrite Hw in Hstep. cbn [mbind option_bind] in Hstep. rewrite Hx, Hs in Hstep. cbn in Hstep. injection Hstep as <- <- <-.
    split; [done |]. eexists. split; [reflexivity |]. intros _. by eexists.
  - intros cols L w x s r L' Hw Hx Hs Hcols [= Hr]. step_cases up Hr (kind_insert cols).
    { split; [done |]. exists w. by destruct r. }
    unfold on_target in Hstep. rewrite Hw in Hstep. cbn [mbind option_bind] in Hstep. rewrite Hx, Hs in Hstep. cbn [mbind option_bind] in Hstep.
    rewrite bool_decide_eq_true_2 in Hstep by (apply insert_names; by rewrite names_as_schema). cbn in Hstep. injection Hstep as <- <- <-.
    split; [done |]. eexists. split; [reflexivity |]. intros m [= <-]. split; [done |]. by eexists.
  - intros L w r L' Hw [= Hr]. step_cases up Hr kind_commit.
    rewrite Hw in Hstep. injection Hstep as <- <- <-. left. split; [done | by left].
  - intros L w r L' Hw [= Hr]. step_cases up Hr kind_rollback.
    injection Hstep as <- <- <-. split; [done | by left].
Defined.

(** ** The property *)

(** C13. A merge upserts or leaves the target as it was. Whatever statement fails, and
    whenever the connection dies, it touches no table but its target and the staging
    table it loads, and leaves no transaction open. A target that did not exist is the
    loaded table afterwards, or is still absent if the call failed. A target that
    existed holds, if the call succeeded, the rows that no loaded row agrees with on the
    keys, and all the loaded rows, under its own columns and the new ones of the loaded
    table, all nullable, whose types are those the canonical names stand for; the keys
    were columns of both, the loaded table had every column that may not be NULL, and
    the count is that of the loaded rows. If the call failed the target holds just that
    or else its old rows, under its old columns and at most some of the new ones. *)
Theorem merge_upserts {K V N} `{!IngestConnection K} show to_uppercase db (target : list Z) (pid nanos counter : Z) keys
    `{!MergeServer K V to_uppercase db target (scratch_name MERGE_PREFIX target pid nanos counter) keys}
    (opts : IngestOptions N) (load : IngestOptions N -> Tool (Engine K) IngestResult) (loaded : Table V -> Prop) (e : Engine K) :
  let tmp := scratch_name MERGE_PREFIX target pid nanos counter in
  mode opts = IngestMode.Merge keys -> table opts = target -> target_db opts = db ->
  (db = None -> Forall plain_name [target; tmp]) ->
  loads to_uppercase db target tmp keys loaded (load (mk_options tmp IngestMode.Replace (schema_override opts) db)) ->
  (forall s, loaded s -> well_formed s) -> (forall x, tables (connection e) !! target = Some x -> well_formed x) ->
  free (connection e) ->
  exists r e', merge_via_temp_table show to_uppercase tmp opts load e = Returned r e' /\ free (connection e')
    /\ merged to_uppercase db typname same assign keys target tmp loaded r (tables (connection e)) (tables (connection e')).
Proof. intros tmp Hmode Htable Hdb. eapply merge_runs; try done. apply not_eq_sym, scratch_not_target. Qed.

Example plain_names : plain_name l_target /\ plain_name l_tmp.
Proof. split; unfold plain_name; [eexists | eexists]; (split; [reflexivity | split_and!; reflexivity]). Qed.

Definition sample_row (id v : Z) : gmap (list Z) Z := <[str "id" := id]> (<[str "v" := v]> ∅).
Definition sample_shape : list ColumnDefinition := [mk_column (str "id") (ASqlType Int) false None None; mk_column (str "v") (ASqlType BigInt) true None None].
Definition sample_old : Table Z := mk_held sample_shape [sample_row 1 10; sample_row 2 20].
Definition sample_staged : Table Z :=
  mk_held (sample_shape ++ [mk_column (str "w") (ASqlType Double) true None None]) [<[str "w" := 5]> (sample_row 2 21); sample_row 3 30].
Definition sample_ledger : Ledger := mk_ledger {[ l_target := sample_old ]} None [].
Definition sample_engine : Engine Ledger := mk_engine sample_ledger false (str "/tmp/scratch.hyper") None false ∅.
Definition sample_options : IngestOptions unit := mk_options l_target (IngestMode.Merge l_keys) None (Some l_db).
Definition sample_stats : IngestStats := mk_ingest_stats (str "load_data") 2 0 l_tmp None None false.
Definition sample_load (opts : IngestOptions unit) : Tool (Engine Ledger) IngestResult := fun e =>
  let L := connection e in
  Returned (Ok (mk_ingest 2 [] sample_stats)) (with_connection e (mk_ledger (<[table opts := sample_staged]> (ledger L)) (pending L) (failing L))).
Definition sample_upper (s : list Z) : list Z := (fun c => if (97 <=? c) && (c <=? 122) then c - 32 else c) <$> s.
Definition sample_show : Api.Error -> list Z := display (fun _ => []) (fun s => s) (fun _ => []).

Definition cells (x : Table Z) : list (list (option Z)) := (fun r : gmap (list Z) Z => (fun c => r !! c) <$> names x) <$> tuples x.

(** The merge of the sample: the row with id 1 stays, 2 is replaced and 3 is added. *)
Example sample_merge :
  match @merge_via_temp_table Ledger (ledger_connection sample_upper) sample_show sample_upper unit l_tmp sample_options sample_load sample_engine with
  | Returned (Ok res) e =>
      (result_rows res, (fun x => (names x, cells x)) <$> ledger (connection e) !! l_target, bool_decide (ledger (connection e) !! l_tmp = None))
  | _ => (0, None, false)
  end = (2, Some ([str "id"; str "v"; str "w"], [[Some 1; Some 10; None]; [Some 2; Some 21; Some 5]; [Some 3; Some 30; None]]), true).
Proof. vm_compute. reflexivity. Qed.

Lemma sample_formed : well_formed sample_old /\ well_formed sample_staged.
Proof.
  assert (Hs : Forall stored_column (shape sample_staged)).
  { repeat constructor; cbn; try done; eexists; (split; [reflexivity | done]). }
  assert (Hc : forall (x : Table Z) c r, r ∈ tuples x -> (forall r, r ∈ tuples x -> bool_decide ((dom r : gset (list Z)) ⊆ list_to_set (names x)) = true) ->
    is_Some (r !! c) -> c ∈ names x).
  { intros x c r Hr Hall Hc. specialize (Hall r Hr). apply bool_decide_eq_true in Hall. apply (elem_of_list_to_set (C := gset (list Z))), Hall. by apply elem_of_dom. }
  split; (split; [split; [done |] |]); try exact Hs; try exact (proj1 (proj1 (list.Forall_app _ _ _) Hs));
    apply list.Forall_forall; intros r Hr c; (apply (Hc _ c r Hr); clear; intros r Hr).
  all: repeat (apply elem_of_cons in Hr as [-> | Hr]; [vm_compute; reflexivity |]); by apply elem_of_nil in Hr.
Qed.

Lemma sample_target x : ledger sample_ledger !! l_target = Some x -> well_formed x.
Proof. unfold sample_ledger. cbn [ledger]. rewrite lookup_singleton_eq. intros [= <-]. exact (proj1 sample_formed). Qed.

Lemma sample_loads : @loads Ledger Z (ledger_connection sample_upper) sample_upper (Some l_db) l_target l_tmp l_keys (ledger_server sample_upper)
  (fun s => s = sample_staged) (sample_load (mk_options l_tmp IngestMode.Replace None (Some l_db))).
Proof.
  intros t e [Ht Hf]. eexists _, _. split; [reflexivity |]. cbn [connection with_connection]. split_and!.
  - intros name Hn. cbn. rewrite lookup_insert_ne by set_solver. by rewrite <- Ht.
  - exact Hf.
  - intros _ s. cbn. rewrite lookup_insert_eq. by intros [= <-].
Qed.

Lemma merge_upserts_witness :
  exists r e',
    @merge_via_temp_table Ledger (ledger_connection sample_upper) sample_show sample_upper unit l_tmp sample_options sample_load sample_engine
      = Returned r e'
    /\ (pending (connection e') = None \/ False)
    /\ merged sample_upper (Some l_db) l_typname Z.eqb (fun _ v => v) l_keys l_target l_tmp (fun s => s = sample_staged)
         r (ledger sample_ledger) (ledger (connection e')).
Proof.
  exact (@merge_upserts Ledger Z unit (ledger_connection sample_upper) sample_show sample_upper (Some l_db) l_target 7 11 0 l_keys
           (ledger_server sample_upper) sample_options sample_load (fun s => s = sample_staged) sample_engine eq_refl eq_refl eq_refl
           ltac:(intros H; discriminate H) sample_loads
           ltac:(intros s Hs; rewrite Hs; exact (proj2 sample_formed))
           sample_target
           (or_introl eq_refl)).
Defined.
