(* ===== verification/Execute.v ===== *)
(** * Running statements for a client

    The [query] and [execute] tools of [hyperdb-mcp/src/server.rs]: what they refuse,
    the batch inside its transaction, and the statements they send. The printer of SQL
    is a parameter, and the times of the answers are left out. *)

From stdpp Require Import strings gmap.
From S2P Require Import Prelude Text SqlEscape Connection Api Session McpErrors Engine CopyQuery TableCatalog Attach Server Specs.
From S2P Require SqlClassify.

(** ** What is refused *)

(** From the first char [\n] or [\r]. *)
Fixpoint from_line_end (s : list Z) : option (list Z) :=
  match s with
  | [] => None
  | c :: r => if (c =? 10) || (c =? 13) then Some s else from_line_end r
  end.

(** Behind the first [*/]. *)
Fixpoint after_comment (s : list Z) : option (list Z) :=
  match s with
  | [] => None
  | c :: r => if (c =? 42) && bool_decide (head r = Some 47) then Some (drop 1 r) else after_comment r
  end.

Fixpoint strip_comments (fuel : nat) (s : list Z) : list Z :=
  match fuel with
  | O => []
  | S fuel =>
      let s := trim_start s in
      if Session.starts_with s (str "--") then match from_line_end (drop 2 s) with Some rest => strip_comments fuel rest | None => [] end
      else if Session.starts_with s (str "/*") then match after_comment (drop 2 s) with Some rest => strip_comments fuel rest | None => [] end
      else s
  end.

Definition strip_leading_sql_comments (sql : list Z) : list Z := strip_comments (S (length sql)) sql.

(** [`sql[{idx}]`]. *)
Definition element (idx : nat) : list Z := str "`sql[" ++ fmt_u (Z.of_nat idx) ++ str "]`".

Definition empty_element (idx : nat) : McpError :=
  with_suggestion (new InvalidArgument (element idx ++ str " is empty or contains only whitespace/comments."))
    (str "Remove the empty element or replace it with a real statement.").
Definition read_only_element (idx : nat) : McpError :=
  with_suggestion (new SqlError (element idx ++ str " is a read-only statement; the `execute` tool is for DDL/DML."))
    (str "Use the `query` tool for SELECT/WITH/EXPLAIN/SHOW/VALUES. To read-then-write atomically, fold the read into the write (e.g. `UPDATE "
     ++ [8230] ++ str " FROM (SELECT " ++ [8230] ++ str ")` or `INSERT " ++ [8230] ++ str " SELECT " ++ [8230] ++ str "`).").
Definition transaction_element (idx : nat) : McpError :=
  with_suggestion (new InvalidArgument (element idx ++ str " is a transaction-control statement (BEGIN / COMMIT / ROLLBACK / SAVEPOINT); these are not allowed in `execute` batches."))
    (str "The `execute` tool manages the transaction for you " ++ [8212]
     ++ str " multi-element arrays already run inside BEGIN/COMMIT. Just pass the DML statements you want to run atomically.").

(** Whether a statement changes the schema and whether one changes data. *)
Fixpoint check_elements (idx : nat) (stmts : list (list Z)) (schema data : bool) : outcome (result (bool * bool) McpError) :=
  match stmts with
  | [] => Val (Ok (schema, data))
  | stmt :: stmts =>
      if bool_decide (trim (strip_leading_sql_comments stmt) = []) then Val (Err (empty_element idx))
      else
        let! kind := SqlClassify.classify_statement stmt in
        match kind with
        | SqlClassify.ReadOnly => Val (Err (read_only_element idx))
        | SqlClassify.TransactionControl => Val (Err (transaction_element idx))
        | SqlClassify.Ddl => check_elements (S idx) stmts true data
        | SqlClassify.Dml => check_elements (S idx) stmts schema true
        | SqlClassify.KOther => check_elements (S idx) stmts schema data
        end
  end.

Definition empty_batch : McpError :=
  with_suggestion (new InvalidArgument (str "`sql` must be a non-empty array of SQL statements."))
    (str "Pass at least one statement: `sql: [" ++ [34] ++ str "INSERT INTO t VALUES (1)" ++ [34] ++ str "]`.").
Definition mixed_batch : McpError :=
  with_suggestion (new InvalidArgument (str "Cannot mix DDL (CREATE/DROP/ALTER/TRUNCATE/RENAME) with DML (INSERT/UPDATE/DELETE/COPY/MERGE) in one `execute` batch."))
    (str "Hyper aborts such transactions with SQLSTATE 0A000. Issue DDL in a separate `execute` call from DML " ++ [8212]
     ++ str " DDL singletons run as their own auto-commit unit.").
Definition ddl_batch : McpError :=
  with_suggestion (new InvalidArgument (str "Multi-statement DDL batches are not supported."))
    (str "Hyper auto-commits CREATE/DROP/ALTER even inside a transaction, so wrapping multiple DDL statements in one `execute` call cannot guarantee atomicity. Issue each DDL as its own single-element `execute` call.").

Definition validate_execute_batch (stmts : list (list Z)) : outcome (result unit McpError) :=
  if bool_decide (stmts = []) then Val (Err empty_batch)
  else
    let! checked := check_elements 0 stmts false false in
    Val (match checked with
         | Err e => Err e
         | Ok (schema, data) =>
             if schema && data then Err mixed_batch
             else if schema && (1 <? length stmts)%nat then Err ddl_batch
             else Ok tt
         end).

Definition require_read_only_sql (tool sql : list Z) : outcome (result unit McpError) :=
  let! ok := SqlClassify.is_read_only_sql sql in
  Val (if ok : bool then Ok tt
       else Err (new SqlError (str "The " ++ tool
                   ++ str " tool only accepts read-only SQL (SELECT, WITH, EXPLAIN, SHOW, VALUES). Use the execute tool for DDL/DML."))).

(** ** The batch *)

(** The answer for one statement: its text as printed and the rows it affected. *)
Record Executed : Type := mk_executed { ran_sql : list Z; affected_rows : Z }.

Section execute.
Context {K : Type} `{McpConnection K} (show : Api.Error -> list Z) (fmt_sql : list Z -> list Z).

Definition statement_failed (idx n : nat) (stmt : list Z) (e : McpError) : McpError :=
  let rollback_note := str "Failing SQL: " ++ fmt_sql stmt ++ str ". All previous statements in this batch were rolled back." in
  with_suggestion
    (new (code e) (str "statement " ++ fmt_u (Z.of_nat (S idx)) ++ str " of " ++ fmt_u (Z.of_nat n) ++ str " failed: " ++ message e))
    (match suggestion e with Some orig => orig ++ str " | " ++ rollback_note | None => rollback_note end).

(** [saturating_add] of a [u64]. *)
Definition add_rows (a b : Z) : Z := Z.min (a + b) (2 ^ 64 - 1).

Fixpoint run_statements (idx n : nat) (stmts : list (list Z)) (out : list Executed) (total : Z) : Tool (Engine K) (list Executed * Z) :=
  match stmts with
  | [] => ret (out, total)
  | stmt :: stmts =>
      let> affected := attempt (execute_command show stmt) in
      match affected with
      | Err e => fail (statement_failed idx n stmt e)
      | Ok affected => run_statements (S idx) n stmts (out ++ [mk_executed (fmt_sql stmt) affected]) (add_rows total affected)
      end
  end.

(** The answers, their sum, and what the answer calls the operation. *)
Definition in_transaction (stmts : list (list Z)) : Tool (Engine K) (list Executed * Z * list Z) :=
  let> r := execute_in_transaction show (run_statements 0 (length stmts) stmts [] 0) in ret (r.1, r.2, str "transaction").

Definition batch_body (stmts : list (list Z)) : Tool (Engine K) (list Executed * Z * list Z) :=
  match stmts with
  | [stmt] => let> affected := execute_command show stmt in ret ([mk_executed (fmt_sql stmt) affected], affected, str "command")
  | _ => in_transaction stmts
  end.

Definition execute_batch (target_db : option (list Z)) (stmts : list (list Z)) : Tool (Engine K) (list Executed * Z * list Z) :=
  with_search_path show target_db (batch_body stmts).

Context {Time : Type} (parse_rfc3339 parse_naive_fraction parse_naive : list Z -> option Time) (parse_error : list Z -> list Z).

(** Failures are logged. *)
Definition after_execute_catalog_update (now : list Z) (target_db : option (list Z)) : Tool (Engine K) unit :=
  let reconcile := reconcile show parse_rfc3339 parse_naive_fraction parse_naive parse_error now in
  let> _ := attempt (reconcile None) in
  match target_db with
  | Some alias =>
      if eq_ignore_ascii_case alias PERSISTENT_ALIAS then ret tt
      else let> _ := attempt (reconcile (Some alias)) in ret tt
  | None => ret tt
  end.

Definition is_ddl (stmt : list Z) : bool := match SqlClassify.classify_statement stmt with Val SqlClassify.Ddl => true | _ => false end.

(** ** The tools *)

Definition with_tool {A} := @with_engine K _ show Time parse_rfc3339 parse_naive_fraction parse_naive parse_error A.

(** A check before the engine is asked for. *)
Definition checked {S A} (v : outcome (result unit McpError)) (m : Tool S A) : Tool S A := fun s =>
  match v with
  | Panic => Panicked s
  | Val (Err e) => Returned (Err e) s
  | Val (Ok _) => m s
  end.

(** The database the answer names, and the answer. *)
Definition execute (opening : Opening K) (now detail : list Z) (database : option (list Z)) (stmts : list (list Z))
  : Tool (Server K) (option (list Z) * (list Executed * Z * list Z)) := fun s =>
  checked (Val (check_writable (read_only s) (str "execute")))
    (checked (validate_execute_batch stmts)
       (with_tool opening now detail (fun es =>
          (let> target_db := lift (resolve_db database None true es) in
           let> r := on_engine (execute_batch target_db stmts) in
           let> _ := (if existsb is_ddl stmts then on_engine (after_execute_catalog_update now target_db) else ret tt) in
           ret (target_db, r)) es))) s.

Definition MAX_QUERY_ROWS : nat := Z.to_nat 10000.

(** The rows the answer shows and, when it leaves some out, how many there are. *)
Definition truncated (rows : list JsonRow) : list JsonRow * option Z :=
  if (MAX_QUERY_ROWS <? length rows)%nat then (take MAX_QUERY_ROWS rows, Some (Z.of_nat (length rows))) else (rows, None).

Definition query (opening : Opening K) (now detail : list Z) (database : option (list Z)) (sql : list Z)
  : Tool (Server K) (option (list Z) * (list JsonRow * option Z)) :=
  with_tool opening now detail (fun es =>
    checked (require_read_only_sql (str "query") sql)
      (let> target_db := lift (resolve_db database None false es) in
       let> rows := on_engine (with_search_path show target_db (execute_query_to_json show sql)) in
       ret (target_db, truncated rows)) es).
End execute.

(** ** What the validator lets through *)

Lemma strip_comments_enough n m s : (length s < n)%nat -> (length s < m)%nat -> strip_comments n s = strip_comments m s.
Proof.
  assert (Hend : forall s r, from_line_end s = Some r -> (length r <= length s)%nat).
  { clear. induction s as [| c s IH]; intros r; cbn; [done |]. destruct (_ || _); [intros [= <-]; cbn; lia | intros H%IH; lia]. }
  assert (Hafter : forall s r, after_comment s = Some r -> (length r <= length s)%nat).
  { clear. induction s as [| c s IH]; intros r; cbn; [done |]. destruct (_ && _); [intros [= <-]; rewrite length_drop; lia | intros H%IH; lia]. }
  assert (Htrim : forall s, (length (trim_start s) <= length s)%nat).
  { clear. induction s as [| c s IH]; cbn; [done |]. destruct (is_whitespace c); cbn; lia. }
  assert (Hlong : forall s c d, Session.starts_with s [c; d] = true -> (2 <= length s)%nat).
  { intros t c d Ht. unfold Session.starts_with in Ht. apply bool_decide_eq_true in Ht as [u ->]. cbn. lia. }
  revert m s. induction n as [| n IH]; intros m s Hn Hm; [lia |]. destruct m as [| m]; [lia |]. cbn [strip_comments].
  pose proof (Htrim s) as Ht. destruct (Session.starts_with _ (str "--")) eqn:Hs.
  { apply Hlong in Hs. destruct (from_line_end _) as [r |] eqn:Hr; [| done]. apply Hend in Hr. rewrite length_drop in Hr. apply IH; lia. }
  destruct (Session.starts_with _ (str "/*")) eqn:Hc; [| done].
  apply Hlong in Hc. destruct (after_comment _) as [r |] eqn:Hr; [| done]. apply Hafter in Hr. rewrite length_drop in Hr. apply IH; lia.
Qed.

(** A statement that may be part of a batch, with its kind. *)
Definition admissible (stmt : list Z) (kind : SqlClassify.StatementKind) : Prop :=
  trim (strip_leading_sql_comments stmt) <> [] /\ SqlClassify.classify_statement stmt = Val kind
  /\ kind <> SqlClassify.ReadOnly /\ kind <> SqlClassify.TransactionControl.

#[local] Existing Instance SqlClassify.StatementKind_eq_dec.

Definition seen (k : SqlClassify.StatementKind) (kinds : list SqlClassify.StatementKind) : bool := bool_decide (k ∈ kinds).

Lemma check_elements_ok idx stmts schema data p :
  check_elements idx stmts schema data = Val (Ok p) <->
  exists kinds, Forall2 admissible stmts kinds /\ p = (schema || seen SqlClassify.Ddl kinds, data || seen SqlClassify.Dml kinds).
Proof.
  revert idx schema data. induction stmts as [| stmt stmts IH]; intros idx schema data; cbn [check_elements].
  { split.
    - intros [= <-]. exists []. split; [constructor |]. unfold seen. rewrite !bool_decide_eq_false_2 by apply not_elem_of_nil. by rewrite !orb_false_r.
    - intros (kinds & Hk & ->). inversion Hk. unfold seen. rewrite !bool_decide_eq_false_2 by apply not_elem_of_nil. by rewrite !orb_false_r. }
  case_bool_decide as Hempty.
  { split; [done |]. intros (kinds & Hk & _). inversion Hk as [| ? ? ? ? (Hne & _)]; subst. done. }
  split.
  - destruct (SqlClassify.classify_statement stmt) as [kind |] eqn:Hkind; cbn [outcome_bind]; [| done].
    destruct kind; try done; intros (kinds & Hk & ->)%IH; eexists (_ :: kinds); (split; [constructor; [by split_and! | exact Hk] |]); unfold seen;
      f_equal; repeat case_bool_decide; rewrite ?orb_true_r, ?orb_false_r; try done; set_solver.
  - intros (kinds & Hk & ->). inversion Hk as [| ? kind ? kinds' (Hne & Hkind & Hr & Ht) Hrest]; subst. rewrite Hkind. cbn [outcome_bind].
    destruct kind; try done; apply IH; exists kinds'; (split; [exact Hrest |]); unfold seen;
      f_equal; repeat case_bool_decide; rewrite ?orb_true_r, ?orb_false_r; try done; set_solver.
Qed.

(** The validator lets through what is not empty, whose statements are neither blank nor
    read-only nor in control of a transaction, and that changes the schema only alone. *)
Lemma validate_ok stmts :
  validate_execute_batch stmts = Val (Ok tt) <->
  stmts <> [] /\ exists kinds, Forall2 admissible stmts kinds /\ (SqlClassify.Ddl ∈ kinds -> length stmts = 1%nat).
Proof.
  unfold validate_execute_batch. case_bool_decide as Hne; [split; [done | naive_solver] |].
  split.
  - destruct (check_elements 0 stmts false false) as [[[schema data] | err] |] eqn:Hc; cbn [outcome_bind]; try done.
    apply check_elements_ok in Hc as (kinds & Hk & [= -> ->]). intros H. split; [done |]. exists kinds. split; [done |]. intros Hd.
    unfold seen in H. rewrite (bool_decide_eq_true_2 (SqlClassify.Ddl ∈ kinds)) in H by done.
    cbn in H. case_bool_decide; [done |].
    destruct stmts as [| s [| s' l]]; [done | done | done].
  - intros (_ & kinds & Hk & Hd). 
    assert (Hc : check_elements 0 stmts false false = Val (Ok (seen SqlClassify.Ddl kinds, seen SqlClassify.Dml kinds))) by (apply check_elements_ok; by exists kinds).
    rewrite Hc. cbn [outcome_bind]. unfold seen. destruct (bool_decide (SqlClassify.Ddl ∈ kinds)) eqn:Hddl; [| done]. apply bool_decide_eq_true in Hddl.
    specialize (Hd Hddl). destruct stmts as [| s [| s' l]]; try done. inversion Hk as [| ? kind ? ks Ha Hr]; subst. inversion Hr; subst.
    apply list_elem_of_singleton in Hddl as <-. reflexivity.
Qed.

(** ** The contract of the server *)

(** What [TxServer] asks, for the statements the classifier takes for DML, and that
    routing to one of the databases [names] keeps out of transactions. *)
Class BatchServer (K S : Type) `{McpConnection K} `{!TxServer K S} (names : list (list Z)) := {
  dml_law sql : SqlClassify.classify_statement sql = Val SqlClassify.Dml -> transactional (K := K) sql;
  path_law name (k : K) r k' :
    name ∈ names -> run (set_search_path name) k = Val (r, k') -> committed k' = committed k /\ working k' = working k;
}.

Section atomic.
Context {K S : Type} `{!McpConnection K} `{!TotalClient K} `{!TxServer K S} (names : list (list Z)) `{!BatchServer K S names}.
Context (show : Api.Error -> list Z) (fmt_sql : list Z -> list Z).

Lemma command_returns sql (e : Engine K) :
  exists r k, run sql (connection e) = Val (r, k)
    /\ execute_command show sql e = Returned (match r with Ok n => Ok n | Err c => Err (from_api show c) end) (with_connection e k).
Proof.
  destruct (Session.run_total sql (connection e)) as (r & k & Hr). exists r, k. split; [done |].
  unfold execute_command, on_connection. rewrite Hr. by destruct r.
Qed.

(** The statements of a batch inside its transaction. *)
Lemma statements_run stmts idx n out total (e : Engine K) w :
  Forall (transactional (K := K)) stmts -> working (connection e) = Some w ->
  exists r e', run_statements show fmt_sql idx n stmts out total e = Returned r e'
    /\ committed (connection e') = committed (connection e) /\ reaches (connection e) (connection e')
    /\ exists w', working (connection e') = Some w'
    /\ forall p, r = Ok p -> w' = applied K stmts w /\ ran_sql <$> p.1 = (ran_sql <$> out) ++ (fmt_sql <$> stmts).
Proof.
  intros Ht. revert idx out total e w. induction Ht as [| stmt stmts Hs _ IH]; intros idx out total e w Hw; cbn [run_statements].
  { eexists _, e. split; [reflexivity |]. split; [done |]. split; [done |]. exists w. split; [done |]. intros p [= <-]. by rewrite app_nil_r. }
  destruct (command_returns stmt e) as (r & k & Hr & He). destruct (tx_command _ _ _ _ _ Hs Hw Hr) as (Hc & w1 & Hw1 & Hok).
  unfold tool_bind at 1, attempt. rewrite He. destruct r as [n1 | c].
  - destruct (IH (Datatypes.S idx) (out ++ [mk_executed (fmt_sql stmt) n1]) (add_rows total n1) (with_connection e k) w1 Hw1)
      as (r & e' & -> & Hc' & Hto & w2 & Hw2 & Hall).
    exists r, e'. split; [done |]. split; [by rewrite Hc' |]. split; [eapply rtc_l; [by eapply ByCommand | exact Hto] |].
    exists w2. split; [done |]. intros p Hp. destruct (Hall p Hp) as [-> Hran].
    split; [by rewrite Hok | ]. rewrite Hran, fmap_app, <- app_assoc. done.
  - eexists _, _. split; [reflexivity |]. split; [done |]. split; [by eapply reaches_run |]. exists w1. by split.
Qed.

(** Whether a transaction is left open when a batch is over: none is, unless one of the
    commands that begin and end it, sent on the way from [k] to [k'], failed. *)
Definition batch_closed (k k' : K) : Prop :=
  working k' = None
  \/ exists sql k1 k2 c, sql ∈ [BEGIN; COMMIT; ROLLBACK] /\ reaches k k1 /\ run sql k1 = Val (Err c, k2)
       /\ reaches k2 k' /\ working k' = working k2.

(** What is committed, and open, when a batch is over that took the connection from [k]
    to [k']. *)
Definition batch_done (stmts : list (list Z)) (k : K) (r : result (list Executed * Z * list Z) McpError) (k' : K) : Prop :=
  let all := applied K stmts (committed k) in
  match r with
  | Ok (ran, _, op) => committed k' = all /\ working k' = None /\ op = str "transaction" /\ ran_sql <$> ran = fmt_sql <$> stmts
  | Err err => batch_closed k k' /\
      (committed k' = committed k
       \/ (committed k' = all /\ exists (k1 k2 : K) c, run COMMIT k1 = Val (Err c, k2) /\ err = from_api show c))
  end.

Lemma transaction_runs stmts (e : Engine K) :
  Forall (transactional (K := K)) stmts -> working (connection e) = None ->
  exists r e', in_transaction show fmt_sql stmts e = Returned r e' /\ batch_done stmts (connection e) r (connection e').
Proof.
  intros Ht Hw. unfold in_transaction, execute_in_transaction, tool_bind at 1 2.
  destruct (command_returns BEGIN e) as (r & k & Hr & ->). destruct (tx_begin _ _ _ Hw Hr) as [Hc Hw1].
  destruct r as [n | c]; [| eexists _, _; split; [reflexivity |]; split; [right; exists BEGIN, (connection e), k, c | by left]].
  2: { split_and!; [set_solver | done | exact Hr | done | done]. }
  specialize (Hw1 eq_refl).
  destruct (statements_run stmts 0 (length stmts) [] 0 (with_connection e k) _ Ht Hw1) as (r & e1 & -> & Hc1 & Hto & w & Hw2 & Hall).
  cbn [connection with_connection] in *. assert (Hto1 : reaches (connection e) (connection e1)) by (eapply rtc_l; [by eapply ByCommand | exact Hto]).
  assert (Hfailed : forall sql c k2, sql ∈ [BEGIN; COMMIT; ROLLBACK] -> run sql (connection e1) = Val (Err c, k2) -> batch_closed (connection e) k2).
  { intros sql c k2 Hsql Hrun. right. by exists sql, (connection e1), k2, c. }
  destruct r as [[out total] | err].
  - destruct (Hall _ eq_refl) as [-> Hran]. unfold tool_bind. destruct (command_returns COMMIT e1) as (r & k2 & Hr2 & ->).
    pose proof (tx_commit _ _ _ _ Hw2 Hr2) as Hcommit. destruct r as [m | c]; (eexists _, _; split; [reflexivity |]); cbn [connection with_connection].
    + destruct Hcommit as [[Hk Hn] | [? _]]; [| done]. by split_and!.
    + split; [apply (Hfailed COMMIT c); [set_solver | done] |].
      destruct Hcommit as [[-> _] | [_ Hc2]]; [right; split; [done | by eexists _, _, _] | left; by rewrite Hc2, Hc1].
  - unfold tool_bind, attempt. destruct (command_returns ROLLBACK e1) as (r & k2 & Hr2 & ->).
    destruct (tx_rollback _ _ _ _ Hw2 Hr2) as [Hc2 Hn]. eexists _, _. split; [reflexivity |]. cbn [connection with_connection].
    split; [| left; by rewrite Hc2, Hc1]. destruct r as [m | c]; [left; by apply Hn | apply (Hfailed ROLLBACK c); [set_solver | done]].
Qed.

(** A request before the batch and one after it that keep out of transactions. *)
Lemma batch_done_around stmts (k k1 k2 k' : K) r :
  reaches k k1 -> committed k1 = committed k -> batch_done stmts k1 r k2 ->
  reaches k2 k' -> committed k' = committed k2 -> working k' = working k2 -> batch_done stmts k r k'.
Proof.
  intros Hto Hc1 Hdone Hto' Hc' Hw'. unfold batch_done in *. rewrite Hc1 in Hdone. rewrite Hc'. destruct r as [[[ran total] op] | err].
  { by rewrite Hw'. }
  destruct Hdone as [Hclosed Hc]. split; [| done]. destruct Hclosed as [Hn | (sql & j1 & j2 & c & Hsql & Ha & Hr & Hb & Hw)].
  - left. by rewrite Hw'.
  - right. exists sql, j1, j2, c. split_and!; [done | by etrans | done | by etrans | by rewrite Hw'].
Qed.

Lemma batch_runs target_db stmts (e : Engine K) :
  (forall alias, target_db = Some alias -> alias ∈ names /\ primary_db_name e ∈ names) ->
  (1 < length stmts)%nat -> Forall (transactional (K := K)) stmts -> working (connection e) = None ->
  exists r e', execute_batch show fmt_sql target_db stmts e = Returned r e'
    /\ batch_done stmts (connection e) r (connection e').
Proof.
  intros Hnames Hlen Ht Hw. unfold execute_batch.
  assert (batch_body show fmt_sql stmts = in_transaction show fmt_sql stmts) as -> by (destruct stmts as [| s [| s' l]]; [done | cbn in Hlen; lia | done]).
  destruct target_db as [alias |]; [| by apply transaction_runs].
  destruct (Hnames alias eq_refl) as [Halias Hprimary].
  unfold with_search_path, tool_bind at 1. destruct (command_returns (set_search_path alias) e) as (r & k & Hr & ->).
  destruct (path_law _ _ _ _ Halias Hr) as [Hc Hwk].
  destruct r as [n | c]; [| eexists _, _; split; [reflexivity |]; split; [left; cbn; congruence | by left]].
  destruct (transaction_runs stmts (with_connection e k) Ht ltac:(cbn; congruence)) as (r & e1 & -> & Hdone). cbn [state_of].
  destruct (command_returns (set_search_path (primary_db_name e)) e1) as (r' & k' & Hr' & ->).
  destruct (path_law _ _ _ _ Hprimary Hr') as [Hc' Hw']. eexists _, _. split; [reflexivity |]. cbn [connection with_connection] in *.
  eapply batch_done_around; [by eapply rtc_once, ByCommand | done | exact Hdone | by eapply rtc_once, ByCommand | done | done].
Qed.
End atomic.

(** ** The property *)

(** C14. A batch of [execute] is all or nothing. A batch of several statements that the
    validator lets through, and none of which the classifier leaves undecided, holds no
    DDL, no read and nothing that would end its transaction. Whatever statement fails,
    whichever database it is routed to, it has been carried out as a whole when the call
    succeeds, with one answer for each of its statements in their order, and not at all
    when it fails, but for a COMMIT that reports an error though it took effect. And
    nothing of it stays pending: no transaction is open when the call returns, unless it
    was its BEGIN, its COMMIT or its ROLLBACK that failed. *)
Theorem execute_atomic {K S} `{!McpConnection K} `{!TotalClient K} `{!TxServer K S} names `{!BatchServer K S names} show fmt_sql target_db stmts (e : Engine K) :
  (forall alias, target_db = Some alias -> alias ∈ names /\ primary_db_name e ∈ names) ->
  validate_execute_batch stmts = Val (Ok tt) -> (1 < length stmts)%nat ->
  Forall (fun s => SqlClassify.classify_statement s <> Val SqlClassify.KOther) stmts -> working (connection e) = None ->
  Forall (fun s => SqlClassify.classify_statement s = Val SqlClassify.Dml) stmts
  /\ exists r e', execute_batch show fmt_sql target_db stmts e = Returned r e'
    /\ batch_done (K := K) show fmt_sql stmts (connection e) r (connection e').
Proof.
  intros Hnames (Hne & kinds & Hk & Hddl)%validate_ok Hlen Hother Hw.
  assert (Hdml : Forall (fun s => SqlClassify.classify_statement s = Val SqlClassify.Dml) stmts).
  { apply list.Forall_forall. intros s Hs. apply list_elem_of_lookup in Hs as [i Hi]. 
    destruct (Forall2_lookup_l _ _ _ _ _ Hk Hi) as (kind & Hkind & _ & Hc & Hr & Ht).
    pose proof (Forall_lookup_1 _ _ _ _ Hother Hi) as Ho. cbn in Ho. destruct kind; try done.
    exfalso. apply list_elem_of_lookup_2 in Hkind. apply Hddl in Hkind. lia. }
  split; [done |]. apply (batch_runs names); [exact Hnames | done | | done]. eapply Forall_impl; [| exact Hdml]. cbn. intros s. apply dml_law.
Qed.

(** ** A server in memory, for the witness *)

Definition sample_names : list (list Z) := [PERSISTENT_ALIAS; str "scratch"].

Definition is_path (sql : list Z) : bool := bool_decide (sql ∈ set_search_path <$> sample_names).

#[local] Instance batch_mcp : McpConnection Memory := {
  mcp_client := {| run sql m := Val (if is_path sql then (Ok 0, m) else memory_run sql m); close_client m := Val (Ok tt, m) |};
  query_json sql m := Val (Ok [], m);
  path_exists _ _ := true;
}.

#[local] Instance batch_total : @TotalClient Memory (@mcp_client Memory batch_mcp).
Proof.
  split; intros; cbn [run close_client mcp_client batch_mcp]; [| eexists _, _; reflexivity].
  destruct (is_path sql); eexists _, _; [reflexivity | exact (f_equal Val (surjective_pairing _))].
Defined.

Lemma dml_plain sql : SqlClassify.classify_statement sql = Val SqlClassify.Dml ->
  is_path sql = false /\ (sql ∉ [BEGIN; COMMIT; ROLLBACK]).
Proof.
  intros H. assert (Hne : forall sql', SqlClassify.classify_statement sql' <> Val SqlClassify.Dml -> sql <> sql') by (intros sql' Hs ->; done).
  split.
  - apply bool_decide_eq_false_2. unfold sample_names. cbn [fmap list_fmap]. rewrite !elem_of_cons, elem_of_nil.
    intros [Hs | [Hs | []]]; revert Hs; apply Hne; vm_compute; congruence.
  - rewrite !not_elem_of_cons. split_and!; [| | | apply not_elem_of_nil]; apply Hne; vm_compute; congruence.
Qed.

#[local] Instance batch_tx : @TxServer Memory (list (list Z)) (@mcp_client Memory batch_mcp).
Proof.
  refine {| committed := stored; working := pending; effect sql s := s ++ [sql];
            transactional sql := SqlClassify.classify_statement sql = Val SqlClassify.Dml |}; cbn [run mcp_client batch_mcp].
  - intros k r k' Hw. change (is_path BEGIN) with false. intros H. apply (tx_begin (TxServer := memory_server) k r k' Hw H).
  - intros sql k w r k' Hs Hw. destruct (dml_plain sql Hs) as [-> Hp]. intros H. apply (tx_command (TxServer := memory_server) sql k w r k' Hp Hw H).
  - intros k w r k' Hw. change (is_path COMMIT) with false. intros H. apply (tx_commit (TxServer := memory_server) k w r k' Hw H).
  - intros k w r k' Hw. change (is_path ROLLBACK) with false. intros H. apply (tx_rollback (TxServer := memory_server) k w r k' Hw H).
Defined.

#[local] Instance batch_server : @BatchServer Memory (list (list Z)) batch_mcp batch_tx sample_names.
Proof.
  split; [done |]. intros name k r k' Hn. cbn [run mcp_client batch_mcp].
  assert (is_path (set_search_path name) = true) as -> by (apply bool_decide_eq_true_2, list_elem_of_fmap; by exists name).
  by intros [= <- <-].
Defined.

Definition sample_batch : list (list Z) := [str "INSERT INTO t VALUES (1)"; str "/* two */ DELETE FROM u"; str "UPDATE v SET x = 1"].
Definition sample_engine : Engine Memory := mk_engine (mk_memory [str "old"] None true) false (str "/tmp/scratch.hyper") None false ∅.
Definition sample_show : Api.Error -> list Z := display (fun _ => []) (fun s => s) (fun _ => []).

Example sample_executed :
  match execute_batch sample_show (fun s => s) (Some PERSISTENT_ALIAS) sample_batch sample_engine with
  | Returned (Ok (ran, total, op)) e => (affected_rows <$> ran, total, stored (connection e))
  | _ => ([], 0, [])
  end = ([1; 1; 1], 3, str "old" :: sample_batch).
Proof. vm_compute. reflexivity. Qed.

Lemma execute_atomic_witness :
  validate_execute_batch sample_batch = Val (Ok tt)
  /\ Forall (fun s => SqlClassify.classify_statement s = Val SqlClassify.Dml) sample_batch
  /\ exists r e', execute_batch sample_show (fun s => s) (Some PERSISTENT_ALIAS) sample_batch sample_engine = Returned r e'
     /\ batch_done (K := Memory) sample_show (fun s => s) sample_batch (connection sample_engine) r (connection e').
Proof.
  split; [vm_compute; reflexivity |].
  refine (execute_atomic sample_names sample_show (fun s => s) (Some PERSISTENT_ALIAS) sample_batch sample_engine _ _ _ _ eq_refl).
  - intros alias [= <-]. split; [left |]. right. left.
  - vm_compute. reflexivity.
  - cbn. lia.
  - repeat constructor; vm_compute; congruence.
Defined.
